(* ===== verification/_CoqProject ===== *)
-Q . S2P
Prelude.v
BerTlv.v
ApduStatus.v
ApduCommand.v
ApduIso7816.v
Pkcs15Fs.v
Pkcs15Aod.v
AuthCredentials.v
CardTrace.v
AuthCard.v
PaceChannel.v
PaceCrypto.v
PaceCardAccess.v
PaceSm.v
PaceHandshake.v
Sign.v
Atr.v
CcidCodec.v
CcidDescriptor.v
CcidEngine.v
CcidTransport.v
RappState.v
RappCbor.v
RappWire.v
RappOperation.v
RappMessage.v
RappEngines.v
RappPairRecord.v
RappNoise.v
RappChannel.v
RappSession.v
RappDiscovery.v
RappOffer.v
RappCandidates.v
RappPairing.v
RappBleSar.v
RappTimers.v
Pkcs15TokenInfo.v
Pkcs11PinCache.v
Pkcs11Sign.v
Pkcs11Slot.v
Pkcs11Card.v
Pkcs11State.v
EmrtdFile.v
EmrtdData.v
X509Key.v
