(* ===== verification/Prelude.v ===== *)
(** * A verification library for refineid-core

    refineid-core talks to electronic identity cards.  Its crates are layered:
    byte codecs (BER-TLV, ISO 7816-4 commands and status words, the Answer to
    Reset), a transport port that exchanges commands with a card and its CCID
    driver for USB readers, the PKCS#15 file system of the card, the credential
    operations (PIN verification, change, unblock and activation, with a retry
    floor that protects the card from a last wrong try), PACE with its secure
    messaging, the signing commands, the travel-document application, the
    PKCS#11 module that offers the card to other programs, and RAPP, the protocol through which a
    requester on one device uses a card held by a custodian on another: three
    state machines, a strict CBOR wire format, sequence-numbered envelopes,
    typed messages, the engines of an operation and a Bluetooth framing.  This
    library models these layers and proves what makes each correct.

    ** Conventions

    A Rust [Result] is [result]; [?] is [let?].  A method on a mutable
    receiver is a computation [exec S E A]: it takes the state and returns the
    result with the state it leaves, an error included; [do?] sequences.  A
    panic ([fault], [Panicked]) is told apart from a returned error, and the
    theorems about calls that index slices say that none happens.  A [w]-bit
    integer is a [Z] with its checked, saturating or truncating operation
    written out; [usize] and C's [unsigned long] are 64 bits wide, as on the
    64-bit Unix targets (on Windows the latter has 32, which is not modelled).
    A byte string is a [list Z] and
    [all_bytes] its range; a [String] is its UTF-8 bytes; a [BTreeMap] is an
    association list in key order.  A type-state wrapper whose only content is
    its invariant is modelled by its data, and the invariant is proved of the
    constructors.

    ** The files

    - [Prelude]: results, computations, panics, machine integers, slices,
      big-endian conversion, chunks; the tactics and the hint database.
    - [BerTlv] (Module [Ber]): crates/ber/src/lib.rs.  Encoder, parser, child
      iterator, typed records.
    - [ApduStatus] (Module [Status]): crates/apdu/src/status_word.rs.
    - [ApduCommand] (Module [Apdu]): crates/apdu/src/primitives.rs and
      command.rs.  Commands, chaining, the wrong-Le correction, credential
      commands.
    - [ApduIso7816] (Module [Iso7816]): crates/apdu/src/iso7816.rs and
      transport.rs.  The command builders, and the class [CardTransport]: the
      port every component above is written against and proved for, so its
      theorems hold of any adapter and any card.
    - [Pkcs15Fs] (Module [Pkcs15]): crates/pkcs15/src/fs.rs.  SELECT chains and
      the READ BINARY loops.
    - [Pkcs15Aod] (Module [Aod]): crates/pkcs15/src/aod.rs and the read of the
      directory.
    - [Pkcs15TokenInfo] (Module [TokenInfo]): crates/pkcs15/src/token_info.rs,
      token_serial.rs and the read of the file.
    - [AuthCredentials] (Module [Credentials]): crates/auth/src/credentials.rs
      and retry_risk.rs, crates/pin-cache/src/lib.rs.  The class [CachedPin] is
      the trait of the same name; HMAC-SHA-256 is a parameter.
    - [CardTrace] (Module [Trace]): the instance [traced] of the port, which
      records what a card is sent, and the reasoning about such traces; the
      safety theorems of the layers above are about them.
    - [AuthCard] (Module [Auth]): crates/auth/src/verify.rs, pin_lengths.rs,
      activation.rs, manage.rs.
    - [PaceChannel] (Module [PaceChannel]): crates/auth/src/pace_channel.rs.
      The channel traits are classes with their laws; the operations and
      theorems are against them, and [PaceSm] discharges the laws.
    - [PaceCrypto], [PaceCardAccess], [PaceSm], [PaceHandshake] (Modules
      [PaceCrypto], [CardAccess], [Sm], [Handshake]): crates/pace/src.  AES,
      CMAC, SHA-256 and the curves are the classes [Symmetric] and [PaceCurve].
    - [Sign] (Module [Sign]): crates/sign/src/lib.rs, commands.rs, container.rs.
    - [Atr] (Module [Atr]): crates/atr/src/lib.rs.
    - [CcidCodec], [CcidDescriptor], [CcidEngine], [CcidTransport] (Modules
      [Ccid], [Descriptor], [Engine], [Transport]): crates/ccid/src/codec.rs,
      error.rs, descriptor.rs, engine.rs and transport.rs.  [CcidTransport] is
      an instance of the port; the USB host and the clock are classes.
    - [RappState] (Module [RappState]): crates/rapp/src/state.rs and the
      published tables, doc/protocols/rapp-state-machine-v26.11.2.yaml.
    - [RappCbor] (Module [Cbor]), [RappWire] (Module [Wire]):
      crates/rapp/src/wire.rs with the constants and the session identifier of
      types.rs.
    - [RappOperation] (Module [Op]): crates/rapp/src/operation.rs, result.rs.
    - [RappMessage] (Module [Msg]): crates/rapp/src/message.rs, display_name.rs.
    - [RappEngines] (Module [Engines]): crates/rapp/src/authorization.rs,
      proxy_engine.rs and requester_engine.rs.
    - [RappPairRecord] (Module [PairRecord]): crates/rapp/src/pairing.rs.  The
      record of a pairing, its stored form and its changes; the device's store
      is a computation with the law [AtomicStore].
    - [RappNoise] (Module [Noise]): crates/rapp/src/noise.rs.  The handshake of
      a session; X25519, SHA-512 and ChaCha20-Poly1305 are classes.
    - [RappChannel] (Module [Channel]): crates/rapp/src/crypto.rs and
      transport.rs.  Handshake and secure channels; the [snow] package is the
      class [SnowApi] with its laws.
    - [RappSession] (Module [Session]): crates/rapp/src/session_flow.rs,
      endpoint.rs and session_end.rs.
    - [RappDiscovery] (Module [Discovery]): crates/rapp/src/txt.rs,
      pair_keys.rs, withdrawal.rs and announcement.rs.
    - [RappOffer] (Module [Offer]): crates/rapp/src/offer.rs and the transport
      entries of transport.rs.
    - [RappCandidates] (Module [Candidates]): crates/rapp/src/
      pairing_candidates.rs, with the abstract search it implements.
    - [RappPairing] (Module [Pairing]): crates/rapp/src/pairing_flow.rs.
    - [RappBleSar] (Module [BleSar]): crates/rapp/src/ble_sar.rs.
    - [RappTimers] (Module [Timers]): crates/rapp/src/liveness.rs and
      pairing_attempts.rs.
    - [Pkcs11PinCache] (Module [PinCache]): crates/pkcs11/src/pin.rs and
      pin_cache.rs.  The operations of many threads on one cache are sequences
      of [event]s, with the values out on checkouts beside the cache.
    - [Pkcs11Sign] (Modules [Ck], [CardSign]): crates/pkcs11/src/sign.rs and the
      constants of ck.rs.
    - [Pkcs11Slot] (Module [Slot]): crates/pkcs11/src/slot_kind.rs and the data
      of remote.rs; the [hex] package is the class [Hex] with its laws.
    - [Pkcs11Card] (Module [CardOps]): the login and the signature of
      crates/pkcs11/src/token.rs, over the class [PcscPort] of the PC/SC calls
      around a PIN transaction.
    - [Pkcs11State] (Module [State]): crates/pkcs11/src/state.rs and the object
      handles of token.rs.  The process's shared caches are references into a
      heap; the readers are the class [SlotProber].
    - [EmrtdFile], [EmrtdData] (Modules of the same names): crates/emrtd/src.
      The reads of the travel-document application and its data groups; a card
      that serves them is the class [ServesEmrtd].
    - [X509Key] (Module [X509]): crates/x509/src/lib.rs.  The walk of a
      certificate to its public key and the key's serialization.

    Definitions carry the source's names; where two methods share a name, the
    type is put first ([Envelope_decode]), and constructors of enums that clash
    carry a letter ([P_], [S_], [O_] for the states, [PE_], [SE_], [OE_] for
    the events and [A_] for the actions of the machines).

    ** What the theorems show

    - Codecs: what is encoded is decoded, whatever follows; what is decoded
      lies within the input; and for CBOR, envelopes, typed requests and the
      Answer to Reset the accepted inputs are exactly the encodings of valid
      values.
    - Commands: chained commands carry all the data, credential commands hold
      exactly the padded credential and never overflow, and only reads are
      ever corrected and sent again.
    - Files: the read loops end on any card, and on a card that serves a file
      they return it; a directory yields exactly the credentials it lists.
    - Credentials: no probe presents a credential; the PUK leaves the host
      only after a counter reading the floor serves; activation presents its
      code only to a PIN that awaits it; a PIN the card rejected is never
      offered again.
    - PACE: nothing secret follows the first command unless the floor serves
      its answer; with a card that follows the protocol both ends hold the same
      keys; a sequence of operations on a channel leaves at least two tries of its
      credential, less one for every answer lost on the way.  Secure messaging is transparent to the commands above
      it and to reads at direct offsets, accepts a response only with a valid tag under the counter of its
      exchange, and never uses a counter twice.
    - Signing: the chains of commands of both card families byte for byte; a
      presented PIN yields one key; a qualified signature is made only right
      after the card accepted PIN 2.
    - CCID: every operation is answered once, a pending one times out, the
      driver's loop ends with the answer of its operation, and a credential
      command leaves the host once.
    - RAPP: the machines are the published ones, and over every run no failure
      revokes a pairing, nothing secret outlives its state, and an operation
      uses the card at most once, on the user's approval, and answers once
      unless its session closes; a receiver
      takes each number once and in order, and what a sender seals arrives.
      The two engines joined serve a request that fits its frames end to end.
    - Pairing: offers and busy answers are read exactly when valid; the tries
      of a code stay within its limits and are reported truly; two devices with
      one secret and equal grants end with records of one pairing, and without
      that agreement, on the wire, there is no record.  A stored record is the one in memory,
      and it expires exactly when idle.
    - Sessions: from the records of a pairing the handshake opens a session,
      what is sent arrives, nothing follows a close, and a custodian hears a
      hello first.  A withdrawal reaches the requester it concerns.
    - PKCS#11: a PIN1 is handed out only to the card that accepted it, under the
      insertion count it was accepted at, and within one device's cache never
      once the card refused it; an operation presents at most one, under the
      counter and serial it read; only well-formed digests are signed, with
      their value kept; slots keep their devices and handles their objects
      along every run; a moved card is forgotten, a login ends with its last
      session, and slot events are reported once.
    - Travel documents: the reads stay within the declared length on any card,
      that length is the parser's, and of a card that serves its data groups
      the document number and the face are read.
    - Clocks and framing: a message cut for Bluetooth is put together again,
      no fragment breaks the machine; liveness and attempt admission follow
      the clock exactly.

    ** Fuel and bounds

    The CBOR decoder recurses on the nesting limit the source enforces (nine
    levels).  The READ BINARY loops and the directory walk take fuel: each
    iteration that continues adds a byte to a buffer capped at 16384 bytes, or
    consumes at least two bytes of the input, and the theorems show that the
    fuel the definitions start with is never exhausted; so do the reads of
    travel-document files and the walk over the segments of a JPEG.  [chunks] takes the
    length of its list, and each piece is at least one element.  The loops over
    the interface bytes and the historical bytes of an Answer to Reset, over
    USB descriptors and over the blocks of a CCID transfer start with one unit
    per input byte, which every round that continues consumes.  The rejection
    sampling of PACE is bounded by the draws the random generator is given
    ([OutOfDraws]).  GET RESPONSE takes at most the 256 rounds of the source.
    The action loop of the CCID driver has no bound in the source: it takes the
    fuel as an argument, [Unfinished] marks the loop that has not ended, and a
    theorem shows that it ends.

    ** What is not modelled

    Cryptography (hash functions, ciphers, curves, CPace, Noise) is third-party
    code: it appears as classes with the laws the code relies on.
    Operating-system I/O (PC/SC, USB, sockets, the C entry points of PKCS#11),
    generated bindings, [Display] and [Debug] output and the zeroization of
    memory have no behaviour that a functional model observes.  Of what remains,
    the CMS structures and the document-signing formats read and build DER,
    XML, PDF and ZIP in large part through third-party packages, on which their
    behaviour rests; the RAPP runtime
    schedules the engines modelled here over sockets and threads; the entry
    points of PKCS#11 copy values across raw pointers, and its attribute
    queries read certificates parsed by a third-party package; the host's
    remote signing source is the host's own code. *)

From stdpp Require Import base list list_numbers.
From stdpp Require Import gmap strings.
From Stdlib Require Import ZArith Lia.

#[global] Open Scope Z_scope.

(** ** Rust's [Result] and the [?] operator *)

Inductive result (E A : Type) : Type :=
  | Ok (a : A)
  | Err (e : E).
Arguments Ok {E A} _.
Arguments Err {E A} _.

#[export] Instance result_eq_dec {E A} `{EqDecision E, EqDecision A} :
  EqDecision (result E A).
Proof. solve_decision. Defined.

Definition is_ok {E A} (r : result E A) : bool :=
  match r with Ok _ => true | Err _ => false end.

Definition rbind {E A B} (r : result E A) (k : A -> result E B) : result E B :=
  match r with Ok a => k a | Err e => Err e end.

Definition map_err {E F A} (f : E -> F) (r : result E A) : result F A :=
  match r with Ok a => Ok a | Err e => Err (f e) end.

Definition rmap {E A B} (f : A -> B) (r : result E A) : result E B :=
  match r with Ok a => Ok (f a) | Err e => Err e end.

Definition ok_or {E A} (o : option A) (e : E) : result E A :=
  match o with Some a => Ok a | None => Err e end.

Declare Scope rust_scope.
Delimit Scope rust_scope with rust.
#[global] Open Scope rust_scope.

(** [let? x := e in k] is [let x = e?; k]. *)
Notation "'let?' x := e 'in' k" := (rbind e (fun x => k))
  (at level 10, x binder, e at level 200, k at level 200) : rust_scope.

(** ** A state and error monad for methods on [&mut self]

    A method [fn f(&mut self, ..) -> Result<A, E>] is a function from the
    state to the result and the state it leaves behind.  An error keeps the
    mutations made before it, as in Rust. *)

Definition exec (S E A : Type) : Type := S -> result E A * S.

Definition eret {S E A} (a : A) : exec S E A := fun s => (Ok a, s).
Definition efail {S E A} (e : E) : exec S E A := fun s => (Err e, s).
Definition ebind {S E A B} (m : exec S E A) (k : A -> exec S E B) : exec S E B :=
  fun s => match m s with
           | (Ok a, s') => k a s'
           | (Err e, s') => (Err e, s')
           end.
Definition elift {S E A} (r : result E A) : exec S E A := fun s => (r, s).
Definition emap_err {S E F A} (f : E -> F) (m : exec S E A) : exec S F A :=
  fun s => let '(r, s') := m s in (map_err f r, s').

Notation "'do?' x <- m ;; k" := (ebind m (fun x => k))
  (at level 10, x binder, m at level 99, k at level 200) : rust_scope.

(** A computation that may also panic: an out-of-range slice or index ends the
    call, and is told apart from the errors the call returns. *)
Inductive fault (E : Type) : Type :=
  | Raised (e : E)
  | Panicked.
Arguments Raised {E} _.
Arguments Panicked {E}.

(** [None] of a slice operation is its panic. *)
Definition or_panic {S E A} (o : option A) : exec S (fault E) A :=
  fun s => match o with Some a => (Ok a, s) | None => (Err Panicked, s) end.
Definition eraise {S E A} (e : E) : exec S (fault E) A := efail (Raised e).
Definition elift_raise {S E A} (r : result E A) : exec S (fault E) A :=
  elift (map_err Raised r).

(** ** Machine integers

    A [w]-bit unsigned integer is a [Z] in [0, 2^w).  [usize] is the 64-bit
    one: the crates run on 64-bit hosts. *)

Definition U8_MAX : Z := 255.
Definition U16_MAX : Z := 65535.
Definition U32_MAX : Z := 4294967295.
Definition U64_MAX : Z := 18446744073709551615.
Definition USIZE_MAX : Z := U64_MAX.

Definition is_uint (max z : Z) : Prop := 0 <= z <= max.
Abbreviation is_u8 := (is_uint U8_MAX).
Abbreviation is_u16 := (is_uint U16_MAX).
Abbreviation is_u32 := (is_uint U32_MAX).
Abbreviation is_u64 := (is_uint U64_MAX).

Definition try_from_uint (max z : Z) : option Z :=
  if (0 <=? z) && (z <=? max) then Some z else None.

Definition checked_add (max a b : Z) : option Z :=
  if a + b <=? max then Some (a + b) else None.
Definition checked_mul (max a b : Z) : option Z :=
  if a * b <=? max then Some (a * b) else None.
Definition checked_sub (a b : Z) : option Z :=
  if b <=? a then Some (a - b) else None.
Definition saturating_add (max a b : Z) : Z := Z.min max (a + b).
Definition saturating_sub (a b : Z) : Z := Z.max 0 (a - b).

(** ** Byte strings *)

Abbreviation bytes := (list Z).

Definition all_bytes (bs : bytes) : Prop := Forall is_u8 bs.
Definition is_u8b (z : Z) : bool := (0 <=? z) && (z <=? 255).
Definition all_bytesb (bs : bytes) : bool := forallb is_u8b bs.

Definition len {A} (l : list A) : Z := Z.of_nat (length l).

Definition is_empty {A} (l : list A) : bool :=
  match l with [] => true | _ => false end.

(** [l.get(i)]. *)
Definition get {A} (l : list A) (i : Z) : option A :=
  if i <? 0 then None else l !! Z.to_nat i.

(** [l.get(a..b)]: [None] when [a > b] or [b] is past the end. *)
Definition get_range {A} (l : list A) (a b : Z) : option (list A) :=
  if (0 <=? a) && (a <=? b) && (b <=? len l)
  then Some (take (Z.to_nat (b - a)) (drop (Z.to_nat a) l))
  else None.

(** [l[a..]] for an index already bounded by the length. *)
Definition drop_z {A} (l : list A) (a : Z) : list A := drop (Z.to_nat a) l.
Definition take_z {A} (l : list A) (a : Z) : list A := take (Z.to_nat a) l.

(** Big-endian bytes of an [n]-byte integer ([to_be_bytes]). *)
Fixpoint be_bytes (n : nat) (v : Z) : bytes :=
  match n with
  | O => []
  | S m => be_bytes m (Z.shiftr v 8) ++ [Z.land v 255]
  end.

(** The fold of [(acc << 8) | byte] over a byte string ([from_be_bytes]). *)
Definition be_fold (acc : Z) (bs : bytes) : Z :=
  fold_left (fun acc b => Z.lor (Z.shiftl acc 8) b) bs acc.
Definition be_value (bs : bytes) : Z := be_fold 0 bs.

(** [slice.chunks(n)]: consecutive pieces of [n] elements, the last shorter. *)
Fixpoint chunks_fuel {A} (fuel : nat) (n : nat) (l : list A) : list (list A) :=
  match fuel, l with
  | O, _ => []
  | _, [] => []
  | S f, _ => take n l :: chunks_fuel f n (drop n l)
  end.
Definition chunks {A} (n : nat) (l : list A) : list (list A) :=
  chunks_fuel (length l) n l.

Arguments len : simpl never.
Arguments get : simpl never.
Arguments get_range : simpl never.
Arguments take_z : simpl never.
Arguments drop_z : simpl never.

(** ** Automation *)

Create HintDb rust discriminated.
Create Rewrite HintDb rust_rw.

(** Split the boolean tests the code makes into their propositions. *)
Ltac to_prop :=
  repeat match goal with
  | H : (_ && _) = true |- _ => apply andb_prop in H; destruct H
  | H : (_ && _) = false |- _ => apply andb_false_iff in H
  | H : (_ || _) = false |- _ => apply orb_false_iff in H; destruct H
  | H : (_ || _) = true |- _ => apply orb_true_iff in H
  | H : negb _ = true |- _ => apply negb_true_iff in H
  | H : negb _ = false |- _ => apply negb_false_iff in H
  | H : (_ <? _) = true |- _ => apply Z.ltb_lt in H
  | H : (_ <? _) = false |- _ => apply Z.ltb_ge in H
  | H : (_ <=? _) = true |- _ => apply Z.leb_le in H
  | H : (_ <=? _) = false |- _ => apply Z.leb_gt in H
  | H : (_ =? _) = true |- _ => apply Z.eqb_eq in H
  | H : (_ =? _) = false |- _ => apply Z.eqb_neq in H
  | H : context [_ >? _] |- _ => rewrite Z.gtb_ltb in H
  | H : context [_ >=? _] |- _ => rewrite Z.geb_leb in H
  end.

(** Case on the condition of an [if] or the scrutinee of a [match] in the
    goal, keeping the equation as a proposition. *)
Ltac case_if :=
  match goal with
  | |- context [if ?b then _ else _] => let E := fresh "E" in destruct b eqn:E; to_prop
  end.
Ltac case_match_in H :=
  match type of H with
  | context [if ?b then _ else _] => let E := fresh "E" in destruct b eqn:E; to_prop
  | context [match ?x with _ => _ end] => let E := fresh "E" in destruct x eqn:E
  end.

(** Unfold the integer predicates for [lia]. *)
Ltac ulia :=
  unfold is_uint, U8_MAX, U16_MAX, U32_MAX, USIZE_MAX, U64_MAX, len in *; lia.

(** Decide an [if] whose condition follows from the context by arithmetic. *)
Ltac if_true :=
  match goal with
  | |- context [if ?b then _ else _] => replace b with true by ulia
  end.
Ltac if_false :=
  match goal with
  | |- context [if ?b then _ else _] => replace b with false by ulia
  end.

(** ** Lemmas on results *)

Lemma rbind_ok {E A B} (a : A) (k : A -> result E B) : rbind (Ok a) k = k a.
Proof. reflexivity. Qed.

Lemma rbind_ok_inv {E A B} (r : result E A) (k : A -> result E B) b :
  rbind r k = Ok b -> exists a, r = Ok a /\ k a = Ok b.
Proof. destruct r as [a|]; [|done]. intros Hk. by exists a. Qed.

Lemma map_err_ok_inv {E F A} (f : E -> F) (r : result E A) a : map_err f r = Ok a -> r = Ok a.
Proof. destruct r; [|done]. by intros [= ->]. Qed.

Lemma ok_or_inv {E A} (o : option A) (e : E) a : ok_or o e = Ok a -> o = Some a.
Proof. destruct o; [|done]. by intros [= ->]. Qed.

(** ** Lemmas on lists, slices and lengths *)

Lemma len_nonneg {A} (l : list A) : 0 <= len l.
Proof. unfold len. lia. Qed.

Lemma len_app {A} (l k : list A) : len (l ++ k) = len l + len k.
Proof. unfold len. rewrite length_app. lia. Qed.

Lemma len_cons {A} (x : A) (l : list A) : len (x :: l) = 1 + len l.
Proof. unfold len. simpl. lia. Qed.

Lemma len_nil {A} : len (@nil A) = 0.
Proof. reflexivity. Qed.

Lemma len_0_nil {A} (l : list A) : len l = 0 -> l = [].
Proof. destruct l; [done|]. rewrite len_cons. pose proof (len_nonneg l). lia. Qed.

Lemma is_empty_len {A} (l : list A) : is_empty l = (len l =? 0).
Proof.
  destruct l; [done|]. cbn [is_empty]. rewrite len_cons. pose proof (len_nonneg l).
  symmetry. apply Z.eqb_neq. lia.
Qed.

#[export] Hint Rewrite @len_app @len_cons @len_nil : rust_rw.

Lemma len_take_z {A} (l : list A) n : 0 <= n <= len l -> len (take_z l n) = n.
Proof. unfold take_z, len. intros. rewrite length_take. lia. Qed.

Lemma len_drop_z {A} (l : list A) n : 0 <= n <= len l -> len (drop_z l n) = len l - n.
Proof. unfold drop_z, len. intros. rewrite length_drop. lia. Qed.

Lemma take_drop_z {A} (l : list A) n : take_z l n ++ drop_z l n = l.
Proof. apply take_drop. Qed.

Lemma get_0_cons {A} (x : A) l : get (x :: l) 0 = Some x.
Proof. reflexivity. Qed.

Lemma get_range_spec {A} (l k : list A) a b :
  get_range l a b = Some k <->
  0 <= a <= b /\ b <= len l /\ k = take (Z.to_nat (b - a)) (drop (Z.to_nat a) l).
Proof.
  unfold get_range. case_if; split.
  - intros [= <-]. repeat split; lia.
  - intros (? & ? & ->). done.
  - done.
  - intros (? & ? & ->). exfalso. lia.
Qed.

Lemma get_range_len {A} (l k : list A) a b :
  get_range l a b = Some k -> len k = b - a.
Proof.
  intros (? & ? & ->)%get_range_spec. unfold len in *.
  rewrite length_take, length_drop. lia.
Qed.

(** The slice after a prefix of known length. *)
Lemma get_range_app {A} (p v q : list A) :
  get_range (p ++ v ++ q) (len p) (len p + len v) = Some v.
Proof.
  apply get_range_spec. repeat split; try (rewrite !len_app); unfold len in *; try lia.
  rewrite Nat2Z.id, drop_app_length.
  replace (Z.to_nat _) with (length v) by lia. by rewrite take_app_length.
Qed.

Lemma get_range_app' {A} (p v q : list A) a b :
  a = len p -> b = len p + len v -> get_range (p ++ v ++ q) a b = Some v.
Proof. intros -> ->. apply get_range_app. Qed.

Lemma get_app_len {A} (p : list A) x q : get (p ++ x :: q) (len p) = Some x.
Proof.
  unfold get, len. case_if; [lia|]. rewrite Nat2Z.id. by apply list_lookup_middle.
Qed.

Lemma try_from_uint_some max z : is_uint max z -> try_from_uint max z = Some z.
Proof. intros []. unfold try_from_uint. by if_true. Qed.

Lemma try_from_uint_none max z : max < z -> try_from_uint max z = None.
Proof. intros. unfold try_from_uint. by if_false. Qed.

Lemma get_range_suffix {A} (p q : list A) : get_range (p ++ q) (len p) (len (p ++ q)) = Some q.
Proof.
  apply get_range_spec. rewrite len_app. pose proof (len_nonneg p). pose proof (len_nonneg q).
  split_and!; try lia. unfold len. rewrite Nat2Z.id, drop_app_length.
  symmetry. apply take_ge. lia.
Qed.

Lemma get_range_prefix {A} (p rest : list A) n : n = len p -> get_range (p ++ rest) 0 n = Some p.
Proof.
  intros ->. change (p ++ rest) with ([] ++ p ++ rest).
  by apply get_range_app'.
Qed.

Lemma get_range_take {A} (l : list A) n : 0 <= n <= len l -> get_range l 0 n = Some (take_z l n).
Proof.
  intros Hn. rewrite <- (take_drop_z l n) at 1. apply get_range_prefix.
  by rewrite len_take_z.
Qed.

Lemma get_range_drop {A} (l : list A) n :
  0 <= n <= len l -> get_range l n (len l) = Some (drop_z l n).
Proof.
  intros Hn. apply get_range_spec. split_and!; [lia..|].
  unfold drop_z. symmetry. apply take_ge. rewrite length_drop. unfold len in *. lia.
Qed.

Lemma checked_add_some max a b : a + b <= max -> checked_add max a b = Some (a + b).
Proof. intros. unfold checked_add. by if_true. Qed.

(** ** Lemmas on byte strings and big-endian integers *)

Lemma all_bytes_app bs cs : all_bytes (bs ++ cs) <-> all_bytes bs /\ all_bytes cs.
Proof. apply Forall_app. Qed.

Lemma all_bytesb_spec bs : all_bytesb bs = true <-> all_bytes bs.
Proof.
  unfold all_bytesb, all_bytes. rewrite forallb_forall, List.Forall_forall.
  unfold is_u8b, is_uint, U8_MAX. split; intros H x Hx; specialize (H x Hx); lia.
Qed.

Lemma land_255 (v : Z) : Z.land v 255 = v mod 256.
Proof. change 255 with (Z.ones 8). by rewrite Z.land_ones by lia. Qed.

Lemma shiftr_8 (v : Z) : Z.shiftr v 8 = v / 256.
Proof. by rewrite Z.shiftr_div_pow2 by lia. Qed.

Lemma is_u8_land (v : Z) : is_u8 (Z.land v 255).
Proof.
  rewrite land_255. unfold is_uint, U8_MAX. pose proof (Z.mod_pos_bound v 256). lia.
Qed.

#[export] Hint Resolve is_u8_land : rust.

Lemma be_bytes_all n v : all_bytes (be_bytes n v).
Proof.
  revert v; induction n; intros; simpl; [constructor|].
  apply all_bytes_app. split; [done|]. repeat constructor; apply is_u8_land.
Qed.

Lemma length_be_bytes n v : length (be_bytes n v) = n.
Proof. revert v; induction n; intros; simpl; [done|]. rewrite length_app, IHn. simpl. lia. Qed.

Lemma len_be_bytes n v : len (be_bytes n v) = Z.of_nat n.
Proof. unfold len. by rewrite length_be_bytes. Qed.

Lemma be_fold_app acc bs cs : be_fold acc (bs ++ cs) = be_fold (be_fold acc bs) cs.
Proof. apply fold_left_app. Qed.

Lemma lor_shiftl_byte a b : is_u8 b -> Z.lor (Z.shiftl a 8) b = a * 256 + b.
Proof.
  intros [Hb0 Hb1]. unfold U8_MAX in *.
  assert (Z.land (Z.shiftl a 8) b = 0) as Hl.
  { apply Z.bits_inj'. intros i Hi. rewrite Z.land_spec, Z.bits_0.
    destruct (Z.ltb_spec i 8).
    - rewrite Z.shiftl_spec_low by lia. done.
    - rewrite (Z.bits_above_log2 b i), andb_false_r; try done.
      destruct (Z.eq_dec b 0) as [->|]; [simpl; lia|].
      apply Z.lt_le_trans with 8; [|lia]. apply Z.log2_lt_pow2; lia. }
  pose proof (Z.add_lor_land (Z.shiftl a 8) b) as Ha. rewrite Hl, Z.add_0_r in Ha.
  rewrite Z.shiftl_mul_pow2 in * by lia. change (2 ^ 8) with 256 in *. lia.
Qed.

Lemma be_fold_be_bytes n v :
  0 <= v < 256 ^ Z.of_nat n -> be_fold 0 (be_bytes n v) = v.
Proof.
  revert v; induction n; intros v Hv.
  - simpl in *. lia.
  - rewrite Nat2Z.inj_succ, Z.pow_succ_r in Hv by lia.
    cbn [be_bytes]. rewrite be_fold_app.
    rewrite IHn.
    + unfold be_fold. cbn [fold_left]. rewrite lor_shiftl_byte by apply is_u8_land.
      rewrite shiftr_8, land_255.
      pose proof (Z.div_mod v 256). lia.
    + rewrite shiftr_8. split.
      * apply Z.div_pos; lia.
      * apply Z.div_lt_upper_bound; lia.
Qed.

(** Decoding the big-endian bytes of a value in range gives it back. *)
Lemma be_value_be_bytes n v :
  0 <= v < 256 ^ Z.of_nat n -> be_value (be_bytes n v) = v.
Proof. apply be_fold_be_bytes. Qed.

Lemma be_fold_bound bs acc k :
  all_bytes bs -> 0 <= acc < 256 ^ k -> 0 <= k ->
  0 <= be_fold acc bs < 256 ^ (k + len bs).
Proof.
  revert acc k; induction bs as [|b bs IH]; intros acc k Hbs Hacc Hk.
  - replace (k + len []) with k by (unfold len; simpl; lia). done.
  - inversion Hbs as [|?? Hb Hbs']; subst. rewrite len_cons.
    change (be_fold acc (b :: bs)) with (be_fold (Z.lor (Z.shiftl acc 8) b) bs).
    rewrite lor_shiftl_byte by done.
    replace (k + (1 + len bs)) with ((k + 1) + len bs) by lia.
    apply IH; [done| |lia]. rewrite Z.pow_add_r by lia. destruct Hb. ulia.
Qed.

Lemma be_value_bound bs : all_bytes bs -> 0 <= be_value bs < 256 ^ len bs.
Proof.
  intros H. pose proof (be_fold_bound bs 0 0 H) as B. simpl in B. apply B; lia.
Qed.

(** Re-encoding a byte string's value at its own width gives it back. *)
Lemma be_bytes_be_value bs : all_bytes bs -> be_bytes (length bs) (be_value bs) = bs.
Proof.
  unfold be_value. induction bs as [|b bs IH] using rev_ind; intros Hbs; [done|].
  apply all_bytes_app in Hbs as [Hbs Hb]. inversion Hb as [|?? Hb' _]; subst.
  rewrite length_app, Nat.add_1_r. cbn [be_bytes]. rewrite be_fold_app.
  unfold be_fold at 1 3. cbn [fold_left]. fold (be_fold 0 bs).
  rewrite lor_shiftl_byte by done.
  destruct Hb'. unfold U8_MAX in *. f_equal.
  - rewrite shiftr_8.
    rewrite Z.div_add_l by lia. rewrite Z.div_small by lia. rewrite Z.add_0_r. auto.
  - f_equal. rewrite land_255. rewrite Z.add_comm, Z.mod_add by lia. apply Z.mod_small. lia.
Qed.

(** ** Chunks *)

Lemma chunks_fuel_concat {A} fuel n (l : list A) :
  (0 < n)%nat -> (length l <= fuel)%nat -> concat (chunks_fuel fuel n l) = l.
Proof.
  intros Hn. revert l; induction fuel as [|f IH]; intros l Hl.
  - destruct l; [done|simpl in Hl; lia].
  - destruct l as [|x l]; [done|]. cbn [chunks_fuel concat].
    rewrite IH; [apply take_drop|]. rewrite length_drop. simpl in *. lia.
Qed.

Lemma chunks_concat {A} n (l : list A) : (0 < n)%nat -> concat (chunks n l) = l.
Proof. intros. apply chunks_fuel_concat; [done|lia]. Qed.

Lemma chunks_fuel_bound {A} fuel n (l : list A) :
  Forall (fun c => (length c <= n)%nat) (chunks_fuel fuel n l).
Proof.
  revert l; induction fuel as [|f IH]; intros [|x l]; cbn [chunks_fuel]; constructor; auto.
  rewrite length_take. lia.
Qed.

Lemma chunks_fuel_nonempty {A} fuel n (l : list A) :
  (0 < n)%nat -> Forall (fun c => c <> []) (chunks_fuel fuel n l).
Proof.
  intros Hn. revert l; induction fuel as [|f IH]; intros [|x l]; cbn [chunks_fuel]; constructor; auto.
  destruct n; [lia|]. done.
Qed.
