(* ===== verification/BerTlv.v ===== *)
(** * BER-TLV encoder and decoder (crates/ber/src/lib.rs)

    The encoder appends records to an owned buffer ([BerEncoder]), the decoder
    reads one record from the front of a slice ([BerTlvAny.parse]) and the
    iterator walks the children of a constructed value ([BerTlvIter]).  The
    typed layer ([BerTlv]) carries the tag in its type, as the [BerTag] trait
    does in the source.

    The theorems: what the encoder writes the decoder reads back, whatever
    follows it; the encoder fails exactly on a malformed tag or a value past
    the four-byte long form; a parsed record is a slice of the input and at
    least two bytes long, so the iterator terminates; iterating over a
    concatenation of encoded records yields exactly those records. *)

From stdpp Require Import base list.
From Stdlib Require Import ZArith Lia.
From S2P Require Import Prelude.

Module Ber.

(** ** Constants *)

Definition SHORT_FORM_CEILING : Z := 0x80.
Definition LONG_FORM_1B : Z := 0x81.
Definition LONG_FORM_2B : Z := 0x82.
Definition LONG_FORM_3B : Z := 0x83.
Definition LONG_FORM_4B : Z := 0x84.
Definition U24_MAX : Z := Z.shiftl 1 24 - 1.
Definition MULTI_BYTE_TAG_MASK : Z := 0x1F.
Definition TAG_MORE_OCTETS : Z := 0x80.
Definition LENGTH_OCTET_COUNT_MASK : Z := 0x0F.

(** ** The encoder *)

Inductive BerEncodeError :=
  | LengthTooLarge (got : Z)
  | MalformedTag (tag : Z).

(** The owned buffer [out: Vec<u8>]. *)
Record BerEncoder := mkBerEncoder { out : bytes }.

Definition with_capacity (cap : Z) : BerEncoder := mkBerEncoder [].

Definition push (b : Z) : exec BerEncoder BerEncodeError unit :=
  fun self => (Ok tt, mkBerEncoder (out self ++ [b])).
Definition extend_from_slice (bs : bytes) : exec BerEncoder BerEncodeError unit :=
  fun self => (Ok tt, mkBerEncoder (out self ++ bs)).

Definition push_length (l : Z) : exec BerEncoder BerEncodeError unit :=
  let error := LengthTooLarge l in
  if l <? SHORT_FORM_CEILING then
    do? byte <- elift (ok_or (try_from_uint U8_MAX l) error) ;;
    push byte
  else match try_from_uint U8_MAX l with
  | Some byte =>
      do? _ <- push LONG_FORM_1B ;;
      push byte
  | None =>
  match try_from_uint U16_MAX l with
  | Some short =>
      do? _ <- push LONG_FORM_2B ;;
      extend_from_slice (be_bytes 2 short)
  | None =>
  if l <=? U24_MAX then
    do? wide <- elift (ok_or (try_from_uint U32_MAX l) error) ;;
    do? _ <- push LONG_FORM_3B ;;
    extend_from_slice (drop 1 (be_bytes 4 wide))
  else match try_from_uint U32_MAX l with
  | Some wide =>
      do? _ <- push LONG_FORM_4B ;;
      extend_from_slice (be_bytes 4 wide)
  | None => efail error
  end end end.

Definition push_tlv (tag : Z) (value : bytes) : exec BerEncoder BerEncodeError unit :=
  if Z.land tag MULTI_BYTE_TAG_MASK =? MULTI_BYTE_TAG_MASK then efail (MalformedTag tag)
  else
    do? _ <- push tag ;;
    do? _ <- push_length (len value) ;;
    extend_from_slice value.

Definition push_tlv_tag2 (tag2 : Z) (value : bytes) : exec BerEncoder BerEncodeError unit :=
  let tag_hi := Z.shiftr tag2 8 in
  let tag_lo := Z.land tag2 255 in
  if negb (Z.land tag_hi MULTI_BYTE_TAG_MASK =? MULTI_BYTE_TAG_MASK)
     || negb (Z.land tag_lo TAG_MORE_OCTETS =? 0)
  then efail (MalformedTag tag2)
  else
    do? _ <- push tag_hi ;;
    do? _ <- push tag_lo ;;
    do? _ <- push_length (len value) ;;
    extend_from_slice value.

Definition finish (self : BerEncoder) : bytes := out self.

Definition TLV_OVERHEAD_HINT : Z := 6.

Definition tlv (tag : Z) (value : bytes) : result BerEncodeError bytes :=
  let enc := with_capacity (saturating_add USIZE_MAX (len value) TLV_OVERHEAD_HINT) in
  let '(r, enc') := push_tlv tag value enc in
  let? _ := r in Ok (finish enc').

Definition tlv2 (tag2 : Z) (value : bytes) : result BerEncodeError bytes :=
  let enc := with_capacity (saturating_add USIZE_MAX (len value) TLV_OVERHEAD_HINT) in
  let '(r, enc') := push_tlv_tag2 tag2 value enc in
  let? _ := r in Ok (finish enc').

(** ** The decoder *)

Inductive BerError :=
  | Empty
  | Truncated
  | UnsupportedLengthForm
  | UnsupportedTagForm
  | IntegerOutOfRange
  | UnexpectedTag (expected got : Z).

Record BerTlvAny := mkBerTlvAny { tag : Z; value : bytes; size : Z }.

#[export] Instance BerError_eq_dec : EqDecision BerError.
Proof. solve_decision. Defined.
#[export] Instance BerTlvAny_eq_dec : EqDecision BerTlvAny.
Proof. solve_decision. Defined.

(** The closure [next] of [BerTlvAny::parse]: the byte at [idx], and the
    index after it. *)
Definition next_byte (bs : bytes) (idx : Z) (label_first_byte : bool)
  : result BerError (Z * Z) :=
  let? byte := ok_or (get bs idx)
                 (if label_first_byte && (idx =? 0) then Empty else Truncated) in
  Ok (byte, saturating_add USIZE_MAX idx 1).

Definition parse_tag (bs : bytes) (idx : Z) : result BerError (Z * Z) :=
  let? '(first, idx) := next_byte bs idx true in
  if Z.land first MULTI_BYTE_TAG_MASK =? MULTI_BYTE_TAG_MASK then
    let? '(second, idx) := next_byte bs idx false in
    if negb (Z.land second TAG_MORE_OCTETS =? 0) then Err UnsupportedTagForm
    else Ok (Z.lor (Z.shiftl first 8) second, idx)
  else Ok (first, idx).

Definition long_form_octets (len_first : Z) : option Z :=
  if (len_first =? LONG_FORM_1B) || (len_first =? LONG_FORM_2B)
     || (len_first =? LONG_FORM_3B) || (len_first =? LONG_FORM_4B)
  then Some (Z.land len_first LENGTH_OCTET_COUNT_MASK)
  else None.

Definition parse_length (bs : bytes) (idx : Z) : result BerError (Z * Z) :=
  let? '(len_first, idx) := next_byte bs idx false in
  if len_first <? SHORT_FORM_CEILING then Ok (len_first, idx)
  else
    let? nbytes := ok_or (long_form_octets len_first) UnsupportedLengthForm in
    let? len_bytes :=
      ok_or (get_range bs idx (saturating_add USIZE_MAX idx nbytes)) Truncated in
    Ok (be_value len_bytes, saturating_add USIZE_MAX idx nbytes).

Definition parse (bs : bytes) : result BerError BerTlvAny :=
  let? '(tag, idx) := parse_tag bs 0 in
  let? '(length, idx) := parse_length bs idx in
  let? value_end := ok_or (checked_add USIZE_MAX idx length) Truncated in
  let? value := ok_or (get_range bs idx value_end) Truncated in
  Ok (mkBerTlvAny tag value value_end).

(** ** The typed layer *)

Class BerTag (T : Type) := TAG : Z.
Arguments TAG T {_}.

Record BerTlv (T : Type) := mkBerTlv { typed_value : bytes; typed_size : Z }.
Arguments mkBerTlv {T} _ _.
Arguments typed_value {T} _.
Arguments typed_size {T} _.

Definition expect (T : Type) `{BerTag T} (self : BerTlvAny) : result BerError (BerTlv T) :=
  if negb (tag self =? TAG T) then Err (UnexpectedTag (TAG T) (tag self))
  else Ok (mkBerTlv (value self) (size self)).

Definition parse_typed (T : Type) `{BerTag T} (bs : bytes) : result BerError (BerTlv T) :=
  let? any := parse bs in expect T any.

Inductive Boolean := .
Inductive Integer := .
Inductive BitString := .
Inductive OctetString := .
Inductive Oid := .
Inductive Utf8String := .
Inductive PrintableString := .
Inductive Sequence := .
Inductive SetOf := .
#[export] Instance Boolean_tag : BerTag Boolean := 0x01.
#[export] Instance Integer_tag : BerTag Integer := 0x02.
#[export] Instance BitString_tag : BerTag BitString := 0x03.
#[export] Instance OctetString_tag : BerTag OctetString := 0x04.
#[export] Instance Oid_tag : BerTag Oid := 0x06.
#[export] Instance Utf8String_tag : BerTag Utf8String := 0x0C.
#[export] Instance PrintableString_tag : BerTag PrintableString := 0x13.
#[export] Instance Sequence_tag : BerTag Sequence := 0x30.
#[export] Instance SetOf_tag : BerTag SetOf := 0x31.

(** ** The children iterator *)

(** [BerTlvIter::next] on the remaining bytes: the item, and what remains. *)
Definition iter_next (remaining : bytes)
  : option (result BerError BerTlvAny) * bytes :=
  if is_empty remaining then (None, remaining)
  else match parse remaining with
  | Ok parsed =>
      (Some (Ok parsed), default [] (get_range remaining (size parsed) (len remaining)))
  | Err error => (Some (Err error), [])
  end.

(** Drain the iterator: at most [fuel] items. [None] when fuel runs out
    before the iterator ends. *)
Fixpoint iter_collect (fuel : nat) (remaining : bytes)
  : option (list (result BerError BerTlvAny)) :=
  match iter_next remaining with
  | (None, _) => Some []
  | (Some item, rest) =>
      match fuel with
      | O => None
      | S f => cons item <$> iter_collect f rest
      end
  end.

(** The iterator over a value; one step per remaining byte is enough fuel. *)
Definition children (v : bytes) : option (list (result BerError BerTlvAny)) :=
  iter_collect (length v) v.

(** What an iterator over a value yields. *)
Definition items (v : bytes) : list (result BerError BerTlvAny) := default [] (children v).

(** ** Lemmas *)

(** A complete one-byte tag, and a two-byte tag the crate frames. *)
Definition tag1_ok (t : Z) : Prop :=
  is_u8 t /\ Z.land t MULTI_BYTE_TAG_MASK <> MULTI_BYTE_TAG_MASK.
Definition tag2_ok (t : Z) : Prop :=
  is_u16 t /\ Z.land (Z.shiftr t 8) MULTI_BYTE_TAG_MASK = MULTI_BYTE_TAG_MASK
  /\ Z.land (Z.land t 255) TAG_MORE_OCTETS = 0.

(** The length octets [push_length] appends. *)
Definition length_octets (l : Z) : bytes :=
  if l <? 0x80 then [l]
  else if l <=? U8_MAX then [LONG_FORM_1B; l]
  else if l <=? U16_MAX then LONG_FORM_2B :: be_bytes 2 l
  else if l <=? U24_MAX then LONG_FORM_3B :: be_bytes 3 l
  else LONG_FORM_4B :: be_bytes 4 l.

Lemma drop_be_bytes_4 v : drop 1 (be_bytes 4 v) = be_bytes 3 v.
Proof. reflexivity. Qed.

Lemma U24_MAX_val : U24_MAX = 16777215.
Proof. reflexivity. Qed.

Lemma push_length_ok l self :
  is_u32 l -> push_length l self = (Ok tt, mkBerEncoder (out self ++ length_octets l)).
Proof.
  intros Hl. unfold push_length, length_octets, SHORT_FORM_CEILING.
  destruct (Z.ltb_spec l 0x80).
  { by rewrite try_from_uint_some by ulia. }
  destruct (Z.leb_spec l U8_MAX).
  { rewrite try_from_uint_some by ulia.
    unfold ebind, push. simpl. by rewrite <- app_assoc. }
  rewrite (try_from_uint_none U8_MAX) by ulia.
  destruct (Z.leb_spec l U16_MAX).
  { rewrite try_from_uint_some by ulia.
    unfold ebind, push, extend_from_slice. cbn [out]. by rewrite <- app_assoc. }
  rewrite (try_from_uint_none U16_MAX) by ulia.
  rewrite try_from_uint_some by ulia.
  case_if; unfold ebind, elift, ok_or, push, extend_from_slice;
    cbn [out]; rewrite ?drop_be_bytes_4, <- app_assoc; done.
Qed.

Lemma push_length_err l self :
  U32_MAX < l -> push_length l self = (Err (LengthTooLarge l), self).
Proof.
  intros Hl. unfold push_length, SHORT_FORM_CEILING, U24_MAX.
  if_false.
  rewrite !try_from_uint_none by ulia. change (Z.shiftl 1 24 - 1) with 16777215.
  by if_false.
Qed.

Lemma length_octets_len l : is_u32 l -> 1 <= len (length_octets l) <= 5.
Proof.
  intros Hl. unfold length_octets. rewrite ?U24_MAX_val.
  repeat case_if; rewrite ?len_cons, ?len_be_bytes, ?len_nil; lia.
Qed.

Lemma next_byte_at p b q f : len p < USIZE_MAX ->
  next_byte (p ++ b :: q) (len p) f = Ok (b, len p + 1).
Proof.
  intros. unfold next_byte. rewrite get_app_len. cbn. unfold saturating_add.
  f_equal. f_equal. lia.
Qed.

Lemma next_byte_0 b q f : next_byte (b :: q) 0 f = Ok (b, 1).
Proof. apply (next_byte_at []). done. Qed.

Lemma next_byte_1 a b q f : next_byte (a :: b :: q) 1 f = Ok (b, 2).
Proof. apply (next_byte_at [a]). done. Qed.

(** The long form read back: a marker and its big-endian octets. *)
Lemma parse_length_long p n m l q :
  len p < 100 -> long_form_octets m = Some (Z.of_nat n) -> 0x80 <= m ->
  0 <= l < 256 ^ Z.of_nat n -> (n <= 4)%nat ->
  parse_length (p ++ (m :: be_bytes n l) ++ q) (len p) = Ok (l, len p + 1 + Z.of_nat n).
Proof.
  intros Hp Hm Hm' Hl Hn. unfold parse_length. cbn [app].
  rewrite next_byte_at by ulia. cbn [rbind].
  unfold SHORT_FORM_CEILING. if_false. rewrite Hm. cbn [rbind ok_or].
  unfold saturating_add.
  replace (Z.min _ _) with (len p + 1 + Z.of_nat n) by ulia.
  replace (p ++ m :: be_bytes n l ++ q) with ((p ++ [m]) ++ be_bytes n l ++ q)
    by (by rewrite <- app_assoc).
  rewrite (get_range_app' (p ++ [m])) by (autorewrite with rust_rw; rewrite ?len_be_bytes; lia).
  cbn [rbind ok_or]. by rewrite be_value_be_bytes.
Qed.

Lemma parse_length_octets p l q :
  is_u32 l -> len p < 100 ->
  parse_length (p ++ length_octets l ++ q) (len p)
  = Ok (l, len p + len (length_octets l)).
Proof.
  intros [Hl0 Hl1] Hp. unfold length_octets. unfold U32_MAX in *. pose proof (len_nonneg p).
  destruct (Z.ltb_spec l 0x80).
  { unfold parse_length. cbn [app]. rewrite next_byte_at by ulia. cbn [rbind].
    unfold SHORT_FORM_CEILING. if_true. done. }
  destruct (Z.leb_spec l U8_MAX).
  { replace [LONG_FORM_1B; l] with (LONG_FORM_1B :: be_bytes 1 l)
      by (cbn; rewrite land_255, Z.mod_small by ulia; done).
    rewrite len_cons, len_be_bytes, Z.add_assoc.
    apply (parse_length_long p 1); try done; ulia. }
  destruct (Z.leb_spec l U16_MAX).
  { rewrite len_cons, len_be_bytes, Z.add_assoc.
    apply (parse_length_long p 2); try done; ulia. }
  rewrite U24_MAX_val. destruct (Z.leb_spec l 16777215).
  { rewrite len_cons, len_be_bytes, Z.add_assoc.
    apply (parse_length_long p 3); try done; ulia. }
  rewrite len_cons, len_be_bytes, Z.add_assoc.
  apply (parse_length_long p 4); try done; ulia.
Qed.

Lemma parse_tag1 t q : tag1_ok t -> parse_tag (t :: q) 0 = Ok (t, 1).
Proof.
  intros [_ Ht]. unfold parse_tag. rewrite next_byte_0. cbn [rbind].
  by rewrite (proj2 (Z.eqb_neq _ _) Ht).
Qed.

Lemma parse_tag2 t q :
  tag2_ok t -> parse_tag (Z.shiftr t 8 :: Z.land t 255 :: q) 0 = Ok (t, 2).
Proof.
  intros (Hu & Hhi & Hlo). unfold parse_tag.
  rewrite next_byte_0. cbn [rbind]. rewrite Hhi, Z.eqb_refl.
  rewrite next_byte_1. cbn [rbind]. rewrite Hlo. cbn [negb Z.eqb].
  rewrite lor_shiftl_byte by apply is_u8_land. rewrite shiftr_8, land_255.
  f_equal. f_equal. pose proof (Z.div_mod t 256). lia.
Qed.

(** Reading a record whose header octets [h] parse to [t]. *)
Lemma parse_record h t v rest :
  parse_tag (h ++ length_octets (len v) ++ v ++ rest) 0 = Ok (t, len h) ->
  len h < 100 -> len v <= U32_MAX ->
  parse ((h ++ length_octets (len v) ++ v) ++ rest)
  = Ok (mkBerTlvAny t v (len (h ++ length_octets (len v) ++ v))).
Proof.
  intros Ht Hh Hv. rewrite <- !app_assoc. unfold parse. rewrite Ht. cbn [rbind].
  pose proof (len_nonneg v).
  assert (is_u32 (len v)) as Hu by ulia.
  rewrite parse_length_octets by (done || lia). cbn [rbind].
  pose proof (length_octets_len _ Hu). unfold checked_add.
  if_true. cbn [ok_or rbind].
  rewrite (app_assoc h).
  rewrite (get_range_app' (h ++ length_octets (len v)))
    by (autorewrite with rust_rw; lia).
  cbn [ok_or rbind]. do 2 f_equal. rewrite !len_app. lia.
Qed.

Lemma tlv_ok_eq t v : tag1_ok t -> len v <= U32_MAX ->
  tlv t v = Ok ([t] ++ length_octets (len v) ++ v).
Proof.
  intros [_ Ht] Hv. pose proof (len_nonneg v).
  unfold tlv, push_tlv. rewrite (proj2 (Z.eqb_neq _ _) Ht).
  unfold ebind. cbn [push out with_capacity app].
  rewrite push_length_ok by ulia. cbn. by rewrite <- ?app_assoc.
Qed.

Lemma tlv2_ok_eq t v : tag2_ok t -> len v <= U32_MAX ->
  tlv2 t v = Ok ([Z.shiftr t 8; Z.land t 255] ++ length_octets (len v) ++ v).
Proof.
  intros (_ & Hhi & Hlo) Hv. pose proof (len_nonneg v).
  unfold tlv2, push_tlv_tag2. rewrite Hhi, Hlo, Z.eqb_refl. cbn [negb orb Z.eqb].
  unfold ebind. cbn [push out with_capacity app].
  rewrite push_length_ok by ulia. cbn. by rewrite <- ?app_assoc.
Qed.

#[export] Hint Resolve parse_tag1 parse_tag2 : rust.

(** The index after a byte is read. *)
Lemma next_byte_inv bs i f b j :
  0 <= i <= len bs -> len bs < USIZE_MAX ->
  next_byte bs i f = Ok (b, j) -> get bs i = Some b /\ j = i + 1 /\ j <= len bs.
Proof.
  intros Hi Hl. unfold next_byte. destruct (get bs i) as [b'|] eqn:E; [|done].
  intros [= <- <-]. unfold saturating_add.
  assert (i < len bs).
  { unfold get in E. case_match_in E; [done|]. apply lookup_lt_Some in E. ulia. }
  split_and!; [done|lia|lia].
Qed.

Lemma parse_tag_inv bs t j :
  len bs < USIZE_MAX -> parse_tag bs 0 = Ok (t, j) -> 1 <= j <= 2 /\ j <= len bs.
Proof.
  intros Hl. pose proof (len_nonneg bs). unfold parse_tag.
  destruct (next_byte bs 0 true) as [[b i]|] eqn:E; [|done]. cbn [rbind].
  apply next_byte_inv in E as (_ & -> & ?); [|lia|done].
  case_if; [|intros [= <- <-]; lia].
  destruct (next_byte bs (0 + 1) false) as [[b2 i2]|] eqn:E2; [|done]. cbn [rbind].
  apply next_byte_inv in E2 as (_ & -> & ?); [|lia|done].
  case_if; [done|]. intros [= <- <-]. lia.
Qed.

Lemma long_form_octets_inv m n : long_form_octets m = Some n -> 1 <= n <= 4.
Proof.
  unfold long_form_octets, LONG_FORM_1B, LONG_FORM_2B, LONG_FORM_3B, LONG_FORM_4B.
  case_if; [|done]. intros [= <-].
  repeat (match goal with H : _ \/ _ |- _ => destruct H end; to_prop); subst; by vm_compute.
Qed.

Lemma parse_length_inv bs i l j :
  0 <= i <= len bs -> len bs < USIZE_MAX ->
  parse_length bs i = Ok (l, j) -> i + 1 <= j <= i + 5 /\ j <= len bs.
Proof.
  intros Hi Hl. unfold parse_length.
  destruct (next_byte bs i false) as [[b i']|] eqn:E; [|done]. cbn [rbind].
  apply next_byte_inv in E as (_ & -> & ?); [|done..].
  case_if; [intros [= <- <-]; lia|].
  destruct (long_form_octets b) as [n|] eqn:En; [|done]. cbn [ok_or rbind].
  apply long_form_octets_inv in En.
  destruct (get_range _ _ _) as [lb|] eqn:Eg; [|done]. cbn [ok_or rbind].
  intros [= <- <-]. apply get_range_spec in Eg as (? & ? & _).
  unfold saturating_add in *. lia.
Qed.

(** A parsed record is a slice of its input: a header of two to seven octets,
    the value, and what follows. *)
Lemma parse_inv bs r :
  len bs < USIZE_MAX -> parse bs = Ok r ->
  exists h rest, bs = h ++ value r ++ rest
    /\ size r = len h + len (value r) /\ 2 <= len h <= 7.
Proof.
  intros Hl. pose proof (len_nonneg bs). unfold parse.
  destruct (parse_tag bs 0) as [[t i]|] eqn:Et; [|done]. cbn [rbind].
  apply parse_tag_inv in Et as [Hi1 Hi2]; [|done].
  destruct (parse_length bs i) as [[l j]|] eqn:El; [|done]. cbn [rbind].
  apply parse_length_inv in El as [Hj1 Hj2]; [|lia|done].
  unfold checked_add. case_if; [|done]. cbn [ok_or rbind].
  destruct (get_range bs j (j + l)) as [v|] eqn:Eg; [|done]. cbn [ok_or rbind].
  intros [= <-]. cbn [value size].
  pose proof (get_range_len _ _ _ _ Eg) as Hlv.
  apply get_range_spec in Eg as (Hr1 & Hr2 & ->).
  exists (take_z bs j), (drop_z (drop_z bs j) l).
  rewrite len_take_z by lia. split_and!; try lia.
  replace (Z.to_nat (j + l - j)) with (Z.to_nat l) by lia.
  unfold take_z, drop_z. by rewrite !take_drop.
Qed.

(** Iterating: every item but an error leaves strictly fewer bytes. *)
Lemma iter_next_shrinks v item rest :
  len v < USIZE_MAX -> iter_next v = (Some item, rest) -> (length rest < length v)%nat.
Proof.
  intros Hl. unfold iter_next. destruct v as [|b v]; [done|]. cbn [is_empty].
  destruct (parse (b :: v)) as [r|e] eqn:E; intros [= <- <-]; [|simpl; lia].
  apply parse_inv in E as (h & q & E & Hs & Hh); [|done].
  pose proof (len_nonneg (value r)).
  destruct (get_range _ _ _) eqn:Eg; [|simpl; lia]. cbn [default].
  apply get_range_len in Eg. unfold len in *. cbn [id]. lia.
Qed.

Lemma iter_collect_total fuel v :
  len v < USIZE_MAX -> (length v <= fuel)%nat -> exists items, iter_collect fuel v = Some items.
Proof.
  revert v; induction fuel as [|f IH]; intros v Hl Hf.
  - destruct v; [eexists; done|simpl in Hf; lia].
  - cbn [iter_collect]. destruct (iter_next v) as [[item|] rest] eqn:E; [|eauto].
    apply iter_next_shrinks in E; [|done].
    destruct (IH rest) as [items ->]; [unfold len in *; lia|lia|]. eexists; done.
Qed.

(** The iterator takes one encoded record off the front. *)
Lemma iter_next_record w r rest :
  parse (w ++ rest) = Ok r -> size r = len w -> w <> [] ->
  iter_next (w ++ rest) = (Some (Ok r), rest).
Proof.
  intros Hp Hs Hw. unfold iter_next.
  assert (is_empty (w ++ rest) = false) as -> by by destruct w.
  by rewrite Hp, Hs, get_range_suffix.
Qed.

(** A record [(t, v)] together with its encoding [w]. *)
Definition encodes (w : bytes) (t : Z) (v : bytes) : Prop :=
  (tag1_ok t /\ tlv t v = Ok w) \/ (tag2_ok t /\ tlv2 t v = Ok w).

Lemma tlv_len_bound t v w : tlv t v = Ok w -> len v <= U32_MAX.
Proof.
  unfold tlv, push_tlv. case_if; [done|]. unfold ebind; cbn [push].
  destruct (Z.leb_spec (len v) U32_MAX); [done|].
  rewrite push_length_err by lia. done.
Qed.

Lemma tlv2_len_bound t v w : tlv2 t v = Ok w -> len v <= U32_MAX.
Proof.
  unfold tlv2, push_tlv_tag2. case_if; [done|]. unfold ebind; cbn [push].
  destruct (Z.leb_spec (len v) U32_MAX); [done|].
  rewrite push_length_err by lia. done.
Qed.

Lemma encodes_parse w t v rest :
  encodes w t v -> parse (w ++ rest) = Ok (mkBerTlvAny t v (len w)) /\ w <> [].
Proof.
  intros [[Ht E]|[Ht E]].
  - pose proof (tlv_len_bound _ _ _ E) as Hv.
    rewrite tlv_ok_eq in E by done. injection E as <-.
    split; [|done]. apply (parse_record [t]); [by apply parse_tag1|done|done].
  - pose proof (tlv2_len_bound _ _ _ E) as Hv.
    rewrite tlv2_ok_eq in E by done. injection E as <-.
    split; [|done]. apply (parse_record [Z.shiftr t 8; Z.land t 255]); [by apply parse_tag2|done|done].
Qed.

Lemma iter_collect_records fuel (ws : list bytes) (rs : list (Z * bytes)) :
  Forall2 (fun w r => encodes w r.1 r.2) ws rs ->
  (length ws <= fuel)%nat ->
  iter_collect fuel (concat ws)
  = Some (zip_with (fun w r => Ok (mkBerTlvAny r.1 r.2 (len w))) ws rs).
Proof.
  intros H. revert fuel. induction H as [|w [t v] ws rs Hw H IH]; intros fuel Hf.
  - by destruct fuel.
  - destruct fuel as [|f]; [simpl in Hf; lia|]. cbn [concat iter_collect].
    destruct (encodes_parse w t v (concat ws) Hw) as [Hp Hne].
    rewrite (iter_next_record w _ (concat ws) Hp) by done.
    rewrite IH by (simpl in Hf; lia). done.
Qed.

Lemma records_fuel (ws : list bytes) (rs : list (Z * bytes)) :
  Forall2 (fun w r => encodes w r.1 r.2) ws rs -> (length ws <= length (concat ws))%nat.
Proof.
  induction 1 as [|w [t v] ws rs Hw H IH]; [done|].
  destruct (encodes_parse w t v [] Hw) as [_ Hne]. cbn [concat].
  rewrite length_app. destruct w; [done|]. simpl. lia.
Qed.

Lemma items_records ws rs :
  Forall2 (fun w r => encodes w r.1 r.2) ws rs ->
  items (concat ws) = zip_with (fun w r => Ok (mkBerTlvAny r.1 r.2 (len w))) ws rs.
Proof.
  intros H. unfold items, children.
  by rewrite (iter_collect_records _ ws rs) by (done || by eapply records_fuel).
Qed.

(** ** Properties *)

(** C33 (round trip) A record encoded by [tlv] or [tlv2] under a well-formed
    tag parses back to the same tag and value, whatever bytes follow it, and
    the parse consumes exactly the encoded record. *)
Theorem ber_roundtrip (t : Z) (v rest : bytes) :
  len v <= U32_MAX ->
  (tag1_ok t ->
     exists w, tlv t v = Ok w /\ parse (w ++ rest) = Ok (mkBerTlvAny t v (len w))) /\
  (tag2_ok t ->
     exists w, tlv2 t v = Ok w /\ parse (w ++ rest) = Ok (mkBerTlvAny t v (len w))).
Proof.
  intros Hv. split; intros Ht.
  - pose proof (tlv_ok_eq t v Ht Hv) as E. eexists; split; [exact E|].
    apply encodes_parse. by left.
  - pose proof (tlv2_ok_eq t v Ht Hv) as E. eexists; split; [exact E|].
    apply encodes_parse. by right.
Qed.

Lemma ber_roundtrip_witness :
  parse ([0x04; 0x02; 0xAB; 0xCD] ++ [0xFF])
  = Ok (mkBerTlvAny 0x04 [0xAB; 0xCD] 4).
Proof.
  destruct (ber_roundtrip 0x04 [0xAB; 0xCD] [0xFF]) as [H _]; [done|].
  destruct H as (w & Hw & Hp); [by vm_compute|].
  vm_compute in Hw. injection Hw as <-. exact Hp.
Defined.

(** (errors) [push_tlv] appends the record and succeeds exactly when the
    tag's number bits are not all set and the value fits the four-byte long
    form; a malformed tag leaves the buffer untouched, and an oversized value
    is refused with its length.  [push_tlv_tag2] behaves alike for two-byte
    tags. *)
Theorem ber_encode_branches (t : Z) (v : bytes) (self : BerEncoder) :
  let multi := Z.land t MULTI_BYTE_TAG_MASK = MULTI_BYTE_TAG_MASK in
  let two := Z.land (Z.shiftr t 8) MULTI_BYTE_TAG_MASK = MULTI_BYTE_TAG_MASK
             /\ Z.land (Z.land t 255) TAG_MORE_OCTETS = 0 in
  (multi -> push_tlv t v self = (Err (MalformedTag t), self)) /\
  (~ multi -> len v <= U32_MAX ->
     push_tlv t v self
     = (Ok tt, mkBerEncoder (out self ++ [t] ++ length_octets (len v) ++ v))) /\
  (~ multi -> U32_MAX < len v ->
     push_tlv t v self = (Err (LengthTooLarge (len v)), mkBerEncoder (out self ++ [t]))) /\
  (~ two -> push_tlv_tag2 t v self = (Err (MalformedTag t), self)) /\
  (two -> len v <= U32_MAX ->
     push_tlv_tag2 t v self
     = (Ok tt, mkBerEncoder (out self ++ [Z.shiftr t 8; Z.land t 255]
                               ++ length_octets (len v) ++ v))) /\
  (two -> U32_MAX < len v ->
     push_tlv_tag2 t v self
     = (Err (LengthTooLarge (len v)),
        mkBerEncoder (out self ++ [Z.shiftr t 8; Z.land t 255]))).
Proof.
  intros multi two. pose proof (len_nonneg v).
  unfold push_tlv, push_tlv_tag2, ebind, push, extend_from_slice. cbn [out].
  split_and!; intros Ht.
  - unfold multi in Ht. by rewrite Ht, Z.eqb_refl.
  - intros Hv. rewrite (proj2 (Z.eqb_neq _ _) Ht), push_length_ok by ulia.
    cbn [out]. by rewrite <- !app_assoc.
  - intros Hv. rewrite (proj2 (Z.eqb_neq _ _) Ht). by rewrite push_length_err.
  - case_if; [done|]. exfalso. apply Ht. by split.
  - intros Hv. destruct Ht as [-> ->]. cbn [Z.eqb negb orb MULTI_BYTE_TAG_MASK Pos.eqb].
    rewrite push_length_ok by ulia. cbn [out]. by rewrite <- !app_assoc.
  - intros Hv. destruct Ht as [-> ->]. cbn [Z.eqb negb orb MULTI_BYTE_TAG_MASK Pos.eqb].
    rewrite push_length_err by done. by rewrite <- app_assoc.
Qed.

Lemma ber_encode_branches_witness :
  push_tlv 0x1F [1] (mkBerEncoder [9]) = (Err (MalformedTag 0x1F), mkBerEncoder [9]) /\
  push_tlv 0x30 [1] (mkBerEncoder [9]) = (Ok tt, mkBerEncoder [9; 0x30; 1; 1]) /\
  push_tlv_tag2 0x7F49 [1] (mkBerEncoder [9]) = (Ok tt, mkBerEncoder [9; 0x7F; 0x49; 1; 1]).
Proof.
  destruct (ber_encode_branches 0x1F [1] (mkBerEncoder [9])) as (H1 & _).
  destruct (ber_encode_branches 0x30 [1] (mkBerEncoder [9])) as (_ & H2 & _).
  destruct (ber_encode_branches 0x7F49 [1] (mkBerEncoder [9])) as (_ & _ & _ & _ & H3 & _).
  split_and!; [apply H1|apply H2|apply H3]; by vm_compute.
Defined.

(** (safety and termination) On any slice shorter than [usize::MAX] the
    decoder stays in bounds: a parsed record is the input's prefix of [size]
    bytes, a header of two to seven octets followed by the value; and the
    children iterator always runs to its end, with at most one item per
    input byte. *)
Theorem ber_parse_in_bounds (bs : bytes) :
  len bs < USIZE_MAX ->
  (forall r, parse bs = Ok r ->
     exists h rest, bs = h ++ value r ++ rest
       /\ size r = len h + len (value r) /\ 2 <= len h <= 7) /\
  (exists items, children bs = Some items).
Proof.
  intros Hl. split; [intros r; by apply parse_inv|by apply iter_collect_total].
Qed.

Lemma ber_parse_in_bounds_witness :
  exists h rest, [0x81; 0x81; 0x01; 0x55; 0x99] = h ++ [0x55] ++ rest.
Proof.
  destruct (ber_parse_in_bounds [0x81; 0x81; 0x01; 0x55; 0x99]) as [H _]; [done|].
  destruct (H (mkBerTlvAny 0x81 [0x55] 4)) as (h & rest & E & _); [by vm_compute|].
  exists h, rest. exact E.
Defined.

(** (functional) Iterating over the concatenation of encoded records
    yields exactly those records, in order, each with its encoded size. *)
Theorem ber_children_of_records (ws : list bytes) (rs : list (Z * bytes)) :
  Forall2 (fun w r => encodes w r.1 r.2) ws rs ->
  children (concat ws)
  = Some (zip_with (fun w r => Ok (mkBerTlvAny r.1 r.2 (len w))) ws rs).
Proof.
  intros H. apply iter_collect_records; [done|]. by eapply records_fuel.
Qed.

Lemma ber_children_of_records_witness :
  children [0x02; 1; 5; 0x7F; 0x49; 2; 6; 7]
  = Some [Ok (mkBerTlvAny 0x02 [5] 3); Ok (mkBerTlvAny 0x7F49 [6; 7] 5)].
Proof.
  apply (ber_children_of_records [[0x02; 1; 5]; [0x7F; 0x49; 2; 6; 7]]
           [(0x02, [5]); (0x7F49, [6; 7])]).
  constructor; [left|constructor; [right|constructor]]; split; by vm_compute.
Defined.

End Ber.
