(* ===== verification/ApduStatus.v ===== *)
(** * ISO 7816-4 status words (crates/apdu/src/status_word.rs)

    The decoded status word, its two conversions and the retry counter it
    carries.  The theorems: decoding then re-encoding any sixteen-bit value is
    the identity, re-encoding then decoding is the identity exactly on the
    values the decoder can produce, and the retry counter is present exactly
    on the [63 Cx] family. *)

From stdpp Require Import base list.
From Stdlib Require Import ZArith Lia.
From S2P Require Import Prelude.

Module Status.

(** [PinRetries(u8)]: a nibble-sized counter. *)
Record PinRetries := mkPinRetries { retries_get : Z }.

Definition PinRetries_MAX : Z := 0x0F.

Definition PinRetries_from_nibble (n : Z) : option PinRetries :=
  if n >? PinRetries_MAX then None else Some (mkPinRetries n).

Definition PinRetries_is_exhausted (r : PinRetries) : bool := retries_get r =? 0.

Inductive StatusWord :=
  | AuthenticationBlocked
  | AuthenticationFailed
  | EndOfFile
  | FileNotFound
  | Other (sw : Z)
  | PinIncorrect (retries : PinRetries)
  | ReferenceDataInvalidated
  | ReferenceDataNotFound
  | SecurityNotSatisfied
  | SmDataObjectsIncorrect
  | Success
  | WrongLength.

Definition SW_SUCCESS : Z := 0x9000.
Definition SW_END_OF_FILE : Z := 0x6282.
Definition SW_AUTHENTICATION_FAILED : Z := 0x6300.
Definition SW_WRONG_LENGTH : Z := 0x6700.
Definition SW_SECURITY_NOT_SATISFIED : Z := 0x6982.
Definition SW_AUTHENTICATION_BLOCKED : Z := 0x6983.
Definition SW_REFERENCE_DATA_INVALIDATED : Z := 0x6984.
Definition SW_SM_DATA_OBJECTS_INCORRECT : Z := 0x6988.
Definition SW_FILE_NOT_FOUND : Z := 0x6A82.
Definition SW_REFERENCE_DATA_NOT_FOUND : Z := 0x6A88.
Definition SW_PIN_COUNTER_PREFIX : Z := 0x63C0.
Definition SW_PIN_COUNTER_MASK : Z := 0xFFF0.

Definition as_u16 (self : StatusWord) : Z :=
  match self with
  | AuthenticationBlocked => SW_AUTHENTICATION_BLOCKED
  | AuthenticationFailed => SW_AUTHENTICATION_FAILED
  | EndOfFile => SW_END_OF_FILE
  | FileNotFound => SW_FILE_NOT_FOUND
  | Other sw => sw
  | PinIncorrect retries =>
      let sw1 := Z.shiftr SW_PIN_COUNTER_PREFIX 8 in
      let prefix_sw2 := Z.land SW_PIN_COUNTER_PREFIX 255 in
      let sw2 := Z.lor prefix_sw2 (Z.land (retries_get retries) PinRetries_MAX) in
      be_value [sw1; sw2]
  | ReferenceDataInvalidated => SW_REFERENCE_DATA_INVALIDATED
  | ReferenceDataNotFound => SW_REFERENCE_DATA_NOT_FOUND
  | SecurityNotSatisfied => SW_SECURITY_NOT_SATISFIED
  | SmDataObjectsIncorrect => SW_SM_DATA_OBJECTS_INCORRECT
  | Success => SW_SUCCESS
  | WrongLength => SW_WRONG_LENGTH
  end.

Definition from_u16 (sw : Z) : StatusWord :=
  if sw =? SW_SUCCESS then Success
  else if sw =? SW_END_OF_FILE then EndOfFile
  else if sw =? SW_AUTHENTICATION_FAILED then AuthenticationFailed
  else if sw =? SW_WRONG_LENGTH then WrongLength
  else if sw =? SW_SECURITY_NOT_SATISFIED then SecurityNotSatisfied
  else if sw =? SW_AUTHENTICATION_BLOCKED then AuthenticationBlocked
  else if sw =? SW_REFERENCE_DATA_INVALIDATED then ReferenceDataInvalidated
  else if sw =? SW_SM_DATA_OBJECTS_INCORRECT then SmDataObjectsIncorrect
  else if sw =? SW_FILE_NOT_FOUND then FileNotFound
  else if sw =? SW_REFERENCE_DATA_NOT_FOUND then ReferenceDataNotFound
  else if Z.land sw SW_PIN_COUNTER_MASK =? SW_PIN_COUNTER_PREFIX then
    let sw2 := Z.land sw 255 in
    let nibble := Z.land sw2 PinRetries_MAX in
    PinIncorrect (mkPinRetries nibble)
  else Other sw.

Definition from_bytes (sw1 sw2 : Z) : StatusWord := from_u16 (be_value [sw1; sw2]).

Definition is_success (self : StatusWord) : bool :=
  match self with Success => true | _ => false end.

Definition pin_retries (self : StatusWord) : option PinRetries :=
  match self with
  | PinIncorrect retries => Some retries
  | _ => None
  end.

#[export] Instance PinRetries_eq_dec : EqDecision PinRetries.
Proof. solve_decision. Defined.
#[export] Instance StatusWord_eq_dec : EqDecision StatusWord.
Proof. solve_decision. Defined.

(** ** Lemmas *)

(** The counter family is the sixteen values [0x63C0] to [0x63CF]. *)
Lemma counter_family sw : is_u16 sw ->
  Z.land sw SW_PIN_COUNTER_MASK = SW_PIN_COUNTER_PREFIX <->
  0x63C0 <= sw <= 0x63CF.
Proof.
  unfold SW_PIN_COUNTER_MASK, SW_PIN_COUNTER_PREFIX. intros Hu.
  assert (Z.land sw 0xFFF0 = sw / 16 * 16) as ->.
  { replace 0xFFF0 with (Z.ldiff (Z.ones 16) (Z.ones 4)) by done.
    rewrite <- Z.shiftl_mul_pow2 with (n := 4) by lia.
    change 16 with (2 ^ 4) at 2. rewrite <- Z.shiftr_div_pow2 by lia.
    rewrite <- Z.ldiff_ones_r by lia.
    assert (Z.land sw (Z.ones 16) = sw) as E.
    { rewrite Z.land_ones by lia. apply Z.mod_small. ulia. }
    rewrite <- E at 2. apply Z.bits_inj'. intros i Hi.
    rewrite !Z.ldiff_spec, !Z.land_spec, !Z.ldiff_spec.
    by destruct (Z.testbit sw i), (Z.testbit (Z.ones 16) i), (Z.testbit (Z.ones 4) i). }
  pose proof (Z.div_mod sw 16). pose proof (Z.mod_pos_bound sw 16).
  split; intros; lia.
Qed.

Lemma counter_nibble sw : 0x63C0 <= sw <= 0x63CF ->
  Z.land (Z.land sw 255) PinRetries_MAX = sw - 0x63C0 /\
  as_u16 (PinIncorrect (mkPinRetries (sw - 0x63C0))) = sw.
Proof.
  intros H.
  assert (exists n, (n < 16)%nat /\ sw = 0x63C0 + Z.of_nat n) as (n & Hn & ->).
  { exists (Z.to_nat (sw - 0x63C0)). lia. }
  do 16 (destruct n as [|n]; [by vm_compute|]). lia.
Qed.

Ltac each_code :=
  unfold from_u16, SW_SUCCESS, SW_END_OF_FILE, SW_AUTHENTICATION_FAILED, SW_WRONG_LENGTH,
    SW_SECURITY_NOT_SATISFIED, SW_AUTHENTICATION_BLOCKED, SW_REFERENCE_DATA_INVALIDATED,
    SW_SM_DATA_OBJECTS_INCORRECT, SW_FILE_NOT_FOUND, SW_REFERENCE_DATA_NOT_FOUND;
  repeat case_if.

(** The values the decoder produces. *)
Definition canonical (w : StatusWord) : Prop :=
  match w with
  | Other sw => is_u16 sw /\ from_u16 sw = Other sw
  | PinIncorrect r => 0 <= retries_get r <= PinRetries_MAX
  | _ => True
  end.

Lemma as_from_u16 sw : is_u16 sw -> as_u16 (from_u16 sw) = sw.
Proof.
  intros Hu. each_code; subst; try done.
  apply counter_family in E9; [|done]. destruct (counter_nibble sw E9) as [-> ->]. done.
Qed.

Lemma from_as_u16 w : canonical w -> from_u16 (as_u16 w) = w.
Proof.
  destruct w as [| | | |sw|[n]| | | | | |]; intros Hc; try done.
  - apply Hc.
  - cbn in Hc. unfold PinRetries_MAX in Hc.
    assert (exists m, (m < 16)%nat /\ n = Z.of_nat m) as (m & Hm & ->).
    { exists (Z.to_nat n). lia. }
    do 16 (destruct m as [|m]; [by vm_compute|]). lia.
Qed.

Lemma from_u16_canonical sw : is_u16 sw -> canonical (from_u16 sw).
Proof.
  intros Hu. each_code; cbn; try done.
  - apply counter_family in E9; [|done]. destruct (counter_nibble sw E9) as [-> _].
    unfold PinRetries_MAX. lia.
  - split; [done|]. unfold from_u16. rewrite !(proj2 (Z.eqb_neq _ _)) by done. done.
Qed.

Lemma from_u16_success sw : from_u16 sw = Success <-> sw = SW_SUCCESS.
Proof. split; [each_code; done|by intros ->]. Qed.

Lemma from_u16_end_of_file sw : from_u16 sw = EndOfFile <-> sw = SW_END_OF_FILE.
Proof. split; [each_code; done|by intros ->]. Qed.

(** ** Properties *)

(** (round trip) Every sixteen-bit status word survives decoding and
    re-encoding; a decoded value survives the other direction, and exactly
    the canonical values are decoder outputs; the retry counter is present
    exactly for [0x63C0] to [0x63CF], where it is the low nibble. *)
Theorem status_word_roundtrip (sw : Z) :
  is_u16 sw ->
  as_u16 (from_u16 sw) = sw /\
  (forall w, canonical w -> is_u16 (as_u16 w) -> (from_u16 sw = w <-> sw = as_u16 w)) /\
  canonical (from_u16 sw) /\
  (forall n, pin_retries (from_u16 sw) = Some (mkPinRetries n)
             <-> 0x63C0 <= sw <= 0x63CF /\ n = sw - 0x63C0).
Proof.
  intros Hu. split_and!.
  - by apply as_from_u16.
  - intros w Hc Hw. split; intros Heq.
    + by rewrite <- Heq, as_from_u16.
    + by rewrite Heq, from_as_u16.
  - by apply from_u16_canonical.
  - intros n. split.
    + each_code; try done. cbn. intros [= <-].
      apply counter_family in E9; [|done]. split; [done|].
      by apply counter_nibble.
    + intros [Hf ->]. unfold from_u16.
      rewrite !(proj2 (Z.eqb_neq sw _)) by (vm_compute; lia).
      apply counter_family in Hf as Hf'; [|done]. rewrite Hf', Z.eqb_refl. cbn.
      by rewrite (proj1 (counter_nibble sw Hf)).
Qed.

Lemma status_word_roundtrip_witness :
  pin_retries (from_u16 0x63C2) = Some (mkPinRetries 2) /\ as_u16 (from_u16 0x6A82) = 0x6A82.
Proof.
  split.
  - apply (status_word_roundtrip 0x63C2); [by vm_compute|]. by vm_compute.
  - apply (status_word_roundtrip 0x6A82). by vm_compute.
Defined.

End Status.
