(* ===== verification/ApduCommand.v ===== *)
(** * Command ownership paths (crates/apdu/src/primitives.rs and command.rs)

    The validated primitives (application identifiers, short file identifiers,
    file identifiers), the replay-safe command [CommandApdu] with its ISO 7816-4
    case constructors, command chaining and the single wrong-Le correction, and
    the credential command with its fixed-capacity storage.

    The theorems: command chaining carries the whole data field, in order, in
    commands of at most 255 data bytes of which only the last closes the chain;
    the wrong-Le correction can be obtained at most once and changes only the
    Le byte of a five-byte command; credential commands hold exactly header,
    Lc and body, and no step of their assembly can overflow their storage. *)

From stdpp Require Import base list.
From Stdlib Require Import ZArith Lia.
From S2P Require Import Prelude.

Module Apdu.

(** ** Primitives *)

Record Aid := mkAid { aid_bytes : bytes }.
Inductive AidError := AidLengthOutOfRange (got : Z).

Definition AID_MIN_LENGTH : Z := 5.
Definition AID_MAX_LENGTH : Z := 16.

Definition Aid_new (bs : bytes) : result AidError Aid :=
  if (len bs <? AID_MIN_LENGTH) || (len bs >? AID_MAX_LENGTH)
  then Err (AidLengthOutOfRange (len bs))
  else Ok (mkAid bs).

Definition Aid_from_slice (bs : bytes) : result AidError Aid := Aid_new bs.

Record Sfi := mkSfi { sfi_value : Z }.
Inductive SfiError := SfiOutOfRange (got : Z).

Definition SFI_MAX : Z := 30.
Definition SHORT_FORM_FLAG : Z := 0x80.

Definition Sfi_new (v : Z) : result SfiError Sfi :=
  if (v =? 0) || (v >? SFI_MAX) then Err (SfiOutOfRange v) else Ok (mkSfi v).

Definition as_p1_short_form (s : Sfi) : Z := Z.lor SHORT_FORM_FLAG (sfi_value s).

(** A file identifier is its two wire bytes. *)
Record FileId := mkFileId { fid_bytes : bytes }.
Definition FILE_ID_LENGTH : Z := 2.
Definition FileId_from_u16 (id : Z) : FileId := mkFileId (be_bytes 2 id).
Definition FileId_MF : FileId := FileId_from_u16 0x3F00.

#[export] Instance Aid_eq_dec : EqDecision Aid.
Proof. solve_decision. Defined.
#[export] Instance FileId_eq_dec : EqDecision FileId.
Proof. solve_decision. Defined.

(** ** Headers *)

Definition APDU_HEADER_LEN : Z := 4.
Definition LC_LEN : Z := 1.
Definition LE_LEN : Z := 1.
Definition SHORT_APDU_DATA_MAX : Z := 255.

Inductive ApduClass := Plain | SecureMessaging | ChainedFirst.

Definition class_as_byte (c : ApduClass) : Z :=
  match c with
  | Plain => 0x00
  | SecureMessaging => 0x0C
  | ChainedFirst => 0x10
  end.

Record CommandHeader := mkHeader {
  class : ApduClass; instruction : Z; p1 : Z; p2 : Z }.

Definition header_to_bytes (h : CommandHeader) : bytes :=
  [class_as_byte (class h); instruction h; p1 h; p2 h].

(** ** Replay-safe commands *)

Inductive CommandDataError :=
  | DataEmpty
  | DataTooLong (got : Z).

Record CommandApdu := mkCommandApdu { as_bytes : bytes; wrong_le_retry : bool }.

Definition SHORT_CASE_2_LEN : Z := APDU_HEADER_LEN + LE_LEN.

Definition from_wire (bs : bytes) : CommandApdu := mkCommandApdu bs false.

Definition case_1 (header : CommandHeader) : CommandApdu :=
  from_wire (header_to_bytes header).

Definition case_2 (header : CommandHeader) (le : Z) : CommandApdu :=
  from_wire (header_to_bytes header ++ [le]).

Definition short_form_lc (data : bytes) : result CommandDataError Z :=
  if is_empty data then Err DataEmpty
  else if len data >? SHORT_APDU_DATA_MAX then Err (DataTooLong (len data))
  else match try_from_uint U8_MAX (len data) with
  | Some lc => Ok lc
  | None => Err (DataTooLong (len data))
  end.

Definition case_3 (header : CommandHeader) (data : bytes)
  : result CommandDataError CommandApdu :=
  let? lc := short_form_lc data in
  Ok (from_wire (header_to_bytes header ++ [lc] ++ data)).

Definition case_4 (header : CommandHeader) (data : bytes) (le : Z)
  : result CommandDataError CommandApdu :=
  let? lc := short_form_lc data in
  Ok (from_wire (header_to_bytes header ++ [lc] ++ data ++ [le])).

(** The loop of [command_chain]: [chunks.peek()] tells the last chunk. *)
Fixpoint chain_chunks (header : CommandHeader) (le : Z) (cs : list bytes)
  : result CommandDataError (list CommandApdu) :=
  match cs with
  | [] => Ok []
  | chunk :: rest =>
      let? command :=
        match rest with
        | [] => case_4 header chunk le
        | _ :: _ =>
            case_3 (mkHeader ChainedFirst (instruction header) (p1 header) (p2 header)) chunk
        end in
      let? commands := chain_chunks header le rest in
      Ok (command :: commands)
  end.

Definition command_chain (header : CommandHeader) (data : bytes) (le : Z)
  : result CommandDataError (list CommandApdu) :=
  if is_empty data then Err DataEmpty
  else chain_chunks header le (chunks (Z.to_nat SHORT_APDU_DATA_MAX) data).

Definition allow_wrong_le_retry (self : CommandApdu) : CommandApdu :=
  mkCommandApdu (as_bytes self) (len (as_bytes self) =? SHORT_CASE_2_LEN).

(** [*bytes.last_mut()? = le]. *)
Definition set_last (bs : bytes) (x : Z) : option bytes :=
  match bs with
  | [] => None
  | _ => Some (take (length bs - 1) bs ++ [x])
  end.

Definition corrected_wrong_le (self : CommandApdu) (le : Z) : option CommandApdu :=
  if negb (wrong_le_retry self) then None
  else bs ← set_last (as_bytes self) le; Some (mkCommandApdu bs false).

(** ** Credential commands *)

Definition CREDENTIAL_BODY_MAX : Z := 24.
Definition CREDENTIAL_APDU_MAX : Z := APDU_HEADER_LEN + LC_LEN + CREDENTIAL_BODY_MAX.
Definition CREDENTIAL_WIRE_MAX : Z := 64.
Definition CREDENTIAL_WIRE_PREFIX : Z := 5.

Inductive CredentialBodyError := BodyEmpty | BodyTooLong | WireTooLong.

(** [[0_u8; n]]. *)
Definition zeroed_array (n : Z) : bytes := repeat 0 (Z.to_nat n).

(** [dst[off..off + src.len()].copy_from_slice(src)]; [None] is the panic of
    an out-of-range slice. *)
Definition copy_from_slice (dst : bytes) (off : Z) (src : bytes) : option bytes :=
  if (0 <=? off) && (off + len src <=? len dst)
  then Some (take_z dst off ++ src ++ drop_z dst (off + len src))
  else None.

Record UnvalidatedCredentialBlock := mkBlock { block_bytes : bytes; block_length : Z }.

Definition block_zeroed : UnvalidatedCredentialBlock :=
  mkBlock (zeroed_array CREDENTIAL_BODY_MAX) 0.
Definition block_set_filled (b : UnvalidatedCredentialBlock) (l : Z)
  : UnvalidatedCredentialBlock := mkBlock (block_bytes b) l.

Record CredentialBody := mkBody { body_bytes : bytes; body_length : Z }.

(** The outer [option] is [None] when a slice index would panic. *)
Definition from_block (block : UnvalidatedCredentialBlock)
  : option (result CredentialBodyError CredentialBody) :=
  let declared := block_length block in
  if declared =? 0 then Some (Err BodyEmpty)
  else if declared >? CREDENTIAL_BODY_MAX then Some (Err BodyTooLong)
  else match try_from_uint U8_MAX declared with
  | None => Some (Err BodyTooLong)
  | Some length =>
      src ← get_range (block_bytes block) 0 declared;
      bs ← copy_from_slice (zeroed_array CREDENTIAL_BODY_MAX) 0 src;
      Some (Ok (mkBody bs length))
  end.

Record CredentialCommand := mkCredential { wire_storage : bytes; wire_length : Z }.

(** [bytes[i] = x]; [None] is the panic of an out-of-range index. *)
Definition set_byte (dst : bytes) (i : Z) (x : Z) : option bytes := copy_from_slice dst i [x].

Definition assemble (header : CommandHeader) (body : CredentialBody)
  : option CredentialCommand :=
  bs ← copy_from_slice (zeroed_array CREDENTIAL_WIRE_MAX) 0 (header_to_bytes header);
  bs ← set_byte bs APDU_HEADER_LEN (body_length body);
  let data_len := body_length body in
  let body_start := APDU_HEADER_LEN + LC_LEN in
  data ← get_range (body_bytes body) 0 data_len;
  bs ← copy_from_slice bs body_start data;
  length ← checked_add U8_MAX CREDENTIAL_WIRE_PREFIX (body_length body);
  Some (mkCredential bs length).

(** The checked sum of the wire's parts, filtered by the storage capacity. *)
Definition wire_total (body_len : Z) : option Z :=
  n ← checked_add USIZE_MAX APDU_HEADER_LEN LC_LEN;
  n ← checked_add USIZE_MAX n body_len;
  n ← checked_add USIZE_MAX n LE_LEN;
  if n <=? CREDENTIAL_WIRE_MAX then Some n else None.

Definition from_protected_parts (header : CommandHeader) (body : bytes) (le : Z)
  : option (result CredentialBodyError CredentialCommand) :=
  if is_empty body then Some (Err BodyEmpty)
  else
    match wire_total (len body) with
    | None => Some (Err WireTooLong)
    | Some total =>
        match try_from_uint U8_MAX (len body), try_from_uint U8_MAX total with
        | Some lc, Some length =>
            bs ← copy_from_slice (zeroed_array CREDENTIAL_WIRE_MAX) 0 (header_to_bytes header);
            bs ← set_byte bs APDU_HEADER_LEN lc;
            let body_start := APDU_HEADER_LEN + LC_LEN in
            bs ← copy_from_slice bs body_start body;
            bs ← set_byte bs (body_start + len body) le;
            Some (Ok (mkCredential bs length))
        | _, _ => Some (Err WireTooLong)
        end
    end.

(** The bytes [expose_wire] hands to the adapter. *)
Definition expose_wire (self : CredentialCommand) : option bytes :=
  get_range (wire_storage self) 0 (wire_length self).

(** ** Lemmas on commands *)

Lemma short_form_lc_ok d : 1 <= len d <= 255 -> short_form_lc d = Ok (len d).
Proof.
  intros. unfold short_form_lc, SHORT_APDU_DATA_MAX. rewrite is_empty_len.
  if_false. rewrite Z.gtb_ltb. if_false. by rewrite try_from_uint_some by ulia.
Qed.

Lemma case_3_ok h d : 1 <= len d <= 255 ->
  case_3 h d = Ok (from_wire (header_to_bytes h ++ [len d] ++ d)).
Proof. intros. unfold case_3. by rewrite short_form_lc_ok. Qed.

Lemma case_4_ok h d le : 1 <= len d <= 255 ->
  case_4 h d le = Ok (from_wire (header_to_bytes h ++ [len d] ++ d ++ [le])).
Proof. intros. unfold case_4. by rewrite short_form_lc_ok. Qed.

(** The data field a card reads from a command with an Lc byte. *)
Definition command_data (c : CommandApdu) : bytes :=
  take_z (drop 5 (as_bytes c)) (default 0 (as_bytes c !! 4%nat)).

Lemma command_data_case_3 h d :
  command_data (from_wire (header_to_bytes h ++ [len d] ++ d)) = d.
Proof.
  unfold command_data, take_z. cbn [as_bytes from_wire header_to_bytes app drop lookup
    list_lookup default id]. unfold len. rewrite Nat2Z.id. by apply take_ge.
Qed.

Lemma command_data_case_4 h d le :
  command_data (from_wire (header_to_bytes h ++ [len d] ++ d ++ [le])) = d.
Proof.
  unfold command_data, take_z. cbn [as_bytes from_wire header_to_bytes app drop lookup
    list_lookup default id]. unfold len. rewrite Nat2Z.id. by apply take_app_length.
Qed.

(** A non-final command of a chain, and its final command. *)
Definition chained_link (h : CommandHeader) (c : CommandApdu) : Prop :=
  exists chunk, len chunk = 255 /\
    c = from_wire ([0x10; instruction h; p1 h; p2 h; 255] ++ chunk).
Definition chain_end (h : CommandHeader) (le : Z) (c : CommandApdu) : Prop :=
  exists chunk, 1 <= len chunk <= 255 /\
    c = from_wire (header_to_bytes h ++ [len chunk] ++ chunk ++ [le]).

Lemma chunks_fuel_short {A} f (l : list A) :
  l <> [] -> (length l <= 255)%nat -> chunks_fuel (S f) 255 l = [l].
Proof.
  intros Hne Hl. destruct l as [|x l]; [done|]. cbn [chunks_fuel].
  rewrite take_ge, drop_ge by done. by destruct f.
Qed.

Lemma chunks_fuel_nonnil {A} f n (l : list A) : l <> [] -> chunks_fuel (S f) n l <> [].
Proof. by destruct l. Qed.

Lemma chain_chunks_spec h le fuel data :
  data <> [] -> (length data <= fuel)%nat ->
  exists init last, chain_chunks h le (chunks_fuel fuel 255 data) = Ok (init ++ [last]) /\
    Forall (chained_link h) init /\ chain_end h le last /\
    concat (map command_data (init ++ [last])) = data.
Proof.
  revert data; induction fuel as [|f IH]; intros data Hne Hf.
  { destruct data; [done|simpl in Hf; lia]. }
  destruct (decide (length data <= 255)%nat) as [Hs|Hs].
  - rewrite chunks_fuel_short by done. cbn [chain_chunks].
    assert (1 <= len data <= 255) as Hd.
    { split; [|unfold len; lia]. destruct data; [done|]. rewrite len_cons.
      pose proof (len_nonneg data). lia. }
    rewrite case_4_ok by done. cbn [rbind].
    eexists [], _. split_and!; [done|constructor|by exists data|].
    rewrite app_nil_l. cbn [map concat]. by rewrite command_data_case_4, app_nil_r.
  - assert (len (take 255 data) = 255) as Ht by (unfold len; rewrite length_take; lia).
    assert (drop 255 data <> []) as Hdn.
    { intros E%(f_equal length). rewrite length_drop in E. simpl in E. lia. }
    destruct (IH (drop 255 data) Hdn) as (init & last & E & Hi & He & Hc).
    { rewrite length_drop. lia. }
    destruct data as [|x data]; [done|]. cbn [chunks_fuel].
    destruct f as [|f]; [simpl in *; lia|].
    destruct (chunks_fuel (S f) 255 (drop 255 (x :: data))) as [|c cs] eqn:Ec.
    { by apply chunks_fuel_nonnil in Ec. }
    cbn [chain_chunks]. rewrite case_3_ok by lia. cbn [rbind].
    change (chain_chunks h le (c :: cs) = Ok (init ++ [last])) in E.
    cbn [chain_chunks] in E. rewrite E. cbn [rbind].
    eexists (_ :: init), last. split_and!; [done| |done|].
    + constructor; [|done]. exists (take 255 (x :: data)). split; [done|].
      rewrite Ht. done.
    + rewrite <- app_comm_cons. cbn [map concat].
      rewrite command_data_case_3, Hc. apply take_drop.
Qed.

Lemma set_last_spec bs x : bs <> [] ->
  exists init y, bs = init ++ [y] /\ set_last bs x = Some (init ++ [x]).
Proof.
  intros Hne. destruct bs as [|y init] using rev_ind; [done|].
  exists init, y. split; [done|]. unfold set_last.
  destruct (init ++ [y]) eqn:E; [by destruct init|]. rewrite <- E.
  rewrite length_app. replace (length init + length [y] - 1)%nat with (length init) by (simpl; lia).
  by rewrite take_app_length.
Qed.

(** ** Lemmas on fixed-capacity storage *)

Lemma zeroed_len n : 0 <= n -> len (zeroed_array n) = n.
Proof. intros. unfold len, zeroed_array. rewrite repeat_length. lia. Qed.

Lemma copy_from_slice_ok dst off src :
  0 <= off -> off + len src <= len dst ->
  copy_from_slice dst off src
  = Some (take_z dst off ++ src ++ drop_z dst (off + len src)) /\
  len (take_z dst off ++ src ++ drop_z dst (off + len src)) = len dst.
Proof.
  intros H1 H2. pose proof (len_nonneg src). unfold copy_from_slice. if_true.
  split; [done|]. rewrite !len_app, len_take_z, len_drop_z by lia. lia.
Qed.

(** A storage whose first bytes are [p] and which has room for [src]. *)
Lemma copy_after_prefix p rest src :
  len src <= len rest ->
  copy_from_slice (p ++ rest) (len p) src = Some ((p ++ src) ++ drop_z rest (len src)).
Proof.
  intros H. pose proof (len_nonneg p). pose proof (len_nonneg src).
  destruct (copy_from_slice_ok (p ++ rest) (len p) src) as [-> _];
    [done|rewrite len_app; lia|].
  f_equal. rewrite <- app_assoc. unfold take_z, drop_z.
  rewrite (drop_app_ge p rest) by ulia.
  replace (Z.to_nat (len p)) with (length p) by ulia. rewrite take_app_length.
  do 3 f_equal. ulia.
Qed.

Lemma set_after_prefix p y rest x :
  set_byte (p ++ y :: rest) (len p) x = Some ((p ++ [x]) ++ rest).
Proof.
  unfold set_byte. rewrite copy_after_prefix by (rewrite !len_cons, len_nil; pose proof (len_nonneg rest); lia).
  done.
Qed.

Lemma wire_total_eq n : 0 <= n <= USIZE_MAX - 6 ->
  wire_total n = if n <=? 58 then Some (n + 6) else None.
Proof.
  intros Hn. unfold wire_total, APDU_HEADER_LEN, LC_LEN, LE_LEN, CREDENTIAL_WIRE_MAX.
  do 3 (rewrite checked_add_some by ulia; cbn [mbind option_bind]).
  replace (4 + 1 + n + 1) with (n + 6) by lia.
  destruct (Z.leb_spec n 58); [by if_true|by if_false].
Qed.

(** The storage after the header and Lc are written. *)
Lemma wire_prefix_written h lc :
  exists rest, len rest = 59 /\
    (bs ← copy_from_slice (zeroed_array CREDENTIAL_WIRE_MAX) 0 (header_to_bytes h);
     set_byte bs APDU_HEADER_LEN lc) = Some ((header_to_bytes h ++ [lc]) ++ rest).
Proof. exists (zeroed_array 59). split; [done|]. reflexivity. Qed.

Lemma assemble_ok h body data :
  get_range (body_bytes body) 0 (body_length body) = Some data ->
  1 <= len data <= 24 -> body_length body = len data ->
  exists cmd, assemble h body = Some cmd /\
    expose_wire cmd = Some (header_to_bytes h ++ [len data] ++ data).
Proof.
  intros Hd Hl Hb. unfold assemble. rewrite Hb in *.
  destruct (wire_prefix_written h (len data)) as (rest & Hr & E).
  destruct (copy_from_slice (zeroed_array CREDENTIAL_WIRE_MAX) 0 _) as [bs|]; [|done].
  cbn [mbind option_bind] in E |- *. rewrite E. cbn [mbind option_bind].
  rewrite Hd. cbn [mbind option_bind].
  change (APDU_HEADER_LEN + LC_LEN) with (len (header_to_bytes h ++ [len data])).
  rewrite copy_after_prefix by lia. cbn [mbind option_bind].
  unfold checked_add, CREDENTIAL_WIRE_PREFIX. if_true. cbn [mbind option_bind].
  eexists; split; [done|]. unfold expose_wire. cbn [wire_storage wire_length].
  rewrite get_range_prefix; [by rewrite <- app_assoc|].
  rewrite !len_app, len_cons, len_nil. change (len (header_to_bytes h)) with 4. lia.
Qed.

(** A block that declares one to 24 bytes is sent as header, Lc and these. *)
Lemma credential_from_block h block :
  len (block_bytes block) = CREDENTIAL_BODY_MAX ->
  1 <= block_length block <= CREDENTIAL_BODY_MAX ->
  exists body cmd, from_block block = Some (Ok body) /\ assemble h body = Some cmd /\
    expose_wire cmd
    = Some (header_to_bytes h ++ [block_length block]
            ++ take_z (block_bytes block) (block_length block)).
Proof.
  intros Hb Hl. unfold from_block. unfold CREDENTIAL_BODY_MAX in *.
  rewrite Z.gtb_ltb. if_false. if_false.
  rewrite try_from_uint_some by ulia.
  rewrite get_range_take by lia. cbn [mbind option_bind].
  change (copy_from_slice (zeroed_array 24) 0) with (copy_from_slice ([] ++ zeroed_array 24) (len (@nil Z))).
  assert (len (zeroed_array 24) = 24) as Hz by done.
  set (data := take_z (block_bytes block) (block_length block)).
  assert (len data = block_length block) as Hd by (unfold data; rewrite len_take_z; lia).
  rewrite copy_after_prefix by lia. cbn [mbind option_bind app].
  destruct (assemble_ok h (mkBody (data ++ drop_z (zeroed_array 24) (len data))
              (block_length block)) data) as (cmd & Ha & Hw).
  - cbn [body_bytes body_length]. by apply get_range_prefix.
  - lia.
  - cbn. lia.
  - eexists _, cmd. split_and!; [done..|]. by rewrite <- Hd.
Qed.

(** ** Properties *)

(** (functional) Command chaining carries a non-empty data field whole:
    [command_chain] returns, every command but the last carries 255 bytes
    under the chaining class, the last carries the rest under the header's own
    class with the Le byte, and the data fields concatenate to the input. *)
Theorem command_chain_carries_data (h : CommandHeader) (data : bytes) (le : Z) :
  data <> [] ->
  exists init last, command_chain h data le = Ok (init ++ [last]) /\
    Forall (chained_link h) init /\ chain_end h le last /\
    concat (map command_data (init ++ [last])) = data.
Proof.
  intros Hne. unfold command_chain. destruct (is_empty data) eqn:E; [by destruct data|].
  by apply chain_chunks_spec.
Qed.

Lemma command_chain_carries_data_witness :
  exists init last,
    command_chain (mkHeader Plain 0x2A 0x80 0x86) (repeat 7 300) 0 = Ok (init ++ [last]) /\
    concat (map command_data (init ++ [last])) = repeat 7 300.
Proof.
  destruct (command_chain_carries_data (mkHeader Plain 0x2A 0x80 0x86) (repeat 7 300) 0)
    as (init & last & E & _ & _ & H); [done|].
  exists init, last. split; [exact E|exact H].
Defined.

(** (safety) A wrong-Le correction replaces only the last byte of a
    command that was marked for it, and the corrected command yields no
    further correction. *)
Theorem wrong_le_corrected_once (c c' : CommandApdu) (le : Z) :
  corrected_wrong_le c le = Some c' ->
  wrong_le_retry c = true /\
  (exists init y, as_bytes c = init ++ [y] /\ as_bytes c' = init ++ [le]) /\
  forall le', corrected_wrong_le c' le' = None.
Proof.
  unfold corrected_wrong_le. destruct (wrong_le_retry c); [|done]. cbn [negb].
  destruct (decide (as_bytes c = [])) as [->|Hne]; [done|].
  destruct (set_last_spec (as_bytes c) le Hne) as (init & y & E & ->).
  cbn [mbind option_bind]. intros [= <-]. split_and!; [done| |done].
  by exists init, y.
Qed.

Lemma wrong_le_corrected_once_witness :
  corrected_wrong_le (mkCommandApdu [0; 0xB0; 0; 0; 0x10] false) 9 = None.
Proof.
  destruct (wrong_le_corrected_once (mkCommandApdu [0; 0xB0; 0; 0; 0xDF] true)
              (mkCommandApdu [0; 0xB0; 0; 0; 0x10] false) 0x10) as (_ & _ & H); [done|].
  apply H.
Defined.

(** (bounds) Credential assembly stays inside its fixed storage and never
    panics: a 24-byte block declaring no bytes or more than 24 is refused, and
    any other is sent as exactly header, Lc and the declared bytes. *)
Theorem credential_command_wire (h : CommandHeader) (block : UnvalidatedCredentialBlock) :
  len (block_bytes block) = CREDENTIAL_BODY_MAX ->
  0 <= block_length block ->
  match from_block block with
  | Some (Err BodyEmpty) => block_length block = 0
  | Some (Err BodyTooLong) => CREDENTIAL_BODY_MAX < block_length block
  | Some (Ok body) =>
      1 <= block_length block <= CREDENTIAL_BODY_MAX /\
      exists cmd, assemble h body = Some cmd /\
        expose_wire cmd
        = Some (header_to_bytes h ++ [block_length block]
                ++ take_z (block_bytes block) (block_length block))
  | _ => False
  end.
Proof.
  intros Hb H0. destruct (decide (1 <= block_length block <= CREDENTIAL_BODY_MAX)) as [Hl|Hl].
  - destruct (credential_from_block h block Hb Hl) as (body & cmd & -> & Ha & Hw). eauto.
  - unfold from_block. unfold CREDENTIAL_BODY_MAX in *. rewrite Z.gtb_ltb.
    case_if; [done|]. if_true. lia.
Qed.

Lemma credential_command_wire_witness :
  exists cmd, assemble (mkHeader Plain 0x20 0 0x11) (mkBody ([0x31; 0x32] ++ zeroed_array 22) 2)
              = Some cmd /\
    expose_wire cmd = Some [0; 0x20; 0; 0x11; 2; 0x31; 0x32].
Proof.
  destruct (credential_command_wire (mkHeader Plain 0x20 0 0x11)
    (mkBlock ([0x31; 0x32] ++ zeroed_array 22) 2) eq_refl ltac:(by vm_compute)) as [_ H].
  exact H.
Defined.

(** (bounds) The secure-messaging form of a credential command: an empty
    body is refused, a wire over 64 bytes is refused, and otherwise the wire
    is header, Lc, body and Le, with no slice or width overflow on the way. *)
Theorem protected_credential_wire (h : CommandHeader) (body : bytes) (le : Z) :
  len body <= USIZE_MAX - 6 ->
  (body = [] -> from_protected_parts h body le = Some (Err BodyEmpty)) /\
  (58 < len body -> from_protected_parts h body le = Some (Err WireTooLong)) /\
  (1 <= len body <= 58 ->
     exists cmd, from_protected_parts h body le = Some (Ok cmd) /\
       expose_wire cmd = Some (header_to_bytes h ++ [len body] ++ body ++ [le])).
Proof.
  intros Hu. pose proof (len_nonneg body). unfold from_protected_parts.
  rewrite is_empty_len, wire_total_eq by lia. split_and!; intros H'.
  - by rewrite H'.
  - if_false. by if_false.
  - if_false. if_true.
    rewrite !try_from_uint_some by ulia.
    destruct (wire_prefix_written h (len body)) as (rest & Hr & E).
    destruct (copy_from_slice (zeroed_array CREDENTIAL_WIRE_MAX) 0 _) as [bs|]; [|done].
    cbn [mbind option_bind] in E |- *. rewrite E. cbn [mbind option_bind].
    change (APDU_HEADER_LEN + LC_LEN) with (len (header_to_bytes h ++ [len body])).
    rewrite copy_after_prefix by lia. cbn [mbind option_bind].
    rewrite <- len_app.
    assert (exists y r, drop_z rest (len body) = y :: r) as (y & r & ->).
    { assert (1 <= len (drop_z rest (len body))) as Hl by (rewrite len_drop_z; lia).
      destruct (drop_z rest (len body)); [done|by eexists _, _]. }
    rewrite set_after_prefix. cbn [mbind option_bind].
    eexists; split; [done|]. unfold expose_wire. cbn [wire_storage wire_length].
    rewrite get_range_prefix; [by rewrite <- !app_assoc|].
    rewrite !len_app, !len_cons, len_nil. change (len (header_to_bytes h)) with 4. lia.
Qed.

Lemma protected_credential_wire_witness :
  exists cmd, from_protected_parts (mkHeader SecureMessaging 0x20 0 0x11) [0x87; 1; 9] 0
              = Some (Ok cmd) /\
    expose_wire cmd = Some [0x0C; 0x20; 0; 0x11; 3; 0x87; 1; 9; 0].
Proof.
  destruct (protected_credential_wire (mkHeader SecureMessaging 0x20 0 0x11) [0x87; 1; 9] 0)
    as (_ & _ & H); [by vm_compute|]. apply H. by vm_compute.
Defined.

End Apdu.
