(* ===== verification/ApduIso7816.v ===== *)
(** * Typed ISO 7816-4 command builders and the card transport port
    (crates/apdu/src/iso7816.rs and transport.rs)

    Each builder of [iso7816.rs] serialises one command shape; the transport
    port is the class [CardTransport], whose adapters are parameters of every
    protocol component above it.

    The theorems: an adapter can read the direct or SFI addressing of a READ
    BINARY back from P1 and P2; SELECT commands declare exactly the data they
    carry, so the Lc fallback never truncates; and of everything the crate can
    build, only the two read-only case-2 commands can be corrected after a
    wrong-Le status. *)

From stdpp Require Import base list.
From Stdlib Require Import ZArith Lia.
From S2P Require Import Prelude ApduStatus ApduCommand.

Module Iso7816.
Import Apdu.

(** [u8::try_from(n).unwrap_or(u8::MAX)]. *)
Definition lc_byte (n : Z) : Z := default U8_MAX (try_from_uint U8_MAX n).

(** ** SELECT by application identifier and by file identifier *)

Definition SelectByAidNoFci_into_apdu (aid : Aid) : CommandApdu :=
  from_wire ([0x00; 0xA4; 0x04; 0x0C] ++ [lc_byte (len (aid_bytes aid))] ++ aid_bytes aid).

Definition SelectEfNoFci_into_apdu (fid : FileId) : CommandApdu :=
  from_wire ([0x00; 0xA4; 0x02; 0x0C; 2] ++ fid_bytes fid).

Record AbsolutePath := mkAbsolutePath { as_fids : list FileId }.
Inductive AbsolutePathError :=
  | PathEmpty
  | StartsWithMf
  | PathTooLong (got : Z).

Definition MAX_FIDS : Z := 127.

Definition AbsolutePath_new (fids : list FileId) : result AbsolutePathError AbsolutePath :=
  match fids with
  | [] => Err PathEmpty
  | first :: _ =>
      if decide (first = FileId_MF) then Err StartsWithMf
      else if len fids >? MAX_FIDS then Err (PathTooLong (len fids))
      else Ok (mkAbsolutePath fids)
  end.

Inductive SelectFileTarget :=
  | AnyByFileId (fid : option FileId)
  | EfUnderCurrentDf (fid : FileId)
  | ByName (aid : Aid)
  | AbsolutePathTarget (path : AbsolutePath).

Definition target_as_p1 (t : SelectFileTarget) : Z :=
  match t with
  | AnyByFileId _ => 0x00
  | EfUnderCurrentDf _ => 0x02
  | ByName _ => 0x04
  | AbsolutePathTarget _ => 0x08
  end.

Definition target_data_len (t : SelectFileTarget) : Z :=
  match t with
  | AnyByFileId None => 0
  | AnyByFileId (Some _) | EfUnderCurrentDf _ => FILE_ID_LENGTH
  | ByName aid => len (aid_bytes aid)
  | AbsolutePathTarget path => Z.min USIZE_MAX (len (as_fids path) * FILE_ID_LENGTH)
  end.

Definition target_append_data (t : SelectFileTarget) (out : bytes) : bytes :=
  match t with
  | AnyByFileId None => out
  | AnyByFileId (Some fid) | EfUnderCurrentDf fid => out ++ fid_bytes fid
  | ByName aid => out ++ aid_bytes aid
  | AbsolutePathTarget path =>
      fold_left (fun out fid => out ++ fid_bytes fid) (as_fids path) out
  end.

Inductive SelectFileResponseMode := Fci | Fcp | NoResponse.

Definition mode_as_p2 (m : SelectFileResponseMode) : Z :=
  match m with Fci => 0x00 | Fcp => 0x04 | NoResponse => 0x0C end.

Record SelectFile := mkSelectFile {
  sf_class : ApduClass; target : SelectFileTarget; response_mode : SelectFileResponseMode }.

Definition SELECT_INS : Z := 0xA4.
Definition LE_ANY : Z := 0x00.

Definition SelectFile_into_apdu (self : SelectFile) : CommandApdu :=
  let data_len := target_data_len (target self) in
  let out := [class_as_byte (sf_class self); SELECT_INS;
              target_as_p1 (target self); mode_as_p2 (response_mode self)] in
  let out := if data_len >? 0
             then target_append_data (target self) (out ++ [lc_byte data_len])
             else out in
  let out := match response_mode self with
             | Fci | Fcp => out ++ [LE_ANY]
             | NoResponse => out
             end in
  from_wire out.

(** ** GET RESPONSE and READ BINARY *)

Definition GetResponse_into_apdu (cls : ApduClass) (le : Z) : CommandApdu :=
  allow_wrong_le_retry (from_wire [class_as_byte cls; 0xC0; 0x00; 0x00; le]).

Record DirectOffset15 := mkDirectOffset15 { offset_as_u16 : Z }.
Inductive DirectOffset15Error := OffsetOutOfRange (got : Z).
Definition DIRECT_OFFSET_MAX : Z := 0x7FFF.

Definition DirectOffset15_try_new (offset : Z) : result DirectOffset15Error DirectOffset15 :=
  if offset >? DIRECT_OFFSET_MAX then Err (OffsetOutOfRange offset)
  else Ok (mkDirectOffset15 offset).

Definition direct_as_p1 (o : DirectOffset15) : Z := default 0 (be_bytes 2 (offset_as_u16 o) !! 0%nat).
Definition direct_as_p2 (o : DirectOffset15) : Z := default 0 (be_bytes 2 (offset_as_u16 o) !! 1%nat).

Inductive ReadBinaryOffset :=
  | Direct (o : DirectOffset15)
  | BySfi (sfi : Sfi) (offset : Z).

Definition offset_as_p1 (o : ReadBinaryOffset) : Z :=
  match o with Direct o => direct_as_p1 o | BySfi sfi _ => as_p1_short_form sfi end.
Definition offset_as_p2 (o : ReadBinaryOffset) : Z :=
  match o with Direct o => direct_as_p2 o | BySfi _ offset => offset end.

Definition READ_BINARY_INS : Z := 0xB0.

Definition ReadBinary_into_apdu (cls : ApduClass) (offset : ReadBinaryOffset) (le : Z)
  : CommandApdu :=
  allow_wrong_le_retry
    (from_wire [class_as_byte cls; READ_BINARY_INS; offset_as_p1 offset; offset_as_p2 offset; le]).

(** ** The transport port *)

Record ResponseApdu := mkResponse { body : bytes; sw1 : Z; sw2 : Z }.

Definition status_word (r : ResponseApdu) : Status.StatusWord := Status.from_bytes (sw1 r) (sw2 r).
Definition response_is_ok (r : ResponseApdu) : bool := Status.is_success (status_word r).

Inductive TransportOutcome :=
  | Response (r : ResponseApdu)
  | NoCard
  | TimeoutUnknownState
  | CardReset
  | ProtocolDesync
  | ReaderRemoved.

Definition into_response (o : TransportOutcome) : result TransportOutcome ResponseApdu :=
  match o with Response r => Ok r | other => Err other end.

Inductive TransportErrorKind :=
  | KindBackend | KindNoCard | KindTimeoutUnknownState | KindCardReset
  | KindProtocolDesync | KindReaderRemoved.

Definition outcome_kind (o : TransportOutcome) : option TransportErrorKind :=
  match o with
  | Response _ => None
  | NoCard => Some KindNoCard
  | TimeoutUnknownState => Some KindTimeoutUnknownState
  | CardReset => Some KindCardReset
  | ProtocolDesync => Some KindProtocolDesync
  | ReaderRemoved => Some KindReaderRemoved
  end.

(** The trait [CardTransport]: an adapter with its own state and error type. *)
Class CardTransport (T E : Type) := {
  transmit : CommandApdu -> exec T E TransportOutcome;
  transmit_credential : CredentialCommand -> exec T E TransportOutcome }.

(** ** Lemmas *)

(** A card's reading of P1 and P2 of a READ BINARY: the flag bit of P1 selects
    short-file-identifier addressing. *)
Definition decode_offset (p1 p2 : Z) : ReadBinaryOffset :=
  if Z.testbit p1 7 then BySfi (mkSfi (Z.land p1 0x1F)) p2
  else Direct (mkDirectOffset15 (be_value [p1; p2])).

(** The selectors the constructors admit. *)
Definition offset_ok (o : ReadBinaryOffset) : Prop :=
  match o with
  | Direct d => 0 <= offset_as_u16 d /\
                DirectOffset15_try_new (offset_as_u16 d) = Ok d
  | BySfi s off => 0 <= sfi_value s /\ Sfi_new (sfi_value s) = Ok s /\ is_u8 off
  end.

Lemma be_bytes_2 v : be_bytes 2 v = [Z.land (Z.shiftr v 8) 255; Z.land v 255].
Proof. reflexivity. Qed.

Lemma decode_direct v : 0 <= v <= 0x7FFF ->
  decode_offset (Z.land (Z.shiftr v 8) 255) (Z.land v 255) = Direct (mkDirectOffset15 v).
Proof.
  intros Hv. unfold decode_offset.
  assert (Z.testbit (Z.land (Z.shiftr v 8) 255) 7 = false) as ->.
  { rewrite land_255, shiftr_8, Z.mod_small.
    - apply Z.bits_above_log2; [apply Z.div_pos; lia|].
      apply Z.le_lt_trans with (Z.log2 127); [apply Z.log2_le_mono|by vm_compute].
      apply Z.lt_succ_r, Z.div_lt_upper_bound; lia.
    - split; [apply Z.div_pos; lia|]. apply Z.div_lt_upper_bound; lia. }
  rewrite <- be_bytes_2, be_value_be_bytes; [done|]. simpl. lia.
Qed.

Lemma decode_sfi n off : 0 <= n <= 30 ->
  decode_offset (Z.lor SHORT_FORM_FLAG n) off = BySfi (mkSfi n) off.
Proof.
  intros Hn. assert (exists m, (m < 31)%nat /\ n = Z.of_nat m) as (m & Hm & ->).
  { exists (Z.to_nat n). lia. }
  do 31 (destruct m as [|m]; [reflexivity|]). lia.
Qed.

Lemma lc_byte_small n : is_u8 n -> lc_byte n = n.
Proof. intros. unfold lc_byte. by rewrite try_from_uint_some. Qed.

(** Targets built through the validating constructors. *)
Definition fid_ok (f : FileId) : Prop := len (fid_bytes f) = FILE_ID_LENGTH.
Definition target_ok (t : SelectFileTarget) : Prop :=
  match t with
  | AnyByFileId None => True
  | AnyByFileId (Some f) | EfUnderCurrentDf f => fid_ok f
  | ByName aid => Aid_new (aid_bytes aid) = Ok aid
  | AbsolutePathTarget p => AbsolutePath_new (as_fids p) = Ok p /\ Forall fid_ok (as_fids p)
  end.

(** The data field of a target. *)
Definition target_data (t : SelectFileTarget) : bytes := target_append_data t [].

Lemma fold_append_fids fids out :
  fold_left (fun out fid => out ++ fid_bytes fid) fids out = out ++ concat (map fid_bytes fids).
Proof.
  revert out; induction fids as [|f fids IH]; intros out; simpl; [by rewrite app_nil_r|].
  by rewrite IH, <- app_assoc.
Qed.

Lemma target_append_data_app t out : target_append_data t out = out ++ target_data t.
Proof.
  unfold target_data. destruct t as [[f|]|f|a|p]; simpl; rewrite ?app_nil_r; try done.
  by rewrite !fold_append_fids.
Qed.

Lemma Aid_new_inv bs a : Aid_new bs = Ok a -> 5 <= len bs <= 16 /\ a = mkAid bs.
Proof.
  unfold Aid_new, AID_MIN_LENGTH, AID_MAX_LENGTH. case_if; [done|]. intros [= <-]. split; [lia|done].
Qed.

Lemma AbsolutePath_new_inv fids p :
  AbsolutePath_new fids = Ok p -> 1 <= len fids <= 127 /\ p = mkAbsolutePath fids.
Proof.
  unfold AbsolutePath_new, MAX_FIDS. destruct fids as [|f fids]; [done|].
  case_decide; [done|]. case_if; [done|]. intros [= <-]. rewrite len_cons in *.
  pose proof (len_nonneg fids). split; [lia|done].
Qed.

Lemma len_concat_fids fids : Forall fid_ok fids -> len (concat (map fid_bytes fids)) = 2 * len fids.
Proof.
  unfold fid_ok, FILE_ID_LENGTH. induction 1 as [|f fids Hf _ IH]; [done|].
  simpl. rewrite len_app, len_cons. lia.
Qed.

Lemma target_data_len_ok t :
  target_ok t -> target_data_len t = len (target_data t) /\ 0 <= target_data_len t <= 254.
Proof.
  unfold target_data, fid_ok, FILE_ID_LENGTH. destruct t as [[f|]|f|a|p]; simpl; intros H.
  - unfold fid_ok, FILE_ID_LENGTH in *. lia.
  - done.
  - unfold fid_ok, FILE_ID_LENGTH in *. lia.
  - apply Aid_new_inv in H as [? _]. lia.
  - destruct H as [Hp Hf]. apply AbsolutePath_new_inv in Hp as [? _].
    rewrite fold_append_fids. simpl. rewrite len_concat_fids by done.
    unfold FILE_ID_LENGTH, USIZE_MAX, U64_MAX. lia.
Qed.

(** Every replay-safe command the crate can produce. *)
Inductive built : CommandApdu -> Prop :=
  | built_case_1 h : built (case_1 h)
  | built_case_2 h le : built (case_2 h le)
  | built_case_3 h d c : case_3 h d = Ok c -> built c
  | built_case_4 h d le c : case_4 h d le = Ok c -> built c
  | built_chain h d le cs c : command_chain h d le = Ok cs -> c ∈ cs -> built c
  | built_select_aid a : built (SelectByAidNoFci_into_apdu a)
  | built_select_ef f : built (SelectEfNoFci_into_apdu f)
  | built_select_file s : built (SelectFile_into_apdu s)
  | built_get_response cls le : built (GetResponse_into_apdu cls le)
  | built_read_binary cls o le : built (ReadBinary_into_apdu cls o le)
  | built_corrected c le c' : built c -> corrected_wrong_le c le = Some c' -> built c'.

(** The commands that may be corrected: case 2, GET RESPONSE or READ BINARY. *)
Definition correctable_shape (c : CommandApdu) : Prop :=
  wrong_le_retry c = true ->
  len (as_bytes c) = 5 /\
  (as_bytes c !! 1%nat = Some 0xC0 \/ as_bytes c !! 1%nat = Some READ_BINARY_INS).

Lemma from_wire_shape bs : correctable_shape (from_wire bs).
Proof. done. Qed.

Lemma chain_chunks_no_retry h le cs cmds :
  chain_chunks h le cs = Ok cmds -> Forall (fun c => wrong_le_retry c = false) cmds.
Proof.
  revert cmds; induction cs as [|c cs IH]; intros cmds; cbn [chain_chunks].
  { by intros [= <-]. }
  destruct (match cs with [] => _ | _ :: _ => _ end) as [cmd|e] eqn:E; [|done]. cbn [rbind].
  destruct (chain_chunks h le cs) as [rest|e] eqn:E'; [|done]. cbn [rbind].
  intros [= <-]. constructor; [|by apply IH].
  destruct cs; unfold case_3, case_4 in E; destruct (short_form_lc c); simplify_eq/=; done.
Qed.

#[export] Hint Resolve from_wire_shape : rust.

(** ** Properties *)

(** (round trip) The addressing of a READ BINARY can be read back from P1
    and P2: a direct offset never reads as a short-file-identifier selection
    or the other way round. *)
Theorem read_binary_addressing (o : ReadBinaryOffset) :
  offset_ok o -> decode_offset (offset_as_p1 o) (offset_as_p2 o) = o.
Proof.
  destruct o as [[v]|[n] off]; cbn [offset_ok offset_as_p1 offset_as_p2 offset_as_u16 sfi_value].
  - intros [H0 H]. unfold DirectOffset15_try_new, DIRECT_OFFSET_MAX in H.
    case_match_in H; [done|]. unfold direct_as_p1, direct_as_p2. rewrite be_bytes_2. cbn.
    apply decode_direct. lia.
  - intros (H0 & H & Hoff). unfold Sfi_new, SFI_MAX in H. case_match_in H; [done|].
    apply decode_sfi. lia.
Qed.

Lemma read_binary_addressing_witness :
  decode_offset (offset_as_p1 (Direct (mkDirectOffset15 0x1234)))
                (offset_as_p2 (Direct (mkDirectOffset15 0x1234)))
  = Direct (mkDirectOffset15 0x1234) /\
  decode_offset (offset_as_p1 (BySfi (mkSfi 0x1E) 7)) (offset_as_p2 (BySfi (mkSfi 0x1E) 7))
  = BySfi (mkSfi 0x1E) 7.
Proof. split; apply read_binary_addressing; by vm_compute. Defined.

(** (functional) A SELECT FILE built from a valid target is a well-formed
    short command: Lc, when present, is the exact length of the data that
    follows it, and Le is present exactly when a response is asked for. *)
Theorem select_file_wire (s : SelectFile) :
  target_ok (target s) ->
  let data := target_data (target s) in
  as_bytes (SelectFile_into_apdu s)
  = [class_as_byte (sf_class s); 0xA4; target_as_p1 (target s); mode_as_p2 (response_mode s)]
    ++ (if len data =? 0 then [] else len data :: data)
    ++ (match response_mode s with NoResponse => [] | _ => [0] end)
  /\ len data <= 254.
Proof.
  intros Ht data. destruct (target_data_len_ok _ Ht) as [Hl Hb]. fold data in Hl.
  unfold SelectFile_into_apdu. rewrite Hl in *. split; [|lia].
  rewrite Z.gtb_ltb. destruct (Z.eqb_spec (len data) 0) as [Hz|Hz].
  - if_false. by destruct (response_mode s).
  - if_true. rewrite target_append_data_app, lc_byte_small by ulia. fold data.
    destruct (response_mode s); cbn; rewrite ?app_nil_r, <- ?app_assoc; done.
Qed.

Lemma select_file_wire_witness :
  as_bytes (SelectFile_into_apdu
    (mkSelectFile Plain (AnyByFileId (Some (FileId_from_u16 0x4331))) Fcp))
  = [0x00; 0xA4; 0x00; 0x04; 2; 0x43; 0x31; 0].
Proof.
  apply (select_file_wire
    (mkSelectFile Plain (AnyByFileId (Some (FileId_from_u16 0x4331))) Fcp)). done.
Defined.

(** (invariant) Of all the commands the crate can build, only five-byte
    GET RESPONSE and READ BINARY commands may be corrected after a wrong-Le
    status; every other command is sent at most as it was built. *)
Theorem only_reads_correctable (c : CommandApdu) :
  built c -> correctable_shape c.
Proof.
  induction 1 as [h|h le|h d c E|h d le c E|h d le cs c E Hin|a|f|s|cls le|cls o le|c le c' _ IH E];
    try apply from_wire_shape.
  - unfold case_3 in E. destruct (short_form_lc d); simplify_eq/=. done.
  - unfold case_4 in E. destruct (short_form_lc d); simplify_eq/=. done.
  - unfold command_chain in E. case_match_in E; [done|].
    apply chain_chunks_no_retry in E. rewrite Forall_forall in E.
    unfold correctable_shape. by rewrite (E c Hin).
  - intros _. split; [done|]. by left.
  - intros _. split; [done|]. by right.
  - unfold corrected_wrong_le in E. destruct (wrong_le_retry c); [|done]. cbn [negb] in E.
    destruct (set_last (as_bytes c) le); simplify_eq/=. done.
Qed.

Lemma only_reads_correctable_witness :
  len (as_bytes (ReadBinary_into_apdu Plain (Direct (mkDirectOffset15 0)) 16)) = 5.
Proof.
  exact (proj1 (only_reads_correctable _
    (built_read_binary Plain (Direct (mkDirectOffset15 0)) 16) eq_refl)).
Defined.

End Iso7816.
