(* ===== verification/Pkcs15Fs.v ===== *)
(** * PKCS#15 file reads over the card transport (crates/pkcs15/src/fs.rs)

    The SELECT choreography and the two READ BINARY loops, written against the
    [CardTransport] class, so every theorem holds for any adapter.

    The theorems: both loops terminate on any card; an object read by
    [read_binary_der_object] is exactly one DER object of the declared length
    and at most 16384 bytes, whatever the card answers; against a card that
    serves a file as ISO 7816-4 documents, the DER read returns the object at
    the start of the file and the read to the end returns the whole file; and
    SELECT tries its variants in order, stopping at the first success. *)

From stdpp Require Import base list strings.
From Stdlib Require Import ZArith Lia.
From S2P Require Import Prelude ApduStatus ApduCommand ApduIso7816.

Module Pkcs15.
Import Apdu Iso7816.

(** ** Identifiers *)

Definition PKCS15_AID : bytes :=
  [0xA0; 0x00; 0x00; 0x00; 0x63; 0x50; 0x4B; 0x43; 0x53; 0x2D; 0x31; 0x35].
Definition ESIGN_AID : bytes := [0x45; 0x2E; 0x53; 0x49; 0x47; 0x4E].

Definition EF_AUTH_CERT_FID : FileId := FileId_from_u16 0x4331.
Definition EF_SIGN_CERT_FID : FileId := FileId_from_u16 0x4332.
Definition EF_AUTH_CERT_ALT_FID : FileId := FileId_from_u16 0x4333.
Definition EF_ROOT_CA_FID : FileId := FileId_from_u16 0x4334.
Definition EF_SIGN_CERT_ALT_FID : FileId := FileId_from_u16 0x4335.
Definition EF_ISSUING_CA_ECC_FID : FileId := FileId_from_u16 0x4336.
Definition EF_TOKEN_INFO_FID : FileId := FileId_from_u16 0x5032.
Definition DF_ESIGN_FID : FileId := FileId_from_u16 0x5016.

Inductive SlotPath := UnderPkcs15App | UnderEsignDirectory | UnderMf.

Inductive CertSlot :=
  | Authentication | Signature | AuthenticationAlt | RootCa | SignatureAlt | IssuingCaEcc.

Definition slot_fid (s : CertSlot) : FileId :=
  match s with
  | Authentication => EF_AUTH_CERT_FID
  | Signature => EF_SIGN_CERT_FID
  | AuthenticationAlt => EF_AUTH_CERT_ALT_FID
  | RootCa => EF_ROOT_CA_FID
  | SignatureAlt => EF_SIGN_CERT_ALT_FID
  | IssuingCaEcc => EF_ISSUING_CA_ECC_FID
  end.

Definition slot_label (s : CertSlot) : string :=
  match s with
  | Authentication => "authentication (EF.4331)"
  | Signature => "qualified signature (EF.4332)"
  | AuthenticationAlt => "authentication, alt slot (EF.4333)"
  | RootCa => "on-card issuing root CA (EF.4334)"
  | SignatureAlt => "qualified signature, alt slot (EF.4335)"
  | IssuingCaEcc => "issuing intermediate CA (EF.4336)"
  end.

Definition slot_path (s : CertSlot) : SlotPath :=
  match s with
  | Authentication => UnderPkcs15App
  | Signature | AuthenticationAlt | SignatureAlt => UnderEsignDirectory
  | RootCa | IssuingCaEcc => UnderMf
  end.

Definition requires_mf_traversal (s : CertSlot) : bool :=
  match slot_path s with UnderPkcs15App => false | _ => true end.

Definition slot_all : list CertSlot :=
  [Authentication; Signature; AuthenticationAlt; RootCa; SignatureAlt].

Definition READ_CHUNK : Z := 0xDF.
Definition MAX_OBJECT_BYTES : Z := 0x4000.

(** ** The DER header *)

Definition MAXIMUM_LENGTH_OCTETS : Z := 2.

(** The loop over the length octets: [checked_shl] by eight drops the bits
    pushed out of the word, [checked_add] fails on overflow. *)
Fixpoint content_length (octets : bytes) (acc : Z) : option Z :=
  match octets with
  | [] => Some acc
  | byte :: rest =>
      acc' ← checked_add USIZE_MAX (Z.land (Z.shiftl acc 8) USIZE_MAX) byte;
      content_length rest acc'
  end.

(** [Err tt] is [MalformedDerLength]; [Ok None], the header is incomplete. *)
Definition der_object_total_length (prefix : bytes) : result unit (option Z) :=
  match prefix with
  | _ :: first :: _ =>
      if Z.land first 0x80 =? 0 then
        rmap Some (ok_or (checked_add USIZE_MAX 2 first) tt)
      else
        let octet_count := Z.land first 0x7F in
        if (octet_count =? 0) || (octet_count >? MAXIMUM_LENGTH_OCTETS) then Err tt
        else
          let? header_len := ok_or (checked_add USIZE_MAX 2 octet_count) tt in
          if len prefix <? header_len then Ok None
          else
            let? octets := ok_or (get_range prefix 2 header_len) tt in
            let? content_len := ok_or (content_length octets 0) tt in
            rmap Some (ok_or (checked_add USIZE_MAX header_len content_len) tt)
  | _ => Ok None
  end.

(** ** Errors *)

Inductive Pkcs15Error (E : Type) :=
  | Transport (e : E)
  | Outcome (o : TransportOutcome)
  | StatusError (sw : Status.StatusWord)
  | AidRejected (e : AidError)
  | CommandRejected (e : CommandDataError)
  | EmptyRead
  | TooLarge
  | InvalidData (what : string).
Arguments Transport {E} _.
Arguments Outcome {E} _.
Arguments StatusError {E} _.
Arguments AidRejected {E} _.
Arguments CommandRejected {E} _.
Arguments EmptyRead {E}.
Arguments TooLarge {E}.
Arguments InvalidData {E} _.

Section Ops.
Context {T E : Type} `{CardTransport T E}.

Definition exchange (command : CommandApdu) : exec T (Pkcs15Error E) ResponseApdu :=
  do? outcome <- emap_err Transport (transmit command) ;;
  elift (map_err Outcome (into_response outcome)).

(** ** SELECT *)

Fixpoint select_loop (variants : list CommandApdu) (last : Status.StatusWord)
  : exec T (Pkcs15Error E) unit :=
  match variants with
  | [] => efail (StatusError last)
  | command :: rest =>
      do? response <- exchange command ;;
      if response_is_ok response then eret tt
      else select_loop rest (status_word response)
  end.

Definition select_with_variants (variants : list CommandApdu)
  : exec T (Pkcs15Error E) unit := select_loop variants (Status.Other 0).

Definition P1_SELECT_CHILD_DF : Z := 0x01.
Definition P1_SELECT_BY_NAME : Z := 0x04.
Definition P2_NO_RESPONSE_DATA : Z := mode_as_p2 NoResponse.

Definition select_by_name_variant (fid : FileId) : result (Pkcs15Error E) CommandApdu :=
  map_err CommandRejected
    (case_3 (mkHeader Plain SELECT_INS P1_SELECT_BY_NAME P2_NO_RESPONSE_DATA) (fid_bytes fid)).

Definition select_child_df_variant (fid : FileId) : result (Pkcs15Error E) CommandApdu :=
  map_err CommandRejected
    (case_3 (mkHeader Plain SELECT_INS P1_SELECT_CHILD_DF P2_NO_RESPONSE_DATA) (fid_bytes fid)).

Definition select_any_by_fid_variant (fid : FileId) : CommandApdu :=
  SelectFile_into_apdu (mkSelectFile Plain (AnyByFileId (Some fid)) NoResponse).

Definition select_pkcs15_application : exec T (Pkcs15Error E) unit :=
  do? aid <- elift (map_err AidRejected (Aid_from_slice PKCS15_AID)) ;;
  do? response <- exchange (SelectByAidNoFci_into_apdu aid) ;;
  if response_is_ok response then eret tt else efail (StatusError (status_word response)).

Definition select_ef (fid : FileId) : exec T (Pkcs15Error E) unit :=
  select_with_variants [SelectEfNoFci_into_apdu fid; select_any_by_fid_variant fid].

Definition select_mf : exec T (Pkcs15Error E) unit :=
  do? by_name <- elift (select_by_name_variant FileId_MF) ;;
  select_with_variants [select_any_by_fid_variant FileId_MF; by_name].

Definition select_child_df (fid : FileId) : exec T (Pkcs15Error E) unit :=
  do? child <- elift (select_child_df_variant fid) ;;
  select_with_variants [child; select_any_by_fid_variant fid].

Definition select_esign_directory : exec T (Pkcs15Error E) unit :=
  do? _ <- select_mf ;;
  do? aid <- elift (map_err AidRejected (Aid_from_slice ESIGN_AID)) ;;
  do? child <- elift (select_child_df_variant DF_ESIGN_FID) ;;
  select_with_variants
    [SelectByAidNoFci_into_apdu aid; child; select_any_by_fid_variant DF_ESIGN_FID].

(** ** READ BINARY *)

Definition read_chunk (offset want : Z) : exec T (Pkcs15Error E) ResponseApdu :=
  do? offset_wire <- elift (ok_or (try_from_uint U16_MAX offset) TooLarge) ;;
  do? direct <- elift (map_err (fun _ => TooLarge) (DirectOffset15_try_new offset_wire)) ;;
  exchange (ReadBinary_into_apdu Plain (Direct direct) want).

Definition is_end_of_file (r : ResponseApdu) : bool :=
  match status_word r with Status.EndOfFile => true | _ => false end.

(** The loop of [read_binary_to_end]; [None] is fuel exhaustion. *)
Fixpoint read_to_end_loop (fuel : nat) (cap offset : Z) (collected : bytes) (t : T)
  : option (result (Pkcs15Error E) bytes * T) :=
  if offset <? cap then
    match fuel with
    | O => None
    | S f =>
        match checked_sub cap offset with
        | None => Some (Err TooLarge, t)
        | Some remaining =>
            match try_from_uint U8_MAX (Z.min remaining READ_CHUNK) with
            | None => Some (Err TooLarge, t)
            | Some want =>
                match read_chunk offset want t with
                | (Err e, t) => Some (Err e, t)
                | (Ok response, t) =>
                    let end_of_file := is_end_of_file response in
                    if negb (response_is_ok response) && negb end_of_file
                    then Some (Err (StatusError (status_word response)), t)
                    else
                      let body_len := len (body response) in
                      let collected := collected ++ body response in
                      if (body_len =? 0) || (body_len <? want) || end_of_file
                      then Some (Ok collected, t)
                      else match checked_add USIZE_MAX offset body_len with
                           | None => Some (Err TooLarge, t)
                           | Some offset => read_to_end_loop f cap offset collected t
                           end
                end
            end
        end
    end
  else Some (Ok collected, t).

Definition read_binary_to_end (fuel : nat) (expected_size : option Z) (t : T)
  : option (result (Pkcs15Error E) bytes * T) :=
  let cap := Z.min (default MAX_OBJECT_BYTES expected_size) MAX_OBJECT_BYTES in
  '(r, t) ← read_to_end_loop fuel cap 0 [] t;
  Some (match r with
        | Err e => Err e
        | Ok collected =>
            if is_empty collected then Err EmptyRead
            else if len collected >? MAX_OBJECT_BYTES then Err TooLarge
            else Ok collected
        end, t).

(** The part of an iteration of [read_binary_der_object] after a chunk was
    read: the new buffer and total length, or the result. *)
Definition der_step (what : string) (collected : bytes) (total_length : option Z)
  (want : Z) (response : ResponseApdu)
  : result (Pkcs15Error E) bytes + bytes * option Z :=
  let end_of_file := is_end_of_file response in
  if negb (response_is_ok response) && negb end_of_file
  then inl (Err (StatusError (status_word response)))
  else if is_empty (body response) then
    inl (Err (if is_empty collected then EmptyRead else InvalidData what))
  else
    let body_len := len (body response) in
    let collected := collected ++ body response in
    let parsed :=
      match total_length with
      | Some _ => Ok total_length
      | None =>
          match der_object_total_length collected with
          | Err _ => Err (InvalidData what)
          | Ok (Some total) =>
              if total >? MAX_OBJECT_BYTES then Err TooLarge else Ok (Some total)
          | Ok None => Ok None
          end
      end in
    match parsed with
    | Err e => inl (Err e)
    | Ok total_length =>
        match total_length with
        | Some total =>
            if len collected >=? total then inl (Ok (take_z collected total))
            else if (body_len <? want) || end_of_file then inl (Err (InvalidData what))
            else inr (collected, total_length)
        | None =>
            if (body_len <? want) || end_of_file then inl (Err (InvalidData what))
            else inr (collected, total_length)
        end
    end.

(** The loop of [read_binary_der_object]; [None] is fuel exhaustion. *)
Fixpoint der_loop (fuel : nat) (what : string) (collected : bytes)
  (total_length : option Z) (t : T) : option (result (Pkcs15Error E) bytes * T) :=
  match fuel with
  | O => None
  | S f =>
      let cap := default MAX_OBJECT_BYTES total_length in
      if len collected >=? cap then Some (Ok (take_z collected cap), t)
      else match checked_sub cap (len collected) with
      | None => Some (Err TooLarge, t)
      | Some remaining =>
          match try_from_uint U8_MAX (Z.min remaining READ_CHUNK) with
          | None => Some (Err TooLarge, t)
          | Some want =>
              match read_chunk (len collected) want t with
              | (Err e, t) => Some (Err e, t)
              | (Ok response, t) =>
                  match der_step what collected total_length want response with
                  | inl r => Some (r, t)
                  | inr (collected, total_length) => der_loop f what collected total_length t
                  end
              end
          end
      end
  end.

Definition read_binary_der_object (fuel : nat) (what : string) (t : T)
  : option (result (Pkcs15Error E) bytes * T) := der_loop fuel what [] None t.

(** The SELECT chain of a slot, by its directory position. *)
Definition select_slot (slot : CertSlot) : exec T (Pkcs15Error E) unit :=
  match slot_path slot with
  | UnderPkcs15App => do? _ <- select_pkcs15_application ;; select_ef (slot_fid slot)
  | UnderEsignDirectory => do? _ <- select_esign_directory ;; select_ef (slot_fid slot)
  | UnderMf => do? _ <- select_mf ;; select_ef (slot_fid slot)
  end.

Definition read_certificate (fuel : nat) (slot : CertSlot) (t : T)
  : option (result (Pkcs15Error E) bytes * T) :=
  match select_slot slot t with
  | (Err e, t) => Some (Err e, t)
  | (Ok _, t) => read_binary_der_object fuel (slot_label slot) t
  end.

End Ops.

(** ** Lemmas on the DER header *)

Lemma content_length_bound octets acc c :
  all_bytes octets -> 0 <= acc -> content_length octets acc = Some c -> 0 <= c.
Proof.
  revert acc; induction octets as [|b bs IH]; intros acc Hb Ha; cbn [content_length].
  { by intros [= <-]. }
  inversion Hb as [|?? Hb' Hbs]; subst. unfold checked_add. case_if; [|done].
  cbn [mbind option_bind]. apply IH; [done|].
  assert (0 <= Z.land (Z.shiftl acc 8) USIZE_MAX) by (apply Z.land_nonneg; right; ulia).
  destruct Hb'. lia.
Qed.

(** A complete header is a prefix of two to four bytes, and the declared total
    depends on nothing after it. *)
Lemma der_header_prefix p n :
  all_bytes p -> der_object_total_length p = Ok (Some n) ->
  exists h rest, p = h ++ rest /\ 2 <= len h <= 4 /\ len h <= n /\
    forall q, der_object_total_length (h ++ q) = Ok (Some n).
Proof.
  intros Hb. destruct p as [|a [|b r]]; [done|done|].
  inversion Hb as [|?? _ Hb1]; subst. inversion Hb1 as [|?? Hb2 Hr]; subst.
  cbn [der_object_total_length]. case_if.
  - unfold checked_add. case_if; [|done]. cbn. intros [= <-].
    exists [a; b], r. change (len [a; b]) with 2.
    split_and!; [done|done|done|destruct Hb2; lia|].
    intros q. cbn [app der_object_total_length]. rewrite E. cbn.
    unfold checked_add. by rewrite (proj2 (Z.leb_le _ _) E0).
  - set (c := Z.land b 0x7F). case_if; [done|].
    assert (1 <= c <= 2) as Hc.
    { assert (0 <= c) by (unfold c; apply Z.land_nonneg; right; lia).
      unfold MAXIMUM_LENGTH_OCTETS in *. lia. }
    rewrite checked_add_some by ulia. cbn [ok_or rbind]. case_if; [done|].
    destruct (get_range (a :: b :: r) 2 (2 + c)) as [o|] eqn:Eo; [|done]. cbn [ok_or rbind].
    destruct (content_length o 0) as [cl|] eqn:Ecl; [|done]. cbn [ok_or rbind].
    unfold checked_add at 1. case_if; [|done]. cbn. intros [= <-].
    assert (len o = c) as Hlo by (apply get_range_len in Eo; lia).
    apply get_range_spec in Eo as (_ & _ & Ho).
    replace (Z.to_nat (2 + c - 2)) with (Z.to_nat c) in Ho by lia.
    change (drop (Z.to_nat 2) (a :: b :: r)) with r in Ho.
    assert (0 <= cl).
    { eapply content_length_bound; [|done|exact Ecl]. rewrite Ho. by apply Forall_take. }
    exists (a :: b :: o), (drop (Z.to_nat c) r). split_and!.
    + rewrite Ho. cbn [app]. by rewrite take_drop.
    + rewrite !len_cons. lia.
    + rewrite !len_cons. lia.
    + rewrite !len_cons. lia.
    + intros q. cbn [app der_object_total_length]. rewrite (proj2 (Z.eqb_neq _ _) E). fold c.
      replace (_ || _) with false by (unfold MAXIMUM_LENGTH_OCTETS; lia).
      rewrite checked_add_some by ulia. cbn [ok_or rbind].
      pose proof (len_nonneg q).
      replace (len (a :: b :: o ++ q) <? 2 + c) with false by (rewrite !len_cons, len_app; lia).
      change (a :: b :: o ++ q) with ([a; b] ++ o ++ q).
      rewrite (get_range_app' [a; b]) by (change (len [a; b]) with 2; lia). cbn [ok_or rbind]. rewrite Ecl.
      cbn [ok_or rbind]. unfold checked_add. by rewrite (proj2 (Z.leb_le _ _) E1).
Qed.

Lemma der_header_incomplete p : der_object_total_length p = Ok None -> len p < 4.
Proof.
  destruct p as [|a [|b r]]; [done|done|]. cbn [der_object_total_length]. case_if.
  { unfold checked_add. by case_if. }
  case_if; [done|]. unfold checked_add at 1. case_if; [|done]. cbn [ok_or rbind].
  unfold MAXIMUM_LENGTH_OCTETS in *. case_if; [lia|].
  destruct (get_range _ _ _); [|done]. cbn [ok_or rbind].
  destruct (content_length _ _); [|done]. cbn. unfold checked_add. by case_if.
Qed.

Lemma der_total_app p q n :
  all_bytes p -> der_object_total_length p = Ok (Some n) ->
  der_object_total_length (p ++ q) = Ok (Some n).
Proof.
  intros Hb (h & rest & -> & _ & _ & Hq)%der_header_prefix; [|done].
  by rewrite <- app_assoc.
Qed.

Lemma der_total_take p n :
  all_bytes p -> der_object_total_length p = Ok (Some n) -> n <= len p ->
  der_object_total_length (take_z p n) = Ok (Some n) /\ len (take_z p n) = n.
Proof.
  intros Hb (h & rest & -> & Hh & Hn & Hq)%der_header_prefix Hl; [|done].
  pose proof (len_nonneg h). split; [|apply len_take_z; lia].
  unfold take_z. rewrite take_app_ge by ulia. apply Hq.
Qed.

(** ** Lemmas on the loops *)

Section Loops.
Context {T E : Type} `{CardTransport T E}.

(** The adapter's bodies are byte strings, as the type [Vec<u8>] says. *)
Definition transport_typed : Prop :=
  forall c t r t', transmit c t = (Ok (Response r), t') -> all_bytes (body r).

Context (Htyped : transport_typed).

Lemma exchange_typed c t r t' : exchange c t = (Ok r, t') -> all_bytes (body r).
Proof.
  unfold exchange, ebind, emap_err, elift. destruct (transmit c t) as [[o|e] t1] eqn:Ex; cbn; [|done].
  destruct o; cbn; [|done..]. intros [= <- <-]. by eapply Htyped.
Qed.

Lemma read_chunk_typed off want t r t' :
  read_chunk off want t = (Ok r, t') -> all_bytes (body r).
Proof.
  unfold read_chunk. unfold ebind at 1, elift at 1.
  destruct (ok_or _ _) as [w|]; [|done]. unfold ebind, elift.
  destruct (map_err _ _); [|done]. apply exchange_typed.
Qed.

(** The loop invariant: a known total was read from the buffer and is not yet
    reached; while it is unknown the header is incomplete. *)
Definition der_inv (collected : bytes) (total_length : option Z) : Prop :=
  all_bytes collected /\
  match total_length with
  | Some n => der_object_total_length collected = Ok (Some n)
              /\ n <= MAX_OBJECT_BYTES /\ len collected < n
  | None => der_object_total_length collected = Ok None
  end.

Lemma der_inv_len collected total : der_inv collected total ->
  len collected < default MAX_OBJECT_BYTES total <= MAX_OBJECT_BYTES.
Proof.
  destruct total as [n|]; cbn; intros [_ Hi]; [lia|].
  apply der_header_incomplete in Hi. unfold MAX_OBJECT_BYTES. lia.
Qed.

Lemma der_step_spec what collected total want response :
  der_inv collected total -> all_bytes (body response) ->
  match @der_step E what collected total want response with
  | inl (Ok bs) => der_object_total_length bs = Ok (Some (len bs)) /\ len bs <= MAX_OBJECT_BYTES
                   /\ exists n, (total = None \/ total = Some n) /\
                        der_object_total_length (collected ++ body response) = Ok (Some n) /\
                        bs = take_z (collected ++ body response) n
  | inl (Err _) => True
  | inr (collected', total') => der_inv collected' total' /\ len collected < len collected'
  end.
Proof.
  intros [Hc Hi] Hb. unfold der_step. case_if; [done|].
  rewrite (is_empty_len (body response)). case_if; [done|].
  pose proof (len_nonneg (body response)).
  set (col := collected ++ body response).
  assert (all_bytes col) as Hcol by (by apply all_bytes_app).
  assert (len collected < len col) as Hlt by (unfold col; rewrite len_app; lia).
  assert (forall n, der_object_total_length col = Ok (Some n) -> n <= MAX_OBJECT_BYTES ->
    (total = None \/ total = Some n) ->
    match (if len col >=? n then inl (Ok (take_z col n))
           else if (len (body response) <? want) || is_end_of_file response
                then inl (@Err (Pkcs15Error E) bytes (InvalidData what)) else inr (col, Some n)) with
    | inl (Ok bs) => der_object_total_length bs = Ok (Some (len bs)) /\ len bs <= MAX_OBJECT_BYTES
        /\ exists n, (total = None \/ total = Some n) /\
             der_object_total_length col = Ok (Some n) /\ bs = take_z col n
    | inl (Err _) => True
    | inr (collected', total') => der_inv collected' total' /\ len collected < len collected'
    end) as Hknown.
  { intros n Hn Hm Ht. case_if.
    - destruct (der_total_take col n) as [Ht1 Ht2]; [done|done|lia|].
      rewrite Ht2. split_and!; [done|done|]. by exists n.
    - case_if; [done|]. split; [|done]. split; [done|]. split_and!; [done|done|lia]. }
  destruct total as [n|].
  - destruct Hi as (Hi & Hm & _). cbn. apply Hknown; [|done|by right].
    by apply der_total_app.
  - destruct (der_object_total_length col) as [[n|]|] eqn:Ed; [| |done].
    + case_if; [done|]. apply Hknown; [done|lia|by left].
    + case_if; [done|]. done.
Qed.

Lemma der_loop_total fuel what collected total t :
  der_inv collected total -> MAX_OBJECT_BYTES - len collected < Z.of_nat fuel ->
  exists r, der_loop fuel what collected total t = Some r.
Proof.
  revert collected total t; induction fuel as [|f IH]; intros collected total t Hi Hf.
  { apply der_inv_len in Hi. lia. }
  cbn [der_loop]. case_if; [eauto|].
  destruct (checked_sub _ _); [|eauto]. destruct (try_from_uint _ _) as [want|]; [|eauto].
  destruct (read_chunk _ _ t) as [[response|e] t'] eqn:Er; [|eauto].
  apply read_chunk_typed in Er.
  pose proof (der_step_spec what collected total want response Hi Er) as Hs.
  destruct (der_step _ _ _ _ _) as [r|[col tot]]; [eauto|].
  destruct Hs as [Hi' Hlt]. apply IH; [done|lia].
Qed.

Lemma der_loop_sound fuel what collected total t bs t' :
  der_inv collected total ->
  der_loop fuel what collected total t = Some (Ok bs, t') ->
  der_object_total_length bs = Ok (Some (len bs)) /\ len bs <= MAX_OBJECT_BYTES.
Proof.
  revert collected total t; induction fuel as [|f IH]; intros collected total t Hi; [done|].
  cbn [der_loop]. pose proof (der_inv_len _ _ Hi). case_if; [lia|].
  destruct (checked_sub _ _); [|done]. destruct (try_from_uint _ _) as [want|]; [|done].
  destruct (read_chunk _ _ t) as [[response|e] t1] eqn:Er; [|done].
  apply read_chunk_typed in Er.
  pose proof (der_step_spec what collected total want response Hi Er) as Hs.
  destruct (der_step _ _ _ _ _) as [r|[col tot]].
  - intros [= -> _]. destruct Hs as (? & ? & _). done.
  - destruct Hs as [Hi' _]. by apply IH.
Qed.

Lemma read_to_end_loop_total fuel cap offset collected t :
  cap <= MAX_OBJECT_BYTES -> cap - offset < Z.of_nat fuel ->
  exists r, read_to_end_loop fuel cap offset collected t = Some r.
Proof.
  intros Hcap. revert offset collected t; induction fuel as [|f IH];
    intros offset collected t Hf; cbn [read_to_end_loop].
  { if_false. eauto. }
  case_if; [|eauto].
  destruct (checked_sub _ _); [|eauto]. destruct (try_from_uint _ _) as [want|]; [|eauto].
  destruct (read_chunk _ _ t) as [[response|e] t'] eqn:Er; [|eauto].
  case_if; [eauto|]. case_if; [eauto|].
  unfold checked_add. case_if; [|eauto]. apply IH.
  pose proof (len_nonneg (body response)). lia.
Qed.

End Loops.

(** ** A card that serves its selected file *)

(** What READ BINARY promises of a card (ISO 7816-4 section 7.2.3): the bytes
    of the selected file from the offset, at most as many as asked for, with
    the success status when all were there and success or end-of-file when
    fewer remained. *)
Class ServesFile (T E : Type) `{CardTransport T E} := {
  selected : T -> option bytes;
  serves_read : forall t f off want,
    selected t = Some f -> 0 <= off <= len f -> off <= 0x7FFF -> 1 <= want <= READ_CHUNK ->
    exists r t',
      transmit (ReadBinary_into_apdu Plain (Direct (mkDirectOffset15 off)) want) t
      = (Ok (Response r), t') /\
      body r = take_z (drop_z f off) want /\ selected t' = Some f /\
      (status_word r = Status.Success \/
       status_word r = Status.EndOfFile /\ len f < off + want) }.

Lemma take_z_step (f : bytes) k w : 0 <= k -> 0 <= w ->
  take_z f k ++ take_z (drop_z f k) w = take_z f (k + w).
Proof.
  intros. unfold take_z, drop_z. replace (Z.to_nat (k + w)) with (Z.to_nat k + Z.to_nat w)%nat by lia.
  by rewrite take_take_drop.
Qed.

Lemma len_take_min (f : bytes) k : 0 <= k -> len (take_z f k) = Z.min k (len f).
Proof. intros. unfold take_z, len. rewrite length_take. lia. Qed.

Lemma take_z_ge (f : bytes) k : len f <= k -> take_z f k = f.
Proof. intros. unfold take_z. apply take_ge. ulia. Qed.

Lemma take_take_z (f : bytes) a b : 0 <= a <= b -> take_z (take_z f b) a = take_z f a.
Proof. intros. unfold take_z. rewrite take_take. f_equal. lia. Qed.

Section Serving.
Context {T E : Type} `{ServesFile T E}.

Lemma read_chunk_serves t f off want :
  selected t = Some f -> 0 <= off <= len f -> off <= 0x7FFF -> 1 <= want <= READ_CHUNK ->
  exists r t', read_chunk off want t = (Ok r, t') /\
    body r = take_z (drop_z f off) want /\ selected t' = Some f /\
    negb (response_is_ok r) && negb (is_end_of_file r) = false /\
    (off + want <= len f -> is_end_of_file r = false).
Proof.
  intros Hf Ho Ho' Hw. destruct (serves_read t f off want Hf Ho Ho' Hw)
    as (r & t' & Ht & Hb & Hs & Hst).
  exists r, t'. unfold read_chunk, ebind, elift. rewrite try_from_uint_some by ulia. cbn [ok_or].
  unfold DirectOffset15_try_new, DIRECT_OFFSET_MAX. rewrite Z.gtb_ltb. if_false. cbn [map_err].
  unfold exchange, ebind, emap_err, elift. rewrite Ht. cbn.
  unfold response_is_ok, is_end_of_file.
  destruct Hst as [->|[-> Hlt]]; split_and!; try done. intros. lia.
Qed.

(** The want of one iteration. *)
Lemma chunk_want remaining : 1 <= remaining ->
  try_from_uint U8_MAX (Z.min remaining READ_CHUNK) = Some (Z.min remaining 223).
Proof. intros. unfold READ_CHUNK. rewrite try_from_uint_some by ulia. done. Qed.

Lemma checked_sub_some a b : b <= a -> checked_sub a b = Some (a - b).
Proof. intros. unfold checked_sub. by if_true. Qed.

(** Once the total is known and not reached, the loop reads up to it. *)
Lemma der_loop_serves_known fuel what f n k t :
  selected t = Some f -> 0 <= k < n -> n <= len f -> n <= MAX_OBJECT_BYTES ->
  n - k < Z.of_nat fuel ->
  exists t', der_loop fuel what (take_z f k) (Some n) t = Some (Ok (take_z f n), t') .
Proof.
  revert k t; induction fuel as [|fu IH]; intros k t Hf Hk Hn Hm Hfu; [lia|].
  cbn [der_loop default from_option id]. rewrite len_take_z by lia. rewrite Z.geb_leb. if_false.
  rewrite checked_sub_some, chunk_want by lia.
  set (w := Z.min (n - k) 223).
  assert (1 <= w <= 223 /\ w <= n - k) as Hw by (unfold w; lia).
  destruct (read_chunk_serves t f k w Hf) as (r & t' & -> & Hb & Hs & Hst & Heof);
    [lia|unfold MAX_OBJECT_BYTES in *; lia|unfold READ_CHUNK; lia|].
  unfold der_step. rewrite Hst. cbv iota zeta. rewrite Hb, is_empty_len, len_take_min, len_drop_z by lia.
  replace (Z.min w (len f - k)) with w by lia. rewrite Heof by lia. if_false.
  rewrite take_z_step, len_take_z, Z.geb_leb by lia.
  destruct (Z.leb_spec n (k + w)).
  - exists t'. rewrite take_take_z by lia. done.
  - rewrite Z.ltb_irrefl. cbn [orb]. apply IH; (done || lia).
Qed.

Lemma der_loop_serves fuel what f obj pad t :
  selected t = Some f -> f = obj ++ pad -> all_bytes f ->
  der_object_total_length obj = Ok (Some (len obj)) -> len obj <= MAX_OBJECT_BYTES ->
  MAX_OBJECT_BYTES < Z.of_nat fuel ->
  exists t', der_loop fuel what [] None t = Some (Ok obj, t').
Proof.
  intros Hf Hfe Hb Hd Hm Hfu. pose proof (len_nonneg pad).
  assert (take_z f (len obj) = obj) as Ho.
  { unfold take_z, len. rewrite Hfe, Nat2Z.id. apply take_app_length. }
  assert (len obj <= len f) as Hlf by (rewrite Hfe, len_app; lia).
  assert (all_bytes obj) as Hbo by (rewrite Hfe in Hb; by apply all_bytes_app in Hb as [? _]).
  destruct (der_header_prefix obj _ Hbo Hd) as (h & rest & Hh & Hh2 & Hh3 & Hq).
  destruct fuel as [|fu]; [unfold MAX_OBJECT_BYTES in *; lia|]. cbn [der_loop default from_option id].
  change (len []) with 0. change (0 >=? MAX_OBJECT_BYTES) with false.
  rewrite checked_sub_some, chunk_want by done.
  change (Z.min (MAX_OBJECT_BYTES - 0) 223) with 223.
  destruct (read_chunk_serves t f 0 223 Hf) as (r & t' & -> & Hbody & Hs & Hst & Heof);
    [lia|lia|unfold READ_CHUNK; lia|].
  unfold der_step. rewrite Hst. cbv iota zeta. rewrite Hbody. change (drop_z f 0) with f.
  rewrite is_empty_len, len_take_min by lia. if_false. cbn [app].
  assert (der_object_total_length (take_z f 223) = Ok (Some (len obj))) as ->.
  { replace f with (h ++ rest ++ pad) by (by rewrite Hfe, Hh, app_assoc).
    unfold take_z. rewrite take_app_ge by ulia. apply Hq. }
  rewrite Z.gtb_ltb. if_false. rewrite len_take_min, Z.geb_leb by lia.
  destruct (Z.leb_spec (len obj) (Z.min 223 (len f))).
  - exists t'. rewrite take_take_z by lia. by rewrite Ho.
  - rewrite Heof by lia. if_false.
    destruct (der_loop_serves_known fu what f (len obj) 223 t' Hs) as [t'' Ht''];
      [lia|lia|done|lia|]. exists t''. by rewrite Ht'', Ho.
Qed.

Lemma to_end_loop_serves fuel f k t :
  selected t = Some f -> len f <= MAX_OBJECT_BYTES -> 0 <= k <= len f ->
  MAX_OBJECT_BYTES - k < Z.of_nat fuel ->
  exists t', read_to_end_loop fuel MAX_OBJECT_BYTES k (take_z f k) t = Some (Ok f, t').
Proof.
  unfold MAX_OBJECT_BYTES.
  revert k t; induction fuel as [|fu IH]; intros k t Hf Hm Hk Hfu; [lia|].
  cbn [read_to_end_loop]. case_if; [|exists t; by rewrite take_z_ge by lia].
  rewrite checked_sub_some, chunk_want by lia.
  set (w := Z.min (0x4000 - k) 223).
  assert (1 <= w <= 223) as Hw by (unfold w; lia).
  destruct (read_chunk_serves t f k w Hf) as (r & t' & -> & Hb & Hs & Hst & Heof);
    [lia|lia|unfold READ_CHUNK; lia|].
  rewrite Hst. cbv iota zeta. rewrite Hb, len_take_min, len_drop_z, take_z_step by lia.
  destruct (Z.leb_spec (k + w) (len f)).
  - rewrite Heof by lia. if_false. rewrite checked_add_some by ulia.
    replace (Z.min w (len f - k)) with w by lia. apply IH; (done || lia).
  - replace (_ || _ || _) with true by lia. exists t'. by rewrite take_z_ge by lia.
Qed.

End Serving.

(** ** Which commands are sent *)

(** An adapter that records every replay-safe command before passing it on. *)
#[export] Instance logging_transport {T E} `{CardTransport T E}
  : CardTransport (T * list CommandApdu) E := {
  transmit c := fun s => let '(r, t) := transmit c s.1 in (r, (t, s.2 ++ [c]));
  transmit_credential c := fun s => let '(r, t) := transmit_credential c s.1 in (r, (t, s.2)) }.

(** The two wire forms that select the master file. *)
Definition selects_mf (c : CommandApdu) : Prop :=
  as_bytes c = as_bytes (select_any_by_fid_variant FileId_MF) \/
  as_bytes c = [0x00; 0xA4; 0x04; 0x0C; 2; 0x3F; 0x00].

Section Sent.
Context {T E : Type} `{CardTransport T E}.

Abbreviation logged := (T * list CommandApdu)%type.

(** Every command [m] sends satisfies [P]. *)
Definition emits {A} (P : CommandApdu -> Prop) (m : exec logged (Pkcs15Error E) A) : Prop :=
  forall s, exists cs, (m s).2.2 = s.2 ++ cs /\ Forall P cs.

Lemma emits_ebind {A B} P (m : exec logged (Pkcs15Error E) A) (k : A -> exec logged (Pkcs15Error E) B) :
  emits P m -> (forall a, emits P (k a)) -> emits P (ebind m k).
Proof.
  intros Hm Hk s. unfold ebind. destruct (Hm s) as (cs & Hc & Hp).
  destruct (m s) as [[a|e] s1] eqn:Em; cbn in Hc.
  - destruct (Hk a s1) as (cs' & Hc' & Hp'). exists (cs ++ cs').
    rewrite Hc', Hc, app_assoc. split; [done|]. by apply Forall_app.
  - exists cs. done.
Qed.

Lemma emits_pure {A} P (m : exec logged (Pkcs15Error E) A) : (forall s, (m s).2 = s) -> emits P m.
Proof. intros Hm s. exists []. rewrite Hm, app_nil_r. split; [done|constructor]. Qed.

Lemma emits_exchange P c : P c -> emits P (exchange c).
Proof.
  intros Hp. apply emits_ebind; [|intros; by apply emits_pure].
  intros s. exists [c]. unfold emap_err. cbn.
  destruct (transmit c s.1) as [r t]. cbn. split; [done|]. by constructor.
Qed.

Lemma emits_select_loop P cs sw : Forall P cs -> emits P (select_loop cs sw).
Proof.
  intros Hc. revert sw. induction Hc as [|c cs Hp _ IH]; intros sw; cbn [select_loop].
  { by apply emits_pure. }
  apply emits_ebind; [by apply emits_exchange|].
  intros r. destruct (response_is_ok r); [by apply emits_pure|apply IH].
Qed.

Lemma emits_read_chunk (P : CommandApdu -> Prop) off want :
  (forall o w, P (ReadBinary_into_apdu Plain (Direct o) w)) -> emits P (read_chunk off want).
Proof.
  intros Hp. apply emits_ebind; [by apply emits_pure|]. intros w.
  apply emits_ebind; [by apply emits_pure|]. intros d. by apply emits_exchange.
Qed.

Lemma emits_der_loop (P : CommandApdu -> Prop) fuel what collected total (s s' : logged)
  (r : result (Pkcs15Error E) bytes) :
  (forall o w, P (ReadBinary_into_apdu Plain (Direct o) w)) ->
  der_loop fuel what collected total s = Some (r, s') ->
  exists cs, s'.2 = s.2 ++ cs /\ Forall P cs.
Proof.
  intros Hp. assert (forall x : logged, exists cs, x.2 = x.2 ++ cs /\ Forall P cs) as Hrefl.
  { intros x. exists []. by rewrite app_nil_r. }
  revert collected total s; induction fuel as [|f IH]; intros collected total s; [done|].
  cbn [der_loop]. case_if; [intros [= _ <-]; apply Hrefl|].
  destruct (checked_sub _ _); [|intros [= _ <-]; apply Hrefl].
  destruct (try_from_uint _ _) as [want|]; [|intros [= _ <-]; apply Hrefl].
  destruct (emits_read_chunk P (len collected) want Hp s) as (cs & Hc & Hcs).
  destruct (read_chunk (len collected) want s) as [[response|e] s1]; cbn in Hc.
  - destruct (der_step _ _ _ _ _) as [r'|[col tot]].
    + intros [= _ <-]. by exists cs.
    + intros (cs' & Hc' & Hcs')%IH. exists (cs ++ cs').
      rewrite Hc', Hc, app_assoc. split; [done|]. by apply Forall_app.
  - intros [= _ <-]. by exists cs.
Qed.

Lemma read_binary_not_mf o w : ~ selects_mf (ReadBinary_into_apdu Plain (Direct o) w).
Proof. intros [Hx|Hx]; vm_compute in Hx; congruence. Qed.

(** Reading the authentication slot selects the application, then the file. *)
Lemma emits_select_authentication :
  emits (fun c => ~ selects_mf c) (@select_slot logged E _ Authentication).
Proof.
  unfold select_slot. cbn [slot_path].
  apply emits_ebind.
  - change (emits (fun c => ~ selects_mf c)
      (do? response <- exchange (SelectByAidNoFci_into_apdu (mkAid PKCS15_AID)) ;;
       if response_is_ok response then eret tt
       else @efail logged (Pkcs15Error E) unit (StatusError (status_word response)))).
    apply emits_ebind.
    + apply emits_exchange. intros [Hx|Hx]; vm_compute in Hx; congruence.
    + intros r. destruct (response_is_ok r); by apply emits_pure.
  - intros _. apply emits_select_loop.
    repeat constructor; intros [Hx|Hx]; vm_compute in Hx; congruence.
Qed.

(** Selecting the master file sends its by-identifier form first. *)
Lemma select_mf_first (s : logged) :
  exists cs, ((@select_mf logged E _) s).2.2
             = s.2 ++ select_any_by_fid_variant FileId_MF :: cs.
Proof.
  unfold select_mf. unfold ebind at 1, elift. 
  destruct (select_by_name_variant FileId_MF) as [c|] eqn:Ev; [|done].
  unfold select_with_variants. cbn [select_loop]. unfold ebind at 1.
  unfold exchange at 1, ebind at 1, emap_err at 1. cbn.
  destruct (transmit (select_any_by_fid_variant FileId_MF) s.1) as [[o|e] t]; cbn;
    [|by exists []].
  destruct o as [r| | | | |]; cbn; [|by exists []..].
  destruct (response_is_ok r); [by exists []|].
  destruct (emits_select_loop (fun _ => True) [c] (status_word r)) with
    (s := (t, s.2 ++ [select_any_by_fid_variant FileId_MF])) as (cs & Hc & _);
    [by repeat constructor|].
  cbn [select_loop] in Hc. rewrite Hc. cbn. exists cs. by rewrite <- app_assoc.
Qed.

(** What follows a first command keeps it first. *)
Lemma first_ebind {A B} c (m : exec logged (Pkcs15Error E) A) (k : A -> exec logged (Pkcs15Error E) B) s :
  (exists cs, (m s).2.2 = s.2 ++ c :: cs) ->
  (forall a, emits (fun _ => True) (k a)) ->
  exists cs, (ebind m k s).2.2 = s.2 ++ c :: cs.
Proof.
  intros [cs Hc] Hk. unfold ebind. destruct (m s) as [[a|e] s1]; cbn in Hc; [|by exists cs].
  destruct (Hk a s1) as (cs' & Hc' & _). exists (cs ++ cs').
  by rewrite Hc', Hc, <- app_assoc.
Qed.

Lemma select_loop_emits cs sw : emits (fun _ => True) (@select_loop logged E _ cs sw).
Proof. apply emits_select_loop. by apply Forall_true. Qed.

Lemma select_slot_mf_first slot (s : logged) :
  requires_mf_traversal slot = true ->
  exists cs, ((@select_slot logged E _ slot) s).2.2
             = s.2 ++ select_any_by_fid_variant FileId_MF :: cs.
Proof.
  unfold requires_mf_traversal, select_slot. destruct (slot_path slot); [done| |];
    intros _; apply first_ebind; intros; try apply select_loop_emits.
  - apply first_ebind; [apply select_mf_first|]. intros _.
    apply emits_ebind; [by apply emits_pure|]. intros aid.
    apply emits_ebind; [by apply emits_pure|]. intros child. apply select_loop_emits.
  - apply select_mf_first.
Qed.

Lemma read_certificate_log fuel slot (s s' : logged) (r : result (Pkcs15Error E) bytes)
  (P : CommandApdu -> Prop) :
  (forall o w, P (ReadBinary_into_apdu Plain (Direct o) w)) ->
  read_certificate fuel slot s = Some (r, s') ->
  exists cs, s'.2 = ((select_slot (E := E) slot) s).2.2 ++ cs /\ Forall P cs.
Proof.
  intros Hp. unfold read_certificate. destruct (select_slot slot s) as [[u|e] s1] eqn:Es.
  - intros Hr. by eapply emits_der_loop in Hr.
  - intros [= _ <-]. exists []. by rewrite app_nil_r.
Qed.

End Sent.

(** ** A concrete card *)

(** A card holding one transparent file, which it serves through READ BINARY;
    it accepts every other command. *)
Definition file_card_transmit (c : CommandApdu) : exec bytes unit TransportOutcome :=
  fun f => match as_bytes c with
  | [_; 0xB0; p1; p2; le] =>
      (Ok (Response (mkResponse (take_z (drop_z f (be_value [p1; p2])) le) 0x90 0x00)), f)
  | _ => (Ok (Response (mkResponse [] 0x90 0x00)), f)
  end.

#[export] Instance file_card : CardTransport bytes unit := {
  transmit := file_card_transmit;
  transmit_credential c := fun f => (Ok NoCard, f) }.

#[export] Instance file_card_serves : ServesFile bytes unit.
Proof.
  refine {| selected f := Some f |}.
  intros t f off want [= ->] Ho Ho' Hw.
  exists (mkResponse (take_z (drop_z f off) want) 0x90 0x00), f.
  split_and!; [|done|done|by left].
  cbn [transmit file_card]. unfold file_card_transmit.
  unfold ReadBinary_into_apdu, allow_wrong_le_retry, from_wire.
  cbn [as_bytes offset_as_p1 offset_as_p2 class_as_byte].
  unfold READ_BINARY_INS, direct_as_p1, direct_as_p2. cbn [offset_as_u16].
  assert (be_value [default 0 (be_bytes 2 off !! 0%nat); default 0 (be_bytes 2 off !! 1%nat)] = off)
    as Hv.
  { rewrite be_bytes_2. cbn [lookup list_lookup default from_option id].
    rewrite <- be_bytes_2. apply be_value_be_bytes. simpl. lia. }
  by rewrite Hv.
Defined.

(** A card that answers every command with the same short object. *)
#[export] Instance fixed_card : CardTransport unit unit := {
  transmit c := fun s => (Ok (Response (mkResponse [0x30; 0x01; 0x05] 0x90 0x00)), s);
  transmit_credential c := fun s => (Ok NoCard, s) }.

(** ** Properties *)

(** (safety and termination) Against any adapter, however the card
    answers, both read loops end within one iteration per byte of the object
    cap, and a DER object read successfully is exactly one object: its header
    declares its own length, which is at most 16384 bytes. *)
Theorem read_loops_any_card {T E : Type} `{CardTransport T E} (fuel : nat)
  (what : string) (expected : option Z) (t : T) :
  transport_typed -> MAX_OBJECT_BYTES < Z.of_nat fuel ->
  (exists r, read_binary_der_object fuel what t = Some r /\
     forall bs, r.1 = Ok bs ->
       der_object_total_length bs = Ok (Some (len bs)) /\ len bs <= MAX_OBJECT_BYTES) /\
  (exists r, read_binary_to_end fuel expected t = Some r).
Proof.
  intros Ht Hf. assert (der_inv [] None) as Hi by (split; [constructor|done]). split.
  - destruct (der_loop_total Ht fuel what [] None t Hi) as [[r t'] Hr]; [by rewrite len_nil, Z.sub_0_r|].
    exists (r, t'). split; [done|]. intros bs Hbs. cbn in Hbs. subst r.
    by eapply der_loop_sound.
  - unfold read_binary_to_end.
    set (cap := Z.min (default MAX_OBJECT_BYTES expected) MAX_OBJECT_BYTES).
    destruct (read_to_end_loop_total fuel cap 0 [] t) as [[r t'] ->]; [unfold cap; lia|unfold cap; lia|].
    eexists; done.
Qed.

Lemma read_loops_any_card_witness :
  exists r, read_binary_der_object (E := unit) (Z.to_nat 20000) "x" tt = Some r.
Proof.
  destruct (read_loops_any_card (E := unit) (Z.to_nat 20000) "x" None tt)
    as [(r & Hr & _) _]; [| |by exists r].
  - intros c t r t' [= <- _]. by apply all_bytesb_spec.
  - rewrite Z2Nat.id; by vm_compute.
Defined.

(** (refinement) Against a card that serves its selected file as ISO
    7816-4 documents READ BINARY, the DER read returns the object at the start
    of the file, whatever padding follows it, and the read to the end returns
    the whole file. *)
Theorem reads_served_file {T E : Type} `{ServesFile T E} (fuel : nat) (what : string)
  (t : T) (f obj pad : bytes) :
  selected t = Some f -> all_bytes f -> MAX_OBJECT_BYTES < Z.of_nat fuel ->
  (f = obj ++ pad -> der_object_total_length obj = Ok (Some (len obj)) ->
   len obj <= MAX_OBJECT_BYTES ->
   exists t', read_binary_der_object fuel what t = Some (Ok obj, t')) /\
  (1 <= len f <= MAX_OBJECT_BYTES ->
   exists t', read_binary_to_end fuel None t = Some (Ok f, t')).
Proof.
  intros Hs Hb Hf. split.
  - intros Hfe Hd Hm. by eapply der_loop_serves.
  - intros Hl. destruct (to_end_loop_serves fuel f 0 t Hs) as [t' Ht']; [lia|lia|lia|].
    exists t'. unfold read_binary_to_end. cbn [default from_option id].
    rewrite Z.min_id. change (take_z f 0) with (@nil Z) in Ht'. rewrite Ht'.
    cbn [mbind option_bind]. rewrite is_empty_len, Z.gtb_ltb. if_false. by if_false.
Qed.

Lemma reads_served_file_witness :
  exists t', read_binary_der_object (Z.to_nat 20000) "x" [0x30; 0x01; 0x05; 0x00]
             = Some (Ok [0x30; 0x01; 0x05], t').
Proof.
  destruct (reads_served_file (T := bytes) (E := unit) (Z.to_nat 20000) "x"
    [0x30; 0x01; 0x05; 0x00] [0x30; 0x01; 0x05; 0x00] [0x30; 0x01; 0x05] [0x00]) as [H _];
    [done|by apply all_bytesb_spec|rewrite Z2Nat.id; by vm_compute|].
  apply H; [done|by vm_compute|by vm_compute].
Defined.

(** (safety) Reading a certificate slot sends a SELECT of the master file,
    which tears a PACE channel down, exactly when [requires_mf_traversal] says
    so: the authentication slot never selects it on any card, and every other
    slot selects it with its first command. *)
Theorem certificate_mf_selection {T E : Type} `{CardTransport T E} (fuel : nat)
  (slot : CertSlot) (t : T) (r : result (Pkcs15Error E) bytes) (t' : T)
  (sent : list CommandApdu) :
  read_certificate fuel slot (t, []) = Some (r, (t', sent)) ->
  if requires_mf_traversal slot
  then exists c rest, sent = c :: rest /\ selects_mf c
  else Forall (fun c => ~ selects_mf c) sent.
Proof.
  intros Hr. destruct (requires_mf_traversal slot) eqn:Em.
  - destruct (select_slot_mf_first slot (t, []) Em) as [cs Hcs].
    destruct (read_certificate_log fuel slot _ _ _ (fun _ => True) (fun _ _ => I) Hr)
      as (cs' & Hl & _). cbn in Hl. rewrite Hcs in Hl. cbn in Hl.
    eexists _, _. split; [exact Hl|]. by left.
  - assert (slot = Authentication) as -> by (by destruct slot).
    destruct (read_certificate_log fuel Authentication _ _ _ (fun c => ~ selects_mf c) read_binary_not_mf Hr)
      as (cs' & Hl & Hp). cbn [snd] in Hl.
    destruct (emits_select_authentication (t, [])) as (cs & Hc & Hq). rewrite Hc in Hl.
    cbn [snd app] in Hl. rewrite Hl. by apply Forall_app.
Qed.

Lemma certificate_mf_selection_witness :
  Forall (fun c => ~ selects_mf c)
    [SelectByAidNoFci_into_apdu (mkAid PKCS15_AID); SelectEfNoFci_into_apdu EF_AUTH_CERT_FID;
     ReadBinary_into_apdu Plain (Direct (mkDirectOffset15 0)) 223].
Proof.
  apply (certificate_mf_selection (E := unit) 3 Authentication [0x30; 0x01; 0x05; 0x00]
           (Ok [0x30; 0x01; 0x05]) [0x30; 0x01; 0x05; 0x00]).
  vm_compute. reflexivity.
Defined.

End Pkcs15.
