(* ===== verification/Pkcs15Aod.v ===== *)
(** * EF.AOD, the authentication object directory

    The model of [crates/pkcs15/src/aod.rs] and of the read that feeds it
    ([Pkcs15Ops::read_authentication_objects] in [fs.rs]): the length range of
    a credential, the decoder of one password object and the walk over the
    file.  The theorems show that the walk ends on every input, keeps only
    credentials whose range admits a length, and recovers from an encoded
    directory exactly the credentials it lists. *)

From stdpp Require Import base list strings.
From Stdlib Require Import ZArith Lia.
From S2P Require Import Prelude BerTlv ApduCommand ApduIso7816 Pkcs15Fs.

Module Aod.
Import Ber Apdu Iso7816 Pkcs15.

Definition EF_AOD_FID : FileId := FileId_from_u16 0x4401.
Definition END_OF_CONTENTS_OCTET : Z := 0x00.
Definition ENUMERATED_TAG : Z := 0x0A.
Definition TYPE_ATTRIBUTES_TAG : Z := 0xA1.
Definition PWD_REFERENCE_TAG : Z := 0x80.
Definition PWD_REFERENCE_DEFAULT : Z := 0.
Definition PASSWORD_TYPE_ASCII_NUMERIC : Z := 1.
Definition PASSWORD_TYPE_UTF8 : Z := 2.

(** ** Length ranges *)

Record PasswordLengthRange := mkRange { range_min : Z; range_max : Z }.

Definition PasswordLengthRange_new (min max : Z) : option PasswordLengthRange :=
  if (min =? 0) || (min >? max) then None else Some (mkRange min max).

Definition range_contains (self : PasswordLengthRange) (digit_count : Z) : bool :=
  (digit_count >=? range_min self) && (digit_count <=? range_max self).

Definition range_intersection (self other : PasswordLengthRange) : option PasswordLengthRange :=
  let min := if range_min self >? range_min other then range_min self else range_min other in
  let max := if range_max self <? range_max other then range_max self else range_max other in
  PasswordLengthRange_new min max.

Record PasswordObject := mkPasswordObject { reference : Z; lengths : PasswordLengthRange }.

Record AuthenticationObjects := mkAuthenticationObjects { passwords : list PasswordObject }.

Inductive AuthenticationObjectsError :=
  | AodBer (e : BerError)
  | MissingElement (what : string)
  | DataAfterPadding.

#[export] Instance PasswordLengthRange_eq_dec : EqDecision PasswordLengthRange.
Proof. solve_decision. Defined.

(** ** Decoding *)

(** [BerTlvIter::new(v).collect::<Result<Vec<_>, _>>()]: the records up to the
    first error.  The iterator never runs out of the fuel [children] gives it
    ([children_total] below). *)
Fixpoint collect_results (items : list (result BerError BerTlvAny))
  : result BerError (list BerTlvAny) :=
  match items with
  | [] => Ok []
  | item :: rest =>
      let? r := item in
      let? rs := collect_results rest in
      Ok (r :: rs)
  end.

Definition collect_children (v : bytes) : result BerError (list BerTlvAny) :=
  match children v with
  | Some items => collect_results items
  | None => Ok []
  end.

Fixpoint skip_zeros (content : bytes) : bytes :=
  match content with
  | b :: rest => if b =? END_OF_CONTENTS_OCTET then skip_zeros rest else content
  | [] => []
  end.

(** [None] for an empty content or a magnitude above one octet. *)
Definition unsigned_octet (content : bytes) : option Z :=
  match skip_zeros content with
  | [] => head content
  | [only] => Some only
  | _ => None
  end.

(** [fields.next().filter(|f| f.tag() == t).ok_or(MissingElement(what))?]. *)
Definition next_field (t : Z) (what : string) (fields : list BerTlvAny)
  : result AuthenticationObjectsError (BerTlvAny * list BerTlvAny) :=
  match fields with
  | f :: rest => if tag f =? t then Ok (f, rest) else Err (MissingElement what)
  | [] => Err (MissingElement what)
  end.

(** [fields.next_if(|f| f.tag() == t)]. *)
Definition next_if (t : Z) (fields : list BerTlvAny) : option BerTlvAny * list BerTlvAny :=
  match fields with
  | f :: rest => if tag f =? t then (Some f, rest) else (None, fields)
  | [] => (None, [])
  end.

Definition password_attributes (content : bytes)
  : result AuthenticationObjectsError (option PasswordObject) :=
  let? fields := map_err AodBer (collect_children content) in
  let? '(_, fields) := next_field (TAG BitString) "pwdFlags" fields in
  let? '(password_type, fields) := next_field ENUMERATED_TAG "pwdType" fields in
  let? '(min_length, fields) := next_field (TAG Integer) "minLength" fields in
  let? '(stored_length, fields) := next_field (TAG Integer) "storedLength" fields in
  let '(max_length, fields) := next_if (TAG Integer) fields in
  let '(reference, fields) := next_if PWD_REFERENCE_TAG fields in
  let digits :=
    match unsigned_octet (value password_type) with
    | Some k => (k =? PASSWORD_TYPE_ASCII_NUMERIC) || (k =? PASSWORD_TYPE_UTF8)
    | None => false
    end in
  if negb digits then Ok None
  else
    let reference :=
      match reference with
      | Some field => unsigned_octet (value field)
      | None => Some PWD_REFERENCE_DEFAULT
      end in
    let min := unsigned_octet (value min_length) in
    let max := unsigned_octet (value (default stored_length max_length)) in
    match reference, min, max with
    | Some reference, Some min, Some max =>
        Ok (mkPasswordObject reference <$> PasswordLengthRange_new min max)
    | _, _, _ => Ok None
    end.

Definition password_object (content : bytes)
  : result AuthenticationObjectsError (option PasswordObject) :=
  let? kids := map_err AodBer (collect_children content) in
  let? type_attributes :=
    ok_or (List.find (fun child => tag child =? TYPE_ATTRIBUTES_TAG) kids)
      (MissingElement "typeAttributes") in
  let? attributes := map_err AodBer (parse_typed Sequence (value type_attributes)) in
  password_attributes (typed_value attributes).

(** The [while let] of [AuthenticationObjects::parse]; [None] is fuel
    exhaustion. *)
Fixpoint aod_loop (fuel : nat) (rest : bytes) (acc : list PasswordObject)
  : option (result AuthenticationObjectsError AuthenticationObjects) :=
  match rest with
  | [] => Some (Ok (mkAuthenticationObjects acc))
  | first :: _ =>
      match fuel with
      | O => None
      | S f =>
          if first =? END_OF_CONTENTS_OCTET then
            if forallb (fun b => b =? END_OF_CONTENTS_OCTET) rest
            then Some (Ok (mkAuthenticationObjects acc))
            else Some (Err DataAfterPadding)
          else
            match parse rest with
            | Err e => Some (Err (AodBer e))
            | Ok object =>
                let rest := default [] (get_range rest (size object) (len rest)) in
                if negb (tag object =? TAG Sequence) then aod_loop f rest acc
                else
                  match password_object (value object) with
                  | Err e => Some (Err e)
                  | Ok (Some password) => aod_loop f rest (acc ++ [password])
                  | Ok None => aod_loop f rest acc
                  end
            end
      end
  end.

(** One iteration per byte of the file is enough. *)
Definition AuthenticationObjects_parse (bs : bytes)
  : option (result AuthenticationObjectsError AuthenticationObjects) :=
  aod_loop (length bs) bs [].

(** The read of EF.AOD; [None] when the read loop's fuel runs out, which
    [read_loops_any_card] excludes for fuel above the object cap. *)
Definition read_authentication_objects {T E : Type} `{CardTransport T E} (fuel : nat) (t : T)
  : option (result (Pkcs15Error E) AuthenticationObjects * T) :=
  match select_pkcs15_application t with
  | (Err e, t) => Some (Err e, t)
  | (Ok _, t) =>
      match select_ef EF_AOD_FID t with
      | (Err e, t) => Some (Err e, t)
      | (Ok _, t) =>
          '(r, t) ← read_binary_to_end fuel None t;
          match r with
          | Err e => Some (Err e, t)
          | Ok bs =>
              parsed ← AuthenticationObjects_parse bs;
              Some (map_err (fun _ => InvalidData "EF.AOD") parsed, t)
          end
      end
  end.

(** ** Lemmas *)

Lemma children_total v : len v < USIZE_MAX -> exists items, children v = Some items.
Proof. intros. by apply iter_collect_total. Qed.

Lemma be_value_skip_zeros os : be_value (skip_zeros os) = be_value os.
Proof.
  induction os as [|b os IH]; [done|]. cbn [skip_zeros]. unfold END_OF_CONTENTS_OCTET.
  case_if; [subst b; by rewrite IH|done].
Qed.

Lemma skip_zeros_head os b rest : skip_zeros os = b :: rest -> b <> 0.
Proof.
  induction os as [|c os IH]; [done|]. cbn [skip_zeros]. unfold END_OF_CONTENTS_OCTET.
  case_if; [auto|]. by intros [= <- _].
Qed.

Lemma skip_zeros_bytes os : all_bytes os -> all_bytes (skip_zeros os).
Proof.
  induction 1 as [|b os Hb Hos IH]; [constructor|]. cbn [skip_zeros].
  case_if; [done|]. by constructor.
Qed.

Lemma skip_zeros_nil os : skip_zeros os = [] -> Forall (fun b => b = 0) os.
Proof.
  induction os as [|b os IH]; [constructor|]. cbn [skip_zeros]. unfold END_OF_CONTENTS_OCTET.
  case_if; [|done]. intros. constructor; auto.
Qed.

Lemma be_fold_mono os acc : all_bytes os -> 0 <= acc -> acc <= be_fold acc os.
Proof.
  revert acc. induction os as [|b os IH]; intros acc Hos Ha; [cbn; lia|].
  inversion Hos as [|?? Hb Hos']; subst.
  change (be_fold acc (b :: os)) with (be_fold (Z.lor (Z.shiftl acc 8) b) os).
  rewrite lor_shiftl_byte by done. etrans; [|apply IH; [done|]]; ulia.
Qed.

(** [unsigned_octet] reads the big-endian magnitude of a non-empty content,
    when one octet holds it. *)
Lemma unsigned_octet_spec os k : all_bytes os ->
  unsigned_octet os = Some k <-> os <> [] /\ be_value os = k /\ k <= 255.
Proof.
  intros Hos. rewrite <- be_value_skip_zeros. unfold unsigned_octet.
  pose proof (skip_zeros_bytes os Hos) as Hs.
  destruct (skip_zeros os) as [|b [|c rest]] eqn:E.
  - apply skip_zeros_nil in E. destruct os as [|o os]; [by split; [|intros []]|].
    inversion E; subst. cbn [head]. split.
    + by intros [= <-].
    + by intros (_ & <- & _).
  - inversion Hs as [|?? Hb _]; subst. assert (os <> []) by (by intros ->).
    change (be_value [b]) with (Z.lor (Z.shiftl 0 8) b). rewrite lor_shiftl_byte by done.
    destruct Hb. unfold U8_MAX in *. split.
    + intros [= <-]. split_and!; done || lia.
    + intros (_ & <- & _). done || (f_equal; lia).
  - apply skip_zeros_head in E. inversion Hs as [|?? Hb Hs']; subst.
    inversion Hs' as [|?? Hc Hr]; subst. split; [done|]. intros (_ & <- & Hle). exfalso.
    change (be_value (b :: c :: rest))
      with (be_fold (Z.lor (Z.shiftl (Z.lor (Z.shiftl 0 8) b) 8) c) rest) in Hle.
    rewrite !lor_shiftl_byte in Hle by done.
    pose proof (be_fold_mono rest ((0 * 256 + b) * 256 + c) Hr). destruct Hb, Hc. ulia.
Qed.

Lemma collect_children_records ws rs :
  Forall2 (fun w r => encodes w r.1 r.2) ws rs ->
  collect_children (concat ws)
  = Ok (zip_with (fun w r => mkBerTlvAny r.1 r.2 (len w)) ws rs).
Proof.
  intros H. unfold collect_children, children.
  rewrite (iter_collect_records _ ws rs) by (done || by eapply records_fuel).
  induction H as [|w r ws rs Hw H IH]; [done|]. cbn [zip_with collect_results rbind].
  by rewrite IH.
Qed.

(** ** The specification: a directory as its records

    [PasswordAttributes] as PKCS#15 lists it, with the two optional elements,
    and the credential it stands for: the magnitudes are big-endian. *)

Record attributes := mkAttributes {
  a_flags : bytes; a_type : bytes; a_min : bytes; a_stored : bytes;
  a_max : option bytes; a_reference : option bytes }.

Definition attribute_records (a : attributes) : list (Z * bytes) :=
  [(TAG BitString, a_flags a); (ENUMERATED_TAG, a_type a);
   (TAG Integer, a_min a); (TAG Integer, a_stored a)]
  ++ option_list (pair (TAG Integer) <$> a_max a)
  ++ option_list (pair PWD_REFERENCE_TAG <$> a_reference a).

Definition magnitude (os : bytes) : option Z :=
  if is_empty os || (255 <? be_value os) then None else Some (be_value os).

Definition listed (a : attributes) : option PasswordObject :=
  k ← magnitude (a_type a);
  if (k =? 1) || (k =? 2) then
    r ← match a_reference a with Some os => magnitude os | None => Some 0 end;
    mn ← magnitude (a_min a);
    mx ← magnitude (default (a_stored a) (a_max a));
    if (1 <=? mn) && (mn <=? mx) then Some (mkPasswordObject r (mkRange mn mx)) else None
  else None.

Definition attributes_typed (a : attributes) : Prop :=
  Forall (fun r => all_bytes r.2) (attribute_records a).

(** One object of the file and the credential it contributes. *)
Inductive lists_object : bytes -> option PasswordObject -> Prop :=
  | lists_other w t v :
      encodes w t v -> t <> TAG Sequence -> head w <> Some 0 -> lists_object w None
  | lists_password w ks rs seq extra fs a :
      encodes w (TAG Sequence) (concat ks) ->
      Forall2 (fun k r => encodes k r.1 r.2) ks rs ->
      List.find (fun r => r.1 =? TYPE_ATTRIBUTES_TAG) rs
        = Some (TYPE_ATTRIBUTES_TAG, seq ++ extra) ->
      encodes seq (TAG Sequence) (concat fs) ->
      Forall2 (fun f r => encodes f r.1 r.2) fs (attribute_records a) ->
      attributes_typed a ->
      lists_object w (listed a).

Lemma unsigned_octet_magnitude os : all_bytes os -> unsigned_octet os = magnitude os.
Proof.
  intros Hos. apply option_eq. intros k. rewrite unsigned_octet_spec by done.
  unfold magnitude. rewrite is_empty_len. split.
  - intros (Hne & <- & Hk). assert (len os <> 0) by (by intros ?%len_0_nil). by if_false.
  - case_if; [done|]. intros [= <-]. split_and!; [|done|lia]. intros ->. done.
Qed.

Lemma magnitude_nonneg os k : all_bytes os -> magnitude os = Some k -> 0 <= k <= 255.
Proof.
  intros Hos. unfold magnitude. case_if; [done|]. intros [= <-].
  pose proof (be_value_bound os Hos). lia.
Qed.

Lemma next_field_hit t what v n fields :
  next_field t what (mkBerTlvAny t v n :: fields) = Ok (mkBerTlvAny t v n, fields).
Proof. unfold next_field. cbn [tag]. by rewrite Z.eqb_refl. Qed.

Lemma range_new_spec mn mx : 0 <= mn ->
  PasswordLengthRange_new mn mx
  = if (1 <=? mn) && (mn <=? mx) then Some (mkRange mn mx) else None.
Proof.
  intros. unfold PasswordLengthRange_new. rewrite Z.gtb_ltb.
  destruct (Z.leb_spec 1 mn), (Z.leb_spec mn mx); cbn [andb]; if_true || if_false; done.
Qed.

(** The optional elements after the mandatory ones. *)
Lemma next_ifs mx rf n1 n2 :
  next_if (TAG Integer)
    (option_list ((fun v => mkBerTlvAny (TAG Integer) v n1) <$> mx)
     ++ option_list ((fun v => mkBerTlvAny PWD_REFERENCE_TAG v n2) <$> rf))
  = ((fun v => mkBerTlvAny (TAG Integer) v n1) <$> mx,
     option_list ((fun v => mkBerTlvAny PWD_REFERENCE_TAG v n2) <$> rf))
  /\ next_if PWD_REFERENCE_TAG (option_list ((fun v => mkBerTlvAny PWD_REFERENCE_TAG v n2) <$> rf))
  = ((fun v => mkBerTlvAny PWD_REFERENCE_TAG v n2) <$> rf, []).
Proof. by destruct mx, rf. Qed.

Lemma attributes_bytes a :
  attributes_typed a ->
  all_bytes (a_type a) /\ all_bytes (a_min a) /\ all_bytes (a_stored a)
  /\ (forall x, a_max a = Some x -> all_bytes x)
  /\ (forall x, a_reference a = Some x -> all_bytes x).
Proof.
  destruct a as [fl ty mn st mx rf]. unfold attributes_typed, attribute_records. cbn.
  rewrite !Forall_cons, Forall_app. intros (_ & ? & ? & ? & Hx & Hr).
  split_and!; [done..| |]; intros x ->; [by inversion Hx|by inversion Hr].
Qed.

(** The optional fields at the end, as the iterator yields them. *)
Lemma optional_records fs mx rf :
  Forall2 (fun f r => encodes f r.1 r.2) fs
    (option_list (pair (TAG Integer) <$> mx) ++ option_list (pair PWD_REFERENCE_TAG <$> rf)) ->
  exists n1 n2, zip_with (fun w r => mkBerTlvAny r.1 r.2 (len w)) fs
     (option_list (pair (TAG Integer) <$> mx) ++ option_list (pair PWD_REFERENCE_TAG <$> rf))
   = option_list ((fun v => mkBerTlvAny (TAG Integer) v n1) <$> mx)
     ++ option_list ((fun v => mkBerTlvAny PWD_REFERENCE_TAG v n2) <$> rf).
Proof.
  intros Hf. destruct mx, rf; cbn in Hf |- *;
    repeat match goal with H : Forall2 _ _ (_ :: _) |- _ =>
      apply Forall2_cons_inv_r in H as (? & ? & ? & ? & ->) end;
    repeat match goal with H : Forall2 _ _ [] |- _ => apply Forall2_nil_inv_r in H as -> end;
    (unshelve (eexists _, _; reflexivity)); exact 0.
Qed.

Lemma password_attributes_records fs a :
  Forall2 (fun f r => encodes f r.1 r.2) fs (attribute_records a) -> attributes_typed a ->
  password_attributes (concat fs) = Ok (listed a).
Proof.
  intros Hf Ht. unfold password_attributes. rewrite (collect_children_records _ _ Hf).
  cbn [map_err rbind]. destruct a as [fl ty mn st mx rf].
  destruct (attributes_bytes _ Ht) as (Hty & Hmn & Hst & Hmx & Hrf). cbn in Hty, Hmn, Hst, Hmx, Hrf.
  unfold attribute_records in Hf. cbn [a_flags a_type a_min a_stored a_max a_reference app] in Hf |- *.
  unfold attribute_records, listed. cbn [a_flags a_type a_min a_stored a_max a_reference app].
  apply Forall2_cons_inv_r in Hf as (f1 & fs1 & ? & Hf & ->).
  apply Forall2_cons_inv_r in Hf as (f2 & fs2 & ? & Hf & ->).
  apply Forall2_cons_inv_r in Hf as (f3 & fs3 & ? & Hf & ->).
  apply Forall2_cons_inv_r in Hf as (f4 & fs4 & ? & Hf & ->).
  cbn [zip_with]. rewrite next_field_hit. cbn [rbind fst snd].
  rewrite next_field_hit. cbn [rbind]. rewrite next_field_hit. cbn [rbind].
  rewrite next_field_hit. cbn [rbind].
  destruct (optional_records fs4 mx rf Hf) as (n1 & n2 & ->).
  destruct (next_ifs mx rf n1 n2) as [-> ->]. cbn [value].
  rewrite (unsigned_octet_magnitude ty), (unsigned_octet_magnitude mn) by done.
  replace (match (fun v => mkBerTlvAny PWD_REFERENCE_TAG v n2) <$> rf with
           | Some field => unsigned_octet (value field)
           | None => Some PWD_REFERENCE_DEFAULT end)
    with (match rf with Some os => magnitude os | None => Some 0 end)
    by (destruct rf; cbn; [rewrite unsigned_octet_magnitude; auto|done]).
  replace (unsigned_octet (value (default _ _))) with (magnitude (default st mx))
    by (destruct mx; cbn; rewrite unsigned_octet_magnitude; auto).
  cbn [value]. unfold PASSWORD_TYPE_ASCII_NUMERIC, PASSWORD_TYPE_UTF8.
  destruct (magnitude ty) as [k|]; [|done]. cbn [mbind option_bind].
  destruct ((k =? 1) || (k =? 2)); [|done]. cbn [negb].
  destruct (match rf with Some _ => _ | None => _ end) as [r|]; [|done].
  destruct (magnitude mn) as [m|] eqn:Em; [|done].
  destruct (magnitude (default st mx)) as [x|]; [|done]. cbn [mbind option_bind].
  rewrite range_new_spec by (apply magnitude_nonneg in Em; [lia|done]).
  by case_if.
Qed.

Lemma find_zip rs (ws : list bytes) v :
  Forall2 (fun w r => encodes w r.1 r.2) ws rs ->
  List.find (fun r => r.1 =? TYPE_ATTRIBUTES_TAG) rs = Some (TYPE_ATTRIBUTES_TAG, v) ->
  exists n, List.find (fun child => tag child =? TYPE_ATTRIBUTES_TAG)
              (zip_with (fun w r => mkBerTlvAny r.1 r.2 (len w)) ws rs)
            = Some (mkBerTlvAny TYPE_ATTRIBUTES_TAG v n).
Proof.
  induction 1 as [|w r ws rs Hw H IH]; [done|]. cbn [List.find zip_with tag].
  case_if; [|done]. intros [= ->]. by eexists.
Qed.

Lemma password_object_listed ks rs seq extra fs a :
  Forall2 (fun k r => encodes k r.1 r.2) ks rs ->
  List.find (fun r => r.1 =? TYPE_ATTRIBUTES_TAG) rs = Some (TYPE_ATTRIBUTES_TAG, seq ++ extra) ->
  encodes seq (TAG Sequence) (concat fs) ->
  Forall2 (fun f r => encodes f r.1 r.2) fs (attribute_records a) -> attributes_typed a ->
  password_object (concat ks) = Ok (listed a).
Proof.
  intros Hk Hfind Hs Hf Ht. unfold password_object. rewrite (collect_children_records _ _ Hk).
  cbn [map_err rbind]. destruct (find_zip _ _ _ Hk Hfind) as [n ->]. cbn [ok_or rbind value].
  unfold parse_typed. destruct (encodes_parse _ _ _ extra Hs) as [-> _]. cbn [rbind].
  unfold expect. cbn [tag]. rewrite Z.eqb_refl. cbn [negb map_err rbind typed_value value].
  by apply password_attributes_records.
Qed.

Lemma lists_object_head w o : lists_object w o -> exists b rest, w = b :: rest /\ b <> 0.
Proof.
  intros H. assert (w <> [] /\ head w <> Some 0) as [].
  { destruct H as [w t v He Ht Hh|w ks rs seq extra fs a He].
    - split; [|done]. by destruct (encodes_parse _ _ _ [] He).
    - destruct (encodes_parse _ _ _ [] He) as [Hp Hne]. split; [done|].
      destruct w as [|b w]; [done|]. intros [= ->]. destruct He as [[Ht E]|[(_ & Ht & _) _]]; [|done].
      rewrite tlv_ok_eq in E by (done || by eapply tlv_len_bound). done. }
  destruct w as [|b w]; [done|]. exists b, w. split; [done|]. by intros ->.
Qed.

(** One iteration of the walk on a framed object. *)
Lemma aod_loop_object f w o rest acc :
  lists_object w o ->
  aod_loop (S f) (w ++ rest) acc = aod_loop f rest (acc ++ option_list o).
Proof.
  intros H. destruct (lists_object_head w o H) as (b & tl & Ew & Hb).
  assert (w ++ rest = b :: tl ++ rest) as E by by rewrite Ew.
  rewrite E. cbn [aod_loop]. unfold END_OF_CONTENTS_OCTET.
  rewrite (proj2 (Z.eqb_neq b 0) Hb). rewrite <- E.
  destruct H as [w t v He Ht Hh|w ks rs seq extra fs a He Hk Hfind Hs Hf Ht].
  - destruct (encodes_parse _ _ _ rest He) as [-> _]. cbn [tag size value].
    rewrite (proj2 (Z.eqb_neq _ _) Ht). cbn [negb].
    by rewrite get_range_suffix, app_nil_r.
  - destruct (encodes_parse _ _ _ rest He) as [-> _]. cbn [tag size value].
    rewrite Z.eqb_refl. cbn [negb]. rewrite get_range_suffix.
    rewrite (password_object_listed _ _ _ _ _ _ Hk Hfind Hs Hf Ht).
    destruct (listed a); cbn [option_list]; by rewrite ?app_nil_r.
Qed.

Lemma aod_loop_padding f n acc : (n <= f)%nat ->
  aod_loop f (repeat 0 n) acc = Some (Ok (mkAuthenticationObjects acc)).
Proof.
  intros Hn. destruct n as [|n]; [by destruct f|]. destruct f as [|f]; [lia|].
  cbn [repeat aod_loop]. unfold END_OF_CONTENTS_OCTET. rewrite Z.eqb_refl.
  replace (forallb _ _) with true; [done|].
  symmetry. apply forallb_forall. intros x Hx. apply Z.eqb_eq.
  by apply (repeat_spec (S n) 0 x).
Qed.

Lemma aod_loop_objects ws os f n acc :
  Forall2 lists_object ws os -> (length (concat ws) + n <= f)%nat ->
  aod_loop f (concat ws ++ repeat 0 n) acc
  = Some (Ok (mkAuthenticationObjects (acc ++ omap id os))).
Proof.
  intros H. revert f acc. induction H as [|w o ws os Hw H IH]; intros f acc Hf.
  - cbn. rewrite app_nil_r. apply aod_loop_padding. cbn in Hf. lia.
  - destruct (lists_object_head w o Hw) as (b & tl & Ew & _).
    cbn [concat] in Hf |- *. rewrite length_app, Ew in Hf. cbn [length] in Hf.
    destruct f as [|f]; [lia|]. rewrite <- app_assoc, (aod_loop_object f w o) by done.
    rewrite IH by lia. rewrite <- app_assoc. by destruct o.
Qed.

(** ** Any file at all *)

Definition object_ok (o : PasswordObject) : Prop :=
  is_u8 (reference o) /\ 1 <= range_min (lengths o) <= range_max (lengths o)
  /\ range_max (lengths o) <= 255.

Lemma parse_value_bytes bs r :
  len bs < USIZE_MAX -> all_bytes bs -> parse bs = Ok r ->
  all_bytes (value r) /\ len (value r) < USIZE_MAX /\ 2 <= size r <= len bs.
Proof.
  intros Hl Hb Hp. destruct (parse_inv bs r Hl Hp) as (h & rest & -> & Hs & Hh).
  rewrite !all_bytes_app in Hb. rewrite !len_app in *.
  pose proof (len_nonneg (value r)). pose proof (len_nonneg rest).
  split_and!; [by destruct Hb as (_ & ? & _)|lia..].
Qed.

Lemma drop_record_bytes bs n : all_bytes bs -> 0 <= n <= len bs ->
  let rest := default [] (get_range bs n (len bs)) in
  all_bytes rest /\ len rest = len bs - n.
Proof.
  intros Hb Hn. rewrite get_range_drop by done. cbn.
  split; [by apply Forall_drop|by apply len_drop_z].
Qed.

Lemma iter_collect_bytes fuel v items :
  len v < USIZE_MAX -> all_bytes v -> iter_collect fuel v = Some items ->
  Forall (fun i => forall r, i = Ok r -> all_bytes (value r) /\ len (value r) < USIZE_MAX) items.
Proof.
  revert v items. induction fuel as [|f IH]; intros v items Hl Hv.
  { cbn. unfold iter_next. destruct v; cbn; [intros [= <-]; constructor|].
    by destruct (parse _). }
  cbn [iter_collect]. unfold iter_next. destruct (is_empty v); [intros [= <-]; constructor|].
  destruct (parse v) as [r|e] eqn:Ep.
  - destruct (parse_value_bytes v r) as (Hr & Hlr & Hs); [done..|].
    destruct (drop_record_bytes v (size r)) as [Hd Hld]; [done|lia|].
    destruct (iter_collect f _) as [l|] eqn:Ei; [|done]. intros [= <-].
    constructor; [by intros ? [= <-]|]. eapply IH; [|apply Hd|apply Ei]. lia.
  - destruct (iter_collect f []) as [l|] eqn:Ei; [|done]. intros [= <-].
    constructor; [done|]. eapply IH; [|constructor|apply Ei]. done.
Qed.

Lemma collect_children_bytes v rs :
  len v < USIZE_MAX -> all_bytes v -> collect_children v = Ok rs ->
  Forall (fun r => all_bytes (value r) /\ len (value r) < USIZE_MAX) rs.
Proof.
  intros Hl Hv. unfold collect_children. destruct (children v) as [items|] eqn:E;
    [|intros [= <-]; constructor].
  apply iter_collect_bytes in E; [|done..]. revert rs.
  induction E as [|[r|e] items Hi E IH]; intros rs; cbn; [intros [= <-]; constructor| |done].
  destruct (collect_results items); [|done]. cbn. intros [= <-]. constructor; auto.
Qed.

Lemma next_field_in t what fields f rest (P : BerTlvAny -> Prop) :
  next_field t what fields = Ok (f, rest) -> Forall P fields -> P f /\ Forall P rest.
Proof.
  destruct fields as [|g fields]; [done|]. cbn. case_if; [|done].
  intros [= <- <-]. by inversion 1.
Qed.

Lemma next_if_in t fields (P : BerTlvAny -> Prop) :
  Forall P fields ->
  (forall f, (next_if t fields).1 = Some f -> P f) /\ Forall P (next_if t fields).2.
Proof.
  intros H. destruct fields as [|g fields]; [done|]. cbn.
  inversion H; subst. case_if; cbn; split; try done. by intros f [= <-].
Qed.

Lemma unsigned_octet_bound os k : all_bytes os -> unsigned_octet os = Some k -> 0 <= k <= 255.
Proof. intros Hos. rewrite unsigned_octet_magnitude by done. by apply magnitude_nonneg. Qed.

Lemma password_attributes_ok content o :
  len content < USIZE_MAX -> all_bytes content ->
  password_attributes content = Ok (Some o) -> object_ok o.
Proof.
  intros Hl Hb. unfold password_attributes.
  destruct (collect_children content) as [fields|] eqn:E; [|done]. cbn [map_err rbind].
  apply collect_children_bytes in E; [|done..].
  destruct (next_field _ _ fields) as [[f1 r1]|] eqn:E1; [|done]. cbn [rbind].
  destruct (next_field_in _ _ _ _ _ _ E1 E) as [_ F1].
  destruct (next_field _ _ r1) as [[f2 r2]|] eqn:E2; [|done]. cbn [rbind].
  destruct (next_field_in _ _ _ _ _ _ E2 F1) as [_ F2].
  destruct (next_field _ _ r2) as [[f3 r3]|] eqn:E3; [|done]. cbn [rbind].
  destruct (next_field_in _ _ _ _ _ _ E3 F2) as [[P3 _] F3].
  destruct (next_field _ _ r3) as [[f4 r4]|] eqn:E4; [|done]. cbn [rbind].
  destruct (next_field_in _ _ _ _ _ _ E4 F3) as [[P4 _] F4].
  destruct (next_if_in (TAG Integer) _ _ F4) as [Pm F5].
  destruct (next_if (TAG Integer) r4) as [mx r5]. cbn [fst snd] in Pm, F5.
  destruct (next_if_in PWD_REFERENCE_TAG _ _ F5) as [Pr _].
  destruct (next_if PWD_REFERENCE_TAG r5) as [rf r6]. cbn [fst] in Pr.
  case_if; [done|].
  destruct (match rf with Some _ => _ | None => _ end) as [r|] eqn:Er; [|done].
  destruct (unsigned_octet (value f3)) as [mn|] eqn:Emn; [|done].
  destruct (unsigned_octet (value (default f4 mx))) as [m|] eqn:Em; [|done].
  assert (0 <= r <= 255).
  { destruct rf as [g|]; [|injection Er as <-; by vm_compute].
    eapply unsigned_octet_bound; [|done]. by apply Pr. }
  assert (0 <= m <= 255).
  { eapply unsigned_octet_bound; [|done]. destruct mx as [g|]; [by apply Pm|done]. }
  apply unsigned_octet_bound in Emn; [|done]. rewrite range_new_spec by lia.
  case_if; [|done]. intros [= <-]. unfold object_ok; cbn. ulia.
Qed.

Lemma password_object_ok content o :
  len content < USIZE_MAX -> all_bytes content ->
  password_object content = Ok (Some o) -> object_ok o.
Proof.
  intros Hl Hb. unfold password_object.
  destruct (collect_children content) as [kids|] eqn:E; [|done]. cbn [map_err rbind].
  apply collect_children_bytes in E; [|done..].
  destruct (List.find _ kids) as [ta|] eqn:Ef; [|done]. cbn [ok_or rbind].
  apply List.find_some in Ef as [Hin _].
  rewrite List.Forall_forall in E. destruct (E ta Hin) as [Hv Hlv].
  unfold parse_typed. destruct (parse (value ta)) as [r|] eqn:Ep; [|done]. cbn [rbind].
  destruct (parse_value_bytes _ _ Hlv Hv Ep) as (Hr & Hlr & _).
  unfold expect. case_if; [done|]. cbn [map_err rbind typed_value].
  by apply password_attributes_ok.
Qed.

Lemma aod_loop_any fuel rest acc :
  len rest < USIZE_MAX -> all_bytes rest -> (length rest <= fuel)%nat -> Forall object_ok acc ->
  exists r, aod_loop fuel rest acc = Some r /\
    forall objs, r = Ok objs -> Forall object_ok (passwords objs).
Proof.
  revert rest acc. induction fuel as [|f IH]; intros rest acc Hl Hb Hf Ha.
  { destruct rest; [|cbn in Hf; lia]. eexists; split; [done|]. by intros ? [= <-]. }
  destruct rest as [|b tl]; [eexists; split; [done|]; by intros ? [= <-]|].
  cbn [aod_loop]. set (rest := b :: tl) in *.
  destruct (b =? END_OF_CONTENTS_OCTET).
  { destruct (forallb _ _); (eexists; split; [done|]); by intros ? [= <-]. }
  destruct (parse rest) as [obj|e] eqn:Ep; [|by eexists].
  destruct (parse_value_bytes rest obj) as (Hv & Hlv & Hs); [done..|].
  destruct (drop_record_bytes rest (size obj)) as [Hd Hld]; [done|lia|].
  set (q := default [] (get_range rest (size obj) (len rest))) in *.
  assert (length q <= f)%nat by (unfold len in Hld, Hs; lia).
  case_if; [apply IH; try done; lia|].
  destruct (password_object (value obj)) as [[o|]|e] eqn:Eo; [|apply IH; try done; lia|by eexists].
  apply IH; try done; [lia|]. apply Forall_app. split; [done|]. constructor; [|constructor].
  by eapply password_object_ok.
Qed.

(** ** Properties *)

(** (safety and termination) Whatever bytes a card returns for EF.AOD, the
    walk over it ends, and every credential it keeps has a one-octet reference
    and a length range that admits at least one length of at least one digit. *)
Theorem aod_any_file (bs : bytes) :
  len bs < USIZE_MAX -> all_bytes bs ->
  exists r, AuthenticationObjects_parse bs = Some r /\
    forall objs, r = Ok objs -> Forall object_ok (passwords objs).
Proof. intros. by apply aod_loop_any. Qed.

Lemma aod_any_file_witness :
  exists r, AuthenticationObjects_parse [0x31; 0x02; 0x05; 0x00; 0x00; 0x00] = Some r /\
    forall objs, r = Ok objs -> Forall object_ok (passwords objs).
Proof. apply aod_any_file; [done|by apply all_bytesb_spec]. Defined.

(** (round trip) From a directory written as BER records, with any number
    of objects of other kinds between the password objects, any attributes
    before [typeAttributes], and any zero padding, the parse returns exactly
    the credentials the attributes list, in file order: the reference defaults
    to zero, the maximum length to the stored length, and a credential whose
    lengths do not count digits or admit no length is left out. *)
Theorem aod_lists_credentials (ws : list bytes) (os : list (option PasswordObject)) (padding : nat) :
  Forall2 lists_object ws os ->
  AuthenticationObjects_parse (concat ws ++ repeat 0 padding)
  = Some (Ok (mkAuthenticationObjects (omap id os))).
Proof.
  intros H. unfold AuthenticationObjects_parse.
  rewrite (aod_loop_objects ws os) by (done || rewrite length_app, repeat_length; lia). done.
Qed.

Lemma aod_lists_credentials_witness :
  AuthenticationObjects_parse
    (concat [[0x30; 22; 0x30; 1; 0; 0xA1; 17; 0x30; 15; 3; 1; 0; 10; 1; 1; 2; 1; 4; 2; 1; 12; 0x80; 1; 0x11];
             [0xA0; 1; 7]] ++ repeat 0 5)
  = Some (Ok (mkAuthenticationObjects [mkPasswordObject 0x11 (mkRange 4 12)])).
Proof.
  apply (aod_lists_credentials _ [Some (mkPasswordObject 0x11 (mkRange 4 12)); None] 5).
  constructor; [|constructor; [|constructor]].
  - apply (lists_password _ [[0x30; 1; 0]; [0xA1; 17; 0x30; 15; 3; 1; 0; 10; 1; 1; 2; 1; 4; 2; 1; 12; 0x80; 1; 0x11]]
      [(0x30, [0]); (0xA1, [0x30; 15; 3; 1; 0; 10; 1; 1; 2; 1; 4; 2; 1; 12; 0x80; 1; 0x11])]
      [0x30; 15; 3; 1; 0; 10; 1; 1; 2; 1; 4; 2; 1; 12; 0x80; 1; 0x11] []
      [[3; 1; 0]; [10; 1; 1]; [2; 1; 4]; [2; 1; 12]; [0x80; 1; 0x11]]
      (mkAttributes [0] [1] [4] [12] None (Some [0x11]))).
    + left. split; [split; by vm_compute|by vm_compute].
    + do 2 (constructor; [left; split; [split; by vm_compute|by vm_compute]|]). constructor.
    + done.
    + left. split; [split; by vm_compute|by vm_compute].
    + do 5 (constructor; [left; split; [split; by vm_compute|by vm_compute]|]). constructor.
    + unfold attributes_typed. do 5 (constructor; [by apply all_bytesb_spec|]). constructor.
  - apply (lists_other _ 0xA0 [7]); [|done|done]. left. split; [split; by vm_compute|by vm_compute].
Defined.

End Aod.
