(* ===== verification/AuthCredentials.v ===== *)
(** * Credentials: validated digits, the retry floor and the rejected-PIN cache

    The model of [crates/auth/src/credentials.rs] (digit validation and the
    keyed fingerprint), [crates/auth/src/retry_risk.rs] (the retry floor), the
    credential types of [crates/auth/src/verify.rs] they are about, and
    [crates/pin-cache/src/lib.rs] (the process-lifetime memory of rejected
    PINs).  HMAC-SHA-256 is a third-party package and a parameter here.

    The theorems: validation accepts exactly the digit strings of the role's
    length and keeps them unchanged; the floor serves exactly the documented
    counters; the cache refines the set of rejected (card, slot, value)
    triples. *)

From stdpp Require Import base list strings.
From Stdlib Require Import ZArith Lia.
From S2P Require Import Prelude ApduStatus ApduCommand.

Module Credentials.
Import Status Apdu.

(** ** Slots, status and roles *)

Inductive PinSlot := Slot1 | Slot2.

Inductive PinStatus :=
  | Verified
  | Remaining (r : PinRetries)
  | NoInfo
  | Locked
  | OtherStatus (sw : StatusWord).

Inductive CredentialRole := RolePin1 | RolePin2 | RolePuk | RoleActivationCode.

Inductive CredentialInputError :=
  | InputEmpty (role : CredentialRole)
  | WrongLength (role : CredentialRole) (expected_min expected_max : Z)
  | NonDigit (role : CredentialRole).

#[export] Instance PinSlot_eq_dec : EqDecision PinSlot.
Proof. solve_decision. Defined.

(** ** Validated digits *)

Definition PIN_MIN_LENGTH : Z := 4.
Definition FINEID_PIN1_MIN_LENGTH : Z := 4.
Definition FINEID_PIN2_MIN_LENGTH : Z := 6.
Definition PIN_MAX_LENGTH : Z := 12.
Definition PUK_MIN_LENGTH : Z := 8.
Definition PUK_MAX_LENGTH : Z := 12.

Definition is_ascii_digit (b : Z) : bool := (0x30 <=? b) && (b <=? 0x39).

Record SecretDigits := mkSecretDigits { secret_storage : bytes; secret_length : Z }.

(** The outer [option] is [None] when a slice index would panic. *)
Definition reconstruct (input : bytes) (role : CredentialRole) (minimum maximum : Z)
  : option (result CredentialInputError SecretDigits) :=
  if is_empty input then Some (Err (InputEmpty role))
  else if (len input <? minimum) || (len input >? maximum)
  then Some (Err (WrongLength role minimum maximum))
  else if existsb (fun b => negb (is_ascii_digit b)) input then Some (Err (NonDigit role))
  else match try_from_uint U8_MAX (len input) with
  | None => Some (Err (WrongLength role minimum maximum))
  | Some length =>
      storage ← copy_from_slice (zeroed_array PIN_MAX_LENGTH) 0 input;
      Some (Ok (mkSecretDigits storage length))
  end.

Definition digit_count (self : SecretDigits) : Z := secret_length self.
Definition secret_bytes (self : SecretDigits) : option bytes :=
  get_range (secret_storage self) 0 (digit_count self).

Record Pin1 := mkPin1 { pin1_secret : SecretDigits }.
Record Pin2 := mkPin2 { pin2_secret : SecretDigits }.
Record Puk := mkPuk { puk_secret : SecretDigits }.

Definition Pin1_reconstruct (input : bytes) : option (result CredentialInputError Pin1) :=
  rmap mkPin1 <$> reconstruct input RolePin1 PIN_MIN_LENGTH PIN_MAX_LENGTH.
Definition Pin2_reconstruct (input : bytes) : option (result CredentialInputError Pin2) :=
  rmap mkPin2 <$> reconstruct input RolePin2 PIN_MIN_LENGTH PIN_MAX_LENGTH.
Definition Puk_reconstruct (input : bytes) : option (result CredentialInputError Puk) :=
  rmap mkPuk <$> reconstruct input RolePuk PUK_MIN_LENGTH PUK_MAX_LENGTH.

Definition Pin1_digits (self : Pin1) : option bytes := secret_bytes (pin1_secret self).
Definition Pin2_digits (self : Pin2) : option bytes := secret_bytes (pin2_secret self).
Definition Puk_digits (self : Puk) : option bytes := secret_bytes (puk_secret self).

(** ** The retry floor *)

Inductive FlooredCredential := FlooredPin1 | FlooredPin2 | FlooredPuk.

Definition FlooredCredential_from (slot : PinSlot) : FlooredCredential :=
  match slot with Slot1 => FlooredPin1 | Slot2 => FlooredPin2 end.

Definition RETRIES_PRISTINE : Z := 5.
Definition RETRIES_ONE_SPENT : Z := 4.
Definition RETRIES_FLOOR : Z := 3.
Definition RETRIES_BELOW_FLOOR : Z := 2.
Definition RETRIES_LOCKDOWN_IMMINENT : Z := 1.
Definition RETRIES_EXHAUSTED : Z := 0.

Inductive PinRetryRisk :=
  | NormalOperatingConditions
  | DisturbanceDetected
  | SecurityIncidentDeclared
  | CriticalThreatLevel
  | LockdownImminent
  | DefencesFallen.

Definition from_retries (retries : PinRetries) : option PinRetryRisk :=
  let n := retries_get retries in
  if n =? RETRIES_PRISTINE then Some NormalOperatingConditions
  else if n =? RETRIES_ONE_SPENT then Some DisturbanceDetected
  else if n =? RETRIES_FLOOR then Some SecurityIncidentDeclared
  else if n =? RETRIES_BELOW_FLOOR then Some CriticalThreatLevel
  else if n =? RETRIES_LOCKDOWN_IMMINENT then Some LockdownImminent
  else if n =? RETRIES_EXHAUSTED then Some DefencesFallen
  else None.

Definition spends_a_last_try (self : PinRetryRisk) : bool :=
  match self with CriticalThreatLevel | LockdownImminent => true | _ => false end.

Definition is_above_floor (self : PinRetryRisk) : bool :=
  match self with
  | NormalOperatingConditions | DisturbanceDetected | SecurityIncidentDeclared => true
  | _ => false
  end.

Definition permits_reusable_cache (self : PinRetryRisk) : bool :=
  match self with NormalOperatingConditions => true | _ => false end.

Inductive RetryFloorRefusal :=
  | TriesBelowFloor (credential : FlooredCredential) (remaining : PinRetries)
  | Blocked (credential : FlooredCredential)
  | CounterUnreadable (credential : FlooredCredential).

Definition refusal_credential (self : RetryFloorRefusal) : FlooredCredential :=
  match self with TriesBelowFloor c _ | Blocked c | CounterUnreadable c => c end.

Definition check_last_tries (credential : FlooredCredential) (status : PinStatus)
  : result RetryFloorRefusal unit :=
  match status with
  | Remaining remaining =>
      match from_retries remaining with
      | Some risk =>
          if spends_a_last_try risk then Err (TriesBelowFloor credential remaining) else Ok tt
      | None => Err (CounterUnreadable credential)
      end
  | Verified | Locked => Ok tt
  | NoInfo | OtherStatus _ => Err (CounterUnreadable credential)
  end.

Definition check_retry_floor (credential : FlooredCredential) (status : PinStatus)
  : result RetryFloorRefusal unit :=
  match credential with
  | FlooredPin1 | FlooredPin2 =>
      match status with
      | Verified => Ok tt
      | Remaining remaining =>
          match from_retries remaining with
          | Some risk =>
              if is_above_floor risk then Ok tt else Err (TriesBelowFloor credential remaining)
          | None => Err (CounterUnreadable credential)
          end
      | Locked => Err (Blocked credential)
      | NoInfo | OtherStatus _ => Err (CounterUnreadable credential)
      end
  | FlooredPuk =>
      match status with
      | Verified => Err (CounterUnreadable credential)
      | other => check_last_tries credential other
      end
  end.

Definition pin1_status_permits_reusable_cache (pin1 : PinStatus) : bool :=
  match pin1 with
  | Verified => true
  | Remaining retries =>
      match from_retries retries with
      | Some risk => permits_reusable_cache risk
      | None => false
      end
  | Locked | NoInfo | OtherStatus _ => false
  end.

(** ** The keyed fingerprint and the rejected-PIN cache *)

Definition CACHE_FINGERPRINT_LEN : Z := 32.
Definition SLOT_TAG_PIN1 : Z := 1.
Definition SLOT_TAG_PIN2 : Z := 2.

Section Cache.
(** HMAC-SHA-256 under a key; [None] when the key is refused. *)
Context (hmac_sha256 : bytes -> bytes -> option bytes).

(** The bytes absorbed by the [mac.update] calls, in order. *)
Definition fingerprint_preimage (slot_tag serial_len : Z) (serial_bytes : bytes)
  (pin_len : Z) (digits : bytes) : bytes :=
  be_bytes 4 serial_len ++ serial_bytes ++ [slot_tag] ++ [pin_len] ++ digits.

Definition pin_fingerprint (slot_tag : Z) (serial_bytes digits key : bytes) : bytes :=
  match try_from_uint U32_MAX (len serial_bytes), try_from_uint U8_MAX (len digits) with
  | Some serial_len, Some pin_len =>
      default (zeroed_array CACHE_FINGERPRINT_LEN)
        (hmac_sha256 key (fingerprint_preimage slot_tag serial_len serial_bytes pin_len digits))
  | _, _ => zeroed_array CACHE_FINGERPRINT_LEN
  end.

(** The trait [CachedPin]. *)
Class CachedPin (P : Type) := {
  pin_slot : P -> PinSlot;
  keyed_fingerprint : P -> bytes -> bytes -> option bytes }.

#[export] Instance Pin1_CachedPin : CachedPin Pin1 := {
  pin_slot _ := Slot1;
  keyed_fingerprint self serial_bytes key :=
    digits ← Pin1_digits self; Some (pin_fingerprint SLOT_TAG_PIN1 serial_bytes digits key) }.

#[export] Instance Pin2_CachedPin : CachedPin Pin2 := {
  pin_slot _ := Slot2;
  keyed_fingerprint self serial_bytes key :=
    digits ← Pin2_digits self; Some (pin_fingerprint SLOT_TAG_PIN2 serial_bytes digits key) }.

Record PinSafetyCache := mkCache {
  fingerprint_key : bytes;
  rejected_pin1 : list bytes;
  rejected_pin2 : list bytes }.

(** [new], the operating system's random bytes given. *)
Definition cache_new (random : bytes) : PinSafetyCache := mkCache random [] [].

Definition rejected (self : PinSafetyCache) (slot : PinSlot) : list bytes :=
  match slot with Slot1 => rejected_pin1 self | Slot2 => rejected_pin2 self end.

Definition fingerprint {P} `{CachedPin P} (self : PinSafetyCache) (serial : bytes) (pin : P)
  : option bytes := keyed_fingerprint pin serial (fingerprint_key self).

Definition contains_fingerprint (self : PinSafetyCache) (slot : PinSlot) (candidate : bytes) : bool :=
  existsb (fun known => bool_decide (known = candidate)) (rejected self slot).

Definition is_rejected {P} `{CachedPin P} (self : PinSafetyCache) (serial : bytes) (pin : P)
  : option bool :=
  candidate ← fingerprint self serial pin;
  Some (contains_fingerprint self (pin_slot pin) candidate).

(** [self.rejected_mut(slot).push(f)]. *)
Definition push_rejected (self : PinSafetyCache) (slot : PinSlot) (f : bytes) : PinSafetyCache :=
  match slot with
  | Slot1 => mkCache (fingerprint_key self) (rejected_pin1 self ++ [f]) (rejected_pin2 self)
  | Slot2 => mkCache (fingerprint_key self) (rejected_pin1 self) (rejected_pin2 self ++ [f])
  end.

Definition record_fingerprint (self : PinSafetyCache) (slot : PinSlot) (f : bytes) : PinSafetyCache :=
  if negb (contains_fingerprint self slot f) then push_rejected self slot f else self.

Definition record_rejected {P} `{CachedPin P} (self : PinSafetyCache) (serial : bytes) (pin : P)
  : option PinSafetyCache :=
  f ← fingerprint self serial pin;
  Some (record_fingerprint self (pin_slot pin) f).

End Cache.

(** ** Lemmas *)

(** A validated secret holding the digits [d]. *)
Definition holds_digits (s : SecretDigits) (d : bytes) : Prop :=
  secret_bytes s = Some d /\ digit_count s = len d /\ 1 <= len d <= PIN_MAX_LENGTH.

Lemma digits_existsb input :
  existsb (fun b => negb (is_ascii_digit b)) input = negb (forallb is_ascii_digit input).
Proof. induction input as [|b l IH]; [done|]. cbn. rewrite IH. by destruct (is_ascii_digit b). Qed.

Lemma reconstruct_ok input role minimum maximum :
  input <> [] -> minimum <= len input <= maximum -> maximum <= PIN_MAX_LENGTH ->
  forallb is_ascii_digit input = true ->
  exists s, reconstruct input role minimum maximum = Some (Ok s) /\ holds_digits s input.
Proof.
  intros Hne Hl Hm Hd. unfold reconstruct, PIN_MAX_LENGTH in *.
  assert (1 <= len input) by (pose proof (len_nonneg input);
    destruct (Z.eq_dec (len input) 0) as [?%len_0_nil|]; [done|lia]).
  rewrite is_empty_len, Z.gtb_ltb. if_false. if_false.
  rewrite digits_existsb, Hd. cbn [negb].
  rewrite try_from_uint_some by ulia.
  unfold copy_from_slice. change (len (zeroed_array 12)) with 12. if_true. cbn [mbind option_bind].
  eexists; split; [done|]. split; [|split; [done|unfold PIN_MAX_LENGTH; lia]].
  unfold secret_bytes, digit_count; cbn [secret_storage secret_length].
  change (take_z (zeroed_array 12) 0) with (@nil Z). cbn [app]. by apply get_range_prefix.
Qed.

Lemma fingerprint_preimage_inj t t' s s' d d' :
  is_u32 (len s) -> is_u32 (len s') ->
  fingerprint_preimage t (len s) s (len d) d = fingerprint_preimage t' (len s') s' (len d') d' ->
  t = t' /\ s = s' /\ d = d'.
Proof.
  intros Hs Hs' E. unfold fingerprint_preimage in E.
  apply app_inj_1 in E as [E1 E]; [|by rewrite !length_be_bytes].
  apply (f_equal be_value) in E1. rewrite !be_value_be_bytes in E1 by ulia.
  apply app_inj_1 in E as [-> E]; [|unfold len in E1; lia].
  by injection E as -> _ ->.
Qed.

(** ** The cache against the set of rejected values *)

(** A card-side rejection: the slot, the card's serial and the PIN. *)
Record rejection := mkRejection { rej_slot : PinSlot; rej_serial : bytes; rej_secret : SecretDigits }.

Section Refinement.
Context (hmac : bytes -> bytes -> option bytes).
#[local] Instance cached1 : CachedPin Pin1 := Pin1_CachedPin hmac.
#[local] Instance cached2 : CachedPin Pin2 := Pin2_CachedPin hmac.

Definition record_one (c : PinSafetyCache) (r : rejection) : option PinSafetyCache :=
  match rej_slot r with
  | Slot1 => record_rejected c (rej_serial r) (mkPin1 (rej_secret r))
  | Slot2 => record_rejected c (rej_serial r) (mkPin2 (rej_secret r))
  end.

Definition ask (c : PinSafetyCache) (r : rejection) : option bool :=
  match rej_slot r with
  | Slot1 => is_rejected c (rej_serial r) (mkPin1 (rej_secret r))
  | Slot2 => is_rejected c (rej_serial r) (mkPin2 (rej_secret r))
  end.

Fixpoint record_all (c : PinSafetyCache) (rs : list rejection) : option PinSafetyCache :=
  match rs with
  | [] => Some c
  | r :: rs => c ← record_one c r; record_all c rs
  end.

(** The value a rejection stands for. *)
Definition triple (r : rejection) : PinSlot * bytes * option bytes :=
  (rej_slot r, rej_serial r, secret_bytes (rej_secret r)).

Definition rejection_ok (r : rejection) : Prop :=
  is_u32 (len (rej_serial r)) /\ exists d, holds_digits (rej_secret r) d.

Definition slot_tag (slot : PinSlot) : Z :=
  match slot with Slot1 => SLOT_TAG_PIN1 | Slot2 => SLOT_TAG_PIN2 end.

Definition mark (key : bytes) (r : rejection) : bytes :=
  pin_fingerprint hmac (slot_tag (rej_slot r)) (rej_serial r)
    (default [] (secret_bytes (rej_secret r))) key.

Definition preimage (r : rejection) : bytes :=
  let d := default [] (secret_bytes (rej_secret r)) in
  fingerprint_preimage (slot_tag (rej_slot r)) (len (rej_serial r)) (rej_serial r) (len d) d.

(** The package computes a mark for both messages, and the two marks differ
    unless the messages are equal. *)
Definition no_collision (key m m' : bytes) : Prop :=
  exists h h', hmac key m = Some h /\ hmac key m' = Some h' /\ (h = h' -> m = m').

Lemma record_one_eq c r : rejection_ok r ->
  record_one c r = Some (record_fingerprint c (rej_slot r) (mark (fingerprint_key c) r)).
Proof.
  intros [_ (d & Hd & _)]. unfold record_one, record_rejected, fingerprint, mark.
  destruct (rej_slot r); cbn; unfold Pin1_digits, Pin2_digits; cbn; by rewrite Hd.
Qed.

Lemma ask_eq c r : rejection_ok r ->
  ask c r = Some (contains_fingerprint c (rej_slot r) (mark (fingerprint_key c) r)).
Proof.
  intros [_ (d & Hd & _)]. unfold ask, is_rejected, fingerprint, mark.
  destruct (rej_slot r); cbn; unfold Pin1_digits, Pin2_digits; cbn; by rewrite Hd.
Qed.

Lemma contains_spec c slot f : contains_fingerprint c slot f = true <-> f ∈ rejected c slot.
Proof.
  unfold contains_fingerprint. rewrite existsb_exists. split.
  - intros (x & Hx & ->%bool_decide_eq_true). by apply list_elem_of_In.
  - intros H. exists f. split; [by apply list_elem_of_In|by apply bool_decide_eq_true].
Qed.

Lemma record_fingerprint_spec c slot f :
  fingerprint_key (record_fingerprint c slot f) = fingerprint_key c /\
  forall slot' g, g ∈ rejected (record_fingerprint c slot f) slot'
    <-> g ∈ rejected c slot' \/ (slot' = slot /\ g = f).
Proof.
  unfold record_fingerprint. destruct (contains_fingerprint c slot f) eqn:E; cbn [negb].
  - apply contains_spec in E. split; [done|]. intros. split; [auto|]. intros [|[-> ->]]; auto.
  - split; [by destruct slot|]. intros slot' g.
    destruct slot, slot'; cbn; rewrite ?elem_of_app, ?list_elem_of_singleton; intuition congruence.
Qed.

Lemma record_all_spec c rs : Forall rejection_ok rs ->
  exists c', record_all c rs = Some c' /\ fingerprint_key c' = fingerprint_key c /\
    forall slot g, g ∈ rejected c' slot <->
      g ∈ rejected c slot \/ exists r, r ∈ rs /\ rej_slot r = slot /\ mark (fingerprint_key c) r = g.
Proof.
  revert c. induction rs as [|r rs IH]; intros c Hrs.
  - exists c. split_and!; [done..|]. intros. split; [auto|]. intros [|(r & Hr & _)]; [done|].
    by apply not_elem_of_nil in Hr.
  - inversion Hrs as [|?? Hr Hrs']; subst. cbn [record_all]. rewrite record_one_eq by done.
    cbn [mbind option_bind].
    destruct (record_fingerprint_spec c (rej_slot r) (mark (fingerprint_key c) r)) as [Hk Hin].
    destruct (IH (record_fingerprint c (rej_slot r) (mark (fingerprint_key c) r)) Hrs')
      as (c' & -> & Hk' & Hin'). exists c'. split_and!; [done|congruence|].
    intros slot g. rewrite Hin', Hin, Hk. setoid_rewrite elem_of_cons. naive_solver.
Qed.

Lemma triple_preimage r r' : rejection_ok r -> rejection_ok r' ->
  preimage r = preimage r' <-> triple r = triple r'.
Proof.
  intros [Hs (d & Hd & _)] [Hs' (d' & Hd' & _)]. unfold preimage, triple. rewrite Hd, Hd'.
  cbn [default from_option id]. split.
  - intros (Ht & -> & ->)%fingerprint_preimage_inj; [|done..].
    by destruct (rej_slot r), (rej_slot r').
  - by intros [= -> -> ->].
Qed.

Lemma mark_preimage key r h : rejection_ok r -> hmac key (preimage r) = Some h -> mark key r = h.
Proof.
  intros [Hs (d & Hd & Hc & Hl)]. unfold mark, preimage, pin_fingerprint. rewrite Hd.
  cbn [default from_option id]. unfold PIN_MAX_LENGTH in Hl.
  rewrite !try_from_uint_some by ulia. by intros ->.
Qed.

End Refinement.

(** ** The documented floor *)

(** The counters at which the code presents a credential: a PIN at five, four
    or three tries or verified; the PUK at the same counts, and where the card
    answers for itself without spending a try, at none or blocked. *)
Definition floor_serves (c : FlooredCredential) (s : PinStatus) : Prop :=
  match c, s with
  | FlooredPuk, Remaining r => retries_get r = 0 \/ 3 <= retries_get r <= 5
  | FlooredPuk, Locked => True
  | (FlooredPin1 | FlooredPin2), Verified => True
  | (FlooredPin1 | FlooredPin2), Remaining r => 3 <= retries_get r <= 5
  | _, _ => False
  end.

Lemma from_retries_spec r :
  match from_retries r with
  | Some NormalOperatingConditions => retries_get r = 5
  | Some DisturbanceDetected => retries_get r = 4
  | Some SecurityIncidentDeclared => retries_get r = 3
  | Some CriticalThreatLevel => retries_get r = 2
  | Some LockdownImminent => retries_get r = 1
  | Some DefencesFallen => retries_get r = 0
  | None => retries_get r < 0 \/ 5 < retries_get r
  end.
Proof.
  unfold from_retries, RETRIES_PRISTINE, RETRIES_ONE_SPENT, RETRIES_FLOOR,
    RETRIES_BELOW_FLOOR, RETRIES_LOCKDOWN_IMMINENT, RETRIES_EXHAUSTED.
  repeat (case_if; [done|]). lia.
Qed.

(** ** Properties *)

(** (functional) Credential input is accepted exactly when it is non-empty,
    of a length the role admits and all ASCII digits, and then the validated
    secret holds those digits unchanged; each refusal reports its reason, the
    empty input first, then the length, then the digits, and no branch panics
    while the role's maximum fits the storage. *)
Theorem credential_validation (input : bytes) (role : CredentialRole) (minimum maximum : Z) :
  maximum <= PIN_MAX_LENGTH ->
  match reconstruct input role minimum maximum with
  | None => False
  | Some (Ok s) =>
      minimum <= len input <= maximum /\ forallb is_ascii_digit input = true
      /\ holds_digits s input
  | Some (Err (InputEmpty r)) => r = role /\ input = []
  | Some (Err (WrongLength r mn mx)) =>
      r = role /\ mn = minimum /\ mx = maximum /\ input <> []
      /\ (len input < minimum \/ maximum < len input)
  | Some (Err (NonDigit r)) =>
      r = role /\ minimum <= len input <= maximum /\ forallb is_ascii_digit input = false
  end.
Proof.
  intros Hm. destruct input as [|b input']; [done|]. set (input := b :: input').
  destruct (decide (minimum <= len input <= maximum)) as [Hl|Hl].
  - destruct (forallb is_ascii_digit input) eqn:Ed.
    + by destruct (reconstruct_ok input role minimum maximum) as (s & -> & Hs).
    + unfold reconstruct. change (is_empty input) with false. cbv iota.
      rewrite Z.gtb_ltb. if_false. rewrite digits_existsb, Ed. done.
  - unfold reconstruct. change (is_empty input) with false. cbv iota.
    rewrite Z.gtb_ltb. if_true. split_and!; [done..|lia].
Qed.

Lemma credential_validation_witness :
  match reconstruct [0x31; 0x32; 0x33; 0x34] RolePin1 4 12 with
  | Some (Ok s) => holds_digits s [0x31; 0x32; 0x33; 0x34]
  | _ => False
  end.
Proof.
  pose proof (credential_validation [0x31; 0x32; 0x33; 0x34] RolePin1 4 12) as H.
  vm_compute in H |- *. apply H. discriminate.
Defined.

(** C38 (functional) What the retry floor serves, exactly: a PIN at five, four
    or three tries left or standing verified; the PUK at five, four or three
    tries left, and also at none left or blocked, but not when reported
    verified.  So no credential is served at two or one tries left or at a
    counter that cannot be read.  A refusal names the credential it refused,
    and a PIN 1 held for reuse is one the floor would serve, at a full counter
    or verified.  The module's header states the floor without the PUK's
    exception; this is the table of the code. *)
Theorem retry_floor_spec (c : FlooredCredential) (s : PinStatus) :
  (check_retry_floor c s = Ok tt <-> floor_serves c s) /\
  (forall e, check_retry_floor c s = Err e -> refusal_credential e = c) /\
  (pin1_status_permits_reusable_cache s = true ->
     check_retry_floor FlooredPin1 s = Ok tt /\
     match s with Remaining r => retries_get r = 5 | _ => s = Verified end).
Proof.
  split_and!.
  - destruct c, s as [|r| | |]; cbn; try done;
      pose proof (from_retries_spec r) as Hr; destruct (from_retries r) as [[]|]; cbn;
      (split; [try done; intros _; lia|intros; done || lia]).
  - intros e. destruct c, s as [|r| | |]; cbn; try done; try (by intros [= <-]);
      destruct (from_retries r) as [[]|]; cbn; try done; by intros [= <-].
  - destruct s as [|r| | |]; cbn; try done.
    pose proof (from_retries_spec r) as Hr. by destruct (from_retries r) as [[]|].
Qed.

Lemma retry_floor_spec_witness :
  check_retry_floor FlooredPin1 (Remaining (mkPinRetries 5)) = Ok tt /\
  check_retry_floor FlooredPuk Locked = Ok tt.
Proof.
  split; [apply (retry_floor_spec FlooredPuk (Remaining (mkPinRetries 5))); reflexivity|].
  by apply (retry_floor_spec FlooredPuk Locked).
Defined.

(** (refinement) The cache of rejected PINs implements the set of rejected
    (slot, card, value) triples: after any sequence of rejections recorded in
    a fresh cache, every recorded value is refused from then on, and, where
    the keyed hash tells the candidate from the recorded values, nothing else
    is refused: not the same digits in the other slot or on another card. *)
Theorem rejected_cache_refines_set (hmac : bytes -> bytes -> option bytes) (key : bytes)
  (rs : list rejection) :
  Forall rejection_ok rs ->
  exists c, record_all hmac (cache_new key) rs = Some c /\
    forall r, rejection_ok r ->
      (triple r ∈ triple <$> rs -> ask hmac c r = Some true) /\
      (Forall (fun r' => no_collision hmac key (preimage r) (preimage r')) rs ->
       ask hmac c r = Some true -> triple r ∈ triple <$> rs).
Proof.
  intros Hrs. destruct (record_all_spec hmac (cache_new key) rs Hrs) as (c & E & Hk & Hin).
  exists c. split; [done|]. intros r Hr. rewrite (ask_eq hmac c r Hr), Hk.
  cbn [fingerprint_key cache_new] in Hin |- *. split.
  - intros (r' & Ht & Hr')%list_elem_of_fmap. f_equal. apply contains_spec, Hin. right.
    exists r'. split; [done|]. injection Ht as Et Es Ed. split; [done|].
    unfold mark. by rewrite Et, Es, Ed.
  - intros Hc [= Hm]. apply contains_spec, Hin in Hm as [Hm|(r' & Hr' & Hs & Hm)].
    { by destruct (rej_slot r); apply not_elem_of_nil in Hm. }
    rewrite Forall_forall in Hc, Hrs. destruct (Hc r' Hr') as (h & h' & E1 & E2 & Hh).
    rewrite (mark_preimage _ _ _ _ Hr E1), (mark_preimage _ _ _ _ (Hrs r' Hr') E2) in Hm.
    apply list_elem_of_fmap. exists r'. split; [|done].
    apply triple_preimage; auto.
Qed.

Lemma rejected_cache_refines_set_witness :
  exists c, record_all (fun k m => Some m) (cache_new [7])
      [mkRejection Slot1 [0x41] (mkSecretDigits [0x31; 0x32; 0x33; 0x34] 4)] = Some c /\
    ask (fun k m => Some m) c
      (mkRejection Slot1 [0x41] (mkSecretDigits [0x31; 0x32; 0x33; 0x34] 4)) = Some true.
Proof.
  assert (rejection_ok (mkRejection Slot1 [0x41] (mkSecretDigits [0x31; 0x32; 0x33; 0x34] 4))) as Hok.
  { split; [by vm_compute|]. exists [0x31; 0x32; 0x33; 0x34]. unfold holds_digits. split_and!; by vm_compute. }
  destruct (rejected_cache_refines_set (fun k m => Some m) [7]
    [mkRejection Slot1 [0x41] (mkSecretDigits [0x31; 0x32; 0x33; 0x34] 4)]) as (c & E & H).
  { by constructor. }
  exists c. split; [done|]. apply H; [done|]. apply list_elem_of_fmap. eexists. split; [done|].
  by apply list_elem_of_singleton.
Defined.

End Credentials.
