(* ===== verification/CardTrace.v ===== *)
(** * Traces: what an operation sends to a card, in order

    The adapter wrapped with a log of every transmission and its outcome, and
    the predicate [traces] on operations over a logged state: every run
    appends to the log a trace that, with the result, satisfies a property.
    The components above the transport port state what leaves the host, and
    in which order, with it. *)

From stdpp Require Import base list.
From Stdlib Require Import ZArith Lia.
From S2P Require Import Prelude ApduCommand ApduIso7816.

Module Trace.
Import Apdu Iso7816.

Inductive sent (E : Type) :=
  | SentPlain (c : CommandApdu) (o : result E TransportOutcome)
  | SentCredential (c : CredentialCommand) (o : result E TransportOutcome).
Arguments SentPlain {E} _ _.
Arguments SentCredential {E} _ _.

Definition is_plain {E} (s : sent E) : Prop :=
  match s with SentPlain _ _ => True | SentCredential _ _ => False end.

(** The adapter wrapped with a log. *)
#[export] Instance traced {T E} `{CardTransport T E} : CardTransport (T * list (sent E)) E := {
  transmit c := fun s => let '(o, t) := transmit c s.1 in (o, (t, s.2 ++ [SentPlain c o]));
  transmit_credential c := fun s =>
    let '(o, t) := transmit_credential c s.1 in (o, (t, s.2 ++ [SentCredential c o])) }.

(** A state that carries a log: a wrapped adapter, alone or with other state
    beside it. *)
Class Logged (S E : Type) := log : S -> list (sent E).
#[export] Instance logged_adapter {T E} : Logged (T * list (sent E)) E := snd.
#[export] Instance logged_beside {T E D} : Logged (T * list (sent E) * D) E := fun s => s.1.2.

Section Traces.
Context {S E X : Type} `{Logged S E}.

Abbreviation trace := (list (sent E)).

(** Every run of [m] appends to the log a trace that, with the result,
    satisfies [P]. *)
Definition traces {A} (P : trace -> result X A -> Prop) (m : exec S X A) : Prop :=
  forall s, exists new, log (m s).2 = log s ++ new /\ P new (m s).1.

Lemma traces_mono {A} (P Q : trace -> result X A -> Prop) m :
  (forall n r, P n r -> Q n r) -> traces P m -> traces Q m.
Proof. intros HPQ Hm s. destruct (Hm s) as (n & ? & ?). eauto. Qed.

Lemma traces_lift {A} (r : result X A) : traces (fun n r' => n = [] /\ r' = r) (elift r).
Proof. intros s. exists []. cbn. by rewrite app_nil_r. Qed.

Lemma traces_ret {A} (a : A) : traces (fun n r => n = [] /\ r = Ok a) (eret a).
Proof. apply (traces_lift (Ok a)). Qed.

Lemma traces_bind {A B} (P : trace -> result X A -> Prop) (Q : trace -> result X B -> Prop) m k :
  traces P m ->
  (forall n e, P n (Err e) -> Q n (Err e)) ->
  (forall n a, P n (Ok a) -> traces (fun n' r => Q (n ++ n') r) (k a)) ->
  traces Q (ebind m k).
Proof.
  intros Hm He Hk s. destruct (Hm s) as (n & Hn & HP). unfold ebind.
  destruct (m s) as [[a|e] s'] eqn:E1; cbn [fst snd] in *; [|eauto].
  destruct (Hk n a HP s') as (n' & Hn' & HQ). exists (n ++ n').
  rewrite Hn', Hn, app_assoc. done.
Qed.

(** An operation that sends plain commands only. *)
Definition plain_only {A} (m : exec S X A) : Prop := traces (fun n _ => Forall is_plain n) m.

Lemma plain_only_bind {A B} (m : exec S X A) (k : A -> exec S X B) :
  plain_only m -> (forall a, plain_only (k a)) -> plain_only (ebind m k).
Proof.
  intros Hm Hk. eapply traces_bind; [apply Hm|done|]. intros n a Hn.
  eapply traces_mono; [|apply Hk]. intros n' r Hn'. by apply Forall_app.
Qed.

Lemma plain_only_lift {A} (r : result X A) : plain_only (elift r).
Proof. eapply traces_mono; [|apply traces_lift]. by intros n r' [-> _]. Qed.

Lemma plain_only_ret {A} (a : A) : plain_only (eret a).
Proof. apply (plain_only_lift (Ok a)). Qed.

(** [n] is what a run of [m] that returned [r] sent. *)
Definition ran {A} (m : exec S X A) (n : trace) (r : result X A) : Prop :=
  exists s, (m s).1 = r /\ log (m s).2 = log s ++ n.

Lemma traces_ran {A} (P : trace -> result X A -> Prop) (m : exec S X A) :
  traces P m -> traces (fun n r => P n r /\ ran m n r) m.
Proof.
  intros Hm s. destruct (Hm s) as (n & Hn & HP). exists n. split_and!; [done..|]. by exists s.
Qed.

End Traces.

#[export] Hint Resolve plain_only_bind plain_only_ret plain_only_lift : rust.

End Trace.
