(* ===== verification/AuthCard.v ===== *)
(** * Card authentication: VERIFY, PIN management and activation

    The model of [crates/auth/src/verify.rs], [pin_lengths.rs],
    [activation.rs] and [manage.rs], written against the [CardTransport]
    class.  A slice panic is told apart from a returned error ([fault]).

    The theorems: every credential command carries exactly the padded (citizen)
    or bare (organizational) digits to the reference of its slot and never
    panics; a status probe sends no credential; the PUK leaves the host only
    after a counter reading the floor serves, and an organizational reset only
    after the PUK was verified; activation presents its code only to a PIN
    that awaits it; the accepted lengths are the listed and the storable. *)

From stdpp Require Import base list strings.
From Stdlib Require Import ZArith Lia.
From S2P Require Import Prelude BerTlv ApduStatus ApduCommand ApduIso7816.
From S2P Require Import Pkcs15Fs Pkcs15Aod AuthCredentials CardTrace.

Module Auth.
Import Apdu Iso7816 Credentials Aod Trace.
#[local] Existing Instance Status.StatusWord_eq_dec.

(** ** References and outcomes (verify.rs) *)

Definition PIN1_REFERENCE : Z := 0x11.
Definition PIN2_REFERENCE : Z := 0x82.
Definition PIN1_REFERENCE_ORGANIZATIONAL : Z := 0x03.
Definition PIN2_REFERENCE_ORGANIZATIONAL : Z := 0x04.
Definition PUK_REFERENCE : Z := 0x83.
Definition PUK_REFERENCE_ORGANIZATIONAL : Z := 0x12.
Definition VERIFY_INS : Z := 0x20.
Definition VERIFY_P1 : Z := 0x00.
Definition PIN_STORED_LENGTH : Z := 12.
Definition PIN_PAD_BYTE : Z := 0x00.

Inductive PinReferenceScheme := Citizen | Organizational.

Definition scheme_reference (self : PinReferenceScheme) (slot : PinSlot) : Z :=
  match self, slot with
  | Citizen, Slot1 => PIN1_REFERENCE
  | Citizen, Slot2 => PIN2_REFERENCE
  | Organizational, Slot1 => PIN1_REFERENCE_ORGANIZATIONAL
  | Organizational, Slot2 => PIN2_REFERENCE_ORGANIZATIONAL
  end.

Definition puk_reference (self : PinReferenceScheme) : Z :=
  match self with
  | Citizen => PUK_REFERENCE
  | Organizational => PUK_REFERENCE_ORGANIZATIONAL
  end.

Inductive VerifyOutcome :=
  | VerifyOk
  | WrongPin (retries_left : Status.PinRetries)
  | VerifyLocked
  | VerifyOther (sw : Status.StatusWord).

(** ** Length refusals (pin_lengths.rs) *)

Inductive PinLengthRefusal :=
  | OutsideAcceptedRange (role : CredentialRole) (accepted : PasswordLengthRange)
  | NoAcceptedLength (role : CredentialRole).

Inductive AuthError (E : Type) :=
  | AuthTransport (e : E)
  | AuthOutcome (o : TransportOutcome)
  | AuthCommand (e : CredentialBodyError)
  | RetryFloor (r : RetryFloorRefusal)
  | PinLength (r : PinLengthRefusal).
Arguments AuthTransport {E} _.
Arguments AuthOutcome {E} _.
Arguments AuthCommand {E} _.
Arguments RetryFloor {E} _.
Arguments PinLength {E} _.

Definition classify_verify_sw (sw : Status.StatusWord) : VerifyOutcome :=
  match sw with
  | Status.Success => VerifyOk
  | Status.PinIncorrect retries => WrongPin retries
  | Status.AuthenticationBlocked | Status.ReferenceDataInvalidated => VerifyLocked
  | other => VerifyOther other
  end.

Definition classify_pin_status_sw (sw : Status.StatusWord) : PinStatus :=
  match sw with
  | Status.Success => Verified
  | Status.PinIncorrect retries => Remaining retries
  | Status.AuthenticationFailed => NoInfo
  | Status.AuthenticationBlocked | Status.ReferenceDataInvalidated => Locked
  | other => OtherStatus other
  end.

(** The loop of [write_credential_blocks]: the buffer and the filled total.
    [None] is the panic of a slice past the buffer. *)
Fixpoint write_blocks (scheme : PinReferenceScheme) (groups : list bytes) (out : bytes) (total : Z)
  : option (bytes * Z) :=
  match groups with
  | [] => Some (out, total)
  | group :: rest =>
      let copy_len := Z.min (len group) PIN_STORED_LENGTH in
      out ← copy_from_slice out total (take_z group copy_len);
      write_blocks scheme rest out
        (total + match scheme with
                 | Citizen => PIN_STORED_LENGTH
                 | Organizational => copy_len
                 end)
  end.

Definition write_credential_blocks (scheme : PinReferenceScheme) (groups : list bytes) (out : bytes)
  : option (bytes * Z) := write_blocks scheme groups out 0.

(** ** Accepted lengths (pin_lengths.rs) *)

Definition SPECIFIC_REFERENCE_BIT : Z := 0x80.

Inductive CardLengthSource := AuthenticationObjectDirectory | PinPolicy.

Inductive ListedLength :=
  | Listed (range : PasswordLengthRange) (source : CardLengthSource)
  | NotListed.

Record CredentialLengths := mkCredentialLengths {
  listed_length : ListedLength; accepted : option PasswordLengthRange }.

Definition CredentialLengths_new (listed : ListedLength) (capacity fallback : PasswordLengthRange)
  : CredentialLengths :=
  mkCredentialLengths listed
    match listed with
    | Listed range _ => range_intersection range capacity
    | NotListed => Some fallback
    end.

Definition lengths_check (self : CredentialLengths) (role : CredentialRole) (count : Z)
  : result PinLengthRefusal unit :=
  match accepted self with
  | Some range =>
      if range_contains range count then Ok tt else Err (OutsideAcceptedRange role range)
  | None => Err (NoAcceptedLength role)
  end.

Record CardPinLengths := mkCardPinLengths {
  numbering : PinReferenceScheme;
  lengths_pin1 : CredentialLengths;
  lengths_pin2 : CredentialLengths;
  lengths_puk : CredentialLengths }.

Definition PIN_CAPACITY : PasswordLengthRange := mkRange PIN_MIN_LENGTH PIN_MAX_LENGTH.
Definition PUK_CAPACITY : PasswordLengthRange := mkRange PUK_MIN_LENGTH PUK_MAX_LENGTH.
Definition FINEID_PIN1_BOUNDS : PasswordLengthRange := mkRange FINEID_PIN1_MIN_LENGTH PIN_MAX_LENGTH.
Definition FINEID_PIN2_BOUNDS : PasswordLengthRange := mkRange FINEID_PIN2_MIN_LENGTH PIN_MAX_LENGTH.
Definition FINEID_PUK_BOUNDS : PasswordLengthRange := PUK_CAPACITY.

Definition names (listed expected : Z) : bool :=
  Z.lor listed SPECIFIC_REFERENCE_BIT =? Z.lor expected SPECIFIC_REFERENCE_BIT.

Definition directory_range (objects : AuthenticationObjects) (expected : Z)
  : option PasswordLengthRange :=
  match List.filter (fun object => names (reference object) expected) (passwords objects) with
  | [first] => Some (lengths first)
  | _ => None
  end.

Definition from_listed (numbering : PinReferenceScheme) (pin1 pin2 puk : ListedLength)
  : CardPinLengths :=
  mkCardPinLengths numbering
    (CredentialLengths_new pin1 PIN_CAPACITY FINEID_PIN1_BOUNDS)
    (CredentialLengths_new pin2 PIN_CAPACITY FINEID_PIN2_BOUNDS)
    (CredentialLengths_new puk PUK_CAPACITY FINEID_PUK_BOUNDS).

Definition not_listed (numbering : PinReferenceScheme) : CardPinLengths :=
  from_listed numbering NotListed NotListed NotListed.

(** [from_card]; [policy] is the caller's closure, with the state it mutates. *)
Definition card_listed {S : Type} (objects : option AuthenticationObjects)
  (policy : Z -> S -> option PasswordLengthRange * S) (expected : Z) (s : S) : ListedLength * S :=
  match objects ≫= fun objects => directory_range objects expected with
  | Some range => (Listed range AuthenticationObjectDirectory, s)
  | None =>
      match policy expected s with
      | (Some range, s) => (Listed range PinPolicy, s)
      | (None, s) => (NotListed, s)
      end
  end.

Definition from_card {S : Type} (numbering : PinReferenceScheme)
  (objects : option AuthenticationObjects)
  (policy : Z -> S -> option PasswordLengthRange * S) (s : S) : CardPinLengths * S :=
  let '(pin1, s) := card_listed objects policy (scheme_reference numbering Slot1) s in
  let '(pin2, s) := card_listed objects policy (scheme_reference numbering Slot2) s in
  let '(puk, s) := card_listed objects policy (puk_reference numbering) s in
  (from_listed numbering pin1 pin2 puk, s).

Definition lengths_slot (self : CardPinLengths) (slot : PinSlot) : CredentialLengths :=
  match slot with Slot1 => lengths_pin1 self | Slot2 => lengths_pin2 self end.

Definition check_pin1 (self : CardPinLengths) (pin : Pin1) : result PinLengthRefusal unit :=
  lengths_check (lengths_pin1 self) RolePin1 (digit_count (pin1_secret pin)).
Definition check_pin2 (self : CardPinLengths) (pin : Pin2) : result PinLengthRefusal unit :=
  lengths_check (lengths_pin2 self) RolePin2 (digit_count (pin2_secret pin)).
Definition check_puk (self : CardPinLengths) (puk : Puk) : result PinLengthRefusal unit :=
  lengths_check (lengths_puk self) RolePuk (digit_count (puk_secret puk)).
Definition check_activation_entry (self : CardPinLengths) (presented_as : option PinSlot)
  (count : Z) : result PinLengthRefusal unit :=
  lengths_check
    match presented_as with Some slot => lengths_slot self slot | None => lengths_puk self end
    RoleActivationCode count.

Section Verify.
Context {T E : Type} `{CardTransport T E}.

Abbreviation op A := (exec T (fault (AuthError E)) A).

(** [transmit(..).map_err(Transport)?.into_response().map_err(Outcome)?]. *)
Definition respond (m : exec T E TransportOutcome) : op ResponseApdu :=
  do? outcome <- emap_err (fun e => Raised (AuthTransport e)) m ;;
  elift_raise (map_err AuthOutcome (into_response outcome)).

Definition credential_exchange (scheme : PinReferenceScheme) (header : CommandHeader)
  (groups : list bytes) : op Status.StatusWord :=
  let block := mkBlock (repeat PIN_PAD_BYTE (Z.to_nat CREDENTIAL_BODY_MAX)) 0 in
  do? written <- or_panic (write_credential_blocks scheme groups (block_bytes block)) ;;
  let '(buffer, total) := written in
  let block := block_set_filled (mkBlock buffer 0) total in
  do? body <- or_panic (from_block block) ;;
  do? body <- elift_raise (map_err AuthCommand body) ;;
  do? command <- or_panic (assemble header body) ;;
  do? response <- respond (transmit_credential command) ;;
  eret (status_word response).

Definition verify_digits (scheme : PinReferenceScheme) (slot : PinSlot) (digits : bytes)
  : op VerifyOutcome :=
  let header := mkHeader Plain VERIFY_INS VERIFY_P1 (scheme_reference scheme slot) in
  do? status <- credential_exchange scheme header [digits] ;;
  eret (classify_verify_sw status).

Definition probe_status_word (scheme : PinReferenceScheme) (slot : PinSlot) : op Status.StatusWord :=
  let command := case_1 (mkHeader Plain VERIFY_INS VERIFY_P1 (scheme_reference scheme slot)) in
  do? response <- respond (transmit command) ;;
  eret (status_word response).

Definition pin_status_with_scheme (scheme : PinReferenceScheme) (slot : PinSlot) : op PinStatus :=
  do? sw <- probe_status_word scheme slot ;;
  eret (classify_pin_status_sw sw).

Definition pin1_status_and_scheme : op (PinReferenceScheme * PinStatus) :=
  do? citizen <- probe_status_word Citizen Slot1 ;;
  if negb (bool_decide (citizen = Status.ReferenceDataNotFound))
  then eret (Citizen, classify_pin_status_sw citizen)
  else
    do? organizational <- probe_status_word Organizational Slot1 ;;
    let status := classify_pin_status_sw organizational in
    match status with
    | OtherStatus _ => eret (Citizen, classify_pin_status_sw citizen)
    | Verified | Remaining _ | NoInfo | Locked => eret (Organizational, status)
    end.

Definition resolve_pin_reference_scheme : op PinReferenceScheme :=
  do? r <- pin1_status_and_scheme ;; eret (fst r).

Definition pin_status (slot : PinSlot) : op PinStatus :=
  match slot with
  | Slot1 => do? r <- pin1_status_and_scheme ;; eret (snd r)
  | Slot2 => do? scheme <- resolve_pin_reference_scheme ;; pin_status_with_scheme scheme slot
  end.

Definition verify_pin1_with_scheme (scheme : PinReferenceScheme) (pin : Pin1) : op VerifyOutcome :=
  do? digits <- or_panic (Pin1_digits pin) ;; verify_digits scheme Slot1 digits.
Definition verify_pin2_with_scheme (scheme : PinReferenceScheme) (pin : Pin2) : op VerifyOutcome :=
  do? digits <- or_panic (Pin2_digits pin) ;; verify_digits scheme Slot2 digits.
Definition verify_pin1 (pin : Pin1) : op VerifyOutcome :=
  do? scheme <- resolve_pin_reference_scheme ;; verify_pin1_with_scheme scheme pin.
Definition verify_pin2 (pin : Pin2) : op VerifyOutcome :=
  do? scheme <- resolve_pin_reference_scheme ;; verify_pin2_with_scheme scheme pin.

End Verify.

(** ** Activation (activation.rs) *)

Definition GET_DATA_INS : Z := 0xCB.
Definition GET_DATA_P1 : Z := 0x00.
Definition GET_DATA_P2 : Z := 0xFF.
Definition GET_DATA_LE : Z := 0x00.
Definition PIN_CONTAINER_TEMPLATE_TAG : Z := 0xA0.
Definition PIN_CONTAINER_TEMPLATE_LEN : Z := 3.
Definition PIN_CONTAINER_REF_TAG : Z := 0x83.
Definition PIN_CONTAINER_REF_LEN : Z := 1.
Definition PIN_CHANGED_TAG_HIGH : Z := 0xDF.
Definition PIN_CHANGED_TAG_LOW : Z := 0x2F.
Definition PIN_CHANGED_LEN : Z := 1.
Definition PIN_CHANGED_FLAG_UNCHANGED : Z := 0x00.
Definition PIN_CHANGED_FLAG_CHANGED : Z := 0x01.
Definition PIN_ATTRIBUTES_TAG_HIGH : Z := 0xDF.
Definition PIN_ATTRIBUTES_TAG_LOW : Z := 0x21.
Definition PIN_ATTRIBUTES_LEN : Z := 4.
Definition PIN_POLICY_TAG : Z := 0xDF3F.
Definition PIN_POLICY_LEN : Z := 20.
Definition PIN_POLICY_MIN_LENGTH_OFFSET : Z := 1.
Definition PIN_POLICY_MAX_LENGTH_OFFSET : Z := 2.
Definition PIN_POLICY_LENGTH_FLOOR : Z := 4.
Definition PIN_POLICY_LENGTH_CEILING : Z := 64.
Definition DVV_PRESET_PIN_CUTOVER_EPOCH_SECONDS : Z := 1768262400.
Definition PRESET_ACTIVATION_PIN_DIGIT_COUNT : Z := 7.
Definition ACTIVATION_CODE_PUK_DIGIT_COUNT : Z := 8.

Inductive ActivationScheme := ActivationCodeIsPuk | PresetActivationPin.

Definition from_numbering_and_validity_start (numbering : PinReferenceScheme)
  (auth_certificate_validity_start : option Z) : option ActivationScheme :=
  match numbering with
  | Organizational => Some ActivationCodeIsPuk
  | Citizen =>
      match auth_certificate_validity_start with
      | Some not_before =>
          if not_before >=? DVV_PRESET_PIN_CUTOVER_EPOCH_SECONDS
          then Some PresetActivationPin else Some ActivationCodeIsPuk
      | None => None
      end
  end.

Definition activation_entry_digit_count (self : ActivationScheme) : Z :=
  match self with
  | ActivationCodeIsPuk => ACTIVATION_CODE_PUK_DIGIT_COUNT
  | PresetActivationPin => PRESET_ACTIVATION_PIN_DIGIT_COUNT
  end.

Inductive PinChangeRecord := Changed | Unchanged | Unreadable.

Definition pin_awaits_activation (scheme : ActivationScheme) (record : PinChangeRecord)
  (status : PinStatus) : bool :=
  match record with
  | Unchanged => true
  | Changed => false
  | Unreadable =>
      match scheme with
      | PresetActivationPin => false
      | ActivationCodeIsPuk =>
          match status with
          | Locked => true
          | Remaining retries => Status.PinRetries_is_exhausted retries
          | Verified | NoInfo | OtherStatus _ => false
          end
      end
  end.

(** ** Outcomes of management commands (manage.rs) *)

Definition CHANGE_REFERENCE_DATA_INS : Z := 0x24.
Definition CHANGE_P1_CURRENT_THEN_NEW : Z := 0x00.
Definition RESET_RETRY_COUNTER_INS : Z := 0x2C.
Definition RESET_P1_CODE_THEN_NEW : Z := 0x00.
Definition RESET_P1_NEW_ONLY : Z := 0x02.

Inductive ManageOutcome :=
  | ManageOk
  | WrongCredential (retries_left : Status.PinRetries)
  | ManageLocked
  | ManageOther (sw : Status.StatusWord).

Definition classify_manage_sw (sw : Status.StatusWord) : ManageOutcome :=
  match sw with
  | Status.Success => ManageOk
  | Status.PinIncorrect retries => WrongCredential retries
  | Status.AuthenticationBlocked | Status.ReferenceDataInvalidated => ManageLocked
  | other => ManageOther other
  end.

Definition manage_is_ok (o : ManageOutcome) : bool :=
  match o with ManageOk => true | _ => false end.

Record CardActivationNeeds := mkNeeds { needs_pin1 : bool; needs_pin2 : bool }.

Definition needs_any (self : CardActivationNeeds) : bool := needs_pin1 self || needs_pin2 self.

Record ActivationCode := mkActivationCode { code_secret : SecretDigits; code_scheme : ActivationScheme }.

Definition ActivationCode_reconstruct (input : bytes) (scheme : ActivationScheme)
  : option (result CredentialInputError ActivationCode) :=
  let count := activation_entry_digit_count scheme in
  rmap (fun digits => mkActivationCode digits scheme) <$>
    reconstruct input RoleActivationCode count count.

Definition code_digits (self : ActivationCode) : option bytes := secret_bytes (code_secret self).

Definition pin_container_query (ref : Z) : option CommandApdu :=
  match case_4 (mkHeader Plain GET_DATA_INS GET_DATA_P1 GET_DATA_P2)
          [PIN_CONTAINER_TEMPLATE_TAG; PIN_CONTAINER_TEMPLATE_LEN;
           PIN_CONTAINER_REF_TAG; PIN_CONTAINER_REF_LEN; ref] GET_DATA_LE with
  | Ok c => Some c
  | Err _ => None
  end.

(** The first window at which the changed flag's tag and length stand. *)
Fixpoint scan_changed (body : bytes) : PinChangeRecord :=
  match body with
  | hi :: ((lo :: l :: flag :: _) as rest) =>
      if (hi =? PIN_CHANGED_TAG_HIGH) && (lo =? PIN_CHANGED_TAG_LOW) && (l =? PIN_CHANGED_LEN)
      then if flag =? PIN_CHANGED_FLAG_UNCHANGED then Unchanged
           else if flag =? PIN_CHANGED_FLAG_CHANGED then Changed
           else Unreadable
      else scan_changed rest
  | _ => Unreadable
  end.

(** The first seven-byte window that carries the attributes with a counter of
    one nibble. *)
Fixpoint scan_attributes (body : bytes) : PinStatus :=
  match body with
  | hi :: ((lo :: l :: tries :: _ :: _ :: _ :: _) as rest) =>
      if (hi =? PIN_ATTRIBUTES_TAG_HIGH) && (lo =? PIN_ATTRIBUTES_TAG_LOW) && (l =? PIN_ATTRIBUTES_LEN)
      then match Status.PinRetries_from_nibble tries with
           | Some retries => Remaining retries
           | None => scan_attributes rest
           end
      else scan_attributes rest
  | _ => NoInfo
  end.

(** [BerTlvIter::new(v).map_while(Result::ok)]. *)
Fixpoint map_while_ok (items : list (result Ber.BerError Ber.BerTlvAny)) : list Ber.BerTlvAny :=
  match items with
  | Ok r :: rest => r :: map_while_ok rest
  | _ => []
  end.

Definition policy_of_body (body : bytes) : option PasswordLengthRange :=
  match Ber.parse body with
  | Err _ => None
  | Ok template =>
      if negb (Ber.tag template =? PIN_CONTAINER_TEMPLATE_TAG) then None
      else
        items ← Ber.children (Ber.value template);
        policy ← List.find (fun e => Ber.tag e =? PIN_POLICY_TAG) (map_while_ok items);
        let v := Ber.value policy in
        if negb (len v =? PIN_POLICY_LEN) then None
        else
          min ← get v PIN_POLICY_MIN_LENGTH_OFFSET;
          max ← get v PIN_POLICY_MAX_LENGTH_OFFSET;
          let in_specified_range l :=
            (PIN_POLICY_LENGTH_FLOOR <=? l) && (l <=? PIN_POLICY_LENGTH_CEILING) in
          if negb (in_specified_range min) || negb (in_specified_range max) then None
          else PasswordLengthRange_new min max
  end.

Section Manage.
Context {T E : Type} `{CardTransport T E}.

Abbreviation op A := (exec T (fault (AuthError E)) A).

Definition read_pin_policy_lengths (ref : Z) : op (option PasswordLengthRange) :=
  match pin_container_query ref with
  | None => eret None
  | Some apdu =>
      do? response <- respond (transmit apdu) ;;
      if negb (bool_decide (status_word response = Status.Success)) then eret None
      else eret (policy_of_body (body response))
  end.

Definition read_pin_change_record (slot : PinSlot) : op PinChangeRecord :=
  let ref := match slot with Slot1 => PIN1_REFERENCE | Slot2 => PIN2_REFERENCE end in
  match pin_container_query ref with
  | None => eret Unreadable
  | Some apdu =>
      do? response <- respond (transmit apdu) ;;
      if negb (bool_decide (status_word response = Status.Success)) then eret Unreadable
      else eret (scan_changed (body response))
  end.

Definition read_puk_status_from_container : op PinStatus :=
  match pin_container_query PUK_REFERENCE with
  | None => eret NoInfo
  | Some apdu =>
      do? response <- respond (transmit apdu) ;;
      match status_word response with
      | Status.Success => eret (scan_attributes (body response))
      | Status.AuthenticationBlocked | Status.ReferenceDataInvalidated => eret Locked
      | other => eret (OtherStatus other)
      end
  end.

(** ** PIN management (manage.rs) *)

Definition change (scheme : PinReferenceScheme) (slot : PinSlot) (current new : bytes)
  : op ManageOutcome :=
  let header := mkHeader Plain CHANGE_REFERENCE_DATA_INS CHANGE_P1_CURRENT_THEN_NEW
                  (scheme_reference scheme slot) in
  do? status <- credential_exchange scheme header [current; new] ;;
  eret (classify_manage_sw status).

Definition puk_status (scheme : PinReferenceScheme) : op PinStatus :=
  let command := case_1 (mkHeader Plain VERIFY_INS VERIFY_P1 (puk_reference scheme)) in
  do? response <- respond (transmit command) ;;
  let status := classify_pin_status_sw (status_word response) in
  match scheme, status with
  | Citizen, (Remaining _ | Locked) => eret status
  | Citizen, _ => read_puk_status_from_container
  | Organizational, _ => eret status
  end.

Definition verify_puk (scheme : PinReferenceScheme) (puk : bytes) : op ManageOutcome :=
  let header := mkHeader Plain VERIFY_INS VERIFY_P1 (puk_reference scheme) in
  do? status <- credential_exchange scheme header [puk] ;;
  eret (classify_manage_sw status).

Definition reset_new_only (scheme : PinReferenceScheme) (slot : PinSlot) (new : bytes)
  : op ManageOutcome :=
  let header := mkHeader Plain RESET_RETRY_COUNTER_INS RESET_P1_NEW_ONLY
                  (scheme_reference scheme slot) in
  do? status <- credential_exchange scheme header [new] ;;
  eret (classify_manage_sw status).

Definition unblock (scheme : PinReferenceScheme) (slot : PinSlot) (puk new : bytes)
  : op ManageOutcome :=
  do? puk_counter <- puk_status scheme ;;
  do? _ <- elift_raise (map_err RetryFloor (check_retry_floor FlooredPuk puk_counter)) ;;
  match scheme with
  | Citizen =>
      let header := mkHeader Plain RESET_RETRY_COUNTER_INS RESET_P1_CODE_THEN_NEW
                      (scheme_reference scheme slot) in
      do? status <- credential_exchange scheme header [puk; new] ;;
      eret (classify_manage_sw status)
  | Organizational =>
      do? verified <- verify_puk scheme puk ;;
      if negb (manage_is_ok verified) then eret verified
      else reset_new_only scheme slot new
  end.

Record ActivationReading := mkReading {
  reading_needs : CardActivationNeeds; reading_pin1 : PinStatus; reading_pin2 : PinStatus }.

Definition reading_status (self : ActivationReading) (slot : PinSlot) : PinStatus :=
  match slot with Slot1 => reading_pin1 self | Slot2 => reading_pin2 self end.

(** The closure [read] of [read_activation]. *)
Definition read_one (scheme : ActivationScheme) (numbering : PinReferenceScheme) (slot : PinSlot)
  : op (bool * PinStatus) :=
  do? record <- read_pin_change_record slot ;;
  do? status <- pin_status_with_scheme numbering slot ;;
  eret (pin_awaits_activation scheme record status, status).

Definition read_activation (scheme : ActivationScheme) (numbering : PinReferenceScheme)
  : op ActivationReading :=
  do? one <- read_one scheme numbering Slot1 ;;
  do? two <- read_one scheme numbering Slot2 ;;
  eret (mkReading (mkNeeds (fst one) (fst two)) (snd one) (snd two)).

(** [None] when the directory read runs out of fuel. *)
Definition read_card_pin_lengths_with_scheme (fuel : nat) (scheme : PinReferenceScheme) (t : T)
  : option (result (fault (AuthError E)) CardPinLengths * T) :=
  '(read, t) ← read_authentication_objects fuel t;
  match read with
  | Err (Pkcs15.Transport e) => Some (Err (Raised (AuthTransport e)), t)
  | Err (Pkcs15.Outcome o) => Some (Err (Raised (AuthOutcome o)), t)
  | _ =>
      let objects := match read with Ok objects => Some objects | Err _ => None end in
      let policy ref (s : option (fault (AuthError E)) * T) :=
        let '(failure, t) := s in
        match failure, scheme with
        | None, Citizen =>
            match read_pin_policy_lengths ref t with
            | (Ok range, t) => (range, (None, t))
            | (Err error, t) => (None, (Some error, t))
            end
        | _, _ => (None, (failure, t))
        end in
      let '(lengths, (failure, t)) := from_card scheme objects policy (None, t) in
      Some (match failure with Some error => Err error | None => Ok lengths end, t)
  end.

Definition check_length (r : result PinLengthRefusal unit) : op unit :=
  elift_raise (map_err PinLength r).

Definition change_pin1 (lengths : CardPinLengths) (current new : Pin1) : op ManageOutcome :=
  do? _ <- check_length (check_pin1 lengths current) ;;
  do? _ <- check_length (check_pin1 lengths new) ;;
  do? current <- or_panic (Pin1_digits current) ;;
  do? new <- or_panic (Pin1_digits new) ;;
  change (numbering lengths) Slot1 current new.

Definition change_pin2 (lengths : CardPinLengths) (current new : Pin2) : op ManageOutcome :=
  do? _ <- check_length (check_pin2 lengths current) ;;
  do? _ <- check_length (check_pin2 lengths new) ;;
  do? current <- or_panic (Pin2_digits current) ;;
  do? new <- or_panic (Pin2_digits new) ;;
  change (numbering lengths) Slot2 current new.

Definition unblock_pin1 (lengths : CardPinLengths) (puk : Puk) (new : Pin1) : op ManageOutcome :=
  do? _ <- check_length (check_puk lengths puk) ;;
  do? _ <- check_length (check_pin1 lengths new) ;;
  do? puk <- or_panic (Puk_digits puk) ;;
  do? new <- or_panic (Pin1_digits new) ;;
  unblock (numbering lengths) Slot1 puk new.

Definition unblock_pin2 (lengths : CardPinLengths) (puk : Puk) (new : Pin2) : op ManageOutcome :=
  do? _ <- check_length (check_puk lengths puk) ;;
  do? _ <- check_length (check_pin2 lengths new) ;;
  do? puk <- or_panic (Puk_digits puk) ;;
  do? new <- or_panic (Pin2_digits new) ;;
  unblock (numbering lengths) Slot2 puk new.

Definition activation_needs (scheme : ActivationScheme) : op CardActivationNeeds :=
  do? numbering <- resolve_pin_reference_scheme ;;
  do? reading <- read_activation scheme numbering ;;
  eret (reading_needs reading).

Definition probe_puk_status : op PinStatus :=
  do? scheme <- resolve_pin_reference_scheme ;; puk_status scheme.

Record ActivationReport := mkReport {
  report_scheme : ActivationScheme;
  report_pin1 : option ManageOutcome;
  report_pin2 : option ManageOutcome }.

(** The length checks of a new PIN and of the code presented for it. *)
Definition check_entry (lengths : CardPinLengths) (scheme : ActivationScheme) (slot : PinSlot)
  (code_length : Z) (check : result PinLengthRefusal unit) : op unit :=
  let presented_as := match scheme with
                      | PresetActivationPin => Some slot
                      | ActivationCodeIsPuk => None
                      end in
  do? _ <- check_length (check_activation_entry lengths presented_as code_length) ;;
  check_length check.

(** The last-tries gate of the preset scheme, for a PIN that will be changed. *)
Definition gate (scheme : ActivationScheme) (reading : ActivationReading) (slot : PinSlot)
  (changed : bool) : op unit :=
  match scheme with
  | PresetActivationPin =>
      if changed
      then elift_raise (map_err RetryFloor
             (check_last_tries (FlooredCredential_from slot) (reading_status reading slot)))
      else eret tt
  | ActivationCodeIsPuk => eret tt
  end.

Definition activate_slot (scheme : ActivationScheme) (ref_scheme : PinReferenceScheme)
  (slot : PinSlot) (code fresh : bytes) : op ManageOutcome :=
  match scheme with
  | PresetActivationPin => change ref_scheme slot code fresh
  | ActivationCodeIsPuk => unblock ref_scheme slot code fresh
  end.

Definition is_some {A} (o : option A) : bool := match o with Some _ => true | None => false end.

Definition activate_card (lengths : CardPinLengths) (code : ActivationCode)
  (new_pin1 : option Pin1) (new_pin2 : option Pin2) : op ActivationReport :=
  let scheme := code_scheme code in
  do? digits <- or_panic (code_digits code) ;;
  let code_length := len digits in
  do? _ <- match new_pin1 with
           | Some pin => check_entry lengths scheme Slot1 code_length (check_pin1 lengths pin)
           | None => eret tt
           end ;;
  do? _ <- match new_pin2 with
           | Some pin => check_entry lengths scheme Slot2 code_length (check_pin2 lengths pin)
           | None => eret tt
           end ;;
  let ref_scheme := numbering lengths in
  do? reading <- read_activation scheme ref_scheme ;;
  let needs := reading_needs reading in
  do? _ <- gate scheme reading Slot1 (needs_pin1 needs && is_some new_pin1) ;;
  do? _ <- gate scheme reading Slot2 (needs_pin2 needs && is_some new_pin2) ;;
  do? outcome1 <- match needs_pin1 needs, new_pin1 with
                  | true, Some fresh =>
                      do? fresh <- or_panic (Pin1_digits fresh) ;;
                      do? o <- activate_slot scheme ref_scheme Slot1 digits fresh ;;
                      eret (Some o)
                  | _, _ => eret None
                  end ;;
  match outcome1 with
  | Some (WrongCredential _ | ManageLocked | ManageOther _) =>
      eret (mkReport scheme outcome1 None)
  | _ =>
      do? outcome2 <- match needs_pin2 needs, new_pin2 with
                      | true, Some fresh =>
                          do? fresh <- or_panic (Pin2_digits fresh) ;;
                          do? o <- activate_slot scheme ref_scheme Slot2 digits fresh ;;
                          eret (Some o)
                      | _, _ => eret None
                      end ;;
      eret (mkReport scheme outcome1 outcome2)
  end.

Record CredentialHealthReport := mkHealth {
  health_pin1 : PinStatus; health_pin2 : PinStatus; health_puk : PinStatus;
  health_numbering : PinReferenceScheme;
  health_scheme : option ActivationScheme;
  health_needs : option CardActivationNeeds }.

Definition probe_credential_health (auth_certificate_validity_start : option Z)
  : op CredentialHealthReport :=
  do? ref_scheme <- resolve_pin_reference_scheme ;;
  do? pin1 <- pin_status_with_scheme ref_scheme Slot1 ;;
  do? pin2 <- pin_status_with_scheme ref_scheme Slot2 ;;
  do? puk <- puk_status ref_scheme ;;
  let activation_scheme :=
    from_numbering_and_validity_start ref_scheme auth_certificate_validity_start in
  do? needs <- match activation_scheme with
               | Some scheme => do? n <- activation_needs scheme ;; eret (Some n)
               | None => eret None
               end ;;
  eret (mkHealth pin1 pin2 puk ref_scheme activation_scheme needs).

End Manage.

(** ** Lemmas: the credential body *)

(** A stored-length citizen block, or the bare organizational digits. *)
Definition padded (scheme : PinReferenceScheme) (d : bytes) : bytes :=
  match scheme with
  | Citizen => d ++ repeat PIN_PAD_BYTE (Z.to_nat (PIN_STORED_LENGTH - len d))
  | Organizational => d
  end.

Definition credential_body (scheme : PinReferenceScheme) (groups : list bytes) : bytes :=
  concat (padded scheme <$> groups).

Definition credential_wire (scheme : PinReferenceScheme) (h : CommandHeader) (groups : list bytes)
  : bytes :=
  let b := credential_body scheme groups in header_to_bytes h ++ [len b] ++ b.

Definition group_ok (d : bytes) : Prop := 1 <= len d <= PIN_STORED_LENGTH.

Definition zeros (n : Z) : bytes := repeat PIN_PAD_BYTE (Z.to_nat n).

Lemma len_zeros n : 0 <= n -> len (zeros n) = n.
Proof. intros. unfold len, zeros. rewrite repeat_length. lia. Qed.

Lemma zeros_app m n : 0 <= m -> 0 <= n -> zeros (m + n) = zeros m ++ zeros n.
Proof. intros. unfold zeros. rewrite Z2Nat.inj_add by lia. apply repeat_app. Qed.

Lemma drop_zeros m n : 0 <= m <= n -> drop_z (zeros n) m = zeros (n - m).
Proof.
  intros. replace n with (m + (n - m)) at 1 by lia. rewrite zeros_app by lia.
  unfold drop_z. replace (Z.to_nat m) with (length (zeros m)) at 1.
  - apply drop_app_length.
  - unfold zeros. by rewrite repeat_length.
Qed.

Lemma len_padded scheme d : group_ok d ->
  1 <= len (padded scheme d) <= PIN_STORED_LENGTH.
Proof.
  unfold group_ok, PIN_STORED_LENGTH. intros Hd. destruct scheme; cbn [padded]; [|done].
  rewrite len_app. fold (zeros (PIN_STORED_LENGTH - len d)).
  rewrite len_zeros; unfold PIN_STORED_LENGTH; lia.
Qed.

Lemma write_blocks_spec scheme groups pre n :
  Forall group_ok groups -> PIN_STORED_LENGTH * Z.of_nat (length groups) <= n ->
  write_blocks scheme groups (pre ++ zeros n) (len pre)
  = Some (pre ++ credential_body scheme groups ++ zeros (n - len (credential_body scheme groups)),
          len pre + len (credential_body scheme groups)).
Proof.
  unfold PIN_STORED_LENGTH. intros Hg. revert pre n. induction Hg as [|d groups Hd Hg IH]; intros pre n Hn.
  - cbn. by rewrite len_nil, Z.sub_0_r, Z.add_0_r.
  - cbn [length] in Hn. unfold group_ok, PIN_STORED_LENGTH in Hd. cbn [write_blocks].
    unfold PIN_STORED_LENGTH. rewrite (Z.min_l (len d)) by lia.
    replace (take_z d (len d)) with d by (symmetry; apply take_ge; unfold len; lia).
    rewrite copy_after_prefix by (rewrite len_zeros; lia). cbn [mbind option_bind].
    rewrite drop_zeros by lia.
    assert (exists m, (pre ++ d) ++ zeros (n - len d) = (pre ++ padded scheme d) ++ zeros m
      /\ m = n - len (padded scheme d)
      /\ len (padded scheme d) = match scheme with Citizen => 12 | Organizational => len d end)
      as (m & -> & -> & Hp).
    { destruct scheme; cbn [padded]; [|by eexists].
      fold (zeros (PIN_STORED_LENGTH - len d)). unfold PIN_STORED_LENGTH.
      eexists. split_and!; [|done|rewrite len_app, len_zeros; lia].
      rewrite len_app, len_zeros by lia. rewrite <- !app_assoc, <- zeros_app by lia. do 3 f_equal. lia. }
    rewrite <- Hp, <- len_app, IH.
    2:{ pose proof (len_padded scheme d Hd). unfold PIN_STORED_LENGTH in *. lia. }
    unfold credential_body. cbn [fmap list_fmap concat].
    by rewrite !len_app, <- !app_assoc, Z.sub_add_distr, Z.add_assoc.
Qed.

Lemma len_credential_body scheme groups : Forall group_ok groups ->
  Z.of_nat (length groups) <= len (credential_body scheme groups)
  <= PIN_STORED_LENGTH * Z.of_nat (length groups).
Proof.
  unfold credential_body. induction 1 as [|d groups Hd Hg IH]; [by vm_compute|].
  cbn [fmap list_fmap concat length]. rewrite len_app.
  pose proof (len_padded scheme d Hd). unfold PIN_STORED_LENGTH in *. lia.
Qed.

(** What a transmission's outcome is to the caller. *)
Definition response_of {E} (o : result E TransportOutcome) : result (fault (AuthError E)) ResponseApdu :=
  match o with
  | Err e => Err (Raised (AuthTransport e))
  | Ok o => map_err (fun o => Raised (AuthOutcome o)) (into_response o)
  end.

Section Exchange.
Context {T E : Type} `{CardTransport T E}.

Lemma respond_eq (m : exec T E TransportOutcome) t :
  respond m t = let '(o, t') := m t in (response_of o, t').
Proof.
  unfold respond, ebind, emap_err, elift_raise, elift. destruct (m t) as [[o|e] t']; cbn; [|done].
  by destruct (into_response o).
Qed.

(** A credential exchange sends one command and does nothing else. *)
Lemma credential_exchange_eq scheme h groups :
  Forall group_ok groups -> 1 <= Z.of_nat (length groups) <= 2 ->
  exists cmd, expose_wire cmd = Some (credential_wire scheme h groups) /\
    forall t, credential_exchange scheme h groups t
      = let '(o, t') := transmit_credential cmd t in (rmap status_word (response_of o), t').
Proof.
  intros Hg Hn. pose proof (len_credential_body scheme groups Hg) as Hb.
  unfold PIN_STORED_LENGTH in Hb.
  pose proof (write_blocks_spec scheme groups [] CREDENTIAL_BODY_MAX Hg) as Hw.
  unfold PIN_STORED_LENGTH, CREDENTIAL_BODY_MAX in Hw. specialize (Hw ltac:(lia)).
  cbn [app] in Hw. rewrite len_nil, Z.add_0_l in Hw.
  set (b := credential_body scheme groups) in *.
  destruct (credential_from_block h (mkBlock (b ++ zeros (24 - len b)) (len b)))
    as (body & cmd & Hf & Ha & Hx); cbn [block_bytes block_length] in *.
  { rewrite len_app, len_zeros; unfold CREDENTIAL_BODY_MAX; lia. }
  { unfold CREDENTIAL_BODY_MAX. lia. }
  exists cmd. split.
  { rewrite Hx. unfold credential_wire. fold b. do 4 f_equal.
    unfold take_z, len. rewrite Nat2Z.id. apply take_app_length. }
  intros t. unfold credential_exchange, write_credential_blocks.
  cbn [block_bytes]. unfold CREDENTIAL_BODY_MAX. fold (zeros 24).
  unfold ebind at 1, or_panic at 1. rewrite Hw. cbv iota beta.
  unfold block_set_filled. cbn [block_bytes].
  unfold ebind at 1, or_panic at 1. rewrite Hf.
  unfold ebind at 1, elift_raise at 1, elift. cbn [map_err].
  unfold ebind at 1, or_panic at 1. rewrite Ha.
  unfold ebind at 1. rewrite respond_eq.
  destruct (transmit_credential cmd t) as [o t']. by destruct (response_of o).
Qed.

End Exchange.

(** ** Traces of the credential operations *)

Section Traces.
Context {T E : Type} `{CardTransport T E}.

Abbreviation trace := (list (sent E)).
Abbreviation res A := (result (fault (AuthError E)) A).
Abbreviation op A := (exec (T * trace) (fault (AuthError E)) A).

Lemma traces_transmit c :
  traces (fun n r => exists o, n = [SentPlain c o] /\ r = response_of o)
    (respond (transmit c) : op _).
Proof.
  intros [t log]. rewrite respond_eq. cbn. destruct (transmit c t) as [o t']. cbn. eauto.
Qed.

(** The exchange of one credential command with a given wire. *)
Definition one_credential (w : bytes) (n : trace) (r : res Status.StatusWord) : Prop :=
  exists c o, n = [SentCredential c o] /\ expose_wire c = Some w
    /\ r = rmap status_word (response_of o).

Lemma traces_credential scheme h groups :
  Forall group_ok groups -> 1 <= Z.of_nat (length groups) <= 2 ->
  traces (one_credential (credential_wire scheme h groups))
    (credential_exchange scheme h groups : op _).
Proof.
  intros Hg Hn [t log].
  destruct (credential_exchange_eq (T := T * trace) scheme h groups Hg Hn) as (cmd & Hw & ->).
  cbn. destruct (transmit_credential cmd t) as [o t'] eqn:Et. cbn.
  eexists. split; [done|]. by eexists _, _.
Qed.

Lemma plain_only_transmit c : plain_only (respond (transmit c) : op _).
Proof.
  eapply traces_mono; [|apply traces_transmit]. intros n r (o & -> & _). by constructor.
Qed.

End Traces.

#[export] Hint Resolve plain_only_transmit : rust.

(** Discharge [plain_only] of a probe by its structure. *)
Ltac plain :=
  repeat first
    [ progress cbv zeta
    | apply plain_only_transmit
    | apply plain_only_ret
    | apply plain_only_lift
    | apply plain_only_bind; intros
    | match goal with
      | |- plain_only (if ?b then _ else _) => destruct b
      | |- plain_only (match ?x with _ => _ end) => destruct x
      end ].

Section Probes.
Context {T E : Type} `{CardTransport T E}.
Abbreviation op A := (exec (T * list (sent E)) (fault (AuthError E)) A).

Lemma plain_probe scheme slot : plain_only (probe_status_word scheme slot : op _).
Proof. unfold probe_status_word. plain. Qed.

Lemma plain_pin1_status : plain_only (pin1_status_and_scheme : op _).
Proof. unfold pin1_status_and_scheme, probe_status_word. plain. Qed.

Lemma plain_resolve : plain_only (resolve_pin_reference_scheme : op _).
Proof. apply plain_only_bind; [apply plain_pin1_status|]. intros. plain. Qed.

Lemma plain_status_with_scheme scheme slot : plain_only (pin_status_with_scheme scheme slot : op _).
Proof. apply plain_only_bind; [apply plain_probe|]. intros. plain. Qed.

Lemma plain_container : plain_only (read_puk_status_from_container : op _).
Proof. unfold read_puk_status_from_container. plain. Qed.

Lemma plain_change_record slot : plain_only (read_pin_change_record slot : op _).
Proof. unfold read_pin_change_record. plain. Qed.

Lemma plain_puk_status scheme : plain_only (puk_status scheme : op _).
Proof.
  unfold puk_status. apply plain_only_bind; [apply plain_only_transmit|]. intros r.
  destruct scheme; [|plain]. destruct (classify_pin_status_sw _); try plain; apply plain_container.
Qed.

Lemma plain_read_one scheme numbering slot : plain_only (read_one scheme numbering slot : op _).
Proof.
  apply plain_only_bind; [apply plain_change_record|]. intros.
  apply plain_only_bind; [apply plain_status_with_scheme|]. intros. plain.
Qed.

Lemma plain_read_activation scheme numbering : plain_only (read_activation scheme numbering : op _).
Proof.
  apply plain_only_bind; [apply plain_read_one|]. intros.
  apply plain_only_bind; [apply plain_read_one|]. intros. plain.
Qed.

End Probes.

(** Discharge [Forall group_ok] of an explicit list. *)
Ltac groups := repeat (apply List.Forall_cons; [done|]); apply List.Forall_nil.

Section Management.
Context {T E : Type} `{CardTransport T E}.
Abbreviation op A := (exec (T * list (sent E)) (fault (AuthError E)) A).
Abbreviation trace := (list (sent E)).

(** The trace ends with a command of wire [w] that the card confirmed. *)
Definition confirmed (w : bytes) (n : trace) : Prop :=
  exists pre c resp, n = pre ++ [SentCredential c (Ok (Response resp))]
    /\ expose_wire c = Some w /\ status_word resp = Status.Success.

Definition reference_header (ins p1 ref : Z) : CommandHeader := mkHeader Plain ins p1 ref.

(** The command that sets the new value, and the trace of an unblock. *)
Definition reset_wire (scheme : PinReferenceScheme) (slot : PinSlot) (puk new : bytes) : bytes :=
  match scheme with
  | Citizen => credential_wire Citizen (reference_header 0x2C 0x00 (scheme_reference Citizen slot)) [puk; new]
  | Organizational =>
      credential_wire Organizational
        (reference_header 0x2C 0x02 (scheme_reference Organizational slot)) [new]
  end.

Inductive unblock_log (scheme : PinReferenceScheme) (slot : PinSlot) (puk new : bytes) : trace -> Prop :=
  | unblock_nothing n : Forall is_plain n -> unblock_log scheme slot puk new n
  | unblock_citizen n st c o :
      scheme = Citizen -> ran (puk_status scheme : op _) n (Ok st) -> floor_serves FlooredPuk st ->
      expose_wire c = Some (reset_wire scheme slot puk new) ->
      unblock_log scheme slot puk new (n ++ [SentCredential c o])
  | unblock_verify n st c o :
      scheme = Organizational -> ran (puk_status scheme : op _) n (Ok st) -> floor_serves FlooredPuk st ->
      expose_wire c
      = Some (credential_wire scheme (reference_header 0x20 0x00 (puk_reference scheme)) [puk]) ->
      unblock_log scheme slot puk new (n ++ [SentCredential c o])
  | unblock_reset n st c resp c' o :
      scheme = Organizational -> ran (puk_status scheme : op _) n (Ok st) -> floor_serves FlooredPuk st ->
      expose_wire c
      = Some (credential_wire scheme (reference_header 0x20 0x00 (puk_reference scheme)) [puk]) ->
      status_word resp = Status.Success ->
      expose_wire c' = Some (reset_wire scheme slot puk new) ->
      unblock_log scheme slot puk new
        (n ++ [SentCredential c (Ok (Response resp)); SentCredential c' o]).

Lemma floor_ok_serves st : check_retry_floor FlooredPuk st = Ok tt -> floor_serves FlooredPuk st.
Proof.
  destruct st as [|r| | |]; cbn; try done.
  pose proof (from_retries_spec r) as Hr. destruct (from_retries r) as [[]|]; cbn; (done || lia).
Qed.

Lemma response_ok (o : result E TransportOutcome) resp :
  response_of o = Ok resp -> o = Ok (Response resp).
Proof. destruct o as [[]|]; cbn; try done. by intros [= <-]. Qed.

Lemma classify_ok sw : classify_manage_sw sw = ManageOk -> sw = Status.Success.
Proof. by destruct sw. Qed.

(** A management command: one credential, its status classified. *)
Lemma traces_manage scheme h groups :
  Forall group_ok groups -> 1 <= Z.of_nat (length groups) <= 2 ->
  traces (fun n r => exists c o, n = [SentCredential c o]
            /\ expose_wire c = Some (credential_wire scheme h groups)
            /\ r = rmap (fun resp => classify_manage_sw (status_word resp)) (response_of o)
            /\ (r = Ok ManageOk -> confirmed (credential_wire scheme h groups) n))
    (ebind (credential_exchange scheme h groups : op _) (fun status => eret (classify_manage_sw status))).
Proof.
  intros Hg Hn. eapply traces_bind; [by apply traces_credential| |].
  - intros n e (c & o & -> & Hw & Hr). exists c, o. split_and!; [done..| |done].
    destruct (response_of o); [done|]. by injection Hr as ->.
  - intros n sw (c & o & -> & Hw & Hr). eapply traces_mono; [|apply traces_ret].
    intros n' r [-> ->]. rewrite app_nil_r. exists c, o.
    destruct (response_of o) as [resp|] eqn:Eo; [|done]. injection Hr as ->.
    split_and!; [done..|]. intros [= Hc]. apply classify_ok in Hc. apply response_ok in Eo as ->.
    by exists [], c, resp.
Qed.

Lemma unblock_trace scheme slot puk new :
  group_ok puk -> group_ok new ->
  traces (fun n r => unblock_log scheme slot puk new n
            /\ (r = Ok ManageOk -> confirmed (reset_wire scheme slot puk new) n))
    (unblock scheme slot puk new : op _).
Proof.
  intros Hp Hn. unfold unblock.
  eapply traces_bind; [apply traces_ran, plain_puk_status| |].
  { intros n e [Hn' _]. split; [by constructor|done]. }
  intros n st [Hpl Hran]. eapply traces_bind; [apply traces_lift| |].
  { intros n' e [-> _]. cbv beta. rewrite app_nil_r. split; [by constructor|done]. }
  intros n' [] [-> Hfl]. cbn [app].
  assert (floor_serves FlooredPuk st) as Hs.
  { apply floor_ok_serves. destruct (check_retry_floor FlooredPuk st) as [[]|]; done. }
  destruct scheme.
  - eapply traces_mono; [|apply traces_manage; [groups|cbn; lia]].
    intros n' r (c & o & -> & Hw & _ & Hc). split; [by eapply unblock_citizen|].
    intros Hr. destruct (Hc Hr) as (pre & c' & resp & E' & ? & ?).
    exists (n ++ pre), c', resp. rewrite <- app_assoc, <- E'. done.
  - eapply traces_bind; [apply (traces_manage Organizational _ [puk]); [groups|cbn; lia]| |].
    { intros n' e (c & o & -> & Hw & _). split; [by eapply unblock_verify|done]. }
    intros n' v (c & o & -> & Hw & Hr & _).
    destruct (manage_is_ok v) eqn:Hv; cbn [negb].
    + destruct (response_of o) as [resp|] eqn:Eo; [|done]. apply response_ok in Eo as ->.
      injection Hr as ->. assert (status_word resp = Status.Success) as Hsw
        by (apply classify_ok; by destruct (classify_manage_sw (status_word resp))).
      eapply traces_mono; [|apply (traces_manage Organizational _ [new]); [groups|cbn; lia]].
      intros n' r (c' & o' & -> & Hw' & _ & Hc). cbn [app]. split.
      * by eapply unblock_reset.
      * intros Hr. destruct (Hc Hr) as (pre & c2 & resp' & E' & ? & ?).
        exists (n ++ [SentCredential c (Ok (Response resp))] ++ pre), c2, resp'.
        rewrite <- !app_assoc. cbn [app]. rewrite <- E'. done.
    + eapply traces_mono; [|apply traces_ret]. intros n' r [-> ->]. cbn [app].
      split; [by eapply unblock_verify|]. by intros [= ->].
Qed.

(** ** Activation *)

(** What is sent to give a PIN its first value. *)
Definition slot_wire (scheme : ActivationScheme) (num : PinReferenceScheme) (slot : PinSlot)
  (code fresh : bytes) : bytes :=
  match scheme with
  | PresetActivationPin =>
      credential_wire num (reference_header 0x24 0x00 (scheme_reference num slot)) [code; fresh]
  | ActivationCodeIsPuk => reset_wire num slot code fresh
  end.

Definition slot_log (scheme : ActivationScheme) (num : PinReferenceScheme) (slot : PinSlot)
  (code fresh : bytes) (n : trace) : Prop :=
  match scheme with
  | PresetActivationPin =>
      exists c o, n = [SentCredential c o] /\ expose_wire c = Some (slot_wire scheme num slot code fresh)
  | ActivationCodeIsPuk => unblock_log num slot code fresh n
  end.

Lemma activate_slot_trace scheme num slot code fresh :
  group_ok code -> group_ok fresh ->
  traces (fun n r => slot_log scheme num slot code fresh n
            /\ (r = Ok ManageOk -> confirmed (slot_wire scheme num slot code fresh) n))
    (activate_slot scheme num slot code fresh : op _).
Proof.
  intros Hc Hf. destruct scheme; cbn [activate_slot]; [by apply unblock_trace|].
  eapply traces_mono; [|apply traces_manage; [groups|cbn; lia]].
  intros n r (c & o & -> & Hw & _ & Hok). split; [by exists c, o|done].
Qed.

(** When a slot may be served: it awaits activation, a new value was given,
    and under the preset scheme its last tries are not at stake. *)
Definition may_serve (scheme : ActivationScheme) (reading : ActivationReading) (slot : PinSlot) : Prop :=
  match slot with
  | Slot1 => needs_pin1 (reading_needs reading)
  | Slot2 => needs_pin2 (reading_needs reading)
  end = true /\
  (scheme = PresetActivationPin ->
   check_last_tries (FlooredCredential_from slot) (reading_status reading slot) = Ok tt).

(** The part of the log that concerns one slot. *)
Definition slot_part (scheme : ActivationScheme) (num : PinReferenceScheme)
  (reading : ActivationReading) (slot : PinSlot) (code : bytes) (fresh : option bytes) (n : trace) : Prop :=
  n = [] \/ (may_serve scheme reading slot /\
            exists d, fresh = Some d /\ slot_log scheme num slot code d n).

(** The optional step of [activate_card] for one slot. *)
Lemma slot_step_trace {P} (digits : P -> option bytes) scheme num reading slot code
  (need : bool) (new : option P) (d : option bytes) :
  group_ok code ->
  (forall p, new = Some p -> exists x, digits p = Some x /\ d = Some x /\ group_ok x) ->
  (need = true -> new <> None -> may_serve scheme reading slot) ->
  traces (fun n r => slot_part scheme num reading slot code d n
            /\ (r = Ok None -> n = [])
            /\ (r = Ok (Some ManageOk) ->
                exists x, d = Some x /\ confirmed (slot_wire scheme num slot code x) n))
    (match need, new with
     | true, Some fresh =>
         do? fresh <- or_panic (digits fresh) ;;
         do? o <- activate_slot scheme num slot code fresh ;;
         eret (Some o)
     | _, _ => eret None
     end : op _).
Proof.
  intros Hc Hd Hs.
  assert (forall a : option ManageOutcome, a = None ->
    traces (fun n r => slot_part scheme num reading slot code d n /\ (r = Ok None -> n = [])
       /\ (r = Ok (Some ManageOk) -> exists x, d = Some x /\ confirmed (slot_wire scheme num slot code x) n))
     (eret a : op _)) as Hnone.
  { intros a ->. eapply traces_mono; [|apply traces_ret]. intros n r [-> ->]. split; [by left|done]. }
  destruct need; [|by apply Hnone]. destruct new as [p|]; [|by apply Hnone].
  destruct (Hd p eq_refl) as (x & Hx & -> & Hgx). rewrite Hx.
  assert (may_serve scheme reading slot) as Hm by by apply Hs.
  change (ebind (or_panic (Some x)) ?k) with (k x). cbv beta.
  eapply traces_bind; [by apply activate_slot_trace| |].
  - intros n e [Hl _]. split; [right; eauto|done].
  - intros n o [Hl Hok]. eapply traces_mono; [|apply traces_ret]. intros n' r [-> ->].
    cbv beta. rewrite app_nil_r. split_and!; [right; eauto|done|].
    intros [= ->]. exists x. auto.
Qed.

Lemma gate_ok scheme reading slot (changed : bool) :
  traces (fun n r => n = [] /\ (r = Ok tt -> scheme = PresetActivationPin -> changed = true ->
            check_last_tries (FlooredCredential_from slot) (reading_status reading slot) = Ok tt))
    (gate scheme reading slot changed : op _).
Proof.
  destruct scheme; cbn [gate]; [eapply traces_mono; [|apply traces_ret]; intros n r [-> ->]; by split|].
  destruct changed; [|eapply traces_mono; [|apply traces_ret]; intros n r [-> ->]; by split].
  eapply traces_mono; [|apply traces_lift]. intros n r [-> ->]. split; [done|].
  intros Hr _ _. by destruct (check_last_tries _ _) as [[]|].
Qed.

Lemma check_entry_silent lengths scheme slot count check :
  traces (fun n _ => n = []) (check_entry lengths scheme slot count check : op _).
Proof.
  eapply traces_bind; [apply traces_lift|by intros n e [-> _]|].
  intros n [] [-> _]. eapply traces_mono; [|apply traces_lift]. by intros n' r [-> _].
Qed.

Lemma opt_check_silent {P} (new : option P) (k : P -> op unit) :
  (forall p, traces (fun n _ => n = []) (k p)) ->
  traces (fun n _ => n = []) (match new with Some p => k p | None => eret tt end).
Proof.
  intros Hk. destruct new; [apply Hk|]. eapply traces_mono; [|apply traces_ret]. by intros n r [-> _].
Qed.

Definition fresh1 (new_pin1 : option Pin1) : option bytes := new_pin1 ≫= Pin1_digits.
Definition fresh2 (new_pin2 : option Pin2) : option bytes := new_pin2 ≫= Pin2_digits.

(** What an activation may send: nothing but plain commands, or the probes of
    a reading followed by the part of PIN 1 and then that of PIN 2, the second
    only when there was nothing to do for PIN 1 or the card confirmed it. *)
Definition activation_log (lengths : CardPinLengths) (code : ActivationCode)
  (new_pin1 : option Pin1) (new_pin2 : option Pin2) (cd : bytes) (n : trace) : Prop :=
  let scheme := code_scheme code in
  let num := numbering lengths in
  Forall is_plain n \/
  exists probes reading n1 n2, n = probes ++ n1 ++ n2
    /\ ran (read_activation scheme num : op _) probes (Ok reading) /\ Forall is_plain probes
    /\ slot_part scheme num reading Slot1 cd (fresh1 new_pin1) n1
    /\ slot_part scheme num reading Slot2 cd (fresh2 new_pin2) n2
    /\ (n2 = [] \/ n1 = [] \/
        exists d, fresh1 new_pin1 = Some d /\ confirmed (slot_wire scheme num Slot1 cd d) n1).

(** The second PIN's part, once the first is confirmed or was not touched. *)
Lemma second_slot_trace lengths code new_pin1 new_pin2 cd probes reading n1 outcome1 :
  group_ok cd ->
  (forall p, new_pin2 = Some p -> exists d, holds_digits (pin2_secret p) d) ->
  ran (read_activation (code_scheme code) (numbering lengths) : op _) probes (Ok reading) ->
  Forall is_plain probes ->
  slot_part (code_scheme code) (numbering lengths) reading Slot1 cd (fresh1 new_pin1) n1 ->
  (n1 = [] \/ exists d, fresh1 new_pin1 = Some d
     /\ confirmed (slot_wire (code_scheme code) (numbering lengths) Slot1 cd d) n1) ->
  (needs_pin2 (reading_needs reading) = true -> new_pin2 <> None ->
     may_serve (code_scheme code) reading Slot2) ->
  traces (fun n' _ => activation_log lengths code new_pin1 new_pin2 cd (probes ++ n1 ++ n'))
    (do? outcome2 <- match needs_pin2 (reading_needs reading), new_pin2 with
                     | true, Some fresh =>
                         do? fresh <- or_panic (Pin2_digits fresh) ;;
                         do? o <- activate_slot (code_scheme code) (numbering lengths) Slot2 cd fresh ;;
                         eret (Some o)
                     | _, _ => eret None
                     end ;;
     eret (mkReport (code_scheme code) outcome1 outcome2) : op _).
Proof.
  intros Hcl H2 Hran Hp Hs1 Hfirst Hserve. eapply traces_bind.
  { apply (slot_step_trace Pin2_digits _ _ reading Slot2 cd _ _ (fresh2 new_pin2)); [done| |done].
    intros p ->. destruct (H2 p eq_refl) as (d & Hd & _ & Hl). by exists d. }
  - intros n2 e (Hs2 & _ & _). right. exists probes, reading, n1, n2. split_and!; auto.
  - intros n2 o2 (Hs2 & _ & _). eapply traces_mono; [|apply traces_ret]. intros n' r [-> _].
    rewrite app_nil_r. right. exists probes, reading, n1, n2. split_and!; auto.
Qed.

Lemma activation_trace lengths code new_pin1 new_pin2 cd :
  holds_digits (code_secret code) cd ->
  (forall p, new_pin1 = Some p -> exists d, holds_digits (pin1_secret p) d) ->
  (forall p, new_pin2 = Some p -> exists d, holds_digits (pin2_secret p) d) ->
  traces (fun n _ => activation_log lengths code new_pin1 new_pin2 cd n)
    (activate_card lengths code new_pin1 new_pin2 : op _).
Proof.
  intros (Hcd & _ & Hcl) H1 H2. unfold activate_card, code_digits. rewrite Hcd.
  change (ebind (or_panic (Some cd)) ?k) with (k cd). cbv beta zeta.
  eapply traces_bind; [apply opt_check_silent; intros; apply check_entry_silent|intros n e ->; by left; constructor|].
  intros n [] ->.
  eapply traces_bind; [apply opt_check_silent; intros; apply check_entry_silent|intros n e ->; by left; constructor|].
  intros n [] ->. cbn [app].
  eapply traces_bind; [apply traces_ran, plain_read_activation|intros n e [Hn _]; by left|].
  intros probes reading [Hp Hran].
  eapply traces_bind; [apply gate_ok|intros n e [-> _]; left; by rewrite app_nil_r|].
  intros n [] [-> Hg1]. cbn [app].
  eapply traces_bind; [apply gate_ok|intros n e [-> _]; left; by rewrite app_nil_r|].
  intros n [] [-> Hg2]. cbn [app].
  eapply traces_bind.
  { apply (slot_step_trace Pin1_digits _ _ reading Slot1 cd _ _ (fresh1 new_pin1)); [done| |].
    - intros p ->. destruct (H1 p eq_refl) as (d & Hd & _ & Hl). by exists d.
    - intros Hn Hnew. split; [done|]. intros Hpre. apply Hg1; [done..|]. rewrite Hn. by destruct new_pin1. }
  { intros n1 e (Hs1 & _ & _). right. exists probes, reading, n1, [].
    rewrite app_nil_r. split_and!; [done..|by left|by left]. }
  intros n1 outcome1 (Hs1 & Hnone & Hok).
  assert (forall r : ActivationReport, traces (fun n' _ =>
     activation_log lengths code new_pin1 new_pin2 cd (probes ++ n1 ++ n')) (eret r : op _)) as Hret.
  { intros r. eapply traces_mono; [|apply traces_ret]. intros n' r' [-> _]. right.
    exists probes, reading, n1, []. split_and!; [done..|by left|by left]. }
  assert (outcome1 = None \/ outcome1 = Some ManageOk ->
    n1 = [] \/ exists d, fresh1 new_pin1 = Some d
      /\ confirmed (slot_wire (code_scheme code) (numbering lengths) Slot1 cd d) n1) as Hfirst.
  { intros [->| ->]; [left; by apply Hnone|right; by apply Hok]. }
  assert (needs_pin2 (reading_needs reading) = true -> new_pin2 <> None ->
    may_serve (code_scheme code) reading Slot2) as Hserve.
  { intros Hn Hnew. split; [done|]. intros Hpre. apply Hg2; [done..|]. rewrite Hn. by destruct new_pin2. }
  destruct outcome1 as [[]|]; try apply Hret; by apply second_slot_trace; auto.
Qed.

End Management.

Lemma credential_body_one scheme d : credential_body scheme [d] = padded scheme d.
Proof. unfold credential_body. cbn [fmap list_fmap concat]. apply app_nil_r. Qed.

Lemma credential_body_two scheme d e :
  credential_body scheme [d; e] = padded scheme d ++ padded scheme e.
Proof. unfold credential_body. cbn [fmap list_fmap concat]. by rewrite app_nil_r. Qed.

Lemma traces_classified {T E : Type} `{CardTransport T E} {A} scheme ins p1 ref groups
  (k : Status.StatusWord -> A) :
  Forall group_ok groups -> 1 <= Z.of_nat (length groups) <= 2 ->
  let b := credential_body scheme groups in
  traces (fun n r => exists c (o : result E TransportOutcome), n = [SentCredential c o]
            /\ expose_wire c = Some ([0x00; ins; p1; ref; len b] ++ b)
            /\ r = rmap (fun resp => k (status_word resp)) (response_of o))
    (ebind (credential_exchange (T := T * list (sent E)) scheme (mkHeader Plain ins p1 ref) groups)
       (fun status => eret (k status))).
Proof.
  intros Hg Hn b. eapply traces_bind; [by apply traces_credential| |].
  - intros n e (c & o & -> & Hw & Hr). exists c, o. split_and!; [done..|].
    destruct (response_of o); [done|]. by injection Hr as ->.
  - intros n sw (c & o & -> & Hw & Hr). eapply traces_mono; [|apply traces_ret].
    intros n' r [-> ->]. exists c, o. split_and!; [done..|].
    destruct (response_of o); [|done]. by injection Hr as ->.
Qed.

(** ** Lemmas: accepted lengths and numbering *)

(** The lengths a credential admits: the listed range within what can be
    stored, or the specification's bounds when the card lists none. *)
Definition admits (listed : ListedLength) (capacity fallback : PasswordLengthRange) (n : Z) : Prop :=
  match listed with
  | Listed r _ => Z.max (range_min r) (range_min capacity) <= n <= Z.min (range_max r) (range_max capacity)
  | NotListed => range_min fallback <= n <= range_max fallback
  end.

Lemma range_contains_spec r n : range_contains r n = true <-> range_min r <= n <= range_max r.
Proof. unfold range_contains. rewrite Z.geb_leb. lia. Qed.

Lemma lengths_check_spec listed capacity fallback role n :
  1 <= range_min capacity ->
  lengths_check (CredentialLengths_new listed capacity fallback) role n = Ok tt
  <-> admits listed capacity fallback n.
Proof.
  intros Hc. unfold lengths_check, CredentialLengths_new. cbn [accepted].
  assert (forall r, (if range_contains r n then Ok tt else Err (OutsideAcceptedRange role r)) = Ok tt
    <-> range_min r <= n <= range_max r) as Hr.
  { intros r. rewrite <- range_contains_spec. by destruct (range_contains r n). }
  destruct listed as [r src|]; cbn [admits]; [|apply Hr].
  unfold range_intersection. rewrite Z.gtb_ltb.
  replace (if range_min capacity <? range_min r then range_min r else range_min capacity)
    with (Z.max (range_min r) (range_min capacity)) by (case_if; lia).
  replace (if range_max r <? range_max capacity then range_max r else range_max capacity)
    with (Z.min (range_max r) (range_max capacity)) by (case_if; lia).
  rewrite range_new_spec by lia. case_if; [apply Hr|]. split; [done|lia].
Qed.

(** A card that answers every command, for the witnesses: it counts what was
    sent and reports three tries left to the PUK probe, success otherwise. *)
#[export] Instance counting_card : CardTransport Z unit := {
  transmit c := fun n => (Ok (Response (mkResponse [] 0x63 0xC3)), n + 1);
  transmit_credential c := fun n => (Ok (Response (mkResponse [] 0x90 0x00)), n + 1) }.

(** ** Properties *)

(** (functional) Every credential command leaves the host exactly once and
    exactly as FINEID S1 lays it out: VERIFY, CHANGE REFERENCE DATA, the PUK's
    VERIFY and the reset to a new value, each to the reference of its slot
    under the card's numbering, with the digits zero-padded to twelve octets
    on a citizen card and bare on an organizational one; the result is the
    classification of the card's answer, and nothing panics. *)
Theorem credential_commands_on_the_wire {T E : Type} `{CardTransport T E}
  (scheme : PinReferenceScheme) (slot : PinSlot) (d new : bytes) :
  group_ok d -> group_ok new ->
  let ref := scheme_reference scheme slot in
  let sends {A} (w : bytes) (k : Status.StatusWord -> A) n r :=
    exists c (o : result E TransportOutcome), n = [SentCredential c o] /\ expose_wire c = Some w
      /\ r = rmap (fun resp => k (status_word resp)) (response_of o) in
  let p := padded scheme in
  traces (sends ([0x00; 0x20; 0x00; ref; len (p d)] ++ p d) classify_verify_sw)
    (verify_digits (T := T * list (sent E)) scheme slot d) /\
  traces (sends ([0x00; 0x24; 0x00; ref; len (p d ++ p new)] ++ p d ++ p new) classify_manage_sw)
    (change (T := T * list (sent E)) scheme slot d new) /\
  traces (sends ([0x00; 0x20; 0x00; puk_reference scheme; len (p d)] ++ p d) classify_manage_sw)
    (verify_puk (T := T * list (sent E)) scheme d) /\
  traces (sends ([0x00; 0x2C; 0x02; ref; len (p new)] ++ p new) classify_manage_sw)
    (reset_new_only (T := T * list (sent E)) scheme slot new).
Proof.
  intros Hd Hn. cbv zeta.
  rewrite <- !credential_body_two, <- !credential_body_one.
  split_and!; apply traces_classified; (groups || by vm_compute).
Qed.

Lemma credential_commands_on_the_wire_witness :
  exists n, (verify_digits Citizen Slot1 [0x31; 0x32; 0x33; 0x34] (0, @nil (sent unit))).2.2 = n
    /\ length n = 1%nat.
Proof.
  destruct (credential_commands_on_the_wire (E := unit) Citizen Slot1 [0x31; 0x32; 0x33; 0x34]
    [0x31; 0x32; 0x33; 0x34]) as [H _]; [by vm_compute..|].
  destruct (H (0, [])) as (n & Hn & c & o & -> & _). eexists. split; [exact Hn|done].
Defined.

(** (safety) No probe of the card's state presents a credential: reading a
    PIN's or the PUK's counter, the numbering, the activation needs and the
    health report send plain commands only, whatever the card answers. *)
Theorem probes_present_no_credential {T E : Type} `{CardTransport T E}
  (slot : PinSlot) (scheme : ActivationScheme) (start : option Z) :
  plain_only (pin_status slot : exec (T * list (sent E)) _ _) /\
  plain_only (probe_puk_status : exec (T * list (sent E)) _ _) /\
  plain_only (activation_needs scheme : exec (T * list (sent E)) _ _) /\
  plain_only (probe_credential_health start : exec (T * list (sent E)) _ _).
Proof.
  assert (forall s, plain_only (activation_needs s : exec (T * list (sent E)) _ _)) as Hneeds.
  { intros s. apply plain_only_bind; [apply plain_resolve|]. intros.
    apply plain_only_bind; [apply plain_read_activation|]. intros. plain. }
  split_and!.
  - destruct slot.
    + apply plain_only_bind; [apply plain_pin1_status|]. intros. plain.
    + apply plain_only_bind; [apply plain_resolve|]. intros. apply plain_status_with_scheme.
  - apply plain_only_bind; [apply plain_resolve|]. intros. apply plain_puk_status.
  - apply Hneeds.
  - apply plain_only_bind; [apply plain_resolve|]. intros.
    apply plain_only_bind; [apply plain_status_with_scheme|]. intros.
    apply plain_only_bind; [apply plain_status_with_scheme|]. intros.
    apply plain_only_bind; [apply plain_puk_status|]. intros.
    apply plain_only_bind; [|intros; plain].
    destruct (from_numbering_and_validity_start _ _); [|plain].
    apply plain_only_bind; [apply Hneeds|intros; plain].
Qed.




(** A card fresh from the issuer: both PINs unchanged, five tries each. *)
Definition unchanged_card : CardTransport Z unit := {|
  transmit c := fun n =>
    (Ok (Response match as_bytes c with
                  | _ :: 0xCB :: _ => mkResponse [0xDF; 0x2F; 0x01; 0x00] 0x90 0x00
                  | _ => mkResponse [] 0x63 0xC5
                  end), n + 1);
  transmit_credential _ := fun n => (Ok (Response (mkResponse [] 0x90 0x00)), n + 1) |}.

Definition demo_code : ActivationCode :=
  mkActivationCode (mkSecretDigits [0x31; 0x32; 0x33; 0x34; 0x35; 0x36; 0x37; 0; 0; 0; 0; 0] 7) PresetActivationPin.
Definition demo_new_pin1 : Pin1 := mkPin1 (mkSecretDigits [0x31; 0x31; 0x32; 0x32; 0; 0; 0; 0; 0; 0; 0; 0] 4).
Definition demo_new_pin2 : Pin2 :=
  mkPin2 (mkSecretDigits [0x33; 0x33; 0x34; 0x34; 0x35; 0x35; 0; 0; 0; 0; 0; 0] 6).

Definition is_credential {E} (s : sent E) : bool :=
  match s with SentPlain _ _ => false | SentCredential _ _ => true end.


(** (functional) The accepted lengths are decided by the card: a credential
    named by exactly one object of the directory takes that object's range,
    any other takes the PIN policy's, and both are cut to what the fixed
    storage holds; with neither, the specification's bounds apply.  A length
    is accepted exactly when that range admits it, and an accepted length is
    always one a credential command can carry. *)
Theorem accepted_lengths_decided_by_card {S : Type} (num : PinReferenceScheme)
  (objects : option AuthenticationObjects)
  (policy : Z -> S -> option PasswordLengthRange * S) (s : S) (n : Z) :
  let L := (from_card num objects policy s).1 in
  let l1 := listed_length (lengths_pin1 L) in
  let l2 := listed_length (lengths_pin2 L) in
  let l3 := listed_length (lengths_puk L) in
  numbering L = num /\
  (lengths_check (lengths_pin1 L) RolePin1 n = Ok tt <-> admits l1 (mkRange 4 12) (mkRange 4 12) n) /\
  (lengths_check (lengths_pin2 L) RolePin2 n = Ok tt <-> admits l2 (mkRange 4 12) (mkRange 6 12) n) /\
  (lengths_check (lengths_puk L) RolePuk n = Ok tt <-> admits l3 (mkRange 8 12) (mkRange 8 12) n) /\
  (forall c, c ∈ [lengths_pin1 L; lengths_pin2 L; lengths_puk L] ->
     forall role, lengths_check c role n = Ok tt -> 4 <= n <= PIN_STORED_LENGTH) /\
  (forall objs o, objects = Some objs ->
     List.filter (fun x => names (reference x) (scheme_reference num Slot1)) (passwords objs) = [o] ->
     l1 = Listed (Aod.lengths o) AuthenticationObjectDirectory).
Proof.
  cbv zeta. unfold from_card.
  destruct (card_listed objects policy (scheme_reference num Slot1) s) as [a1 s1] eqn:E1.
  destruct (card_listed objects policy (scheme_reference num Slot2) s1) as [a2 s2].
  destruct (card_listed objects policy (puk_reference num) s2) as [a3 s3].
  cbn [fst from_listed lengths_pin1 lengths_pin2 lengths_puk numbering].
  unfold PIN_CAPACITY, PUK_CAPACITY, FINEID_PIN1_BOUNDS, FINEID_PIN2_BOUNDS, FINEID_PUK_BOUNDS, PUK_CAPACITY,
    PIN_MIN_LENGTH, PIN_MAX_LENGTH, PUK_MIN_LENGTH, PUK_MAX_LENGTH, FINEID_PIN1_MIN_LENGTH,
    FINEID_PIN2_MIN_LENGTH, PIN_STORED_LENGTH.
  split_and!; [done|by apply lengths_check_spec..| |].
  - intros c Hc role. rewrite !elem_of_cons, elem_of_nil in Hc.
    destruct Hc as [->|[->|[->|[]]]]; rewrite lengths_check_spec by (cbn; lia);
      [destruct a1|destruct a2|destruct a3]; cbn; lia.
  - intros objs o -> Ho. revert E1. unfold card_listed. cbn [mbind option_bind].
    unfold directory_range. rewrite Ho. by intros [= <- _].
Qed.

Lemma accepted_lengths_decided_by_card_witness :
  listed_length (lengths_pin1 (from_card Citizen
    (Some (mkAuthenticationObjects [mkPasswordObject 0x11 (mkRange 4 8)]))
    (fun _ s => (None, s)) tt).1) = Listed (mkRange 4 8) AuthenticationObjectDirectory.
Proof.
  destruct (accepted_lengths_decided_by_card Citizen
    (Some (mkAuthenticationObjects [mkPasswordObject 0x11 (mkRange 4 8)]))
    (fun _ s => (None, s)) tt 5) as (_ & _ & _ & _ & _ & H).
  exact (H _ (mkPasswordObject 0x11 (mkRange 4 8)) eq_refl eq_refl).
Defined.

(** (functional) The numbering is the citizen one unless the card says it
    does not know the citizen reference and does know the organizational one;
    the probe of PIN 1 then reports the status under the numbering chosen. *)
Theorem numbering_resolution {T E : Type} `{CardTransport T E} (t : T) :
  match pin1_status_and_scheme t with
  | (Ok (Organizational, st), _) =>
      exists t1, probe_status_word Citizen Slot1 t = (Ok Status.ReferenceDataNotFound, t1) /\
      exists sw t2, probe_status_word Organizational Slot1 t1 = (Ok sw, t2)
        /\ st = classify_pin_status_sw sw /\ forall w, st <> OtherStatus w
  | (Ok (Citizen, st), _) =>
      exists sw t1, probe_status_word Citizen Slot1 t = (Ok sw, t1) /\ st = classify_pin_status_sw sw
  | (Err e, _) => e <> Panicked
  end.
Proof.
  assert (forall scheme (t : T), match probe_status_word scheme Slot1 t with
          | (Err e, _) => e <> Panicked | _ => True end) as Hp.
  { intros scheme t0. unfold probe_status_word, ebind. rewrite respond_eq.
    destruct (transmit _ t0) as [[[]|] ?]; done. }
  unfold pin1_status_and_scheme. unfold ebind at 1.
  pose proof (Hp Citizen t) as H1.
  destruct (probe_status_word Citizen Slot1 t) as [[sw|e] t1] eqn:E1; [|done].
  case_bool_decide as Hsw; cbn [negb]; [|by exists sw, t1].
  subst sw. unfold ebind at 1. pose proof (Hp Organizational t1) as H2.
  destruct (probe_status_word Organizational Slot1 t1) as [[sw|e] t2] eqn:E2; [|done].
  destruct (classify_pin_status_sw sw) eqn:Ec; cbn; eauto 10 with congruence.
  all: exists t1; split; [done|]; exists sw, t2; split_and!; [done..|by intros].
Qed.

End Auth.
