(* ===== verification/PaceChannel.v ===== *)
(** * PIN management on a PACE channel (crates/auth/src/pace_channel.rs)

    The two channel traits are classes over [CardTransport]: a channel keeps
    the counter of the credential that opened it and can only lower it.  The
    operations present the credential again only under the retry floor applied
    to that record.  [PukPaceLaws] and [Pin1PaceLaws] state what the traits
    promise of an implementation; the secure-messaging channel discharges them.

    The theorems: what each operation sends, and how many tries of the
    channel's credential any sequence of operations leaves, by the answers
    that were lost on the way: a lost answer does not lower the record. *)

From stdpp Require Import base list.
From Stdlib Require Import ZArith Lia.
From S2P Require Import Prelude ApduStatus ApduCommand ApduIso7816.
From S2P Require Import Pkcs15Aod AuthCredentials CardTrace AuthCard.

Module PaceChannel.
Import Apdu Iso7816 Credentials Aod Trace Auth.

(** The numbering every operation addresses the card under. *)
Definition CHANNEL_NUMBERING : PinReferenceScheme := Organizational.

Inductive ChannelProof (C : Type) :=
  | PaceHandshake
  | PresentAgain (credential : C).
Arguments PaceHandshake {C}.
Arguments PresentAgain {C} _.

Class PukPaceChannel (T E : Type) `{CardTransport T E} := {
  puk_counter : T -> PinStatus;
  lower_puk_counter : ManageOutcome -> T -> T }.

Class Pin1PaceChannel (T E : Type) `{CardTransport T E} := {
  pin1_counter : T -> PinStatus;
  lower_pin1_counter : ManageOutcome -> T -> T }.

Definition lowered_counter (record : PinStatus) (answer : ManageOutcome) : PinStatus :=
  match record, answer with
  | _, ManageOk => record
  | (Locked | NoInfo | OtherStatus _), _ => record
  | _, ManageLocked => Locked
  | _, ManageOther _ => NoInfo
  | _, WrongCredential retries_left =>
      if match record with
         | Remaining held => Status.retries_get held <? Status.retries_get retries_left
         | _ => false
         end then record
      else if Status.PinRetries_is_exhausted retries_left then Locked
      else Remaining retries_left
  end.

(** [self.counter()] and [self.lower(answer)] inside an operation. *)
Definition ereads {S X A} (f : S -> A) : exec S X A := fun s => (Ok (f s), s).
Definition eupdates {S X} (f : S -> S) : exec S X unit := fun s => (Ok tt, f s).

Section Puk.
Context {T E : Type} `{PukPaceChannel T E}.
Abbreviation op A := (exec T (fault (AuthError E)) A).

Definition reset_after_puk_pace (lengths : CardPinLengths) (slot : PinSlot) (new : bytes)
  (proof : ChannelProof Puk) : op ManageOutcome :=
  let scheme := CHANNEL_NUMBERING in
  match proof with
  | PresentAgain puk =>
      do? _ <- check_length (check_puk lengths puk) ;;
      do? counter <- ereads puk_counter ;;
      do? _ <- elift_raise (map_err RetryFloor (check_retry_floor FlooredPuk counter)) ;;
      do? digits <- or_panic (Puk_digits puk) ;;
      do? verified <- verify_puk scheme digits ;;
      do? _ <- eupdates (lower_puk_counter verified) ;;
      if negb (manage_is_ok verified) then eret verified
      else reset_new_only scheme slot new
  | PaceHandshake => reset_new_only scheme slot new
  end.

Definition reset_pin1_after_puk_pace (lengths : CardPinLengths) (new : Pin1)
  (proof : ChannelProof Puk) : op ManageOutcome :=
  do? _ <- check_length (check_pin1 lengths new) ;;
  do? digits <- or_panic (Pin1_digits new) ;;
  reset_after_puk_pace lengths Slot1 digits proof.

Definition reset_pin2_after_puk_pace (lengths : CardPinLengths) (new : Pin2)
  (proof : ChannelProof Puk) : op ManageOutcome :=
  do? _ <- check_length (check_pin2 lengths new) ;;
  do? digits <- or_panic (Pin2_digits new) ;;
  reset_after_puk_pace lengths Slot2 digits proof.

End Puk.

Section PinOne.
Context {T E : Type} `{Pin1PaceChannel T E}.
Abbreviation op A := (exec T (fault (AuthError E)) A).

Definition change_pin1_after_pin1_pace (lengths : CardPinLengths) (new : Pin1)
  (proof : ChannelProof Pin1) : op ManageOutcome :=
  do? _ <- check_length (check_pin1 lengths new) ;;
  let scheme := CHANNEL_NUMBERING in
  match proof with
  | PaceHandshake =>
      do? digits <- or_panic (Pin1_digits new) ;;
      reset_new_only scheme Slot1 digits
  | PresentAgain current =>
      do? _ <- check_length (check_pin1 lengths current) ;;
      do? counter <- ereads pin1_counter ;;
      do? _ <- elift_raise (map_err RetryFloor (check_retry_floor FlooredPin1 counter)) ;;
      do? digits <- or_panic (Pin1_digits current) ;;
      do? fresh <- or_panic (Pin1_digits new) ;;
      do? outcome <- change scheme Slot1 digits fresh ;;
      do? _ <- eupdates (lower_pin1_counter outcome) ;;
      eret outcome
  end.

End PinOne.

(** ** What the traits promise *)

(** Transmissions leave the record, and lowering it is [lowered_counter]. *)
Class PukPaceLaws (T E : Type) `{PukPaceChannel T E} := {
  puk_counter_transmit c t : puk_counter (transmit c t).2 = puk_counter t;
  puk_counter_credential c t : puk_counter (transmit_credential c t).2 = puk_counter t;
  puk_counter_lower a t :
    puk_counter (lower_puk_counter a t) = lowered_counter (puk_counter t) a }.

Class Pin1PaceLaws (T E : Type) `{Pin1PaceChannel T E} := {
  pin1_counter_transmit c t : pin1_counter (transmit c t).2 = pin1_counter t;
  pin1_counter_credential c t : pin1_counter (transmit_credential c t).2 = pin1_counter t;
  pin1_counter_lower a t :
    pin1_counter (lower_pin1_counter a t) = lowered_counter (pin1_counter t) a }.

(** A channel behind a log is a channel. *)
#[export] Instance traced_puk {T E} `{PukPaceChannel T E} : PukPaceChannel (T * list (sent E)) E := {
  puk_counter s := puk_counter s.1;
  lower_puk_counter a s := (lower_puk_counter a s.1, s.2) }.

#[export] Instance traced_pin1 {T E} `{Pin1PaceChannel T E} : Pin1PaceChannel (T * list (sent E)) E := {
  pin1_counter s := pin1_counter s.1;
  lower_pin1_counter a s := (lower_pin1_counter a s.1, s.2) }.

(** A credential command that presents the object [ref] with instruction
    [ins]. *)
Definition presents (ins ref : Z) (c : CredentialCommand) : bool :=
  match expose_wire c with
  | Some (_ :: i :: _ :: r :: _) => (i =? ins) && (r =? ref)
  | _ => false
  end.

(** A card that counts: a presentation answered as wrong spends one try and
    reports what is left, one answered otherwise or lost spends at most one, an
    accepted one none, no other command spends any, and no count is negative. *)
Class HonestCounter {T E : Type} `{CardTransport T E} (tries : T -> Z) (ins ref : Z) := {
  tries_nonneg t : 0 <= tries t;
  other_credential c t : presents ins ref c = false -> tries t <= tries (transmit_credential c t).2;
  presented c t :
    presents ins ref c = true ->
    tries t - 1 <= tries (transmit_credential c t).2 /\
    match (transmit_credential c t).1 with
    | Ok (Response r) =>
        match classify_manage_sw (status_word r) with
        | ManageOk => tries t <= tries (transmit_credential c t).2
        | WrongCredential n => Status.retries_get n = tries (transmit_credential c t).2
        | ManageLocked => tries t = 0
        | ManageOther _ => True
        end
    | _ => True
    end }.

(** ** Lemmas *)

(** How far a record allows presentations: the tries it promises are there. *)
Definition record_covers (record : PinStatus) (tries : Z) : Prop :=
  2 <= tries /\
  match record with
  | Remaining r => 2 <= Status.retries_get r <= tries
  | NoInfo | OtherStatus _ => True
  | Verified | Locked => False
  end.

(** The same when up to [lost] presentations may have been counted without
    the record knowing. *)
Definition covers_but (lost : Z) (record : PinStatus) (tries : Z) : Prop :=
  0 <= tries /\
  (lost < 2 ->
   2 - lost <= tries /\
   match record with
   | Remaining r => 1 <= Status.retries_get r <= tries + lost
   | NoInfo | OtherStatus _ => True
   | Verified | Locked => False
   end).

Lemma record_covers_but record tries : record_covers record tries -> covers_but 0 record tries.
Proof. intros [H2 Hr]. split; [lia|]. intros _. split; [lia|]. destruct record; try done. lia. Qed.

Lemma covers_but_left lost record tries : covers_but lost record tries -> 2 - lost <= tries.
Proof. intros [H0 Hc]. destruct (decide (lost < 2)) as [Hl|]; [apply (Hc Hl)|lia]. Qed.

(** Another presentation may be lost, and a try may be won back. *)
Lemma covers_but_weaken lost lost' record before after :
  covers_but lost record before -> lost <= lost' -> 0 <= after -> before - (lost' - lost) <= after ->
  covers_but lost' record after.
Proof.
  intros [_ Hc] Hl Ha Hb. split; [done|]. intros H2.
  destruct (Hc ltac:(lia)) as [Ht Hr]. split; [lia|]. destruct record; try done. lia.
Qed.

Lemma floor_needs_three c lost record tries :
  covers_but lost record tries -> check_retry_floor c record = Ok tt -> lost < 2 -> 3 <= tries + lost.
Proof.
  intros [_ Hr] Hf Hl. destruct (Hr Hl) as [_ Hr']. destruct record as [|r| | |]; try done; [|by destruct c..].
  pose proof (from_retries_spec r) as Hs.
  destruct c; cbn in Hf; destruct (from_retries r) as [[]|]; cbn in *; (done || lia).
Qed.

(** The record after the answer to a presentation that the floor allowed. *)
Lemma lowered_covers lost record answer before after :
  covers_but lost record before -> (lost < 2 -> 3 <= before + lost) ->
  0 <= lost -> 0 <= after -> before - 1 <= after ->
  match answer with
  | ManageOk => before <= after
  | WrongCredential n => Status.retries_get n = after
  | ManageLocked => before = 0
  | ManageOther _ => True
  end ->
  covers_but lost (lowered_counter record answer) after.
Proof.
  intros [_ Hr] H3 Hl H0 Ha Hm. split; [done|]. intros H2. specialize (H3 H2).
  destruct (Hr H2) as [Hb Hr']. split; [lia|].
  destruct record as [|r| | |]; try done.
  - destruct answer as [|n| |sw]; cbn [lowered_counter]; [lia| |lia|done].
    unfold Status.PinRetries_is_exhausted. case_if; [lia|]. rewrite Hm. if_false. lia.
  - by destruct answer.
  - by destruct answer.
Qed.

(** The record is never raised. *)
Lemma lowered_never_raised r answer :
  match lowered_counter (Remaining r) answer with
  | Remaining r' => Status.retries_get r' <= Status.retries_get r
  | Verified | OtherStatus _ => False
  | Locked | NoInfo => True
  end.
Proof.
  destruct answer as [|n| |sw]; cbn; try done; try lia.
  case_if; [lia|]. case_if; [done|]. lia.
Qed.

Section Steps.
Context {T E : Type} `{CardTransport T E}.

(** A management command, as a run: one transmission, its answer classified. *)
Lemma manage_run scheme h groups :
  Forall group_ok groups -> 1 <= Z.of_nat (length groups) <= 2 ->
  exists cmd, expose_wire cmd = Some (credential_wire scheme h groups) /\
    forall t, ebind (credential_exchange scheme h groups) (fun sw => eret (classify_manage_sw sw)) t
      = let '(o, t') := transmit_credential cmd t in
        (rmap (fun r => classify_manage_sw (status_word r)) (response_of o), t').
Proof.
  intros Hg Hn. destruct (credential_exchange_eq scheme h groups Hg Hn) as (cmd & Hw & Heq).
  exists cmd. split; [done|]. intros t. unfold ebind. rewrite Heq.
  destruct (transmit_credential cmd t) as [o t']. by destruct (response_of o).
Qed.

Lemma presents_wire ins p1 ref ins' ref' c scheme groups :
  expose_wire c = Some (credential_wire scheme (mkHeader Plain ins' p1 ref') groups) ->
  presents ins ref c = (ins' =? ins) && (ref' =? ref).
Proof. intros Hw. unfold presents. by rewrite Hw. Qed.

End Steps.

(** What a run leaves behind, by its result. *)
Definition leaves {S X A} (P : S -> Prop) (m : exec S X A) (Q : result X A -> S -> Prop) : Prop :=
  forall s, P s -> Q (m s).1 (m s).2.

Lemma leaves_bind {S X A B} (P : S -> Prop) (R : A -> S -> Prop) (Q : result X B -> S -> Prop)
  (m : exec S X A) (k : A -> exec S X B) :
  leaves P m (fun r s => match r with Ok a => R a s | Err e => Q (Err e) s end) ->
  (forall a, leaves (R a) (k a) Q) -> leaves P (ebind m k) Q.
Proof.
  intros Hm Hk s Hs. specialize (Hm s Hs). unfold ebind.
  destruct (m s) as [[a|e] s']; [by apply Hk|done].
Qed.

Lemma leaves_lift {S X A} (P : S -> Prop) (r : result X A) (Q : result X A -> S -> Prop) :
  (forall s, P s -> Q r s) -> leaves P (elift r) Q.
Proof. intros HQ s Hs. by apply HQ. Qed.

(** The link to the card failed: the outcome of the last command is unknown. *)
Definition link_failed {E A} (r : result (fault (AuthError E)) A) : bool :=
  match r with Err (Raised (AuthTransport _ | AuthOutcome _)) => true | _ => false end.

Lemma response_of_err {E} (o : result E TransportOutcome) e :
  response_of o = Err e -> link_failed (A := unit) (Err e) = true.
Proof. destruct o as [[]|]; cbn; try done; by intros [= <-]. Qed.

(** The calls made on one channel, in order, whatever each of them answers. *)
Fixpoint run_session {T E : Type} (calls : list (exec T (fault (AuthError E)) ManageOutcome)) (t : T)
  : list (result (fault (AuthError E)) ManageOutcome) * T :=
  match calls with
  | [] => ([], t)
  | call :: rest =>
      let '(r, t) := call t in
      let '(rs, t) := run_session rest t in (r :: rs, t)
  end.

(** How many of them ended without an answer of the card. *)
Definition lost_answers {E A} (rs : list (result (fault (AuthError E)) A)) : Z :=
  foldr (fun r n => Z.b2z (link_failed r) + n) 0 rs.

Section Session.
Context {T E : Type} (I : Z -> T -> Prop) (HI : forall k t, I k t -> I (k + 1) t).

(** A call that keeps [I], counting an answer it lost. *)
Definition keeps (k : Z) (r : result (fault (AuthError E)) ManageOutcome) (t : T) : Prop :=
  I (k + Z.b2z (link_failed r)) t.

Lemma keeps_of_I k r t : I k t -> keeps k r t.
Proof. unfold keeps. destruct (link_failed r); cbn; [apply HI|by rewrite Z.add_0_r]. Qed.

Lemma session_keeps calls k t :
  0 <= k -> Forall (fun call => forall k, 0 <= k -> leaves (I k) call (keeps k)) calls -> I k t ->
  I (k + lost_answers (run_session calls t).1) (run_session calls t).2.
Proof.
  intros Hk Hc. revert k t Hk. induction Hc as [|call calls Hcall _ IH]; intros k t Hk Ht.
  { cbn. by rewrite Z.add_0_r. }
  cbn [run_session]. specialize (Hcall k Hk t Ht). unfold keeps in Hcall.
  destruct (call t) as [r t']. cbn in Hcall.
  assert (0 <= k + Z.b2z (link_failed r)) as Hk' by (destruct (link_failed r); cbn; lia).
  specialize (IH _ t' Hk' Hcall). destruct (run_session calls t') as [rs t'']. cbn in *.
  by rewrite Z.add_assoc.
Qed.

End Session.

Section Credential.
Context {T E : Type} `{CardTransport T E} (tries : T -> Z) (ins ref : Z) `{!HonestCounter tries ins ref}.
Context (record : T -> PinStatus) (lower : ManageOutcome -> T -> T).
Hypothesis record_kept : forall c t, record (transmit_credential c t).2 = record t.
Hypothesis record_lowered : forall a t, record (lower a t) = lowered_counter (record t) a.
Hypothesis tries_kept : forall a t, tries (lower a t) = tries t.

Definition covered (k : Z) (t : T) : Prop := covers_but k (record t) (tries t).

Lemma covered_more k t : covered k t -> covered (k + 1) t.
Proof. intros Hc. eapply covers_but_weaken; [done|lia|apply Hc|lia]. Qed.

(** A command that presents something else leaves the session covered. *)
Lemma other_command_keeps k scheme ins' p1 ref' groups :
  Forall group_ok groups -> 1 <= Z.of_nat (length groups) <= 2 ->
  (ins' =? ins) && (ref' =? ref) = false ->
  leaves (covered k)
    (ebind (credential_exchange scheme (mkHeader Plain ins' p1 ref') groups)
       (fun sw => eret (classify_manage_sw sw))) (keeps (E := E) covered k).
Proof.
  intros Hg Hn Hp t Hc. destruct (manage_run scheme (mkHeader Plain ins' p1 ref') groups Hg Hn)
    as (cmd & Hw & Heq). rewrite Heq.
  assert (presents ins ref cmd = false) as Hpr by (by erewrite presents_wire).
  pose proof (other_credential cmd t Hpr) as Ht. pose proof (record_kept cmd t) as Hk.
  destruct (transmit_credential cmd t) as [o t']. cbn [fst snd] in *.
  apply keeps_of_I; [apply covered_more|]. unfold covered. rewrite Hk.
  eapply covers_but_weaken; [done|lia|apply tries_nonneg|lia].
Qed.

(** A presentation the floor allowed, and the record lowered by its answer. *)
Lemma presentation_keeps k c scheme ins' p1 ref' groups :
  0 <= k -> Forall group_ok groups -> 1 <= Z.of_nat (length groups) <= 2 ->
  (ins' =? ins) && (ref' =? ref) = true ->
  leaves (fun t => covered k t /\ check_retry_floor c (record t) = Ok tt)
    (ebind (credential_exchange scheme (mkHeader Plain ins' p1 ref') groups)
       (fun sw => eret (classify_manage_sw sw)))
    (fun r t => match r with
                | Ok a => covered k (lower a t)
                | Err e => keeps (E := E) covered k (Err e) t
                end).
Proof.
  intros H0 Hg Hn Hp t [Hc Hf]. pose proof (floor_needs_three c _ _ _ Hc Hf) as H3.
  destruct (manage_run scheme (mkHeader Plain ins' p1 ref') groups Hg Hn) as (cmd & Hw & Heq).
  rewrite Heq. assert (presents ins ref cmd = true) as Hpr by (by erewrite presents_wire).
  destruct (presented cmd t Hpr) as [Ht Hm]. pose proof (record_kept cmd t) as Hk.
  destruct (transmit_credential cmd t) as [o t']. cbn [fst snd] in *.
  pose proof (tries_nonneg t') as Hn'.
  destruct (response_of o) as [resp|e] eqn:Eo; cbn [rmap].
  - apply response_ok in Eo as ->. unfold covered. rewrite record_lowered, tries_kept, Hk.
    by eapply lowered_covers.
  - apply response_of_err in Eo. unfold keeps. cbn in Eo |- *. rewrite Eo. unfold covered. rewrite Hk.
    eapply covers_but_weaken; [done|cbn; lia|done|cbn; lia].
Qed.

End Credential.

(** The entries of a call hold digits. *)
Definition proof_holds {C} (secret : C -> SecretDigits) (proof : ChannelProof C) : Prop :=
  match proof with
  | PaceHandshake => True
  | PresentAgain c => exists d, holds_digits (secret c) d
  end.

Inductive PukCall :=
  | CallResetPin1 (lengths : CardPinLengths) (new : Pin1) (proof : ChannelProof Puk)
  | CallResetPin2 (lengths : CardPinLengths) (new : Pin2) (proof : ChannelProof Puk).

Definition puk_call_holds (call : PukCall) : Prop :=
  match call with
  | CallResetPin1 _ new proof =>
      (exists d, holds_digits (pin1_secret new) d) /\ proof_holds puk_secret proof
  | CallResetPin2 _ new proof =>
      (exists d, holds_digits (pin2_secret new) d) /\ proof_holds puk_secret proof
  end.

Definition puk_call {T E} `{PukPaceChannel T E} (call : PukCall)
  : exec T (fault (AuthError E)) ManageOutcome :=
  match call with
  | CallResetPin1 lengths new proof => reset_pin1_after_puk_pace lengths new proof
  | CallResetPin2 lengths new proof => reset_pin2_after_puk_pace lengths new proof
  end.

Inductive Pin1Call := CallChangePin1 (lengths : CardPinLengths) (new : Pin1) (proof : ChannelProof Pin1).

Definition pin1_call_holds (call : Pin1Call) : Prop :=
  let '(CallChangePin1 _ new proof) := call in
  (exists d, holds_digits (pin1_secret new) d) /\ proof_holds pin1_secret proof.

Definition pin1_call {T E} `{Pin1PaceChannel T E} (call : Pin1Call)
  : exec T (fault (AuthError E)) ManageOutcome :=
  let '(CallChangePin1 lengths new proof) := call in change_pin1_after_pin1_pace lengths new proof.

(** Steps that send nothing. *)
Lemma keeps_check {T E A} (I : Z -> T -> Prop) (HI : forall k t, I k t -> I (k + 1) t) k0
  (r : result (AuthError E) A) (k : A -> exec T (fault (AuthError E)) ManageOutcome) :
  (forall a, leaves (I k0) (k a) (keeps I k0)) -> leaves (I k0) (ebind (elift_raise r) k) (keeps I k0).
Proof.
  intros Hk. eapply (leaves_bind _ (fun _ => I k0)); [|done].
  apply leaves_lift. intros t Ht. destruct r as [a|e]; cbn; [auto|by apply keeps_of_I].
Qed.

(** A computation that first reads the counter and passes the floor. *)
Lemma keeps_floor {T E} (I : Z -> T -> Prop) (HI : forall k t, I k t -> I (k + 1) t) k0
  (record : T -> PinStatus) c (k : exec T (fault (AuthError E)) ManageOutcome) :
  leaves (fun t => I k0 t /\ check_retry_floor c (record t) = Ok tt) k (keeps I k0) ->
  leaves (I k0)
    (do? counter <- ereads record ;;
     do? _ <- elift_raise (map_err RetryFloor (check_retry_floor c counter)) ;; k) (keeps I k0).
Proof.
  intros Hk. eapply (leaves_bind _ (fun a t => I k0 t /\ a = record t)); [by intros t Ht|].
  intros a. eapply (leaves_bind _ (fun _ t => I k0 t /\ check_retry_floor c (record t) = Ok tt)).
  - apply leaves_lift. intros t [Ht ->].
    destruct (check_retry_floor c (record t)) as [[]|e]; cbn; [done|by apply keeps_of_I].
  - by intros [].
Qed.

Section PukSession.
Context {T E : Type} `{PukPaceLaws T E} (tries : T -> Z).
Context `{!HonestCounter tries VERIFY_INS PUK_REFERENCE_ORGANIZATIONAL}.
Hypothesis tries_kept : forall a t, tries (lower_puk_counter a t) = tries t.

Abbreviation I := (covered tries puk_counter).

Lemma reset_keeps k lengths slot new proof :
  0 <= k -> group_ok new -> proof_holds puk_secret proof ->
  leaves (I k) (reset_after_puk_pace lengths slot new proof) (keeps I k).
Proof.
  intros Hk0 Hn Hp.
  assert (leaves (I k) (reset_new_only Organizational slot new) (keeps I k)) as Hreset.
  { eapply other_command_keeps; [apply _|apply puk_counter_credential|groups|cbn; lia|by destruct slot]. }
  destruct proof as [|puk]; [done|]. destruct Hp as (d & Hd & _ & Hl).
  unfold reset_after_puk_pace, check_length.
  apply (keeps_check _ (covered_more _ _)). intros _.
  apply (keeps_floor _ (covered_more _ _)). unfold Puk_digits. rewrite Hd.
  change (ebind (or_panic (Some d)) ?k) with (k d). cbv beta.
  eapply (leaves_bind _ (fun a t => I k (lower_puk_counter a t))).
  - eapply presentation_keeps; [apply _|apply puk_counter_credential|apply puk_counter_lower|done|done|
      by groups|cbn; lia|done].
  - intros a. eapply (leaves_bind _ (fun _ => I k)); [by intros t Ht|]. intros _.
    case_if; [|done]. intros t Ht. by apply keeps_of_I; [apply covered_more|].
Qed.

Lemma puk_call_keeps call k :
  puk_call_holds call -> 0 <= k -> leaves (I k) (puk_call call) (keeps I k).
Proof.
  destruct call as [lengths new proof|lengths new proof];
    intros ((d & Hd & _ & Hl) & Hp) Hk0; cbn [puk_call];
    unfold reset_pin1_after_puk_pace, reset_pin2_after_puk_pace, check_length, Pin1_digits, Pin2_digits;
    apply (keeps_check _ (covered_more _ _)); intros _; rewrite Hd;
    change (ebind (or_panic (Some d)) ?k) with (k d); by apply reset_keeps.
Qed.

End PukSession.

Section Pin1Session.
Context {T E : Type} `{Pin1PaceLaws T E} (tries : T -> Z).
Context `{!HonestCounter tries CHANGE_REFERENCE_DATA_INS PIN1_REFERENCE_ORGANIZATIONAL}.
Hypothesis tries_kept : forall a t, tries (lower_pin1_counter a t) = tries t.

Abbreviation I := (covered tries pin1_counter).

Lemma pin1_call_keeps call k :
  pin1_call_holds call -> 0 <= k -> leaves (I k) (pin1_call call) (keeps I k).
Proof.
  destruct call as [lengths new proof]. intros ((d & Hd & _ & Hl) & Hp) Hk0. cbn [pin1_call].
  unfold change_pin1_after_pin1_pace, check_length, Pin1_digits.
  apply (keeps_check _ (covered_more _ _)). intros _. cbv zeta.
  destruct proof as [|current]; rewrite Hd.
  - change (ebind (or_panic (Some d)) ?k) with (k d).
    eapply other_command_keeps; [apply _|apply pin1_counter_credential|groups|cbn; lia|done].
  - destruct Hp as (c & Hc & _ & Hlc). rewrite Hc.
    apply (keeps_check _ (covered_more _ _)). intros _.
    apply (keeps_floor _ (covered_more _ _)).
    change (ebind (or_panic (Some ?a)) ?k) with (k a). cbv beta.
    eapply (leaves_bind _ (fun a t => I k (lower_pin1_counter a t))).
    + eapply presentation_keeps; [apply _|apply pin1_counter_credential|apply pin1_counter_lower|done|done|
        by groups|cbn; lia|done].
    + intros a. eapply (leaves_bind _ (fun _ => I k)); [by intros t Ht|]. intros _ t Ht.
      by apply keeps_of_I; [apply covered_more|].
Qed.

End Pin1Session.

(** What the card answered to a management command. *)
Definition answer {E} (o : result E TransportOutcome) : result (fault (AuthError E)) ManageOutcome :=
  rmap (fun r => classify_manage_sw (status_word r)) (response_of o).

Definition verify_puk_wire (puk : bytes) : bytes :=
  credential_wire Organizational
    (reference_header VERIFY_INS VERIFY_P1 PUK_REFERENCE_ORGANIZATIONAL) [puk].

(** A management command on a logged channel. *)
Lemma logged_manage {T E} `{CardTransport T E} scheme h groups (s : T * list (sent E)) :
  Forall group_ok groups -> 1 <= Z.of_nat (length groups) <= 2 ->
  exists c, expose_wire c = Some (credential_wire scheme h groups) /\
    ebind (credential_exchange scheme h groups) (fun sw => eret (classify_manage_sw sw)) s
    = let '(o, t) := transmit_credential c s.1 in (answer o, (t, s.2 ++ [SentCredential c o])).
Proof.
  intros Hg Hn.
  destruct (manage_run (T := T * list (sent E)) scheme h groups Hg Hn) as (c & Hw & Heq).
  exists c. split; [done|]. rewrite Heq. destruct s as [t l]. cbn.
  by destruct (transmit_credential c t).
Qed.

Lemma logged_reset {T E} `{CardTransport T E} slot new (s : T * list (sent E)) :
  group_ok new ->
  exists c, expose_wire c = Some (reset_wire Organizational slot [] new) /\
    reset_new_only Organizational slot new s
    = let '(o, t) := transmit_credential c s.1 in (answer o, (t, s.2 ++ [SentCredential c o])).
Proof. intros Hn. apply (logged_manage Organizational _ [new]); [by groups|cbn; lia]. Qed.

Lemma logged_verify_puk {T E} `{CardTransport T E} puk (s : T * list (sent E)) :
  group_ok puk ->
  exists c, expose_wire c = Some (verify_puk_wire puk) /\
    verify_puk Organizational puk s
    = let '(o, t) := transmit_credential c s.1 in (answer o, (t, s.2 ++ [SentCredential c o])).
Proof. intros Hn. apply (logged_manage Organizational _ [puk]); [by groups|cbn; lia]. Qed.

(** Presenting the PUK again, step by step. *)
Lemma present_again_run {T E} `{PukPaceChannel T E} lengths slot new puk d (s : T * list (sent E)) :
  Puk_digits puk = Some d ->
  reset_after_puk_pace lengths slot new (PresentAgain puk) s =
  match check_puk lengths puk with
  | Err e => (Err (Raised (PinLength e)), s)
  | Ok _ =>
      match check_retry_floor FlooredPuk (puk_counter s) with
      | Err e => (Err (Raised (RetryFloor e)), s)
      | Ok _ =>
          match verify_puk Organizational d s with
          | (Ok ManageOk, s') =>
              reset_new_only Organizational slot new (lower_puk_counter ManageOk s')
          | (Ok a, s') => (Ok a, lower_puk_counter a s')
          | (Err e, s') => (Err e, s')
          end
      end
  end.
Proof.
  intros Hd. cbn [reset_after_puk_pace]. rewrite Hd.
  unfold check_length, elift_raise, elift, ereads, eupdates, or_panic, ebind.
  destruct (check_puk lengths puk) as [[]|e]; cbn [map_err]; [|done].
  destruct (check_retry_floor FlooredPuk (puk_counter s)) as [[]|e]; cbn [map_err]; [|done].
  unfold CHANNEL_NUMBERING. by destruct (verify_puk Organizational d s) as [[[]|e] s'].
Qed.

(** A card with a PUK channel that refuses every PUK and counts from five;
    the list says of each answer to a presentation whether it is lost on the
    way back. *)
Definition counting_channel : Type := PinStatus * nat * list bool.

#[export] Instance counting_channel_transport : CardTransport counting_channel unit := {
  transmit _ t := (Ok (Response (mkResponse [] 0x90 0x00)), t);
  transmit_credential c t :=
    let '(record, tries, lost) := t in
    if presents VERIFY_INS PUK_REFERENCE_ORGANIZATIONAL c then
      let '(o, tries') :=
        match tries with
        | S n => (Response (mkResponse [] 0x63 (0xC0 + Z.of_nat (Nat.min 4 n))), Nat.min 4 n)
        | O => (Response (mkResponse [] 0x69 0x83), O)
        end in
      (if default false (head lost) then Err tt else Ok o, (record, tries', tail lost))
    else (Ok (Response (mkResponse [] 0x90 0x00)), t) }.

#[export] Instance counting_puk_channel : PukPaceChannel counting_channel unit := {
  puk_counter t := t.1.1;
  lower_puk_counter a t := (lowered_counter t.1.1 a, t.1.2, t.2) }.

#[export] Instance counting_puk_laws : PukPaceLaws counting_channel unit.
Proof.
  split; try done. intros c [[r n] l]. cbn. by case_if; [destruct n|].
Qed.

Definition counting_tries (t : counting_channel) : Z := Z.of_nat (Nat.min 5 t.1.2).

Lemma counting_honest : HonestCounter counting_tries VERIFY_INS PUK_REFERENCE_ORGANIZATIONAL.
Proof.
  split; [intros [[r n] l]; unfold counting_tries; lia|intros c [[r n] l] Hp..];
    unfold counting_tries; cbn; rewrite Hp; cbn -[Nat.min].
  - lia.
  - destruct n as [|n]; cbn -[Nat.min].
    + split; [done|]. by destruct l as [|[] l]; vm_compute.
    + do 5 (destruct n as [|n]; [by destruct l as [|[] l]; vm_compute|]).
      by destruct l as [|[] l]; vm_compute.
Qed.

(** Resetting PIN 1 with a PUK presented again. *)
Definition counting_call : PukCall :=
  CallResetPin1 (not_listed Organizational)
    (mkPin1 (mkSecretDigits (repeat 0x31 6 ++ repeat 0 6) 6))
    (PresentAgain (mkPuk (mkSecretDigits (repeat 0x31 8 ++ repeat 0 4) 8))).

Lemma counting_calls_hold n : Forall puk_call_holds (repeat counting_call n).
Proof.
  apply Forall_forall. intros c Hc. apply list_elem_of_In, repeat_spec in Hc as ->.
  split; [by exists (repeat 0x31 6)|by exists (repeat 0x31 8)].
Qed.

(** ** Properties *)

(** C34 (safety) A reset on a channel the PUK opened, for every card and both
    proofs.  Relying on the handshake it sends the new PIN and nothing else.
    Presenting the PUK again it sends nothing unless the card accepts the
    PUK's length and the retry floor serves the channel's record of its
    counter, which a blocked record passes; then the PUK goes out once, the
    record is lowered by the answer, and only a confirmed PUK lets the reset
    follow. *)
Theorem channel_reset_floored {T E : Type} `{PukPaceLaws T E}
  (lengths : CardPinLengths) (slot : PinSlot) (new : bytes) (proof : ChannelProof Puk)
  (s : T * list (sent E)) :
  group_ok new -> proof_holds puk_secret proof ->
  let '(r, s') := reset_after_puk_pace lengths slot new proof s in
  let resets c := expose_wire c = Some (reset_wire Organizational slot [] new) in
  exists n, s'.2 = s.2 ++ n /\
  match proof with
  | PaceHandshake =>
      exists c o, n = [SentCredential c o] /\ resets c /\ r = answer o
        /\ puk_counter s' = puk_counter s
  | PresentAgain puk =>
      if is_ok (check_puk lengths puk) && is_ok (check_retry_floor FlooredPuk (puk_counter s)) then
        exists d c o, Puk_digits puk = Some d /\ expose_wire c = Some (verify_puk_wire d) /\
        match answer o with
        | Ok ManageOk =>
            exists c' o', n = [SentCredential c o; SentCredential c' o'] /\ resets c' /\ r = answer o'
              /\ puk_counter s' = puk_counter s
        | Ok a => n = [SentCredential c o] /\ r = Ok a
              /\ puk_counter s' = lowered_counter (puk_counter s) a
        | Err e => n = [SentCredential c o] /\ r = Err e /\ puk_counter s' = puk_counter s
        end
      else n = [] /\ s' = s
  end.
Proof.
  intros Hn Hp. destruct proof as [|puk].
  - change (reset_after_puk_pace lengths slot new PaceHandshake s)
      with (reset_new_only Organizational slot new s).
    destruct (logged_reset slot new s Hn) as (c & Hw & ->).
    pose proof (puk_counter_credential c s.1) as Hk.
    destruct (transmit_credential c s.1) as [o t]. cbn [snd] in Hk.
    exists [SentCredential c o]. split; [done|]. by exists c, o.
  - destruct Hp as (d & Hd & _ & Hl). rewrite (present_again_run _ _ _ _ d) by done.
    destruct (check_puk lengths puk) as [[]|e]; cbn [is_ok andb]; [|by exists []; rewrite app_nil_r].
    destruct (check_retry_floor FlooredPuk (puk_counter s)) as [[]|e]; cbn [is_ok];
      [|by exists []; rewrite app_nil_r].
    destruct (logged_verify_puk d s Hl) as (c & Hw & ->).
    pose proof (puk_counter_credential c s.1) as Hk.
    destruct (transmit_credential c s.1) as [o t]. cbn [snd] in Hk.
    destruct (answer o) as [a|e] eqn:Ea.
    2:{ exists [SentCredential c o]. split; [done|]. exists d, c, o. by rewrite Ea. }
    pose proof (puk_counter_lower a t) as Hlow. rewrite Hk in Hlow.
    destruct a; [|exists [SentCredential c o]; split; [done|]; exists d, c, o; by rewrite Ea..].
    destruct (logged_reset slot new (lower_puk_counter ManageOk (t, s.2 ++ [SentCredential c o])) Hn)
      as (c' & Hw' & ->). cbn [fst snd lower_puk_counter traced_puk] in *.
    pose proof (puk_counter_credential c' (lower_puk_counter ManageOk t)) as Hk'.
    destruct (transmit_credential c' (lower_puk_counter ManageOk t)) as [o' t'].
    exists [SentCredential c o; SentCredential c' o']. split; [by rewrite <- app_assoc|].
    exists d, c, o. split_and!; [done..|]. rewrite Ea. exists c', o'. split_and!; [done..|].
    cbn [puk_counter traced_puk fst snd] in *. rewrite Hk', Hlow. by destruct (puk_counter s.1).
Qed.

Lemma channel_reset_floored_witness :
  let s : counting_channel * list (sent unit) := ((Remaining (Status.mkPinRetries 3), 3%nat, []), []) in
  let puk := mkPuk (mkSecretDigits (repeat 0x31 8 ++ repeat 0 4) 8) in
  let '(r, s') := reset_after_puk_pace (not_listed Organizational) Slot1 [0x31; 0x32]
                    (PresentAgain puk) s in
  exists c o, s'.2 = [SentCredential c o] /\ expose_wire c = Some (verify_puk_wire (repeat 0x31 8))
    /\ puk_counter s' = Remaining (Status.mkPinRetries 2).
Proof.
  intros s puk. pose proof (channel_reset_floored (not_listed Organizational) Slot1 [0x31; 0x32]
    (PresentAgain puk) s ltac:(by vm_compute) ltac:(by exists (repeat 0x31 8))) as H.
  destruct (reset_after_puk_pace _ _ _ _ s) as [r s'] eqn:Er.
  assert (puk_counter s' = Remaining (Status.mkPinRetries 2) /\ length s'.2 = 1%nat) as [Hc Hlen]
    by (vm_compute in Er; injection Er as _ <-; by vm_compute).
  destruct H as (n & Hn & Hrest). cbn [is_ok] in Hrest.
  change (is_ok (check_puk (not_listed Organizational) puk)
          && is_ok (check_retry_floor FlooredPuk (puk_counter s))) with true in Hrest. cbv iota in Hrest.
  destruct Hrest as (d & c & o & Hd & Hw & Hans). injection Hd as <-. exists c, o.
  rewrite Hn in Hlen |- *. split_and!; [|done|done].
  destruct (answer o) as [[]|]; [|by destruct Hans as [-> _]..].
  destruct Hans as (c' & o' & -> & _). done.
Defined.



End PaceChannel.
