(* ===== verification/PaceCrypto.v ===== *)
(** * Building blocks of PACE (crates/pace/src/crypto, can.rs, commands.rs,
      crates/auth/src/pace_password.rs)

    AES, CMAC, SHA-256 and the elliptic curves are third-party packages: they
    are the fields of the classes [Symmetric] and [PaceCurve], and what the
    protocol relies on is stated as the classes [SymmetricLaws] and
    [CurveLaws].  The wrappers of the source around them, the send sequence
    counter, the Card Access Number and the two PACE commands are modelled. *)

From stdpp Require Import base list.
From Stdlib Require Import ZArith Lia.
From S2P Require Import Prelude BerTlv ApduCommand AuthCredentials.

Module PaceCrypto.
Import Apdu Credentials.

(** ** Symmetric primitives (crypto/symmetric.rs) *)

Definition AES_BLOCK : Z := 16.
Definition AES_KEY_LEN : Z := 32.
Definition CMAC_TAG_TRUNCATED : Z := 8.
Definition KDF_COUNTER_ENCRYPTION : Z := 1.
Definition KDF_COUNTER_MAC : Z := 2.
Definition KDF_COUNTER_PASSWORD : Z := 3.

(** The packages: CBC over whole blocks, one block of ECB, CMAC, SHA-256. *)
Class Symmetric := {
  cbc_encrypt : bytes -> bytes -> bytes -> bytes;
  cbc_decrypt : bytes -> bytes -> bytes -> bytes;
  ecb_encrypt : bytes -> bytes -> bytes;
  cmac : bytes -> bytes -> bytes;
  sha256 : bytes -> bytes }.

(** What they document: decryption inverts encryption under the same key and
    initialisation vector, sizes are kept, tags and digests have their size,
    and all are bytes. *)
Class SymmetricLaws `{Symmetric} := {
  cbc_inverse k iv p : len p mod AES_BLOCK = 0 -> cbc_decrypt k iv (cbc_encrypt k iv p) = p;
  cbc_encrypt_len k iv p : len p mod AES_BLOCK = 0 -> len (cbc_encrypt k iv p) = len p;
  cbc_decrypt_len k iv c : len c mod AES_BLOCK = 0 -> len (cbc_decrypt k iv c) = len c;
  cbc_encrypt_bytes k iv p : all_bytes p -> all_bytes (cbc_encrypt k iv p);
  cmac_len k m : len (cmac k m) = AES_BLOCK;
  cmac_bytes k m : all_bytes (cmac k m);
  sha256_len m : len (sha256 m) = AES_KEY_LEN }.

Inductive KdfParam := KdfEncryption | KdfMac | KdfPassword.

Definition kdf_counter (self : KdfParam) : Z :=
  match self with
  | KdfEncryption => KDF_COUNTER_ENCRYPTION
  | KdfMac => KDF_COUNTER_MAC
  | KdfPassword => KDF_COUNTER_PASSWORD
  end.

Inductive UnalignedInput := mkUnaligned (unaligned_len : Z).

Section Wrappers.
Context `{Symmetric}.

Definition kdf_aes256 (key_material : bytes) (param : KdfParam) : bytes :=
  sha256 (key_material ++ be_bytes 4 (kdf_counter param)).

Definition aes256_cbc_encrypt_no_padding (key iv plaintext : bytes) : result UnalignedInput bytes :=
  if negb (len plaintext mod AES_BLOCK =? 0) then Err (mkUnaligned (len plaintext))
  else Ok (cbc_encrypt key iv plaintext).

Definition aes256_cbc_decrypt_no_padding (key iv ciphertext : bytes) : result UnalignedInput bytes :=
  if negb (len ciphertext mod AES_BLOCK =? 0) then Err (mkUnaligned (len ciphertext))
  else Ok (cbc_decrypt key iv ciphertext).

Definition aes256_ecb_encrypt_block (key block : bytes) : bytes := ecb_encrypt key block.

Definition aes256_cmac (key message : bytes) : bytes := cmac key message.

Definition aes256_cmac_truncated (key message : bytes) : bytes :=
  take_z (aes256_cmac key message) CMAC_TAG_TRUNCATED.

(** [PacePasswordKey::derive] of the crate that owns the digits. *)
Definition PACE_PASSWORD_KEY_LEN : Z := 32.
Definition PACE_KDF_COUNTER_PASSWORD : Z := 3.
Definition derive (digits : bytes) : bytes := sha256 (digits ++ be_bytes 4 PACE_KDF_COUNTER_PASSWORD).

Definition Pin1_pace_password_key (pin : Pin1) : option bytes := derive <$> Pin1_digits pin.
Definition Pin2_pace_password_key (pin : Pin2) : option bytes := derive <$> Pin2_digits pin.
Definition Puk_pace_password_key (puk : Puk) : option bytes := derive <$> Puk_digits puk.

End Wrappers.

(** ** Curves (crypto/curve.rs) *)

(** The point surface of the source over the curve packages.  The encoding
    and the x-coordinate are [None] for the identity; decoding checks length,
    form, canonicity and the curve equation. *)
Class PaceCurve := {
  point : Type;
  scalar : Type;
  field_size : Z;
  generator : point;
  point_add : point -> point -> point;
  scalar_mul : point -> scalar -> point;
  encode_uncompressed : point -> option bytes;
  decode_uncompressed : bytes -> option point;
  x_coordinate : point -> option bytes;
  point_eqb : point -> point -> bool;
  scalar_zero : scalar;
  scalar_add : scalar -> scalar -> scalar;
  scalar_times : scalar -> scalar -> scalar;
  scalar_from : Z -> scalar;
  nonzero_from_repr : bytes -> option scalar }.

(** What the packages document: decoding inverts encoding, multiplication by
    scalars commutes, equality is decided, an encoding is short. *)
Class CurveLaws (C : PaceCurve) := {
  decode_encode p bs : encode_uncompressed p = Some bs -> decode_uncompressed bs = Some p;
  scalar_mul_comm p a b : scalar_mul (scalar_mul p a) b = scalar_mul (scalar_mul p b) a;
  point_eqb_spec p q : point_eqb p q = true <-> p = q;
  encode_bounds p bs : encode_uncompressed p = Some bs -> all_bytes bs /\ 1 <= len bs <= 200;
  x_of_encodable p bs : encode_uncompressed p = Some bs -> exists x, x_coordinate p = Some x }.

(** ** The send sequence counter (handshake.rs) *)

Definition Ssc_INITIAL : bytes := repeat 0 (Z.to_nat AES_BLOCK).

(** The loop over the bytes from the last: a full byte becomes zero and the
    carry goes on, any other is stepped and the loop returns. *)
Fixpoint step_reversed (rev_bytes : bytes) : bytes :=
  match rev_bytes with
  | [] => []
  | b :: rest => if b =? U8_MAX then 0 :: step_reversed rest else (b + 1) :: rest
  end.

Definition Ssc_increment (ssc : bytes) : bytes := reverse (step_reversed (reverse ssc)).

(** ** The Card Access Number (can.rs) *)

Definition CAN_DIGITS : Z := 6.

Inductive CanError := CanEmpty | CanWrongLength | CanNonDigit.

Record Can := mkCan { can_digits : bytes }.

Definition Can_reconstruct (text : bytes) : result CanError Can :=
  if is_empty text then Err CanEmpty
  else if negb (len text =? CAN_DIGITS) then Err CanWrongLength
  else if existsb (fun b => negb (is_ascii_digit b)) text then Err CanNonDigit
  else Ok (mkCan text).

Definition Can_digit_count (self : Can) : Z := CAN_DIGITS.
Definition password_bytes (self : Can) : bytes := can_digits self.

(** ** The two commands (commands.rs) *)

Definition MSE_INS : Z := 0x22.
Definition MSE_P1_SET_AT : Z := 0xC1.
Definition MSE_P2_AUTH_TEMPLATE : Z := 0xA4.
Definition GA_INS : Z := 0x86.
Definition GA_P1 : Z := 0x00.
Definition GA_P2 : Z := 0x00.
Definition GA_LE_ANY : Z := 0x00.

Definition MseSetAt_into_apdu (data : bytes) : result CommandDataError CommandApdu :=
  case_3 (mkHeader Plain MSE_INS MSE_P1_SET_AT MSE_P2_AUTH_TEMPLATE) data.

Definition GeneralAuthenticate_into_apdu (chain : bool) (payload : bytes)
  : result CommandDataError CommandApdu :=
  case_4 (mkHeader (if chain then ChainedFirst else Plain) GA_INS GA_P1 GA_P2) payload GA_LE_ANY.

(** ** Lemmas *)

Lemma step_reversed_len l : length (step_reversed l) = length l.
Proof. induction l as [|b l IH]; cbn; [done|]. case_if; cbn; by rewrite ?IH. Qed.

Lemma Ssc_increment_len ssc : len (Ssc_increment ssc) = len ssc.
Proof. unfold Ssc_increment, len. by rewrite length_reverse, step_reversed_len, length_reverse. Qed.

Lemma step_reversed_value l :
  all_bytes l ->
  all_bytes (step_reversed l)
  /\ be_value (reverse (step_reversed l)) = (be_value (reverse l) + 1) mod 256 ^ len l.
Proof.
  unfold be_value. induction 1 as [|b l Hb Hl [IHb IHv]]; cbn [step_reversed].
  { split; [constructor|]. by vm_compute. }
  rewrite len_cons, Z.pow_add_r by (pose proof (len_nonneg l); lia).
  assert (all_bytes (reverse l)) as Hr by (unfold all_bytes; by rewrite reverse_Permutation).
  pose proof (be_value_bound (reverse l) Hr) as Hbound. unfold be_value in Hbound.
  replace (len (reverse l)) with (len l) in Hbound by (unfold len; by rewrite length_reverse).
  set (v := be_fold 0 (reverse l)) in *. set (m := 256 ^ len l) in *.
  case_if; rewrite !reverse_cons, !be_fold_app; fold v; cbn [be_fold fold_left]; unfold is_uint, U8_MAX in *.
  - subst b. split; [constructor; [ulia|done]|].
    rewrite IHv. fold v. rewrite !lor_shiftl_byte by (unfold is_uint, U8_MAX; lia).
    replace (v * 256 + 255 + 1) with (256 * (v + 1)) by lia.
    rewrite Z.mul_mod_distr_l by lia. lia.
  - split; [constructor; [ulia|done]|].
    rewrite !lor_shiftl_byte by (unfold is_uint, U8_MAX; lia).
    rewrite Z.mod_small; lia.
Qed.

(** The counter is the block read as a big-endian integer. *)
Lemma Ssc_increment_value ssc :
  all_bytes ssc ->
  all_bytes (Ssc_increment ssc)
  /\ be_value (Ssc_increment ssc) = (be_value ssc + 1) mod 256 ^ len ssc.
Proof.
  intros Hs. unfold Ssc_increment.
  assert (all_bytes (reverse ssc)) as Hr by (unfold all_bytes; by rewrite reverse_Permutation).
  destruct (step_reversed_value _ Hr) as [Hb Hv]. split.
  - unfold all_bytes. by rewrite reverse_Permutation.
  - rewrite Hv, reverse_involutive. do 2 f_equal. unfold len. by rewrite length_reverse.
Qed.

Lemma aligned_encrypt `{Symmetric} k iv p :
  len p mod AES_BLOCK = 0 -> aes256_cbc_encrypt_no_padding k iv p = Ok (cbc_encrypt k iv p).
Proof. intros Hp. unfold aes256_cbc_encrypt_no_padding. by rewrite Hp. Qed.

Lemma aligned_decrypt `{Symmetric} k iv c :
  len c mod AES_BLOCK = 0 -> aes256_cbc_decrypt_no_padding k iv c = Ok (cbc_decrypt k iv c).
Proof. intros Hc. unfold aes256_cbc_decrypt_no_padding. by rewrite Hc. Qed.

Lemma cmac_truncated_len `{SymmetricLaws} k m : len (aes256_cmac_truncated k m) = CMAC_TAG_TRUNCATED.
Proof.
  unfold aes256_cmac_truncated, aes256_cmac. rewrite len_take_z; [done|]. rewrite cmac_len. by vm_compute.
Qed.

Lemma cmac_truncated_bytes `{SymmetricLaws} k m : all_bytes (aes256_cmac_truncated k m).
Proof. apply Forall_take, cmac_bytes. Qed.

(** The key of a credential is derived alike in the two crates. *)
Lemma derive_is_kdf `{Symmetric} digits : derive digits = kdf_aes256 digits KdfPassword.
Proof. reflexivity. Qed.

Lemma Ssc_iterate k ssc :
  all_bytes ssc ->
  all_bytes (Nat.iter k Ssc_increment ssc) /\ len (Nat.iter k Ssc_increment ssc) = len ssc
  /\ be_value (Nat.iter k Ssc_increment ssc) = (be_value ssc + Z.of_nat k) mod 256 ^ len ssc.
Proof.
  intros Hs. pose proof (be_value_bound ssc Hs) as Hb.
  induction k as [|k (IHb & IHl & IHv)].
  - cbn. rewrite Z.add_0_r, Z.mod_small by done. done.
  - change (Nat.iter (S k) Ssc_increment ssc) with (Ssc_increment (Nat.iter k Ssc_increment ssc)).
    destruct (Ssc_increment_value _ IHb) as [Hb' Hv'].
    rewrite Ssc_increment_len, Hv', IHv, IHl, Zplus_mod_idemp_l. split_and!; [done|done|].
    f_equal. lia.
Qed.

(** ** Properties *)

(** (invariant) The send sequence counter never repeats: within the
    2^128 steps of a session no two of them leave the same counter, so no
    initialisation vector and no authentication input is used twice under the
    session keys. *)
Theorem counters_never_repeat (ssc : bytes) (i j : nat) :
  all_bytes ssc -> len ssc = AES_BLOCK -> (i < j)%nat -> Z.of_nat j < 2 ^ 128 ->
  Nat.iter i Ssc_increment ssc <> Nat.iter j Ssc_increment ssc.
Proof.
  intros Hs Hl Hij Hj Heq. apply (f_equal be_value) in Heq.
  destruct (Ssc_iterate i ssc Hs) as (_ & _ & Hi). destruct (Ssc_iterate j ssc Hs) as (_ & _ & Hj').
  rewrite Hi, Hj', Hl in Heq. change (256 ^ AES_BLOCK) with (2 ^ 128) in Heq.
  assert ((Z.of_nat j - Z.of_nat i) mod 2 ^ 128 = 0) as Hz.
  { replace (Z.of_nat j - Z.of_nat i)
      with ((be_value ssc + Z.of_nat j) - (be_value ssc + Z.of_nat i)) by lia.
    rewrite Zminus_mod, Heq, Z.sub_diag. done. }
  rewrite Z.mod_small in Hz; lia.
Qed.

Lemma counters_never_repeat_witness :
  Nat.iter 1 Ssc_increment (repeat 255 16) <> Nat.iter 3 Ssc_increment (repeat 255 16).
Proof. apply counters_never_repeat; [by apply all_bytesb_spec|done|lia|by vm_compute]. Defined.

End PaceCrypto.
