(* ===== verification/PaceCardAccess.v ===== *)
(** * EF.CardAccess and the choice of a PACE suite
      (crates/pace/src/card_access.rs)

    The parser of the file a card publishes its PACE suites in, the choice of
    the suite the handshake runs, the read of the file, and the error type of
    the handshake (handshake.rs) the read shares.

    The theorem: a file that lists security infos parses to exactly the
    implemented suites among them, in order, and the chosen suite is the
    listed generic-mapping suite over the most preferred curve. *)

From stdpp Require Import base list strings.
From Stdlib Require Import ZArith Lia.
From S2P Require Import Prelude BerTlv ApduStatus ApduCommand ApduIso7816.
From S2P Require Import Pkcs15Fs AuthCredentials.

Module CardAccess.
Import Ber Apdu Iso7816 Credentials.

(** ** Data *)

Definition EF_CARD_ACCESS_FID : Z := 0x011C.
Definition PACE_PROTOCOL_OID_LEN : Z := 10.
Definition PACE_ECDH_GM_AES_256_OID : bytes :=
  [0x04; 0x00; 0x7F; 0x00; 0x07; 0x02; 0x02; 0x04; 0x02; 0x04].
Definition PACE_ECDH_IM_AES_256_OID : bytes :=
  [0x04; 0x00; 0x7F; 0x00; 0x07; 0x02; 0x02; 0x04; 0x04; 0x04].
Definition PACE_INFO_VERSION : Z := 2.
Definition PARAMETER_ID_NIST_P256 : Z := 12.
Definition PARAMETER_ID_NIST_P384 : Z := 15.
Definition PARAMETER_ID_BRAINPOOL_P384_R1 : Z := 16.
Definition INTEGER_SIGN_BIT : Z := 0x80.
Definition INTEGER_PAD_OCTET : Z := 0x00.
Definition INTEGER_SIGN_EXTENSION_OCTET : Z := 0xFF.

Inductive PaceMapping := Generic | Integrated.
Inductive PaceDomain := NistP256 | NistP384 | BrainpoolP384r1.

#[export] Instance PaceMapping_eq_dec : EqDecision PaceMapping.
Proof. solve_decision. Defined.
#[export] Instance PaceDomain_eq_dec : EqDecision PaceDomain.
Proof. solve_decision. Defined.

Definition PREFERENCE : list PaceDomain := [NistP384; BrainpoolP384r1; NistP256].

Definition parameter_id (self : PaceDomain) : Z :=
  match self with
  | NistP256 => PARAMETER_ID_NIST_P256
  | NistP384 => PARAMETER_ID_NIST_P384
  | BrainpoolP384r1 => PARAMETER_ID_BRAINPOOL_P384_R1
  end.

Definition from_parameter_id (id : Z) : option PaceDomain :=
  if id =? PARAMETER_ID_NIST_P256 then Some NistP256
  else if id =? PARAMETER_ID_NIST_P384 then Some NistP384
  else if id =? PARAMETER_ID_BRAINPOOL_P384_R1 then Some BrainpoolP384r1
  else None.

Record PaceInfo := mkPaceInfo { mapping : PaceMapping; domain : PaceDomain }.

#[export] Instance PaceInfo_eq_dec : EqDecision PaceInfo.
Proof. solve_decision. Defined.

Definition protocol_oid (self : PaceInfo) : bytes :=
  match mapping self with
  | Generic => PACE_ECDH_GM_AES_256_OID
  | Integrated => PACE_ECDH_IM_AES_256_OID
  end.

Inductive CardAccessError := NotSecurityInfos | MalformedSecurityInfo | MalformedPaceInfo.

(** The listed suites, in the card's order. *)
Record CardAccess := mkCardAccess { pace : list PaceInfo }.

(** The failures of a handshake (handshake.rs). *)
Inductive PaceError (E : Type) :=
  | PaceTransport (e : E)
  | PaceOutcome (o : TransportOutcome)
  | CardAccessRead (e : Pkcs15.Pkcs15Error E)
  | CardAccessParse (e : CardAccessError)
  | NoSupportedSuite
  | PaceRetryFloor (r : RetryFloorRefusal)
  | PasswordDeactivated
  | WrongPinPassword (retries_left : Status.PinRetries)
  | WrongPukPassword (retries_left : Status.PinRetries)
  | PaceBer (e : BerError)
  | Encoding
  | PaceStatus (stage : string) (sw : Status.StatusWord)
  | UnexpectedResponse (what : string)
  | InvalidPoint
  | ReflectedKey
  | AuthMismatch
  | Random.
Arguments PaceTransport {E} _.
Arguments PaceOutcome {E} _.
Arguments CardAccessRead {E} _.
Arguments CardAccessParse {E} _.
Arguments NoSupportedSuite {E}.
Arguments PaceRetryFloor {E} _.
Arguments PasswordDeactivated {E}.
Arguments WrongPinPassword {E} _.
Arguments WrongPukPassword {E} _.
Arguments PaceBer {E} _.
Arguments Encoding {E}.
Arguments PaceStatus {E} _ _.
Arguments UnexpectedResponse {E} _.
Arguments InvalidPoint {E}.
Arguments ReflectedKey {E}.
Arguments AuthMismatch {E}.
Arguments Random {E}.

(** ** The parser *)

(** An INTEGER field: its value when it is one octet, [None] for a negative
    or larger one. *)
Definition small_unsigned (field : BerTlvAny) : result CardAccessError (option Z) :=
  let? integer := map_err (fun _ => MalformedPaceInfo) (expect Integer field) in
  match typed_value integer with
  | [] => Err MalformedPaceInfo
  | [only] => if Z.land only INTEGER_SIGN_BIT =? 0 then Ok (Some only) else Ok None
  | first :: second :: rest =>
      if (first =? INTEGER_PAD_OCTET) && (Z.land second INTEGER_SIGN_BIT =? 0)
      then Err MalformedPaceInfo
      else if (first =? INTEGER_SIGN_EXTENSION_OCTET) && negb (Z.land second INTEGER_SIGN_BIT =? 0)
      then Err MalformedPaceInfo
      else if (first =? INTEGER_PAD_OCTET) && is_empty rest then Ok (Some second)
      else Ok None
  end.

(** A field the iterator yields, as the parser reads it. *)
Definition integer_field (field : result BerError BerTlvAny) : result CardAccessError (option Z) :=
  let? field := map_err (fun _ => MalformedPaceInfo) field in
  small_unsigned field.

(** [fields] is what the iterator yields after the protocol. *)
Definition from_security_info (protocol : bytes) (fields : list (result BerError BerTlvAny))
  : result CardAccessError (option PaceInfo) :=
  let build mapping :=
    match fields with
    | [] => Err MalformedPaceInfo
    | version :: rest =>
        let? version := integer_field version in
        let? parameter_id :=
          match rest with
          | field :: _ => let? id := integer_field field in Ok (Some id)
          | [] => Ok None
          end in
        if negb (is_empty (tail rest)) then Err MalformedPaceInfo
        else if negb (bool_decide (version = Some PACE_INFO_VERSION)) then Ok None
        else match parameter_id with
        | Some (Some id) => Ok ((fun domain => mkPaceInfo mapping domain) <$> from_parameter_id id)
        | _ => Ok None
        end
    end in
  if bool_decide (protocol = PACE_ECDH_GM_AES_256_OID) then build Generic
  else if bool_decide (protocol = PACE_ECDH_IM_AES_256_OID) then build Integrated
  else Ok None.

(** One element of the set. *)
Definition security_info (element : result BerError BerTlvAny)
  : result CardAccessError (option PaceInfo) :=
  let? info := map_err (fun _ => MalformedSecurityInfo) (let? any := element in expect Sequence any) in
  match items (typed_value info) with
  | [] => Err MalformedSecurityInfo
  | protocol :: fields =>
      let? protocol :=
        map_err (fun _ => MalformedSecurityInfo) (let? any := protocol in expect Oid any) in
      from_security_info (typed_value protocol) fields
  end.

(** The loop over the elements, which stops at the first failure. *)
Fixpoint security_infos (elements : list (result BerError BerTlvAny))
  : result CardAccessError (list PaceInfo) :=
  match elements with
  | [] => Ok []
  | element :: rest =>
      let? suite := security_info element in
      let? suites := security_infos rest in
      Ok (option_list suite ++ suites)
  end.

Definition CardAccess_parse (bs : bytes) : result CardAccessError CardAccess :=
  let? set := map_err (fun _ => NotSecurityInfos) (parse_typed SetOf bs) in
  if negb (typed_size set =? len bs) then Err NotSecurityInfos
  else
    let? pace := security_infos (items (typed_value set)) in
    Ok (mkCardAccess pace).

Definition generic_over (d : PaceDomain) (info : PaceInfo) : bool :=
  bool_decide (mapping info = Generic) && bool_decide (domain info = d).

(** [find_map] over the preferences. *)
Fixpoint first_listed (pace : list PaceInfo) (preference : list PaceDomain) : option PaceInfo :=
  match preference with
  | [] => None
  | d :: rest =>
      match List.find (generic_over d) pace with
      | Some info => Some info
      | None => first_listed pace rest
      end
  end.

Definition generic_mapping_suite (self : CardAccess) : option PaceInfo :=
  first_listed (pace self) PREFERENCE.

Section Read.
Context {T E : Type} `{CardTransport T E}.

(** [None] when the read runs out of fuel. *)
Definition read_card_access (fuel : nat) (t : T) : option (result (PaceError E) CardAccess * T) :=
  match Pkcs15.select_ef (FileId_from_u16 EF_CARD_ACCESS_FID) t with
  | (Err e, t) => Some (Err (CardAccessRead e), t)
  | (Ok _, t) =>
      '(read, t) ← Pkcs15.read_binary_der_object fuel "EF.CardAccess" t;
      Some (let? bs := map_err CardAccessRead read in
            map_err CardAccessParse (CardAccess_parse bs), t)
  end.

End Read.

(** ** The specification: a file as its entries *)

(** The minimal DER INTEGER content of an octet value. *)
Definition der_octet (n : Z) : bytes := if n <? 128 then [n] else [0; n].

(** A security info as a card lists it: a PACE one of the two mechanisms the
    crate parses, or one of another protocol. *)
Inductive entry :=
  | PaceEntry (mapping : PaceMapping) (version : Z) (parameter : option Z)
  | OtherEntry (protocol : bytes) (fields : list (Z * bytes)).

Definition entry_records (e : entry) : list (Z * bytes) :=
  match e with
  | PaceEntry m v p =>
      (TAG Oid, protocol_oid (mkPaceInfo m NistP256)) :: (TAG Integer, der_octet v)
      :: option_list ((fun p => (TAG Integer, der_octet p)) <$> p)
  | OtherEntry protocol fields => (TAG Oid, protocol) :: fields
  end.

Definition entry_ok (e : entry) : Prop :=
  match e with
  | PaceEntry _ v p => is_u8 v /\ match p with Some p => is_u8 p | None => True end
  | OtherEntry protocol _ =>
      protocol <> PACE_ECDH_GM_AES_256_OID /\ protocol <> PACE_ECDH_IM_AES_256_OID
  end.

(** The suite an entry names, if the crate implements it. *)
Definition entry_suite (e : entry) : option PaceInfo :=
  match e with
  | PaceEntry m v (Some p) =>
      if v =? PACE_INFO_VERSION then mkPaceInfo m <$> from_parameter_id p else None
  | _ => None
  end.

(** [w] is the encoding of the entry as a SEQUENCE. *)
Definition encodes_entry (w : bytes) (e : entry) : Prop :=
  exists ws, Forall2 (fun f r => encodes f r.1 r.2) ws (entry_records e)
    /\ encodes w (TAG Sequence) (concat ws).

(** [file] is the SET of the entries. *)
Definition encodes_file (file : bytes) (entries : list entry) : Prop :=
  exists ws, Forall2 encodes_entry ws entries /\ encodes file (TAG SetOf) (concat ws).

(** ** Lemmas *)

Lemma sign_bit n : is_u8 n -> (Z.land n INTEGER_SIGN_BIT =? 0) = (n <? 128).
Proof.
  intros Hn.
  assert (forallb (fun m => Bool.eqb (Z.land m INTEGER_SIGN_BIT =? 0) (m <? 128)) (seqZ 0 256) = true)
    as Hall by by vm_compute.
  rewrite forallb_forall in Hall. apply eqb_prop, Hall, list_elem_of_In, elem_of_seqZ. ulia.
Qed.

Lemma small_unsigned_octet n s :
  is_u8 n -> small_unsigned (mkBerTlvAny (TAG Integer) (der_octet n) s) = Ok (Some n).
Proof.
  intros Hn. unfold small_unsigned, expect, der_octet. cbn [tag value]. rewrite Z.eqb_refl.
  cbn [negb map_err rbind typed_value]. destruct (n <? 128) eqn:E.
  - by rewrite sign_bit, E.
  - rewrite sign_bit by done. rewrite E. cbn. done.
Qed.

(** The parser on the items of a PACE entry. *)
Lemma from_security_info_pace m v p s1 s2 :
  is_u8 v -> match p with Some p => is_u8 p | None => True end ->
  from_security_info (protocol_oid (mkPaceInfo m NistP256))
    (Ok (mkBerTlvAny (TAG Integer) (der_octet v) s1)
     :: option_list ((fun p => Ok (mkBerTlvAny (TAG Integer) (der_octet p) s2)) <$> p))
  = Ok (entry_suite (PaceEntry m v p)).
Proof.
  intros Hv Hp. unfold from_security_info, entry_suite.
  assert (PACE_ECDH_IM_AES_256_OID <> PACE_ECDH_GM_AES_256_OID) as Hne by done.
  destruct m; cbn [protocol_oid mapping]; rewrite ?(bool_decide_eq_false_2 _ Hne);
    rewrite (bool_decide_eq_true_2 _ (eq_refl _)).
  all: unfold integer_field; cbn [map_err rbind]; rewrite small_unsigned_octet by done.
  all: destruct p as [p|]; cbn -[small_unsigned from_parameter_id PACE_INFO_VERSION TAG der_octet Z.eqb].
  all: rewrite ?small_unsigned_octet by done; cbn [rbind is_empty negb].
  all: destruct (v =? PACE_INFO_VERSION) eqn:E; to_prop; rewrite ?bool_decide_eq_true_2 by congruence;
    rewrite ?bool_decide_eq_false_2 by congruence; done.
Qed.

Lemma security_info_entry ws e n :
  Forall2 (fun f r => encodes f r.1 r.2) ws (entry_records e) -> entry_ok e ->
  security_info (Ok (mkBerTlvAny (TAG Sequence) (concat ws) n)) = Ok (entry_suite e).
Proof.
  intros Hw He. unfold security_info, expect. cbn [rbind tag value]. rewrite Z.eqb_refl.
  cbn [negb map_err rbind typed_value]. rewrite (items_records _ _ Hw).
  destruct e as [m v p|protocol fields]; cbn [entry_records] in *.
  - apply Forall2_cons_inv_r in Hw as (w1 & ws1 & _ & Hw & ->).
    apply Forall2_cons_inv_r in Hw as (w2 & ws2 & _ & Hw & ->). cbn [zip_with rbind tag value].
    rewrite Z.eqb_refl. cbn [negb map_err rbind typed_value]. destruct He as [Hv Hp].
    destruct p as [p|]; cbn in Hw |- *.
    + apply Forall2_cons_inv_r in Hw as (w3 & ws3 & _ & Hw & ->). apply Forall2_nil_inv_r in Hw as ->.
      by apply (from_security_info_pace m v (Some p) (len w2) (len w3)).
    + apply Forall2_nil_inv_r in Hw as ->. by apply (from_security_info_pace m v None (len w2) 0).
  - apply Forall2_cons_inv_r in Hw as (w1 & ws1 & _ & Hw & ->). cbn [zip_with rbind tag value].
    rewrite Z.eqb_refl. cbn [negb map_err rbind typed_value]. destruct He as [H1 H2].
    unfold from_security_info. by rewrite !bool_decide_eq_false_2.
Qed.

Lemma security_infos_entries ws entries :
  Forall2 encodes_entry ws entries -> Forall entry_ok entries ->
  exists rs, Forall2 (fun w r => encodes w r.1 r.2) ws rs
    /\ security_infos (zip_with (fun w r => Ok (mkBerTlvAny r.1 r.2 (len w))) ws rs)
       = Ok (omap entry_suite entries).
Proof.
  induction 1 as [|w e ws entries (fs & Hf & Hw) H IH]; intros He.
  { by exists []. }
  apply Forall_cons in He as [He Hall]. destruct (IH Hall) as (rs & Hrs & Hpar).
  exists ((TAG Sequence, concat fs) :: rs). split; [by constructor|].
  cbn [zip_with security_infos fst snd]. rewrite (security_info_entry fs e _ Hf He). cbn [rbind].
  rewrite Hpar. cbn [rbind omap list_omap]. by destruct (entry_suite e).
Qed.

Lemma parse_file file entries :
  encodes_file file entries -> Forall entry_ok entries ->
  CardAccess_parse file = Ok (mkCardAccess (omap entry_suite entries)).
Proof.
  intros (ws & Hws & Hf) He. destruct (security_infos_entries ws entries Hws He) as (rs & Hrs & Hpar).
  destruct (encodes_parse file (TAG SetOf) (concat ws) [] Hf) as [Hp _]. rewrite app_nil_r in Hp.
  unfold CardAccess_parse, parse_typed. rewrite Hp. unfold expect. cbn [rbind tag value size].
  rewrite Z.eqb_refl. cbn [negb map_err rbind typed_value typed_size]. rewrite Z.eqb_refl. cbn [negb].
  by rewrite (items_records _ _ Hrs), Hpar.
Qed.

Definition rank (d : PaceDomain) : Z :=
  match d with NistP384 => 0 | BrainpoolP384r1 => 1 | NistP256 => 2 end.

(** The best generic suite of a list. *)
Definition best_generic (pace : list PaceInfo) (info : PaceInfo) : Prop :=
  info ∈ pace /\ mapping info = Generic
  /\ forall other, other ∈ pace -> mapping other = Generic -> rank (domain info) <= rank (domain other).

Lemma find_generic d pace :
  match List.find (generic_over d) pace with
  | Some info => info = mkPaceInfo Generic d /\ info ∈ pace
  | None => mkPaceInfo Generic d ∉ pace
  end.
Proof.
  destruct (List.find _ _) as [[m d']|] eqn:E.
  - apply find_some in E as [Hin Hg]. unfold generic_over in Hg. cbn in Hg.
    apply andb_prop in Hg as [->%bool_decide_eq_true_1 ->%bool_decide_eq_true_1].
    split; [done|]. by apply list_elem_of_In.
  - intros Hin. apply list_elem_of_In in Hin. pose proof (find_none _ _ E _ Hin) as Hn.
    unfold generic_over in Hn. cbn in Hn. by rewrite !bool_decide_eq_true_2 in Hn.
Qed.

Lemma choice_spec self :
  match generic_mapping_suite self with
  | Some info => best_generic (pace self) info
  | None => forall info, info ∈ pace self -> mapping info = Integrated
  end.
Proof.
  unfold generic_mapping_suite, PREFERENCE. cbn [first_listed].
  pose proof (find_generic NistP384 (pace self)) as H1.
  pose proof (find_generic BrainpoolP384r1 (pace self)) as H2.
  pose proof (find_generic NistP256 (pace self)) as H3.
  destruct (List.find (generic_over NistP384) _) as [info|];
    [|destruct (List.find (generic_over BrainpoolP384r1) _) as [info|];
      [|destruct (List.find (generic_over NistP256) _) as [info|]]].
  1-3: destruct_and!; subst info; split_and!; [done|done|];
    intros [m d] Hin Hm; cbn in Hm; subst m; destruct d; cbn; lia || done.
  intros [m d] Hin. cbn. destruct m; [|done]. by destruct d.
Qed.

(** ** Properties *)

(** (functional) A well-formed EF.CardAccess parses to exactly the suites
    it lists that the crate implements, in order: a PACE entry of either
    mechanism of version 2 over one of the three curves; entries of other
    protocols, versions or curves are skipped.  The handshake then runs a
    generic-mapping suite the card listed, over the most preferred of the
    listed curves, and refuses a card that lists none. *)
Theorem card_access_suite_choice (file : bytes) (entries : list entry) :
  encodes_file file entries -> Forall entry_ok entries ->
  CardAccess_parse file = Ok (mkCardAccess (omap entry_suite entries))
  /\ match generic_mapping_suite (mkCardAccess (omap entry_suite entries)) with
     | Some info => best_generic (omap entry_suite entries) info
     | None => forall info, info ∈ omap entry_suite entries -> mapping info = Integrated
     end.
Proof. intros Hf He. split; [by apply parse_file|apply (choice_spec (mkCardAccess _))]. Qed.

(** The organizational card's file: both mappings over P-256 and P-384. *)
Definition sample_file : bytes :=
  [0x31; 0x28]
  ++ [0x30; 0x12; 0x06; 0x0A] ++ PACE_ECDH_GM_AES_256_OID ++ [0x02; 0x01; 0x02; 0x02; 0x01; 12]
  ++ [0x30; 0x12; 0x06; 0x0A] ++ PACE_ECDH_GM_AES_256_OID ++ [0x02; 0x01; 0x02; 0x02; 0x01; 15].

Lemma card_access_suite_choice_witness :
  CardAccess_parse sample_file = Ok (mkCardAccess [mkPaceInfo Generic NistP256; mkPaceInfo Generic NistP384])
  /\ best_generic [mkPaceInfo Generic NistP256; mkPaceInfo Generic NistP384] (mkPaceInfo Generic NistP384).
Proof.
  set (e1 := PaceEntry Generic 2 (Some 12)). set (e2 := PaceEntry Generic 2 (Some 15)).
  set (fields p := [[0x06; 0x0A] ++ PACE_ECDH_GM_AES_256_OID; [0x02; 0x01; 0x02]; [0x02; 0x01; p]]).
  set (w p := [0x30; 0x12] ++ concat (fields p)).
  assert (tag1_ok (TAG Sequence) /\ tag1_ok (TAG SetOf) /\ tag1_ok (TAG Oid) /\ tag1_ok (TAG Integer))
    as (Hs & Hset & Ho & Hi) by (by split_and!; vm_compute).
  assert (encodes_entry (w 12) e1) as He1.
  { exists (fields 12). split; [|left; by split].
    do 3 (constructor; [left; by split|]). constructor. }
  assert (encodes_entry (w 15) e2) as He2.
  { exists (fields 15). split; [|left; by split].
    do 3 (constructor; [left; by split|]). constructor. }
  destruct (card_access_suite_choice sample_file [e1; e2]) as [H1 H2]; [| |by split].
  - exists [w 12; w 15]. split; [|left; by split].
    constructor; [done|]. constructor; [done|constructor].
  - apply Forall_cons; split; [by vm_compute|]. apply Forall_cons; split; [by vm_compute|apply Forall_nil_2].
Defined.

End CardAccess.
