(* ===== verification/PaceSm.v ===== *)
(** * Secure messaging (crates/pace/src/secure_messaging.rs)

    The channel over the session keys of PACE: wrapping of commands, the
    authentication and decryption of responses, the send sequence counter, the
    two-part READ BINARY, and the channel as a card transport, so that every
    operation proved against [CardTransport] runs on it.

    The theorems: against a card that runs the other end of the protocol the
    channel is transparent; a response is only accepted with a valid tag over
    the counter of its exchange; the counter steps as specified; a fragmented
    read at a direct offset returns what the single read would. *)

From stdpp Require Import base list strings.
From Stdlib Require Import ZArith Lia.
From S2P Require Import Prelude BerTlv ApduStatus ApduCommand ApduIso7816.
From S2P Require Import Pkcs15Fs AuthCredentials CardTrace AuthCard PaceChannel PaceCrypto.

Module Sm.
Import Apdu Iso7816 Credentials Trace Auth PaceChannel PaceCrypto.

(** ** Constants *)

Definition TAG_CRYPTOGRAM : Z := 0x87.
Definition TAG_CRYPTOGRAM_ODD : Z := 0x85.
Definition INS_ODD_MASK : Z := 0x01.
Definition TAG_PROTECTED_LE : Z := 0x97.
Definition TAG_PROTECTED_STATUS : Z := 0x99.
Definition TAG_MAC : Z := 0x8E.
Definition PADDING_INDICATOR : Z := 0x01.
Definition PAD_MARKER : Z := 0x80.
Definition PAD_FILLER : Z := 0x00.
Definition SM_LE_ANY : Z := 0x00.
Definition SM_READ_BINARY_MAX_LE : Z := 0xDF.
Definition P1_SFI_FORM_FLAG : Z := 0x80.
Definition P1_SFI_OFFSET_HIGH_MASK : Z := 0x07.
Definition LE_ALL_BYTES : Z := 256.
Definition DIRECT_OFFSET_MAX : Z := 0x7FFF.
Definition SFI_OFFSET_MAX : Z := 0x07FF.
Definition HEADER_LEN : Z := 4.
Definition STATUS_LEN : Z := 2.
Definition MAC_LEN : Z := 8.

(** ** The session and the proof of its password (handshake.rs) *)

Record SessionKeys := mkSessionKeys { session_enc : bytes; session_mac : bytes; session_ssc : bytes }.
Record PaceSession (O : Type) := mkPaceSession { session_keys : SessionKeys; session_opened_by : O }.
Arguments mkPaceSession {O} _ _.
Arguments session_keys {O} _.
Arguments session_opened_by {O} _.

Inductive OpenedByCan := mkOpenedByCan.
Record OpenedByPin1 := mkOpenedByPin1 { pin1_record : PinStatus }.
Record OpenedByPuk := mkOpenedByPuk { puk_record : PinStatus }.
Record OpenedByPin2 := mkOpenedByPin2 { unspent : bool }.
Inductive Pin2PresentationSpent := PresentationSpent.

Definition OpenedByPin1_counter (self : OpenedByPin1) : PinStatus := pin1_record self.
Definition OpenedByPin1_lower (self : OpenedByPin1) (answer : ManageOutcome) : OpenedByPin1 :=
  mkOpenedByPin1 (lowered_counter (pin1_record self) answer).
Definition OpenedByPuk_counter (self : OpenedByPuk) : PinStatus := puk_record self.
Definition OpenedByPuk_lower (self : OpenedByPuk) (answer : ManageOutcome) : OpenedByPuk :=
  mkOpenedByPuk (lowered_counter (puk_record self) answer).

Definition spend : exec OpenedByPin2 Pin2PresentationSpent unit :=
  fun self => if unspent self then (Ok tt, mkOpenedByPin2 false) else (Err PresentationSpent, self).

(** ** Padding *)

(** The loop that appends filler up to the block boundary; a block's worth of
    steps is enough ([fill_aligned]). *)
Fixpoint fill (fuel : nat) (out : bytes) : bytes :=
  if len out mod AES_BLOCK =? 0 then out
  else match fuel with
  | O => out
  | S f => fill f (out ++ [PAD_FILLER])
  end.

Definition iso7816_4_pad (data : bytes) : bytes := fill (Z.to_nat AES_BLOCK) (data ++ [PAD_MARKER]).

(** [iter().rev().take_while(..).count()]. *)
Fixpoint count_filler (rev_data : bytes) : Z :=
  match rev_data with
  | b :: rest => if b =? PAD_FILLER then 1 + count_filler rest else 0
  | [] => 0
  end.

Definition iso7816_4_unpad (data : bytes) : bytes :=
  let trailing_filler := count_filler (reverse data) in
  match checked_add USIZE_MAX trailing_filler 1 with
  | None => data
  | Some from_end =>
      match checked_sub (len data) from_end with
      | None => data
      | Some marker_pos =>
          match get data marker_pos with
          | Some b => if b =? PAD_MARKER then default data (get_range data 0 marker_pos) else data
          | None => data
          end
      end
  end.

Definition decode_short_apdu (apdu : bytes) : option (bytes * option Z) :=
  let case_1_len := HEADER_LEN in
  let case_2_len := HEADER_LEN + 1 in
  if len apdu =? case_1_len then Some ([], None)
  else if len apdu =? case_2_len then (fun le => ([], Some le)) <$> get apdu HEADER_LEN
  else
    lc ← get apdu HEADER_LEN;
    let body_start := HEADER_LEN + 1 in
    body_end ← checked_add USIZE_MAX body_start lc;
    data ← get_range apdu body_start body_end;
    if len apdu =? body_end then Some (data, None)
    else
      with_le ← checked_add USIZE_MAX body_end 1;
      if len apdu =? with_le then
        le ← get apdu body_end; Some (data, Some le)
      else None.

(** ** The channel *)

Record SmTransport (T O : Type) := mkSmTransport {
  inner : T; k_enc : bytes; k_mac : bytes; ssc : bytes; opened_by : O }.
Arguments mkSmTransport {T O} _ _ _ _ _.
Arguments inner {T O} _.
Arguments k_enc {T O} _.
Arguments k_mac {T O} _.
Arguments ssc {T O} _.
Arguments opened_by {T O} _.

Inductive SmError (E : Type) :=
  | SmErrorTransport (e : E)
  | SmMalformed (what : string)
  | MacMismatch
  | Unprotected (sw : Status.StatusWord)
  | CommandTooLong.
Arguments SmErrorTransport {E} _.
Arguments SmMalformed {E} _.
Arguments MacMismatch {E}.
Arguments Unprotected {E} _.
Arguments CommandTooLong {E}.

Definition SmError_kind {E} (inner_kind : E -> TransportErrorKind) (self : SmError E)
  : TransportErrorKind :=
  match self with
  | SmErrorTransport error => inner_kind error
  | SmMalformed _ | MacMismatch | Unprotected _ => KindProtocolDesync
  | CommandTooLong => KindBackend
  end.

Definition SmTransport_new {T O} (inner : T) (session : PaceSession O) : SmTransport T O :=
  let keys := session_keys session in
  mkSmTransport inner (session_enc keys) (session_mac keys) (session_ssc keys)
    (session_opened_by session).

Definition into_inner {T O} (self : SmTransport T O) : T := inner self.

Definition into_parts {T O} (self : SmTransport T O) : T * PaceSession O :=
  (inner self, mkPaceSession (mkSessionKeys (k_enc self) (k_mac self) (ssc self)) (opened_by self)).

Definition with_inner {T O} (t : T) (self : SmTransport T O) : SmTransport T O :=
  mkSmTransport t (k_enc self) (k_mac self) (ssc self) (opened_by self).
Definition with_ssc {T O} (c : bytes) (self : SmTransport T O) : SmTransport T O :=
  mkSmTransport (inner self) (k_enc self) (k_mac self) c (opened_by self).
Definition with_opened_by {T O} (o : O) (self : SmTransport T O) : SmTransport T O :=
  mkSmTransport (inner self) (k_enc self) (k_mac self) (ssc self) o.

(** A call on the inner transport, or on the proof, from the channel. *)
Definition on_inner {T O E A} (m : exec T E A) : exec (SmTransport T O) E A :=
  fun self => let '(r, t) := m (inner self) in (r, with_inner t self).
Definition on_opened_by {T O E A} (m : exec O E A) : exec (SmTransport T O) E A :=
  fun self => let '(r, o) := m (opened_by self) in (r, with_opened_by o self).

(** The objects of a response, the last of each kind. *)
Record ResponseObjects := mkObjects {
  obj_cryptogram : option (Z * bytes); obj_status : option bytes; obj_mac : option bytes }.

Fixpoint response_objects {E} (parsed : list (result Ber.BerError Ber.BerTlvAny)) (acc : ResponseObjects)
  : result (SmError E) ResponseObjects :=
  match parsed with
  | [] => Ok acc
  | Err _ :: _ => Err (SmMalformed "response BER parse")
  | Ok tlv :: rest =>
      let tag := Ber.tag tlv in
      response_objects rest
        (if (tag =? TAG_CRYPTOGRAM) || (tag =? TAG_CRYPTOGRAM_ODD) then
           mkObjects (Some (Z.land tag 255, Ber.value tlv)) (obj_status acc) (obj_mac acc)
         else if tag =? TAG_PROTECTED_STATUS then
           mkObjects (obj_cryptogram acc) (Some (Ber.value tlv)) (obj_mac acc)
         else if tag =? TAG_MAC then
           mkObjects (obj_cryptogram acc) (obj_status acc) (Some (Ber.value tlv))
         else acc)
  end.

(** [let [a, b] = ..try_into()]. *)
Definition two_bytes {E} (what : string) (bs : bytes) : result (SmError E) (Z * Z) :=
  match bs with [a; b] => Ok (a, b) | _ => Err (SmMalformed what) end.

Section Channel.
Context `{Symmetric} {T E O : Type} `{CardTransport T E}.

Abbreviation sm A := (exec (SmTransport T O) (SmError E) A).

(** [self.ssc.increment()]. *)
Definition step_ssc : sm unit := fun self => (Ok tt, with_ssc (Ssc_increment (ssc self)) self).

(** The object of the encrypted command data. *)
Definition command_cryptogram (self : SmTransport T O) (instruction : Z) (data : bytes)
  : result (SmError E) bytes :=
  if is_empty data then Ok []
  else
    let padded := iso7816_4_pad data in
    let block_iv := aes256_ecb_encrypt_block (k_enc self) (ssc self) in
    let? cipher := map_err (fun _ => SmMalformed "padded plaintext not block-aligned")
                     (aes256_cbc_encrypt_no_padding (k_enc self) block_iv padded) in
    let '(tag, value) :=
      if negb (Z.land instruction INS_ODD_MASK =? 0) then (TAG_CRYPTOGRAM_ODD, cipher)
      else (TAG_CRYPTOGRAM, PADDING_INDICATOR :: cipher) in
    map_err (fun _ => CommandTooLong) (Ber.tlv tag value).

Definition wrap (plain : bytes) : sm (CommandHeader * bytes) :=
  match plain with
  | _class :: instruction :: p1 :: p2 :: _ =>
      let sm_header := mkHeader SecureMessaging instruction p1 p2 in
      do? decoded <- elift (ok_or (decode_short_apdu plain)
                              (SmMalformed "command is not a short-form case")) ;;
      let '(data, le) := decoded in
      do? _ <- step_ssc ;;
      do? cryptogram <- (fun self => (command_cryptogram self instruction data, self)) ;;
      do? protected_le <- elift
        match le with
        | Some le_byte => map_err (fun _ => CommandTooLong) (Ber.tlv TAG_PROTECTED_LE [le_byte])
        | None => Ok []
        end ;;
      let sm_header_bytes := [class_as_byte SecureMessaging; instruction; p1; p2] in
      do? tag <- (fun self =>
        let mac_input := ssc self ++ iso7816_4_pad sm_header_bytes ++ cryptogram ++ protected_le in
        (Ok (aes256_cmac_truncated (k_mac self) (iso7816_4_pad mac_input)), self)) ;;
      do? mac_object <- elift (map_err (fun _ => CommandTooLong) (Ber.tlv TAG_MAC tag)) ;;
      eret (sm_header, cryptogram ++ protected_le ++ mac_object)
  | _ => efail (SmMalformed "command shorter than its header")
  end.

(** The body of an authenticated response. *)
Definition response_body (self : SmTransport T O) (cryptogram : option (Z * bytes))
  : result (SmError E) bytes :=
  match cryptogram with
  | None => Ok []
  | Some (tag, value) =>
      let? cipher :=
        if tag =? TAG_CRYPTOGRAM then
          match value with
          | [] => Err (SmMalformed "cryptogram empty")
          | indicator :: cipher =>
              if negb (indicator =? PADDING_INDICATOR)
              then Err (SmMalformed "cryptogram padding indicator") else Ok cipher
          end
        else Ok value in
      if negb (len cipher mod AES_BLOCK =? 0) then Err (SmMalformed "cryptogram not whole blocks")
      else
        let block_iv := aes256_ecb_encrypt_block (k_enc self) (ssc self) in
        let? plain := map_err (fun _ => SmMalformed "cryptogram not whole blocks")
                        (aes256_cbc_decrypt_no_padding (k_enc self) block_iv cipher) in
        Ok (iso7816_4_unpad plain)
  end.

(** The cryptogram as it enters the authentication input. *)
Definition reencode_cryptogram (cryptogram : option (Z * bytes)) : result (SmError E) bytes :=
  match cryptogram with
  | Some (tag, value) =>
      map_err (fun _ => SmMalformed "cryptogram too long to re-encode") (Ber.tlv tag value)
  | None => Ok []
  end.

(** The verification of a response against the counter. *)
Definition authenticate (self : SmTransport T O) (response : bytes)
  : result (SmError E) (bytes * Status.StatusWord) :=
  let? objects := response_objects (Ber.items response) (mkObjects None None None) in
  let? status := ok_or (obj_status objects) (SmMalformed "no protected status object") in
  let? mac := ok_or (obj_mac objects) (SmMalformed "no authentication object") in
  let? status_bytes := two_bytes "status object wrong length" status in
  if negb (len mac =? MAC_LEN) then Err (SmMalformed "authentication object wrong length")
  else
    let? object := reencode_cryptogram (obj_cryptogram objects) in
    let? status_object := map_err (fun _ => SmMalformed "status too long to re-encode")
                            (Ber.tlv TAG_PROTECTED_STATUS status) in
    let mac_input := ssc self ++ object ++ status_object in
    let computed := aes256_cmac_truncated (k_mac self) (iso7816_4_pad mac_input) in
    if negb (bool_decide (computed = mac)) then Err MacMismatch
    else
      let? body := response_body self (obj_cryptogram objects) in
      Ok (body, Status.from_bytes (fst status_bytes) (snd status_bytes)).

Definition unwrap (response : bytes) : sm (bytes * Status.StatusWord) :=
  do? _ <- step_ssc ;;
  fun self => (authenticate self response, self).

Definition finish (raw : TransportOutcome) : sm TransportOutcome :=
  match raw with
  | Response response =>
      if is_empty (body response) then efail (Unprotected (status_word response))
      else
        do? opened <- unwrap (body response) ;;
        let '(body, sw) := opened in
        let u := Status.as_u16 sw in
        eret (Response (mkResponse body (Z.shiftr u 8) (Z.land u 255)))
  | other => eret other
  end.

Definition transmit_single (plain : bytes) : sm TransportOutcome :=
  do? wrapped <- wrap plain ;;
  let '(header, body) := wrapped in
  do? command <- elift (map_err (fun _ => CommandTooLong) (case_4 header body SM_LE_ANY)) ;;
  do? raw <- emap_err SmErrorTransport (on_inner (transmit command)) ;;
  finish raw.

Definition transmit_fragmented_read (first second : bytes) : sm TransportOutcome :=
  do? outcome <- transmit_single first ;;
  match outcome with
  | Response first_response =>
      if negb (response_is_ok first_response)
         || negb (len (body first_response) =? SM_READ_BINARY_MAX_LE)
      then eret (Response first_response)
      else
        do? outcome <- transmit_single second ;;
        match outcome with
        | Response second_response =>
            eret (Response (mkResponse (body first_response ++ body second_response)
                              (sw1 second_response) (sw2 second_response)))
        | fault => eret fault
        end
  | fault => eret fault
  end.

End Channel.

(** ** The two-part read *)

Definition split_protected_read {E} (command : bytes) : result (SmError E) (option (bytes * bytes)) :=
  match command with
  | [cls; ins; p1; p2; le] =>
      if negb (ins =? READ_BINARY_INS) then Ok None
      else
        let total := if le =? SM_LE_ANY then LE_ALL_BYTES else le in
        let first_len := SM_READ_BINARY_MAX_LE in
        if total <=? first_len then Ok None
        else
          let direct := Z.land p1 P1_SFI_FORM_FLAG =? 0 in
          let offset := if direct then Z.lor (Z.shiftl p1 8) p2
                        else Z.lor (Z.shiftl (Z.land p1 P1_SFI_OFFSET_HIGH_MASK) 8) p2 in
          let ceiling := if direct then DIRECT_OFFSET_MAX else SFI_OFFSET_MAX in
          let? second_offset :=
            ok_or (advanced ← checked_add U16_MAX offset SM_READ_BINARY_MAX_LE;
                   if advanced <=? ceiling then Some advanced else None)
              (SmMalformed "fragmented read offset out of form") in
          let? second_le := ok_or (try_from_uint U8_MAX (total - first_len))
                              (SmMalformed "fragment too long") in
          let second_p1 :=
            if direct then Z.land (Z.shiftr second_offset 8) 255
            else Z.lor (Z.land p1 (Z.lxor 0xFF P1_SFI_OFFSET_HIGH_MASK))
                   (Z.land (Z.land (Z.shiftr second_offset 8) 255) P1_SFI_OFFSET_HIGH_MASK) in
          let second_p2 := Z.land second_offset 255 in
          Ok (Some ([cls; READ_BINARY_INS; p1; p2; SM_READ_BINARY_MAX_LE],
                    [cls; READ_BINARY_INS; second_p1; second_p2; second_le]))
  | _ => Ok None
  end.

(** ** The channel as a transport *)

(** A slice panic of the credential storage is [Panicked]. *)
#[export] Instance SmTransport_transport `{Symmetric} {T E O} `{CardTransport T E}
  : CardTransport (SmTransport T O) (fault (SmError E)) := {
  transmit command :=
    do? split <- elift_raise (split_protected_read (as_bytes command)) ;;
    emap_err Raised
      match split with
      | Some (first, second) => transmit_fragmented_read first second
      | None => transmit_single (as_bytes command)
      end;
  transmit_credential command :=
    do? plain <- or_panic (expose_wire command) ;;
    do? wrapped <- emap_err Raised (wrap plain) ;;
    let '(header, body) := wrapped in
    do? assembled <- or_panic (from_protected_parts header body SM_LE_ANY) ;;
    do? credential <- elift_raise (map_err (fun _ => CommandTooLong) assembled) ;;
    do? raw <- emap_err (fun e => Raised (SmErrorTransport e)) (on_inner (transmit_credential credential)) ;;
    emap_err Raised (finish raw) }.

Definition spend_pin2_presentation {T} : exec (SmTransport T OpenedByPin2) Pin2PresentationSpent unit :=
  on_opened_by spend.

#[export] Instance SmTransport_puk `{Symmetric} {T E} `{CardTransport T E}
  : PukPaceChannel (SmTransport T OpenedByPuk) (fault (SmError E)) := {
  puk_counter self := OpenedByPuk_counter (opened_by self);
  lower_puk_counter answer self := with_opened_by (OpenedByPuk_lower (opened_by self) answer) self }.

#[export] Instance SmTransport_pin1 `{Symmetric} {T E} `{CardTransport T E}
  : Pin1PaceChannel (SmTransport T OpenedByPin1) (fault (SmError E)) := {
  pin1_counter self := OpenedByPin1_counter (opened_by self);
  lower_pin1_counter answer self := with_opened_by (OpenedByPin1_lower (opened_by self) answer) self }.

(** ** Lemmas: padding *)

(** The filler that completes the block after the marker. *)
Definition filler (data : bytes) : bytes := repeat PAD_FILLER (Z.to_nat ((- (len data + 1)) mod AES_BLOCK)).

Lemma fill_spec fuel out :
  (Z.to_nat ((- len out) mod AES_BLOCK) <= fuel)%nat ->
  fill fuel out = out ++ repeat PAD_FILLER (Z.to_nat ((- len out) mod AES_BLOCK)).
Proof.
  unfold AES_BLOCK. revert out; induction fuel as [|f IH]; intros out Hf; cbn [fill];
    pose proof (Z.mod_pos_bound (- len out) 16 ltac:(lia)); unfold AES_BLOCK.
  - assert ((- len out) mod 16 = 0) as Hz by lia. rewrite Hz. rewrite app_nil_r. by case_if.
  - destruct (Z.eqb_spec (len out mod 16) 0) as [Hz|Hz].
    + rewrite Z.mod_opp_l_z by lia. by rewrite app_nil_r.
    + rewrite Z.mod_opp_l_nz in * by lia.
      assert ((- len (out ++ [PAD_FILLER])) mod 16 = 16 - len out mod 16 - 1) as Hk.
      { rewrite len_app. change (len [PAD_FILLER]) with 1.
        symmetry. apply Z.mod_unique with (- (len out / 16) - 1); [pose proof (Z.mod_pos_bound (len out) 16); lia|].
        pose proof (Z.div_mod (len out) 16). lia. }
      rewrite IH by lia. rewrite Hk, <- app_assoc. cbn [app].
      pose proof (Z.mod_pos_bound (len out) 16 ltac:(lia)).
      replace (Z.to_nat (16 - len out mod 16)) with (S (Z.to_nat (16 - len out mod 16 - 1))) by lia.
      done.
Qed.

Lemma pad_eq data : iso7816_4_pad data = data ++ PAD_MARKER :: filler data.
Proof.
  unfold iso7816_4_pad, filler. rewrite fill_spec.
  - rewrite len_app. change (len [PAD_MARKER]) with 1. by rewrite <- app_assoc.
  - rewrite len_app. change (len [PAD_MARKER]) with 1. unfold AES_BLOCK.
    pose proof (Z.mod_pos_bound (- (len data + 1)) 16 ltac:(lia)). lia.
Qed.

Lemma len_filler data : len (filler data) = (- (len data + 1)) mod AES_BLOCK.
Proof.
  unfold filler, len at 1, AES_BLOCK. rewrite repeat_length.
  pose proof (Z.mod_pos_bound (- (len data + 1)) 16 ltac:(lia)). lia.
Qed.

(** A padded length: the next multiple of the block after the data. *)
Lemma len_pad data : len (iso7816_4_pad data) = AES_BLOCK * (len data / AES_BLOCK + 1).
Proof.
  rewrite pad_eq, len_app, len_cons, len_filler. unfold AES_BLOCK.
  pose proof (Z.div_mod (len data) 16 ltac:(lia)). pose proof (Z.mod_pos_bound (len data) 16 ltac:(lia)).
  replace ((- (len data + 1)) mod 16) with (15 - len data mod 16); [lia|].
  apply Z.mod_unique with (- (len data / 16) - 1); lia.
Qed.

Lemma pad_aligned data : len (iso7816_4_pad data) mod AES_BLOCK = 0.
Proof. rewrite len_pad. unfold AES_BLOCK. rewrite Z.mul_comm. by apply Z.mod_mul. Qed.

Lemma count_filler_repeat k rest :
  count_filler rest = 0 -> count_filler (repeat PAD_FILLER k ++ rest) = Z.of_nat k.
Proof. intros Hr. induction k as [|k IH]; [done|]. cbn [repeat app count_filler]. if_true. lia. Qed.

Lemma reverse_repeat {A} (x : A) k : reverse (repeat x k) = repeat x k.
Proof.
  induction k as [|k IH]; [done|]. cbn [repeat]. rewrite reverse_cons, IH. symmetry. apply repeat_cons.
Qed.

Lemma unpad_pad data : iso7816_4_unpad (iso7816_4_pad data) = data.
Proof.
  rewrite pad_eq. unfold iso7816_4_unpad.
  assert (count_filler (reverse (data ++ PAD_MARKER :: filler data)) = len (filler data)) as ->.
  { rewrite reverse_app, reverse_cons, <- app_assoc. unfold filler. rewrite reverse_repeat.
    rewrite count_filler_repeat by done. unfold len. by rewrite repeat_length. }
  assert (0 <= len (filler data) < 16) as Hf
    by (rewrite len_filler; apply Z.mod_pos_bound; by vm_compute).
  rewrite checked_add_some by ulia. unfold checked_sub. rewrite len_app, len_cons.
  pose proof (len_nonneg data). if_true.
  replace (len data + (1 + len (filler data)) - (len (filler data) + 1)) with (len data) by lia.
  rewrite get_app_len. cbn [Z.eqb]. rewrite Z.eqb_refl, get_range_prefix by done. done.
Qed.

(** ** Lemmas: one exchange on any card *)

(** The channel's state apart from the inner transport and the counter. *)
Definition same_session {T O} (a b : SmTransport T O) : Prop :=
  k_enc a = k_enc b /\ k_mac a = k_mac b /\ opened_by a = opened_by b.

Section Exchange.
Context `{Symmetric} {T E O : Type} `{CardTransport T E}.

(** Wrapping fails before the counter is stepped, or steps it once. *)
Lemma wrap_cases plain (self : SmTransport T O) :
  (exists what, wrap (E := E) plain self = (Err (SmMalformed what), self)) \/
  (exists r, wrap (E := E) plain self = (r, with_ssc (Ssc_increment (ssc self)) self)
     /\ (r = Err CommandTooLong \/ exists h b, r = Ok (h, b))).
Proof.
  unfold wrap. destruct plain as [|cls [|ins [|p1 [|p2 rest]]]]; try (left; by eexists).
  destruct (decode_short_apdu _) as [[data le]|]; [|left; by eexists].
  right. unfold ebind, elift, ok_or, step_ssc, eret. cbv beta iota zeta.
  set (self1 := with_ssc (Ssc_increment (ssc self)) self).
  assert (command_cryptogram (E := E) self1 ins data = Err CommandTooLong
    \/ exists cg, command_cryptogram (E := E) self1 ins data = Ok cg) as [->|[cg ->]].
  { unfold command_cryptogram. case_if; [right; by eexists|].
    rewrite aligned_encrypt by apply pad_aligned. cbn [map_err rbind].
    case_if; destruct (Ber.tlv _ _); cbn [map_err]; eauto. }
  { by eauto. }
  destruct le as [b|]; cbn [map_err];
    [destruct (Ber.tlv TAG_PROTECTED_LE [b]) as [leo|]; cbn [map_err]; [|by eauto]|];
    destruct (Ber.tlv TAG_MAC _) as [mo|]; cbn [map_err]; eauto 10.
Qed.

(** What [authenticate] accepts: the last objects of the response, its tag over
    the counter and the objects, and the body it decrypts to. *)
Definition sealed (self : SmTransport T O) (raw : bytes) (r : ResponseApdu) : Prop :=
  exists cryptogram s1 s2 mac cg_object status_object,
    response_objects (E := E) (Ber.items raw) (mkObjects None None None)
    = Ok (mkObjects cryptogram (Some [s1; s2]) (Some mac)) /\
    match cryptogram with
    | Some (t, v) => Ber.tlv t v = Ok cg_object
    | None => cg_object = []
    end /\
    Ber.tlv TAG_PROTECTED_STATUS [s1; s2] = Ok status_object /\
    mac = aes256_cmac_truncated (k_mac self)
            (iso7816_4_pad (ssc self ++ cg_object ++ status_object)) /\
    response_body (E := E) self cryptogram = Ok (body r) /\
    (is_u8 s1 -> is_u8 s2 -> sw1 r = s1 /\ sw2 r = s2).

Lemma status_bytes_back s1 s2 : is_u8 s1 -> is_u8 s2 ->
  Z.shiftr (Status.as_u16 (Status.from_bytes s1 s2)) 8 = s1
  /\ Z.land (Status.as_u16 (Status.from_bytes s1 s2)) 255 = s2.
Proof.
  intros H1 H2. unfold Status.from_bytes, be_value. cbn [be_fold fold_left].
  rewrite Z.lor_0_l, lor_shiftl_byte by done. unfold is_uint, U8_MAX in *.
  rewrite Status.as_from_u16 by ulia. rewrite shiftr_8, land_255.
  rewrite Z.div_add_l, Z.div_small by lia. split; [lia|].
  by rewrite Z.add_comm, Z.mod_add, Z.mod_small by lia.
Qed.

Lemma authenticate_ok (self : SmTransport T O) raw b sw :
  authenticate (E := E) self raw = Ok (b, sw) ->
  let u := Status.as_u16 sw in
  sealed self raw (mkResponse b (Z.shiftr u 8) (Z.land u 255)).
Proof.
  intros ([cg st mac] & Eo & Ha)%rbind_ok_inv. cbn [obj_cryptogram obj_status obj_mac] in Ha.
  apply rbind_ok_inv in Ha as (st' & ->%ok_or_inv & Ha).
  apply rbind_ok_inv in Ha as (mac' & ->%ok_or_inv & Ha).
  apply rbind_ok_inv in Ha as ([s1 s2] & Es & Ha).
  unfold two_bytes in Es. destruct st' as [|? [|? []]]; try done. injection Es as -> ->.
  case_match_in Ha; [done|]. apply rbind_ok_inv in Ha as (cgo & Ecg & Ha).
  apply rbind_ok_inv in Ha as (so & Eso%map_err_ok_inv & Ha). cbv zeta in Ha.
  case_match_in Ha; [done|]. apply rbind_ok_inv in Ha as (b' & Eb & Ha). injection Ha as -> <-.
  exists cg, s1, s2, mac', cgo, so. apply bool_decide_eq_true in E1.
  split_and!; [done| |done|by symmetry|done|cbn [sw1 sw2]; apply status_bytes_back].
  unfold reencode_cryptogram in Ecg. destruct cg as [[t v]|]; [by apply map_err_ok_inv in Ecg|].
  by injection Ecg.
Qed.

End Exchange.

(** ** Lemmas: the proof of the password stays with the channel *)

Section Kept.
Context `{Symmetric} {T E O : Type} `{CardTransport T E}.

Definition keeps_proof {X A} (m : exec (SmTransport T O) X A) : Prop :=
  forall self, opened_by (m self).2 = opened_by self.

Lemma keeps_proof_bind {X A B} (m : exec (SmTransport T O) X A) (k : A -> exec (SmTransport T O) X B) :
  keeps_proof m -> (forall a, keeps_proof (k a)) -> keeps_proof (ebind m k).
Proof.
  intros Hm Hk self. unfold ebind. specialize (Hm self).
  destruct (m self) as [[a|e] self']; cbn in *; [by rewrite Hk|done].
Qed.

Lemma keeps_proof_pure {X A} (f : SmTransport T O -> result X A) : keeps_proof (fun self => (f self, self)).
Proof. by intros self. Qed.

Lemma keeps_proof_err {X Y A} (f : X -> Y) (m : exec (SmTransport T O) X A) :
  keeps_proof m -> keeps_proof (emap_err f m).
Proof. intros Hm self. unfold emap_err. specialize (Hm self). by destruct (m self). Qed.

Lemma keeps_proof_inner {X A} (m : exec T X A) : keeps_proof (on_inner m).
Proof. intros self. unfold on_inner. by destruct (m (inner self)). Qed.

Lemma keeps_proof_panic {X A} (o : option A) : keeps_proof (or_panic (E := X) o).
Proof. intros self. unfold or_panic. by destruct o. Qed.

Lemma keeps_proof_wrap plain : keeps_proof (wrap (E := E) plain).
Proof. intros self. by destruct (wrap_cases (E := E) plain self) as [[w ->]|(r & -> & _)]. Qed.

Lemma keeps_proof_finish raw : keeps_proof (finish (E := E) raw).
Proof.
  destruct raw; cbn [finish]; try (apply keeps_proof_pure). case_if; [apply keeps_proof_pure|].
  apply keeps_proof_bind; [|intros []; apply keeps_proof_pure].
  apply keeps_proof_bind; [by intros self|]. intros _. apply keeps_proof_pure.
Qed.

Lemma keeps_proof_single plain : keeps_proof (transmit_single (E := E) plain).
Proof.
  apply keeps_proof_bind; [apply keeps_proof_wrap|]. intros [h b].
  apply keeps_proof_bind; [apply keeps_proof_pure|]. intros c.
  apply keeps_proof_bind; [apply keeps_proof_err, keeps_proof_inner|apply keeps_proof_finish].
Qed.

Lemma keeps_proof_transmit c : keeps_proof (transmit (T := SmTransport T O) (E := fault (SmError E)) c).
Proof.
  apply keeps_proof_bind; [apply keeps_proof_pure|]. intros [[first second]|]; apply keeps_proof_err;
    [|apply keeps_proof_single].
  apply keeps_proof_bind; [apply keeps_proof_single|]. intros []; try apply keeps_proof_pure.
  case_if; [apply keeps_proof_pure|]. apply keeps_proof_bind; [apply keeps_proof_single|].
  intros []; apply keeps_proof_pure.
Qed.

Lemma keeps_proof_credential c :
  keeps_proof (transmit_credential (T := SmTransport T O) (E := fault (SmError E)) c).
Proof.
  apply keeps_proof_bind; [apply keeps_proof_panic|]. intros plain.
  apply keeps_proof_bind; [apply keeps_proof_err, keeps_proof_wrap|]. intros [h b].
  apply keeps_proof_bind; [apply keeps_proof_panic|]. intros a.
  apply keeps_proof_bind; [apply keeps_proof_pure|]. intros w.
  apply keeps_proof_bind; [apply keeps_proof_err, keeps_proof_inner|].
  intros raw. apply keeps_proof_err, keeps_proof_finish.
Qed.

End Kept.

(** The secure channel keeps what the channel traits promise, so the
    theorems on PIN management hold of it. *)
#[export] Instance SmTransport_puk_laws `{Symmetric} {T E} `{CardTransport T E}
  : PukPaceLaws (SmTransport T OpenedByPuk) (fault (SmError E)).
Proof.
  split; intros; cbn [puk_counter SmTransport_puk]; [f_equal; apply keeps_proof_transmit|
    f_equal; apply keeps_proof_credential|done].
Qed.

#[export] Instance SmTransport_pin1_laws `{Symmetric} {T E} `{CardTransport T E}
  : Pin1PaceLaws (SmTransport T OpenedByPin1) (fault (SmError E)).
Proof.
  split; intros; cbn [pin1_counter SmTransport_pin1]; [f_equal; apply keeps_proof_transmit|
    f_equal; apply keeps_proof_credential|done].
Qed.

Section Report.
Context `{Symmetric} {T E O : Type} `{CardTransport T E}.
Abbreviation channel := (SmTransport (T * list (sent E)) O).

(** The channel with its counter stepped [k] times. *)
Definition stepped (k : nat) (self : channel) : channel := with_ssc (Nat.iter k Ssc_increment (ssc self)) self.

(** What one protected exchange did, by its result: what it sent, how often it
    stepped the counter, and what it accepted. *)
Definition exchange_report (self self' : channel) (o : result (SmError E) TransportOutcome) : Prop :=
  exists n k, (inner self').2 = (inner self).2 ++ n
    /\ self' = with_inner (inner self') (stepped k self) /\
  match o with
  | Ok (Response r) =>
      k = 2%nat /\ exists c raw, n = [SentPlain c (Ok (Response raw))]
        /\ body raw <> [] /\ sealed (E := E) (stepped 2 self) (body raw) r
  | Ok other => k = 1%nat /\ exists c, n = [SentPlain c (Ok other)]
  | Err (SmErrorTransport e) => k = 1%nat /\ exists c, n = [SentPlain c (Err e)]
  | Err (Unprotected sw) =>
      k = 1%nat /\ exists c raw, n = [SentPlain c (Ok (Response raw))]
        /\ body raw = [] /\ sw = status_word raw
  | Err MacMismatch => k = 2%nat /\ exists c raw, n = [SentPlain c (Ok (Response raw))] /\ body raw <> []
  | Err CommandTooLong => k = 1%nat /\ n = []
  | Err (SmMalformed _) =>
      k = 0%nat /\ n = [] \/
      k = 2%nat /\ exists c raw, n = [SentPlain c (Ok (Response raw))] /\ body raw <> []
  end.

(** The errors of authenticating a response. *)
Lemma authenticate_err (self : channel) raw e :
  authenticate (E := E) self raw = Err e -> e = MacMismatch \/ exists what, e = SmMalformed what.
Proof.
  assert (forall A (r : result (SmError E) A) w B (f : A -> result (SmError E) B),
    (forall e, r = Err e -> e = MacMismatch \/ exists what, e = SmMalformed what) ->
    (forall a e, f a = Err e -> e = MacMismatch \/ exists what, e = SmMalformed what) ->
    rbind r f = Err w -> w = MacMismatch \/ exists what, w = SmMalformed what) as Hb.
  { intros A [a|e'] w B f Hr Hf; cbn; [by apply Hf|]. intros [= <-]. by apply Hr. }
  assert (forall A B (f : B -> SmError E) (r : result B A), (forall b, exists what, f b = SmMalformed what) ->
    forall e, map_err f r = Err e -> e = MacMismatch \/ exists what, e = SmMalformed what) as Hm.
  { intros A B f [a|b] Hf e'; cbn; [done|]. intros [= <-]. by right. }
  assert (forall A w (o : option A) e, ok_or o (SmMalformed w) = Err e ->
    e = MacMismatch \/ exists what, e = @SmMalformed E what) as Ho.
  { intros A w [a|] e'; cbn; [done|]. intros [= <-]. eauto. }
  unfold authenticate. apply Hb; clear e.
  { intros e. generalize (mkObjects None None None). induction (Ber.items raw) as [|[tl|b] l IH];
      intros acc; cbn [response_objects]; [done|apply IH|]. intros [= <-]. eauto. }
  intros objs e. apply Hb; [apply Ho|]. intros st e1. apply Hb; [apply Ho|]. intros mac e2.
  apply Hb. { intros e3. unfold two_bytes. destruct st as [|? [|? []]]; try done; intros [= <-]; eauto. }
  intros sb e3. case_if; [intros [= <-]; eauto|]. apply Hb.
  { intros e4. unfold reencode_cryptogram.
    destruct (obj_cryptogram objs) as [[]|]; [apply Hm; eauto|done]. }
  intros cgo e4. apply Hb; [apply Hm; eauto|]. intros so e5. case_if; [intros [= <-]; eauto|].
  apply Hb; [|done]. intros e6. unfold response_body. destruct (obj_cryptogram objs) as [[t v]|]; [|done].
  apply Hb. { intros e7. case_if; [|done]. destruct v; [intros [= <-]; eauto|]. case_if; [|done]. intros [= <-]; eauto. }
  intros ci e7. case_if; [intros [= <-]; eauto|]. apply Hb; [apply Hm; eauto|done].
Qed.

Lemma transmit_single_report plain (self : channel) :
  let '(o, self') := transmit_single (E := E) plain self in exchange_report self self' o.
Proof.
  unfold transmit_single, ebind at 1.
  destruct (wrap_cases (E := E) plain self) as [[what ->]|(r & -> & Hr)].
  { exists [], 0%nat. rewrite app_nil_r. split_and!; [done| |by left]. by destruct self as [[]]. }
  destruct Hr as [->|(h & b & ->)].
  { exists [], 1%nat. rewrite app_nil_r. split_and!; [done| |done..]. by destruct self as [[]]. }
  unfold ebind at 1, elift. destruct (case_4 h b SM_LE_ANY) as [c|] eqn:Ec; cbn [map_err].
  2:{ exists [], 1%nat. rewrite app_nil_r. split_and!; [done| |done..]. by destruct self as [[]]. }
  unfold ebind, emap_err, on_inner. cbn [transmit traced inner with_ssc].
  destruct (transmit c (inner self).1) as [o t'] eqn:Et. cbn [map_err].
  destruct o as [out|e]; cbn [map_err].
  2:{ exists [SentPlain c (Err e)], 1%nat. split_and!; [done..|]. by exists c. }
  destruct out as [raw| | | | |]; cbn [finish];
    try (eexists [SentPlain c (Ok _)], 1%nat; split_and!; [done..|]; by exists c).
  rewrite is_empty_len. destruct (Z.eqb_spec (len (body raw)) 0) as [Hz%len_0_nil|Hz].
  { exists [SentPlain c (Ok (Response raw))], 1%nat. split_and!; [done..|]. by exists c, raw. }
  assert (body raw <> []) as Hne by (intros Hn; by rewrite Hn in Hz).
  unfold unwrap, step_ssc, ebind. cbv beta iota zeta.
  match goal with |- context [authenticate ?s _] => set (s2 := s) end.
  destruct (authenticate s2 (body raw)) as [[b' sw]|e] eqn:Ea;
    exists [SentPlain c (Ok (Response raw))], 2%nat.
  - apply authenticate_ok in Ea. split_and!; [done..|]. exists c, raw. split_and!; done.
  - apply authenticate_err in Ea as [->|[what ->]]; split_and!; [done|done|done|by exists c, raw|done|done|].
    right. split; [done|]. by exists c, raw.
Qed.

End Report.

(** ** The specification: the card's end of the channel *)

Definition tlv1 (t : Z) (v : bytes) : bytes := [t] ++ Ber.length_octets (len v) ++ v.

Definition le_field (le : option Z) : bytes := match le with Some b => [b] | None => [] end.

(** A plain short command: the class, the header, the data if any, Le if any. *)
Definition short_command (cls ins p1 p2 : Z) (data : bytes) (le : option Z) : bytes :=
  [cls; ins; p1; p2] ++ (if is_empty data then [] else len data :: data) ++ le_field le.

Record Peer (C : Type) := mkPeer { peer_card : C; peer_ssc : bytes }.
Arguments mkPeer {C} _ _.
Arguments peer_card {C} _.
Arguments peer_ssc {C} _.

Section Peer.
Context `{Symmetric} {C : Type} (card : bytes -> C -> ResponseApdu * C) (ke km : bytes).

(** The object that carries encrypted data, under its own tag for odd
    instructions. *)
Definition cryptogram_of (counter : bytes) (odd : bool) (data : bytes) : bytes :=
  if is_empty data then []
  else
    let c := cbc_encrypt ke (ecb_encrypt ke counter) (iso7816_4_pad data) in
    if odd then tlv1 0x85 c else tlv1 0x87 (0x01 :: c).

Definition open_cryptogram (counter : bytes) (o : Ber.BerTlvAny) : option bytes :=
  let decrypt c := iso7816_4_unpad (cbc_decrypt ke (ecb_encrypt ke counter) c) in
  if Ber.tag o =? 0x87 then Some (decrypt (drop 1 (Ber.value o)))
  else if Ber.tag o =? 0x85 then Some (decrypt (Ber.value o))
  else None.

Definition tag_over (counter objects : bytes) : bytes :=
  tlv1 0x8E (take_z (cmac km (iso7816_4_pad (counter ++ objects))) 8).

Definition is_odd (ins : Z) : bool := negb (Z.land ins 1 =? 0).

(** The command behind a protected one, when its tag is right. *)
Definition unprotect (counter wire : bytes) : option bytes :=
  match wire with
  | cls :: ins :: p1 :: p2 :: lc :: rest =>
      if negb ((cls =? 0x0C) && (len rest =? lc + 1) && (10 <=? lc)) then None
      else
        let objects := take_z rest (lc - 10) in
        if negb (bool_decide (take_z (drop_z rest (lc - 10)) 10
                   = tag_over counter (iso7816_4_pad [cls; ins; p1; p2] ++ objects))) then None
        else
          match Ber.items objects with
          | [] => Some (short_command 0 ins p1 p2 [] None)
          | [Ok a] =>
              if Ber.tag a =? 0x97 then Some (short_command 0 ins p1 p2 [] (head (Ber.value a)))
              else data ← open_cryptogram counter a; Some (short_command 0 ins p1 p2 data None)
          | [Ok a; Ok b] =>
              data ← open_cryptogram counter a; Some (short_command 0 ins p1 p2 data (head (Ber.value b)))
          | _ => None
          end
  | _ => None
  end.

Definition protect_response (counter : bytes) (odd : bool) (r : ResponseApdu) : bytes :=
  let objects := cryptogram_of counter odd (body r) ++ tlv1 0x99 [sw1 r; sw2 r] in
  objects ++ tag_over counter objects.

(** A card of the plain protocol behind the protocol's other end: the counter
    is stepped for the command and for the response; a command that does not
    authenticate is refused without protection. *)
Definition peer_exchange (wire : bytes) (p : Peer C) : ResponseApdu * Peer C :=
  let counter := Ssc_increment (peer_ssc p) in
  match unprotect counter wire with
  | Some plain =>
      let '(r, c) := card plain (peer_card p) in
      let counter := Ssc_increment counter in
      (mkResponse (protect_response counter (is_odd (default 0 (plain !! 1%nat))) r) (sw1 r) (sw2 r),
       mkPeer c counter)
  | None => (mkResponse [] 0x69 0x88, mkPeer (peer_card p) counter)
  end.

#[local] Instance peer_transport : CardTransport (Peer C) unit := {
  transmit c p := let '(r, p) := peer_exchange (as_bytes c) p in (Ok (Response r), p);
  transmit_credential c p :=
    match expose_wire c with
    | Some wire => let '(r, p) := peer_exchange wire p in (Ok (Response r), p)
    | None => (Err tt, p)
    end }.

(** ** Lemmas: the two ends *)

Lemma items_of ws rs x :
  x = concat ws -> Forall2 (fun w r => Ber.encodes w r.1 r.2) ws rs ->
  Ber.items x = zip_with (fun w r => Ok (Ber.mkBerTlvAny r.1 r.2 (len w))) ws rs.
Proof. intros ->. apply Ber.items_records. Qed.

Lemma encodes_tlv1 t v : Ber.tag1_ok t -> len v <= U32_MAX -> Ber.encodes (tlv1 t v) t v.
Proof. intros Ht Hv. left. split; [done|]. by apply Ber.tlv_ok_eq. Qed.

Lemma tlv_tlv1 t v : Ber.tag1_ok t -> len v <= U32_MAX -> Ber.tlv t v = Ok (tlv1 t v).
Proof. apply Ber.tlv_ok_eq. Qed.

Lemma tag1_87 : Ber.tag1_ok 0x87. Proof. by vm_compute. Qed.
Lemma tag1_85 : Ber.tag1_ok 0x85. Proof. by vm_compute. Qed.
Lemma tag1_97 : Ber.tag1_ok 0x97. Proof. by vm_compute. Qed.
Lemma tag1_99 : Ber.tag1_ok 0x99. Proof. by vm_compute. Qed.
Lemma tag1_8E : Ber.tag1_ok 0x8E. Proof. by vm_compute. Qed.

Context `{!SymmetricLaws}.

Lemma len_cipher counter data :
  len (cbc_encrypt ke (ecb_encrypt ke counter) (iso7816_4_pad data)) = 16 * (len data / 16 + 1).
Proof. rewrite cbc_encrypt_len by apply pad_aligned. apply len_pad. Qed.

Lemma decrypt_cipher counter data :
  iso7816_4_unpad (cbc_decrypt ke (ecb_encrypt ke counter)
    (cbc_encrypt ke (ecb_encrypt ke counter) (iso7816_4_pad data))) = data.
Proof. rewrite cbc_inverse by apply pad_aligned. apply unpad_pad. Qed.

(** A response body or command data the length octets can frame. *)
Definition framed (data : bytes) : Prop := len data <= 65535.

Lemma framed_cipher counter data : framed data ->
  len (cbc_encrypt ke (ecb_encrypt ke counter) (iso7816_4_pad data)) + 1 <= U32_MAX.
Proof.
  unfold framed. intros Hd. rewrite len_cipher. unfold U32_MAX.
  pose proof (Z.div_le_upper_bound (len data) 16 65535). pose proof (len_nonneg data). lia.
Qed.

(** The cryptogram as a record, and what opening it gives. *)
Lemma cryptogram_record counter odd data : data <> [] -> framed data ->
  exists t v, Ber.encodes (cryptogram_of counter odd data) t v
    /\ cryptogram_of counter odd data = tlv1 t v
    /\ (t = TAG_CRYPTOGRAM \/ t = TAG_CRYPTOGRAM_ODD)
    /\ forall size, open_cryptogram counter (Ber.mkBerTlvAny t v size) = Some data.
Proof.
  intros Hne Hf. unfold cryptogram_of. destruct data as [|b data]; [done|]. cbn [is_empty].
  pose proof (framed_cipher counter _ Hf). pose proof (decrypt_cipher counter (b :: data)) as Hd.
  destruct odd; eexists _, _; (split_and!; [apply encodes_tlv1|done|first [by left|by right]|]);
    try apply tag1_85; try apply tag1_87; rewrite ?len_cons; try lia;
    intros size; exact (f_equal Some Hd).
Qed.

Lemma len_tag_over counter objects : len (tag_over counter objects) = 10.
Proof.
  unfold tag_over, tlv1. rewrite !len_app, len_take_z.
  - by vm_compute.
  - rewrite cmac_len. by vm_compute.
Qed.

Lemma decode_short cls ins p1 p2 data le :
  len data <= 255 -> decode_short_apdu (short_command cls ins p1 p2 data le) = Some (data, le).
Proof.
  intros Hd. pose proof (len_nonneg data). unfold decode_short_apdu, short_command, HEADER_LEN.
  destruct (is_empty data) eqn:Ee.
  { destruct data; [|done]. destruct le; by vm_compute. }
  rewrite is_empty_len in Ee. to_prop.
  assert (len [cls; ins; p1; p2; len data] = 5) as H5 by reflexivity.
  replace ([cls; ins; p1; p2] ++ (len data :: data) ++ le_field le)
    with ([cls; ins; p1; p2; len data] ++ data ++ le_field le) by reflexivity.
  rewrite !len_app, H5. pose proof (len_nonneg (le_field le)). if_false. if_false.
  replace (get ([cls; ins; p1; p2; len data] ++ data ++ le_field le) 4) with (Some (len data)) by reflexivity.
  cbn [mbind option_bind].
  rewrite checked_add_some by ulia. cbn [mbind option_bind].
  rewrite (get_range_app' [cls; ins; p1; p2; len data]) by (rewrite H5; lia). cbn [mbind option_bind].
  destruct le as [b'|]; cbn [le_field]; rewrite ?len_cons, len_nil.
  - if_false. rewrite checked_add_some by ulia. cbn [mbind option_bind]. if_true.
    rewrite app_assoc. replace (4 + 1 + len data) with (len ([cls; ins; p1; p2; len data] ++ data))
      by (rewrite len_app, H5; lia).
    by rewrite get_app_len.
  - by if_true.
Qed.

Definition le_object (le : option Z) : bytes := match le with Some b => tlv1 0x97 [b] | None => [] end.

Definition command_objects (counter : bytes) (ins : Z) (data : bytes) (le : option Z) : bytes :=
  cryptogram_of counter (is_odd ins) data ++ le_object le.

Definition protected_header (ins p1 p2 : Z) : bytes := iso7816_4_pad [0x0C; ins; p1; p2].

Lemma wrap_short {T E O} cls ins p1 p2 data le (self : SmTransport T O) :
  k_enc self = ke -> k_mac self = km -> len data <= 255 ->
  let counter := Ssc_increment (ssc self) in
  let objects := command_objects counter ins data le in
  wrap (E := E) (short_command cls ins p1 p2 data le) self
  = (Ok (mkHeader SecureMessaging ins p1 p2,
         objects ++ tag_over counter (protected_header ins p1 p2 ++ objects)),
     with_ssc counter self).
Proof.
  intros He Hm Hd counter objects. unfold wrap.
  change (short_command cls ins p1 p2 data le)
    with (cls :: ins :: p1 :: p2 :: (if is_empty data then [] else len data :: data) ++ le_field le) at 1.
  cbv iota beta. rewrite decode_short by done.
  unfold ebind, elift, ok_or, step_ssc, eret. cbv beta iota zeta. fold counter.
  assert (command_cryptogram (E := E) (with_ssc counter self) ins data
    = Ok (cryptogram_of counter (is_odd ins) data)) as ->.
  { unfold command_cryptogram, cryptogram_of, is_odd. cbn [k_enc ssc with_ssc]. rewrite He.
    case_if; [done|]. rewrite aligned_encrypt by apply pad_aligned. cbn [map_err rbind].
    pose proof (framed_cipher counter data ltac:(unfold framed; lia)).
    unfold INS_ODD_MASK, aes256_ecb_encrypt_block. case_if.
    - by rewrite tlv_tlv1 by (apply tag1_85 || lia).
    - by rewrite tlv_tlv1 by (apply tag1_87 || (rewrite len_cons; lia)). }
  assert (match le with Some b => map_err (fun _ => CommandTooLong) (Ber.tlv TAG_PROTECTED_LE [b])
          | None => Ok [] end = @Ok (SmError E) _ (le_object le)) as ->.
  { destruct le as [b|]; [|done]. by rewrite tlv_tlv1 by (apply tag1_97 || by vm_compute). }
  cbn [k_mac ssc with_ssc]. rewrite Hm, tlv_tlv1 by (apply tag1_8E || (rewrite cmac_truncated_len; by vm_compute)).
  cbn [map_err]. unfold tag_over, protected_header, objects, command_objects, aes256_cmac_truncated, aes256_cmac.
  by rewrite <- !app_assoc.
Qed.

(** The tag object is the last ten bytes. *)
Lemma unprotect_tag cls ins p1 p2 objects counter le :
  0 <= len objects <= 245 ->
  let rest := (objects ++ tag_over counter (iso7816_4_pad [cls; ins; p1; p2] ++ objects)) ++ [le] in
  let lc := len objects + 10 in
  (len rest =? lc + 1) && (10 <=? lc) = true /\ take_z rest (lc - 10) = objects
  /\ take_z (drop_z rest (lc - 10)) 10
     = tag_over counter (iso7816_4_pad [cls; ins; p1; p2] ++ objects).
Proof.
  intros Ho rest lc. pose proof (len_tag_over counter (iso7816_4_pad [cls; ins; p1; p2] ++ objects)) as Ht.
  unfold rest, lc. replace (len objects + 10 - 10) with (len objects) by lia.
  set (tg := tag_over _ _) in *. rewrite <- app_assoc. split_and!.
  - rewrite !len_app, Ht. change (len [le]) with 1. lia.
  - unfold take_z, len. rewrite Nat2Z.id. apply take_app_length.
  - unfold take_z, drop_z, len. rewrite Nat2Z.id, drop_app_length.
    replace (Z.to_nat 10) with (length tg) by (unfold len in Ht; lia). apply take_app_length.
Qed.

Lemma unprotect_wrapped ins p1 p2 data le counter any :
  framed data -> len (command_objects counter ins data le) <= 245 ->
  let objects := command_objects counter ins data le in
  unprotect counter
    ([0x0C; ins; p1; p2; len objects + 10]
     ++ (objects ++ tag_over counter (protected_header ins p1 p2 ++ objects)) ++ [any])
  = Some (short_command 0 ins p1 p2 data le).
Proof.
  intros Hf Ho objects. fold objects in Ho. unfold protected_header, unprotect.
  change ([0x0C; ins; p1; p2; len objects + 10] ++ ?r) with (0x0C :: ins :: p1 :: p2 :: (len objects + 10) :: r).
  cbv iota beta. pose proof (len_nonneg objects).
  destruct (unprotect_tag 0x0C ins p1 p2 objects counter any ltac:(lia)) as (Hl & Ht & Hg).
  rewrite Z.eqb_refl, andb_true_l, Hl, Ht, Hg. cbn [negb]. rewrite bool_decide_eq_true_2 by done. cbn [negb].
  clear Hl Ht Hg. unfold objects, command_objects.
  assert (forall b, Ber.encodes (tlv1 0x97 [b]) 0x97 [b]) as Hle
    by (intros; apply encodes_tlv1; [apply tag1_97|by vm_compute]).
  destruct data as [|d0 data'].
  - destruct le as [b|]; [|done]. cbn [cryptogram_of is_empty app le_object].
    by rewrite (items_of [tlv1 0x97 [b]] [(0x97, [b])])
      by (cbn [concat]; (by rewrite app_nil_r) || (constructor; [apply Hle|constructor])).
  - destruct (cryptogram_record counter (is_odd ins) (d0 :: data') ltac:(done) Hf)
      as (t & v & He & _ & Hct & Hopen). set (cg := cryptogram_of _ _ _) in *.
    destruct le as [b|]; cbn [le_object].
    + rewrite (items_of [cg; tlv1 0x97 [b]] [(t, v); (0x97, [b])])
        by (cbn [concat]; (by rewrite app_nil_r) || (constructor; [done|constructor; [apply Hle|constructor]])).
      cbn [zip_with fst snd]. by rewrite Hopen.
    + rewrite (items_of [cg] [(t, v)]) by (done || (constructor; [done|constructor])).
      cbn [zip_with fst snd Ber.tag]. assert (t =? 0x97 = false) as -> by (by destruct Hct as [-> | ->]).
      by rewrite Hopen.
Qed.

(** The objects of a protected response: what the channel collects of it. *)
Lemma response_cryptogram {T E O} (self : SmTransport T O) odd data :
  k_enc self = ke -> framed data ->
  exists c ws rs, cryptogram_of (ssc self) odd data = concat ws
    /\ Forall2 (fun w r => Ber.encodes w r.1 r.2) ws rs
    /\ (forall rest acc, response_objects (E := E)
          (zip_with (fun w r => Ok (Ber.mkBerTlvAny r.1 r.2 (len w))) ws rs ++ rest) (mkObjects None None acc)
        = response_objects rest (mkObjects c None acc))
    /\ reencode_cryptogram (E := E) c = Ok (concat ws)
    /\ response_body (E := E) self c = Ok data.
Proof.
  intros He Hf. unfold cryptogram_of. destruct data as [|b0 data'].
  { exists None, [], []. split_and!; [done|constructor|done..]. }
  set (data := b0 :: data') in *. cbn [is_empty].
  assert (is_empty data = false) as -> by done.
  pose proof (framed_cipher (ssc self) _ Hf) as Hc. pose proof (decrypt_cipher (ssc self) data) as Hd.
  set (c := cbc_encrypt _ _ _) in *.
  assert (len c mod AES_BLOCK = 0) as Ha
    by (unfold c; rewrite cbc_encrypt_len by apply pad_aligned; apply pad_aligned).
  assert (forall t v, Ber.tag1_ok t -> len v <= U32_MAX -> reencode_cryptogram (E := E) (Some (t, v))
    = Ok (concat [tlv1 t v])) as Hre.
  { intros t v Ht Hv. unfold reencode_cryptogram. rewrite tlv_tlv1 by done. cbn [map_err concat].
    by rewrite app_nil_r. }
  assert (forall t v, (t = TAG_CRYPTOGRAM /\ v = PADDING_INDICATOR :: c \/ t = TAG_CRYPTOGRAM_ODD /\ v = c) ->
    response_body (E := E) self (Some (t, v)) = Ok data) as Hb.
  { intros t v Ht. unfold response_body. rewrite He.
    assert ((if t =? TAG_CRYPTOGRAM then match v with [] => Err (SmMalformed "cryptogram empty")
      | indicator :: cipher => if negb (indicator =? PADDING_INDICATOR)
          then Err (SmMalformed "cryptogram padding indicator") else Ok cipher end
      else Ok v) = @Ok (SmError E) _ c) as -> by (by destruct Ht as [[-> ->]|[-> ->]]).
    rewrite rbind_ok, Ha. cbn [negb Z.eqb]. rewrite aligned_decrypt by done. cbn [map_err].
    rewrite rbind_ok. unfold aes256_ecb_encrypt_block. by rewrite Hd. }
  destruct odd.
  - exists (Some (TAG_CRYPTOGRAM_ODD, c)), [tlv1 0x85 c], [(0x85, c)].
    split_and!; [cbn [concat]; by rewrite app_nil_r| |done|apply Hre; [apply tag1_85|lia]|apply Hb; by right].
    constructor; [|constructor]. apply encodes_tlv1; [apply tag1_85|cbn; lia].
  - exists (Some (TAG_CRYPTOGRAM, 0x01 :: c)), [tlv1 0x87 (0x01 :: c)], [(0x87, 0x01 :: c)].
    split_and!; [cbn [concat]; by rewrite app_nil_r| |done|apply Hre; [apply tag1_87|rewrite len_cons; lia]
      |apply Hb; by left].
    constructor; [|constructor]. apply encodes_tlv1; [apply tag1_87|cbn [fst snd]; rewrite len_cons; lia].
Qed.

(** A response the card protected is accepted, and opens to its content. *)
Lemma authenticate_protected {T E O} (self : SmTransport T O) odd r :
  k_enc self = ke -> k_mac self = km -> framed (body r) ->
  authenticate (E := E) self (protect_response (ssc self) odd r)
  = Ok (body r, Status.from_bytes (sw1 r) (sw2 r)).
Proof.
  intros He Hm Hf. unfold authenticate, protect_response.
  destruct (response_cryptogram (E := E) self odd (body r) He Hf) as (c & ws & rs & -> & Hrec & Hobj & Hre & Hb).
  set (st := tlv1 0x99 [sw1 r; sw2 r]).
  set (mac := take_z (cmac km (iso7816_4_pad (ssc self ++ concat ws ++ st))) 8).
  assert (len mac = 8) as Hmac by (unfold mac; rewrite len_take_z; [done|rewrite cmac_len; by vm_compute]).
  assert (Ber.tlv TAG_PROTECTED_STATUS [sw1 r; sw2 r] = Ok st) as Hst
    by (apply tlv_tlv1; [apply tag1_99|by vm_compute]).
  rewrite (items_of (ws ++ [st; tlv1 0x8E mac]) (rs ++ [(0x99, [sw1 r; sw2 r]); (0x8E, mac)])).
  2:{ rewrite concat_app. cbn [concat]. by rewrite app_nil_r, <- app_assoc. }
  2:{ apply Forall2_app; [done|]. constructor; [by apply encodes_tlv1; [apply tag1_99|by vm_compute]|].
      constructor; [|constructor]. apply encodes_tlv1; [apply tag1_8E|cbn; rewrite Hmac; by vm_compute]. }
  rewrite zip_with_app by (by eapply Forall2_length). rewrite Hobj.
  replace (response_objects (E := E) _ (mkObjects c None None))
    with (@Ok (SmError E) _ (mkObjects c (Some [sw1 r; sw2 r]) (Some mac))) by reflexivity.
  rewrite rbind_ok. cbn [obj_status obj_mac obj_cryptogram ok_or]. rewrite !rbind_ok.
  cbn [two_bytes]. rewrite rbind_ok, Hmac. cbn [negb Z.eqb MAC_LEN Pos.eqb]. rewrite Hre, rbind_ok, Hst.
  cbn [map_err]. rewrite rbind_ok, Hm.
  rewrite bool_decide_eq_true_2 by done. cbn [negb]. by rewrite Hb.
Qed.

(** The data a protected short command has room for, with and without Le. *)
Definition capacity (le : option Z) : Z := match le with Some _ => 223 | None => 239 end.

Lemma len_tlv1 t v : len v <= 65535 ->
  len (tlv1 t v) = len v + (if len v <=? 127 then 2 else if len v <=? 255 then 3 else 4).
Proof.
  intros Hv. unfold tlv1. rewrite !len_app. change (len [t]) with 1. unfold Ber.length_octets, U8_MAX, U16_MAX.
  destruct (Z.ltb_spec (len v) 0x80); [if_true; change (len [len v]) with 1; lia|]. if_false.
  destruct (Z.leb_spec (len v) 255); [change (len [Ber.LONG_FORM_1B; len v]) with 2; lia|].
  if_true. rewrite len_cons, len_be_bytes. lia.
Qed.

Lemma command_objects_fit counter ins data le :
  len data <= 255 -> (len (command_objects counter ins data le) <= 245 <-> len data <= capacity le).
Proof.
  intros Hd. pose proof (len_nonneg data). unfold command_objects. rewrite len_app.
  assert (len (le_object le) = match le with Some _ => 3 | None => 0 end) as -> by (by destruct le).
  unfold cryptogram_of. rewrite is_empty_len. destruct (Z.eqb_spec (len data) 0) as [Hz|Hz].
  { change (len (@nil Z)) with 0. unfold capacity. destruct le; lia. }
  pose proof (len_cipher counter data) as Hc. set (c := cbc_encrypt _ _ _) in *.
  pose proof (Z.div_mod (len data) 16 ltac:(lia)). pose proof (Z.mod_pos_bound (len data) 16 ltac:(lia)).
  assert (exists q, len data / 16 = q) as [q Hq] by eauto. rewrite Hq in *.
  unfold capacity. destruct (is_odd ins); rewrite len_tlv1, ?len_cons by (rewrite ?len_cons; lia);
    repeat case_if; destruct le; lia.
Qed.

(** A card whose answers fit the framing. *)
Definition card_ok : Prop := forall w c,
  framed (body (card w c).1) /\ is_u8 (sw1 (card w c).1) /\ is_u8 (sw2 (card w c).1).

(** The two ends hold the same keys and counter. *)
Definition lockstep {O} (self : SmTransport (Peer C) O) : Prop :=
  k_enc self = ke /\ k_mac self = km /\ peer_ssc (inner self) = ssc self.

(** The channel after an exchange: the card has moved, the counters by two. *)
Definition exchanged {O} (c : C) (self : SmTransport (Peer C) O) : SmTransport (Peer C) O :=
  let counter := Ssc_increment (Ssc_increment (ssc self)) in
  with_inner (mkPeer c counter) (with_ssc counter self).

Lemma exchanged_lockstep {O} c (self : SmTransport (Peer C) O) : lockstep self -> lockstep (exchanged c self).
Proof. by intros (? & ? & ?). Qed.

(** The response to a wrapped command, unwrapped. *)
Lemma finish_protected {O} (self : SmTransport (Peer C) O) odd r :
  k_enc self = ke -> k_mac self = km -> framed (body r) -> is_u8 (sw1 r) -> is_u8 (sw2 r) ->
  finish (E := unit)
    (Response (mkResponse (protect_response (Ssc_increment (ssc self)) odd r) (sw1 r) (sw2 r))) self
  = (Ok (Response r), with_ssc (Ssc_increment (ssc self)) self).
Proof.
  intros He Hm Hf Hu1 Hu2. unfold finish. cbn [body].
  assert (is_empty (protect_response (Ssc_increment (ssc self)) odd r) = false) as ->.
  { rewrite is_empty_len. unfold protect_response. rewrite len_app, len_tag_over.
    set (objects := _ ++ tlv1 0x99 _). pose proof (len_nonneg objects). lia. }
  unfold unwrap, step_ssc, ebind. cbv beta iota zeta.
  rewrite (authenticate_protected (with_ssc (Ssc_increment (ssc self)) self)) by done.
  cbv beta iota zeta. destruct (status_bytes_back _ _ Hu1 Hu2) as [-> ->]. by destruct r.
Qed.

Lemma single_transparent {O} cls ins p1 p2 data le (self : SmTransport (Peer C) O) :
  card_ok -> lockstep self -> len data <= capacity le ->
  transmit_single (short_command cls ins p1 p2 data le) self
  = let '(r, c) := card (short_command 0 ins p1 p2 data le) (peer_card (inner self)) in
    (Ok (Response r), exchanged c self).
Proof.
  intros Hok (He & Hm & Hs) Hd.
  assert (len data <= 255) as Hd' by (unfold capacity in Hd; destruct le; lia).
  unfold transmit_single, ebind at 1. rewrite wrap_short by done. cbv beta iota zeta.
  set (counter := Ssc_increment (ssc self)). set (objects := command_objects counter ins data le).
  assert (len objects <= 245) as Ho by (by apply command_objects_fit).
  pose proof (len_nonneg objects). pose proof (len_tag_over counter (protected_header ins p1 p2 ++ objects)) as Ht.
  rewrite case_4_ok by (rewrite len_app, Ht; lia).
  unfold ebind, elift, emap_err, on_inner. cbn [map_err transmit peer_transport inner with_ssc as_bytes from_wire].
  unfold peer_exchange. rewrite Hs. fold counter.
  rewrite (len_app objects), Ht.
  change (header_to_bytes (mkHeader SecureMessaging ins p1 p2) ++ [len objects + 10] ++ ?r)
    with ([0x0C; ins; p1; p2; len objects + 10] ++ r).
  unfold objects at 1. rewrite unprotect_wrapped by (done || (unfold framed; lia)).
  change (default 0 (short_command 0 ins p1 p2 data le !! 1%nat)) with ins.
  destruct (Hok (short_command 0 ins p1 p2 data le) (peer_card (inner self))) as (Hf & Hu1 & Hu2).
  destruct (card _ _) as [r c]. cbn [fst] in *. cbn [map_err].
  exact (finish_protected (with_inner (mkPeer c (Ssc_increment counter)) (with_ssc counter self))
    (is_odd ins) r He Hm Hf Hu1 Hu2).
Qed.

(** The channel as a transport, on a command it sends in one exchange. *)
Lemma transmit_transparent {O} cls ins p1 p2 data le cmd (self : SmTransport (Peer C) O) :
  card_ok -> lockstep self -> len data <= capacity le ->
  as_bytes cmd = short_command cls ins p1 p2 data le ->
  split_protected_read (E := unit) (as_bytes cmd) = Ok None ->
  transmit cmd self
  = let '(r, c) := card (short_command 0 ins p1 p2 data le) (peer_card (inner self)) in
    (Ok (Response r), exchanged c self).
Proof.
  intros Hok Hl Hd Hc Hs. cbn [transmit SmTransport_transport]. unfold ebind, elift_raise, elift.
  rewrite Hs. cbn [map_err]. unfold emap_err. rewrite Hc, single_transparent by done.
  by destruct (card _ _).
Qed.

Lemma len_objects_small counter ins data le :
  len data <= 31 -> len (command_objects counter ins data le) <= 38.
Proof.
  intros Hd. pose proof (len_nonneg data). unfold command_objects. rewrite len_app.
  assert (len (le_object le) <= 3) as Hle by (destruct le; by vm_compute).
  unfold cryptogram_of. case_if; [change (len (@nil Z)) with 0; lia|].
  pose proof (len_cipher counter data) as Hc. set (c := cbc_encrypt _ _ _) in *.
  pose proof (Z.div_lt_upper_bound (len data) 16 2 ltac:(lia) ltac:(lia)).
  pose proof (Z.div_pos (len data) 16 ltac:(lia) ltac:(lia)).
  case_if; rewrite len_tlv1, ?len_cons by (rewrite ?len_cons; lia); case_if; lia.
Qed.

Lemma credential_transparent {O} ins p1 p2 data cmd (self : SmTransport (Peer C) O) :
  card_ok -> lockstep self -> len data <= 31 ->
  expose_wire cmd = Some (short_command 0 ins p1 p2 data None) ->
  transmit_credential cmd self
  = let '(r, c) := card (short_command 0 ins p1 p2 data None) (peer_card (inner self)) in
    (Ok (Response r), exchanged c self).
Proof.
  intros Hok (He & Hm & Hs) Hd Hc. cbn [transmit_credential SmTransport_transport].
  unfold ebind at 1, or_panic at 1. rewrite Hc. unfold ebind at 1, emap_err at 1.
  rewrite wrap_short by (done || lia). cbn [map_err]. cbv zeta.
  set (counter := Ssc_increment (ssc self)). set (objects := command_objects counter ins data None).
  assert (len objects <= 38) as Ho by (by apply len_objects_small).
  pose proof (len_nonneg objects). pose proof (len_tag_over counter (protected_header ins p1 p2 ++ objects)) as Ht.
  destruct (protected_credential_wire (mkHeader SecureMessaging ins p1 p2)
    (objects ++ tag_over counter (protected_header ins p1 p2 ++ objects)) SM_LE_ANY) as (_ & _ & Hp).
  { rewrite len_app, Ht. ulia. }
  destruct Hp as (wrapped & Hw & Hx); [rewrite len_app, Ht; lia|].
  unfold ebind at 1, or_panic at 1. rewrite Hw. unfold ebind at 1, elift_raise, elift. cbn [map_err].
  unfold ebind, emap_err, on_inner. cbn [transmit_credential peer_transport inner with_ssc]. rewrite Hx.
  unfold peer_exchange. rewrite Hs. fold counter. rewrite (len_app objects), Ht.
  change (header_to_bytes (mkHeader SecureMessaging ins p1 p2) ++ [len objects + 10] ++ ?r)
    with ([0x0C; ins; p1; p2; len objects + 10] ++ r).
  unfold objects at 1. rewrite unprotect_wrapped by (unfold framed; fold objects; lia).
  change (default 0 (short_command 0 ins p1 p2 data None !! 1%nat)) with ins.
  destruct (Hok (short_command 0 ins p1 p2 data None) (peer_card (inner self))) as (Hf & Hu1 & Hu2).
  destruct (card _ _) as [r c]. cbn [fst] in *. cbn [map_err].
  pose proof (finish_protected (with_inner (mkPeer c (Ssc_increment counter)) (with_ssc counter self))
    (is_odd ins) r He Hm Hf Hu1 Hu2) as Hfin. cbn [ssc with_inner with_ssc] in Hfin.
  fold counter in Hfin. unfold emap_err. by rewrite Hfin.
Qed.

(** ** Lemmas: reading through the channel *)

Abbreviation read_at off le := (ReadBinary_into_apdu Plain (Direct (mkDirectOffset15 off)) le).

Definition want_of (le : Z) : Z := if le =? 0 then 256 else le.

(** A plain card that serves READ BINARY by offset: the bytes from the offset,
    as many as asked for or left. *)
Definition serves (file : C -> option bytes) : Prop := forall c f off le,
  file c = Some f -> 0 <= off <= len f -> off <= 0x7FFF -> is_u8 le ->
  let '(r, c') := card (as_bytes (read_at off le)) c in
  body r = take_z (drop_z f off) (want_of le) /\ file c' = Some f /\
  (status_word r = Status.Success \/ status_word r = Status.EndOfFile /\ len f < off + want_of le).

Lemma read_at_bytes off le :
  as_bytes (read_at off le) = short_command 0 0xB0 (Z.land (Z.shiftr off 8) 255) (Z.land off 255) [] (Some le).
Proof. reflexivity. Qed.

Lemma split_direct off le :
  0 <= off <= 0x7FFF -> is_u8 le ->
  split_protected_read (E := unit) (as_bytes (read_at off le))
  = if want_of le <=? 223 then Ok None
    else if off + 223 <=? 0x7FFF
    then Ok (Some (as_bytes (read_at off 223), as_bytes (read_at (off + 223) (want_of le - 223))))
    else Err (SmMalformed "fragmented read offset out of form").
Proof.
  intros Hoff Hle. rewrite read_at_bytes. unfold short_command.
  cbn [is_empty app le_field split_protected_read]. change (0xB0 =? READ_BINARY_INS) with true. cbn [negb].
  change (if le =? SM_LE_ANY then LE_ALL_BYTES else le) with (want_of le).
  change SM_READ_BINARY_MAX_LE with 223. destruct (Z.leb_spec (want_of le) 223); [done|].
  assert (want_of le <= 256) by (unfold want_of; case_if; ulia).
  assert (0 <= off / 256 <= 127) by (split; [apply Z.div_pos; lia|apply Z.lt_succ_r, Z.div_lt_upper_bound; lia]).
  assert (Z.land (Z.shiftr off 8) 255 = off / 256) as Hp1
    by (rewrite land_255, shiftr_8; apply Z.mod_small; lia).
  assert (Z.land off 255 = off mod 256) as Hp2 by apply land_255.
  pose proof (Z.mod_pos_bound off 256 ltac:(lia)). pose proof (Z.div_mod off 256 ltac:(lia)).
  assert (Z.land (off / 256) P1_SFI_FORM_FLAG = 0) as Hflag.
  { assert (forallb (fun n => Z.land n P1_SFI_FORM_FLAG =? 0) (seqZ 0 128) = true) as Hall by (by vm_compute).
    rewrite forallb_forall in Hall. apply Z.eqb_eq, Hall, list_elem_of_In, elem_of_seqZ. lia. }
  rewrite Hp1, Hp2, Hflag. cbn [Z.eqb]. rewrite lor_shiftl_byte by ulia.
  replace (off / 256 * 256 + off mod 256) with off by lia.
  rewrite checked_add_some by ulia. cbn [mbind option_bind]. unfold DIRECT_OFFSET_MAX.
  destruct (off + 223 <=? 0x7FFF) eqn:Hlast; [|done].
  cbn [ok_or]. rewrite rbind_ok, try_from_uint_some by ulia. cbn [ok_or]. rewrite rbind_ok.
  rewrite read_at_bytes. unfold short_command. cbn [is_empty app le_field]. by rewrite Hp1, Hp2.
Qed.

(** One read of a served file over the channel. *)
Lemma single_read {O} file f off le (self : SmTransport (Peer C) O) :
  card_ok -> serves file -> lockstep self -> file (peer_card (inner self)) = Some f ->
  0 <= off <= len f -> off <= 0x7FFF -> is_u8 le ->
  exists r c, transmit_single (as_bytes (read_at off le)) self = (Ok (Response r), exchanged c self)
    /\ body r = take_z (drop_z f off) (want_of le) /\ file c = Some f
    /\ (status_word r = Status.Success \/ status_word r = Status.EndOfFile /\ len f < off + want_of le).
Proof.
  intros Hok Hsv Hl Hf Ho Hoff Hle. specialize (Hsv _ _ _ _ Hf Ho Hoff Hle).
  rewrite read_at_bytes in *. rewrite single_transparent by done.
  destruct (card _ _) as [r c]. by exists r, c.
Qed.

(** Any read of a served file over the channel, in one part or in two. *)
Lemma channel_read {O} file f off le (self : SmTransport (Peer C) O) :
  card_ok -> serves file -> lockstep self -> file (peer_card (inner self)) = Some f ->
  0 <= off <= len f -> off <= 0x7FFF -> is_u8 le -> want_of le <= 223 \/ off + 223 <= 0x7FFF ->
  exists r self', transmit (read_at off le) self = (Ok (Response r), self')
    /\ body r = take_z (drop_z f off) (want_of le)
    /\ lockstep self' /\ file (peer_card (inner self')) = Some f
    /\ (status_word r = Status.Success \/ status_word r = Status.EndOfFile /\ len f < off + want_of le).
Proof.
  intros Hok Hsv Hl Hf Ho Hoff Hle Hform. cbn [transmit SmTransport_transport].
  unfold ebind at 1, elift_raise, elift. rewrite split_direct by (done || lia).
  assert (is_u8 223) as Hu by (by vm_compute).
  destruct (Z.leb_spec (want_of le) 223) as [Hw|Hw]; [|if_true]; cbn [map_err]; unfold emap_err.
  { destruct (single_read file f off le self) as (r & c & -> & Hb & Hc & Hst); try done.
    exists r, (exchanged c self). split_and!; try done; by apply exchanged_lockstep. }
  assert (want_of le <= 256) by (unfold want_of; case_if; ulia).
  unfold transmit_fragmented_read, ebind.
  destruct (single_read file f off 223 self) as (r & c & -> & Hb & Hc & Hst); try done.
  change (want_of 223) with 223 in *.
  pose proof (exchanged_lockstep c self Hl) as Hl'.
  rewrite Hb, Pkcs15.len_take_min, len_drop_z by lia. change SM_READ_BINARY_MAX_LE with 223.
  destruct (Z.leb_spec (off + 223) (len f)) as [Hfull|Hshort].
  - assert (status_word r = Status.Success) as Hok1 by (destruct Hst as [?|[_ ?]]; [done|lia]).
    unfold response_is_ok. rewrite Hok1. cbn [Status.is_success negb orb]. if_false.
    assert (want_of (want_of le - 223) = want_of le - 223) as Hw2 by (unfold want_of at 1; case_if; lia).
    destruct (single_read file f (off + 223) (want_of le - 223) (exchanged c self))
      as (r2 & c2 & -> & Hb2 & Hc2 & Hst2); try done; [lia|lia|ulia|].
    rewrite Hw2 in *. eexists _, (exchanged c2 (exchanged c self)). split; [done|].
    split_and!; [|by apply exchanged_lockstep|done|].
    + cbn [body]. rewrite Hb2. replace (want_of le) with (223 + (want_of le - 223)) at 2 by lia.
      rewrite <- Pkcs15.take_z_step by lia. do 2 f_equal. unfold drop_z. rewrite drop_drop. f_equal. lia.
    + destruct Hst2 as [Hs2|[Hs2 ?]]; [left|right]; (split; [exact Hs2|lia]) || exact Hs2.
  - replace (negb (response_is_ok r) || negb (Z.min 223 (len f - off) =? 223)) with true
      by (symmetry; apply orb_true_iff; right; lia).
    exists r, (exchanged c self). split_and!; try done.
    + rewrite Hb. rewrite !Pkcs15.take_z_ge; [done|rewrite len_drop_z; lia..].
    + destruct Hst as [?|[? ?]]; [by left|right; split; [done|lia]].
Qed.

Lemma split_small off le : 1 <= le <= 223 ->
  split_protected_read (E := unit) (as_bytes (read_at off le)) = Ok None.
Proof.
  intros Hle. rewrite read_at_bytes. unfold short_command.
  cbn [is_empty app le_field split_protected_read]. change (0xB0 =? READ_BINARY_INS) with true. cbn [negb].
  unfold SM_LE_ANY, SM_READ_BINARY_MAX_LE. if_false. by if_true.
Qed.

(** The file behind a channel whose ends are in step. *)
Definition channel_file {O} (file : C -> option bytes) (self : SmTransport (Peer C) O) : option bytes :=
  if bool_decide (k_enc self = ke /\ k_mac self = km /\ peer_ssc (inner self) = ssc self)
  then file (peer_card (inner self)) else None.

Lemma channel_file_inv {O} file (self : SmTransport (Peer C) O) f :
  channel_file file self = Some f <-> lockstep self /\ file (peer_card (inner self)) = Some f.
Proof.
  unfold channel_file, lockstep. split.
  - case_bool_decide; [by split|done].
  - intros [Hl Hf]. by rewrite bool_decide_eq_true_2.
Qed.

(** The channel over a card that serves files serves them: the interface the
    file layer is proved against. *)
#[local] Instance channel_serves {O} file (Hok : card_ok) (Hsv : serves file)
  : Pkcs15.ServesFile (SmTransport (Peer C) O) (fault (SmError unit)).
Proof.
  refine {| Pkcs15.selected := channel_file file |}. unfold Pkcs15.READ_CHUNK.
  intros self f off want [Hl Hf]%channel_file_inv Ho Hoff Hw.
  pose proof (Hsv _ _ _ want Hf Ho Hoff ltac:(ulia)) as Hr.
  rewrite (transmit_transparent 0 0xB0 (Z.land (Z.shiftr off 8) 255) (Z.land off 255) [] (Some want))
    by (done || (apply split_small; lia)).
  rewrite read_at_bytes in Hr. destruct (card _ _) as [r c]. destruct Hr as (Hb & Hc & Hst).
  assert (want_of want = want) as Hwant by (unfold want_of; case_if; lia). rewrite Hwant in *.
  exists r, (exchanged c self). split_and!; [done..| |done].
  apply channel_file_inv. split; [by apply exchanged_lockstep|done].
Defined.

(** ** Properties *)

(** C17 (refinement) The channel implements the plain transport.  Against a
    card that runs the other end of the protocol with the same keys and
    counter, a short command that fits and is not split, plain or credential,
    gets exactly the response of the plain card to the plain command, and both
    ends stay in step; only the class byte is not carried, the card sees class
    zero. *)
Theorem sm_transparent {O : Type} (ins p1 p2 : Z) (data : bytes) (le : option Z)
  (self : SmTransport (Peer C) O) :
  card_ok -> lockstep self ->
  let answered cmd o := o = let '(r, c) := card cmd (peer_card (inner self)) in
                            (Ok (Response r), exchanged c self) in
  (len data <= capacity le -> forall cls cmd,
     as_bytes cmd = short_command cls ins p1 p2 data le ->
     split_protected_read (E := unit) (as_bytes cmd) = Ok None ->
     answered (short_command 0 ins p1 p2 data le) (transmit cmd self)) /\
  (len data <= 31 -> forall cmd,
     expose_wire cmd = Some (short_command 0 ins p1 p2 data None) ->
     answered (short_command 0 ins p1 p2 data None) (transmit_credential cmd self)) /\
  (forall c, lockstep (exchanged c self)).
Proof.
  intros Hok Hl answered. split_and!.
  - intros Hd cls cmd Hc Hs. unfold answered. by eapply transmit_transparent.
  - intros Hd cmd Hc. unfold answered. by apply credential_transparent.
  - intros c. by apply exchanged_lockstep.
Qed.

(** C35 (equivalence) Reading at a direct offset through the channel is reading
    the card.  For every file of a card that serves it and every READ BINARY at
    a direct offset within it, in one part or split in two, the channel returns
    exactly the bytes the single plain read asks for, up to 256, with the status
    a plain read may have and both ends in step; only a read over 223 bytes
    whose second part would start past the last direct offset is refused, with
    nothing sent.  Reads by short file identifier are not covered: the second
    part of such a split can address another file. *)
Theorem sm_read_equivalent {O : Type} (file : C -> option bytes) (f : bytes) (off le : Z)
  (self : SmTransport (Peer C) O) :
  card_ok -> serves file -> lockstep self -> file (peer_card (inner self)) = Some f ->
  0 <= off <= len f -> off <= 0x7FFF -> is_u8 le ->
  if (want_of le <=? 223) || (off + 223 <=? 0x7FFF) then
    exists r self', transmit (read_at off le) self = (Ok (Response r), self')
      /\ body r = take_z (drop_z f off) (want_of le)
      /\ lockstep self' /\ file (peer_card (inner self')) = Some f
      /\ (status_word r = Status.Success \/ status_word r = Status.EndOfFile /\ len f < off + want_of le)
  else
    transmit (read_at off le) self
    = (Err (Raised (SmMalformed "fragmented read offset out of form")), self).
Proof.
  intros Hok Hsv Hl Hf Ho Hoff Hle.
  destruct (_ || _) eqn:Hform; [apply orb_true_iff in Hform|apply orb_false_iff in Hform as [Hw Hlast]].
  - apply channel_read; try done. lia.
  - cbn [transmit SmTransport_transport]. unfold ebind, elift_raise, elift.
    by rewrite split_direct, Hw, Hlast by (done || lia).
Qed.

(** (functional) The file layer on the channel: against a card that serves
    its selected file, the DER read through secure messaging returns the
    object at the start of the file. *)
Theorem sm_reads_object {O : Type} (file : C -> option bytes) (fuel : nat) (what : string)
  (self : SmTransport (Peer C) O) (obj pad : bytes) :
  card_ok -> serves file -> lockstep self -> file (peer_card (inner self)) = Some (obj ++ pad) ->
  all_bytes (obj ++ pad) -> Pkcs15.der_object_total_length obj = Ok (Some (len obj)) ->
  len obj <= Pkcs15.MAX_OBJECT_BYTES < Z.of_nat fuel ->
  exists self', Pkcs15.read_binary_der_object (E := fault (SmError unit)) fuel what self
                = Some (Ok obj, self').
Proof.
  intros Hok Hsv Hl Hf Hb Hd [Hm Hfu].
  apply (Pkcs15.der_loop_serves (H0 := channel_serves file Hok Hsv) fuel what (obj ++ pad) obj pad self); try done.
  by apply channel_file_inv.
Qed.

End Peer.

(** Which commands fit the channel. *)
Lemma command_capacity `{SymmetricLaws} {T E O : Type} `{CardTransport T E}
  (cls ins p1 p2 : Z) (data : bytes) (le : option Z) (self : SmTransport T O) :
  len data <= 255 ->
  let self1 := with_ssc (Ssc_increment (ssc self)) self in
  (len data <= capacity le ->
   exists cmd, len (as_bytes cmd) <= 261 /\
     transmit_single (short_command cls ins p1 p2 data le) self
     = ebind (emap_err SmErrorTransport (on_inner (transmit cmd))) finish self1) /\
  (capacity le < len data ->
   transmit_single (E := E) (short_command cls ins p1 p2 data le) self = (Err CommandTooLong, self1)).
Proof.
  intros Hd self1. set (counter := Ssc_increment (ssc self)).
  set (objects := command_objects (k_enc self) counter ins data le).
  pose proof (command_objects_fit (k_enc self) counter ins data le Hd) as Hfit. fold objects in Hfit.
  pose proof (len_nonneg objects).
  pose proof (len_tag_over (k_mac self) counter (protected_header ins p1 p2 ++ objects)) as Ht.
  split; intros Hc; unfold transmit_single, ebind at 1;
    rewrite (wrap_short (k_enc self) (k_mac self)) by done; cbv beta iota zeta; fold self1 counter objects;
    unfold ebind at 1, elift.
  - rewrite case_4_ok by (rewrite len_app, Ht; lia). cbn [map_err]. eexists. split; [|done].
    cbn [as_bytes from_wire]. rewrite !len_app, Ht. change (len (header_to_bytes _)) with 4.
    rewrite !len_cons, len_nil. lia.
  - unfold case_4, short_form_lc, SHORT_APDU_DATA_MAX.
    rewrite is_empty_len, len_app, Ht, Z.gtb_ltb. if_false. by if_true.
Qed.

(** (error) Every branch of a protected exchange, on any card.  A response
    is returned only when its tag authenticates the counter of this exchange
    with the objects the result was read from; an unprotected or forged answer
    is an error; at most one command is sent, and the counter moves by two when
    a response was examined, by one when the command was sent or given up, and
    not at all for a command that is no short form. *)
Theorem sm_exchange_accounts `{Symmetric} {T E O : Type} `{CardTransport T E} (plain : bytes)
  (self : SmTransport (T * list (sent E)) O) :
  let '(o, self') := transmit_single (E := E) plain self in exchange_report self self' o.
Proof. apply transmit_single_report. Qed.

(** C36 (bounds) The room of a protected command, on any card.  Data up to 223
    bytes with Le, or 239 without, is sent in one command of at most 261
    bytes; anything longer is refused as too long with nothing sent, but with
    the counter already stepped, so the channel is out of step with a card
    that never saw the command.  In particular every non-final command of a
    chain, 255 data bytes, is refused. *)
Theorem sm_command_capacity `{SymmetricLaws} {T E O : Type} `{CardTransport T E}
  (cls ins p1 p2 : Z) (data : bytes) (le : option Z) (self : SmTransport T O) :
  len data <= 255 ->
  let self1 := with_ssc (Ssc_increment (ssc self)) self in
  (len data <= capacity le ->
   exists cmd, len (as_bytes cmd) <= 261 /\
     transmit_single (short_command cls ins p1 p2 data le) self
     = ebind (emap_err SmErrorTransport (on_inner (transmit cmd))) finish self1) /\
  (capacity le < len data ->
   transmit_single (E := E) (short_command cls ins p1 p2 data le) self = (Err CommandTooLong, self1)).
Proof. apply command_capacity. Qed.

(** ** A concrete instance of the primitives and of a card *)

Definition byte_sum (m : bytes) : Z := foldr Z.add 0 m mod 256.

#[export] Instance toy_symmetric : Symmetric := {
  cbc_encrypt k iv p := reverse p;
  cbc_decrypt k iv c := reverse c;
  ecb_encrypt k b := b;
  cmac k m := repeat (byte_sum (k ++ m)) 16;
  sha256 m := repeat (byte_sum m) 32 }.

#[export] Instance toy_laws : SymmetricLaws.
Proof.
  assert (forall p : bytes, len (reverse p) = len p) as Hr by (intros; unfold len; by rewrite length_reverse).
  split; try (by intros; apply reverse_involutive || by intros; apply Hr || done).
  - intros k iv p Hp. cbn [cbc_encrypt toy_symmetric]. unfold all_bytes. by rewrite reverse_Permutation.
  - intros k m. apply Forall_forall. intros x Hx%list_elem_of_In%repeat_spec. subst x.
    unfold byte_sum. pose proof (Z.mod_pos_bound (foldr Z.add 0 (k ++ m)) 256). ulia.
Qed.

(** A card with one file, read by offset. *)
Definition toy_card (w : bytes) (f : bytes) : ResponseApdu * bytes :=
  match w with
  | [_; 0xB0; p1; p2; le] =>
      (mkResponse (take 256 (take_z (drop_z f (be_value [p1; p2])) (want_of le))) 0x90 0x00, f)
  | _ => (mkResponse [] 0x6D 0x00, f)
  end.

Lemma toy_card_ok : card_ok toy_card.
Proof.
  intros w f.
  assert (forall l : bytes, framed (take 256 l)) as Ht.
  { intros l. unfold framed, len. rewrite length_take. lia. }
  assert (framed []) as Hn by by vm_compute.
  unfold toy_card. repeat (destruct w as [|? w]; [by vm_compute|]).
  all: repeat match goal with |- context [match ?x with _ => _ end] => destruct x end; cbn;
    (split_and!; [done|by vm_compute|by vm_compute]).
Qed.

Lemma toy_card_serves : serves toy_card Some.
Proof.
  intros c f off le [= ->] Ho Hoff Hle. rewrite read_at_bytes. unfold short_command.
  cbn [is_empty app le_field toy_card].
  rewrite <- be_bytes_2, be_value_be_bytes by (simpl; lia). cbn [body]. split_and!; [|done|by left].
  apply take_ge. assert (want_of le <= 256) by (unfold want_of; case_if; ulia).
  unfold take_z. rewrite length_take. lia.
Qed.

(** A channel in step with the toy card. *)
Definition toy_channel (f : bytes) : SmTransport (Peer bytes) OpenedByCan :=
  mkSmTransport (mkPeer f Ssc_INITIAL) [1; 2] [3; 4] Ssc_INITIAL mkOpenedByCan.

Lemma sm_transparent_witness :
  transmit (CardTransport := SmTransport_transport
      (H0 := peer_transport toy_card [1; 2] [3; 4])) (ReadBinary_into_apdu Plain (Direct (mkDirectOffset15 1)) 2)
    (toy_channel [5; 6; 7; 8])
  = (Ok (Response (mkResponse [6; 7] 0x90 0x00)), exchanged [5; 6; 7; 8] (toy_channel [5; 6; 7; 8])).
Proof.
  destruct (sm_transparent toy_card [1; 2] [3; 4] 0xB0 0 1 [] (Some 2) (toy_channel [5; 6; 7; 8])
    toy_card_ok ltac:(by repeat split)) as (Hp & _ & _).
  apply (Hp ltac:(by vm_compute) 0 (ReadBinary_into_apdu Plain (Direct (mkDirectOffset15 1)) 2)); by vm_compute.
Defined.

Lemma sm_read_equivalent_witness :
  exists r self', transmit (CardTransport := SmTransport_transport
      (H0 := peer_transport toy_card [1; 2] [3; 4])) (ReadBinary_into_apdu Plain (Direct (mkDirectOffset15 0)) 0)
      (toy_channel (repeat 7 300)) = (Ok (Response r), self') /\ body r = repeat 7 256.
Proof.
  destruct (sm_read_equivalent toy_card [1; 2] [3; 4] Some (repeat 7 300) 0 0 (toy_channel (repeat 7 300))
    toy_card_ok toy_card_serves ltac:(by repeat split) eq_refl) as (r & self' & Ht & Hb & _);
    [by vm_compute..|].
  exists r, self'. split; [exact Ht|]. rewrite Hb. by vm_compute.
Defined.

Lemma sm_reads_object_witness :
  exists self', Pkcs15.read_binary_der_object
      (H := SmTransport_transport (H0 := peer_transport toy_card [1; 2] [3; 4])) (Z.to_nat 20000) "x"
      (toy_channel [0x30; 0x01; 0x05; 0x00]) = Some (Ok [0x30; 0x01; 0x05], self').
Proof.
  apply (sm_reads_object toy_card [1; 2] [3; 4] Some (Z.to_nat 20000) "x" (toy_channel [0x30; 0x01; 0x05; 0x00])
    [0x30; 0x01; 0x05] [0x00] toy_card_ok toy_card_serves).
  - by repeat split.
  - reflexivity.
  - by apply all_bytesb_spec.
  - by vm_compute.
  - rewrite Z2Nat.id; by vm_compute.
Defined.

Lemma sm_command_capacity_witness :
  (transmit_single (E := unit) (H0 := peer_transport toy_card [1; 2] [3; 4])
     (short_command 0x10 0x2A 0x80 0x86 (repeat 1 255) None) (toy_channel [])).1 = Err CommandTooLong.
Proof.
  destruct (sm_command_capacity (H1 := peer_transport toy_card [1; 2] [3; 4]) 0x10 0x2A 0x80 0x86
    (repeat 1 255) None (toy_channel []) ltac:(by vm_compute)) as [_ Hlong].
  by rewrite Hlong by (by vm_compute).
Defined.

(** The second part of a split read by short file identifier can address
    another file: the carry of the offset goes into the identifier. *)
Example sfi_fragment_leaves_file :
  exists first p1 p2 le,
    split_protected_read (E := unit)
      (as_bytes (ReadBinary_into_apdu Plain (BySfi (mkSfi 1) 0x30) 255))
    = Ok (Some (first, [0x00; 0xB0; p1; p2; le]))
    /\ decode_offset p1 p2 = BySfi (mkSfi 2) 0x0F.
Proof. by repeat eexists. Qed.

End Sm.
