(* ===== verification/Sign.v ===== *)
(** * Signing and RSA decipher on the card

    crates/sign/src/lib.rs, commands.rs and container.rs: the MANAGE SECURITY
    ENVIRONMENT / PERFORM SECURITY OPERATION chains of the two card families.
    A [SigningKey] borrows its transport, so a signing method is a computation
    on the transport's state; that signing consumes the key is the order in
    which the operations are composed. *)

From stdpp Require Import base list strings.
From Stdlib Require Import ZArith Lia.
From S2P Require Import Prelude ApduStatus ApduCommand ApduIso7816 Pkcs15Fs AuthCredentials.
From S2P Require Import CardTrace AuthCard PaceChannel PaceCrypto PaceSm.

Module Sign.
Import Apdu Iso7816 Credentials Trace Auth PaceCrypto Sm.

(** ** Constants and references (lib.rs, commands.rs) *)

Definition KEY_REF_AUTH : Z := 0x01.
Definition KEY_REF_SIGN : Z := 0x02.
Definition ORG_QUALIFIED_KEY_REF : Z := 0x82.

Inductive SignScheme := SchemeCitizen | SchemeOrganizational.

Definition pin_numbering (self : SignScheme) : PinReferenceScheme :=
  match self with SchemeCitizen => Citizen | SchemeOrganizational => Organizational end.
Definition SignScheme_from (numbering : PinReferenceScheme) : SignScheme :=
  match numbering with Citizen => SchemeCitizen | Organizational => SchemeOrganizational end.

Definition RSA_3072_MODULUS_BYTES : Z := 384.
Definition RSA_3072_SIG_BYTES : Z := RSA_3072_MODULUS_BYTES.
Definition ECDSA_P384_SIG_BYTES : Z := 96.
Definition ECDSA_P256_SIG_BYTES : Z := 64.

Inductive KeyRef := KeyAuth | KeySign.

Definition key_as_byte (self : KeyRef) : Z :=
  match self with KeyAuth => KEY_REF_AUTH | KeySign => KEY_REF_SIGN end.
Definition key_reference (self : KeyRef) (scheme : SignScheme) : Z :=
  match scheme, self with
  | SchemeOrganizational, KeySign => ORG_QUALIFIED_KEY_REF
  | _, _ => key_as_byte self
  end.

Definition MSE_INS : Z := 0x22.
Definition MSE_P1_SET : Z := 0x41.
Definition MSE_P2_DST : Z := 0xB6.
Definition CRDO_ALG_REF : Z := 0x80.
Definition CRDO_KEY_REF : Z := 0x84.
Definition CRDO_VALUE_LEN : Z := 0x01.
Definition PSO_INS : Z := 0x2A.
Definition PSO_HASH_P1 : Z := 0x90.
Definition PSO_HASH_P2_EXTERNAL : Z := 0xA0.
Definition PSO_HASH_TAG_VALUE : Z := 0x90.
Definition PSO_CDS_P1 : Z := 0x9E.
Definition PSO_CDS_P2 : Z := 0x9A.
Definition PSO_CDS_LE_ANY : Z := 0x00.
Definition MSE_P2_CT : Z := 0xB8.
Definition PSO_DECIPHER_P1 : Z := 0x80.
Definition PSO_DECIPHER_P2 : Z := 0x86.
Definition DECIPHER_PADDING_INDICATOR : Z := 0x81.

Definition SHA1_LEN : Z := 20.
Definition SHA224_LEN : Z := 28.
Definition SHA256_LEN : Z := 32.
Definition SHA384_LEN : Z := 48.
Definition SHA512_LEN : Z := 64.

Record SignatureAlgRef := mkAlgRef { alg_byte : Z }.
Definition SHA256_RSA_PKCS1 : SignatureAlgRef := mkAlgRef 0x42.
Definition SHA384_RSA_PKCS1 : SignatureAlgRef := mkAlgRef 0x52.
Definition SHA512_RSA_PKCS1 : SignatureAlgRef := mkAlgRef 0x62.
Definition SHA384_ECDSA : SignatureAlgRef := mkAlgRef 0x54.
Definition SHA256_ECDSA : SignatureAlgRef := mkAlgRef 0x44.
Definition SHA256_RSA_PSS : SignatureAlgRef := mkAlgRef 0x45.
Definition SHA384_RSA_PSS : SignatureAlgRef := mkAlgRef 0x55.
Definition SHA512_RSA_PSS : SignatureAlgRef := mkAlgRef 0x65.

Record DecipherAlgRef := mkDecipherRef { decipher_byte : Z }.
Definition RSA_PKCS1 : DecipherAlgRef := mkDecipherRef 0x1A.
Definition RSAES_OAEP_SHA256 : DecipherAlgRef := mkDecipherRef 0x4D.

(** ** Containers (container.rs) *)

Inductive SignatureAlg :=
  | RsaPkcs1Sha256 | RsaPkcs1Sha384 | RsaPkcs1Sha512
  | RsaPssSha256 | RsaPssSha384 | RsaPssSha512 | EcdsaP384 | EcdsaP256.

Definition SIG_BYTES (alg : SignatureAlg) : Z :=
  match alg with
  | EcdsaP384 => ECDSA_P384_SIG_BYTES
  | EcdsaP256 => ECDSA_P256_SIG_BYTES
  | _ => RSA_3072_MODULUS_BYTES
  end.

Record LengthError := mkLengthError { got : Z; expected : Z }.

(** Signature bytes under the algorithm that is a phantom type in the source. *)
Record Signature (alg : SignatureAlg) := mkSignature { signature_bytes : bytes }.
Arguments mkSignature {alg} _.
Arguments signature_bytes {alg} _.

Definition from_card_bytes {alg : SignatureAlg} (bs : bytes) : result LengthError (Signature alg) :=
  if negb (len bs =? SIG_BYTES alg) then Err (mkLengthError (len bs) (SIG_BYTES alg))
  else Ok (mkSignature bs).

Record RsaCryptogram := mkCryptogram { cryptogram_bytes : bytes }.

Definition RsaCryptogram_from_bytes (bs : bytes) : result LengthError RsaCryptogram :=
  if negb (len bs =? RSA_3072_MODULUS_BYTES)
  then Err (mkLengthError (len bs) RSA_3072_MODULUS_BYTES)
  else Ok (mkCryptogram bs).

Record RecoveredPlaintext := mkPlaintext { plaintext_bytes : bytes }.

(** ** Commands (commands.rs) *)

Definition mse_set_apdu (template_p2 alg key_ref : Z) : result CommandDataError CommandApdu :=
  case_3 (mkHeader Plain MSE_INS MSE_P1_SET template_p2)
    [CRDO_ALG_REF; CRDO_VALUE_LEN; alg; CRDO_KEY_REF; CRDO_VALUE_LEN; key_ref].

Record MseSet := mkMseSet { alg_ref : SignatureAlgRef; key_ref : Z }.
Definition MseSet_into_apdu (self : MseSet) : result CommandDataError CommandApdu :=
  mse_set_apdu MSE_P2_DST (alg_byte (alg_ref self)) (key_ref self).

Record MseSetCt := mkMseSetCt { ct_alg_ref : DecipherAlgRef; ct_key_ref : Z }.
Definition MseSetCt_into_apdu (self : MseSetCt) : result CommandDataError CommandApdu :=
  mse_set_apdu MSE_P2_CT (decipher_byte (ct_alg_ref self)) (ct_key_ref self).

(** Each digest is an array of its hash function's length. *)
Inductive ExternalHashValue :=
  | Sha1 (d : bytes) | Sha224 (d : bytes) | Sha256 (d : bytes) | Sha384 (d : bytes) | Sha512 (d : bytes).

Definition hash_as_bytes (self : ExternalHashValue) : bytes :=
  match self with Sha1 d | Sha224 d | Sha256 d | Sha384 d | Sha512 d => d end.
Definition len_byte (self : ExternalHashValue) : Z :=
  match self with
  | Sha1 _ => SHA1_LEN | Sha224 _ => SHA224_LEN | Sha256 _ => SHA256_LEN
  | Sha384 _ => SHA384_LEN | Sha512 _ => SHA512_LEN
  end.

Definition PsoHashExternal_into_apdu (hash : ExternalHashValue) : result CommandDataError CommandApdu :=
  let data := [PSO_HASH_TAG_VALUE; len_byte hash] ++ hash_as_bytes hash in
  case_3 (mkHeader Plain PSO_INS PSO_HASH_P1 PSO_HASH_P2_EXTERNAL) data.

Definition expected_length_le (sig_bytes : Z) : Z :=
  default PSO_CDS_LE_ANY (try_from_uint U8_MAX sig_bytes).

Definition PsoCds_into_apdu (le : Z) : CommandApdu :=
  case_2 (mkHeader Plain PSO_INS PSO_CDS_P1 PSO_CDS_P2) le.
Definition into_apdu_with_digest (hash : ExternalHashValue) (le : Z) :
  result CommandDataError CommandApdu :=
  case_4 (mkHeader Plain PSO_INS PSO_CDS_P1 PSO_CDS_P2) (hash_as_bytes hash) le.

Definition PsoDecipher_into_chain (cryptogram : RsaCryptogram) :
  result CommandDataError (list CommandApdu) :=
  let data := DECIPHER_PADDING_INDICATOR :: cryptogram_bytes cryptogram in
  command_chain (mkHeader Plain PSO_INS PSO_DECIPHER_P1 PSO_DECIPHER_P2) data PSO_CDS_LE_ANY.

(** ** Errors *)

Inductive SignError (E : Type) :=
  | SignTransport (e : E)
  | SignOutcome (o : TransportOutcome)
  | SignStatus (stage : string) (sw : Status.StatusWord)
  | SignCommand (e : CommandDataError)
  | UnexpectedSignatureLength (got expected : Z).
Arguments SignTransport {E} _.
Arguments SignOutcome {E} _.
Arguments SignStatus {E} _ _.
Arguments SignCommand {E} _.
Arguments UnexpectedSignatureLength {E} _ _.

Definition SignError_from {E} (e : LengthError) : SignError E :=
  UnexpectedSignatureLength (got e) (expected e).

Inductive QualifiedUnlockError (E : Type) :=
  | UnlockDirectory (e : Pkcs15.Pkcs15Error E)
  | UnlockVerify (e : AuthError E)
  | PinRefused (o : VerifyOutcome).
Arguments UnlockDirectory {E} _.
Arguments UnlockVerify {E} _.
Arguments PinRefused {E} _.

Inductive Pin2ChannelError (E : Type) :=
  | ChannelPresentationSpent (e : Pin2PresentationSpent)
  | ChannelDirectory (e : Pkcs15.Pkcs15Error E).
Arguments ChannelPresentationSpent {E} _.
Arguments ChannelDirectory {E} _.

(** A key ready to sign; the transport it borrows is the state. *)
Record SigningKey := mkSigningKey { scheme : SignScheme; key : KeyRef }.

(** ** Operations (lib.rs) *)

Section Ops.
Context {T E : Type} `{CardTransport T E}.

Definition exchange (command : CommandApdu) (stage : string) : exec T (SignError E) ResponseApdu :=
  do? outcome <- emap_err SignTransport (transmit command) ;;
  do? response <- elift (map_err SignOutcome (into_response outcome)) ;;
  if negb (response_is_ok response) then efail (SignStatus stage (status_word response))
  else eret response.

Definition authentication_key (scheme : SignScheme) : SigningKey := mkSigningKey scheme KeyAuth.

Definition unlock_qualified_key (scheme : SignScheme) (pin : Pin2) :
  exec T (fault (QualifiedUnlockError E)) SigningKey :=
  do? _ <- match scheme with
           | SchemeOrganizational =>
               emap_err (fun e => Raised (UnlockDirectory e)) Pkcs15.select_esign_directory
           | SchemeCitizen => eret tt
           end ;;
  do? outcome <- emap_err (fun e => match e with
                                    | Raised e => Raised (UnlockVerify e)
                                    | Panicked => Panicked
                                    end)
                   (verify_pin2_with_scheme (pin_numbering scheme) pin) ;;
  match outcome with
  | VerifyOk => eret (mkSigningKey scheme KeySign)
  | refused => eraise (PinRefused refused)
  end.

Definition drive_chain (self : SigningKey) (alg_ref : SignatureAlgRef) (hash : ExternalHashValue)
    (le : Z) : exec T (SignError E) bytes :=
  do? mse <- elift (map_err SignCommand
               (MseSet_into_apdu (mkMseSet alg_ref (key_reference (key self) (scheme self))))) ;;
  do? _ <- exchange mse "MSE:Set" ;;
  do? signature <-
    match scheme self with
    | SchemeCitizen =>
        do? load <- elift (map_err SignCommand (PsoHashExternal_into_apdu hash)) ;;
        do? _ <- exchange load "PSO:HASH" ;;
        eret (PsoCds_into_apdu le)
    | SchemeOrganizational => elift (map_err SignCommand (into_apdu_with_digest hash le))
    end ;;
  do? response <- exchange signature "PSO:CDS" ;;
  eret (body response).

Definition sign_prehashed_sha256_rsa (self : SigningKey) (digest : bytes) :
  exec T (SignError E) (Signature RsaPkcs1Sha256) :=
  do? bs <- drive_chain self SHA256_RSA_PKCS1 (Sha256 digest) (expected_length_le RSA_3072_SIG_BYTES) ;;
  elift (map_err SignError_from (from_card_bytes bs)).
Definition sign_prehashed_sha384_rsa (self : SigningKey) (digest : bytes) :
  exec T (SignError E) (Signature RsaPkcs1Sha384) :=
  do? bs <- drive_chain self SHA384_RSA_PKCS1 (Sha384 digest) (expected_length_le RSA_3072_SIG_BYTES) ;;
  elift (map_err SignError_from (from_card_bytes bs)).
Definition sign_prehashed_sha512_rsa (self : SigningKey) (digest : bytes) :
  exec T (SignError E) (Signature RsaPkcs1Sha512) :=
  do? bs <- drive_chain self SHA512_RSA_PKCS1 (Sha512 digest) (expected_length_le RSA_3072_SIG_BYTES) ;;
  elift (map_err SignError_from (from_card_bytes bs)).
Definition sign_prehashed_sha256_rsa_pss (self : SigningKey) (digest : bytes) :
  exec T (SignError E) (Signature RsaPssSha256) :=
  do? bs <- drive_chain self SHA256_RSA_PSS (Sha256 digest) (expected_length_le RSA_3072_SIG_BYTES) ;;
  elift (map_err SignError_from (from_card_bytes bs)).
Definition sign_prehashed_sha384_rsa_pss (self : SigningKey) (digest : bytes) :
  exec T (SignError E) (Signature RsaPssSha384) :=
  do? bs <- drive_chain self SHA384_RSA_PSS (Sha384 digest) (expected_length_le RSA_3072_SIG_BYTES) ;;
  elift (map_err SignError_from (from_card_bytes bs)).
Definition sign_prehashed_sha512_rsa_pss (self : SigningKey) (digest : bytes) :
  exec T (SignError E) (Signature RsaPssSha512) :=
  do? bs <- drive_chain self SHA512_RSA_PSS (Sha512 digest) (expected_length_le RSA_3072_SIG_BYTES) ;;
  elift (map_err SignError_from (from_card_bytes bs)).
Definition sign_prehashed_sha256_ecdsa (self : SigningKey) (digest : bytes) :
  exec T (SignError E) (Signature EcdsaP384) :=
  do? bs <- drive_chain self SHA256_ECDSA (Sha256 digest) (expected_length_le ECDSA_P384_SIG_BYTES) ;;
  elift (map_err SignError_from (from_card_bytes bs)).
Definition sign_prehashed_sha384_ecdsa (self : SigningKey) (digest : bytes) :
  exec T (SignError E) (Signature EcdsaP384) :=
  do? bs <- drive_chain self SHA384_ECDSA (Sha384 digest) (expected_length_le ECDSA_P384_SIG_BYTES) ;;
  elift (map_err SignError_from (from_card_bytes bs)).

(** The leading commands of a chain, their bodies dropped. *)
Fixpoint send_leading (commands : list CommandApdu) : exec T (SignError E) unit :=
  match commands with
  | [] => eret tt
  | command :: rest => do? _ <- exchange command "PSO:DECIPHER" ;; send_leading rest
  end.

Definition split_last {A} (l : list A) : option (A * list A) :=
  match rev l with [] => None | x :: rest => Some (x, rev rest) end.

Definition decipher_rsa (scheme : SignScheme) (key : KeyRef) (algorithm : DecipherAlgRef)
    (cryptogram : RsaCryptogram) : exec T (SignError E) RecoveredPlaintext :=
  do? mse <- elift (map_err SignCommand
               (MseSetCt_into_apdu (mkMseSetCt algorithm (key_reference key scheme)))) ;;
  do? _ <- exchange mse "MSE:Set CT" ;;
  do? chain <- elift (map_err SignCommand (PsoDecipher_into_chain cryptogram)) ;;
  do? split <- elift (ok_or (split_last chain) (SignCommand DataEmpty)) ;;
  let '(last, leading) := split in
  do? _ <- send_leading leading ;;
  do? response <- exchange last "PSO:DECIPHER" ;;
  eret (mkPlaintext (body response)).

End Ops.

(** On a secure channel that PIN 2 opened. *)
Definition qualified_key_after_pin2_pace `{Symmetric} {T E} `{CardTransport T E} :
  exec (SmTransport T OpenedByPin2) (Pin2ChannelError (fault (SmError E))) SigningKey :=
  do? _ <- emap_err ChannelPresentationSpent spend_pin2_presentation ;;
  do? _ <- emap_err ChannelDirectory Pkcs15.select_esign_directory ;;
  eret (mkSigningKey SchemeOrganizational KeySign).

(** ** What a signature sends *)

(** The eight signing methods. *)
Inductive Method :=
  | Sha256Rsa | Sha384Rsa | Sha512Rsa | Sha256RsaPss | Sha384RsaPss | Sha512RsaPss
  | Sha256Ecdsa | Sha384Ecdsa.

Definition method_alg (m : Method) : SignatureAlg :=
  match m with
  | Sha256Rsa => RsaPkcs1Sha256 | Sha384Rsa => RsaPkcs1Sha384 | Sha512Rsa => RsaPkcs1Sha512
  | Sha256RsaPss => RsaPssSha256 | Sha384RsaPss => RsaPssSha384 | Sha512RsaPss => RsaPssSha512
  | Sha256Ecdsa | Sha384Ecdsa => EcdsaP384
  end.

Definition sign_with {T E} `{CardTransport T E} (m : Method) (self : SigningKey) (digest : bytes) :
  exec T (SignError E) (Signature (method_alg m)) :=
  match m with
  | Sha256Rsa => sign_prehashed_sha256_rsa self digest
  | Sha384Rsa => sign_prehashed_sha384_rsa self digest
  | Sha512Rsa => sign_prehashed_sha512_rsa self digest
  | Sha256RsaPss => sign_prehashed_sha256_rsa_pss self digest
  | Sha384RsaPss => sign_prehashed_sha384_rsa_pss self digest
  | Sha512RsaPss => sign_prehashed_sha512_rsa_pss self digest
  | Sha256Ecdsa => sign_prehashed_sha256_ecdsa self digest
  | Sha384Ecdsa => sign_prehashed_sha384_ecdsa self digest
  end.

(** FINEID S1 table 6: the hash function in the high nibble, the scheme in the
    low one; and the lengths of the digest and of the signature. *)
Definition method_reference (m : Method) : Z :=
  let hash := match m with
              | Sha256Rsa | Sha256RsaPss | Sha256Ecdsa => 4
              | Sha384Rsa | Sha384RsaPss | Sha384Ecdsa => 5
              | Sha512Rsa | Sha512RsaPss => 6
              end in
  let signature := match m with
                   | Sha256Rsa | Sha384Rsa | Sha512Rsa => 2
                   | Sha256RsaPss | Sha384RsaPss | Sha512RsaPss => 5
                   | Sha256Ecdsa | Sha384Ecdsa => 4
                   end in
  16 * hash + signature.
Definition method_digest_len (m : Method) : Z :=
  match m with
  | Sha256Rsa | Sha256RsaPss | Sha256Ecdsa => 32
  | Sha384Rsa | Sha384RsaPss | Sha384Ecdsa => 48
  | Sha512Rsa | Sha512RsaPss => 64
  end.
Definition method_signature_len (m : Method) : Z :=
  match m with Sha256Ecdsa | Sha384Ecdsa => 96 | _ => 384 end.
(** The expected-length byte: exact when one byte can say it. *)
Definition method_le (m : Method) : Z :=
  if method_signature_len m <=? 255 then method_signature_len m else 0.

(** The wire of a signature under the key reference [ref]. *)
Definition mse_wire (template alg ref : Z) : bytes :=
  [0x00; 0x22; 0x41; template; 6; 0x80; 1; alg; 0x84; 1; ref].
Definition signing_wires (scheme : SignScheme) (ref : Z) (m : Method) (digest : bytes) : list bytes :=
  mse_wire 0xB6 (method_reference m) ref ::
  match scheme with
  | SchemeCitizen =>
      [[0x00; 0x2A; 0x90; 0xA0; 2 + len digest; 0x90; len digest] ++ digest;
       [0x00; 0x2A; 0x9E; 0x9A; method_le m]]
  | SchemeOrganizational => [[0x00; 0x2A; 0x9E; 0x9A; len digest] ++ digest ++ [method_le m]]
  end.

(** The wire of a decipherment: the indicator and the cryptogram in two links. *)
Definition decipher_wires (ref alg : Z) (cryptogram : bytes) : list bytes :=
  [mse_wire 0xB8 alg ref;
   [0x10; 0x2A; 0x80; 0x86; 255; 0x81] ++ take 254 cryptogram;
   [0x00; 0x2A; 0x80; 0x86; 130] ++ drop 254 cryptogram ++ [0x00]].

Definition accepted {E} (o : result E TransportOutcome) (resp : ResponseApdu) : Prop :=
  o = Ok (Response resp) /\ response_is_ok resp = true.

(** The commands are sent in order until one is not accepted; the answer is the
    last command's when all were. *)
Inductive runs {E} : list bytes -> list (sent E) -> option ResponseApdu -> Prop :=
  | runs_stop w ws c o :
      as_bytes c = w -> (forall resp, ~ accepted o resp) -> runs (w :: ws) [SentPlain c o] None
  | runs_last w c o resp :
      as_bytes c = w -> accepted o resp -> runs [w] [SentPlain c o] (Some resp)
  | runs_next w ws c o resp n last :
      as_bytes c = w -> accepted o resp -> ws <> [] -> runs ws n last ->
      runs (w :: ws) (SentPlain c o :: n) last.

(** What a method returns when the chain ended with [last]. *)
Definition signed {E} (m : Method) (last : option ResponseApdu)
    (r : result (SignError E) (Signature (method_alg m))) : Prop :=
  match last with
  | None => exists e, r = Err e
  | Some resp =>
      r = if len (body resp) =? method_signature_len m then Ok (mkSignature (body resp))
          else Err (UnexpectedSignatureLength (len (body resp)) (method_signature_len m))
  end.

(** ** What a qualified signature sends *)

(** The two ways to select the MF, and the three to select DF.ESIGN. *)
Definition mf_selects : list bytes := [[0x00; 0xA4; 0x00; 0x0C; 2; 0x3F; 0x00]; [0x00; 0xA4; 0x04; 0x0C; 2; 0x3F; 0x00]].
Definition esign_selects : list bytes :=
  [[0x00; 0xA4; 0x04; 0x0C; 6] ++ Pkcs15.ESIGN_AID; [0x00; 0xA4; 0x01; 0x0C; 2; 0x50; 0x16];
   [0x00; 0xA4; 0x00; 0x0C; 2; 0x50; 0x16]].

(** Plain commands with one of the wires [ws]. *)
Definition selecting {E} (ws : list bytes) (n : list (sent E)) : Prop :=
  Forall (fun s => exists c o, s = SentPlain c o /\ as_bytes c ∈ ws) n.
(** The last of them was accepted. *)
Definition entered {E} (ws : list bytes) (n : list (sent E)) : Prop :=
  selecting ws n /\ exists pre c o resp, n = pre ++ [SentPlain c o] /\ accepted o resp.

(** The card is where its qualified key lives. *)
Definition in_directory {E} (scheme : SignScheme) (n : list (sent E)) : Prop :=
  match scheme with
  | SchemeCitizen => n = []
  | SchemeOrganizational => exists n1 n2, n = n1 ++ n2 /\ entered mf_selects n1 /\ entered esign_selects n2
  end.

(** VERIFY of PIN 2 in its own reference. *)
Definition verify_pin2_wire (scheme : SignScheme) (digits : bytes) : bytes :=
  let block := padded (pin_numbering scheme) digits in
  [0x00; 0x20; 0x00; scheme_reference (pin_numbering scheme) Slot2; len block] ++ block.
Definition says_success {E} (o : result E TransportOutcome) : Prop :=
  exists resp, o = Ok (Response resp) /\ status_word resp = Status.Success.

(** What making a qualified signature may send, and the answer it ends with. *)
Inductive qualified_log {E} (scheme : SignScheme) (digits : bytes) (m : Method) (digest : bytes) :
    list (sent E) -> option ResponseApdu -> Prop :=
  | q_no_directory n : selecting (mf_selects ++ esign_selects) n -> qualified_log scheme digits m digest n None
  | q_pin_refused n c o :
      in_directory scheme n -> expose_wire c = Some (verify_pin2_wire scheme digits) -> ~ says_success o ->
      qualified_log scheme digits m digest (n ++ [SentCredential c o]) None
  | q_signs n c o n' last :
      in_directory scheme n -> expose_wire c = Some (verify_pin2_wire scheme digits) -> says_success o ->
      runs (signing_wires scheme (key_reference KeySign scheme) m digest) n' last ->
      qualified_log scheme digits m digest (n ++ SentCredential c o :: n') last.

Inductive QualifiedError (E : Type) :=
  | QUnlock (e : fault (QualifiedUnlockError E))
  | QSign (e : SignError E).
Arguments QUnlock {E} _.
Arguments QSign {E} _.

(** A qualified signature: the key unlocked, then consumed. *)
Definition qualified_sign {T E} `{CardTransport T E} (scheme : SignScheme) (pin : Pin2) (m : Method)
    (digest : bytes) : exec T (QualifiedError E) (Signature (method_alg m)) :=
  do? key <- emap_err QUnlock (unlock_qualified_key scheme pin) ;;
  emap_err QSign (sign_with m key digest).

(** ** Lemmas *)

Section Chains.
Context {T E : Type} `{CardTransport T E}.
Abbreviation trace := (list (sent E)).
Abbreviation op A := (exec (T * trace) (SignError E) A).

Lemma traces_exchange c stage :
  traces (fun n r => exists o, n = [SentPlain c o] /\
            ((exists resp, accepted o resp /\ r = Ok resp) \/
             (forall resp, ~ accepted o resp) /\ exists e, r = Err e))
    (exchange c stage : op _).
Proof.
  intros [t log]. unfold exchange, ebind, emap_err, traces. cbn.
  destruct (transmit c t) as [[[resp| | | | |]|e] t']; cbn;
    [destruct (response_is_ok resp) eqn:Eok; cbn|..];
    (eexists; split; [done|]; eexists; split; [done|]).
  1: { left. eexists. done. }
  all: right; split; [|by eexists]; intros resp0 [Ho Hok]; try done.
  injection Ho as <-. congruence.
Qed.

(** A command followed by the rest of its chain. *)
Lemma traces_chain {A} c stage w ws (k : ResponseApdu -> op A)
    (P : option ResponseApdu -> result (SignError E) A -> Prop) :
  as_bytes c = w -> ws <> [] ->
  (forall e, P None (Err e)) ->
  (forall resp, traces (fun n r => exists last, runs ws n last /\ P last r) (k resp)) ->
  traces (fun n r => exists last, runs (w :: ws) n last /\ P last r) (ebind (exchange c stage) k).
Proof.
  intros Hw Hne He Hk. eapply traces_bind; [apply traces_exchange| |].
  - intros n e (o & -> & [(resp & _ & [=])|[Hr _]]). exists None. split; [by constructor|apply He].
  - intros n resp (o & -> & [(resp' & Ha & [= <-])|[_ (e & [=])]]).
    eapply traces_mono; [|apply Hk]. intros n' r (last & Hr & Hp). exists last. split; [|done].
    by eapply (runs_next _ _ _ _ resp).
Qed.

Lemma traces_chain_end {A} c stage w (f : ResponseApdu -> result (SignError E) A)
    (P : option ResponseApdu -> result (SignError E) A -> Prop) :
  as_bytes c = w -> (forall e, P None (Err e)) -> (forall resp, P (Some resp) (f resp)) ->
  traces (fun n r => exists last, runs [w] n last /\ P last r)
    (ebind (exchange c stage) (fun resp => elift (f resp)) : op A).
Proof.
  intros Hw He Hf. eapply traces_bind; [apply traces_exchange| |].
  - intros n e (o & -> & [(resp & _ & [=])|[Hr _]]). exists None. split; [by constructor|apply He].
  - intros n resp (o & -> & [(resp' & Ha & [= <-])|[_ (e & [=])]]).
    eapply traces_mono; [|apply traces_lift]. intros n' r [-> ->]. exists (Some resp).
    split; [by eapply runs_last|apply Hf].
Qed.

Lemma bind_lift {S X A B} (r : result X A) (k : A -> exec S X B) :
  ebind (elift r) k = match r with Ok a => k a | Err e => elift (Err e) end.
Proof. by destruct r. Qed.

Lemma traces_assoc {A B C} (P : trace -> result (SignError E) C -> Prop) (m : op A) (k : A -> op B) h :
  traces P (ebind m (fun a => ebind (k a) h)) -> traces P (ebind (ebind m k) h).
Proof. intros Ht s. specialize (Ht s). unfold ebind in *. by destruct (m s) as [[] ?]. Qed.

(** What a chain returns: the last body when every command was accepted. *)
Definition chain_result (last : option ResponseApdu) (r : result (SignError E) bytes) : Prop :=
  match last with None => exists e, r = Err e | Some resp => r = Ok (body resp) end.

Definition chain_wires (self : SigningKey) (alg : Z) (digest : bytes) (le : Z) : list bytes :=
  mse_wire 0xB6 alg (key_reference (key self) (scheme self)) ::
  match scheme self with
  | SchemeCitizen =>
      [[0x00; 0x2A; 0x90; 0xA0; 2 + len digest; 0x90; len digest] ++ digest;
       [0x00; 0x2A; 0x9E; 0x9A; le]]
  | SchemeOrganizational => [[0x00; 0x2A; 0x9E; 0x9A; len digest] ++ digest ++ [le]]
  end.

Lemma drive_traces self alg hash le :
  len (hash_as_bytes hash) = len_byte hash ->
  traces (fun n r => exists last,
            runs (chain_wires self (alg_byte alg) (hash_as_bytes hash) le) n last /\ chain_result last r)
    (drive_chain self alg hash le : op _).
Proof.
  intros Hl. assert (1 <= len (hash_as_bytes hash) <= 64) as Hb by (rewrite Hl; by destruct hash).
  unfold drive_chain, MseSet_into_apdu, mse_set_apdu, chain_wires.
  rewrite case_3_ok by done. rewrite bind_lift. cbn [map_err].
  apply traces_chain; [done|by destruct (scheme self)|by eexists|]. intros _.
  destruct (scheme self).
  - unfold PsoHashExternal_into_apdu. rewrite case_3_ok by (rewrite len_app, !len_cons, len_nil; lia).
    rewrite bind_lift. cbn [map_err]. apply traces_assoc, traces_chain; [|done|by eexists|].
    { cbn [as_bytes from_wire]. rewrite len_app, !len_cons, len_nil, <- Hl. reflexivity. }
    intros _. by apply (traces_chain_end _ _ _ (fun resp => Ok (body resp))); [|eexists|].
  - unfold into_apdu_with_digest. rewrite case_4_ok by lia. rewrite bind_lift. cbn [map_err].
    by apply (traces_chain_end _ _ _ (fun resp => Ok (body resp))); [|eexists|].
Qed.

(** The methods differ only in their references and lengths. *)
Lemma sign_traces m self digest :
  len digest = method_digest_len m ->
  traces (fun n r => exists last,
            runs (signing_wires (scheme self) (key_reference (key self) (scheme self)) m digest) n last /\
            signed m last r)
    (sign_with m self digest : op _).
Proof.
  intros Hl.
  destruct m; (eapply traces_bind; [by apply drive_traces| |]);
    try (intros n e (last & Hr & Hp); exists last; split; [exact Hr|];
         destruct last; [done|by eexists]);
    (intros n a (last & Hr & Hp); destruct last as [resp|]; [injection Hp as ->|by destruct Hp];
     eapply traces_mono; [|apply traces_lift]; intros n' r [-> ->]; rewrite app_nil_r;
     exists (Some resp); split; [exact Hr|]; unfold signed, from_card_bytes;
     cbn [method_signature_len method_alg SIG_BYTES]; change RSA_3072_MODULUS_BYTES with 384;
     change ECDSA_P384_SIG_BYTES with 96; by destruct (len (body resp) =? _)).
Qed.

End Chains.

Section Unlock.
Context {T E : Type} `{CardTransport T E}.
Abbreviation trace := (list (sent E)).

Lemma traces_emap {X Y A} (f : X -> Y) (m : exec (T * trace) X A) P :
  traces P m -> traces (fun n r => exists r0, P n r0 /\ r = map_err f r0) (emap_err f m).
Proof.
  intros Hm s. destruct (Hm s) as (n & Hn & Hp). exists n. unfold emap_err.
  destruct (m s) as [r s'] eqn:Em. cbn in *. split; [done|]. by exists r.
Qed.

Lemma select_loop_traces cs ws sw :
  Forall (fun c => as_bytes c ∈ ws) cs ->
  traces (fun n r => selecting ws n /\ (r = Ok tt -> entered ws n))
    (Pkcs15.select_loop cs sw : exec (T * trace) (Pkcs15.Pkcs15Error E) unit).
Proof.
  intros Hc. revert sw. induction Hc as [|c cs Hw _ IH]; intros sw; cbn [Pkcs15.select_loop].
  { eapply traces_mono; [|apply (traces_lift (Err _))]. intros n r [-> ->]. split; [constructor|done]. }
  intros [t log]. unfold Pkcs15.exchange, ebind, emap_err. cbn.
  destruct (transmit c t) as [o t'] eqn:Et.
  assert (forall n', selecting ws n' -> selecting ws (SentPlain c o :: n')) as Hsel.
  { intros n' Hn. constructor; [by eexists _, _|done]. }
  destruct o as [[resp| | | | |]|e]; cbn;
    try (eexists; split; [done|]; split; [apply Hsel; constructor|done]).
  destruct (response_is_ok resp) eqn:Eok; cbn.
  - exists [SentPlain c (Ok (Response resp))]. split; [done|].
    assert (selecting ws [SentPlain c (Ok (Response resp))]) by (apply Hsel; constructor).
    split; [done|]. intros _. split; [done|]. by exists [], c, (Ok (Response resp)), resp.
  - destruct (IH (status_word resp) (t', log ++ [SentPlain c (Ok (Response resp))])) as (n & Hn & Hs & He).
    exists (SentPlain c (Ok (Response resp)) :: n). split; [rewrite Hn; cbn; by rewrite <- app_assoc|].
    split; [by apply Hsel|]. intros Hr. destruct (He Hr) as [_ (pre & c' & o' & r' & -> & Ha)].
    split; [by apply Hsel|]. by exists (SentPlain c (Ok (Response resp)) :: pre), c', o', r'.
Qed.

Lemma selecting_mono ws ws' (n : trace) : ws ⊆ ws' -> selecting ws n -> selecting ws' n.
Proof.
  intros Hs Hn. eapply Forall_impl; [exact Hn|]. intros s (c & o & -> & Hw). exists c, o. by split; [|apply Hs].
Qed.

(** The commands of a concrete list have the wires listed. *)
Ltac listed :=
  repeat first [apply Forall_nil_2 | apply Forall_cons_2; [apply (bool_decide_unpack _); vm_compute; exact I|]].

Lemma select_esign_traces :
  traces (fun n r => selecting (mf_selects ++ esign_selects) n /\
                     (r = Ok tt -> in_directory SchemeOrganizational n))
    (Pkcs15.select_esign_directory : exec (T * trace) (Pkcs15.Pkcs15Error E) unit).
Proof.
  assert (mf_selects ⊆ mf_selects ++ esign_selects) as H1 by (intros x; rewrite elem_of_app; by left).
  assert (esign_selects ⊆ mf_selects ++ esign_selects) as H2 by (intros x; rewrite elem_of_app; by right).
  eapply traces_bind; [apply (select_loop_traces _ mf_selects)| |].
  - listed.
  - intros n e [Hs _]. split; [by apply (selecting_mono mf_selects)|done].
  - intros n [] [Hs He]. eapply traces_mono; [|apply (select_loop_traces _ esign_selects)].
    2: listed.
    intros n' r [Hs' He']. split.
    { apply Forall_app. split; [by apply (selecting_mono mf_selects)|by apply (selecting_mono esign_selects)]. }
    intros Hr. exists n, n'. split_and!; [done|by apply He|by apply He'].
Qed.

Abbreviation unlock_error := (fault (QualifiedUnlockError E)).

(** VERIFY of PIN 2: one credential command, and the key only on success. *)
Lemma verify_pin2_traces scheme pin digits :
  Pin2_digits pin = Some digits -> group_ok digits ->
  traces (fun n r => exists c o, n = [SentCredential c o] /\
            expose_wire c = Some (verify_pin2_wire scheme digits) /\ (r = Ok VerifyOk <-> says_success o))
    (verify_pin2_with_scheme (pin_numbering scheme) pin : exec (T * trace) (fault (AuthError E)) _).
Proof.
  intros Hp Hg. unfold verify_pin2_with_scheme, or_panic. rewrite Hp. unfold verify_digits.
  eapply traces_mono; [|apply (traces_classified _ _ _ _ [digits]); [by groups|by vm_compute]].
  intros n r (c & o & -> & Hw & ->). exists c, o. split_and!; [done| |].
  - rewrite Hw. unfold verify_pin2_wire. by rewrite credential_body_one.
  - unfold says_success. destruct o as [[resp| | | | |]|e]; cbn; try by (split; [done|intros (? & ? & ?)]).
    split.
    + intros Ho. exists resp. split; [done|]. by destruct (status_word resp).
    + intros (resp' & [= <-] & ->). done.
Qed.

Lemma unlock_traces scheme pin digits :
  Pin2_digits pin = Some digits -> group_ok digits ->
  traces (fun n r =>
      selecting (mf_selects ++ esign_selects) n /\ (exists e, r = Err e) \/
      exists sel c o, n = sel ++ [SentCredential c o] /\ in_directory scheme sel /\
        expose_wire c = Some (verify_pin2_wire scheme digits) /\
        (says_success o /\ r = Ok (mkSigningKey scheme KeySign) \/ ~ says_success o /\ exists e, r = Err e))
    (unlock_qualified_key scheme pin : exec (T * trace) unlock_error _).
Proof.
  intros Hp Hg. unfold unlock_qualified_key.
  eapply (traces_bind (fun n r => selecting (mf_selects ++ esign_selects) n /\ (r = Ok tt -> in_directory scheme n))).
  - destruct scheme.
    + eapply traces_mono; [|apply traces_ret]. intros n r [-> ->]. split; [constructor|done].
    + eapply traces_mono; [|apply traces_emap, select_esign_traces].
      intros n r (r0 & [Hs Hr] & ->). split; [done|]. intros Hok. apply Hr. by destruct r0 as [[]|].
  - intros n e [Hs _]. left. split; [done|by eexists].
  - intros n [] [Hs Hd]. specialize (Hd eq_refl).
    eapply traces_bind; [apply traces_emap, (verify_pin2_traces scheme pin digits Hp Hg)| |].
    + intros n' e (r0 & (c & o & -> & Hw & Hr) & Ho). right. exists n, c, o. split_and!; [done..|].
      right. split; [|by eexists]. intros Hs'. apply Hr in Hs'. by subst r0.
    + intros n' a (r0 & (c & o & -> & Hw & Hr) & Ho). destruct r0 as [a'|]; [|done]. injection Ho as <-.
      destruct a; (eapply traces_mono; [|apply traces_lift]); intros n'' r [-> ->]; right; exists n, c, o;
        rewrite app_nil_r; (split_and!; [done..|]).
      { left. split; [by apply Hr|done]. }
      all: right; split; [|by eexists]; intros Hs'; by apply Hr in Hs'.
Qed.

End Unlock.

(** The two links of a decipherment. *)
Lemma decipher_chain bs :
  len bs = 384 ->
  PsoDecipher_into_chain (mkCryptogram bs) =
  Ok (map from_wire (tail (decipher_wires 0 0 bs))).
Proof.
  intros Hl. unfold len in Hl. assert (length bs = 384%nat) as Hn by lia.
  unfold PsoDecipher_into_chain, command_chain. cbn [cryptogram_bytes is_empty].
  change (Z.to_nat SHORT_APDU_DATA_MAX) with 255%nat. unfold chunks. cbn [length]. rewrite Hn.
  change (chunks_fuel 385 255 (DECIPHER_PADDING_INDICATOR :: bs)) with
    ((DECIPHER_PADDING_INDICATOR :: take 254 bs) :: chunks_fuel 384 255 (drop 254 bs)).
  rewrite chunks_fuel_short.
  2: { intros Hd. apply (f_equal length) in Hd. rewrite length_drop, Hn in Hd. done. }
  2: { rewrite length_drop, Hn. lia. }
  cbn [chain_chunks]. rewrite case_3_ok, case_4_ok.
  - cbn [rbind decipher_wires tail map]. unfold len. cbn [length].
    rewrite length_take, length_drop, Hn. reflexivity.
  - unfold len. rewrite length_drop, Hn. lia.
  - unfold len. cbn [length]. rewrite length_take, Hn. lia.
Qed.

Lemma decipher_traces {T E} `{CardTransport T E} scheme key alg bs :
  len bs = 384 ->
  traces (fun n r => exists last,
            runs (decipher_wires (key_reference key scheme) (decipher_byte alg) bs) n last /\
            match last with
            | None => exists e, r = Err e
            | Some resp => r = Ok (mkPlaintext (body resp))
            end)
    (decipher_rsa scheme key alg (mkCryptogram bs) : exec (T * list (sent E)) _ _).
Proof.
  intros Hl. unfold decipher_rsa, MseSetCt_into_apdu, mse_set_apdu.
  rewrite case_3_ok by done. rewrite bind_lift. cbn [map_err].
  apply traces_chain; [done|done|by eexists|]. intros _.
  rewrite decipher_chain by done. rewrite bind_lift. cbn [map_err decipher_wires tail map split_last rev app].
  rewrite bind_lift. cbn [ok_or send_leading]. apply traces_assoc, traces_chain; [done|done|by eexists|].
  intros _. by apply (traces_chain_end _ _ _ (fun resp => Ok (mkPlaintext (body resp)))); [|eexists|].
Qed.

Lemma qualified_traces {T E} `{CardTransport T E} scheme pin digits m digest :
  Pin2_digits pin = Some digits -> group_ok digits -> len digest = method_digest_len m ->
  traces (fun n r => exists last, qualified_log scheme digits m digest n last /\
            match last with
            | None => exists e, r = Err e
            | Some resp => exists r0, r = map_err QSign r0 /\ signed m last r0
            end)
    (qualified_sign scheme pin m digest : exec (T * list (sent E)) _ _).
Proof.
  intros Hp Hg Hd. unfold qualified_sign.
  eapply traces_bind; [apply traces_emap, (unlock_traces scheme pin digits Hp Hg)| |].
  - intros n e (r0 & [[Hs _]|(sel & c & o & -> & Hin & Hw & [[_ ->]|[Ho _]])] & Hr); [|done|].
    + exists None. split; [by constructor|by eexists].
    + exists None. split; [by constructor|by eexists].
  - intros n k (r0 & [[_ (e & ->)]|(sel & c & o & -> & Hin & Hw & [[Ho ->]|[_ (e & ->)]])] & Hr); [done| |done].
    injection Hr as ->. eapply traces_mono; [|apply traces_emap, (sign_traces m _ digest Hd)].
    intros n' r (r0 & (last & Hruns & Hsig) & ->). exists last. rewrite <- app_assoc. split.
    { by constructor. }
    destruct last; [by exists r0|]. destruct Hsig as (e & ->). by eexists.
Qed.

(** *** Channels *)

Section Channel.
Context `{Symmetric} {T E : Type} `{CardTransport T E}.

Lemma keeps_proof_exchange {O} c :
  keeps_proof (Pkcs15.exchange c : exec (SmTransport T O) (Pkcs15.Pkcs15Error (fault (SmError E))) _).
Proof.
  apply keeps_proof_bind; [apply keeps_proof_err, keeps_proof_transmit|intros a; apply keeps_proof_pure].
Qed.

Lemma keeps_proof_select {O} cs sw :
  keeps_proof (Pkcs15.select_loop cs sw : exec (SmTransport T O) (Pkcs15.Pkcs15Error (fault (SmError E))) _).
Proof.
  revert sw. induction cs as [|c cs IH]; intros sw; cbn [Pkcs15.select_loop]; [apply keeps_proof_pure|].
  apply keeps_proof_bind; [apply keeps_proof_exchange|]. intros resp.
  destruct (response_is_ok resp); [apply keeps_proof_pure|apply IH].
Qed.

Lemma keeps_proof_esign {O} :
  keeps_proof (Pkcs15.select_esign_directory : exec (SmTransport T O) (Pkcs15.Pkcs15Error (fault (SmError E))) _).
Proof.
  repeat (apply keeps_proof_bind; [first [apply keeps_proof_pure | apply keeps_proof_select]|intros ?]);
    apply keeps_proof_select.
Qed.

Lemma keeps_proof_sign_exchange {O} c stage :
  keeps_proof (exchange c stage : exec (SmTransport T O) (SignError (fault (SmError E))) _).
Proof.
  apply keeps_proof_bind; [apply keeps_proof_err, keeps_proof_transmit|intros o].
  apply keeps_proof_bind; [apply keeps_proof_pure|intros resp].
  destruct (negb _); apply keeps_proof_pure.
Qed.

Lemma keeps_proof_drive {O} self alg hash le :
  keeps_proof (drive_chain self alg hash le : exec (SmTransport T O) (SignError (fault (SmError E))) _).
Proof.
  apply keeps_proof_bind; [apply keeps_proof_pure|intros mse].
  apply keeps_proof_bind; [apply keeps_proof_sign_exchange|intros _].
  apply keeps_proof_bind; [|intros cds; apply keeps_proof_bind; [apply keeps_proof_sign_exchange|intros ?; apply keeps_proof_pure]].
  destruct (scheme self); [|apply keeps_proof_pure].
  apply keeps_proof_bind; [apply keeps_proof_pure|intros load].
  apply keeps_proof_bind; [apply keeps_proof_sign_exchange|intros ?; apply keeps_proof_pure].
Qed.

Lemma keeps_proof_sign {O} m self digest :
  keeps_proof (sign_with m self digest : exec (SmTransport T O) (SignError (fault (SmError E))) _).
Proof.
  destruct m; (apply keeps_proof_bind; [apply keeps_proof_drive|intros bs; apply keeps_proof_pure]).
Qed.

Lemma qualified_key_spent (self : SmTransport T OpenedByPin2) :
  unspent (opened_by self) = false ->
  qualified_key_after_pin2_pace (E := E) self = (Err (ChannelPresentationSpent PresentationSpent), self).
Proof.
  intros Hu. unfold qualified_key_after_pin2_pace, ebind, emap_err, spend_pin2_presentation, on_opened_by, spend.
  rewrite Hu. by destruct self.
Qed.

Lemma qualified_key_spends (self : SmTransport T OpenedByPin2) :
  unspent (opened_by (qualified_key_after_pin2_pace (E := E) self).2) = false.
Proof.
  destruct (unspent (opened_by self)) eqn:Hu; [|by rewrite qualified_key_spent].
  unfold qualified_key_after_pin2_pace. unfold ebind at 1. unfold emap_err at 1, spend_pin2_presentation, on_opened_by, spend.
  rewrite Hu. cbn [map_err].
  match goal with |- context [ebind ?m ?k ?s] =>
    assert (keeps_proof (ebind m k)) as Hk end.
  { apply keeps_proof_bind; [apply keeps_proof_err, keeps_proof_esign|intros ?; apply keeps_proof_pure]. }
  rewrite Hk. done.
Qed.

End Channel.

Lemma exchange_err {T E} `{CardTransport T E} c stage s e s' :
  transmit c s = (Err e, s') -> exchange c stage s = (Err (SignTransport e), s').
Proof. intros Ht. unfold exchange, ebind, emap_err. by rewrite Ht. Qed.

(** A link of a chain is too long for a protected command. *)
Lemma transmit_too_long `{SymmetricLaws} {T E O} `{CardTransport T E} cls ins p1 p2 data
    (self : SmTransport T O) :
  len data = 255 ->
  transmit (E := fault (SmError E)) (from_wire (short_command cls ins p1 p2 data None)) self
  = (Err (Raised CommandTooLong), with_ssc (Ssc_increment (ssc self)) self).
Proof.
  intros Hd. destruct data as [|x data]; [done|]. cbn [transmit SmTransport_transport].
  match goal with |- context [split_protected_read ?w] =>
    assert (split_protected_read (E := E) w = Ok None) as -> by reflexivity end.
  unfold elift_raise. rewrite bind_lift. unfold emap_err. cbn [map_err as_bytes from_wire].
  destruct (command_capacity (E := E) cls ins p1 p2 (x :: data) None self) as [_ Hlong]; [lia|].
  rewrite Hlong by (cbn [capacity]; lia). done.
Qed.

(** ** Properties *)

(** C13 A qualified signature is made only on an accepted PIN 2, where the key
    lives, and over exactly the digest asked for.  Whatever the card answers, a
    qualified signature sends nothing but, in this order: on an organizational
    card the selection of the MF and then of DF.ESIGN; once the card has
    accepted these, one VERIFY of PIN 2 in its own reference; and only after the
    card has accepted the PIN, the security environment with the method's
    algorithm and the family's qualified key, and the digest in the family's
    form.  It stops at the first command that is not accepted, and returns a
    signature exactly when every command was accepted and the last answer has
    the method's length. *)
Theorem qualified_signature_needs_pin2 {T E} `{CardTransport T E} (scheme : SignScheme) (pin : Pin2)
    (digits : bytes) (m : Method) (digest : bytes) :
  Pin2_digits pin = Some digits -> group_ok digits -> len digest = method_digest_len m ->
  traces (fun n r => exists last, qualified_log scheme digits m digest n last /\
            match last with
            | None => exists e, r = Err e
            | Some resp => exists r0, r = map_err QSign r0 /\ signed m last r0
            end)
    (qualified_sign scheme pin m digest : exec (T * list (sent E)) _ _).
Proof. apply qualified_traces. Qed.

(** Every private-key operation under a key in hand sends the family's chain
    and no more: a signature sets the digital-signature template with the
    method's reference and the key's, loads the digest (citizen) or carries it
    inline (organizational) and asks for the signature with the exact expected
    length or the maximum; a decipherment sets the confidentiality template and
    sends the padding indicator and the cryptogram in two chained commands.  The
    result is the last answer's body, checked for length for a signature. *)
Theorem private_key_chains_on_the_wire {T E} `{CardTransport T E} (k : SigningKey) (m : Method)
    (digest cryptogram : bytes) (alg : DecipherAlgRef) :
  let ref := key_reference (key k) (scheme k) in
  len digest = method_digest_len m -> len cryptogram = 384 ->
  traces (fun n r => exists last, runs (signing_wires (scheme k) ref m digest) n last /\ signed m last r)
    (sign_with m k digest : exec (T * list (sent E)) _ _) /\
  traces (fun n r => exists last, runs (decipher_wires ref (decipher_byte alg) cryptogram) n last /\
            match last with
            | None => exists e, r = Err e
            | Some resp => r = Ok (mkPlaintext (body resp))
            end)
    (decipher_rsa (scheme k) (key k) alg (mkCryptogram cryptogram) : exec (T * list (sent E)) _ _).
Proof. intros ref Hd Hc. split; [by apply sign_traces|by apply decipher_traces]. Qed.

(** One presentation of PIN 2, one qualified key.  On a channel that PIN 2
    opened, whatever became of the first request for the qualified key and of a
    signature made with it, a second request is refused as spent and sends
    nothing. *)
Theorem presentation_yields_one_key `{Symmetric} {T E} `{CardTransport T E} (m : Method)
    (digest : bytes) (self : SmTransport T OpenedByPin2) :
  let '(r, self1) := qualified_key_after_pin2_pace (E := E) self in
  let self2 := match r with Ok k => (sign_with (E := fault (SmError E)) m k digest self1).2 | Err _ => self1 end in
  qualified_key_after_pin2_pace (E := E) self2 = (Err (ChannelPresentationSpent PresentationSpent), self2).
Proof.
  generalize (qualified_key_spends (E := E) self).
  destruct (qualified_key_after_pin2_pace self) as [[k|e] self1]; cbn; intros Hs; apply qualified_key_spent; [|done].
  by rewrite keeps_proof_sign.
Qed.

(** C39 Deciphering over a secure channel never succeeds: when the template was
    set, the first link of the chain (255 data bytes) exceeds what a protected
    command can carry and is refused unsent, with the channel's counter stepped. *)
Theorem decipher_refused_on_channel `{SymmetricLaws} {T E O} `{CardTransport T E} (scheme : SignScheme)
    (k : KeyRef) (alg : DecipherAlgRef) (cryptogram : bytes) (self : SmTransport T O) :
  len cryptogram = 384 ->
  exists mse, as_bytes mse = mse_wire 0xB8 (decipher_byte alg) (key_reference k scheme) /\
    match exchange (E := fault (SmError E)) mse "MSE:Set CT" self with
    | (Err e, self1) => decipher_rsa scheme k alg (mkCryptogram cryptogram) self = (Err e, self1)
    | (Ok _, self1) => decipher_rsa scheme k alg (mkCryptogram cryptogram) self
        = (Err (SignTransport (Raised CommandTooLong)), with_ssc (Ssc_increment (ssc self1)) self1)
    end.
Proof.
  intros Hl. unfold decipher_rsa, MseSetCt_into_apdu, mse_set_apdu. rewrite case_3_ok by done.
  rewrite bind_lift. cbn [map_err]. match goal with |- context [ebind (exchange ?c _) _ self] => exists c end.
  split; [done|]. destruct (exchange _ "MSE:Set CT" self) as [[resp|e] self1] eqn:Ex;
    unfold ebind at 1; rewrite Ex; [|done].
  rewrite decipher_chain by done. rewrite bind_lift. cbn [map_err decipher_wires tail map split_last rev app].
  rewrite bind_lift. cbn [ok_or send_leading].
  set (data := DECIPHER_PADDING_INDICATOR :: take 254 cryptogram).
  assert (len data = 255) as Hd. { unfold data, len in *. cbn [length]. rewrite length_take. lia. }
  match goal with |- context [exchange (from_wire ?w)] =>
    assert (w = short_command 0x10 0x2A 0x80 0x86 data None) as -> end.
  { unfold short_command. cbn [is_empty data]. fold data. rewrite Hd, app_nil_r. reflexivity. }
  unfold ebind at 1 2. rewrite (exchange_err _ _ _ _ _ (transmit_too_long _ _ _ _ _ _ Hd)). reflexivity.
Qed.

(** A card that accepts everything and signs with a fixed answer. *)
#[local] Instance signing_card : CardTransport Z unit := {
  transmit c := fun n =>
    let answer := match as_bytes c with
                  | _ :: 0x2A :: 0x9E :: _ => repeat 7 96
                  | 0x00 :: 0x2A :: 0x80 :: _ => [1; 2; 3]
                  | _ => []
                  end in
    (Ok (Response (mkResponse answer 0x90 0x00)), n + 1);
  transmit_credential c := fun n => (Ok (Response (mkResponse [] 0x90 0x00)), n + 1) }.

Definition sample_pin : Pin2 := mkPin2 (mkSecretDigits (repeat 0x31 6 ++ repeat 0 6) 6).

Lemma qualified_signature_needs_pin2_witness :
  (qualified_sign (T := Z * list (sent unit)) SchemeOrganizational sample_pin Sha384Ecdsa (repeat 5 48) (0, [])).1
    = Ok (mkSignature (repeat 7 96)) /\
  exists n last, qualified_log (E := unit) SchemeOrganizational (repeat 0x31 6) Sha384Ecdsa (repeat 5 48) n last.
Proof.
  destruct (qualified_signature_needs_pin2 (T := Z) (E := unit) SchemeOrganizational sample_pin
    (repeat 0x31 6) Sha384Ecdsa (repeat 5 48)
    ltac:(reflexivity) ltac:(by vm_compute) ltac:(reflexivity) (0, [])) as (n & _ & last & Hl & _).
  split; [by vm_compute|]. by exists n, last.
Defined.

Lemma private_key_chains_on_the_wire_witness :
  exists n last, runs (E := unit) (decipher_wires 1 0x1A (repeat 9 384)) n last.
Proof.
  destruct (private_key_chains_on_the_wire (T := Z) (E := unit) (authentication_key SchemeCitizen) Sha256Rsa
    (repeat 5 32) (repeat 9 384) RSA_PKCS1 ltac:(reflexivity) ltac:(reflexivity)) as [_ H].
  destruct (H (0, [])) as (n & _ & last & Hr & _). by exists n, last.
Defined.

Lemma decipher_refused_on_channel_witness :
  exists e self', decipher_rsa (T := SmTransport Z OpenedByCan) (E := fault (SmError unit)) SchemeCitizen KeyAuth
    RSA_PKCS1 (mkCryptogram (repeat 9 384)) (mkSmTransport 0 [1] [2] (repeat 0 16) mkOpenedByCan) = (Err e, self').
Proof.
  destruct (decipher_refused_on_channel (T := Z) (E := unit) SchemeCitizen KeyAuth RSA_PKCS1 (repeat 9 384)
    (mkSmTransport 0 [1] [2] (repeat 0 16) mkOpenedByCan) ltac:(reflexivity)) as (mse & _ & H).
  destruct (exchange mse _ _) as [[?|e] self1]; eauto.
Defined.

End Sign.
