(* ===== verification/Atr.v ===== *)
(** * The Answer to Reset

    crates/atr/src/lib.rs.  The parser walks the interface bytes by an index
    into the input; its [while] loop takes fuel, one step per input byte being
    enough since every round that continues reads at least one.  The newtypes
    over [u8] ([Yi], [TaByte], ..) are the byte itself. *)

From stdpp Require Import base list list_numbers option.
From Stdlib Require Import ZArith Lia.
From S2P Require Import Prelude.

Module Atr.

(** ** Data *)

Definition NIBBLE_MASK : Z := 15.
Definition NIBBLE_BITS : Z := 4.
Definition ATR_MIN_LEN : Z := 2.
Definition ATR_MAX_LEN : Z := 33.
Definition TS_DIRECT : Z := 59.
Definition TS_INVERSE : Z := 63.

Inductive Convention := Direct | Inverse.

#[global] Instance Convention_eq_dec : EqDecision Convention.
Proof. solve_decision. Defined.

Definition from_ts (ts : Z) : option Convention :=
  if ts =? TS_DIRECT then Some Direct
  else if ts =? TS_INVERSE then Some Inverse
  else None.

Definition as_ts (c : Convention) : Z :=
  match c with Direct => TS_DIRECT | Inverse => TS_INVERSE end.

Definition YI_TA_BIT : Z := 1.
Definition YI_TB_BIT : Z := 2.
Definition YI_TC_BIT : Z := 4.
Definition YI_TD_BIT : Z := 8.

Definition Yi : Type := Z.
Definition from_nibble (nibble : Z) : Yi := Z.land nibble NIBBLE_MASK.
Definition ta_present (y : Yi) : bool := negb (Z.land y YI_TA_BIT =? 0).
Definition tb_present (y : Yi) : bool := negb (Z.land y YI_TB_BIT =? 0).
Definition tc_present (y : Yi) : bool := negb (Z.land y YI_TC_BIT =? 0).
Definition td_present (y : Yi) : bool := negb (Z.land y YI_TD_BIT =? 0).
Definition any_present (y : Yi) : bool := negb (y =? 0).

Record T0 := MkT0 { y1 : Yi; historical_byte_count : Z }.

Definition T0_from_byte (b : Z) : T0 :=
  MkT0 (from_nibble (Z.shiftr b NIBBLE_BITS)) (Z.land b NIBBLE_MASK).

(** The shift is of a [u8]: what leaves the byte is lost. *)
Definition T0_as_byte (t : T0) : Z :=
  Z.lor (Z.land (Z.shiftl (y1 t) NIBBLE_BITS) U8_MAX)
        (Z.land (historical_byte_count t) NIBBLE_MASK).

Definition MINIMAL_DIRECT_ATR : bytes := [as_ts Direct; T0_as_byte (MkT0 (from_nibble 0) 0)].

(** [TaByte]: the first group's clock and bit rate conversion indexes. *)
Definition fi_index (ta : Z) : Z := Z.land (Z.shiftr ta NIBBLE_BITS) NIBBLE_MASK.
Definition di_index (ta : Z) : Z := Z.land ta NIBBLE_MASK.

Definition TA1_FI_TABLE : list (Z * Z * Z) :=
  [(0, 372, 4000); (1, 372, 5000); (2, 558, 6000); (3, 744, 8000); (4, 1116, 12000);
   (5, 1488, 16000); (6, 1860, 20000); (9, 512, 5000); (10, 768, 7500);
   (11, 1024, 10000); (12, 1536, 15000); (13, 2048, 20000)].

Definition TA1_DI_TABLE : list (Z * Z) :=
  [(1, 1); (2, 2); (3, 4); (4, 8); (5, 16); (6, 32); (7, 64); (8, 12); (9, 20)].

(** The first row whose index matches. *)
Definition ta1_clock_rate_conversion_for (fi : Z) : option Z :=
  (fun row => row.1.2) <$> List.find (fun row => row.1.1 =? fi) TA1_FI_TABLE.
Definition ta1_max_frequency_khz_for (fi : Z) : option Z :=
  (fun row => row.2) <$> List.find (fun row => row.1.1 =? fi) TA1_FI_TABLE.
Definition ta1_bit_rate_adjustment_for (di : Z) : option Z :=
  (fun row => row.2) <$> List.find (fun row => row.1 =? di) TA1_DI_TABLE.

Definition ta1_clock_rate_conversion (ta : Z) : option Z :=
  ta1_clock_rate_conversion_for (fi_index ta).
Definition ta1_max_frequency_khz (ta : Z) : option Z := ta1_max_frequency_khz_for (fi_index ta).
Definition ta1_bit_rate_adjustment (ta : Z) : option Z := ta1_bit_rate_adjustment_for (di_index ta).

(** [TdByte]. *)
Definition protocol_indicator (td : Z) : Z := Z.land td NIBBLE_MASK.
Definition next_yi (td : Z) : Yi := from_nibble (Z.shiftr td NIBBLE_BITS).

Record InterfaceByteGroup := MkGroup {
  ta : option Z; tb : option Z; tc : option Z; td : option Z }.

Inductive AtrError :=
  | TooShort (got : Z)
  | TooLong (got : Z)
  | InvalidConvention (got : Z)
  | TruncatedAtInterfaceBytes
  | TruncatedAtHistoricalBytes
  | MissingTck
  | TckMismatch (expected got : Z)
  | TrailingBytes (expected_end got : Z).

#[global] Instance AtrError_eq_dec : EqDecision AtrError.
Proof. solve_decision. Defined.

Record Atr := MkAtr {
  convention : Convention;
  t0 : T0;
  interface_groups : list InterfaceByteGroup;
  historical : bytes;
  tck : option Z }.

(** ** Parsing *)

(** One optional interface byte: [if present { .. bytes.get(idx) ..; idx += 1 }]. *)
Definition interface_byte (bs : bytes) (present : bool) (idx : Z) :
  result AtrError (option Z * Z) :=
  if present
  then let? b := ok_or (get bs idx) TruncatedAtInterfaceBytes in
       Ok (Some b, saturating_add USIZE_MAX idx 1)
  else Ok (None, idx).

(** The loop over the groups; [None] is fuel exhaustion. *)
Fixpoint interface_chain (fuel : nat) (bs : bytes) (yi : Yi) (idx : Z)
    (groups : list InterfaceByteGroup) (any_non_t0_protocol : bool) :
  option (result AtrError (list InterfaceByteGroup * Z * bool)) :=
  if negb (any_present yi) then Some (Ok (groups, idx, any_non_t0_protocol))
  else
    match fuel with
    | O => None
    | S fuel =>
        match interface_byte bs (ta_present yi) idx with
        | Err e => Some (Err e)
        | Ok (ta, idx) =>
        match interface_byte bs (tb_present yi) idx with
        | Err e => Some (Err e)
        | Ok (tb, idx) =>
        match interface_byte bs (tc_present yi) idx with
        | Err e => Some (Err e)
        | Ok (tc, idx) =>
            if td_present yi
            then match get bs idx with
                 | None => Some (Err TruncatedAtInterfaceBytes)
                 | Some td =>
                     interface_chain fuel bs (next_yi td) (saturating_add USIZE_MAX idx 1)
                       (groups ++ [MkGroup ta tb tc (Some td)])
                       (if negb (protocol_indicator td =? 0) then true
                        else any_non_t0_protocol)
                 end
            else Some (Ok (groups ++ [MkGroup ta tb tc None], idx, any_non_t0_protocol))
        end end end
    end.

Definition xor_all (bs : bytes) : Z := fold_left Z.lxor bs 0.

(** The check character, with the index after it. *)
Definition read_tck (bs : bytes) (idx : Z) (any_non_t0_protocol : bool) :
  result AtrError (option Z * Z) :=
  if any_non_t0_protocol
  then let? tck_byte := ok_or (get bs idx) MissingTck in
       let? checksummed := ok_or (get_range bs 1 (idx + 1)) MissingTck in
       let residue := xor_all checksummed in
       if negb (residue =? 0) then Err (TckMismatch (Z.lxor residue tck_byte) tck_byte)
       else Ok (Some tck_byte, saturating_add USIZE_MAX idx 1)
  else Ok (None, idx).

(** What [Atr::new] does once the chain has been walked. *)
Definition finish_parse (bs : bytes) (convention : Convention) (t0 : T0)
    (chain : list InterfaceByteGroup * Z * bool) : result AtrError Atr :=
  let '(groups, idx, any_non_t0_protocol) := chain in
  let? hist_end :=
    ok_or (checked_add USIZE_MAX idx (historical_byte_count t0)) TruncatedAtHistoricalBytes in
  let? hist := ok_or (get_range bs idx hist_end) TruncatedAtHistoricalBytes in
  let? '(tck, idx) := read_tck bs hist_end any_non_t0_protocol in
  if negb (idx =? len bs) then Err (TrailingBytes idx (len bs))
  else Ok (MkAtr convention t0 groups hist tck).

(** [Atr::new], with one step of the loop per input byte. *)
Definition Atr_new (bs : bytes) : option (result AtrError Atr) :=
  if len bs <? ATR_MIN_LEN then Some (Err (TooShort (len bs)))
  else if len bs >? ATR_MAX_LEN then Some (Err (TooLong (len bs)))
  else match get bs 0 with
  | None => Some (Err (TooShort (len bs)))
  | Some ts =>
  match from_ts ts with
  | None => Some (Err (InvalidConvention ts))
  | Some convention =>
  match get bs 1 with
  | None => Some (Err (TooShort (len bs)))
  | Some t0_byte =>
      let t0 := T0_from_byte t0_byte in
      r ← interface_chain (length bs) bs (y1 t0) 2 [] false;
      Some (rbind r (finish_parse bs convention t0))
  end end end.

(** ** Writing and queries *)

Definition opt_bytes (o : option Z) : bytes := match o with Some b => [b] | None => [] end.

Definition group_wire (g : InterfaceByteGroup) : bytes :=
  opt_bytes (ta g) ++ opt_bytes (tb g) ++ opt_bytes (tc g) ++ opt_bytes (td g).

Definition to_wire_bytes (a : Atr) : bytes :=
  [as_ts (convention a); T0_as_byte (t0 a)]
  ++ concat (map group_wire (interface_groups a))
  ++ historical a ++ opt_bytes (tck a).

Definition non_t0_group (g : InterfaceByteGroup) : bool :=
  match td g with Some td => negb (protocol_indicator td =? 0) | None => false end.

Definition supports_non_t0_protocol (a : Atr) : bool :=
  existsb non_t0_group (interface_groups a).

(** ** Historical bytes *)

Definition CATEGORY_COMPACT_TLV : Z := 128.

Definition category_indicator (h : bytes) : option Z := head h.
Definition is_compact_tlv (h : bytes) : bool :=
  bool_decide (category_indicator h = Some CATEGORY_COMPACT_TLV).

Record CompactTlv := MkCompactTlv { tag : Z; value : bytes }.

(** The loop of [compact_tlv_entries]; [None] is fuel exhaustion. *)
Fixpoint compact_loop (fuel : nat) (h : bytes) (idx : Z) (out : list CompactTlv) :
  option (list CompactTlv) :=
  if negb (idx <? len h) then Some out
  else
    match fuel with
    | O => None
    | S fuel =>
        match get h idx with
        | None => Some out
        | Some header =>
            let idx := saturating_add USIZE_MAX idx 1 in
            match checked_add USIZE_MAX idx (Z.land header NIBBLE_MASK) with
            | None => Some out
            | Some value_end =>
                match get_range h idx value_end with
                | None => Some out
                | Some value =>
                    compact_loop fuel h value_end
                      (out ++ [MkCompactTlv (Z.shiftr header NIBBLE_BITS) value])
                end
            end
        end
    end.

Definition compact_tlv_entries (h : bytes) : option (list CompactTlv) :=
  if negb (is_compact_tlv h) then Some [] else compact_loop (length h) h 1 [].

Inductive StatusIndicator :=
  | LifeCycle (lcs : Z)
  | StatusWord (sw1 sw2 : Z)
  | Full (lcs sw1 sw2 : Z).

Inductive HistoricalDataObject :=
  | CountryCode (c : bytes)
  | IssuerIdNumber (v : bytes)
  | CardServiceData (b : Z)
  | InitialAccessData (v : bytes)
  | CardIssuerData (v : bytes)
  | PreIssuingData (v : bytes)
  | CardCapabilities (c : bytes)
  | Status (s : StatusIndicator)
  | Other (tag : Z) (value : bytes).

Definition CTLV_TAG_COUNTRY : Z := 1.
Definition CTLV_TAG_ISSUER_ID : Z := 2.
Definition CTLV_TAG_CARD_SERVICE : Z := 3.
Definition CTLV_TAG_INITIAL_ACCESS : Z := 4.
Definition CTLV_TAG_CARD_ISSUER : Z := 5.
Definition CTLV_TAG_PRE_ISSUING : Z := 6.
Definition CTLV_TAG_CARD_CAPABILITIES : Z := 7.
Definition CTLV_TAG_STATUS : Z := 8.

Definition single_byte (e : CompactTlv) : option Z :=
  match value e with [b] => Some b | _ => None end.

Definition status_indicator (e : CompactTlv) : option StatusIndicator :=
  match value e with
  | [lcs] => Some (LifeCycle lcs)
  | [sw1; sw2] => Some (StatusWord sw1 sw2)
  | [lcs; sw1; sw2] => Some (Full lcs sw1 sw2)
  | _ => None
  end.

Definition proprietary (e : CompactTlv) : HistoricalDataObject := Other (tag e) (value e).

Definition interpret (e : CompactTlv) : HistoricalDataObject :=
  if tag e =? CTLV_TAG_COUNTRY then CountryCode (value e)
  else if tag e =? CTLV_TAG_ISSUER_ID then IssuerIdNumber (value e)
  else if tag e =? CTLV_TAG_CARD_SERVICE then
    match single_byte e with Some b => CardServiceData b | None => proprietary e end
  else if tag e =? CTLV_TAG_INITIAL_ACCESS then InitialAccessData (value e)
  else if tag e =? CTLV_TAG_CARD_ISSUER then CardIssuerData (value e)
  else if tag e =? CTLV_TAG_PRE_ISSUING then PreIssuingData (value e)
  else if tag e =? CTLV_TAG_CARD_CAPABILITIES then CardCapabilities (value e)
  else if tag e =? CTLV_TAG_STATUS then
    match status_indicator e with Some s => Status s | None => proprietary e end
  else proprietary e.

Definition data_objects (h : bytes) : option (list HistoricalDataObject) :=
  map interpret <$> compact_tlv_entries h.

(** [CardServiceData]. *)
Definition app_selection_by_full_df_name (b : Z) : bool := negb (Z.land b 128 =? 0).
Definition app_selection_by_partial_df_name (b : Z) : bool := negb (Z.land b 64 =? 0).
Definition ber_tlv_in_ef_dir (b : Z) : bool := negb (Z.land b 32 =? 0).
Definition ber_tlv_in_ef_atr (b : Z) : bool := negb (Z.land b 16 =? 0).
Definition ef_access_services (b : Z) : Z := Z.land (Z.shiftr b 1) 7.
Definition has_master_file (b : Z) : bool := Z.land b 1 =? 0.

(** [CountryIndicator::country_code]. *)
Definition MAX_DECIMAL_DIGIT : Z := 9.
Definition country_code (c : bytes) : option Z :=
  first ← head c;
  second ← get c 1;
  let d0 := Z.shiftr first NIBBLE_BITS in
  let d1 := Z.land first NIBBLE_MASK in
  let d2 := Z.shiftr second NIBBLE_BITS in
  if (d0 >? MAX_DECIMAL_DIGIT) || (d1 >? MAX_DECIMAL_DIGIT) || (d2 >? MAX_DECIMAL_DIGIT)
  then None
  else Some (saturating_add U16_MAX
               (saturating_add U16_MAX (Z.min U16_MAX (d0 * 100)) (Z.min U16_MAX (d1 * 10))) d2).

(** [CardCapabilities]. *)
Definition selection_methods (c : bytes) : option Z := head c.
Definition data_coding (c : bytes) : option Z := get c 1.
Definition command_chaining (c : bytes) : option Z := get c 2.
Definition supports_command_chaining (c : bytes) : option bool :=
  (fun b => negb (Z.land b 128 =? 0)) <$> command_chaining c.
Definition supports_extended_length (c : bytes) : option bool :=
  (fun b => negb (Z.land b 64 =? 0)) <$> command_chaining c.

(** ** Well-formed answers *)

Definition present (o : option Z) : bool := match o with Some _ => true | None => false end.

(** A group holds the bytes its indicator announces. *)
Definition group_fits (yi : Yi) (g : InterfaceByteGroup) : bool :=
  Bool.eqb (present (ta g)) (ta_present yi) && Bool.eqb (present (tb g)) (tb_present yi)
  && Bool.eqb (present (tc g)) (tc_present yi) && Bool.eqb (present (td g)) (td_present yi)
  && all_bytesb (group_wire g).

(** Each group's [TD] announces the next; a group without [TD] is the last. *)
Fixpoint chained (yi : Yi) (gs : list InterfaceByteGroup) : bool :=
  match gs with
  | [] => negb (any_present yi)
  | g :: rest =>
      any_present yi && group_fits yi g
      && match td g with Some td => chained (next_yi td) rest | None => is_empty rest end
  end.

Definition is_nibble (z : Z) : bool := (0 <=? z) && (z <=? 15).

(** The counts agree with [T0], and a check character is there exactly when a
    protocol other than T=0 is announced, and makes the sum from [T0] zero. *)
Definition valid_atr (a : Atr) : bool :=
  is_nibble (y1 (t0 a)) && is_nibble (historical_byte_count (t0 a))
  && chained (y1 (t0 a)) (interface_groups a)
  && all_bytesb (historical a) && (len (historical a) =? historical_byte_count (t0 a))
  && match tck a with
     | Some t => is_u8b t && supports_non_t0_protocol a
                 && (xor_all (drop 1 (to_wire_bytes a)) =? 0)
     | None => negb (supports_non_t0_protocol a)
     end.

(** ** Lemmas on the interface bytes *)

Lemma get_app_head (p q : bytes) : get (p ++ q) (len p) = head q.
Proof.
  destruct q; [|apply get_app_len]. rewrite app_nil_r. unfold get, len.
  case_if; [lia|]. rewrite Nat2Z.id. by apply lookup_ge_None_2.
Qed.

Lemma interface_byte_app bs p q o pr idx :
  len bs < USIZE_MAX -> bs = p ++ opt_bytes o ++ q -> pr = present o -> idx = len p ->
  interface_byte bs pr idx = Ok (o, len (p ++ opt_bytes o)).
Proof.
  intros Hl -> -> ->. rewrite !len_app in Hl. pose proof (len_nonneg q).
  unfold interface_byte. destruct o as [b|]; cbn [present opt_bytes] in *.
  - rewrite get_app_head. cbn. f_equal. f_equal.
    rewrite len_app, len_cons, len_nil in *. unfold saturating_add. lia.
  - by rewrite app_nil_r.
Qed.

Lemma interface_byte_inv p q pr o idx :
  len (p ++ q) < USIZE_MAX -> interface_byte (p ++ q) pr (len p) = Ok (o, idx) ->
  exists q', q = opt_bytes o ++ q' /\ idx = len (p ++ opt_bytes o) /\ present o = pr.
Proof.
  intros Hl. unfold interface_byte. destruct pr.
  - rewrite get_app_head. destruct q as [|b q]; [done|]. cbn. intros [= <- <-].
    exists q. rewrite len_app, len_cons in Hl. pose proof (len_nonneg q).
    split_and!; [done| |done]. cbn. unfold saturating_add. rewrite len_app, len_cons, len_nil. lia.
  - intros [= <- <-]. exists q. by rewrite app_nil_r.
Qed.

Lemma interface_byte_adv bs pr o idx idx' :
  0 <= idx -> idx <= len bs -> len bs < USIZE_MAX -> interface_byte bs pr idx = Ok (o, idx') ->
  idx <= idx' <= len bs /\ (pr = true -> idx < idx').
Proof.
  intros H0 Hi Hl. unfold interface_byte. destruct pr; [|intros [= <- <-]; lia].
  destruct (get bs idx) as [b|] eqn:Eg; [|done]. cbn. intros [= <- <-].
  assert (idx < len bs).
  { unfold get in Eg. case_match_in Eg; [done|]. apply lookup_lt_Some in Eg. unfold len. lia. }
  unfold saturating_add. lia.
Qed.

(** The four indicator bits of a nibble, and that one is set unless it is 0. *)
Lemma nibble_presence yi :
  is_nibble yi = true -> any_present yi = true ->
  ta_present yi || tb_present yi || tc_present yi || td_present yi = true.
Proof.
  intros Hn Ha.
  assert (forallb (fun y => implb (any_present y)
    (ta_present y || tb_present y || tc_present y || td_present y)) (seqZ 0 16) = true) as F
    by by vm_compute.
  rewrite forallb_forall in F. specialize (F yi). rewrite Ha in F. apply F.
  apply list_elem_of_In, elem_of_seqZ. unfold is_nibble in Hn. to_prop. lia.
Qed.

Lemma land_nibble z : is_nibble (Z.land z NIBBLE_MASK) = true.
Proof.
  unfold NIBBLE_MASK. change 15 with (Z.ones 4) at 1. rewrite Z.land_ones by lia.
  pose proof (Z.mod_pos_bound z (2 ^ 4) ltac:(lia)). change (2 ^ 4) with 16 in *.
  unfold is_nibble. lia.
Qed.

Lemma next_yi_nibble td : is_nibble (next_yi td) = true.
Proof.
  apply land_nibble.
Qed.

(** Every group of a chain has at least one byte on the wire. *)
Lemma chained_length yi gs :
  is_nibble yi = true -> chained yi gs = true ->
  (length gs <= length (concat (map group_wire gs)))%nat.
Proof.
  revert yi. induction gs as [|g gs IH]; intros yi Hn Hc; [done|]. cbn [chained] in Hc.
  apply andb_prop in Hc as [[Ha Hg]%andb_prop Hc]. pose proof (nibble_presence yi Hn Ha) as Hp.
  assert (length gs <= length (concat (map group_wire gs)))%nat.
  { destruct (td g) as [d|]; [by eapply (IH (next_yi d)), Hc; apply next_yi_nibble|].
    by destruct gs. }
  assert (group_wire g <> []) as Hw.
  { unfold group_fits in Hg. to_prop. repeat match goal with
      | H : Bool.eqb _ _ = true |- _ => apply eqb_prop in H; rewrite <- H in Hp end.
    unfold group_wire. clear - Hp.
    destruct (ta g), (tb g), (tc g), (td g); cbn in *; naive_solver. }
  cbn [map concat length]. rewrite length_app. destruct (group_wire g); cbn in *; [done|lia].
Qed.

(** ** The loop *)

Lemma interface_chain_app fuel bs p gs rest yi idx acc any :
  len bs < USIZE_MAX -> bs = p ++ concat (map group_wire gs) ++ rest -> idx = len p ->
  chained yi gs = true -> (length gs <= fuel)%nat ->
  interface_chain fuel bs yi idx acc any
  = Some (Ok (acc ++ gs, len (p ++ concat (map group_wire gs)),
              existsb non_t0_group gs || any)).
Proof.
  revert fuel p yi idx acc any. induction gs as [|g gs IH];
    intros fuel p yi idx acc any Hl Hbs -> Hc Hf; cbn [chained] in Hc.
  { destruct fuel; cbn [interface_chain]; rewrite Hc; cbn; by rewrite !app_nil_r. }
  destruct fuel as [|fuel]; [cbn in Hf; lia|]. cbn [interface_chain].
  apply andb_prop in Hc as [[Ha Hg]%andb_prop Hc]. rewrite Ha. cbn [negb].
  unfold group_fits in Hg. to_prop. repeat match goal with
    | H : Bool.eqb _ _ = true |- _ => apply eqb_prop in H end.
  destruct g as [oa ob oc od]. cbn [ta tb tc td map concat] in *. unfold group_wire in *.
  cbn [ta tb tc td] in *. rewrite <- !app_assoc in Hbs.
  erewrite (interface_byte_app bs p _ oa) by (done || (symmetry; done)). cbn [rbind].
  erewrite (interface_byte_app bs (p ++ opt_bytes oa) _ ob)
    by (done || (rewrite <- !app_assoc; done) || (symmetry; done)).
  erewrite (interface_byte_app bs ((p ++ opt_bytes oa) ++ opt_bytes ob) _ oc)
    by (done || (rewrite <- !app_assoc; done) || (symmetry; done)).
  destruct od as [d|]; cbn [present] in *.
  - rewrite <- H1. rewrite Hbs at 1.
    rewrite (app_assoc p), (app_assoc (p ++ opt_bytes oa)),
      (app_assoc ((p ++ opt_bytes oa) ++ opt_bytes ob)).
    rewrite get_app_head. cbn [opt_bytes app head].
    assert (saturating_add USIZE_MAX (len (((p ++ opt_bytes oa) ++ opt_bytes ob) ++ opt_bytes oc)) 1
            = len ((((p ++ opt_bytes oa) ++ opt_bytes ob) ++ opt_bytes oc) ++ [d])) as ->.
    { rewrite Hbs in Hl. rewrite !len_app in *. cbn [opt_bytes] in *.
      rewrite len_cons, len_nil in *. unfold saturating_add.
      pose proof (len_nonneg rest). pose proof (len_nonneg (concat (map group_wire gs))).
      unfold group_wire in *. lia. }
    erewrite (IH _ ((((p ++ opt_bytes oa) ++ opt_bytes ob) ++ opt_bytes oc) ++ [d]));
      [|done|by rewrite <- !app_assoc|done|done|cbn in Hf; lia].
    rewrite <- !app_assoc. cbn [app existsb non_t0_group td opt_bytes].
    do 3 f_equal. destruct (existsb _ gs), (protocol_indicator d =? 0); by cbn.
  - rewrite <- H1. destruct gs; [|done]. cbn. rewrite !app_nil_r, <- !app_assoc. done.
Qed.

Lemma interface_chain_inv fuel p q yi acc any gs' idx' any' :
  len (p ++ q) < USIZE_MAX -> all_bytes q ->
  interface_chain fuel (p ++ q) yi (len p) acc any = Some (Ok (gs', idx', any')) ->
  exists gs rest, q = concat (map group_wire gs) ++ rest /\ chained yi gs = true /\
    gs' = acc ++ gs /\ idx' = len (p ++ concat (map group_wire gs)) /\
    any' = existsb non_t0_group gs || any.
Proof.
  revert p q yi acc any. induction fuel as [|fuel IH]; intros p q yi acc any Hl Hq;
    cbn [interface_chain]; destruct (any_present yi) eqn:Ha; cbn [negb]; try done;
    try (intros [= <- <- <-]; exists [], q; cbn [concat map chained];
         rewrite Ha, !app_nil_r; done).
  destruct (interface_byte (p ++ q) _ _) as [[oa i1]|] eqn:E1; [|done].
  apply interface_byte_inv in E1 as (q1 & -> & -> & P1); [|done]. rewrite !app_assoc in *.
  destruct (interface_byte ((p ++ _) ++ _) _ _) as [[ob i2]|] eqn:E2; [|done].
  apply interface_byte_inv in E2 as (q2 & -> & -> & P2); [|done]. rewrite !app_assoc in *.
  destruct (interface_byte (((p ++ _) ++ _) ++ _) _ _) as [[oc i3]|] eqn:E3; [|done].
  apply interface_byte_inv in E3 as (q3 & -> & -> & P3); [|done]. rewrite !app_assoc in *.
  assert (forall od q', q3 = opt_bytes od ++ q' -> present od = td_present yi ->
    group_fits yi (MkGroup oa ob oc od) = true) as Hfit.
  { intros od q' -> P4. unfold group_fits. cbn [ta tb tc td]. rewrite P1, P2, P3, P4.
    rewrite !eqb_reflx. cbn. apply all_bytesb_spec. unfold group_wire. cbn [ta tb tc td].
    rewrite !all_bytes_app in *. tauto. }
  destruct (td_present yi) eqn:Ed.
  - rewrite get_app_head. destruct q3 as [|d q3]; [done|]. cbn [head].
    set (p' := (((p ++ opt_bytes oa) ++ opt_bytes ob) ++ opt_bytes oc)) in *.
    replace (saturating_add USIZE_MAX (len p') 1) with (len (p' ++ [d])).
    2:{ rewrite !len_app, !len_cons, ?len_nil in *. pose proof (len_nonneg q3).
        unfold saturating_add. lia. }
    replace (p' ++ d :: q3) with ((p' ++ [d]) ++ q3) in * by by rewrite <- app_assoc.
    intros Hr. apply IH in Hr as (gs & rest & -> & Hc & -> & -> & ->); [|done|].
    2:{ rewrite !all_bytes_app in Hq. inversion Hq as [_ Hq']. by inversion Hq'. }
    exists (MkGroup oa ob oc (Some d) :: gs), rest. cbn [map concat chained td existsb].
    rewrite Ha, (Hfit (Some d) _ eq_refl eq_refl), Hc. unfold p', group_wire.
    cbn [ta tb tc td opt_bytes]. rewrite <- !app_assoc. split_and!; try done.
    unfold non_t0_group at 2. cbn [td].
    destruct (existsb _ gs), (protocol_indicator d =? 0); by cbn.
  - intros [= <- <- <-]. exists [MkGroup oa ob oc None], q3.
    cbn [map concat chained td existsb is_empty]. rewrite Ha, (Hfit None q3 eq_refl eq_refl).
    unfold group_wire. cbn [ta tb tc td opt_bytes]. rewrite !app_nil_r, <- !app_assoc. done.
Qed.

Lemma interface_chain_total fuel bs yi idx acc any :
  len bs < USIZE_MAX -> is_nibble yi = true -> 0 <= idx <= len bs ->
  len bs - idx < Z.of_nat fuel -> is_Some (interface_chain fuel bs yi idx acc any).
Proof.
  intros Hl. revert yi idx acc any. induction fuel as [|fuel IH];
    intros yi idx acc any Hn Hi Hf; [lia|]. cbn [interface_chain].
  destruct (any_present yi) eqn:Ha; cbn [negb]; [|by eexists].
  pose proof (nibble_presence yi Hn Ha) as Hp.
  destruct (interface_byte bs _ idx) as [[oa i1]|] eqn:E1; [|by eexists].
  apply interface_byte_adv in E1 as [A1 B1]; [|lia..].
  destruct (interface_byte bs _ i1) as [[ob i2]|] eqn:E2; [|by eexists].
  apply interface_byte_adv in E2 as [A2 B2]; [|lia..].
  destruct (interface_byte bs _ i2) as [[oc i3]|] eqn:E3; [|by eexists].
  apply interface_byte_adv in E3 as [A3 B3]; [|lia..].
  destruct (td_present yi); [|by eexists].
  destruct (get bs i3) as [d|] eqn:Eg; [|by eexists].
  assert (i3 < len bs).
  { unfold get in Eg. case_match_in Eg; [done|]. apply lookup_lt_Some in Eg. unfold len. lia. }
  apply IH; [apply next_yi_nibble|unfold saturating_add; lia..].
Qed.

(** ** The bytes after the chain *)

Lemma get_range_after (p q v : bytes) n :
  0 <= n -> get_range (p ++ q) (len p) (len p + n) = Some v ->
  exists r, q = v ++ r /\ len v = n.
Proof.
  intros Hn H. pose proof (get_range_len _ _ _ _ H) as Hv.
  apply get_range_spec in H as (_ & _ & ->). exists (drop (Z.to_nat n) q).
  split; [|lia]. unfold len. rewrite Nat2Z.id, drop_app_length.
  replace (Z.of_nat _ + n - _) with n by lia. by rewrite take_drop.
Qed.

Lemma get_range_from_1 (p q : bytes) :
  1 <= len p -> get_range (p ++ q) 1 (len p) = Some (drop 1 p).
Proof.
  destruct p as [|x p]; [done|]. intros _. change ((x :: p) ++ q) with ([x] ++ p ++ q).
  by apply get_range_app'; rewrite !len_cons.
Qed.

Lemma read_tck_app bs p o idx any :
  len bs < USIZE_MAX -> bs = p ++ opt_bytes o -> idx = len p -> 1 <= len p ->
  any = present o -> (any = true -> xor_all (drop 1 bs) =? 0 = true) ->
  read_tck bs idx any = Ok (o, len bs).
Proof.
  intros Hl Hbs -> Hp -> Hx. unfold read_tck. destruct o as [t|]; cbn [present opt_bytes] in *.
  - rewrite Hbs, get_app_head. cbn [head ok_or rbind].
    replace (len p + 1) with (len (p ++ [t])) by by rewrite len_app.
    rewrite <- (app_nil_r (p ++ [t])) at 1.
    rewrite get_range_from_1 by (rewrite len_app, len_cons; pose proof (len_nonneg (@nil Z)); lia).
    cbn [ok_or rbind]. rewrite <- Hbs, (Hx eq_refl). cbn [negb]. do 2 f_equal.
    rewrite Hbs, len_app, len_cons, len_nil in *. unfold saturating_add. lia.
  - by rewrite Hbs, app_nil_r.
Qed.

Lemma read_tck_inv p q o idx any :
  len (p ++ q) < USIZE_MAX -> 1 <= len p -> read_tck (p ++ q) (len p) any = Ok (o, idx) ->
  exists q', q = opt_bytes o ++ q' /\ idx = len (p ++ opt_bytes o) /\ present o = any /\
    (any = true -> xor_all (drop 1 (p ++ opt_bytes o)) =? 0 = true).
Proof.
  intros Hl Hp. unfold read_tck. destruct any.
  - rewrite get_app_head. destruct q as [|t q]; [done|]. cbn [head ok_or rbind].
    replace (p ++ t :: q) with ((p ++ [t]) ++ q) in * by by rewrite <- app_assoc.
    rewrite !len_app, len_cons, len_nil in Hl. pose proof (len_nonneg q).
    replace (len p + 1) with (len (p ++ [t])) by by rewrite len_app.
    rewrite get_range_from_1 by (rewrite len_app, len_cons, len_nil; lia).
    cbn [ok_or rbind]. destruct (xor_all _ =? 0) eqn:Ex; [|done]. cbn [negb].
    intros [= <- <-]. exists q. split_and!; [done| |done|done].
    cbn [opt_bytes]. rewrite len_app, len_cons, len_nil. unfold saturating_add. lia.
  - intros [= <- <-]. exists q. by rewrite app_nil_r.
Qed.

Lemma T0_from_as t :
  is_nibble (y1 t) = true -> is_nibble (historical_byte_count t) = true ->
  T0_from_byte (T0_as_byte t) = t.
Proof.
  destruct t as [y k]. cbn [y1 historical_byte_count]. intros Hy Hk.
  assert (forallb (fun y => forallb (fun k =>
    let t := T0_from_byte (T0_as_byte (MkT0 y k)) in
    (y1 t =? y) && (historical_byte_count t =? k)) (seqZ 0 16)) (seqZ 0 16) = true) as F
    by by vm_compute.
  rewrite forallb_forall in F. specialize (F y). rewrite forallb_forall in F.
  unfold is_nibble in *. to_prop.
  assert (((y1 (T0_from_byte (T0_as_byte (MkT0 y k))) =? y)
    && (historical_byte_count (T0_from_byte (T0_as_byte (MkT0 y k))) =? k)) = true) as Hb.
  { apply F; apply list_elem_of_In, elem_of_seqZ; lia. }
  to_prop. destruct (T0_from_byte _) as [y' k']. cbn in *. congruence.
Qed.

Lemma T0_as_from b : is_u8 b -> T0_as_byte (T0_from_byte b) = b.
Proof.
  intros Hb.
  assert (forallb (fun b => T0_as_byte (T0_from_byte b) =? b) (seqZ 0 256) = true) as F
    by by vm_compute.
  rewrite forallb_forall in F. specialize (F b). apply Z.eqb_eq, F.
  apply list_elem_of_In, elem_of_seqZ. ulia.
Qed.

Lemma from_as_ts c : from_ts (as_ts c) = Some c.
Proof. by destruct c. Qed.

Lemma as_from_ts ts c : from_ts ts = Some c -> as_ts c = ts.
Proof. unfold from_ts. intros H. repeat case_match_in H; simplify_eq; done. Qed.

Lemma Atr_new_total bs : is_Some (Atr_new bs).
Proof.
  unfold Atr_new. repeat case_if; try by eexists.
  destruct (get bs 0) as [ts|]; [|by eexists]. destruct (from_ts ts); [|by eexists].
  destruct (get bs 1) as [b|]; [|by eexists].
  destruct (interface_chain_total (length bs) bs (y1 (T0_from_byte b)) 2 [] false) as [r ->].
  - unfold ATR_MAX_LEN in *. ulia.
  - apply land_nibble.
  - unfold ATR_MIN_LEN in *. lia.
  - unfold ATR_MIN_LEN in *. ulia.
  - by eexists.
Qed.

Lemma finish_parse_inv p q c t gs any a :
  len (p ++ q) < USIZE_MAX -> 1 <= len p -> 0 <= historical_byte_count t ->
  finish_parse (p ++ q) c t (gs, len p, any) = Ok a ->
  exists h o, q = h ++ opt_bytes o /\ len h = historical_byte_count t /\ present o = any /\
    (any = true -> xor_all (drop 1 (p ++ q)) =? 0 = true) /\ a = MkAtr c t gs h o.
Proof.
  intros Hl Hp Hk. unfold finish_parse. intros H.
  apply rbind_ok_inv in H as (e & He & H). apply ok_or_inv in He.
  unfold checked_add in He. case_match_in He; [|done]. injection He as <-.
  apply rbind_ok_inv in H as (h & Hh & H). apply ok_or_inv in Hh.
  apply get_range_after in Hh as (r & -> & Hlen); [|done].
  apply rbind_ok_inv in H as ([o idx] & Ht & H).
  replace (len p + historical_byte_count t) with (len (p ++ h)) in Ht
    by (rewrite len_app; lia).
  rewrite app_assoc in *. apply read_tck_inv in Ht as (r' & -> & -> & Ho & Hx); [|done|].
  2:{ rewrite len_app. pose proof (len_nonneg h). lia. }
  case_match_in H; [done|]. injection H as <-. to_prop.
  assert (r' = []) as ->.
  { apply len_0_nil. rewrite !len_app in *. lia. }
  rewrite app_nil_r in *. exists h, o. split_and!; [by rewrite ?app_nil_r|done..].
Qed.

Lemma finish_parse_app bs p c t gs h o :
  len bs < USIZE_MAX -> bs = p ++ h ++ opt_bytes o -> 1 <= len p ->
  len h = historical_byte_count t ->
  (present o = true -> xor_all (drop 1 bs) =? 0 = true) ->
  finish_parse bs c t (gs, len p, present o) = Ok (MkAtr c t gs h o).
Proof.
  intros Hl Hbs Hp Hk Hx. unfold finish_parse. rewrite <- Hk. pose proof (len_nonneg h).
  assert (len p + len h <= len bs)
    by (rewrite Hbs, !len_app; pose proof (len_nonneg (opt_bytes o)); lia).
  rewrite checked_add_some by lia. cbn [ok_or rbind].
  rewrite Hbs at 1. rewrite get_range_app. cbn [ok_or rbind].
  rewrite (read_tck_app bs (p ++ h) o) by
    (done || (rewrite <- app_assoc; done) || (rewrite len_app; lia)).
  cbn [rbind]. by rewrite Z.eqb_refl.
Qed.

(** What [Atr::new] returns for an input of acceptable length. *)
Lemma Atr_new_eq ts b q :
  len (ts :: b :: q) <= ATR_MAX_LEN ->
  Atr_new (ts :: b :: q)
  = match from_ts ts with
    | None => Some (Err (InvalidConvention ts))
    | Some c =>
        r ← interface_chain (length (ts :: b :: q)) (ts :: b :: q) (y1 (T0_from_byte b)) 2 [] false;
        Some (rbind r (finish_parse (ts :: b :: q) c (T0_from_byte b)))
    end.
Proof.
  intros Hl. unfold Atr_new. pose proof (len_nonneg q).
  replace (len (ts :: b :: q) <? ATR_MIN_LEN) with false
    by (rewrite !len_cons; unfold ATR_MIN_LEN; lia).
  replace (len (ts :: b :: q) >? ATR_MAX_LEN) with false by lia. done.
Qed.

Lemma Atr_new_sound bs a :
  all_bytes bs -> Atr_new bs = Some (Ok a) ->
  valid_atr a = true /\ to_wire_bytes a = bs /\ len bs <= ATR_MAX_LEN.
Proof.
  intros Hbs H.
  assert (ATR_MIN_LEN <= len bs <= ATR_MAX_LEN) as [Hlo Hhi].
  { unfold Atr_new in H. do 2 (case_match_in H; [done|]). lia. }
  destruct bs as [|ts [|b q]]; [done..|]. rewrite Atr_new_eq in H by done.
  destruct (from_ts ts) as [c|] eqn:Ets; [|done].
  destruct (interface_chain _ _ _ _ _ _) as [r|] eqn:Ec; [|done]. cbn in H. injection H as H.
  destruct r as [[[gs idx] any]|]; [|done].
  inversion Hbs as [|?? _ Hbs']. inversion Hbs' as [|?? Hb Hq]. subst.
  assert (len (ts :: b :: q) < USIZE_MAX) by (unfold ATR_MAX_LEN in *; ulia).
  change (ts :: b :: q) with ([ts; b] ++ q) in *. change 2 with (len [ts; b]) in Ec.
  apply interface_chain_inv in Ec as (gs' & rest & -> & Hc & -> & -> & ->); [|done..].
  rewrite orb_false_r, app_nil_l in *. cbn [rbind] in H. rewrite app_assoc in H.
  assert (is_nibble (y1 (T0_from_byte b)) = true) as Hn1 by apply land_nibble.
  assert (is_nibble (historical_byte_count (T0_from_byte b)) = true) as Hn2 by apply land_nibble.
  apply finish_parse_inv in H as (h & o & -> & Hk & Ho & Hx & ->).
  - assert (to_wire_bytes (MkAtr c (T0_from_byte b) gs' h o)
      = [ts; b] ++ concat (map group_wire gs') ++ h ++ opt_bytes o) as Hw.
    { unfold to_wire_bytes. cbn [convention t0 interface_groups historical tck].
      by rewrite (as_from_ts _ _ Ets), T0_as_from. }
    split_and!; [|done|done]. unfold valid_atr.
    rewrite Hw. cbn [t0 interface_groups historical tck supports_non_t0_protocol].
    rewrite !all_bytes_app in Hq. destruct Hq as (_ & Hh & Hot).
    rewrite Hc, (proj2 (all_bytesb_spec h) Hh), Hk, Z.eqb_refl, Hn1, Hn2. cbn [andb].
    rewrite <- app_assoc in Hx. unfold supports_non_t0_protocol. cbn [interface_groups].
    rewrite <- Ho in *. destruct o as [t|]; [|done]. cbn [present] in *.
    rewrite (Hx eq_refl). inversion Hot as [|?? Ht _]. unfold is_u8b. ulia.
  - by rewrite <- app_assoc.
  - rewrite len_app, !len_cons. pose proof (len_nonneg (concat (map group_wire gs'))).
    pose proof (len_nonneg (@nil Z)). lia.
  - unfold is_nibble in Hn2. to_prop. lia.
Qed.

Lemma Atr_new_complete a :
  valid_atr a = true -> len (to_wire_bytes a) <= ATR_MAX_LEN ->
  Atr_new (to_wire_bytes a) = Some (Ok a).
Proof.
  intros Hv Hl. destruct a as [c t gs h o]. unfold valid_atr in Hv.
  cbn [t0 interface_groups historical tck] in Hv.
  apply andb_prop in Hv as [Hv Ho]. to_prop.
  assert (len (to_wire_bytes (MkAtr c t gs h o)) < USIZE_MAX)
    by (unfold ATR_MAX_LEN in *; ulia).
  set (bs := to_wire_bytes _) in *.
  assert (bs = [as_ts c; T0_as_byte t] ++ concat (map group_wire gs) ++ h ++ opt_bytes o)
    as Hbs by done.
  rewrite Hbs at 1. cbn [app]. rewrite Atr_new_eq by done. rewrite from_as_ts, T0_from_as by done.
  change (as_ts c :: _) with bs.
  rewrite (interface_chain_app _ bs [as_ts c; T0_as_byte t] gs (h ++ opt_bytes o)); try done.
  - cbn [mbind option_bind app rbind]. rewrite orb_false_r.
    assert (existsb non_t0_group gs = present o /\
      (present o = true -> xor_all (drop 1 bs) =? 0 = true)) as [-> Hx].
    { unfold supports_non_t0_protocol in Ho. cbn [interface_groups] in Ho.
      destruct o; to_prop; cbn; split; try done. by rewrite Z.eqb_eq. }
    f_equal. apply finish_parse_app; [done|by rewrite Hbs, app_assoc| |done|done].
    rewrite !len_cons. pose proof (len_nonneg (concat (map group_wire gs))). lia.
  - pose proof (chained_length (y1 t) gs ltac:(done) ltac:(done)). rewrite Hbs, !length_app. lia.
Qed.

(** ** Compact-TLV records *)

(** A record on the wire. *)
Definition compact_wire (e : CompactTlv) : bytes :=
  Z.lor (Z.shiftl (tag e) NIBBLE_BITS) (len (value e)) :: value e.

Definition compact_fits (e : CompactTlv) : bool :=
  is_nibble (tag e) && (len (value e) <=? 15) && all_bytesb (value e).

(** What is left holds no complete record. *)
Definition incomplete (rest : bytes) : bool :=
  match rest with
  | [] => true
  | header :: body => len body <? Z.land header NIBBLE_MASK
  end.

Lemma nibbles_split y k :
  is_nibble y = true -> is_nibble k = true ->
  Z.shiftr (Z.lor (Z.shiftl y NIBBLE_BITS) k) NIBBLE_BITS = y /\
  Z.land (Z.lor (Z.shiftl y NIBBLE_BITS) k) NIBBLE_MASK = k.
Proof.
  intros Hy Hk. assert (forallb (fun y => forallb (fun k =>
    (Z.shiftr (Z.lor (Z.shiftl y 4) k) 4 =? y) && (Z.land (Z.lor (Z.shiftl y 4) k) 15 =? k))
    (seqZ 0 16)) (seqZ 0 16) = true) as F by by vm_compute.
  rewrite forallb_forall in F. specialize (F y). rewrite forallb_forall in F.
  unfold is_nibble, NIBBLE_BITS, NIBBLE_MASK in *. to_prop. rewrite <- !Z.eqb_eq.
  apply andb_true_iff, F; apply list_elem_of_In, elem_of_seqZ; lia.
Qed.

Lemma nibbles_join b :
  is_u8 b ->
  Z.lor (Z.shiftl (Z.shiftr b NIBBLE_BITS) NIBBLE_BITS) (Z.land b NIBBLE_MASK) = b /\
  is_nibble (Z.shiftr b NIBBLE_BITS) = true.
Proof.
  intros Hb. assert (forallb (fun b =>
    (Z.lor (Z.shiftl (Z.shiftr b 4) 4) (Z.land b 15) =? b) && is_nibble (Z.shiftr b 4))
    (seqZ 0 256) = true) as F by by vm_compute.
  rewrite forallb_forall in F. specialize (F b).
  assert (In b (seqZ 0 256)) as Hin by (apply list_elem_of_In, elem_of_seqZ; ulia).
  apply F in Hin. to_prop. done.
Qed.

(** One round at a record's header. *)
Lemma compact_loop_step fuel p b body acc :
  len (p ++ b :: body) < USIZE_MAX - 16 -> is_u8 b ->
  compact_loop (S fuel) (p ++ b :: body) (len p) acc
  = if len body <? Z.land b NIBBLE_MASK then Some acc
    else let n := Z.land b NIBBLE_MASK in
         let p' := p ++ b :: take_z body n in
         compact_loop fuel (p' ++ drop_z body n) (len p')
           (acc ++ [MkCompactTlv (Z.shiftr b NIBBLE_BITS) (take_z body n)]).
Proof.
  intros Hl Hb. pose proof (land_nibble b) as Hn. unfold is_nibble in Hn. to_prop.
  rewrite len_app, len_cons in Hl. pose proof (len_nonneg p). pose proof (len_nonneg body).
  cbn [compact_loop]. rewrite len_app, len_cons.
  replace (len p <? _) with true by lia. cbn [negb]. rewrite get_app_head. cbn [head].
  replace (saturating_add USIZE_MAX (len p) 1) with (len p + 1) by (unfold saturating_add; lia).
  rewrite checked_add_some by lia. case_if.
  { unfold get_range. rewrite len_app, len_cons. by if_false. }
  set (n := Z.land b NIBBLE_MASK) in *.
  assert (get_range (p ++ b :: body) (len p + 1) (len p + 1 + n) = Some (take_z body n)) as ->.
  { replace (p ++ b :: body) with ((p ++ [b]) ++ take_z body n ++ drop_z body n)
      by (rewrite take_drop_z, <- app_assoc; done).
    apply get_range_app'; rewrite ?len_take_z, len_app, len_cons, len_nil by lia; lia. }
  cbn zeta. f_equal.
  - rewrite <- app_assoc. cbn [app]. by rewrite take_drop_z.
  - rewrite len_app, len_cons, len_take_z by lia. lia.
Qed.

Lemma compact_loop_spec fuel p q acc :
  len (p ++ q) < USIZE_MAX - 16 -> all_bytes q -> (length q <= fuel)%nat ->
  exists es rest, q = concat (map compact_wire es) ++ rest /\
    forallb compact_fits es = true /\ incomplete rest = true /\
    compact_loop fuel (p ++ q) (len p) acc = Some (acc ++ es).
Proof.
  revert p q acc. induction fuel as [|fuel IH]; intros p q acc Hl Hq Hf.
  { destruct q; [|cbn in Hf; lia]. exists [], []. cbn [compact_loop].
    rewrite !app_nil_r, Z.ltb_irrefl. done. }
  destruct q as [|b body].
  { exists [], []. cbn [compact_loop]. rewrite !app_nil_r, Z.ltb_irrefl. done. }
  inversion Hq as [|?? Hb Hbody]; subst. rewrite compact_loop_step by done. case_if.
  { exists [], (b :: body). rewrite app_nil_r. cbn. split_and!; [done..|lia|done]. }
  pose proof (land_nibble b) as Hn. unfold is_nibble in Hn. to_prop.
  set (n := Z.land b NIBBLE_MASK) in *. cbn zeta.
  rewrite <- (take_drop_z body n) in Hbody. apply all_bytes_app in Hbody as [Hv Hr].
  destruct (IH (p ++ b :: take_z body n) (drop_z body n)
    (acc ++ [MkCompactTlv (Z.shiftr b NIBBLE_BITS) (take_z body n)]))
    as (es & rest & Hd & Hes & Hi & ->).
  - rewrite <- app_assoc. cbn [app]. by rewrite take_drop_z.
  - done.
  - unfold drop_z. rewrite length_drop. cbn in Hf. lia.
  - destruct (nibbles_join b Hb) as [Hj Hy].
    exists (MkCompactTlv (Z.shiftr b NIBBLE_BITS) (take_z body n) :: es), rest.
    cbn [map concat forallb]. unfold compact_wire at 1, compact_fits at 1. cbn [tag value].
    rewrite len_take_z by lia. fold n in Hj. rewrite Hj, Hes, Hy, (proj2 (all_bytesb_spec _) Hv).
    split_and!; [|lia|done|by rewrite <- app_assoc].
    cbn [app]. by rewrite <- app_assoc, <- Hd, take_drop_z.
Qed.

(** The records of a byte string are determined by it. *)
Lemma compact_wire_inj es es' rest rest' :
  forallb compact_fits es = true -> forallb compact_fits es' = true ->
  incomplete rest = true -> incomplete rest' = true ->
  concat (map compact_wire es) ++ rest = concat (map compact_wire es') ++ rest' -> es = es'.
Proof.
  assert (forall e es rest rest', compact_fits e = true -> incomplete rest' = true ->
    concat (map compact_wire (e :: es)) ++ rest <> rest') as Hne.
  { intros e es0 r r' He Hr' Heq. unfold compact_fits in He. to_prop. subst r'.
    cbn [map concat compact_wire app incomplete] in Hr'. to_prop.
    pose proof (len_nonneg (value e)).
    destruct (nibbles_split (tag e) (len (value e))) as [_ Hk]; [done|unfold is_nibble; lia|].
    rewrite Hk, !len_app in Hr'. pose proof (len_nonneg r).
    pose proof (len_nonneg (concat (map compact_wire es0))). lia. }
  revert es'. induction es as [|e es IH]; intros [|e' es'] H1 H2 H3 H4 Heq.
  - done.
  - cbn [forallb] in H2. apply andb_prop in H2 as [He' _].
    by destruct (Hne e' es' rest' rest He' H3).
  - cbn [forallb] in H1. apply andb_prop in H1 as [He _]. by destruct (Hne e es rest rest' He H4).
  - cbn [forallb] in *. apply andb_prop in H1 as [He H1], H2 as [He' H2].
    unfold compact_fits in He, He'. to_prop. cbn [map concat compact_wire] in Heq.
    rewrite <- !app_assoc in Heq. cbn [app] in Heq. injection Heq as Hh Heq.
    pose proof (len_nonneg (value e)). pose proof (len_nonneg (value e')).
    destruct (nibbles_split (tag e) (len (value e))) as [Ht Hk]; [done|unfold is_nibble; lia|].
    destruct (nibbles_split (tag e') (len (value e'))) as [Ht' Hk']; [done|unfold is_nibble; lia|].
    rewrite Hh in Ht, Hk. apply app_inj_1 in Heq as [Hv Heq]; [|unfold len in *; lia].
    rewrite (IH es') by done. destruct e, e'. cbn in *. congruence.
Qed.

(** ** Properties *)

(** On every byte string [Atr::new] returns, and what it accepts is exactly
    the wire form, at most 33 bytes long, of a well-formed answer: interface
    groups chained by their [TD] bytes, as many historical bytes as [T0] counts,
    and a check character when and only when a protocol other than T=0 is
    announced, with the sum from [T0] zero. *)
Theorem atr_accepts_exactly_the_wire_forms (bs : bytes) (a : Atr) :
  all_bytes bs ->
  is_Some (Atr_new bs) /\
  (Atr_new bs = Some (Ok a) <->
   valid_atr a = true /\ to_wire_bytes a = bs /\ len bs <= ATR_MAX_LEN).
Proof.
  intros Hbs. split; [apply Atr_new_total|]. split.
  - by apply Atr_new_sound.
  - intros (Hv & <- & Hl). by apply Atr_new_complete.
Qed.

Definition sample_atr : bytes :=
  [59; 127; 150; 0; 0; 128; 49; 184; 101; 176; 133; 3; 0; 239; 18; 0; 246; 130; 144; 0].

Lemma atr_accepts_exactly_the_wire_forms_witness :
  exists a, Atr_new sample_atr = Some (Ok a) /\ to_wire_bytes a = sample_atr.
Proof.
  destruct (Atr_new sample_atr) as [[a|]|] eqn:E; [|vm_compute in E; done..].
  exists a. split; [done|].
  eapply (atr_accepts_exactly_the_wire_forms sample_atr a); [|done].
  apply all_bytesb_spec. by vm_compute.
Defined.

(** [compact_tlv_entries] returns on every run of historical bytes, and
    under the compact-TLV category it lists exactly the records that follow one
    another from the second byte, up to the first that is cut short; under any
    other category it lists none. *)
Theorem compact_tlv_lists_the_records (h : bytes) (es : list CompactTlv) :
  all_bytes h -> len h < USIZE_MAX - 16 ->
  (compact_tlv_entries h = Some es <->
   if is_compact_tlv h
   then exists rest, h = CATEGORY_COMPACT_TLV :: concat (map compact_wire es) ++ rest /\
          forallb compact_fits es = true /\ incomplete rest = true
   else es = []).
Proof.
  intros Hb Hl. unfold compact_tlv_entries. destruct (is_compact_tlv h) eqn:Hc; cbn [negb].
  2:{ split; [by intros [= <-]|by intros ->]. }
  unfold is_compact_tlv in Hc. apply bool_decide_eq_true in Hc.
  destruct h as [|c q]; [done|]. injection Hc as ->. inversion Hb as [|?? _ Hq]; subst.
  destruct (compact_loop_spec (length (128 :: q)) [128] q []) as (es' & rest & Hd & Hes & Hr & E);
    [done|done|cbn; lia|].
  change ([128] ++ q) with (128 :: q) in E. change (len [128]) with 1 in E.
  unfold CATEGORY_COMPACT_TLV. rewrite E. cbn [app]. split.
  - intros [= <-]. exists rest. by rewrite <- Hd.
  - intros (rest' & [= Hd'] & Hes' & Hr'). f_equal.
    by apply (compact_wire_inj es' es rest rest'); [..|rewrite <- Hd].
Qed.

Lemma compact_tlv_lists_the_records_witness :
  compact_tlv_entries [128; 49; 184; 101; 176; 133; 3; 0; 239; 114; 1]
  = Some [MkCompactTlv 3 [184]; MkCompactTlv 6 [176; 133; 3; 0; 239]].
Proof.
  apply compact_tlv_lists_the_records; [apply all_bytesb_spec; by vm_compute|done|].
  exists [114; 1]. by vm_compute.
Defined.

End Atr.
