(* ===== verification/CcidCodec.v ===== *)
(** * CCID messages

    crates/ccid/src/error.rs and codec.rs.  Indexing a slice may
    panic: the decoders return [Err Panicked] there, apart from the errors they
    report, and the theorems show that it never happens. *)

From stdpp Require Import base list list_numbers option.
From Stdlib Require Import ZArith Lia.
From S2P Require Import Prelude Atr.

Module Ccid.

(** ** Errors (error.rs) *)

Inductive CcidIoError :=
  | ConnectionLost
  | DeviceDisconnected
  | ShortWrite (expected transferred : Z)
  | BulkInUnderflow
  | SyntheticFailure.

Inductive CcidDescriptorError :=
  | InvalidFunctionalDescriptorType (actual : Z).

Inductive CcidProtocolDesync :=
  | SlotRecoveryRequired
  | OperationAlreadyPending
  | InvalidParametersLength (protocol length : Z)
  | ChainBeginAlreadyOpen
  | ChainContinueWithoutBegin
  | ChainEndWithoutBegin
  | ChainCompleteWhileOpen
  | UnexpectedCommandContinuation
  | PowerOnMissingAtr
  | ResetMissingAtr
  | UnexpectedAbortOutcome
  | TerminatedWithoutCompletion
  | ChainingIterationLimitExceeded
  | ChainExceededCapacity
  | StalledChain
  | RepeatedWrongLe.

Inductive CcidError :=
  | TruncatedDescriptorHeader
  | InvalidDescriptorLength
  | TruncatedDescriptor
  | InvalidInterfaceDescriptor
  | MissingCcidDescriptor
  | CcidDescriptorTooShort
  | UnsupportedExchangeLevel
  | InvalidExchangeLevel
  | InvalidApduConfiguration
  | MessageLengthOutOfRange
  | TransferMessageBoundTooSmall
  | TruncatedHeader
  | ResponseLengthOutOfRange
  | LengthMismatch
  | UnexpectedMessageType (expected actual : Z)
  | UnexpectedSlot (expected actual : Z)
  | UnexpectedSequence (expected actual : Z)
  | ReservedStatusBits
  | ReservedCardStatus
  | ReservedCommandStatus
  | UnexpectedPayload
  | InvalidClockStatus
  | InvalidChainParameter
  | CommandFailed (error_code : Z)
  | ETimeExtension (multiplier : Z)
  | Io (e : CcidIoError)
  | ProtocolDesync (e : CcidProtocolDesync)
  | Timeout
  | Cancelled
  | CardRemoved
  | InvalidCcidDescriptor (e : CcidDescriptorError)
  | ApduTooLong
  | UnsupportedProtocol
  | EAtr (e : Atr.AtrError).

#[global] Instance CcidIoError_eq_dec : EqDecision CcidIoError.
Proof. solve_decision. Defined.
#[global] Instance CcidDescriptorError_eq_dec : EqDecision CcidDescriptorError.
Proof. solve_decision. Defined.
#[global] Instance CcidProtocolDesync_eq_dec : EqDecision CcidProtocolDesync.
Proof. solve_decision. Defined.
#[global] Instance CcidError_eq_dec : EqDecision CcidError.
Proof. solve_decision. Defined.

(** The calls that index slices. *)
Notation checked := (result (fault CcidError)).

Definition raise {A} (e : CcidError) : checked A := Err (Raised e).

(** [frame[i]]. *)
Definition index (frame : bytes) (i : Z) : checked Z := ok_or (get frame i) Panicked.

(** [to_le_bytes] and [from_le_bytes]. *)
Definition le_bytes (n : nat) (v : Z) : bytes := rev (be_bytes n v).
Definition le_value (bs : bytes) : Z := be_value (rev bs).

(** The four bytes of a little-endian [u32] field. *)
Definition u32_field (frame : bytes) (offset : Z) : checked Z :=
  let? a := index frame offset in
  let? b := index frame (offset + 1) in
  let? c := index frame (offset + 2) in
  let? d := index frame (offset + 3) in
  Ok (le_value [a; b; c; d]).

(** ** Constants (codec.rs) *)

Definition CCID_HEADER_SIZE : Z := 10.
Definition MAX_RESPONSE_PAYLOAD_SIZE : Z := 65538.
Definition MESSAGE_TYPE_OFFSET : Z := 0.
Definition LENGTH_OFFSET : Z := 1.
Definition SLOT_OFFSET : Z := 5.
Definition SEQUENCE_OFFSET : Z := 6.
Definition STATUS_OFFSET : Z := 7.
Definition ERROR_OFFSET : Z := 8.
Definition RESPONSE_PARAMETER_OFFSET : Z := 9.
Definition PC_TO_RDR_SET_PARAMETERS : Z := 97.
Definition PC_TO_RDR_ICC_POWER_ON : Z := 98.
Definition PC_TO_RDR_ICC_POWER_OFF : Z := 99.
Definition PC_TO_RDR_GET_SLOT_STATUS : Z := 101.
Definition PC_TO_RDR_ABORT : Z := 114.
Definition CCID_CONTROL_REQUEST_TYPE : Z := 33.
Definition CCID_CONTROL_REQUEST_ABORT : Z := 1.
Definition PC_TO_RDR_GET_PARAMETERS : Z := 108.
Definition PC_TO_RDR_XFR_BLOCK : Z := 111.
Definition PC_TO_RDR_SECURE : Z := 105.
Definition RDR_TO_PC_DATA_BLOCK : Z := 128.
Definition RDR_TO_PC_SLOT_STATUS : Z := 129.
Definition RDR_TO_PC_PARAMETERS : Z := 130.
Definition RDR_TO_PC_NOTIFY_SLOT_CHANGE : Z := 80.
Definition RDR_TO_PC_HARDWARE_ERROR : Z := 81.
Definition CARD_STATUS_ACTIVE : Z := 0.
Definition CARD_STATUS_INACTIVE : Z := 1.
Definition CARD_STATUS_NOT_PRESENT : Z := 2.
Definition COMMAND_STATUS_SUCCEEDED : Z := 0.
Definition COMMAND_STATUS_FAILED : Z := 1.
Definition COMMAND_STATUS_TIME_EXTENSION : Z := 2.
Definition COMMAND_STATUS_SHIFT : Z := 6.
Definition RESERVED_STATUS_MASK : Z := 60.
Definition FIELD_MASK : Z := 3.
Definition AUTOMATIC_VOLTAGE_SELECTION : Z := 0.
Definition CHAIN_COMPLETE : Z := 0.
Definition CHAIN_BEGIN : Z := 1.
Definition CHAIN_END : Z := 2.
Definition CHAIN_CONTINUE : Z := 3.
Definition CHAIN_COMMAND_CONTINUATION_EXPECTED : Z := 16.
Definition CLOCK_RUNNING : Z := 0.
Definition CLOCK_STOPPED_LOW : Z := 1.
Definition CLOCK_STOPPED_HIGH : Z := 2.
Definition CLOCK_STOPPED_UNKNOWN : Z := 3.
Definition DEFAULT_T0_FIDI : Z := 17.
Definition DEFAULT_T0_WAITING_INTEGER : Z := 10.
Definition T0_PARAMETER_LENGTH : Z := 5.
Definition T0_INVERSE_CONVENTION : Z := 2.

(** ** Data (codec.rs) *)

Inductive CardStatus := Active | Inactive | NotPresent.
Inductive ClockStatus := Running | StoppedLow | StoppedHigh | StoppedUnknown.
Inductive ChainParameter := Complete | Begin | End_ | Continue | CommandContinuationExpected.

#[global] Instance CardStatus_eq_dec : EqDecision CardStatus.
Proof. solve_decision. Defined.
#[global] Instance ClockStatus_eq_dec : EqDecision ClockStatus.
Proof. solve_decision. Defined.
#[global] Instance ChainParameter_eq_dec : EqDecision ChainParameter.
Proof. solve_decision. Defined.

Inductive CcidResponse :=
  | DataBlock (card_status : CardStatus) (chain_parameter : ChainParameter) (payload : bytes)
  | SlotStatus (card_status : CardStatus) (clock_status : ClockStatus)
  | Parameters_ (card_status : CardStatus) (protocol_num : Z) (payload : bytes)
  | CommandFailure (card_status : CardStatus) (error_code : Z)
  | TimeExtension (card_status : CardStatus) (multiplier : Z).

Definition card_status (r : CcidResponse) : CardStatus :=
  match r with
  | DataBlock c _ _ | SlotStatus c _ | Parameters_ c _ _ | CommandFailure c _
  | TimeExtension c _ => c
  end.

Record SlotChangeNotification := MkSlotChange {
  slot_presence : list bool;
  slot_changed : list bool }.

Definition is_card_present (n : SlotChangeNotification) (slot : Z) : bool :=
  default false (get (slot_presence n) slot).
Definition has_slot_changed (n : SlotChangeNotification) (slot : Z) : bool :=
  default false (get (slot_changed n) slot).

(** ** Encoding *)

(** A ten-byte buffer of zeros with the fields the short commands write. *)
Definition short_header (message_type slot seq status : Z) : bytes :=
  [message_type; 0; 0; 0; 0; slot; seq; status; 0; 0].

Definition encode_icc_power_on (slot seq voltage_selection : Z) : bytes :=
  short_header PC_TO_RDR_ICC_POWER_ON slot seq voltage_selection.
Definition encode_icc_power_off (slot seq : Z) : bytes :=
  short_header PC_TO_RDR_ICC_POWER_OFF slot seq 0.
Definition encode_get_slot_status (slot seq : Z) : bytes :=
  short_header PC_TO_RDR_GET_SLOT_STATUS slot seq 0.

(** A header with a length, a waiting integer and a level, then the data. *)
Definition block_message (message_type slot seq b_wi w_level_parameter : Z) (block : bytes) : bytes :=
  let length := default U32_MAX (try_from_uint U32_MAX (len block)) in
  [message_type] ++ le_bytes 4 length ++ [slot; seq; b_wi] ++ le_bytes 2 w_level_parameter ++ block.

Definition encode_xfr_block (slot seq b_wi w_level_parameter : Z) (block : bytes) : bytes :=
  block_message PC_TO_RDR_XFR_BLOCK slot seq b_wi w_level_parameter block.
Definition encode_secure (slot seq b_wi w_level_parameter : Z) (data : bytes) : bytes :=
  block_message PC_TO_RDR_SECURE slot seq b_wi w_level_parameter data.

Definition encode_get_parameters (slot seq : Z) : bytes :=
  short_header PC_TO_RDR_GET_PARAMETERS slot seq 0.

Definition encode_set_parameters_t0
    (slot seq fi_di guard_time waiting_integer clock_stop : Z) (inverse_convention : bool) : bytes :=
  [PC_TO_RDR_SET_PARAMETERS] ++ le_bytes 4 T0_PARAMETER_LENGTH ++ [slot; seq; 0; 0; 0]
  ++ [fi_di; if inverse_convention then T0_INVERSE_CONVENTION else 0;
      guard_time; waiting_integer; clock_stop].

Definition encode_abort (slot seq : Z) : bytes := short_header PC_TO_RDR_ABORT slot seq 0.

(** ** Decoding *)

Definition card_status_of (field : Z) : option CardStatus :=
  if field =? CARD_STATUS_ACTIVE then Some Active
  else if field =? CARD_STATUS_INACTIVE then Some Inactive
  else if field =? CARD_STATUS_NOT_PRESENT then Some NotPresent
  else None.

Definition clock_status_of (param : Z) : option ClockStatus :=
  if param =? CLOCK_RUNNING then Some Running
  else if param =? CLOCK_STOPPED_LOW then Some StoppedLow
  else if param =? CLOCK_STOPPED_HIGH then Some StoppedHigh
  else if param =? CLOCK_STOPPED_UNKNOWN then Some StoppedUnknown
  else None.

Definition chain_parameter_of (param : Z) : option ChainParameter :=
  if param =? CHAIN_COMPLETE then Some Complete
  else if param =? CHAIN_BEGIN then Some Begin
  else if param =? CHAIN_END then Some End_
  else if param =? CHAIN_CONTINUE then Some Continue
  else if param =? CHAIN_COMMAND_CONTINUATION_EXPECTED then Some CommandContinuationExpected
  else None.

(** [byte as i8]. *)
Definition as_i8 (b : Z) : Z := if b <? 128 then b else b - 256.

(** The arm of a command that succeeded. *)
Definition decode_succeeded (frame : bytes) (expected_msg_type actual_msg_type : Z)
    (card_status : CardStatus) : checked CcidResponse :=
  if expected_msg_type =? RDR_TO_PC_SLOT_STATUS then
    let? clock_param := index frame RESPONSE_PARAMETER_OFFSET in
    let? clock_status := ok_or (clock_status_of clock_param) (Raised InvalidClockStatus) in
    Ok (SlotStatus card_status clock_status)
  else if expected_msg_type =? RDR_TO_PC_DATA_BLOCK then
    let? chain_param := index frame RESPONSE_PARAMETER_OFFSET in
    let? chain_parameter := ok_or (chain_parameter_of chain_param) (Raised InvalidChainParameter) in
    let? payload := ok_or (get_range frame CCID_HEADER_SIZE (len frame)) Panicked in
    Ok (DataBlock card_status chain_parameter payload)
  else if expected_msg_type =? RDR_TO_PC_PARAMETERS then
    let? protocol_num := index frame RESPONSE_PARAMETER_OFFSET in
    let? payload := ok_or (get_range frame CCID_HEADER_SIZE (len frame)) Panicked in
    if (protocol_num =? 0) && (len payload =? 5) then Ok (Parameters_ card_status protocol_num payload)
    else if (protocol_num =? 1) && (len payload =? 7)
    then Ok (Parameters_ card_status protocol_num payload)
    else raise (ProtocolDesync (InvalidParametersLength protocol_num (len payload)))
  else raise (UnexpectedMessageType expected_msg_type actual_msg_type).

Definition decode_response (frame : bytes) (expected_msg_type expected_slot expected_seq : Z) :
  checked CcidResponse :=
  if len frame <? CCID_HEADER_SIZE then raise TruncatedHeader else
  let? declared_length := u32_field frame LENGTH_OFFSET in
  if declared_length >? MAX_RESPONSE_PAYLOAD_SIZE then raise ResponseLengthOutOfRange else
  let? expected_total_size :=
    ok_or (checked_add USIZE_MAX CCID_HEADER_SIZE declared_length)
          (Raised ResponseLengthOutOfRange) in
  if negb (len frame =? expected_total_size) then raise LengthMismatch else
  let? actual_msg_type := index frame MESSAGE_TYPE_OFFSET in
  if negb (actual_msg_type =? expected_msg_type)
  then raise (UnexpectedMessageType expected_msg_type actual_msg_type) else
  let? actual_slot := index frame SLOT_OFFSET in
  if negb (actual_slot =? expected_slot) then raise (UnexpectedSlot expected_slot actual_slot) else
  let? actual_seq := index frame SEQUENCE_OFFSET in
  if negb (actual_seq =? expected_seq) then raise (UnexpectedSequence expected_seq actual_seq) else
  if (expected_msg_type =? RDR_TO_PC_SLOT_STATUS) && negb (declared_length =? 0)
  then raise UnexpectedPayload else
  let? status := index frame STATUS_OFFSET in
  if negb (Z.land status RESERVED_STATUS_MASK =? 0) then raise ReservedStatusBits else
  let? card_status :=
    ok_or (card_status_of (Z.land status FIELD_MASK)) (Raised ReservedCardStatus) in
  let command_status := Z.land (Z.shiftr status COMMAND_STATUS_SHIFT) FIELD_MASK in
  let? error_byte := index frame ERROR_OFFSET in
  if command_status =? COMMAND_STATUS_SUCCEEDED
  then decode_succeeded frame expected_msg_type actual_msg_type card_status
  else if command_status =? COMMAND_STATUS_FAILED
  then Ok (CommandFailure card_status (as_i8 error_byte))
  else if command_status =? COMMAND_STATUS_TIME_EXTENSION
  then Ok (TimeExtension card_status error_byte)
  else raise ReservedCommandStatus.

(** The two bits of a slot: its presence and whether it changed. *)
Definition slot_bits (frame : bytes) (slot_idx : Z) : checked (bool * bool) :=
  let byte_offset := 1 + slot_idx / 4 in
  let bit_offset := (slot_idx mod 4) * 2 in
  let? byte_val := index frame byte_offset in
  Ok (negb (Z.land (Z.shiftr byte_val bit_offset) 1 =? 0),
      negb (Z.land (Z.shiftr byte_val (bit_offset + 1)) 1 =? 0)).

(** The loop [for slot_idx in 0..slot_count], pushing on both vectors. *)
Fixpoint slot_loop (frame : bytes) (slots : list Z) (presence changed : list bool) :
  checked SlotChangeNotification :=
  match slots with
  | [] => Ok (MkSlotChange presence changed)
  | slot_idx :: rest =>
      let? '(p, c) := slot_bits frame slot_idx in
      slot_loop frame rest (presence ++ [p]) (changed ++ [c])
  end.

Definition decode_interrupt_slot_change (frame : bytes) (max_slot_index : Z) :
  checked SlotChangeNotification :=
  if is_empty frame then raise TruncatedHeader else
  let? b := index frame 0 in
  if negb (b =? RDR_TO_PC_NOTIFY_SLOT_CHANGE)
  then raise (UnexpectedMessageType RDR_TO_PC_NOTIFY_SLOT_CHANGE b) else
  let slot_count := max_slot_index + 1 in
  let required_bytes := 1 + saturating_add USIZE_MAX slot_count 3 / 4 in
  if len frame <? required_bytes then raise LengthMismatch else
  slot_loop frame (seqZ 0 slot_count) [] [].

Record HardwareErrorNotification := MkHardwareError {
  hw_slot : Z; hw_seq : Z; hardware_error_code : Z }.

Definition decode_interrupt_hardware_error (frame : bytes) : checked HardwareErrorNotification :=
  if is_empty frame then raise TruncatedHeader else
  let? b := index frame 0 in
  if negb (b =? RDR_TO_PC_HARDWARE_ERROR)
  then raise (UnexpectedMessageType RDR_TO_PC_HARDWARE_ERROR b) else
  if len frame <? 4 then raise LengthMismatch else
  let? slot := index frame 1 in
  let? seq := index frame 2 in
  let? code := index frame 3 in
  Ok (MkHardwareError slot seq code).

(** ** What a frame says *)

Definition card_code (c : CardStatus) : Z :=
  match c with
  | Active => CARD_STATUS_ACTIVE
  | Inactive => CARD_STATUS_INACTIVE
  | NotPresent => CARD_STATUS_NOT_PRESENT
  end.

Definition command_code (r : CcidResponse) : Z :=
  match r with
  | CommandFailure _ _ => COMMAND_STATUS_FAILED
  | TimeExtension _ _ => COMMAND_STATUS_TIME_EXTENSION
  | _ => COMMAND_STATUS_SUCCEEDED
  end.

(** A frame of the reader, field by field. *)
Definition response_wire (msg_type slot seq status error param : Z) (payload : bytes) : bytes :=
  [msg_type] ++ le_bytes 4 (len payload) ++ [slot; seq; status; error; param] ++ payload.

(** The fields of a frame that carries the response [r]. *)
Definition describes (msg_type status error param : Z) (payload : bytes) (r : CcidResponse) : bool :=
  (len payload <=? MAX_RESPONSE_PAYLOAD_SIZE)
  && (status =? card_code (card_status r) + 64 * command_code r)
  && (negb (msg_type =? RDR_TO_PC_SLOT_STATUS) || is_empty payload)
  && match r with
     | DataBlock _ chain data =>
         (msg_type =? RDR_TO_PC_DATA_BLOCK)
         && bool_decide (chain_parameter_of param = Some chain) && bool_decide (data = payload)
     | SlotStatus _ clock =>
         (msg_type =? RDR_TO_PC_SLOT_STATUS) && bool_decide (clock_status_of param = Some clock)
     | Parameters_ _ protocol data =>
         (msg_type =? RDR_TO_PC_PARAMETERS) && (param =? protocol) && bool_decide (data = payload)
         && ((protocol =? 0) && (len payload =? 5) || (protocol =? 1) && (len payload =? 7))
     | CommandFailure _ code => code =? as_i8 error
     | TimeExtension _ multiplier => multiplier =? error
     end.

(** ** Lemmas *)

Lemma le_value_cons b bs : is_u8 b -> all_bytes bs -> le_value (b :: bs) = b + 256 * le_value bs.
Proof.
  intros Hb Hbs. unfold le_value. cbn [rev]. unfold be_value. rewrite be_fold_app.
  cbn [be_fold fold_left]. unfold be_fold at 1. cbn [fold_left].
  rewrite lor_shiftl_byte by done. unfold be_value, be_fold. lia.
Qed.

Lemma le_value_le_bytes n v : 0 <= v < 256 ^ Z.of_nat n -> le_value (le_bytes n v) = v.
Proof. intros Hv. unfold le_value, le_bytes. rewrite rev_involutive. by apply be_value_be_bytes. Qed.

Lemma le_bytes_le_value bs : all_bytes bs -> le_bytes (length bs) (le_value bs) = bs.
Proof.
  intros Hbs. unfold le_value, le_bytes. rewrite <- length_rev, be_bytes_be_value.
  - apply rev_involutive.
  - by apply List.Forall_rev.
Qed.

Lemma le_value_bound bs : all_bytes bs -> 0 <= le_value bs < 256 ^ len bs.
Proof.
  intros Hbs. unfold le_value. replace (len bs) with (len (rev bs)) by (unfold len; by rewrite length_rev).
  apply be_value_bound. by apply List.Forall_rev.
Qed.

Lemma len_le_bytes n v : len (le_bytes n v) = Z.of_nat n.
Proof. unfold len, le_bytes. by rewrite length_rev, length_be_bytes. Qed.

Lemma len_block_message mt slot seq b_wi level block :
  len (block_message mt slot seq b_wi level block) = CCID_HEADER_SIZE + len block.
Proof.
  unfold block_message, CCID_HEADER_SIZE. rewrite !len_app, !len_le_bytes, !len_cons, !len_nil. lia.
Qed.

(** The status byte is its two fields when the reserved bits are clear. *)
Lemma status_fields st c k :
  is_u8 st -> 0 <= k <= 3 ->
  (Z.land st RESERVED_STATUS_MASK = 0 /\ card_status_of (Z.land st FIELD_MASK) = Some c /\
   Z.land (Z.shiftr st COMMAND_STATUS_SHIFT) FIELD_MASK = k) <-> st = card_code c + 64 * k.
Proof.
  intros Hst Hk.
  assert (forallb (fun st => forallb (fun c => forallb (fun k => Bool.eqb
    ((Z.land st 60 =? 0) && bool_decide (card_status_of (Z.land st 3) = Some c)
     && (Z.land (Z.shiftr st 6) 3 =? k)) (st =? card_code c + 64 * k))
    (seqZ 0 4)) [Active; Inactive; NotPresent]) (seqZ 0 256) = true) as F by by vm_compute.
  rewrite forallb_forall in F. specialize (F st ltac:(apply list_elem_of_In, elem_of_seqZ; ulia)).
  rewrite forallb_forall in F. specialize (F c ltac:(destruct c; cbn; tauto)).
  rewrite forallb_forall in F. specialize (F k ltac:(apply list_elem_of_In, elem_of_seqZ; lia)).
  apply eqb_prop in F. unfold RESERVED_STATUS_MASK, FIELD_MASK, COMMAND_STATUS_SHIFT.
  rewrite <- (Z.eqb_eq st), <- F, !andb_true_iff, bool_decide_eq_true, !Z.eqb_eq. tauto.
Qed.

(** The decoder on a frame given by its bytes. *)
Definition decode_fields (msg_type status error param : Z) (payload frame : bytes) :
  checked CcidResponse :=
  if (msg_type =? RDR_TO_PC_SLOT_STATUS) && negb (len payload =? 0) then raise UnexpectedPayload
  else if negb (Z.land status RESERVED_STATUS_MASK =? 0) then raise ReservedStatusBits
  else
    let? card_status :=
      ok_or (card_status_of (Z.land status FIELD_MASK)) (Raised ReservedCardStatus) in
    let command_status := Z.land (Z.shiftr status COMMAND_STATUS_SHIFT) FIELD_MASK in
    if command_status =? COMMAND_STATUS_SUCCEEDED
    then decode_succeeded frame msg_type msg_type card_status
    else if command_status =? COMMAND_STATUS_FAILED
    then Ok (CommandFailure card_status (as_i8 error))
    else if command_status =? COMMAND_STATUS_TIME_EXTENSION
    then Ok (TimeExtension card_status error)
    else raise ReservedCommandStatus.

Lemma decode_response_fields mt slot seq st er pa payload :
  len payload <= MAX_RESPONSE_PAYLOAD_SIZE ->
  decode_response (response_wire mt slot seq st er pa payload) mt slot seq
  = decode_fields mt st er pa payload (response_wire mt slot seq st er pa payload).
Proof.
  intros Hl. pose proof (len_nonneg payload). unfold MAX_RESPONSE_PAYLOAD_SIZE in Hl.
  pose proof (le_value_le_bytes 4 (len payload) ltac:(change (256 ^ Z.of_nat 4) with 4294967296; lia))
    as Hle.
  assert (len (response_wire mt slot seq st er pa payload) = 10 + len payload) as Hf.
  { unfold response_wire. rewrite !len_app, len_le_bytes, !len_cons, len_nil. lia. }
  unfold decode_response. rewrite Hf. unfold CCID_HEADER_SIZE at 1. if_false.
  unfold response_wire in *. destruct (le_bytes 4 (len payload)) as [|a [|b [|c [|d [|]]]]] eqn:E;
    try (pose proof (len_le_bytes 4 (len payload)) as Hn; rewrite E in Hn; discriminate Hn).
  2:{ pose proof (len_le_bytes 4 (len payload)) as Hn. rewrite E, !len_cons in Hn.
      pose proof (len_nonneg l). lia. }
  cbn [app]. set (f := mt :: _).
  assert (u32_field f LENGTH_OFFSET = Ok (len payload)) as ->.
  { transitivity (Ok (E := fault CcidError) (le_value [a; b; c; d])); [done|by rewrite Hle]. }
  rewrite rbind_ok. unfold MAX_RESPONSE_PAYLOAD_SIZE. if_false.
  rewrite checked_add_some by (unfold CCID_HEADER_SIZE; ulia). cbn [ok_or]. rewrite rbind_ok.
  unfold CCID_HEADER_SIZE at 1. rewrite Z.eqb_refl.
  change (index f MESSAGE_TYPE_OFFSET) with (Ok (E := fault CcidError) mt).
  change (index f SLOT_OFFSET) with (Ok (E := fault CcidError) slot).
  change (index f SEQUENCE_OFFSET) with (Ok (E := fault CcidError) seq).
  change (index f STATUS_OFFSET) with (Ok (E := fault CcidError) st).
  change (index f ERROR_OFFSET) with (Ok (E := fault CcidError) er).
  rewrite !rbind_ok, !Z.eqb_refl. done.
Qed.

Lemma decode_response_wire frame mt slot seq r :
  all_bytes frame -> decode_response frame mt slot seq = Ok r ->
  exists st er pa payload, frame = response_wire mt slot seq st er pa payload /\
    len payload <= MAX_RESPONSE_PAYLOAD_SIZE.
Proof.
  intros Hb H. unfold decode_response in H. case_match_in H; [done|].
  unfold CCID_HEADER_SIZE in E.
  destruct frame as [|b0 [|l0 [|l1 [|l2 [|l3 [|s [|q [|st [|er [|pa payload]]]]]]]]]];
    rewrite ?len_cons, ?len_nil in E; try lia.
  set (f := b0 :: _) in *.
  change (u32_field f LENGTH_OFFSET)
    with (Ok (E := fault CcidError) (le_value [l0; l1; l2; l3])) in H.
  rewrite rbind_ok in H. case_match_in H; [done|].
  apply rbind_ok_inv in H as (n & Hn & H). apply ok_or_inv in Hn. unfold checked_add in Hn.
  case_match_in Hn; [|done]. injection Hn as <-.
  case_match_in H; [done|].
  change (index f MESSAGE_TYPE_OFFSET) with (Ok (E := fault CcidError) b0) in H.
  change (index f SLOT_OFFSET) with (Ok (E := fault CcidError) s) in H.
  change (index f SEQUENCE_OFFSET) with (Ok (E := fault CcidError) q) in H.
  rewrite rbind_ok in H. case_match_in H; [done|]. rewrite rbind_ok in H. case_match_in H; [done|].
  rewrite rbind_ok in H. case_match_in H; [done|]. to_prop. subst.
  exists st, er, pa, payload.
  assert (len payload = le_value [l0; l1; l2; l3]) as Hl.
  { unfold f, CCID_HEADER_SIZE in *. rewrite !len_cons in *. lia. }
  split; [|lia]. unfold response_wire. rewrite Hl.
  change 4%nat with (length [l0; l1; l2; l3]). rewrite le_bytes_le_value; [done|].
  unfold f, all_bytes in *. rewrite !List.Forall_cons_iff in *. by destruct_and!.
Qed.

Lemma response_wire_header mt slot seq st er pa payload :
  index (response_wire mt slot seq st er pa payload) RESPONSE_PARAMETER_OFFSET = Ok pa /\
  get_range (response_wire mt slot seq st er pa payload) CCID_HEADER_SIZE
    (len (response_wire mt slot seq st er pa payload)) = Some payload.
Proof.
  unfold response_wire. pose proof (len_le_bytes 4 (len payload)) as Hn.
  destruct (le_bytes 4 (len payload)) as [|a [|b [|c [|d [|e l]]]]];
    rewrite ?len_cons, ?len_nil in Hn; try discriminate Hn.
  2:{ pose proof (len_nonneg l). lia. }
  split; [done|]. cbn [app].
  apply (get_range_suffix [mt; a; b; c; d; slot; seq; st; er; pa] payload).
Qed.

Lemma decode_succeeded_exact mt slot seq st er pa payload c r :
  decode_succeeded (response_wire mt slot seq st er pa payload) mt mt c = Ok r <->
  command_code r = COMMAND_STATUS_SUCCEEDED /\ card_status r = c /\
  match r with
  | DataBlock _ chain data =>
      mt = RDR_TO_PC_DATA_BLOCK /\ chain_parameter_of pa = Some chain /\ data = payload
  | SlotStatus _ clock => mt = RDR_TO_PC_SLOT_STATUS /\ clock_status_of pa = Some clock
  | Parameters_ _ protocol data =>
      mt = RDR_TO_PC_PARAMETERS /\ pa = protocol /\ data = payload /\
      (protocol = 0 /\ len payload = 5 \/ protocol = 1 /\ len payload = 7)
  | _ => False
  end.
Proof.
  unfold decode_succeeded.
  destruct (response_wire_header mt slot seq st er pa payload) as [-> ->].
  cbn [ok_or]. rewrite !rbind_ok. split.
  - intros H. repeat case_match_in H; to_prop; try done.
    + destruct (clock_status_of pa) eqn:Ec; [|done]. cbn in H. injection H as <-. done.
    + destruct (chain_parameter_of pa) eqn:Ec; [|done]. cbn in H. injection H as <-. done.
    + injection H as <-. cbn. split_and!; try done. left. lia.
    + injection H as <-. cbn. split_and!; try done. right. lia.
  - intros (_ & Hc & Hr). destruct r; try done; cbn [card_status] in Hc; subst c.
    + destruct Hr as (-> & Hpa & ->). cbn. by rewrite Hpa.
    + destruct Hr as (-> & Hpa). cbn. by rewrite Hpa.
    + destruct Hr as (-> & -> & -> & [[-> ->]|[-> ->]]); done.
Qed.

Lemma command_code_range r : 0 <= command_code r <= 3.
Proof. destruct r; cbn; unfold COMMAND_STATUS_SUCCEEDED, COMMAND_STATUS_FAILED,
  COMMAND_STATUS_TIME_EXTENSION; lia. Qed.

Lemma decode_fields_exact mt slot seq st er pa payload r :
  is_u8 st -> len payload <= MAX_RESPONSE_PAYLOAD_SIZE ->
  decode_fields mt st er pa payload (response_wire mt slot seq st er pa payload) = Ok r <->
  describes mt st er pa payload r = true.
Proof.
  intros Hst Hl. unfold decode_fields, describes.
  replace ((mt =? RDR_TO_PC_SLOT_STATUS) && negb (len payload =? 0))
    with (negb (negb (mt =? RDR_TO_PC_SLOT_STATUS) || is_empty payload))
    by (rewrite is_empty_len; by destruct (mt =? _), (len payload =? 0)).
  replace (len payload <=? _) with true by lia.
  destruct (negb (mt =? RDR_TO_PC_SLOT_STATUS) || is_empty payload) eqn:Hp; cbn [negb andb];
    [|rewrite andb_false_r; done]. rewrite andb_true_r.
  pose proof (status_fields st (card_status r) (command_code r) Hst (command_code_range r)) as Hsf.
  split.
  - intros H. case_match_in H; [done|]. apply rbind_ok_inv in H as (c & Hc & H).
    apply ok_or_inv in Hc. to_prop.
    assert (card_status r = c /\
      command_code r = Z.land (Z.shiftr st COMMAND_STATUS_SHIFT) FIELD_MASK /\
      match r with CommandFailure _ code => code = as_i8 er | TimeExtension _ m => m = er
      | _ => decode_succeeded (response_wire mt slot seq st er pa payload) mt mt c = Ok r end)
      as (Hr & Hk & Hd).
    { repeat case_match_in H; to_prop; try done; [|by injection H as <-..].
      pose proof (proj1 (decode_succeeded_exact _ _ _ _ _ _ _ _ _) H) as (Hk & Hr & _).
      split_and!; [done|congruence|]. by destruct r. }
    rewrite (proj1 Hsf) by (rewrite Hr, <- Hk; done). rewrite Z.eqb_refl. cbn [andb].
    destruct r; try lia;
      apply decode_succeeded_exact in Hd as (_ & _ & Hd); try done; destruct_and? Hd; subst;
      rewrite ?Z.eqb_refl, ?bool_decide_eq_true_2 by done; cbn; try done.
    lia.
  - intros H. apply andb_prop in H as [Hs H]. apply Z.eqb_eq in Hs.
    destruct (proj2 Hsf Hs) as (H60 & Hc & Hk). rewrite H60, Hc, Hk. cbn [negb Z.eqb ok_or].
    rewrite rbind_ok. destruct r; cbn [command_code card_status] in *; cbn [Z.eqb];
      try (cbn; to_prop; by subst).
    all: apply decode_succeeded_exact; cbn; to_prop;
      rewrite ?bool_decide_eq_true in *; split_and!; try done.
    match goal with Ho : _ \/ _ |- _ => destruct Ho; to_prop; lia end.
Qed.

Lemma decode_response_no_panic frame mt slot seq :
  decode_response frame mt slot seq <> Err Panicked.
Proof.
  unfold decode_response. case_if; [done|]. unfold CCID_HEADER_SIZE in E.
  destruct frame as [|b0 [|l0 [|l1 [|l2 [|l3 [|s [|q [|st [|er [|pa payload]]]]]]]]]];
    rewrite ?len_cons, ?len_nil in E; try lia.
  set (f := b0 :: _) in *.
  change (u32_field f LENGTH_OFFSET) with (Ok (E := fault CcidError) (le_value [l0; l1; l2; l3])).
  change (index f MESSAGE_TYPE_OFFSET) with (Ok (E := fault CcidError) b0).
  change (index f SLOT_OFFSET) with (Ok (E := fault CcidError) s).
  change (index f SEQUENCE_OFFSET) with (Ok (E := fault CcidError) q).
  change (index f STATUS_OFFSET) with (Ok (E := fault CcidError) st).
  change (index f ERROR_OFFSET) with (Ok (E := fault CcidError) er).
  assert (forall c, decode_succeeded f mt b0 c <> Err Panicked) as Hd.
  { intros c. unfold decode_succeeded.
    change (index f RESPONSE_PARAMETER_OFFSET) with (Ok (E := fault CcidError) pa).
    change f with ([b0; l0; l1; l2; l3; s; q; st; er; pa] ++ payload).
    change CCID_HEADER_SIZE with (len [b0; l0; l1; l2; l3; s; q; st; er; pa]).
    rewrite get_range_suffix. cbn [ok_or]. rewrite !rbind_ok. repeat case_if; try done.
    - by destruct (clock_status_of pa).
    - by destruct (chain_parameter_of pa). }
  rewrite !rbind_ok. case_if; [done|]. destruct (checked_add _ _ _); [|done]. cbn [ok_or].
  rewrite !rbind_ok. repeat (case_if; [done|]). destruct (card_status_of _); [|done].
  cbn [ok_or]. rewrite !rbind_ok. repeat (case_if; try done).
Qed.

(** ** Slot-change notifications *)

Lemma get_cons_pos {A} (x : A) l i : 0 < i -> get (x :: l) i = get l (i - 1).
Proof.
  intros Hi. unfold get. replace (i <? 0) with false by lia. replace (i - 1 <? 0) with false by lia.
  replace (Z.to_nat i) with (S (Z.to_nat (i - 1))) by lia. done.
Qed.

(** Bit [i] of a little-endian byte string is bit [i mod 8] of byte [i / 8]. *)
Lemma le_value_testbit bs i :
  all_bytes bs -> 0 <= i ->
  Z.testbit (le_value bs) i = Z.testbit (default 0 (get bs (i / 8))) (i mod 8).
Proof.
  intros Hbs. revert i. induction Hbs as [|b bs Hb Hbs IH]; intros i Hi.
  { change (le_value []) with 0. unfold get. case_if; by rewrite ?lookup_nil, !Z.bits_0. }
  rewrite le_value_cons by done. rewrite Z.add_comm, Z.mul_comm.
  replace (le_value bs * 256 + b) with (Z.lor (Z.shiftl (le_value bs) 8) b)
    by by rewrite lor_shiftl_byte.
  rewrite Z.lor_spec. destruct (Z.ltb_spec i 8).
  - rewrite Z.shiftl_spec_low by lia. rewrite Z.div_small, Z.mod_small by lia. done.
  - assert (Z.testbit b i = false) as ->.
    { destruct (Z.eq_dec b 0) as [->|]; [apply Z.bits_0|]. apply Z.bits_above_log2; [ulia|].
      apply Z.lt_le_trans with 8; [|lia]. apply Z.log2_lt_pow2; ulia. }
    rewrite Z.shiftl_spec_high, orb_false_r by lia. rewrite IH by lia.
    replace (i / 8) with (1 + (i - 8) / 8)
      by (replace i with (i - 8 + 1 * 8) at 2 by lia; rewrite Z.div_add by lia; lia).
    rewrite get_cons_pos by (pose proof (Z.div_pos (i - 8) 8); lia).
    replace (1 + (i - 8) / 8 - 1) with ((i - 8) / 8) by lia.
    replace (i mod 8) with ((i - 8) mod 8); [done|].
    replace i with (i - 8 + 1 * 8) at 2 by lia. by rewrite Z.mod_add by lia.
Qed.

Lemma land_1_testbit v i : 0 <= i -> negb (Z.land (Z.shiftr v i) 1 =? 0) = Z.testbit v i.
Proof.
  intros Hi. change 1 with (Z.ones 1). rewrite Z.land_ones by lia. change (2 ^ 1) with 2.
  rewrite <- (Z.add_0_l i) at 2.
  rewrite <- Z.shiftr_spec by lia. rewrite Z.bit0_odd, Zmod_odd. by destruct (Z.odd _).
Qed.

(** The pair of bits of a slot within the bytes after the message type. *)
Lemma slot_bits_testbit b0 bs slot :
  all_bytes bs -> 0 <= slot -> slot / 4 < len bs ->
  slot_bits (b0 :: bs) slot
  = Ok (Z.testbit (le_value bs) (2 * slot), Z.testbit (le_value bs) (2 * slot + 1)).
Proof.
  intros Hbs Hs Hl. pose proof (Z.div_pos slot 4 Hs ltac:(lia)).
  pose proof (Z.mod_pos_bound slot 4 ltac:(lia)). pose proof (Z.div_mod slot 4 ltac:(lia)).
  unfold slot_bits, index. rewrite get_cons_pos by lia.
  replace (1 + slot / 4 - 1) with (slot / 4) by lia.
  rewrite !le_value_testbit by (done || lia).
  replace (2 * slot / 8) with (slot / 4)
    by (apply Z.div_unique with (2 * (slot mod 4)); lia).
  replace ((2 * slot + 1) / 8) with (slot / 4)
    by (apply Z.div_unique with (2 * (slot mod 4) + 1); lia).
  replace ((2 * slot) mod 8) with (slot mod 4 * 2)
    by (apply Z.mod_unique with (slot / 4); lia).
  replace ((2 * slot + 1) mod 8) with (slot mod 4 * 2 + 1)
    by (apply Z.mod_unique with (slot / 4); lia).
  destruct (get bs (slot / 4)) as [v|] eqn:Eg.
  - cbn [ok_or default]. rewrite rbind_ok, !land_1_testbit by lia. done.
  - unfold get in Eg. replace (slot / 4 <? 0) with false in Eg by lia.
    apply lookup_ge_None in Eg. unfold len in Hl. lia.
Qed.

Lemma slot_loop_spec b0 bs slots presence changed :
  all_bytes bs -> Forall (fun slot => 0 <= slot /\ slot / 4 < len bs) slots ->
  slot_loop (b0 :: bs) slots presence changed
  = Ok (MkSlotChange (presence ++ map (fun i => Z.testbit (le_value bs) (2 * i)) slots)
                     (changed ++ map (fun i => Z.testbit (le_value bs) (2 * i + 1)) slots)).
Proof.
  intros Hbs H. revert presence changed.
  induction H as [|slot slots [H0 Hl] _ IH]; intros p c; cbn [slot_loop map].
  - by rewrite !app_nil_r.
  - rewrite slot_bits_testbit by done. rewrite rbind_ok, IH, <- !app_assoc. done.
Qed.

Lemma slot_loop_no_panic frame slots presence changed :
  Forall (fun slot => 0 <= slot /\ 1 + slot / 4 < len frame) slots ->
  slot_loop frame slots presence changed <> Err Panicked.
Proof.
  intros H. revert presence changed.
  induction H as [|slot slots [H0 Hl] _ IH]; intros p c; cbn [slot_loop]; [done|].
  unfold slot_bits, index, get. pose proof (Z.div_pos slot 4 H0 ltac:(lia)).
  replace (1 + slot / 4 <? 0) with false by lia.
  destruct (lookup_lt_is_Some_2 frame (Z.to_nat (1 + slot / 4))) as [b ->]; [unfold len in Hl; lia|].
  cbn [ok_or]. rewrite !rbind_ok. apply IH.
Qed.

Lemma decode_interrupt_slot_change_no_panic frame m :
  is_u8 m -> decode_interrupt_slot_change frame m <> Err Panicked.
Proof.
  intros Hm. unfold decode_interrupt_slot_change. destruct frame as [|b0 bs]; [done|].
  cbn [is_empty]. change (index (b0 :: bs) 0) with (Ok (E := fault CcidError) b0).
  rewrite rbind_ok. case_if; [done|]. case_if; [done|]. apply slot_loop_no_panic.
  apply Forall_forall. intros i Hi%list_elem_of_In%elem_of_seqZ. split; [lia|].
  replace (saturating_add USIZE_MAX (m + 1) 3) with (m + 4) in * by (unfold saturating_add; ulia).
  pose proof (Z.div_le_mono i m 4 ltac:(lia) ltac:(lia)).
  replace (m + 4) with (m + 1 * 4) in * by lia. rewrite Z.div_add in * by lia. lia.
Qed.

Lemma decode_interrupt_hardware_error_no_panic frame :
  decode_interrupt_hardware_error frame <> Err Panicked.
Proof.
  unfold decode_interrupt_hardware_error. destruct frame as [|b0 bs]; [done|]. cbn [is_empty].
  change (index (b0 :: bs) 0) with (Ok (E := fault CcidError) b0). rewrite rbind_ok.
  case_if; [done|]. case_if; [done|].
  destruct bs as [|b1 [|b2 [|b3 bs]]]; rewrite ?len_cons, ?len_nil in *; done || lia.
Qed.

Lemma get_map_seqZ {A} (f : Z -> A) n i :
  0 <= i < n -> get (map f (seqZ 0 n)) i = Some (f i).
Proof.
  intros Hi. unfold get. replace (i <? 0) with false by lia.
  change (map f (seqZ 0 n)) with (f <$> seqZ 0 n). rewrite list_lookup_fmap, lookup_seqZ_lt by lia.
  cbn. do 2 f_equal. lia.
Qed.

(** ** Properties *)

(** On every frame the bulk decoder returns without a panic, and it accepts
    exactly the frames of the awaited type, slot and sequence number whose length
    field is the payload's length, whose status byte has no reserved bit, and
    whose parameter is a defined one; the fields say which response it is. *)
Theorem response_decoded_exactly (frame : bytes) (msg_type slot seq : Z) (r : CcidResponse) :
  all_bytes frame ->
  decode_response frame msg_type slot seq <> Err Panicked /\
  (decode_response frame msg_type slot seq = Ok r <->
   exists status error param payload,
     frame = response_wire msg_type slot seq status error param payload /\
     describes msg_type status error param payload r = true).
Proof.
  intros Hb. split; [apply decode_response_no_panic|]. split.
  - intros H. destruct (decode_response_wire _ _ _ _ _ Hb H) as (st & er & pa & payload & -> & Hl).
    exists st, er, pa, payload. split; [done|]. rewrite decode_response_fields in H by done.
    apply decode_fields_exact in H; [done| |done].
    unfold response_wire in Hb. rewrite !all_bytes_app in Hb. destruct Hb as (_ & _ & Hb & _).
    unfold all_bytes in Hb. rewrite !List.Forall_cons_iff in Hb. tauto.
  - intros (st & er & pa & payload & -> & Hd).
    assert (len payload <= MAX_RESPONSE_PAYLOAD_SIZE) as Hl.
    { unfold describes in Hd. to_prop. lia. }
    rewrite decode_response_fields by done. apply decode_fields_exact; [|done..].
    unfold response_wire in Hb. rewrite !all_bytes_app in Hb. destruct Hb as (_ & _ & Hb & _).
    unfold all_bytes in Hb. rewrite !List.Forall_cons_iff in Hb. tauto.
Qed.

Lemma response_decoded_exactly_witness :
  decode_response [128; 2; 0; 0; 0; 0; 7; 0; 0; 0; 144; 0] 128 0 7
  = Ok (DataBlock Active Complete [144; 0]).
Proof.
  eapply (proj2 (response_decoded_exactly _ _ _ _ _ _)).
  exists 0, 0, 0, [144; 0]. by vm_compute.
  Unshelve. apply all_bytesb_spec. by vm_compute.
Defined.

(** A notification that names its type and has the bits of every slot of
    the reader is decoded without a panic, and for each slot [n] bit [2n] of the
    bytes after the type says whether a card is present and bit [2n + 1] whether
    that changed. *)
Theorem slot_change_bits (bs : bytes) (max_slot_index slot : Z) :
  all_bytes bs -> is_u8 max_slot_index -> (max_slot_index + 4) / 4 <= len bs ->
  0 <= slot <= max_slot_index ->
  exists n, decode_interrupt_slot_change (RDR_TO_PC_NOTIFY_SLOT_CHANGE :: bs) max_slot_index = Ok n /\
    is_card_present n slot = Z.testbit (le_value bs) (2 * slot) /\
    has_slot_changed n slot = Z.testbit (le_value bs) (2 * slot + 1).
Proof.
  intros Hbs Hm Hl Hs. unfold decode_interrupt_slot_change. cbn [is_empty].
  change (index (RDR_TO_PC_NOTIFY_SLOT_CHANGE :: bs) 0)
    with (Ok (E := fault CcidError) RDR_TO_PC_NOTIFY_SLOT_CHANGE).
  rewrite rbind_ok, Z.eqb_refl. cbn [negb]. rewrite len_cons.
  replace (saturating_add USIZE_MAX (max_slot_index + 1) 3) with (max_slot_index + 4)
    by (unfold saturating_add; ulia).
  replace (1 + len bs <? _) with false by lia.
  eexists. split.
  - apply slot_loop_spec; [done|]. apply Forall_forall. intros i Hi%list_elem_of_In%elem_of_seqZ.
    split; [lia|]. apply Z.lt_le_trans with ((max_slot_index + 4) / 4); [|done].
    apply Z.div_lt_upper_bound; [lia|]. pose proof (Z.div_mod (max_slot_index + 4) 4 ltac:(lia)).
    pose proof (Z.mod_pos_bound (max_slot_index + 4) 4 ltac:(lia)). lia.
  - unfold is_card_present, has_slot_changed. cbn [slot_presence slot_changed app].
    by rewrite !get_map_seqZ by lia.
Qed.

Lemma slot_change_bits_witness :
  exists n, decode_interrupt_slot_change [80; 3; 1] 4 = Ok n /\
    is_card_present n 4 = true /\ has_slot_changed n 4 = false.
Proof.
  apply (slot_change_bits [3; 1] 4 4); [apply all_bytesb_spec; by vm_compute|done|done|done].
Defined.

End Ccid.
