(* ===== verification/CcidDescriptor.v ===== *)
(** * The CCID class descriptor

    crates/ccid/src/descriptor.rs: the functional descriptor of a reader and
    the walk over the USB configuration that finds it. *)

From stdpp Require Import base list list_numbers option.
From Stdlib Require Import ZArith Lia.
From S2P Require Import Prelude Atr CcidCodec.

Module Descriptor.
Import CcidCodec.Ccid.

(** ** Constants *)

Definition USB_DESCRIPTOR_HEADER_LENGTH : Z := 2.
Definition DESCRIPTOR_TYPE_OFFSET : Z := 1.
Definition USB_INTERFACE_DESCRIPTOR_TYPE : Z := 4.
Definition USB_INTERFACE_DESCRIPTOR_LENGTH : Z := 9.
Definition INTERFACE_NUMBER_OFFSET : Z := 2.
Definition ALTERNATE_SETTING_OFFSET : Z := 3.
Definition INTERFACE_CLASS_OFFSET : Z := 5.
Definition CCID_INTERFACE_CLASS : Z := 11.
Definition CCID_FUNCTIONAL_DESCRIPTOR_TYPE : Z := 33.
Definition CCID_FUNCTIONAL_DESCRIPTOR_LENGTH : Z := 54.
Definition PROTOCOLS_OFFSET : Z := 6.
Definition FEATURES_OFFSET : Z := 40.
Definition MAXIMUM_MESSAGE_LENGTH_OFFSET : Z := 44.
Definition MAX_SLOT_INDEX_OFFSET : Z := 4.
Definition PIN_SUPPORT_OFFSET : Z := 52.
Definition PROTOCOL_T0 : Z := 1.
Definition PROTOCOL_T1 : Z := 2.
Definition PIN_SUPPORT_VERIFY : Z := 1.
Definition PIN_SUPPORT_MODIFY : Z := 2.
Definition AUTOMATIC_PARAMETER_CONFIGURATION : Z := 2.
Definition AUTOMATIC_PARAMETER_NEGOTIATION : Z := 64.
Definition AUTOMATIC_PPS : Z := 128.
Definition EXCHANGE_LEVEL_MASK : Z := 458752.
Definition CHARACTER_EXCHANGE : Z := 0.
Definition TPDU_EXCHANGE : Z := 65536.
Definition SHORT_APDU_EXCHANGE : Z := 131072.
Definition SHORT_AND_EXTENDED_APDU_EXCHANGE : Z := 262144.
Definition MINIMUM_CHARACTER_MESSAGE_LENGTH : Z := CCID_HEADER_SIZE + 1.
Definition MAXIMUM_T0_TPDU_LENGTH : Z := 260.
Definition MINIMUM_T0_TPDU_MESSAGE_LENGTH : Z := CCID_HEADER_SIZE + MAXIMUM_T0_TPDU_LENGTH.
Definition MAXIMUM_SHORT_APDU_LENGTH : Z := 261.
Definition MINIMUM_SHORT_APDU_MESSAGE_LENGTH : Z := CCID_HEADER_SIZE + MAXIMUM_SHORT_APDU_LENGTH.
Definition MAXIMUM_CCID_COMMAND_PAYLOAD_LENGTH : Z := 65544.
Definition MAXIMUM_CCID_MESSAGE_LENGTH : Z :=
  CCID_HEADER_SIZE + MAXIMUM_CCID_COMMAND_PAYLOAD_LENGTH.

(** ** Data *)

Inductive CcidExchangeLevel := Character | Tpdu | ShortApdu | ShortAndExtendedApdu.

#[global] Instance CcidExchangeLevel_eq_dec : EqDecision CcidExchangeLevel.
Proof. solve_decision. Defined.

Record CcidFunctionalDescriptor := MkDescriptor {
  exchange_level : CcidExchangeLevel;
  maximum_message_length : Z;
  max_slot_index : Z;
  features : Z;
  protocols : Z;
  pin_support : Z }.

Definition supports_pin_verification (d : CcidFunctionalDescriptor) : bool :=
  negb (Z.land (pin_support d) PIN_SUPPORT_VERIFY =? 0).
Definition supports_pin_modification (d : CcidFunctionalDescriptor) : bool :=
  negb (Z.land (pin_support d) PIN_SUPPORT_MODIFY =? 0).
Definition maximum_payload_length (d : CcidFunctionalDescriptor) : Z :=
  saturating_sub (maximum_message_length d) CCID_HEADER_SIZE.
Definition maximum_transfer_block_length (d : CcidFunctionalDescriptor) : Z :=
  let max_payload := maximum_payload_length d in
  match exchange_level d with
  | Character | Tpdu => Z.min max_payload MAXIMUM_T0_TPDU_LENGTH
  | ShortApdu => Z.min max_payload MAXIMUM_SHORT_APDU_LENGTH
  | ShortAndExtendedApdu => max_payload
  end.
Definition supports_t0 (d : CcidFunctionalDescriptor) : bool :=
  negb (Z.land (protocols d) PROTOCOL_T0 =? 0).
Definition supports_t1 (d : CcidFunctionalDescriptor) : bool :=
  negb (Z.land (protocols d) PROTOCOL_T1 =? 0).
Definition automatic_parameter_configuration (d : CcidFunctionalDescriptor) : bool :=
  negb (Z.land (features d) AUTOMATIC_PARAMETER_CONFIGURATION =? 0).

(** ** Parsing *)

Definition exchange_level_of (features : Z) : option CcidExchangeLevel :=
  let level := Z.land features EXCHANGE_LEVEL_MASK in
  if level =? CHARACTER_EXCHANGE then Some Character
  else if level =? TPDU_EXCHANGE then Some Tpdu
  else if level =? SHORT_APDU_EXCHANGE then Some ShortApdu
  else if level =? SHORT_AND_EXTENDED_APDU_EXCHANGE then Some ShortAndExtendedApdu
  else None.

Definition minimum_message_length (level : CcidExchangeLevel) : Z :=
  match level with
  | Character => MINIMUM_CHARACTER_MESSAGE_LENGTH
  | Tpdu => MINIMUM_T0_TPDU_MESSAGE_LENGTH
  | ShortApdu | ShortAndExtendedApdu => MINIMUM_SHORT_APDU_MESSAGE_LENGTH
  end.

Definition parse_functional_descriptor (bs : bytes) : checked CcidFunctionalDescriptor :=
  if len bs <? CCID_FUNCTIONAL_DESCRIPTOR_LENGTH then raise CcidDescriptorTooShort else
  let? ty := index bs DESCRIPTOR_TYPE_OFFSET in
  if negb (ty =? CCID_FUNCTIONAL_DESCRIPTOR_TYPE)
  then raise (InvalidCcidDescriptor (InvalidFunctionalDescriptorType ty)) else
  let? max_slot_index := index bs MAX_SLOT_INDEX_OFFSET in
  let? protocols := u32_field bs PROTOCOLS_OFFSET in
  if Z.land protocols (Z.lor PROTOCOL_T0 PROTOCOL_T1) =? 0 then raise UnsupportedProtocol else
  let? features := u32_field bs FEATURES_OFFSET in
  let? exchange_level := ok_or (exchange_level_of features) (Raised InvalidExchangeLevel) in
  let automatic_negotiation := negb (Z.land features AUTOMATIC_PARAMETER_NEGOTIATION =? 0) in
  let automatic_pps := negb (Z.land features AUTOMATIC_PPS =? 0) in
  if automatic_negotiation && automatic_pps then raise InvalidApduConfiguration else
  let? declared_message_length := u32_field bs MAXIMUM_MESSAGE_LENGTH_OFFSET in
  if declared_message_length >? MAXIMUM_CCID_MESSAGE_LENGTH then raise MessageLengthOutOfRange else
  if declared_message_length <? minimum_message_length exchange_level
  then raise TransferMessageBoundTooSmall else
  let? pin_support := index bs PIN_SUPPORT_OFFSET in
  Ok (MkDescriptor exchange_level declared_message_length max_slot_index features protocols
        pin_support).

Section Walk.
Variables interface_number alternate_setting : Z.

(** Whether an interface descriptor is the one asked for. *)
Definition interface_matches (remaining : bytes) : checked bool :=
  let? iface_num := index remaining INTERFACE_NUMBER_OFFSET in
  let? alt_setting := index remaining ALTERNATE_SETTING_OFFSET in
  let? iface_class := index remaining INTERFACE_CLASS_OFFSET in
  Ok ((iface_num =? interface_number) && (alt_setting =? alternate_setting)
      && (iface_class =? CCID_INTERFACE_CLASS)).

(** The loop over the descriptors; [None] is fuel exhaustion. *)
Fixpoint descriptor_loop (fuel : nat) (raw : bytes) (offset : Z) (is_target_interface : bool) :
  option (checked CcidFunctionalDescriptor) :=
  if negb (offset <? len raw) then Some (raise MissingCcidDescriptor) else
  match fuel with
  | O => None
  | S fuel =>
      match ok_or (get_range raw offset (len raw)) Panicked with
      | Err e => Some (Err e)
      | Ok remaining =>
      if len remaining <? USB_DESCRIPTOR_HEADER_LENGTH then Some (raise TruncatedDescriptorHeader) else
      match index remaining 0 with
      | Err e => Some (Err e)
      | Ok descriptor_length =>
      if descriptor_length <? USB_DESCRIPTOR_HEADER_LENGTH then Some (raise InvalidDescriptorLength) else
      if descriptor_length >? len remaining then Some (raise TruncatedDescriptor) else
      match index remaining DESCRIPTOR_TYPE_OFFSET with
      | Err e => Some (Err e)
      | Ok descriptor_type =>
      if descriptor_type =? USB_INTERFACE_DESCRIPTOR_TYPE then
        if descriptor_length <? USB_INTERFACE_DESCRIPTOR_LENGTH
        then Some (raise InvalidInterfaceDescriptor)
        else match interface_matches remaining with
             | Err e => Some (Err e)
             | Ok m => descriptor_loop fuel raw (offset + descriptor_length) m
             end
      else if (descriptor_type =? CCID_FUNCTIONAL_DESCRIPTOR_TYPE) && is_target_interface then
        Some (let? d := ok_or (get_range remaining 0 descriptor_length) Panicked in
              parse_functional_descriptor d)
      else descriptor_loop fuel raw (offset + descriptor_length) is_target_interface
      end end end
  end.

Definition parse_from_usb_descriptors (raw : bytes) : option (checked CcidFunctionalDescriptor) :=
  descriptor_loop (length raw) raw 0 false.

(** ** What the walk looks for *)

(** A descriptor as the bus delivers it: its first byte is its length, and an
    interface descriptor is whole. *)
Definition framed (d : bytes) : bool :=
  match d with
  | l :: ty :: _ => (l =? len d) && (negb (ty =? USB_INTERFACE_DESCRIPTOR_TYPE)
                                    || (USB_INTERFACE_DESCRIPTOR_LENGTH <=? l))
  | _ => false
  end.

(** The first class descriptor under the interface asked for. *)
Fixpoint select (under_target : bool) (ds : list bytes) : checked CcidFunctionalDescriptor :=
  match ds with
  | [] => raise MissingCcidDescriptor
  | d :: rest =>
      if bool_decide (get d 1 = Some USB_INTERFACE_DESCRIPTOR_TYPE)
      then select (bool_decide (get d 2 = Some interface_number)
                   && bool_decide (get d 3 = Some alternate_setting)
                   && bool_decide (get d 5 = Some CCID_INTERFACE_CLASS)) rest
      else if bool_decide (get d 1 = Some CCID_FUNCTIONAL_DESCRIPTOR_TYPE) && under_target
      then parse_functional_descriptor d
      else select under_target rest
  end.

(** ** Lemmas *)

Lemma index_ok (bs : bytes) i : 0 <= i < len bs -> exists b, index bs i = Ok b /\ get bs i = Some b.
Proof.
  intros Hi. unfold index, get. replace (i <? 0) with false by lia.
  destruct (lookup_lt_is_Some_2 bs (Z.to_nat i)) as [b Hb]; [unfold len in Hi; lia|].
  exists b. by rewrite Hb.
Qed.

Lemma u32_field_ok bs i : 0 <= i -> i + 3 < len bs -> exists v, u32_field bs i = Ok v.
Proof.
  intros H0 Hi. unfold u32_field.
  destruct (index_ok bs i ltac:(lia)) as (a & -> & _).
  destruct (index_ok bs (i + 1) ltac:(lia)) as (b & -> & _).
  destruct (index_ok bs (i + 2) ltac:(lia)) as (c & -> & _).
  destruct (index_ok bs (i + 3) ltac:(lia)) as (d & -> & _).
  by eexists.
Qed.

Lemma parse_functional_descriptor_no_panic bs : parse_functional_descriptor bs <> Err Panicked.
Proof.
  unfold parse_functional_descriptor. case_if; [done|].
  unfold CCID_FUNCTIONAL_DESCRIPTOR_LENGTH in *.
  destruct (index_ok bs DESCRIPTOR_TYPE_OFFSET) as (b & -> & _); [unfold DESCRIPTOR_TYPE_OFFSET; lia|].
  rewrite rbind_ok. case_if; [done|].
  destruct (index_ok bs MAX_SLOT_INDEX_OFFSET) as (m & -> & _); [unfold MAX_SLOT_INDEX_OFFSET; lia|].
  rewrite rbind_ok.
  destruct (u32_field_ok bs PROTOCOLS_OFFSET) as [p ->]; [unfold PROTOCOLS_OFFSET; lia..|].
  rewrite rbind_ok. case_if; [done|].
  destruct (u32_field_ok bs FEATURES_OFFSET) as [f ->]; [unfold FEATURES_OFFSET; lia..|].
  rewrite rbind_ok. destruct (exchange_level_of f); [|done]. cbn [ok_or]. rewrite rbind_ok.
  case_if; [done|].
  destruct (u32_field_ok bs MAXIMUM_MESSAGE_LENGTH_OFFSET) as [n ->];
    [unfold MAXIMUM_MESSAGE_LENGTH_OFFSET; lia..|].
  rewrite rbind_ok. repeat (case_if; [done|]).
  destruct (index_ok bs PIN_SUPPORT_OFFSET) as (q & -> & _); [unfold PIN_SUPPORT_OFFSET; lia|].
  done.
Qed.

Lemma eqb_some (a b : Z) : (a =? b) = bool_decide (Some a = Some b).
Proof.
  destruct (Z.eqb_spec a b); symmetry;
    [apply bool_decide_eq_true_2|apply bool_decide_eq_false_2]; congruence.
Qed.

Lemma interface_matches_ok remaining :
  USB_INTERFACE_DESCRIPTOR_LENGTH <= len remaining ->
  interface_matches remaining
  = Ok (bool_decide (get remaining 2 = Some interface_number)
        && bool_decide (get remaining 3 = Some alternate_setting)
        && bool_decide (get remaining 5 = Some CCID_INTERFACE_CLASS)).
Proof.
  unfold USB_INTERFACE_DESCRIPTOR_LENGTH. intros Hl. unfold interface_matches,
    INTERFACE_NUMBER_OFFSET, ALTERNATE_SETTING_OFFSET, INTERFACE_CLASS_OFFSET.
  destruct (index_ok remaining 2 ltac:(lia)) as (a & -> & Ha).
  destruct (index_ok remaining 3 ltac:(lia)) as (b & -> & Hb).
  destruct (index_ok remaining 5 ltac:(lia)) as (c & -> & Hc).
  by rewrite !rbind_ok, Ha, Hb, Hc, <- !eqb_some.
Qed.

Lemma descriptor_loop_total fuel raw offset target :
  0 <= offset -> len raw - offset <= Z.of_nat fuel ->
  exists r, descriptor_loop fuel raw offset target = Some r /\ r <> Err Panicked.
Proof.
  revert offset target. induction fuel as [|fuel IH]; intros offset target H0 Hf;
    cbn [descriptor_loop]; destruct (Z.ltb_spec offset (len raw)) as [Hlt|Hge]; cbn [negb];
    try (eexists; split; [done|done]); [lia|].
  rewrite get_range_drop by lia. cbn [ok_or]. set (rem := drop_z raw offset).
  assert (len rem = len raw - offset) as Hr by (apply len_drop_z; lia).
  case_if; [by eexists|]. unfold USB_DESCRIPTOR_HEADER_LENGTH in *.
  destruct (index_ok rem 0 ltac:(lia)) as (l & -> & _).
  case_if; [by eexists|]. case_if; [by eexists|].
  destruct (index_ok rem DESCRIPTOR_TYPE_OFFSET) as (ty & -> & _);
    [unfold DESCRIPTOR_TYPE_OFFSET; lia|].
  case_if.
  { case_if; [by eexists|]. rewrite interface_matches_ok by (unfold USB_INTERFACE_DESCRIPTOR_LENGTH in *; lia).
    apply IH; lia. }
  case_if; [|apply IH; lia]. eexists. split; [done|].
  rewrite get_range_take by lia. cbn [ok_or]. rewrite rbind_ok.
  apply parse_functional_descriptor_no_panic.
Qed.

(** One round of the loop at the start of a framed descriptor. *)
Lemma descriptor_loop_framed fuel p d q target :
  framed d = true ->
  descriptor_loop (S fuel) (p ++ d ++ q) (len p) target
  = if bool_decide (get d 1 = Some USB_INTERFACE_DESCRIPTOR_TYPE)
    then descriptor_loop fuel ((p ++ d) ++ q) (len (p ++ d))
           (bool_decide (get d 2 = Some interface_number)
            && bool_decide (get d 3 = Some alternate_setting)
            && bool_decide (get d 5 = Some CCID_INTERFACE_CLASS))
    else if bool_decide (get d 1 = Some CCID_FUNCTIONAL_DESCRIPTOR_TYPE) && target
    then Some (parse_functional_descriptor d)
    else descriptor_loop fuel ((p ++ d) ++ q) (len (p ++ d)) target.
Proof.
  intros Hd. destruct d as [|l [|ty d]]; [done..|]. cbn [framed] in Hd.
  apply andb_prop in Hd as [Hl Hi]. apply Z.eqb_eq in Hl. rewrite <- app_assoc.
  set (D := l :: ty :: d) in *. assert (2 <= len D) as H2.
  { unfold D. rewrite !len_cons. pose proof (len_nonneg d). lia. }
  cbn [descriptor_loop]. pose proof (len_nonneg p). pose proof (len_nonneg q).
  replace (len p <? _) with true by (rewrite !len_app; lia). cbn [negb].
  rewrite get_range_suffix. cbn [ok_or].
  replace (len (D ++ q) <? _) with false by (rewrite len_app; unfold USB_DESCRIPTOR_HEADER_LENGTH; lia).
  change (index (D ++ q) 0) with (Ok (E := fault CcidError) l).
  change (index (D ++ q) DESCRIPTOR_TYPE_OFFSET) with (Ok (E := fault CcidError) ty).
  change (get D 1) with (Some ty). cbv beta iota.
  replace (l <? _) with false by (unfold USB_DESCRIPTOR_HEADER_LENGTH; lia).
  replace (l >? _) with false by (rewrite len_app; lia).
  rewrite <- !eqb_some, len_app, <- Hl. case_if.
  - destruct Hi; to_prop; [done|]. replace (l <? _) with false by lia.
    rewrite interface_matches_ok by (rewrite len_app; lia).
    unfold D in *. rewrite !len_cons in *.
    unfold USB_INTERFACE_DESCRIPTOR_LENGTH in *.
    destruct d as [|d2 [|d3 [|d4 [|d5 d]]]]; rewrite ?len_cons, ?len_nil in *; try lia. done.
  - case_if; [|done]. by rewrite get_range_prefix by done.
Qed.

Lemma descriptor_loop_select fuel p ds target :
  forallb framed ds = true -> (length ds <= fuel)%nat ->
  descriptor_loop fuel (p ++ concat ds) (len p) target = Some (select target ds).
Proof.
  revert fuel p target. induction ds as [|d ds IH]; intros fuel p target Hd Hf.
  - cbn [concat]. rewrite app_nil_r. destruct fuel; cbn [descriptor_loop]; by rewrite Z.ltb_irrefl.
  - cbn [forallb] in Hd. apply andb_prop in Hd as [Hd Hds].
    destruct fuel as [|fuel]; [cbn in Hf; lia|]. cbn [concat].
    rewrite descriptor_loop_framed by done. cbn [select]. cbn [length] in Hf.
    rewrite !IH by (done || lia). by repeat case_if.
Qed.

Lemma framed_length ds :
  forallb framed ds = true -> (length ds <= length (concat ds))%nat.
Proof.
  induction ds as [|d ds IH]; [done|]. cbn [forallb concat length].
  intros [Hd Hds]%andb_prop. specialize (IH Hds). rewrite length_app.
  destruct d; [done|]. cbn. lia.
Qed.

End Walk.

Lemma parsed_bounds (bs : bytes) (d : CcidFunctionalDescriptor) :
  parse_functional_descriptor bs = Ok d ->
  1 <= maximum_transfer_block_length d /\
  (exchange_level d <> Character -> MAXIMUM_T0_TPDU_LENGTH <= maximum_transfer_block_length d) /\
  CCID_HEADER_SIZE + maximum_transfer_block_length d <= maximum_message_length d /\
  maximum_message_length d <= MAXIMUM_CCID_MESSAGE_LENGTH /\
  (supports_t0 d = true \/ supports_t1 d = true).
Proof.
  intros H. unfold parse_functional_descriptor in H. case_match_in H; [done|].
  apply rbind_ok_inv in H as (ty & _ & H). case_match_in H; [done|].
  apply rbind_ok_inv in H as (m & _ & H). apply rbind_ok_inv in H as (p & _ & H).
  case_match_in H; [done|]. apply rbind_ok_inv in H as (f & _ & H).
  apply rbind_ok_inv in H as (lv & _ & H). case_match_in H; [done|].
  apply rbind_ok_inv in H as (n & _ & H). case_match_in H; [done|]. case_match_in H; [done|].
  apply rbind_ok_inv in H as (pin & _ & H). injection H as <-.
  unfold maximum_transfer_block_length, maximum_payload_length, supports_t0, supports_t1.
  cbn [exchange_level maximum_message_length protocols].
  assert (negb (Z.land p PROTOCOL_T0 =? 0) = true \/ negb (Z.land p PROTOCOL_T1 =? 0) = true) as Hp.
  { rewrite Z.land_lor_distr_r in *. destruct (Z.land p PROTOCOL_T0 =? 0) eqn:Ep; [|by left].
    right. apply Z.eqb_eq in Ep. rewrite Ep, Z.lor_0_l in *. by apply negb_true_iff, Z.eqb_neq. }
  unfold saturating_sub, minimum_message_length, MINIMUM_CHARACTER_MESSAGE_LENGTH,
    MINIMUM_T0_TPDU_MESSAGE_LENGTH, MINIMUM_SHORT_APDU_MESSAGE_LENGTH, MAXIMUM_T0_TPDU_LENGTH,
    MAXIMUM_SHORT_APDU_LENGTH, CCID_HEADER_SIZE in *.
  split_and!; [| | | |exact Hp]; destruct lv; try done; lia.
Qed.

Lemma parsed_slot_index bs d :
  all_bytes bs -> parse_functional_descriptor bs = Ok d -> is_u8 (max_slot_index d).
Proof.
  intros Hb H. unfold parse_functional_descriptor in H. case_match_in H; [done|].
  apply rbind_ok_inv in H as (ty & _ & H). case_match_in H; [done|].
  apply rbind_ok_inv in H as (m & Hm & H). apply rbind_ok_inv in H as (p & _ & H).
  case_match_in H; [done|]. apply rbind_ok_inv in H as (f & _ & H).
  apply rbind_ok_inv in H as (lv & _ & H). case_match_in H; [done|].
  apply rbind_ok_inv in H as (n & _ & H). case_match_in H; [done|]. case_match_in H; [done|].
  apply rbind_ok_inv in H as (pin & _ & H). injection H as <-. cbn.
  apply ok_or_inv in Hm. change (bs !! 4%nat = Some m) in Hm.
  unfold all_bytes in Hb. rewrite Forall_lookup in Hb. by eapply Hb.
Qed.

(** ** Properties *)

(** The walk over a USB configuration ends without a panic on any bytes, and
    over well-framed descriptors it takes exactly the first class descriptor that
    lies under the CCID interface of the number and alternate setting asked for. *)
Theorem usb_walk_selects (interface_number alternate_setting : Z) (raw : bytes) (ds : list bytes) :
  (exists r, parse_from_usb_descriptors interface_number alternate_setting raw = Some r /\
     r <> Err Panicked) /\
  (forallb framed ds = true ->
   parse_from_usb_descriptors interface_number alternate_setting (concat ds)
   = Some (select interface_number alternate_setting false ds)).
Proof.
  unfold parse_from_usb_descriptors. split.
  - apply descriptor_loop_total; [lia|unfold len; lia].
  - intros Hd. apply (descriptor_loop_select _ _ _ []); [done|]. by apply framed_length.
Qed.

(** A reader at the short APDU level, and its configuration. *)
Definition sample_class_descriptor : bytes :=
  [54; 33; 16; 1; 0; 7; 3; 0; 0; 0] ++ repeat 0 30 ++ [48; 4; 2; 0; 15; 1; 0; 0]
  ++ [0; 0; 0; 0; 1; 1].
Definition sample_configuration : list bytes :=
  [[9; 2; 93; 0; 1; 1; 0; 160; 50]; [9; 4; 0; 0; 3; 11; 0; 0; 0]; sample_class_descriptor].

Lemma usb_walk_selects_witness :
  parse_from_usb_descriptors 0 0 (concat sample_configuration)
  = Some (Ok (MkDescriptor ShortApdu 271 0 132144 3 1)).
Proof.
  rewrite (proj2 (usb_walk_selects 0 0 [] sample_configuration)); by vm_compute.
Defined.

(** A class descriptor that parses leaves the driver workable bounds: at
    least one byte, and for the APDU and TPDU levels a whole short command, fits
    one transfer block; a block with its header fits the reader's message; and
    the reader speaks T=0 or T=1. *)
Theorem descriptor_bounds (bs : bytes) (d : CcidFunctionalDescriptor) :
  parse_functional_descriptor bs = Ok d ->
  1 <= maximum_transfer_block_length d /\
  (exchange_level d <> Character -> MAXIMUM_T0_TPDU_LENGTH <= maximum_transfer_block_length d) /\
  CCID_HEADER_SIZE + maximum_transfer_block_length d <= maximum_message_length d /\
  maximum_message_length d <= MAXIMUM_CCID_MESSAGE_LENGTH /\
  (supports_t0 d = true \/ supports_t1 d = true).
Proof. apply parsed_bounds. Qed.

Lemma descriptor_bounds_witness :
  exists d, parse_functional_descriptor sample_class_descriptor = Ok d /\
    CCID_HEADER_SIZE + maximum_transfer_block_length d <= maximum_message_length d.
Proof.
  destruct (parse_functional_descriptor sample_class_descriptor) as [d|] eqn:E;
    [|vm_compute in E; done].
  exists d. split; [done|]. apply (descriptor_bounds _ _ E).
Defined.

End Descriptor.
