(* ===== verification/CcidEngine.v ===== *)
(** * The CCID engine

    crates/ccid/src/engine.rs: the deterministic state machine between the
    driver's operations and the USB transfers.  [step] takes the monotonic time
    and an event and returns the actions to perform and the deadline to arm.  It
    returns [None] where the code panics: the clock plus the timeout would
    overflow a [u64] (the crates are built with overflow checks), or a slice is
    out of range.  [ret] is an early [return], [fall] the end of the function. *)

From stdpp Require Import base list list_numbers option.
From Stdlib Require Import ZArith Lia.
From S2P Require Import Prelude Atr CcidCodec CcidDescriptor.

Module Engine.
Import CcidCodec.Ccid CcidDescriptor.Descriptor.

(** ** Data *)

Definition DEFAULT_ENGINE_TIMEOUT_MS : Z := 5000.
Definition W_LEVEL_NONE : Z := 0.
Definition W_LEVEL_BEGIN : Z := 1.
Definition W_LEVEL_END : Z := 2.
Definition W_LEVEL_CONTINUE : Z := 3.
Definition MAX_ABORT_DRAIN_ATTEMPTS : Z := 5.
Definition MAX_TIME_EXTENSIONS : Z := 60.
Definition MAX_TIME_EXTENSION_WALL_MS : Z := 10000.

Definition OperationId : Type := Z.
Definition DeadlineId : Type := Z.
Definition MonotonicTime : Type := Z.

Record Deadline := MkDeadline { id : DeadlineId; expires_at : MonotonicTime }.

Inductive PendingOperation :=
  | P_PowerOn | P_PowerOff | P_GetSlotStatus | P_GetParameters | P_SetParametersT0
  | P_TransferBlock | P_Secure | P_Abort.

Inductive Operation :=
  | PowerOn (voltage : Z)
  | PowerOff
  | GetSlotStatus
  | GetParameters
  | SetParametersT0 (fi_di guard_time waiting_integer clock_stop : Z) (inverse_convention : bool)
  | TransferBlock (b_wi w_level_parameter : Z) (data : bytes)
  | Secure (b_wi w_level_parameter : Z) (data : bytes)
  | Abort.

Inductive OperationResult :=
  | R_PowerOn (atr : bytes)
  | R_PowerOff
  | R_SlotStatus (card_present : bool)
  | R_Parameters (p : bytes)
  | R_ParametersSet
  | R_TransferBlock (response : bytes)
  | R_Secure (response : bytes)
  | R_Aborted.

Inductive IoCompletion :=
  | BulkIn (data : bytes)
  | BulkOut (transferred : Z)
  | Control
  | Failure (e : CcidError).

Inductive InputEvent :=
  | Start (id : OperationId) (op : Operation)
  | IoCompleted (c : IoCompletion)
  | InterruptReceived (raw : bytes)
  | DeadlineExpired (id : DeadlineId)
  | Cancel (id : OperationId)
  | LostConnection.

Inductive Action :=
  | SubmitBulkOut (seq : Z) (data : bytes)
  | SubmitBulkIn (buffer_size : Z)
  | SubmitControl (request_type request value index : Z) (data : bytes)
  | CompleteOp (id : OperationId) (r : result CcidError OperationResult)
  | PublishSlotChange (slot : Z) (card_present : bool) (card_gen : Z)
  | CancelTransfers.

Record Transition := MkTransition {
  actions : list Action;
  next_deadline : option Deadline }.

Record CcidEngine := MkEngine {
  interface_number : Z;
  b_slot : Z;
  card_gen : Z;
  connection_gen : Z;
  next_seq : Z;
  card_present : bool;
  activated : bool;
  connected : bool;
  needs_recovery : bool;
  level : CcidExchangeLevel;
  max_message_length : Z;
  max_payload_length : Z;
  engine_max_slot_index : Z;
  pending_op : option (OperationId * PendingOperation);
  expected_response_type : Z;
  expected_seq : Z;
  expected_bulk_out_len : Z;
  active_deadline_id : Z;
  current_deadline : option Deadline;
  default_timeout_ms : Z;
  chain_buffer : bytes;
  outgoing_chain : list bytes;
  pending_b_wi : Z;
  wtx_count : Z;
  op_started_at : MonotonicTime;
  abort_drain_count : Z;
  waiting_unit_ms : Z }.

(** Assignments to the fields. *)
Definition set_card_gen (v : Z) (e : CcidEngine) : CcidEngine :=
  MkEngine (interface_number e) (b_slot e) v (connection_gen e) (next_seq e) (card_present e)
    (activated e) (connected e) (needs_recovery e) (level e) (max_message_length e)
    (max_payload_length e) (engine_max_slot_index e) (pending_op e) (expected_response_type e)
    (expected_seq e) (expected_bulk_out_len e) (active_deadline_id e) (current_deadline e)
    (default_timeout_ms e) (chain_buffer e) (outgoing_chain e) (pending_b_wi e) (wtx_count e)
    (op_started_at e) (abort_drain_count e) (waiting_unit_ms e).
Definition set_next_seq (v : Z) (e : CcidEngine) : CcidEngine :=
  MkEngine (interface_number e) (b_slot e) (card_gen e) (connection_gen e) v (card_present e)
    (activated e) (connected e) (needs_recovery e) (level e) (max_message_length e)
    (max_payload_length e) (engine_max_slot_index e) (pending_op e) (expected_response_type e)
    (expected_seq e) (expected_bulk_out_len e) (active_deadline_id e) (current_deadline e)
    (default_timeout_ms e) (chain_buffer e) (outgoing_chain e) (pending_b_wi e) (wtx_count e)
    (op_started_at e) (abort_drain_count e) (waiting_unit_ms e).
Definition set_card_present (v : bool) (e : CcidEngine) : CcidEngine :=
  MkEngine (interface_number e) (b_slot e) (card_gen e) (connection_gen e) (next_seq e) v
    (activated e) (connected e) (needs_recovery e) (level e) (max_message_length e)
    (max_payload_length e) (engine_max_slot_index e) (pending_op e) (expected_response_type e)
    (expected_seq e) (expected_bulk_out_len e) (active_deadline_id e) (current_deadline e)
    (default_timeout_ms e) (chain_buffer e) (outgoing_chain e) (pending_b_wi e) (wtx_count e)
    (op_started_at e) (abort_drain_count e) (waiting_unit_ms e).
Definition set_activated (v : bool) (e : CcidEngine) : CcidEngine :=
  MkEngine (interface_number e) (b_slot e) (card_gen e) (connection_gen e) (next_seq e)
    (card_present e) v (connected e) (needs_recovery e) (level e) (max_message_length e)
    (max_payload_length e) (engine_max_slot_index e) (pending_op e) (expected_response_type e)
    (expected_seq e) (expected_bulk_out_len e) (active_deadline_id e) (current_deadline e)
    (default_timeout_ms e) (chain_buffer e) (outgoing_chain e) (pending_b_wi e) (wtx_count e)
    (op_started_at e) (abort_drain_count e) (waiting_unit_ms e).
Definition set_connected (v : bool) (e : CcidEngine) : CcidEngine :=
  MkEngine (interface_number e) (b_slot e) (card_gen e) (connection_gen e) (next_seq e)
    (card_present e) (activated e) v (needs_recovery e) (level e) (max_message_length e)
    (max_payload_length e) (engine_max_slot_index e) (pending_op e) (expected_response_type e)
    (expected_seq e) (expected_bulk_out_len e) (active_deadline_id e) (current_deadline e)
    (default_timeout_ms e) (chain_buffer e) (outgoing_chain e) (pending_b_wi e) (wtx_count e)
    (op_started_at e) (abort_drain_count e) (waiting_unit_ms e).
Definition set_needs_recovery (v : bool) (e : CcidEngine) : CcidEngine :=
  MkEngine (interface_number e) (b_slot e) (card_gen e) (connection_gen e) (next_seq e)
    (card_present e) (activated e) (connected e) v (level e) (max_message_length e)
    (max_payload_length e) (engine_max_slot_index e) (pending_op e) (expected_response_type e)
    (expected_seq e) (expected_bulk_out_len e) (active_deadline_id e) (current_deadline e)
    (default_timeout_ms e) (chain_buffer e) (outgoing_chain e) (pending_b_wi e) (wtx_count e)
    (op_started_at e) (abort_drain_count e) (waiting_unit_ms e).
Definition set_pending_op (v : option (OperationId * PendingOperation)) (e : CcidEngine) : CcidEngine :=
  MkEngine (interface_number e) (b_slot e) (card_gen e) (connection_gen e) (next_seq e)
    (card_present e) (activated e) (connected e) (needs_recovery e) (level e)
    (max_message_length e) (max_payload_length e) (engine_max_slot_index e) v
    (expected_response_type e) (expected_seq e) (expected_bulk_out_len e) (active_deadline_id e)
    (current_deadline e) (default_timeout_ms e) (chain_buffer e) (outgoing_chain e)
    (pending_b_wi e) (wtx_count e) (op_started_at e) (abort_drain_count e) (waiting_unit_ms e).
Definition set_expected_response_type (v : Z) (e : CcidEngine) : CcidEngine :=
  MkEngine (interface_number e) (b_slot e) (card_gen e) (connection_gen e) (next_seq e)
    (card_present e) (activated e) (connected e) (needs_recovery e) (level e)
    (max_message_length e) (max_payload_length e) (engine_max_slot_index e) (pending_op e) v
    (expected_seq e) (expected_bulk_out_len e) (active_deadline_id e) (current_deadline e)
    (default_timeout_ms e) (chain_buffer e) (outgoing_chain e) (pending_b_wi e) (wtx_count e)
    (op_started_at e) (abort_drain_count e) (waiting_unit_ms e).
Definition set_expected_seq (v : Z) (e : CcidEngine) : CcidEngine :=
  MkEngine (interface_number e) (b_slot e) (card_gen e) (connection_gen e) (next_seq e)
    (card_present e) (activated e) (connected e) (needs_recovery e) (level e)
    (max_message_length e) (max_payload_length e) (engine_max_slot_index e) (pending_op e)
    (expected_response_type e) v (expected_bulk_out_len e) (active_deadline_id e)
    (current_deadline e) (default_timeout_ms e) (chain_buffer e) (outgoing_chain e)
    (pending_b_wi e) (wtx_count e) (op_started_at e) (abort_drain_count e) (waiting_unit_ms e).
Definition set_expected_bulk_out_len (v : Z) (e : CcidEngine) : CcidEngine :=
  MkEngine (interface_number e) (b_slot e) (card_gen e) (connection_gen e) (next_seq e)
    (card_present e) (activated e) (connected e) (needs_recovery e) (level e)
    (max_message_length e) (max_payload_length e) (engine_max_slot_index e) (pending_op e)
    (expected_response_type e) (expected_seq e) v (active_deadline_id e) (current_deadline e)
    (default_timeout_ms e) (chain_buffer e) (outgoing_chain e) (pending_b_wi e) (wtx_count e)
    (op_started_at e) (abort_drain_count e) (waiting_unit_ms e).
Definition set_active_deadline_id (v : Z) (e : CcidEngine) : CcidEngine :=
  MkEngine (interface_number e) (b_slot e) (card_gen e) (connection_gen e) (next_seq e)
    (card_present e) (activated e) (connected e) (needs_recovery e) (level e)
    (max_message_length e) (max_payload_length e) (engine_max_slot_index e) (pending_op e)
    (expected_response_type e) (expected_seq e) (expected_bulk_out_len e) v (current_deadline e)
    (default_timeout_ms e) (chain_buffer e) (outgoing_chain e) (pending_b_wi e) (wtx_count e)
    (op_started_at e) (abort_drain_count e) (waiting_unit_ms e).
Definition set_current_deadline (v : option Deadline) (e : CcidEngine) : CcidEngine :=
  MkEngine (interface_number e) (b_slot e) (card_gen e) (connection_gen e) (next_seq e)
    (card_present e) (activated e) (connected e) (needs_recovery e) (level e)
    (max_message_length e) (max_payload_length e) (engine_max_slot_index e) (pending_op e)
    (expected_response_type e) (expected_seq e) (expected_bulk_out_len e) (active_deadline_id e)
    v (default_timeout_ms e) (chain_buffer e) (outgoing_chain e) (pending_b_wi e) (wtx_count e)
    (op_started_at e) (abort_drain_count e) (waiting_unit_ms e).
Definition set_chain_buffer (v : bytes) (e : CcidEngine) : CcidEngine :=
  MkEngine (interface_number e) (b_slot e) (card_gen e) (connection_gen e) (next_seq e)
    (card_present e) (activated e) (connected e) (needs_recovery e) (level e)
    (max_message_length e) (max_payload_length e) (engine_max_slot_index e) (pending_op e)
    (expected_response_type e) (expected_seq e) (expected_bulk_out_len e) (active_deadline_id e)
    (current_deadline e) (default_timeout_ms e) v (outgoing_chain e) (pending_b_wi e)
    (wtx_count e) (op_started_at e) (abort_drain_count e) (waiting_unit_ms e).
Definition set_outgoing_chain (v : list bytes) (e : CcidEngine) : CcidEngine :=
  MkEngine (interface_number e) (b_slot e) (card_gen e) (connection_gen e) (next_seq e)
    (card_present e) (activated e) (connected e) (needs_recovery e) (level e)
    (max_message_length e) (max_payload_length e) (engine_max_slot_index e) (pending_op e)
    (expected_response_type e) (expected_seq e) (expected_bulk_out_len e) (active_deadline_id e)
    (current_deadline e) (default_timeout_ms e) (chain_buffer e) v (pending_b_wi e)
    (wtx_count e) (op_started_at e) (abort_drain_count e) (waiting_unit_ms e).
Definition set_pending_b_wi (v : Z) (e : CcidEngine) : CcidEngine :=
  MkEngine (interface_number e) (b_slot e) (card_gen e) (connection_gen e) (next_seq e)
    (card_present e) (activated e) (connected e) (needs_recovery e) (level e)
    (max_message_length e) (max_payload_length e) (engine_max_slot_index e) (pending_op e)
    (expected_response_type e) (expected_seq e) (expected_bulk_out_len e) (active_deadline_id e)
    (current_deadline e) (default_timeout_ms e) (chain_buffer e) (outgoing_chain e) v
    (wtx_count e) (op_started_at e) (abort_drain_count e) (waiting_unit_ms e).
Definition set_wtx_count (v : Z) (e : CcidEngine) : CcidEngine :=
  MkEngine (interface_number e) (b_slot e) (card_gen e) (connection_gen e) (next_seq e)
    (card_present e) (activated e) (connected e) (needs_recovery e) (level e)
    (max_message_length e) (max_payload_length e) (engine_max_slot_index e) (pending_op e)
    (expected_response_type e) (expected_seq e) (expected_bulk_out_len e) (active_deadline_id e)
    (current_deadline e) (default_timeout_ms e) (chain_buffer e) (outgoing_chain e)
    (pending_b_wi e) v (op_started_at e) (abort_drain_count e) (waiting_unit_ms e).
Definition set_op_started_at (v : MonotonicTime) (e : CcidEngine) : CcidEngine :=
  MkEngine (interface_number e) (b_slot e) (card_gen e) (connection_gen e) (next_seq e)
    (card_present e) (activated e) (connected e) (needs_recovery e) (level e)
    (max_message_length e) (max_payload_length e) (engine_max_slot_index e) (pending_op e)
    (expected_response_type e) (expected_seq e) (expected_bulk_out_len e) (active_deadline_id e)
    (current_deadline e) (default_timeout_ms e) (chain_buffer e) (outgoing_chain e)
    (pending_b_wi e) (wtx_count e) v (abort_drain_count e) (waiting_unit_ms e).
Definition set_abort_drain_count (v : Z) (e : CcidEngine) : CcidEngine :=
  MkEngine (interface_number e) (b_slot e) (card_gen e) (connection_gen e) (next_seq e)
    (card_present e) (activated e) (connected e) (needs_recovery e) (level e)
    (max_message_length e) (max_payload_length e) (engine_max_slot_index e) (pending_op e)
    (expected_response_type e) (expected_seq e) (expected_bulk_out_len e) (active_deadline_id e)
    (current_deadline e) (default_timeout_ms e) (chain_buffer e) (outgoing_chain e)
    (pending_b_wi e) (wtx_count e) (op_started_at e) v (waiting_unit_ms e).
Definition set_waiting_unit_ms (v : Z) (e : CcidEngine) : CcidEngine :=
  MkEngine (interface_number e) (b_slot e) (card_gen e) (connection_gen e) (next_seq e)
    (card_present e) (activated e) (connected e) (needs_recovery e) (level e)
    (max_message_length e) (max_payload_length e) (engine_max_slot_index e) (pending_op e)
    (expected_response_type e) (expected_seq e) (expected_bulk_out_len e) (active_deadline_id e)
    (current_deadline e) (default_timeout_ms e) (chain_buffer e) (outgoing_chain e)
    (pending_b_wi e) (wtx_count e) (op_started_at e) (abort_drain_count e) v.

Definition CcidEngine_new (interface_number b_slot connection_gen : Z)
    (descriptor : CcidFunctionalDescriptor) : CcidEngine :=
  MkEngine interface_number b_slot 1 connection_gen 0 false false true false
    (exchange_level descriptor) (maximum_message_length descriptor)
    (maximum_transfer_block_length descriptor) (max_slot_index descriptor)
    None 0 0 0 0 None DEFAULT_ENGINE_TIMEOUT_MS [] [] 0 0 0 0 1000.

Definition mark_activated (activated : bool) (e : CcidEngine) : CcidEngine :=
  let e := set_activated activated e in
  if activated then set_card_present true e else e.
Definition mark_deactivated (e : CcidEngine) : CcidEngine := set_activated false e.
Definition configure_waiting_unit_ms (ms : Z) (e : CcidEngine) : CcidEngine :=
  set_waiting_unit_ms (Z.max ms 1) e.

(** [u8], [u32] and [u64] arithmetic as the code uses it. *)
Definition wrapping_add (max a b : Z) : Z := (a + b) mod (max + 1).
Definition saturating_mul (max a b : Z) : Z := Z.min max (a * b).
Definition bump_card_gen (e : CcidEngine) : CcidEngine :=
  set_card_gen (wrapping_add U64_MAX (card_gen e) 1) e.

Definition allocate_seq (e : CcidEngine) : Z * CcidEngine :=
  let seq := next_seq e in
  (seq, set_expected_seq seq (set_next_seq (wrapping_add U8_MAX (next_seq e) 1) e)).

(** ** Ends of a step *)

Definition outcome : Type := option (Transition * CcidEngine).

Definition ret (acts : list Action) (e : CcidEngine) : outcome := Some (MkTransition acts None, e).

Definition is_some {A} (o : option A) : bool := match o with Some _ => true | None => false end.

Definition fall (acts : list Action) (next : option Deadline) (e : CcidEngine) : outcome :=
  let next := if negb (is_some next) && is_some (pending_op e) then current_deadline e else next in
  Some (MkTransition acts next, e).

(** A fresh deadline at an absolute time. *)
Definition arm (expires : Z) (e : CcidEngine) : Deadline * CcidEngine :=
  let e := set_active_deadline_id (wrapping_add U64_MAX (active_deadline_id e) 1) e in
  let dl := MkDeadline (active_deadline_id e) expires in
  (dl, set_current_deadline (Some dl) e).

(** [MonotonicTime(now.0 + self.default_timeout_ms)]; [None] is the overflow panic. *)
Definition timeout_after (now : Z) (e : CcidEngine) : option Z :=
  checked_add U64_MAX now (default_timeout_ms e).

Definition bulk_in_size (e : CcidEngine) : Z := Z.max (max_message_length e) CCID_HEADER_SIZE.

(** ** Interrupts *)

Definition card_gone (e : CcidEngine) : CcidEngine :=
  bump_card_gen (set_activated false (set_card_present false e)).

Definition on_hardware_error (e : CcidEngine) : outcome :=
  let e := set_current_deadline None (card_gone (set_needs_recovery true e)) in
  match pending_op e with
  | Some (op_id, _) =>
      fall [CancelTransfers; CompleteOp op_id (Err (Io ConnectionLost))] None (set_pending_op None e)
  | None => fall [] None e
  end.

Definition on_slot_change (e : CcidEngine) (n : SlotChangeNotification) : outcome :=
  let present := is_card_present n (b_slot e) in
  let changed := has_slot_changed n (b_slot e) in
  if changed || negb (Bool.eqb present (card_present e)) then
    let e := bump_card_gen (set_card_present present e) in
    let '(acts, e) :=
      if changed || negb present then
        let e := set_activated false e in
        match pending_op e with
        | Some (op_id, _) =>
            ([CancelTransfers; CompleteOp op_id (Err CardRemoved)],
             set_current_deadline None (set_pending_op None e))
        | None => ([], e)
        end
      else ([], e) in
    fall (acts ++ [PublishSlotChange (b_slot e) present (card_gen e)]) None e
  else fall [] None e.

Definition on_interrupt (raw : bytes) (e : CcidEngine) : outcome :=
  if bool_decide (head raw = Some RDR_TO_PC_HARDWARE_ERROR) then
    match decode_interrupt_hardware_error raw with
    | Ok hw_err => if hw_slot hw_err =? b_slot e then on_hardware_error e else fall [] None e
    | Err (Raised _) => fall [] None e
    | Err Panicked => None
    end
  else
    match decode_interrupt_slot_change raw (engine_max_slot_index e) with
    | Ok notification => on_slot_change e notification
    | Err (Raised _) => fall [] None e
    | Err Panicked => None
    end.

(** ** Starting an operation *)

(** The refusals before anything is sent, in order. *)
Definition start_refusal (op : Operation) (e : CcidEngine) : option CcidError :=
  if negb (connected e) then Some (Io ConnectionLost)
  else if needs_recovery e && negb (match op with Abort => true | _ => false end)
  then Some (ProtocolDesync SlotRecoveryRequired)
  else if is_some (pending_op e) then Some (ProtocolDesync OperationAlreadyPending)
  else match op with
  | TransferBlock _ _ data =>
      let max_payload_bound :=
        match level e with
        | ShortAndExtendedApdu => MAXIMUM_CCID_COMMAND_PAYLOAD_LENGTH
        | _ => max_payload_length e
        end in
      if len data >? max_payload_bound then Some ApduTooLong else None
  | Secure _ _ data => if len data >? max_payload_length e then Some ApduTooLong else None
  | _ => None
  end.

(** The loop that cuts the rest of a command into blocks; [None] is a slice out
    of range or fuel exhaustion. *)
Fixpoint chunk_loop (fuel : nat) (data : bytes) (max_block offset : Z) (chain : list bytes) :
  option (list bytes) :=
  if negb (offset <? len data) then Some chain
  else match fuel with
  | O => None
  | S fuel =>
      let end_ := Z.min (offset + max_block) (len data) in
      piece ← get_range data offset end_;
      chunk_loop fuel data max_block end_ (chain ++ [piece])
  end.

(** What is sent first for an operation other than [Abort]: its kind, the
    message, the awaited reply. *)
Definition encode_operation (op : Operation) (seq : Z) (e : CcidEngine) :
  option (PendingOperation * bytes * Z * CcidEngine) :=
  match op with
  | PowerOn voltage =>
      Some (P_PowerOn, encode_icc_power_on (b_slot e) seq voltage, RDR_TO_PC_DATA_BLOCK, e)
  | PowerOff => Some (P_PowerOff, encode_icc_power_off (b_slot e) seq, RDR_TO_PC_SLOT_STATUS, e)
  | GetSlotStatus =>
      Some (P_GetSlotStatus, encode_get_slot_status (b_slot e) seq, RDR_TO_PC_SLOT_STATUS, e)
  | GetParameters =>
      Some (P_GetParameters, encode_get_parameters (b_slot e) seq, RDR_TO_PC_PARAMETERS, e)
  | SetParametersT0 fi_di guard_time waiting_integer clock_stop inverse_convention =>
      Some (P_SetParametersT0,
            encode_set_parameters_t0 (b_slot e) seq fi_di guard_time waiting_integer clock_stop
              inverse_convention,
            RDR_TO_PC_PARAMETERS, e)
  | TransferBlock b_wi w_level_parameter data =>
      let max_block := max_payload_length e in
      if bool_decide (level e = ShortAndExtendedApdu) && (max_block >? 0) && (len data >? max_block)
      then
        let e := set_pending_b_wi b_wi (set_outgoing_chain [] e) in
        first_chunk ← get_range data 0 max_block;
        chain ← chunk_loop (length data) data max_block max_block (outgoing_chain e);
        Some (P_TransferBlock, encode_xfr_block (b_slot e) seq b_wi W_LEVEL_BEGIN first_chunk,
              RDR_TO_PC_DATA_BLOCK, set_outgoing_chain chain e)
      else
        Some (P_TransferBlock, encode_xfr_block (b_slot e) seq b_wi w_level_parameter data,
              RDR_TO_PC_DATA_BLOCK, e)
  | Secure b_wi w_level_parameter data =>
      Some (P_Secure, encode_secure (b_slot e) seq b_wi w_level_parameter data,
            RDR_TO_PC_DATA_BLOCK, e)
  | Abort => None
  end.

Definition start_abort (now : Z) (id : OperationId) (seq : Z) (e : CcidEngine) : outcome :=
  let e := set_abort_drain_count 0
             (set_expected_response_type RDR_TO_PC_SLOT_STATUS
                (set_pending_op (Some (id, P_Abort)) e)) in
  expires ← timeout_after now e;
  let '(dl, e) := arm expires e in
  let value := Z.lor (Z.shiftl seq 8) (b_slot e) in
  Some (MkTransition
          [SubmitControl CCID_CONTROL_REQUEST_TYPE CCID_CONTROL_REQUEST_ABORT value
             (interface_number e) []]
          (Some dl), e).

Definition start_command (now : Z) (id : OperationId) (op : Operation) (seq : Z) (e : CcidEngine) :
  outcome :=
  '(kind, encoded, expected_resp, e) ← encode_operation op seq e;
  let e := set_expected_bulk_out_len (len encoded)
             (set_expected_response_type expected_resp (set_pending_op (Some (id, kind)) e)) in
  expires ← timeout_after now e;
  let '(dl, e) := arm expires e in
  fall [SubmitBulkOut seq encoded] (Some dl) e.

Definition on_start (now : Z) (id : OperationId) (op : Operation) (e : CcidEngine) : outcome :=
  match start_refusal op e with
  | Some err => ret [CompleteOp id (Err err)] e
  | None =>
      let e := set_outgoing_chain [] (set_chain_buffer []
                 (set_op_started_at now (set_wtx_count 0 e))) in
      let '(seq, e) := allocate_seq e in
      let e := set_expected_seq seq e in
      match op with
      | Abort => start_abort now id seq e
      | _ => start_command now id op seq e
      end
  end.

(** ** Transfers that completed *)

Definition on_bulk_out (transferred : Z) (e : CcidEngine) : outcome :=
  if negb (transferred =? expected_bulk_out_len e) then
    match pending_op e with
    | Some (op_id, _) =>
        fall [CancelTransfers;
              CompleteOp op_id (Err (Io (ShortWrite (expected_bulk_out_len e) transferred)))] None
          (set_needs_recovery true (set_current_deadline None (set_pending_op None e)))
    | None => fall [] None e
    end
  else fall [SubmitBulkIn (bulk_in_size e)] None e.

Definition on_control (e : CcidEngine) : outcome :=
  match pending_op e with
  | Some (_, P_Abort) =>
      let seq := expected_seq e in
      let encoded := encode_abort (b_slot e) seq in
      fall [SubmitBulkOut seq encoded] None (set_expected_bulk_out_len (len encoded) e)
  | _ => fall [] None e
  end.

(** In the handlers of a reply, [pending_op] has been taken. *)
Definition on_time_extension (now : Z) (op_id : OperationId) (pending : PendingOperation)
    (multiplier : Z) (e : CcidEngine) : outcome :=
  let e := set_wtx_count (saturating_add U32_MAX (wtx_count e) 1) e in
  let extension_ms := saturating_mul U64_MAX multiplier (waiting_unit_ms e) in
  let extended_until := saturating_add U64_MAX now extension_ms in
  let waited_ms := saturating_sub extended_until (op_started_at e) in
  if (wtx_count e >? MAX_TIME_EXTENSIONS) || (waited_ms >? MAX_TIME_EXTENSION_WALL_MS) then
    ret [CancelTransfers; CompleteOp op_id (Err Timeout)]
      (set_needs_recovery true (set_current_deadline None e))
  else
    let e := set_pending_op (Some (op_id, pending)) e in
    let '(dl, e) := arm extended_until e in
    fall [SubmitBulkIn (bulk_in_size e)] (Some dl) e.

(** The result of a data block, by the kind of the operation. *)
Definition data_result (pending : PendingOperation) (data : bytes) (e : CcidEngine) :
  OperationResult * CcidEngine :=
  match pending with
  | P_PowerOn => (R_PowerOn data, set_card_present true (set_activated true e))
  | P_TransferBlock => (R_TransferBlock data, e)
  | P_Secure => (R_Secure data, e)
  | _ => (R_PowerOn data, e)
  end.

(** Keep the payload and ask the reader for the next block. *)
Definition extend_chain (op_id : OperationId) (pending : PendingOperation) (payload : bytes)
    (e : CcidEngine) : outcome :=
  let next_len := saturating_add USIZE_MAX (len (chain_buffer e)) (len payload) in
  if next_len >? MAX_RESPONSE_PAYLOAD_SIZE then
    ret [CompleteOp op_id (Err ResponseLengthOutOfRange)]
      (set_current_deadline None (set_chain_buffer [] e))
  else
    let e := set_chain_buffer (chain_buffer e ++ payload) e in
    let '(seq, e) := allocate_seq e in
    let e := set_pending_op (Some (op_id, pending)) (set_expected_seq seq e) in
    let cmd := encode_xfr_block (b_slot e) seq 0 CHAIN_COMMAND_CONTINUATION_EXPECTED [] in
    fall [SubmitBulkOut seq cmd] None (set_expected_bulk_out_len (len cmd) e).

Definition desync (op_id : OperationId) (d : CcidProtocolDesync) (e : CcidEngine) : outcome :=
  ret [CompleteOp op_id (Err (ProtocolDesync d))]
    (set_needs_recovery true (set_current_deadline None e)).

Definition on_chain_begin (op_id : OperationId) (pending : PendingOperation) (payload : bytes)
    (e : CcidEngine) : outcome :=
  if negb (is_empty (chain_buffer e))
  then desync op_id ChainBeginAlreadyOpen (set_chain_buffer [] e)
  else extend_chain op_id pending payload e.

Definition on_chain_continue (op_id : OperationId) (pending : PendingOperation) (payload : bytes)
    (e : CcidEngine) : outcome :=
  if is_empty (chain_buffer e) then desync op_id ChainContinueWithoutBegin e
  else extend_chain op_id pending payload e.

Definition on_chain_end (op_id : OperationId) (pending : PendingOperation) (payload : bytes)
    (e : CcidEngine) : outcome :=
  if is_empty (chain_buffer e) then desync op_id ChainEndWithoutBegin e
  else
    let next_len := saturating_add USIZE_MAX (len (chain_buffer e)) (len payload) in
    if next_len >? MAX_RESPONSE_PAYLOAD_SIZE then
      ret [CompleteOp op_id (Err ResponseLengthOutOfRange)]
        (set_current_deadline None (set_chain_buffer [] e))
    else
      let combined := chain_buffer e ++ payload in
      let '(r, e) := data_result pending combined (set_chain_buffer [] e) in
      fall [CompleteOp op_id (Ok r)] None (set_current_deadline None e).

Definition on_chain_complete (op_id : OperationId) (pending : PendingOperation) (payload : bytes)
    (e : CcidEngine) : outcome :=
  if negb (is_empty (chain_buffer e))
  then desync op_id ChainCompleteWhileOpen (set_chain_buffer [] e)
  else if len payload >? MAX_RESPONSE_PAYLOAD_SIZE then
    ret [CompleteOp op_id (Err ResponseLengthOutOfRange)] (set_current_deadline None e)
  else
    let '(r, e) := data_result pending payload e in
    fall [CompleteOp op_id (Ok r)] None (set_current_deadline None e).

Definition on_command_continuation (now : Z) (op_id : OperationId) (pending : PendingOperation)
    (e : CcidEngine) : outcome :=
  match outgoing_chain e with
  | next_chunk :: rest =>
      let e := set_outgoing_chain rest e in
      let w_level := if is_empty (outgoing_chain e) then W_LEVEL_END else W_LEVEL_CONTINUE in
      let '(seq, e) := allocate_seq e in
      let e := set_pending_op (Some (op_id, pending)) (set_expected_seq seq e) in
      let cmd := encode_xfr_block (b_slot e) seq (pending_b_wi e) w_level next_chunk in
      let e := set_expected_bulk_out_len (len cmd) e in
      expires ← timeout_after now e;
      let '(dl, e) := arm expires e in
      fall [SubmitBulkOut seq cmd] (Some dl) e
  | [] =>
      fall [CompleteOp op_id (Err (ProtocolDesync UnexpectedCommandContinuation))] None
        (set_current_deadline None e)
  end.

Definition on_data_block (now : Z) (op_id : OperationId) (pending : PendingOperation)
    (status : CardStatus) (chain : ChainParameter) (payload : bytes) (e : CcidEngine) : outcome :=
  if bool_decide (status = NotPresent) then
    fall [CompleteOp op_id (Err CardRemoved)] None (set_current_deadline None (card_gone e))
  else
    match chain with
    | Begin => on_chain_begin op_id pending payload e
    | Continue => on_chain_continue op_id pending payload e
    | End_ => on_chain_end op_id pending payload e
    | Complete => on_chain_complete op_id pending payload e
    | CommandContinuationExpected => on_command_continuation now op_id pending e
    end.

Definition on_slot_status (op_id : OperationId) (pending : PendingOperation)
    (status : CardStatus) (e : CcidEngine) : outcome :=
  let present := bool_decide (status = Active) || bool_decide (status = Inactive) in
  let e := if negb present && card_present e then bump_card_gen (set_activated false e) else e in
  let e := set_current_deadline None (set_card_present present e) in
  let '(r, e) :=
    match pending with
    | P_PowerOff => (R_PowerOff, set_activated false e)
    | P_Abort => (R_Aborted, set_needs_recovery false e)
    | _ => (R_SlotStatus present, e)
    end in
  fall [CompleteOp op_id (Ok r)] None e.

(** A reply that says the card has gone is believed. *)
Definition note_removal (status : CardStatus) (e : CcidEngine) : CcidEngine :=
  if bool_decide (status = NotPresent) then card_gone e else e.

Definition on_parameters (op_id : OperationId) (pending : PendingOperation)
    (status : CardStatus) (payload : bytes) (e : CcidEngine) : outcome :=
  let e := set_current_deadline None (note_removal status e) in
  let r := match pending with P_SetParametersT0 => R_ParametersSet | _ => R_Parameters payload end in
  fall [CompleteOp op_id (Ok r)] None e.

Definition on_command_failure (op_id : OperationId) (status : CardStatus) (error_code : Z)
    (e : CcidEngine) : outcome :=
  fall [CompleteOp op_id (Err (CommandFailed error_code))] None
    (set_current_deadline None (note_removal status e)).

Definition on_bad_frame (op_id : OperationId) (pending : PendingOperation) (err : CcidError)
    (e : CcidEngine) : outcome :=
  if match pending with P_Abort => true | _ => false end
     && (abort_drain_count e <? MAX_ABORT_DRAIN_ATTEMPTS)
  then
    let e := set_abort_drain_count (saturating_add U8_MAX (abort_drain_count e) 1) e in
    fall [SubmitBulkIn (bulk_in_size e)] None (set_pending_op (Some (op_id, pending)) e)
  else
    fall [CompleteOp op_id (Err err)] None (set_needs_recovery true (set_current_deadline None e)).

Definition on_bulk_in (now : Z) (frame : bytes) (e : CcidEngine) : outcome :=
  match pending_op e with
  | None => fall [] None e
  | Some (op_id, pending) =>
      let e := set_pending_op None e in
      match decode_response frame (expected_response_type e) (b_slot e) (expected_seq e) with
      | Ok (TimeExtension _ multiplier) => on_time_extension now op_id pending multiplier e
      | Ok (DataBlock status chain payload) => on_data_block now op_id pending status chain payload e
      | Ok (SlotStatus status _) => on_slot_status op_id pending status e
      | Ok (Parameters_ status _ payload) => on_parameters op_id pending status payload e
      | Ok (CommandFailure status error_code) => on_command_failure op_id status error_code e
      | Err (Raised err) => on_bad_frame op_id pending err e
      | Err Panicked => None
      end
  end.

(** The two [matches!] on a failed transfer's error. *)
Definition says_removed (err : CcidError) : bool :=
  match err with CardRemoved => true | _ => false end.
Definition leaves_unknown (err : CcidError) : bool :=
  match err with Timeout | Io _ => true | _ => false end.

Definition on_failure (err : CcidError) (e : CcidEngine) : outcome :=
  let e := set_outgoing_chain [] e in
  match pending_op e with
  | Some (op_id, _) =>
      let e := set_pending_op None e in
      let e := if says_removed err then card_gone e else e in
      let e := if leaves_unknown err then set_needs_recovery true e else e in
      fall [CancelTransfers; CompleteOp op_id (Err err)] None (set_current_deadline None e)
  | None => fall [] None e
  end.

(** ** Time, cancellation and loss *)

Definition on_deadline (now : Z) (expired : DeadlineId) (e : CcidEngine) : outcome :=
  match current_deadline e with
  | Some dl =>
      if (id dl =? expired) && (now >=? expires_at dl) then
        match pending_op e with
        | Some (op_id, _) =>
            fall [CancelTransfers; CompleteOp op_id (Err Timeout)] None
              (set_current_deadline None (set_needs_recovery true
                 (set_outgoing_chain [] (set_pending_op None e))))
        | None => fall [] None e
        end
      else fall [] None e
  | None => fall [] None e
  end.

Definition on_cancel (op_id : OperationId) (e : CcidEngine) : outcome :=
  if match pending_op e with Some (id, _) => id =? op_id | None => false end then
    fall [CancelTransfers; CompleteOp op_id (Err Cancelled)] None
      (set_needs_recovery true (set_current_deadline None
         (set_pending_op None (set_outgoing_chain [] e))))
  else fall [] None e.

Definition on_connection_lost (e : CcidEngine) : outcome :=
  let e := set_current_deadline None (set_activated false
             (set_card_present false (set_connected false (set_outgoing_chain [] e)))) in
  match pending_op e with
  | Some (op_id, _) =>
      fall [CompleteOp op_id (Err (Io DeviceDisconnected))] None (set_pending_op None e)
  | None => fall [] None e
  end.

(** ** The step *)

Definition step (now : MonotonicTime) (event : InputEvent) (e : CcidEngine) : outcome :=
  match event with
  | InterruptReceived raw => on_interrupt raw e
  | Start id op => on_start now id op e
  | IoCompleted (BulkOut transferred) => on_bulk_out transferred e
  | IoCompleted Control => on_control e
  | IoCompleted (BulkIn frame) => on_bulk_in now frame e
  | IoCompleted (Failure err) => on_failure err e
  | DeadlineExpired id => on_deadline now id e
  | Cancel id => on_cancel id e
  | LostConnection => on_connection_lost e
  end.

(** A run: the actions of each step in order, [None] if one panics. *)
Fixpoint run (events : list (MonotonicTime * InputEvent)) (e : CcidEngine) :
  option (list Action * CcidEngine) :=
  match events with
  | [] => Some ([], e)
  | (now, event) :: rest =>
      '(t, e) ← step now event e;
      '(acts, e) ← run rest e;
      Some (actions t ++ acts, e)
  end.

(** ** What is counted and checked *)

(** How often an operation is answered by a list of actions, started by an
    event, and pending in a state. *)
Definition answers (i : OperationId) (a : Action) : nat :=
  match a with CompleteOp j _ => Nat.b2n (j =? i) | _ => 0%nat end.
Definition answered (i : OperationId) (acts : list Action) : nat := sum_list (map (answers i) acts).
Definition starts (i : OperationId) (ev : InputEvent) : nat :=
  match ev with Start j _ => Nat.b2n (j =? i) | _ => 0%nat end.
Definition started (i : OperationId) (events : list (MonotonicTime * InputEvent)) : nat :=
  sum_list (map (fun ev => starts i ev.2) events).
Definition pending_count (i : OperationId) (e : CcidEngine) : nat :=
  match pending_op e with Some (j, _) => Nat.b2n (j =? i) | None => 0%nat end.

(** [Q] holds of the transition and the state a step ends with. *)
Definition ends (o : outcome) (Q : Transition -> CcidEngine -> Prop) : Prop :=
  match o with Some (t, e') => Q t e' | None => True end.

(** Case analysis of a handler down to its ends, [Q] kept folded. *)
Ltac ends_cases :=
  repeat match goal with
  | |- ends (match (match ?x with _ => _ end) with _ => _ end) _ => destruct x eqn:?
  | |- ends (match (match (match ?x with _ => _ end) with _ => _ end) with _ => _ end) _ =>
      destruct x eqn:?
  | |- ends (if ?b then _ else _) _ => destruct b eqn:?
  | |- ends (match ?x with _ => _ end) _ => destruct x eqn:?
  | |- ends (mbind _ (Some _)) _ => cbn [mbind option_bind]
  | |- ends (mbind _ (match ?x with _ => _ end)) _ => destruct x eqn:?
  | |- ends (mbind _ (mbind _ ?x)) _ => destruct x eqn:?; cbn [mbind option_bind]
  | |- ends (mbind _ ?x) _ => destruct x eqn:?; cbn [mbind option_bind]
  | |- ends None _ => exact I
  | |- ends (let _ := _ in _) _ => cbv zeta
  end.

Ltac engine_cbn :=
  cbn [actions next_deadline pending_op current_deadline needs_recovery chain_buffer outgoing_chain
    op_started_at expected_response_type connected b_slot level max_payload_length
    max_message_length default_timeout_ms active_deadline_id next_seq expected_seq card_gen
    card_present activated wtx_count abort_drain_count waiting_unit_ms pending_b_wi
    expected_bulk_out_len interface_number connection_gen engine_max_slot_index
    set_pending_op set_current_deadline set_needs_recovery set_chain_buffer set_outgoing_chain
    set_op_started_at set_expected_response_type set_connected set_active_deadline_id set_next_seq
    set_expected_seq set_card_gen set_card_present set_activated set_wtx_count
    set_abort_drain_count set_waiting_unit_ms set_pending_b_wi set_expected_bulk_out_len
    bump_card_gen card_gone answered answers pending_count starts map sum_list sum_list_with app
    Nat.b2n Nat.add Datatypes.id is_some] in *.

Ltac open_engine :=
  unfold step, on_interrupt, on_hardware_error, on_slot_change, on_start, start_abort,
    start_command, encode_operation, on_bulk_out, on_control, on_bulk_in, on_time_extension,
    on_data_block, on_chain_begin, on_chain_continue, on_chain_end, on_chain_complete,
    on_command_continuation, extend_chain, desync, on_slot_status, on_parameters,
    on_command_failure, on_bad_frame, on_failure, on_deadline, on_cancel, on_connection_lost,
    data_result, note_removal, allocate_seq, arm.

Lemma start_refusal_none op e :
  start_refusal op e = None ->
  connected e = true /\ pending_op e = None /\ (needs_recovery e = true -> op = Abort) /\
  match op with
  | TransferBlock _ _ data =>
      len data <= match level e with
                  | ShortAndExtendedApdu => MAXIMUM_CCID_COMMAND_PAYLOAD_LENGTH
                  | _ => max_payload_length e
                  end
  | Secure _ _ data => len data <= max_payload_length e
  | _ => True
  end.
Proof.
  unfold start_refusal. intros H. case_match_in H; [done|]. case_match_in H; [done|].
  case_match_in H; [done|]. to_prop. destruct (pending_op e); [done|].
  split_and!; [done|done| |].
  - intros Hn. destruct op; cbn in *; intuition congruence.
  - destruct op; try done; (case_match_in H; [done|]; to_prop; lia).
Qed.

(** All the ends of a step, the goal being [ends (step ..) Q]. *)
Ltac engine_facts :=
  engine_cbn;
  repeat match goal with
  | |- context [if ?b then ?x else _] =>
      lazymatch type of x with CcidEngine => destruct b eqn:?; engine_cbn end
  | H : start_refusal _ _ = None |- _ =>
      apply start_refusal_none in H as (? & ? & ? & ?); engine_cbn
  | H : pending_op ?e = _ |- context [pending_op ?e] => rewrite H; engine_cbn
  | H : pending_op ?e = _, T : context [pending_op ?e] |- _ => rewrite H in T; engine_cbn
  end; to_prop.
Ltac step_ends Q :=
  open_engine; ends_cases; unfold ret, fall, ends, Q, pending_count; engine_facts.

Lemma step_conserves now ev e i :
  ends (step now ev e) (fun t e' =>
    (answered i (actions t) + pending_count i e' = starts i ev + pending_count i e)%nat).
Proof. set (Q := fun t e' => _). step_ends Q; subst; lia. Qed.

(** A pending operation has a deadline within ten seconds of the last event, an
    idle engine none. *)
Definition timed (clock : Z) (e : CcidEngine) : Prop :=
  default_timeout_ms e = DEFAULT_ENGINE_TIMEOUT_MS /\
  match pending_op e, current_deadline e with
  | Some _, Some dl =>
      op_started_at e <= clock /\ expires_at dl <= clock + MAX_TIME_EXTENSION_WALL_MS
  | None, None => True
  | _, _ => False
  end.

Lemma timeout_after_eq now e z :
  timeout_after now e = Some z -> z = now + default_timeout_ms e.
Proof. unfold timeout_after, checked_add. intros H. case_match_in H; [|done]. by injection H. Qed.

Lemma step_timed clock now ev e :
  timed clock e -> clock <= now -> ends (step now ev e) (fun _ e' => timed now e').
Proof.
  intros [Ht HT] Hc. set (Q := fun t e' => _).
  step_ends Q; unfold timed; engine_cbn;
    repeat match goal with H : timeout_after _ _ = Some _ |- _ =>
      apply timeout_after_eq in H; engine_cbn end;
    (split; [done|]); cbn [expires_at];
    unfold DEFAULT_ENGINE_TIMEOUT_MS, MAX_TIME_EXTENSION_WALL_MS, saturating_sub in *;
    repeat match goal with T : match ?x with _ => _ end |- _ => destruct x eqn:? end;
    repeat match goal with H : ?x = _ |- context [match ?x with _ => _ end] => rewrite H end;
    destruct_and?; try done; lia.
Qed.

Ltac each_action := repeat first [apply List.Forall_nil | apply List.Forall_cons].

(** *** Recovery *)

Definition is_abort (p : option (OperationId * PendingOperation)) : bool :=
  match p with Some (_, P_Abort) => true | _ => false end.

(** An engine that needs recovery has at most an abort under way, and an abort
    awaits a slot status. *)
Definition recovering (e : CcidEngine) : Prop :=
  (needs_recovery e = true -> pending_op e = None \/ is_abort (pending_op e) = true) /\
  (is_abort (pending_op e) = true -> expected_response_type e = RDR_TO_PC_SLOT_STATUS).

Definition is_abort_result (a : Action) : bool :=
  match a with CompleteOp _ (Ok R_Aborted) => true | _ => false end.

(** What goes to the reader is an abort message. *)
Definition only_aborts (slot : Z) (a : Action) : Prop :=
  match a with
  | SubmitBulkOut seq data => data = encode_abort slot seq
  | _ => True
  end.

Lemma slot_status_replies frame slot seq r :
  decode_response frame RDR_TO_PC_SLOT_STATUS slot seq = Ok r ->
  match r with DataBlock _ _ _ | Parameters_ _ _ _ => False | _ => True end.
Proof.
  unfold decode_response. intros H.
  repeat first [apply rbind_ok_inv in H as (? & _ & H)
               | match type of H with (if ?b then raise _ else _) = _ => destruct b; [done|] end].
  repeat case_match_in H; try done; [|by injection H as <-..].
  unfold decode_succeeded in H. cbn in H.
  do 2 apply rbind_ok_inv in H as (? & _ & H). by injection H as <-.
Qed.

Lemma step_recovering now ev e :
  recovering e -> ends (step now ev e) (fun t e' => recovering e').
Proof.
  intros [H1 H2]. set (Q := fun t e' => _).
  step_ends Q; unfold recovering; engine_facts; cbn [is_abort] in *;
    try done; intuition congruence.
Qed.

(** The engine needs recovery: what it sends, and what it takes to stop. *)
Lemma step_quarantined now ev e :
  recovering e -> needs_recovery e = true ->
  ends (step now ev e) (fun t e' =>
    b_slot e' = b_slot e /\ Forall (only_aborts (b_slot e)) (actions t) /\
    (existsb is_abort_result (actions t) = false -> needs_recovery e' = true)).
Proof.
  intros [H1 H2] Hn. specialize (H1 Hn). set (Q := fun t e' => _).
  step_ends Q;
    repeat match goal with
    | H : decode_response _ (expected_response_type e) _ _ = Ok _ |- _ =>
        rewrite H2 in H by (by destruct H1); apply slot_status_replies in H
    | H : needs_recovery e = true -> _ |- _ => specialize (H Hn)
    end; subst; cbn [existsb is_abort_result orb]; try done;
    (split_and!; [done|by each_action|done]).
Qed.

#[global] Instance Operation_eq_dec : EqDecision Operation.
Proof. solve_decision. Defined.

(** *** Messages *)

(** A message to the reader: its slot, its number, and its length field. *)
Definition command_frame (slot seq : Z) (data : bytes) : bool :=
  bool_decide (get data SLOT_OFFSET = Some slot) && bool_decide (get data SEQUENCE_OFFSET = Some seq)
  && match u32_field data LENGTH_OFFSET with
     | Ok n => n =? len data - CCID_HEADER_SIZE
     | Err _ => false
     end.

Definition message_limit (e : CcidEngine) : Z :=
  Z.max (max_message_length e) (CCID_HEADER_SIZE + T0_PARAMETER_LENGTH).

Definition well_sized (e : CcidEngine) (a : Action) : Prop :=
  match a with
  | SubmitBulkOut seq data =>
      command_frame (b_slot e) seq data = true /\ len data <= message_limit e
  | _ => True
  end.

(** The bounds the engine was built with, and the blocks it still has to send. *)
Definition sized (e : CcidEngine) : Prop :=
  1 <= max_payload_length e /\ CCID_HEADER_SIZE + max_payload_length e <= max_message_length e /\
  max_message_length e <= MAXIMUM_CCID_MESSAGE_LENGTH /\
  Forall (fun c => len c <= max_payload_length e) (outgoing_chain e) /\
  len (chain_buffer e) <= MAX_RESPONSE_PAYLOAD_SIZE.

Lemma u32_field_at x a b c d rest :
  u32_field (x :: a :: b :: c :: d :: rest) LENGTH_OFFSET = Ok (le_value [a; b; c; d]).
Proof. reflexivity. Qed.

Lemma block_message_frame mt slot seq b_wi w block :
  len block <= U32_MAX -> command_frame slot seq (block_message mt slot seq b_wi w block) = true.
Proof.
  intros Hl. pose proof (len_nonneg block). unfold command_frame. rewrite len_block_message.
  unfold block_message. rewrite try_from_uint_some by (unfold is_uint; lia). cbn [from_option Datatypes.id].
  pose proof (le_value_le_bytes 4 (len block) ltac:(change (256 ^ Z.of_nat 4) with 4294967296; ulia)) as Hv.
  pose proof (len_le_bytes 4 (len block)) as Hn.
  destruct (le_bytes 4 (len block)) as [|a [|b [|c [|d [|x l]]]]]; try discriminate Hn.
  2:{ rewrite !len_cons in Hn. pose proof (len_nonneg l). lia. }
  rewrite !bool_decide_eq_true_2 by done. cbn [andb app].
  rewrite u32_field_at. cbv iota. rewrite Hv. lia.
Qed.

Lemma short_header_frame mt slot seq st :
  command_frame slot seq (short_header mt slot seq st) = true.
Proof. unfold command_frame. by rewrite !bool_decide_eq_true_2. Qed.

Lemma set_parameters_frame slot seq a b c d i :
  command_frame slot seq (encode_set_parameters_t0 slot seq a b c d i) = true.
Proof. unfold command_frame. by rewrite !bool_decide_eq_true_2. Qed.

Lemma chunk_loop_spec fuel data max_block offset chain :
  1 <= max_block -> 0 <= offset <= len data -> len data - offset <= Z.of_nat fuel ->
  exists pieces, chunk_loop fuel data max_block offset chain = Some (chain ++ pieces) /\
    concat pieces = drop_z data offset /\ Forall (fun c => len c <= max_block) pieces /\
    Forall (fun c => c <> []) pieces.
Proof.
  intros Hm. revert offset chain. induction fuel as [|fuel IH]; intros offset chain Ho Hf;
    cbn [chunk_loop]; destruct (Z.ltb_spec offset (len data)) as [Hlt|Hge]; cbn [negb]; try lia.
  1,3: exists []; rewrite app_nil_r; split_and!; [done| |constructor|constructor];
    cbn; unfold drop_z; rewrite drop_ge; [done|unfold len in *; lia].
  set (end_ := Z.min (offset + max_block) (len data)).
  destruct (get_range data offset end_) as [piece|] eqn:Eg.
  2:{ unfold get_range in Eg. case_match_in Eg; [done|]. lia. }
  cbn [mbind option_bind]. pose proof (get_range_len _ _ _ _ Eg) as Hl.
  destruct (IH end_ (chain ++ [piece]) ltac:(lia) ltac:(lia)) as (ps & -> & Hc & Hb & Hn).
  exists (piece :: ps). rewrite <- app_assoc. split_and!; [done| |constructor; [lia|done]|].
  - cbn [concat]. rewrite Hc. apply get_range_spec in Eg as (_ & _ & ->).
    unfold drop_z. replace (Z.to_nat end_) with (Z.to_nat offset + Z.to_nat (end_ - offset))%nat by lia.
    rewrite <- drop_drop. apply take_drop.
  - constructor; [|done]. intros ->. rewrite len_nil in Hl. lia.
Qed.

Lemma short_sized e seq mt st : well_sized e (SubmitBulkOut seq (short_header mt (b_slot e) seq st)).
Proof.
  split; [apply short_header_frame|]. change (len _) with 10. unfold message_limit,
    CCID_HEADER_SIZE, T0_PARAMETER_LENGTH. lia.
Qed.

Lemma set_parameters_sized e seq a b c d i :
  well_sized e (SubmitBulkOut seq (encode_set_parameters_t0 (b_slot e) seq a b c d i)).
Proof.
  split; [apply set_parameters_frame|]. change (len _) with 15. unfold message_limit,
    CCID_HEADER_SIZE, T0_PARAMETER_LENGTH. lia.
Qed.

Lemma block_sized e seq mt b_wi w block :
  CCID_HEADER_SIZE + max_payload_length e <= max_message_length e ->
  max_message_length e <= MAXIMUM_CCID_MESSAGE_LENGTH -> len block <= max_payload_length e ->
  well_sized e (SubmitBulkOut seq (block_message mt (b_slot e) seq b_wi w block)).
Proof.
  intros H1 H2 H3. unfold MAXIMUM_CCID_MESSAGE_LENGTH, MAXIMUM_CCID_COMMAND_PAYLOAD_LENGTH,
    CCID_HEADER_SIZE in *.
  split; [apply block_message_frame; ulia|]. rewrite len_block_message.
  unfold message_limit, CCID_HEADER_SIZE. lia.
Qed.

(** The blocks of a long command all fit. *)
Lemma long_command_blocks data max_block first chain :
  1 <= max_block -> get_range data 0 max_block = Some first ->
  chunk_loop (length data) data max_block max_block [] = Some chain ->
  len first <= max_block /\ Forall (fun c => len c <= max_block) chain.
Proof.
  intros Hm Hf Hc. pose proof (get_range_len _ _ _ _ Hf).
  apply get_range_spec in Hf as (_ & Hl & _).
  destruct (chunk_loop_spec (length data) data max_block max_block []) as (ps & E & _ & Hb & _);
    [done|lia|unfold len; lia|].
  rewrite E in Hc. injection Hc as <-. split; [lia|done].
Qed.

(** A command sent whole fits. *)
Lemma whole_command_block e (data : bytes) :
  1 <= max_payload_length e ->
  len data <= match level e with
              | ShortAndExtendedApdu => MAXIMUM_CCID_COMMAND_PAYLOAD_LENGTH
              | _ => max_payload_length e
              end ->
  bool_decide (level e = ShortAndExtendedApdu) && (0 <? max_payload_length e) = false \/
  (max_payload_length e <? len data) = false ->
  len data <= max_payload_length e.
Proof.
  intros H1 H2 [H3|H3]; to_prop; [|lia]. destruct (level e); try done.
  rewrite bool_decide_eq_true_2 in H3 by done. destruct H3; [done|]. to_prop. lia.
Qed.

Lemma chain_within (buffer payload : bytes) :
  saturating_add USIZE_MAX (len buffer) (len payload) <= MAX_RESPONSE_PAYLOAD_SIZE ->
  len (buffer ++ payload) <= MAX_RESPONSE_PAYLOAD_SIZE.
Proof. rewrite len_app. unfold saturating_add, MAX_RESPONSE_PAYLOAD_SIZE. ulia. Qed.

(** Each message an engine submits. *)
Ltac sized_action :=
  lazymatch goal with
  | |- well_sized _ (SubmitBulkOut _ (encode_xfr_block _ _ _ _ _)) =>
      apply block_sized; [assumption|assumption|rewrite ?len_nil; first [assumption|lia]]
  | |- well_sized _ (SubmitBulkOut _ (encode_secure _ _ _ _ _)) =>
      apply block_sized; assumption
  | |- well_sized _ (SubmitBulkOut _ (encode_set_parameters_t0 _ _ _ _ _ _ _)) =>
      apply set_parameters_sized
  | |- well_sized _ (SubmitBulkOut _ _) => apply short_sized
  | |- _ => exact I
  end.

Lemma step_sized now ev e :
  sized e ->
  ends (step now ev e) (fun t e' =>
    (b_slot e', max_message_length e', max_payload_length e')
    = (b_slot e, max_message_length e, max_payload_length e) /\
    sized e' /\ Forall (well_sized e) (actions t)).
Proof.
  intros (H1 & H2 & H3 & H4 & H5). set (Q := fun t e' => _).
  step_ends Q; unfold sized; engine_facts;
    repeat match goal with
    | H : chunk_loop _ _ _ _ [] = Some _, F : get_range _ 0 _ = Some _ |- _ =>
        destruct (long_command_blocks _ _ _ _ H1 F H); clear H
    | H : outgoing_chain e = _ |- _ => rewrite H in *; apply List.Forall_cons_iff in H4 as [? ?]
    end;
    split_and!; try done; each_action; try sized_action.
  - apply block_sized; [done..|]. by eapply whole_command_block.
  - by apply chain_within.
  - by apply chain_within.
Qed.

(** *** No step panics while the clock has room *)

Definition CLOCK_MAX : Z := U64_MAX - DEFAULT_ENGINE_TIMEOUT_MS.

Lemma timeout_after_some now e :
  now <= CLOCK_MAX -> default_timeout_ms e = DEFAULT_ENGINE_TIMEOUT_MS ->
  timeout_after now e = Some (now + DEFAULT_ENGINE_TIMEOUT_MS).
Proof. intros Hn He. unfold timeout_after. rewrite He. apply checked_add_some. unfold CLOCK_MAX in Hn. lia. Qed.

(** The slices of a long command are in range. *)
Lemma encode_operation_some op seq e :
  1 <= max_payload_length e -> op <> Abort ->
  exists kind data resp chain wi,
    encode_operation op seq e
    = Some (kind, data, resp, set_outgoing_chain chain (set_pending_b_wi wi e)).
Proof.
  intros Hm Ho.
  assert (forall (kind : PendingOperation) (data : bytes) (resp : Z), exists chain wi,
    Some (kind, data, resp, e)
    = Some (kind, data, resp, set_outgoing_chain chain (set_pending_b_wi wi e))) as Hsame.
  { intros. exists (outgoing_chain e), (pending_b_wi e). by destruct e. }
  destruct op as [v| | | |a b c d i|w l data|w l data|]; cbn [encode_operation];
    try (do 3 eexists; apply Hsame); [|done].
  case_if; [|do 3 eexists; apply Hsame].
  destruct (get_range data 0 (max_payload_length e)) as [first|] eqn:Eg.
  2:{ unfold get_range in Eg. case_match_in Eg; [done|]. lia. }
  destruct (chunk_loop_spec (length data) data (max_payload_length e) (max_payload_length e) [])
    as (ps & E1 & _); [lia|lia|unfold len; lia|].
  cbn [mbind option_bind]. change (outgoing_chain (set_pending_b_wi _ _)) with (@nil bytes).
  rewrite E1. eexists _, _, _, ([] ++ ps), w. done.
Qed.

Lemma on_start_total now i op e :
  now <= CLOCK_MAX -> default_timeout_ms e = DEFAULT_ENGINE_TIMEOUT_MS ->
  1 <= max_payload_length e -> is_Some (on_start now i op e).
Proof.
  intros Hn Hd Hm. unfold on_start. destruct (start_refusal op e); [by eexists|].
  unfold allocate_seq. engine_cbn.
  assert (forall seq e', timeout_after now e' = Some (now + DEFAULT_ENGINE_TIMEOUT_MS) ->
    is_Some (start_abort now i seq e')) as Ha.
  { intros seq e' He. unfold start_abort. unfold timeout_after in *. engine_cbn.
    rewrite He. by eexists. }
  destruct (decide (op = Abort)) as [->|Ho].
  - apply Ha. by apply timeout_after_some.
  - set (e1 := set_expected_seq _ _).
    destruct (encode_operation_some op (next_seq e) e1) as (k & data & resp & ch & wi & E);
      [done|done|].
    replace (match op with Abort => _ | _ => _ end) with (start_command now i op (next_seq e) e1)
      by by destruct op.
    unfold start_command. rewrite E. cbn [mbind option_bind].
    rewrite timeout_after_some by done. by eexists.
Qed.

Lemma fall_total acts next e : is_Some (fall acts next e).
Proof. by eexists. Qed.

Lemma on_bulk_in_total now frame e :
  now <= CLOCK_MAX -> default_timeout_ms e = DEFAULT_ENGINE_TIMEOUT_MS ->
  is_Some (on_bulk_in now frame e).
Proof.
  intros Hn Hd. unfold on_bulk_in. destruct (pending_op e) as [[i k]|]; [|by eexists].
  pose proof (decode_response_no_panic frame (expected_response_type (set_pending_op None e))
    (b_slot (set_pending_op None e)) (expected_seq (set_pending_op None e))) as Hp.
  destruct (decode_response _ _ _ _) as [r|[err|]]; [|unfold on_bad_frame; by case_if|done].
  destruct r as [cs cp pl|cs ck|cs pn pl|cs ec|cs m].
  - unfold on_data_block. case_if; [by eexists|]. destruct cp.
    + unfold on_chain_complete. repeat (case_if; [by eexists|]). by destruct (data_result _ _ _).
    + unfold on_chain_begin, extend_chain. repeat (case_if; [by eexists|]). by eexists.
    + unfold on_chain_end. repeat (case_if; [by eexists|]). by destruct (data_result _ _ _).
    + unfold on_chain_continue, extend_chain. repeat (case_if; [by eexists|]). by eexists.
    + unfold on_command_continuation. destruct (outgoing_chain _); [by eexists|].
      unfold allocate_seq. rewrite timeout_after_some by done. by eexists.
  - unfold on_slot_status. by destruct k; eexists.
  - by eexists.
  - by eexists.
  - unfold on_time_extension. case_if; by eexists.
Qed.

Lemma step_total now ev e :
  now <= CLOCK_MAX -> default_timeout_ms e = DEFAULT_ENGINE_TIMEOUT_MS ->
  1 <= max_payload_length e -> is_u8 (engine_max_slot_index e) -> is_Some (step now ev e).
Proof.
  intros Hn Hd Hm Hs. destruct ev as [i op|[frame|n| |err]|raw|d|i|]; cbn [step].
  - by apply on_start_total.
  - by apply on_bulk_in_total.
  - unfold on_bulk_out. case_if; [|by eexists]. destruct (pending_op e) as [[]|]; by eexists.
  - unfold on_control. destruct (pending_op e) as [[? []]|]; by eexists.
  - unfold on_failure. destruct (pending_op _) as [[]|]; by eexists.
  - unfold on_interrupt, on_hardware_error, on_slot_change.
    pose proof (decode_interrupt_hardware_error_no_panic raw) as H1.
    pose proof (decode_interrupt_slot_change_no_panic raw _ Hs) as H2.
    case_if.
    + destruct (decode_interrupt_hardware_error raw) as [h|[|]]; [|by eexists|done].
      case_if; [|by eexists]. destruct (pending_op _) as [[]|]; by eexists.
    + destruct (decode_interrupt_slot_change raw _) as [n|[|]]; [|by eexists|done].
      case_if; [|by eexists]. case_if; [|by eexists]. destruct (pending_op _) as [[]|]; by eexists.
  - unfold on_deadline. destruct (current_deadline e); [|by eexists]. case_if; [|by eexists].
    destruct (pending_op e) as [[]|]; by eexists.
  - unfold on_cancel. case_if; by eexists.
  - unfold on_connection_lost. destruct (pending_op _) as [[]|]; by eexists.
Qed.

(** *** Runs *)

(** What holds of every engine built from a descriptor, at a time. *)
Definition sound_engine (clock : Z) (e : CcidEngine) : Prop :=
  timed clock e /\ sized e /\ recovering e /\ is_u8 (engine_max_slot_index e).

Lemma step_slot_index now ev e :
  ends (step now ev e) (fun _ e' => engine_max_slot_index e' = engine_max_slot_index e).
Proof. set (Q := fun t e' => _). by step_ends Q. Qed.

Lemma ends_some o t e (Q : Transition -> CcidEngine -> Prop) : ends o Q -> o = Some (t, e) -> Q t e.
Proof. by intros H ->. Qed.

Lemma step_sound clock now ev e :
  sound_engine clock e -> clock <= now <= CLOCK_MAX ->
  exists t e', step now ev e = Some (t, e') /\ sound_engine now e' /\
    Forall (well_sized e) (actions t) /\
    (b_slot e', max_message_length e') = (b_slot e, max_message_length e).
Proof.
  intros (Ht & Hs & Hr & Hi) [Hc Hn].
  destruct (step_total now ev e) as [[t e'] E]; [done|apply Ht|apply Hs|done|].
  exists t, e'. split; [done|].
  destruct (ends_some _ _ _ _ (step_sized now ev e Hs) E) as ([= ? ? ?] & Hs' & Ha).
  split_and!; [|done|congruence]. split_and!; [|done| |].
  - by apply (ends_some _ _ _ _ (step_timed clock now ev e Ht Hc) E).
  - by apply (ends_some _ _ _ _ (step_recovering now ev e Hr) E).
  - by rewrite (ends_some _ _ _ _ (step_slot_index now ev e) E).
Qed.

(** Times that do not run backwards, and leave room for a timeout. *)
Fixpoint steady (clock : Z) (events : list (MonotonicTime * InputEvent)) : bool :=
  match events with
  | [] => true
  | (now, _) :: rest => (clock <=? now) && (now <=? CLOCK_MAX) && steady now rest
  end.

Fixpoint last_time (clock : Z) (events : list (MonotonicTime * InputEvent)) : Z :=
  match events with [] => clock | (now, _) :: rest => last_time now rest end.

Lemma well_sized_config e e' a :
  (b_slot e', max_message_length e') = (b_slot e, max_message_length e) ->
  well_sized e' a -> well_sized e a.
Proof.
  intros [= H1 H2]. unfold well_sized, message_limit. by rewrite H1, H2.
Qed.

Lemma run_sound clock events e :
  sound_engine clock e -> steady clock events = true ->
  exists acts e', run events e = Some (acts, e') /\ sound_engine (last_time clock events) e' /\
    Forall (well_sized e) acts.
Proof.
  revert clock e. induction events as [|[now ev] events IH]; intros clock e He Hs.
  { exists [], e. by split_and!. }
  cbn [steady] in Hs. to_prop. cbn [run last_time].
  destruct (step_sound clock now ev e He) as (t & e1 & E1 & He1 & Ha & Hc); [done|].
  destruct (IH now e1 He1) as (acts & e2 & E2 & He2 & Ha2); [done|].
  rewrite E1. cbn [mbind option_bind]. rewrite E2. cbn [mbind option_bind].
  exists (actions t ++ acts), e2. split_and!; [done|done|]. apply Forall_app. split; [done|].
  revert Ha2. apply List.Forall_impl. intros a. by apply well_sized_config.
Qed.

Lemma answered_app i acts acts' :
  answered i (acts ++ acts') = (answered i acts + answered i acts')%nat.
Proof. unfold answered. by rewrite map_app, sum_list_with_app. Qed.

Lemma run_conserves events e acts e' i :
  run events e = Some (acts, e') ->
  (started i events + pending_count i e = answered i acts + pending_count i e')%nat.
Proof.
  revert e acts. induction events as [|[now ev] events IH]; intros e acts H; cbn [run] in H.
  { injection H as <- <-. done. }
  destruct (step now ev e) as [[t e1]|] eqn:E1; [|done]. cbn [mbind option_bind] in H.
  destruct (run events e1) as [[acts2 e2]|] eqn:E2; [|done]. injection H as <- <-.
  pose proof (ends_some _ _ _ _ (step_conserves now ev e i) E1). specialize (IH _ _ E2).
  rewrite answered_app. change (started i ((now, ev) :: events))
    with (starts i ev + started i events)%nat. cbv beta in *. lia.
Qed.

Lemma run_quarantined events e acts e' :
  recovering e -> needs_recovery e = true -> run events e = Some (acts, e') ->
  existsb is_abort_result acts = false ->
  Forall (only_aborts (b_slot e)) acts /\ needs_recovery e' = true.
Proof.
  revert e acts. induction events as [|[now ev] events IH]; intros e acts Hr Hn H Ha; cbn [run] in H.
  { injection H as <- <-. by split. }
  destruct (step now ev e) as [[t e1]|] eqn:E1; [|done]. cbn [mbind option_bind] in H.
  destruct (run events e1) as [[acts2 e2]|] eqn:E2; [|done]. injection H as <- <-.
  rewrite existsb_app in Ha. apply orb_false_iff in Ha as [Ha1 Ha2].
  destruct (ends_some _ _ _ _ (step_quarantined now ev e Hr Hn) E1) as (Hb & Hf & Hn1).
  destruct (IH e1 acts2) as [Hf2 Hn2]; [|by apply Hn1|done|done|].
  - by apply (ends_some _ _ _ _ (step_recovering now ev e Hr) E1).
  - split; [|done]. apply Forall_app. by rewrite <- Hb at 2.
Qed.

Lemma new_sound interface_number slot gen bs d :
  all_bytes bs -> parse_functional_descriptor bs = Ok d ->
  sound_engine 0 (CcidEngine_new interface_number slot gen d).
Proof.
  intros Hb Hd. pose proof (parsed_bounds _ _ Hd) as (H1 & _ & H2 & H3 & _).
  split_and!; [|split_and!|done|by eapply parsed_slot_index]; done.
Qed.

(** *** The data of a command *)

(** What the messages to the reader carry after their headers. *)
Definition payload_of (a : Action) : bytes :=
  match a with SubmitBulkOut _ data => drop 10 data | _ => [] end.
Definition payloads (acts : list Action) : bytes := concat (map payload_of acts).

Definition is_start (ev : InputEvent) : bool := match ev with Start _ _ => true | _ => false end.

Lemma payloads_app acts acts' : payloads (acts ++ acts') = payloads acts ++ payloads acts'.
Proof. unfold payloads. by rewrite map_app, concat_app. Qed.

Lemma drop_block_message mt slot seq w l block : drop 10 (block_message mt slot seq w l block) = block.
Proof.
  unfold block_message. set (a := le_bytes 4 _). set (b := le_bytes 2 _).
  assert (length a = 4%nat /\ length b = 2%nat) as [Ha Hb].
  { unfold a, b, le_bytes. by rewrite !length_rev, !length_be_bytes. }
  destruct a as [|? [|? [|? [|? []]]]], b as [|? [|? []]]; done.
Qed.

(** Between two starts, what is sent is what was left to send, in order; what is
    given up is given up with the operation. *)
Lemma step_sends_in_order now ev e :
  is_start ev = false ->
  ends (step now ev e) (fun t e' =>
    exists given_up, payloads (actions t) ++ concat (outgoing_chain e') ++ given_up
                     = concat (outgoing_chain e) /\
      (is_some (pending_op e') = true -> given_up = [] /\ is_some (pending_op e) = true)).
Proof.
  intros Hs. set (Q := fun t e' => _). step_ends Q; try done;
    unfold payloads; cbn [map concat payload_of]; rewrite ?app_nil_r, ?app_nil_l;
    try (exists []; by rewrite app_nil_r);
    try (eexists; split; [reflexivity|done]).
  exists []. unfold encode_xfr_block. rewrite drop_block_message, Heql, app_nil_r. done.
Qed.

Lemma run_sends_in_order events e acts e' :
  existsb (fun ev => is_start ev.2) events = false -> run events e = Some (acts, e') ->
  exists given_up, payloads acts ++ concat (outgoing_chain e') ++ given_up
                   = concat (outgoing_chain e) /\
    (is_some (pending_op e') = true -> given_up = [] /\ is_some (pending_op e) = true).
Proof.
  revert e acts. induction events as [|[now ev] events IH]; intros e acts Hs H; cbn [run] in H.
  { injection H as <- <-. exists []. by rewrite app_nil_r. }
  cbn [existsb snd] in Hs. apply orb_false_iff in Hs as [Hs1 Hs2].
  destruct (step now ev e) as [[t e1]|] eqn:E1; [|done]. cbn [mbind option_bind] in H.
  destruct (run events e1) as [[acts2 e2]|] eqn:E2; [|done]. injection H as <- <-.
  destruct (ends_some _ _ _ _ (step_sends_in_order now ev e Hs1) E1) as (g1 & H1 & P1).
  destruct (IH e1 acts2 Hs2 E2) as (g2 & H2 & P2).
  exists (g2 ++ g1). split.
  - rewrite payloads_app, <- H1, <- H2. by rewrite <- !app_assoc.
  - intros Hp. destruct (P2 Hp) as [-> Hp1]. by destruct (P1 Hp1) as [-> ?].
Qed.

(** The first message of an accepted transfer and the blocks kept for later. *)
Lemma start_transfer now i w l data e :
  sized e -> pending_op e = None ->
  ends (step now (Start i (TransferBlock w l data)) e) (fun t e1 =>
    is_some (pending_op e1) = true -> payloads (actions t) ++ concat (outgoing_chain e1) = data).
Proof.
  intros Hs Hn. set (Q := fun t e1 => _).
  step_ends Q; unfold payloads; cbn [map concat payload_of]; unfold encode_xfr_block;
    rewrite ?drop_block_message, ?app_nil_r; try done; intros _.
  match goal with H : get_range _ 0 _ = Some _ |- _ => apply get_range_spec in H as (Hz & Hl & ->) end.
  destruct (chunk_loop_spec (length data) data (max_payload_length e) (max_payload_length e) [])
    as (ps & Ec & Hc & _); [apply Hs|lia|unfold len in *; lia|].
  rewrite Ec in *. simplify_eq. cbn [app]. rewrite Hc, Z.sub_0_r. apply take_drop.
Qed.

(** *** The blocks of a response *)

(** A data block of an active card. *)
Definition chain_frame (slot seq param : Z) (payload : bytes) : bytes :=
  response_wire RDR_TO_PC_DATA_BLOCK slot seq 0 0 param payload.

Lemma decode_chain_frame slot seq param chain payload :
  len payload <= MAX_RESPONSE_PAYLOAD_SIZE -> chain_parameter_of param = Some chain ->
  decode_response (chain_frame slot seq param payload) RDR_TO_PC_DATA_BLOCK slot seq
  = Ok (DataBlock Active chain payload).
Proof.
  intros Hl Hc. unfold chain_frame. rewrite decode_response_fields by done.
  unfold decode_fields. cbn -[decode_succeeded response_wire].
  apply decode_succeeded_exact. by rewrite Hc.
Qed.

(** An engine that awaits a data block of operation [i]. *)
Definition receiving (i : OperationId) (buffer : bytes) (seq next : Z) (e : CcidEngine) : Prop :=
  pending_op e = Some (i, P_TransferBlock) /\ expected_response_type e = RDR_TO_PC_DATA_BLOCK /\
  chain_buffer e = buffer /\ expected_seq e = seq /\ next_seq e = next.

Definition is_completion (a : Action) : bool := match a with CompleteOp _ _ => true | _ => false end.

(** A block that continues the chain, and the request for the next one. *)
Lemma receive_block now i buffer seq next e param chain payload :
  receiving i buffer seq next e -> chain_parameter_of param = Some chain ->
  (chain = Begin /\ buffer = [] \/ chain = Continue /\ buffer <> []) ->
  len (buffer ++ payload) <= MAX_RESPONSE_PAYLOAD_SIZE ->
  exists acts e',
    run [(now, IoCompleted (BulkIn (chain_frame (b_slot e) seq param payload)));
         (now, IoCompleted (BulkOut CCID_HEADER_SIZE))] e = Some (acts, e') /\
    List.filter is_completion acts = [] /\ b_slot e' = b_slot e /\
    receiving i (buffer ++ payload) next (wrapping_add U8_MAX next 1) e'.
Proof.
  intros (Hp & Ht & Hb & Hs & Hn) Hc Hch Hl. cbn [run step]. unfold on_bulk_in. rewrite Hp.
  engine_cbn. pose proof (len_nonneg buffer). pose proof (len_nonneg payload).
  rewrite Ht, Hs, (decode_chain_frame _ _ _ chain) by (done || (rewrite len_app in Hl; lia)).
  unfold on_data_block. rewrite bool_decide_eq_false_2 by done.
  assert (match chain with
    | Begin => on_chain_begin i P_TransferBlock payload (set_pending_op None e)
    | Continue => on_chain_continue i P_TransferBlock payload (set_pending_op None e)
    | End_ => on_chain_end i P_TransferBlock payload (set_pending_op None e)
    | Complete => on_chain_complete i P_TransferBlock payload (set_pending_op None e)
    | CommandContinuationExpected => on_command_continuation now i P_TransferBlock (set_pending_op None e)
    end = extend_chain i P_TransferBlock payload (set_pending_op None e)) as ->.
  { unfold on_chain_begin, on_chain_continue. engine_cbn. rewrite Hb.
    destruct Hch as [[-> ->]|[-> Hne]]; [done|]. by destruct buffer. }
  unfold extend_chain. engine_cbn. rewrite Hb.
  replace (saturating_add _ _ _ >? _) with false
    by (rewrite len_app in Hl; unfold saturating_add, MAX_RESPONSE_PAYLOAD_SIZE in *; ulia).
  unfold allocate_seq, fall. cbn [mbind option_bind]. unfold on_bulk_out. engine_cbn.
  unfold encode_xfr_block. rewrite len_block_message. change (@len Z []) with 0.
  rewrite Z.add_0_r, Z.eqb_refl.
  eexists _, _. split; [done|]. unfold receiving. engine_cbn. by rewrite Hn.
Qed.

(** The blocks after the first, each followed by the transfer of the request for
    the next. *)
Fixpoint block_events (now slot seq next : Z) (ps : list bytes) : list (MonotonicTime * InputEvent) :=
  match ps with
  | [] => []
  | [p] => [(now, IoCompleted (BulkIn (chain_frame slot seq CHAIN_END p)))]
  | p :: ps =>
      (now, IoCompleted (BulkIn (chain_frame slot seq CHAIN_CONTINUE p)))
      :: (now, IoCompleted (BulkOut CCID_HEADER_SIZE))
      :: block_events now slot next (wrapping_add U8_MAX next 1) ps
  end.

Lemma run_both events events' e acts e1 acts' e2 :
  run events e = Some (acts, e1) -> run events' e1 = Some (acts', e2) ->
  run (events ++ events') e = Some (acts ++ acts', e2).
Proof.
  revert e acts. induction events as [|[now ev] events IH]; intros e acts E1 E2; cbn [run app] in *.
  - by injection E1 as <- <-.
  - destruct (step now ev e) as [[t e']|]; [|done]. cbn [mbind option_bind] in *.
    destruct (run events e') as [[acts1 e1']|] eqn:E; [|done]. injection E1 as <- <-.
    rewrite (IH _ _ E E2). cbn. by rewrite app_assoc.
Qed.

Lemma receive_blocks now i ps : forall buffer seq next e,
  receiving i buffer seq next e -> buffer <> [] -> ps <> [] ->
  len (buffer ++ concat ps) <= MAX_RESPONSE_PAYLOAD_SIZE ->
  exists acts e',
    run (block_events now (b_slot e) seq next ps) e = Some (acts, e') /\
    List.filter is_completion acts = [CompleteOp i (Ok (R_TransferBlock (buffer ++ concat ps)))] /\
    pending_op e' = None.
Proof.
  induction ps as [|p ps IH]; intros buffer seq next e Hr Hb Hne Hl; [done|].
  destruct ps as [|p' ps].
  - cbn [block_events concat] in *. rewrite app_nil_r in *. destruct Hr as (Hp & Ht & Hc & Hs & Hn).
    cbn [run step]. unfold on_bulk_in. rewrite Hp. engine_cbn.
    pose proof (len_nonneg buffer). pose proof (len_nonneg p).
    rewrite Ht, Hs, (decode_chain_frame _ _ _ End_) by (done || (rewrite len_app in Hl; lia)).
    unfold on_data_block. rewrite bool_decide_eq_false_2 by done.
    unfold on_chain_end. engine_cbn. rewrite Hc.
    replace (is_empty buffer) with false by by destruct buffer.
    replace (saturating_add _ _ _ >? _) with false
      by (rewrite len_app in Hl; unfold saturating_add, MAX_RESPONSE_PAYLOAD_SIZE in *; ulia).
    cbn [data_result mbind option_bind fall]. by eexists _, _.
  - cbn [concat] in Hl. rewrite app_assoc in Hl.
    destruct (receive_block now i buffer seq next e CHAIN_CONTINUE Continue p)
      as (acts1 & e1 & E1 & F1 & S1 & R1); [done|done|by right| |].
    { rewrite len_app in Hl. pose proof (len_nonneg (p' ++ concat ps)). lia. }
    destruct (IH (buffer ++ p) next (wrapping_add U8_MAX next 1) e1) as (acts2 & e2 & E2 & F2 & P2);
      [done|by destruct buffer|done|done|].
    exists (acts1 ++ acts2), e2. split_and!; [|..|done].
    { rewrite S1 in E2. exact (run_both _ _ _ _ _ _ _ E1 E2). }
    rewrite List.filter_app, F1, F2. cbn [concat app]. by rewrite !app_assoc.
Qed.

(** ** Properties *)

(** The data of a command leaves in order and without gap or repetition: from
    the moment a transfer is accepted, whatever the reader and the bus do, the
    payloads of all messages sent make a prefix of the command, and what is
    missing while the operation is pending is exactly what the engine still has
    to send. *)
Theorem command_sent_in_order (now i w l : Z) (data : bytes) (e e1 e2 : CcidEngine) (t : Transition)
    (events : list (MonotonicTime * InputEvent)) (acts : list Action) :
  sized e -> pending_op e = None ->
  step now (Start i (TransferBlock w l data)) e = Some (t, e1) ->
  pending_op e1 = Some (i, P_TransferBlock) ->
  existsb (fun ev => is_start ev.2) events = false -> run events e1 = Some (acts, e2) ->
  exists missing, payloads (actions t ++ acts) ++ missing = data /\
    (is_some (pending_op e2) = true -> missing = concat (outgoing_chain e2)).
Proof.
  intros Hs Hn E1 Hp Hst E2.
  destruct (run_sends_in_order _ _ _ _ Hst E2) as (g & Hg & Pg).
  exists (concat (outgoing_chain e2) ++ g). split.
  - rewrite payloads_app, <- app_assoc, Hg.
    apply (ends_some _ _ _ _ (start_transfer now i w l data e Hs Hn) E1). by rewrite Hp.
  - intros Hp2. destruct (Pg Hp2) as [-> _]. by rewrite app_nil_r.
Qed.

(** A response that the reader splits is put together again: a first block that
    is not empty, blocks that continue it and a last one, each under the number
    of the request it answers, complete the transfer once, with the blocks'
    bytes in order. *)
Theorem response_reassembled (now i : Z) (e : CcidEngine) (first : bytes) (rest : list bytes) :
  pending_op e = Some (i, P_TransferBlock) -> expected_response_type e = RDR_TO_PC_DATA_BLOCK ->
  chain_buffer e = [] -> first <> [] -> rest <> [] ->
  len (first ++ concat rest) <= MAX_RESPONSE_PAYLOAD_SIZE ->
  exists acts e',
    run ([(now, IoCompleted (BulkIn (chain_frame (b_slot e) (expected_seq e) CHAIN_BEGIN first)));
          (now, IoCompleted (BulkOut CCID_HEADER_SIZE))]
         ++ block_events now (b_slot e) (next_seq e) (wrapping_add U8_MAX (next_seq e) 1) rest) e
    = Some (acts, e') /\
    List.filter is_completion acts = [CompleteOp i (Ok (R_TransferBlock (first ++ concat rest)))] /\
    pending_op e' = None.
Proof.
  intros Hp Ht Hb Hf Hr Hl.
  destruct (receive_block now i [] (expected_seq e) (next_seq e) e CHAIN_BEGIN Begin first)
    as (acts1 & e1 & E1 & F1 & S1 & R1); [done|done|by left| |].
  { rewrite len_app in Hl. cbn [app]. pose proof (len_nonneg (concat rest)). lia. }
  destruct (receive_blocks now i rest first (next_seq e) (wrapping_add U8_MAX (next_seq e) 1) e1)
    as (acts2 & e2 & E2 & F2 & P2); [done..|].
  rewrite S1 in E2. exists (acts1 ++ acts2), e2.
  split_and!; [exact (run_both _ _ _ _ _ _ _ E1 E2)| |done]. by rewrite List.filter_app, F1, F2.
Qed.

Section Properties.
Variables interface_number slot gen : Z.
Variables (bs : bytes) (d : CcidFunctionalDescriptor).

(** C14 An engine built from a parsed descriptor and fed any events at times
    that do not run backwards never panics, and answers each operation exactly
    once: for every identifier the completions are as many as the starts, less
    the one operation that may still be pending. *)
Theorem operations_answered_once (events : list (MonotonicTime * InputEvent)) :
  all_bytes bs -> parse_functional_descriptor bs = Ok d -> steady 0 events = true ->
  exists acts e, run events (CcidEngine_new interface_number slot gen d) = Some (acts, e) /\
    forall i, started i events = (answered i acts + pending_count i e)%nat.
Proof.
  intros Hb Hd Hs.
  destruct (run_sound 0 events _ (new_sound interface_number slot gen bs d Hb Hd) Hs)
    as (acts & e & E & _). exists acts, e. split; [done|]. intros i.
  pose proof (run_conserves _ _ _ _ i E) as H. cbn in H. lia.
Qed.

(** After any run, an operation that is pending has a deadline at most ten
    seconds after the last event, and the expiry of that deadline, whatever the
    reader does, completes the operation as timed out and leaves the slot in
    need of recovery. *)
Theorem pending_operation_times_out (events : list (MonotonicTime * InputEvent))
    (acts : list Action) (e : CcidEngine) (i : OperationId) (kind : PendingOperation) :
  all_bytes bs -> parse_functional_descriptor bs = Ok d -> steady 0 events = true ->
  run events (CcidEngine_new interface_number slot gen d) = Some (acts, e) ->
  pending_op e = Some (i, kind) ->
  exists dl, current_deadline e = Some dl /\
    expires_at dl <= last_time 0 events + MAX_TIME_EXTENSION_WALL_MS /\
    forall now, expires_at dl <= now ->
      exists e', step now (DeadlineExpired (id dl)) e
        = Some (MkTransition [CancelTransfers; CompleteOp i (Err Timeout)] None, e') /\
        pending_op e' = None /\ needs_recovery e' = true.
Proof.
  intros Hb Hd Hs E Hp.
  destruct (run_sound 0 events _ (new_sound interface_number slot gen bs d Hb Hd) Hs)
    as (acts' & e1 & E' & (Ht & _) & _). rewrite E in E'. injection E' as <- <-.
  destruct Ht as [_ Ht]. rewrite Hp in Ht. destruct (current_deadline e) as [dl|] eqn:Ec; [|done].
  exists dl. split_and!; [done|lia|]. intros now Hn. cbn [step]. unfold on_deadline.
  rewrite Ec, Z.eqb_refl. replace (now >=? expires_at dl) with true by lia. rewrite Hp.
  by eexists.
Qed.

(** Once an engine needs recovery, and until an abort has completed, nothing
    but abort messages goes to the reader, whatever is asked and whatever
    arrives; and the need for recovery stays. *)
Theorem recovery_only_by_abort (events events' : list (MonotonicTime * InputEvent))
    (acts acts' : list Action) (e e' : CcidEngine) :
  all_bytes bs -> parse_functional_descriptor bs = Ok d -> steady 0 events = true ->
  run events (CcidEngine_new interface_number slot gen d) = Some (acts, e) ->
  needs_recovery e = true -> run events' e = Some (acts', e') ->
  existsb is_abort_result acts' = false ->
  Forall (only_aborts (b_slot e)) acts' /\ needs_recovery e' = true.
Proof.
  intros Hb Hd Hs E Hn E' Ha.
  destruct (run_sound 0 events _ (new_sound interface_number slot gen bs d Hb Hd) Hs)
    as (acts1 & e1 & E1 & (_ & _ & Hr & _) & _). rewrite E in E1. injection E1 as <- <-.
  by eapply run_quarantined.
Qed.

(** Every message an engine sends is for its slot, carries the number it
    awaits the reply under, declares the length of its payload, and is no longer
    than the reader's declared maximum (or the fifteen bytes of a parameter
    setting). *)
Theorem messages_fit_the_reader (events : list (MonotonicTime * InputEvent)) :
  all_bytes bs -> parse_functional_descriptor bs = Ok d -> steady 0 events = true ->
  exists acts e, run events (CcidEngine_new interface_number slot gen d) = Some (acts, e) /\
    forall seq data, In (SubmitBulkOut seq data) acts ->
      command_frame slot seq data = true /\ len data <= Z.max (maximum_message_length d) 15.
Proof.
  intros Hb Hd Hs.
  destruct (run_sound 0 events _ (new_sound interface_number slot gen bs d Hb Hd) Hs)
    as (acts & e & E & _ & Ha). exists acts, e. split; [done|]. intros seq data Hin.
  rewrite List.Forall_forall in Ha. apply (Ha _ Hin).
Qed.

End Properties.

(** A reader, and a run in which an exchange goes unanswered. *)
Definition sample_descriptor : CcidFunctionalDescriptor := MkDescriptor ShortApdu 271 0 132144 3 1.
Definition stalled_run : list (MonotonicTime * InputEvent) :=
  [(0, Start 1 (PowerOn 0)); (1, IoCompleted (BulkOut 10));
   (5, IoCompleted (BulkIn [128; 2; 0; 0; 0; 0; 0; 0; 0; 0; 59; 0]));
   (6, Start 2 (TransferBlock 0 0 [0; 164; 0; 0])); (7, IoCompleted (BulkOut 14))].

Lemma sample_bytes : all_bytes sample_class_descriptor.
Proof. apply all_bytesb_spec. by vm_compute. Qed.

(** A reader that takes whole extended commands in blocks of 261 bytes, idle. *)
Definition extended_reader : CcidEngine :=
  CcidEngine_new 0 0 1 (MkDescriptor ShortAndExtendedApdu 271 0 262192 3 0).

Lemma command_sent_in_order_witness :
  exists t e1 acts e2 missing,
    step 0 (Start 1 (TransferBlock 0 0 (repeat 7 600))) extended_reader = Some (t, e1) /\
    run [(1, IoCompleted (BulkOut 271));
         (2, IoCompleted (BulkIn (chain_frame 0 0 CHAIN_COMMAND_CONTINUATION_EXPECTED [])))] e1
    = Some (acts, e2) /\
    payloads (actions t ++ acts) ++ missing = repeat 7 600 /\ missing = repeat 7 78.
Proof.
  destruct (step 0 (Start 1 (TransferBlock 0 0 (repeat 7 600))) extended_reader) as [[t e1]|] eqn:E1;
    [|vm_compute in E1; discriminate E1].
  destruct (run [(1, IoCompleted (BulkOut 271));
    (2, IoCompleted (BulkIn (chain_frame 0 0 CHAIN_COMMAND_CONTINUATION_EXPECTED [])))] e1)
    as [[acts e2]|] eqn:E2;
    [|vm_compute in E1; injection E1 as <- <-; vm_compute in E2; discriminate E2].
  destruct (command_sent_in_order 0 1 0 0 (repeat 7 600) extended_reader e1 e2 t
    [(1, IoCompleted (BulkOut 271));
     (2, IoCompleted (BulkIn (chain_frame 0 0 CHAIN_COMMAND_CONTINUATION_EXPECTED [])))] acts)
    as (missing & H1 & H2).
  - split_and!; [by vm_compute..|by constructor|by vm_compute].
  - reflexivity.
  - exact E1.
  - vm_compute in E1. injection E1 as <- <-. reflexivity.
  - reflexivity.
  - exact E2.
  - exists t, e1, acts, e2, missing. split_and!; [done|done|done|].
    vm_compute in E1. injection E1 as <- <-. vm_compute in E2. injection E2 as <- <-.
    rewrite H2 by reflexivity. reflexivity.
Defined.

Lemma response_reassembled_witness :
  exists e acts e',
    run stalled_run (CcidEngine_new 0 0 1 sample_descriptor) = Some e /\
    run ([(8, IoCompleted (BulkIn (chain_frame 0 1 CHAIN_BEGIN [1; 2])));
          (8, IoCompleted (BulkOut CCID_HEADER_SIZE))]
         ++ block_events 8 0 2 3 [[3]; [144; 0]]) e.2 = Some (acts, e') /\
    List.filter is_completion acts = [CompleteOp 2 (Ok (R_TransferBlock [1; 2; 3; 144; 0]))].
Proof.
  destruct (run stalled_run (CcidEngine_new 0 0 1 sample_descriptor)) as [[acts0 e]|] eqn:E;
    [|vm_compute in E; discriminate E].
  destruct (response_reassembled 8 2 e [1; 2] [[3]; [144; 0]]) as (acts & e' & H1 & H2 & _);
    try done; try (vm_compute in E; injection E as <- <-; reflexivity).
  exists (acts0, e), acts, e'. split_and!; [done| |done].
  rewrite <- H1. vm_compute in E. injection E as <- <-. reflexivity.
Defined.

Lemma operations_answered_once_witness :
  exists acts e, run stalled_run (CcidEngine_new 0 0 1 sample_descriptor) = Some (acts, e) /\
    forall i, started i stalled_run = (answered i acts + pending_count i e)%nat.
Proof.
  apply (operations_answered_once 0 0 1 sample_class_descriptor sample_descriptor);
    [apply sample_bytes|by vm_compute..].
Defined.

Lemma pending_operation_times_out_witness :
  exists acts e dl, run stalled_run (CcidEngine_new 0 0 1 sample_descriptor) = Some (acts, e) /\
    current_deadline e = Some dl /\ expires_at dl <= 10007.
Proof.
  destruct (run stalled_run (CcidEngine_new 0 0 1 sample_descriptor)) as [[acts e]|] eqn:E;
    [|vm_compute in E; discriminate E].
  destruct (pending_operation_times_out 0 0 1 sample_class_descriptor sample_descriptor stalled_run
    acts e 2 P_TransferBlock) as (dl & H1 & H2 & _);
    [apply sample_bytes|by vm_compute|by vm_compute|exact E| |].
  - vm_compute in E. injection E as <- <-. reflexivity.
  - exists acts, e, dl. by split_and!.
Defined.

Lemma recovery_only_by_abort_witness :
  exists acts e acts' e',
    run (stalled_run ++ [(6000, DeadlineExpired 2)]) (CcidEngine_new 0 0 1 sample_descriptor)
    = Some (acts, e) /\
    run [(6001, Start 3 (TransferBlock 0 0 [0; 164; 0; 0])); (6002, Start 4 Abort);
         (6003, IoCompleted Control)] e = Some (acts', e') /\
    Forall (only_aborts 0) acts' /\ needs_recovery e' = true.
Proof.
  destruct (run (stalled_run ++ [(6000, DeadlineExpired 2)]) (CcidEngine_new 0 0 1 sample_descriptor))
    as [[acts e]|] eqn:E; [|vm_compute in E; discriminate E].
  destruct (run [(6001, Start 3 (TransferBlock 0 0 [0; 164; 0; 0])); (6002, Start 4 Abort);
         (6003, IoCompleted Control)] e) as [[acts' e']|] eqn:E';
    [|vm_compute in E; injection E as <- <-; vm_compute in E'; discriminate E'].
  exists acts, e, acts', e'. split_and!; [done|done|..].
  all: pose proof E as E0; vm_compute in E0; injection E0 as H1 H2; pose proof E' as E1;
    rewrite <- H2 in E1; vm_compute in E1; injection E1 as H3 H4.
  - replace 0 with (b_slot e) by (by rewrite <- H2).
    eapply (recovery_only_by_abort 0 0 1 sample_class_descriptor sample_descriptor);
      [apply sample_bytes|..|exact E| |exact E'|]; [by vm_compute..| |].
    + by rewrite <- H2.
    + by rewrite <- H3.
  - by rewrite <- H4.
Defined.

Lemma messages_fit_the_reader_witness :
  exists acts e, run stalled_run (CcidEngine_new 0 0 1 sample_descriptor) = Some (acts, e) /\
    forall seq data, In (SubmitBulkOut seq data) acts ->
      command_frame 0 seq data = true /\ len data <= Z.max 271 15.
Proof.
  apply (messages_fit_the_reader 0 0 1 sample_class_descriptor sample_descriptor);
    [apply sample_bytes|by vm_compute..].
Defined.

End Engine.
