(* ===== verification/CcidTransport.v ===== *)
(** * The CCID card transport

    crates/ccid/src/transport.rs: the adapter that drives the engine over a USB
    host and offers the transport port to the layers above.  The host and the
    clock are parameters: a type [H] with the three transfers of the trait
    [UsbHostTransport] and the reading of [std::time::Instant], in nanoseconds.
    The action loop of [execute_op] takes fuel; [Unfinished] is the loop that has
    not ended yet, [Panic] an engine step that panics. *)

From stdpp Require Import base list list_numbers option.
From Stdlib Require Import ZArith Lia.
From S2P Require Import Prelude ApduCommand ApduIso7816 Atr CcidCodec CcidDescriptor CcidEngine.

Module Transport.
Import ApduCommand.Apdu ApduIso7816.Iso7816 CcidCodec.Ccid CcidDescriptor.Descriptor CcidEngine.Engine.

(** ** Data *)

Definition EXTENDED_RESPONSE_DATA_MAX_BYTES : Z := 65536.
Definition SW1_BYTES_AVAILABLE : Z := 0x61.
Definition SW1_WRONG_LE : Z := 0x6C.
Definition DEFAULT_TRANSPORT_TIMEOUT_MS : Z := 5000.
Definition DEFAULT_B_WI : Z := 0.
Definition DEFAULT_W_LEVEL_PARAMETER : Z := W_LEVEL_NONE.
Definition STATUS_BYTES_LEN : Z := 2.
Definition MAX_CHAIN_ITERATIONS : nat := 256.
Definition MAX_CONSECUTIVE_WRONG_LE : Z := 2.

(** The trait [UsbHostTransport].  A transfer that fills a [&mut] buffer returns
    the count and the buffer's new contents. *)
Class UsbHostTransport (H : Type) := {
  bulk_out : Z -> bytes -> Z -> H -> result CcidError Z * H;
  bulk_in : Z -> bytes -> Z -> H -> result CcidError Z * bytes * H;
  control_transfer : Z -> Z -> Z -> Z -> bytes -> Z -> H -> result CcidError Z * bytes * H }.

(** [std::time::Instant::now], in nanoseconds. *)
Class InstantClock (H : Type) := instant_now : H -> Z * H.

Inductive CardProtocol := T0 | T1.

#[global] Instance CardProtocol_eq_dec : EqDecision CardProtocol.
Proof. solve_decision. Defined.

Definition CardProtocol_from_atr (a : Atr.Atr) : CardProtocol :=
  let has_t1 := existsb (fun g => match Atr.td g with
                                  | Some td => Atr.protocol_indicator td =? 1
                                  | None => false
                                  end) (Atr.interface_groups a) in
  if has_t1 then T1 else T0.

(** ** The bytes of a command *)

Definition t0_case3_from_short_case4 (apdu : bytes) : option bytes :=
  let HEADER_AND_LC_BYTES := 5 in
  let TRAILING_LE_BYTES := 1 in
  lc ← get apdu 4;
  if lc =? 0 then None else
  sum ← checked_add USIZE_MAX HEADER_AND_LC_BYTES lc;
  case4_len ← checked_add USIZE_MAX sum TRAILING_LE_BYTES;
  if negb (len apdu =? case4_len) then None
  else Some (take_z apdu (len apdu - 1)).

Definition below_apdu_level (l : CcidExchangeLevel) : bool :=
  match l with Tpdu | Character => true | _ => false end.

Definition prepare_command_bytes (apdu : bytes) (protocol : CardProtocol)
    (exchange_level : CcidExchangeLevel) : result CcidError bytes :=
  if below_apdu_level exchange_level && bool_decide (protocol = T1) then Err UnsupportedProtocol
  else if bool_decide (protocol = T0) && below_apdu_level exchange_level then
    match t0_case3_from_short_case4 apdu with
    | Some case3 => Ok case3
    | None => Ok apdu
    end
  else Ok apdu.

(** ** The adapter *)

Record CcidCardTransport (H : Type) := MkTransport {
  host : H;
  engine : CcidEngine;
  descriptor : CcidFunctionalDescriptor;
  bulk_out_endpoint : Z;
  bulk_in_endpoint : Z;
  atr : Atr.Atr;
  protocol : CardProtocol;
  next_op_id : Z;
  timeout_ms : Z }.
Arguments MkTransport {H} _ _ _ _ _ _ _ _ _.
Arguments host {H} _.
Arguments engine {H} _.
Arguments descriptor {H} _.
Arguments bulk_out_endpoint {H} _.
Arguments bulk_in_endpoint {H} _.
Arguments atr {H} _.
Arguments protocol {H} _.
Arguments next_op_id {H} _.
Arguments timeout_ms {H} _.

(** How a call ends without a value. *)
Inductive halt := Failed (e : CcidError) | Panic | Unfinished.

(** [TransportErrorExt::kind] (error.rs). *)
Definition CcidError_kind (e : CcidError) : TransportErrorKind :=
  match e with
  | CardRemoved => KindNoCard
  | Timeout => KindTimeoutUnknownState
  | Ccid.ProtocolDesync _ => KindProtocolDesync
  | _ => KindBackend
  end.

Section Adapter.
Context {H : Type} `{UsbHostTransport H, InstantClock H}.
Variable fuel : nat.

Abbreviation transport := (CcidCardTransport H).
Abbreviation call := (exec transport halt).

Definition set_host (h : H) (t : transport) : transport :=
  MkTransport h (engine t) (descriptor t) (bulk_out_endpoint t) (bulk_in_endpoint t) (atr t)
    (protocol t) (next_op_id t) (timeout_ms t).
Definition set_engine (e : CcidEngine) (t : transport) : transport :=
  MkTransport (host t) e (descriptor t) (bulk_out_endpoint t) (bulk_in_endpoint t) (atr t)
    (protocol t) (next_op_id t) (timeout_ms t).
Definition set_atr (a : Atr.Atr) (t : transport) : transport :=
  MkTransport (host t) (engine t) (descriptor t) (bulk_out_endpoint t) (bulk_in_endpoint t) a
    (protocol t) (next_op_id t) (timeout_ms t).
Definition set_protocol (p : CardProtocol) (t : transport) : transport :=
  MkTransport (host t) (engine t) (descriptor t) (bulk_out_endpoint t) (bulk_in_endpoint t) (atr t)
    p (next_op_id t) (timeout_ms t).
Definition set_next_op_id (i : Z) (t : transport) : transport :=
  MkTransport (host t) (engine t) (descriptor t) (bulk_out_endpoint t) (bulk_in_endpoint t) (atr t)
    (protocol t) i (timeout_ms t).
Definition set_timeout_ms (ms : Z) (t : transport) : transport :=
  MkTransport (host t) (engine t) (descriptor t) (bulk_out_endpoint t) (bulk_in_endpoint t) (atr t)
    (protocol t) (next_op_id t) ms.

Definition from_existing (h : H) (e : CcidEngine) (d : CcidFunctionalDescriptor)
    (out_endpoint in_endpoint : Z) (a : Atr.Atr) (p : CardProtocol) : transport :=
  MkTransport h e d out_endpoint in_endpoint a p 1 DEFAULT_TRANSPORT_TIMEOUT_MS.

Definition atr_bytes (t : transport) : bytes := Atr.to_wire_bytes (atr t).

(** ** One operation *)

Definition read_clock (t : transport) : Z * transport :=
  let '(i, h) := instant_now (host t) in (i, set_host h t).

(** [start.elapsed().as_millis() as u64]; [elapsed] saturates at zero. *)
Definition get_now (start : Z) (t : transport) : MonotonicTime * transport :=
  let '(i, t) := read_clock t in
  ((Z.max 0 (i - start) / 1000000) mod (U64_MAX + 1), t).

(** The transfer an action submits, and the event that reports it. *)
Definition submit (a : Action) (timeout : Z) (t : transport) : option InputEvent * transport :=
  match a with
  | SubmitBulkOut _ data =>
      let '(res, h) := bulk_out (bulk_out_endpoint t) data timeout (host t) in
      (Some (IoCompleted (match res with
                          | Ok transferred => BulkOut transferred
                          | Err e => Failure e
                          end)), set_host h t)
  | SubmitBulkIn buffer_size =>
      let buf := repeat 0 (Z.to_nat buffer_size) in
      let '(res, buf, h) := bulk_in (bulk_in_endpoint t) buf timeout (host t) in
      (Some (IoCompleted (match res with
                          | Ok n => BulkIn (take_z buf n)
                          | Err e => Failure e
                          end)), set_host h t)
  | SubmitControl request_type request value index data =>
      let '(res, data, h) :=
        control_transfer request_type request value index data timeout (host t) in
      (Some (IoCompleted (match res with Ok _ => Control | Err e => Failure e end)), set_host h t)
  | CancelTransfers | CompleteOp _ _ | PublishSlotChange _ _ _ => (None, t)
  end.

Definition advance {A} (now : MonotonicTime) (ev : InputEvent) (t : transport)
    (k : Transition -> transport -> result halt A * transport) : result halt A * transport :=
  match step now ev (engine t) with
  | Some (tr, e) => k tr (set_engine e t)
  | None => (Err Panic, t)
  end.

Definition is_retained (a : Action) : bool :=
  match a with CancelTransfers | CompleteOp _ _ => true | _ => false end.

(** The deadline that has passed before a transfer is submitted. *)
Definition expired (a : Action) (dl : option Deadline) (now : MonotonicTime) : option Deadline :=
  match dl with
  | Some d => if negb (is_retained a) && (now >=? expires_at d) then Some d else None
  | None => None
  end.

Definition transfer_timeout (dl : option Deadline) (now : MonotonicTime) (t : transport) : Z :=
  match dl with
  | Some d =>
      let remaining_ms := saturating_sub (expires_at d) now mod (U32_MAX + 1) in
      Z.max (Z.min (timeout_ms t) remaining_ms) 1
  | None => timeout_ms t
  end.

(** The loop over the queue of actions. *)
Fixpoint drive (n : nat) (op_id : OperationId) (start : Z) (queue : list Action)
    (dl : option Deadline) (t : transport) : result halt OperationResult * transport :=
  match n, queue with
  | O, _ => (Err Unfinished, t)
  | S _, [] => (Err (Failed (Ccid.ProtocolDesync TerminatedWithoutCompletion)), t)
  | S n, action :: queue =>
      let '(now, t) := get_now start t in
      let next tr t := drive n op_id start (queue ++ actions tr) (next_deadline tr) t in
      match expired action dl now with
      | Some d => advance now (DeadlineExpired (id d)) t next
      | None =>
          match submit action (transfer_timeout dl now t) t with
          | (Some ev, t) => let '(now, t) := get_now start t in advance now ev t next
          | (None, t) =>
              match action with
              | CancelTransfers => drive n op_id start (List.filter is_completion queue) None t
              | CompleteOp i r =>
                  if i =? op_id then (map_err Failed r, t) else drive n op_id start queue dl t
              | _ => drive n op_id start queue dl t
              end
          end
      end
  end.

Definition execute_op (op : Operation) : call OperationResult :=
  fun t =>
    let op_id := next_op_id t in
    let t := set_next_op_id (wrapping_add U64_MAX op_id 1) t in
    let '(start, t) := read_clock t in
    let '(now, t) := get_now start t in
    advance now (Start op_id op) t
      (fun tr t => drive fuel op_id start (actions tr) (next_deadline tr) t).

(** ** Sessions *)

Definition fail {A} (e : CcidError) : call A := efail (Failed e).

Definition checked_protocol (a : Atr.Atr) (d : CcidFunctionalDescriptor) : result CcidError CardProtocol :=
  let proto := CardProtocol_from_atr a in
  match proto with
  | T0 => if negb (supports_t0 d) then Err UnsupportedProtocol else Ok proto
  | T1 => if negb (supports_t1 d) then Err UnsupportedProtocol else Ok proto
  end.

(** The T=0 parameters an answer to reset asks for. *)
Definition t0_parameters (parsed : Atr.Atr) (d : CcidFunctionalDescriptor) : Z * Z * Z :=
  match head (Atr.interface_groups parsed) with
  | Some g1 =>
      let has_pps :=
        negb (Z.land (features d) (Z.lor AUTOMATIC_PARAMETER_NEGOTIATION AUTOMATIC_PPS) =? 0) in
      let g2 := get (Atr.interface_groups parsed) 1 in
      let in_specific_mode := is_some (g2 ≫= Atr.ta) in
      let fi_di := if in_specific_mode || has_pps then default DEFAULT_T0_FIDI (Atr.ta g1)
                   else DEFAULT_T0_FIDI in
      let guard_time := default 0 (Atr.tc g1) in
      let waiting_integer := default DEFAULT_T0_WAITING_INTEGER (g2 ≫= Atr.tc) in
      (fi_di, guard_time, waiting_integer)
  | None => (DEFAULT_T0_FIDI, 0, DEFAULT_T0_WAITING_INTEGER)
  end.

Definition configure_parameters (parsed : Atr.Atr) : call unit :=
  fun t =>
    if negb (automatic_parameter_configuration (descriptor t)) && bool_decide (protocol t = T0) then
      let '(fi_di, guard_time, waiting_integer) := t0_parameters parsed (descriptor t) in
      let inverse_convention := bool_decide (Atr.convention parsed = Atr.Inverse) in
      (do? _ <- execute_op (SetParametersT0 fi_di guard_time waiting_integer 0 inverse_convention) ;;
       eret tt) t
    else (Ok tt, t).

(** Protocol, parameters and answer of a card just powered on. *)
Definition adopt (parsed : Atr.Atr) : call unit :=
  fun t =>
    match checked_protocol parsed (descriptor t) with
    | Ok proto =>
        (do? _ <- configure_parameters parsed ;; fun t => (Ok tt, set_atr parsed t))
          (set_protocol proto t)
    | Err e => (Err (Failed e), t)
    end.

(** [Drop]: the card is powered down when the adapter goes out of scope. *)
Definition drop_transport (t : transport) : H :=
  if activated (engine t) then host (execute_op PowerOff t).2 else host t.

(** [connect]; an error comes with the host as the drop of the adapter leaves it. *)
Definition connect (h : H) (d : CcidFunctionalDescriptor) (interface_number slot : Z)
    (out_endpoint in_endpoint : Z) : result (halt * H) transport :=
  if slot >? max_slot_index d then Err (Failed (UnexpectedSlot (max_slot_index d) slot), h) else
  let engine := CcidEngine_new interface_number slot 1 d in
  match Atr.Atr_new [0x3B; 0x00] with
  | None => Err (Panic, h)
  | Some (Err e) => Err (Failed (EAtr e), h)
  | Some (Ok placeholder) =>
      let t := MkTransport h engine d out_endpoint in_endpoint placeholder T0 1
                 DEFAULT_TRANSPORT_TIMEOUT_MS in
      let '(r, t) :=
        (do? res <- execute_op (PowerOn AUTOMATIC_VOLTAGE_SELECTION) ;;
         match res with
         | R_PowerOn bs =>
             match Atr.Atr_new bs with
             | Some (Ok parsed) => adopt parsed
             | Some (Err e) => fail (EAtr e)
             | None => efail Panic
             end
         | _ => fail (Ccid.ProtocolDesync PowerOnMissingAtr)
         end) t in
      match r with
      | Ok _ => Ok t
      | Err (Failed e) => Err (Failed e, drop_transport t)
      | Err stop => Err (stop, host t)
      end
  end.

Definition abort : call unit :=
  do? res <- execute_op Abort ;;
  match res with
  | R_Aborted => eret tt
  | _ => fail (Ccid.ProtocolDesync UnexpectedAbortOutcome)
  end.

(** A result that is thrown away; a call that did not return stays so. *)
Definition best_effort {A} (m : call A) : call unit :=
  fun t => match m t with
           | (Ok _, t) | (Err (Failed _), t) => (Ok tt, t)
           | (Err h, t) => (Err h, t)
           end.

Definition reset : call bytes :=
  fun t =>
    (do? _ <- (if needs_recovery (engine t) then abort else eret tt) ;;
     do? _ <- best_effort (execute_op PowerOff) ;;
     do? res <- execute_op (PowerOn AUTOMATIC_VOLTAGE_SELECTION) ;;
     match res with
     | R_PowerOn bs =>
         match Atr.Atr_new bs with
         | Some (Ok parsed) => do? _ <- adopt parsed ;; eret (Atr.to_wire_bytes parsed)
         | Some (Err e) => fun t => (Err (Failed (EAtr e)), set_engine (mark_deactivated (engine t)) t)
         | None => efail Panic
         end
     | _ => fail (Ccid.ProtocolDesync ResetMissingAtr)
     end) t.

Definition disconnect : call unit :=
  fun t =>
    if activated (engine t) then (do? _ <- execute_op PowerOff ;; eret tt) t else (Ok tt, t).

(** [split_last_chunk::<2>]. *)
Definition split_status (raw : bytes) : option (bytes * Z * Z) :=
  if len raw <? STATUS_BYTES_LEN then None
  else sw1 ← get raw (len raw - 2); sw2 ← get raw (len raw - 1);
       Some (take_z raw (len raw - 2), sw1, sw2).

Definition secure_direct (data : bytes) : call ResponseApdu :=
  fun t =>
    if negb (supports_pin_verification (descriptor t))
       && negb (supports_pin_modification (descriptor t))
    then (Err (Failed UnsupportedProtocol), t)
    else
      (do? res <- execute_op (Secure DEFAULT_B_WI DEFAULT_W_LEVEL_PARAMETER data) ;;
       match res with
       | R_Secure raw =>
           match split_status raw with
           | Some (body, sw1, sw2) => eret (mkResponse body sw1 sw2)
           | None => fail (Ccid.ProtocolDesync TerminatedWithoutCompletion)
           end
       | _ => fail (Ccid.ProtocolDesync TerminatedWithoutCompletion)
       end) t.

(** ** Exchanges *)

Definition transfer_op (data : bytes) : Operation :=
  TransferBlock DEFAULT_B_WI DEFAULT_W_LEVEL_PARAMETER data.

(** What a transfer gives [run_exchange]: the split response, or what it returns. *)
Definition transfer_result (r : result halt OperationResult) :
  result (result halt TransportOutcome) (bytes * Z * Z) :=
  match r with
  | Ok (R_TransferBlock raw) => ok_or (split_status raw) (Ok Iso7816.ProtocolDesync)
  | Ok _ => Err (Ok Iso7816.ProtocolDesync)
  | Err (Failed CardRemoved) => Err (Ok NoCard)
  | Err (Failed Timeout) => Err (Ok TimeoutUnknownState)
  | Err e => Err (Err e)
  end.

Definition desync_error {A} (d : CcidProtocolDesync) : call A := fail (Ccid.ProtocolDesync d).

(** The GET RESPONSE loop, [n] rounds before the limit. *)
Fixpoint get_response_loop (n : nat) (combined : bytes) (next_le consecutive_wrong_le : Z) :
  call TransportOutcome :=
  match n with
  | O => desync_error ChainingIterationLimitExceeded
  | S n => fun t =>
      match prepare_command_bytes (as_bytes (GetResponse_into_apdu Plain next_le)) (protocol t)
              (level (engine t)) with
      | Err e => (Err (Failed e), t)
      | Ok get_resp_bytes =>
          let '(r, t) := execute_op (transfer_op get_resp_bytes) t in
          match transfer_result r with
          | Err early => (early, t)
          | Ok (chain_body, chained_sw1, chained_sw2) =>
              let progressed := negb (is_empty chain_body) in
              let next_len := saturating_add USIZE_MAX (len combined) (len chain_body) in
              if next_len >? EXTENDED_RESPONSE_DATA_MAX_BYTES
              then desync_error ChainExceededCapacity t else
              let combined := combined ++ chain_body in
              if chained_sw1 =? SW1_BYTES_AVAILABLE then
                if negb progressed then desync_error StalledChain t
                else get_response_loop n combined chained_sw2 0 t
              else if chained_sw1 =? SW1_WRONG_LE then
                let consecutive_wrong_le := saturating_add USIZE_MAX consecutive_wrong_le 1 in
                if consecutive_wrong_le >? MAX_CONSECUTIVE_WRONG_LE
                then desync_error RepeatedWrongLe t
                else get_response_loop n combined chained_sw2 consecutive_wrong_le t
              else (Ok (Response (mkResponse combined chained_sw1 chained_sw2)), t)
          end
      end
  end.

Definition run_exchange (apdu_bytes : bytes) : call TransportOutcome :=
  fun t =>
    let '(r, t) := execute_op (transfer_op apdu_bytes) t in
    match transfer_result r with
    | Err early => (early, t)
    | Ok (body, sw1, sw2) =>
        if sw1 =? SW1_BYTES_AVAILABLE
        then get_response_loop MAX_CHAIN_ITERATIONS body sw2 0 t
        else (Ok (Response (mkResponse body sw1 sw2)), t)
    end.

Definition prepare (apdu : bytes) : call bytes :=
  fun t => (map_err Failed (prepare_command_bytes apdu (protocol t) (level (engine t))), t).

Definition ccid_transmit (command : CommandApdu) : call TransportOutcome :=
  do? prepared <- prepare (as_bytes command) ;;
  do? outcome <- run_exchange prepared ;;
  match outcome with
  | Response resp =>
      if sw1 resp =? SW1_WRONG_LE then
        match corrected_wrong_le command (sw2 resp) with
        | Some corrected => do? retry_bytes <- prepare (as_bytes corrected) ;; run_exchange retry_bytes
        | None => eret outcome
        end
      else eret outcome
  | _ => eret outcome
  end.

Definition ccid_transmit_credential (command : CredentialCommand) : call TransportOutcome :=
  match expose_wire command with
  | None => efail Panic
  | Some wire => do? prepared <- prepare wire ;; run_exchange prepared
  end.

End Adapter.

#[global] Instance ccid_card_transport {H} `{UsbHostTransport H, InstantClock H} (fuel : nat) :
  CardTransport (CcidCardTransport H) halt := {
  transmit := ccid_transmit fuel;
  transmit_credential := ccid_transmit_credential fuel }.

(** ** What the adapter relies on *)

(** The documented behaviour of [Instant], that readings do not run backwards,
    and of the bus: a Bulk-IN transfer that delivers takes some time.  The clock
    stays below the [u64] milliseconds the code can add a timeout to. *)
Class SteadyHost (H : Type) `{UsbHostTransport H, InstantClock H} := {
  clock_at : H -> Z;
  transfer_ns : Z;
  transfer_ns_positive : 0 < transfer_ns;
  clock_range h : 0 <= clock_at h <= CLOCK_MAX * 1000000;
  instant_reads h : clock_at h <= (instant_now h).1 <= clock_at (instant_now h).2;
  bulk_out_steady ep d n h : clock_at h <= clock_at (bulk_out ep d n h).2;
  bulk_in_steady ep b n h :
    clock_at h + (if is_ok (bulk_in ep b n h).1.1 then transfer_ns else 0)
    <= clock_at (bulk_in ep b n h).2;
  control_steady rt r v x d n h : clock_at h <= clock_at (control_transfer rt r v x d n h).2 }.

(** ** Lemmas *)

(** *** The engine under the driver *)

(** A transfer that a pending operation of the kind submits. *)
Definition submits (k : PendingOperation) (a : Action) : bool :=
  match a with
  | SubmitBulkOut _ _ | SubmitBulkIn _ => true
  | SubmitControl _ _ _ _ _ => match k with P_Abort => true | _ => false end
  | _ => false
  end.

(** The queue while the driver awaits the answer to operation [i]: the one
    transfer of a pending operation, or its completion. *)
Definition awaits (i : OperationId) (queue : list Action) (e : CcidEngine) : bool :=
  match pending_op e, queue with
  | Some (j, k), [a] => (j =? i) && submits k a
  | None, [CompleteOp j _] => j =? i
  | None, [CancelTransfers; CompleteOp j _] => j =? i
  | _, _ => false
  end.

(** What bounds the number of replies without the clock. *)
Definition budget (e : CcidEngine) : nat :=
  (length (outgoing_chain e) + Z.to_nat (61 - wtx_count e)
   + Z.to_nat (MAX_ABORT_DRAIN_ATTEMPTS - abort_drain_count e))%nat.

Lemma start_awaits now i op e :
  pending_op e = None -> current_deadline e = None ->
  ends (step now (Start i op) e) (fun t e' =>
    awaits i (actions t) e' = true /\ next_deadline t = current_deadline e').
Proof.
  intros Hp Hd. set (Q := fun t e' => _). unfold step.
  step_ends Q; unfold awaits; engine_facts; try (rewrite Z.eqb_refl); by split.
Qed.

(** The ends of a step of the operation that is pending, solved. *)
Ltac awaits_ends Q :=
  step_ends Q; unfold awaits, budget, saturating_add, MAX_ABORT_DRAIN_ATTEMPTS, MAX_TIME_EXTENSIONS,
    U32_MAX, U8_MAX in *; engine_facts;
  repeat match goal with H : Some _ = Some _ |- _ => injection H as ?; subst end;
  rewrite ?Z.eqb_refl; cbn [negb andb]; engine_cbn;
  repeat match goal with H : outgoing_chain _ = _ |- _ => rewrite H; cbn [length] end.

(** A reply either ends the operation, spends some of the budget, or leaves the
    deadline as it was. *)
Lemma reply_awaits now i k frame e :
  pending_op e = Some (i, k) ->
  ends (step now (IoCompleted (BulkIn frame)) e) (fun t e' =>
    awaits i (actions t) e' = true /\ next_deadline t = current_deadline e' /\
    (is_some (pending_op e') = true ->
     (budget e' < budget e)%nat \/ budget e' = budget e /\ current_deadline e' = current_deadline e)).
Proof.
  intros Hp. set (Q := fun t e' => _). unfold step.
  awaits_ends Q; (split_and!; [done|done|]); intros; first [done | by right | left; lia].
Qed.

(** The event that reports the transfer. *)
Definition reports (a : Action) (ev : InputEvent) : bool :=
  match a, ev with
  | SubmitBulkOut _ _, IoCompleted (BulkOut _) => true
  | SubmitBulkIn _, IoCompleted (BulkIn _) => true
  | SubmitControl _ _ _ _ _, IoCompleted Control => true
  | (SubmitBulkOut _ _ | SubmitBulkIn _ | SubmitControl _ _ _ _ _), IoCompleted (Failure _) => true
  | _, _ => false
  end.

Definition phase (queue : list Action) : nat :=
  match queue with
  | [SubmitControl _ _ _ _ _] => 2
  | [SubmitBulkOut _ _] => 1
  | _ => 0
  end%nat.

Definition is_reply (ev : InputEvent) : bool :=
  match ev with IoCompleted (BulkIn _) => true | _ => false end.

Lemma transfer_awaits now i k a ev e :
  pending_op e = Some (i, k) -> submits k a = true -> reports a ev = true ->
  ends (step now ev e) (fun t e' =>
    awaits i (actions t) e' = true /\ next_deadline t = current_deadline e' /\
    (is_some (pending_op e') = true ->
     is_reply ev = true /\ (budget e' < budget e)%nat \/
     budget e' = budget e /\ current_deadline e' = current_deadline e /\
     (is_reply ev = true \/ (phase (actions t) < phase [a])%nat))).
Proof.
  intros Hp Hs Hr.
  assert (ends (step now ev e) (fun t e' =>
    awaits i (actions t) e' = true /\ next_deadline t = current_deadline e' /\
    (is_some (pending_op e') = true -> is_reply ev = false ->
     budget e' = budget e /\ current_deadline e' = current_deadline e /\
     (phase (actions t) < phase [a])%nat))) as Ho.
  { set (Q := fun t e' => _). destruct (is_reply ev) eqn:Er.
    - destruct ev as [|[]| | | |]; try done. pose proof (reply_awaits now i k data e Hp) as H.
      destruct (step now _ e) as [[t e']|]; [|done]. unfold ends, Q in *. intuition done.
    - destruct a, ev as [|[]| | | |]; try done; unfold step;
        awaits_ends Q; (split_and!; [done|done|]); intros; try done;
        (split_and!; [done|done|cbn; lia]). }
  destruct (is_reply ev) eqn:Er.
  - destruct ev as [|[]| | | |]; try done. pose proof (reply_awaits now i k data e Hp) as H.
    destruct (step now _ e) as [[t e']|]; [|done]. unfold ends in *. intuition auto.
  - destruct (step now _ e) as [[t e']|]; [|done]. unfold ends in *. intuition auto.
Qed.

(** The expiry of the deadline ends the operation. *)
Lemma expiry_awaits now i k d e :
  pending_op e = Some (i, k) -> current_deadline e = Some d -> expires_at d <= now ->
  ends (step now (DeadlineExpired (id d)) e) (fun t e' =>
    awaits i (actions t) e' = true /\ next_deadline t = current_deadline e' /\ pending_op e' = None).
Proof.
  intros Hp Hd Hn. cbn [step]. unfold on_deadline. rewrite Hd, Z.eqb_refl.
  replace (now >=? expires_at d) with true by lia. rewrite Hp.
  cbn -[Z.eqb]. by rewrite Z.eqb_refl.
Qed.

Lemma sound_later clock clock' e : sound_engine clock e -> clock <= clock' -> sound_engine clock' e.
Proof.
  intros ((Hd & Ht) & Hs) Hc. split; [|done]. split; [done|].
  destruct (pending_op e), (current_deadline e); try done. lia.
Qed.

Lemma sound_idle clock clock' e :
  sound_engine clock e -> pending_op e = None -> sound_engine clock' e /\ current_deadline e = None.
Proof.
  intros ((Hd & Ht) & Hs) Hp. rewrite Hp in Ht. destruct (current_deadline e) eqn:E; [done|].
  split; [|done]. split; [|done]. split; [done|]. by rewrite Hp, E.
Qed.

(** *** The driver's loop *)

Section Driver.
Context {H : Type} {HU : UsbHostTransport H} {HC : InstantClock H} {HS : SteadyHost H}.

Definition ms_since (start ns : Z) : Z := (ns - start) / 1000000.

Lemma get_now_spec start (t : CcidCardTransport H) now t1 :
  start <= clock_at (host t) -> 0 <= start -> get_now start t = (now, t1) ->
  engine t1 = engine t /\ clock_at (host t) <= clock_at (host t1) /\
  ms_since start (clock_at (host t)) <= now <= CLOCK_MAX /\
  now <= ms_since start (clock_at (host t1)) /\
  exists i, now = ms_since start i /\ clock_at (host t) <= i.
Proof.
  unfold get_now, read_clock, ms_since. intros Hs H0 E.
  pose proof (instant_reads (host t)) as [H1 H2]. pose proof (clock_range (host t)).
  destruct (instant_now (host t)) as [i h]. cbn [fst snd] in *. pose proof (clock_range h).
  injection E as <- <-. cbn [host engine set_host]. replace (Z.max 0 (i - start)) with (i - start) by lia.
  assert (0 <= (i - start) / 1000000 <= CLOCK_MAX) as Hr.
  { split; [apply Z.div_pos; lia|]. apply Z.div_le_upper_bound; lia. }
  rewrite Z.mod_small by (unfold CLOCK_MAX, DEFAULT_ENGINE_TIMEOUT_MS in Hr; lia).
  split_and!; [done|lia| |lia| |by exists i]; apply Z.div_le_mono; lia.
Qed.

Lemma submit_spec a timeout (t : CcidCardTransport H) k :
  submits k a = true -> exists ev t1,
    submit a timeout t = (Some ev, t1) /\ reports a ev = true /\ engine t1 = engine t /\
    clock_at (host t) + (if is_reply ev then transfer_ns else 0) <= clock_at (host t1).
Proof.
  destruct a as [seq data|size|rt rq v x data| | |]; intros Hs; try done; cbn [submit].
  - pose proof (bulk_out_steady (bulk_out_endpoint t) data timeout (host t)) as Hc.
    destruct (bulk_out _ _ _ _) as [[n|e] h]; eexists _, _; split_and!; try done; cbn in *; lia.
  - pose proof (bulk_in_steady (bulk_in_endpoint t) (repeat 0 (Z.to_nat size)) timeout (host t)) as Hc.
    destruct (bulk_in _ _ _ _) as [[[n|e] b] h]; eexists _, _; split_and!; try done; cbn in *; lia.
  - pose proof (control_steady rt rq v x data timeout (host t)) as Hc.
    destruct (control_transfer _ _ _ _ _ _ _) as [[[n|e] b] h]; eexists _, _; split_and!; try done;
      cbn in *; lia.
Qed.

(** The loop ends with the engine's answer to the operation, and leaves the
    engine idle: its steps are a run of the engine. *)
Definition returns (i start : Z) (queue : list Action) (dl : option Deadline)
    (t : CcidCardTransport H) : Prop :=
  exists n r events acts t',
    (forall m, (n <= m)%nat -> drive m i start queue dl t = (map_err Failed r, t')) /\
    run events (engine t) = Some (acts, engine t') /\
    existsb (fun ev => is_start ev.2) events = false /\
    List.filter is_completion (queue ++ acts) = [CompleteOp i r] /\
    pending_op (engine t') = None /\ sound_engine 0 (engine t').

Lemma get_now_engine start (t : CcidCardTransport H) : engine (get_now start t).2 = engine t.
Proof. unfold get_now, read_clock. by destruct (instant_now (host t)). Qed.

Lemma returns_completed i start queue dl t :
  sound_engine 0 (engine t) -> pending_op (engine t) = None -> awaits i queue (engine t) = true ->
  returns i start queue dl t.
Proof.
  intros Hs Hp Hq. unfold awaits in Hq. rewrite Hp in Hq.
  assert (forall r dl t, sound_engine 0 (engine t) -> pending_op (engine t) = None ->
    returns i start [CompleteOp i r] dl t) as Hc.
  { intros r dl' t0 Hs' Hp'. exists 1%nat, r, [], [], (get_now start t0).2. rewrite get_now_engine.
    split_and!; try done. intros [|m] Hm; [lia|]. cbn [drive].
    destruct (get_now start t0) as [now t1] eqn:E. unfold expired. cbn [is_retained negb andb submit].
    rewrite Z.eqb_refl. by destruct dl'. }
  destruct queue as [|[| | | j r| |] [|[| | | j' r'| |] [|]]]; try done; to_prop; subst; [by apply Hc|].
  destruct (Hc r' None (get_now start t).2) as (n & r & evs & acts & t' & Hd & Hrest);
    [by rewrite get_now_engine..|]. rewrite get_now_engine in Hrest.
  exists (S n), r, evs, acts, t'. split; [|done].
  intros [|m] Hm; [lia|]. rewrite <- (Hd m) by lia. cbn [drive].
  destruct (get_now start t) as [now t1]. unfold expired. cbn [is_retained negb andb submit].
  by destruct dl.
Qed.

(** An iteration that steps the engine and goes on. *)
Lemma returns_step i start a dl t now ev tr e' t1 :
  is_completion a = false -> is_start ev = false -> step now ev (engine t) = Some (tr, e') ->
  (forall m, drive (S m) i start [a] dl t
             = drive m i start (actions tr) (next_deadline tr) (set_engine e' t1)) ->
  returns i start (actions tr) (next_deadline tr) (set_engine e' t1) ->
  returns i start [a] dl t.
Proof.
  intros Ha He Es Hd (n & r & evs & acts & t' & Hd' & Hr & Hst & Hf & Hp & Hs).
  exists (S n), r, ((now, ev) :: evs), (actions tr ++ acts), t'. split_and!; try done.
  - intros [|m] Hm; [lia|]. rewrite Hd. apply Hd'. lia.
  - cbn [run]. rewrite Es. cbn [mbind option_bind engine set_engine] in *. rewrite Hr. done.
  - cbn [existsb snd]. by rewrite He.
  - cbn [app List.filter]. by rewrite Ha.
Qed.

(** Time left before the deadline, in transfers. *)
Definition time_left (start : Z) (dl : option Deadline) (t : CcidCardTransport H) : nat :=
  match dl with
  | Some d => Z.to_nat ((start + expires_at d * 1000000 - clock_at (host t)) / transfer_ns + 1)
  | None => 0
  end.

Lemma time_left_before start d ns t1 t2 :
  ms_since start ns < expires_at d -> clock_at (host t1) <= ns ->
  clock_at (host t1) + transfer_ns <= clock_at (host t2) ->
  (time_left start (Some d) t2 < time_left start (Some d) t1)%nat.
Proof.
  unfold ms_since, time_left. intros Hn H1 H2. pose proof transfer_ns_positive.
  set (w := start + expires_at d * 1000000).
  assert (ns < w) as Hw.
  { unfold w. pose proof (Z.mul_succ_div_gt (ns - start) 1000000). lia. }
  assert (0 <= (w - clock_at (host t1)) / transfer_ns) by (apply Z.div_pos; lia).
  assert ((w - clock_at (host t2)) / transfer_ns <= (w - clock_at (host t1)) / transfer_ns - 1).
  { transitivity ((w - clock_at (host t1) + (-1) * transfer_ns) / transfer_ns).
    - apply Z.div_le_mono; lia.
    - rewrite Z.div_add by lia. lia. }
  lia.
Qed.

Lemma time_left_mono start dl t1 t2 :
  clock_at (host t1) <= clock_at (host t2) ->
  (time_left start dl t2 <= time_left start dl t1)%nat.
Proof.
  destruct dl as [d|]; [|done]. unfold time_left. intros Hc. pose proof transfer_ns_positive.
  pose proof (Z.div_le_mono (start + expires_at d * 1000000 - clock_at (host t2))
    (start + expires_at d * 1000000 - clock_at (host t1)) transfer_ns). lia.
Qed.

(** One iteration of the loop on a transfer. *)
Lemma drive_transfer m i start a dl t now t1 :
  is_retained a = false -> get_now start t = (now, t1) ->
  drive (S m) i start [a] dl t =
  match expired a dl now with
  | Some d => advance now (DeadlineExpired (id d)) t1
                (fun tr t => drive m i start (actions tr) (next_deadline tr) t)
  | None =>
      match submit a (transfer_timeout dl now t1) t1 with
      | (Some ev, t2) =>
          advance (get_now start t2).1 ev (get_now start t2).2
            (fun tr t => drive m i start (actions tr) (next_deadline tr) t)
      | (None, t2) => drive m i start [] dl t2
      end
  end.
Proof.
  intros Ha Hn. cbn [drive]. rewrite Hn. destruct (expired a dl now); [done|].
  destruct a; try done; cbn [submit];
    repeat match goal with |- context [match ?x with pair _ _ => _ end] => destruct x eqn:?; try done end.
Qed.

(** The state the loop goes on with, closer to its end than [t]. *)
Definition closer (start : Z) (t t' : CcidCardTransport H) (q q' : list Action) : Prop :=
  (budget (engine t') < budget (engine t))%nat \/
  budget (engine t') = budget (engine t) /\
  ((time_left start (current_deadline (engine t')) t'
    < time_left start (current_deadline (engine t)) t)%nat \/
   (time_left start (current_deadline (engine t')) t'
    <= time_left start (current_deadline (engine t)) t)%nat /\ (phase q' < phase q)%nat).

(** What the loop keeps. *)
Definition driving (i start : Z) (queue : list Action) (t : CcidCardTransport H) : Prop :=
  0 <= start <= clock_at (host t) /\ sound_engine (ms_since start (clock_at (host t))) (engine t) /\
  awaits i queue (engine t) = true.

Lemma driving_step i start a t k d :
  driving i start [a] t -> pending_op (engine t) = Some (i, k) ->
  current_deadline (engine t) = Some d -> submits k a = true ->
  exists now ev tr e' t1,
    is_start ev = false /\ step now ev (engine t) = Some (tr, e') /\
    (forall m, drive (S m) i start [a] (Some d) t
               = drive m i start (actions tr) (next_deadline tr) (set_engine e' t1)) /\
    next_deadline tr = current_deadline e' /\ driving i start (actions tr) (set_engine e' t1) /\
    (is_some (pending_op e') = true -> closer start t (set_engine e' t1) [a] (actions tr)).
Proof.
  intros ((H0 & Hst) & Hs & _) Ep Ed Ha. destruct (get_now start t) as [now t1] eqn:En.
  destruct (get_now_spec _ _ _ _ Hst H0 En) as (Ee & Hc & Hn & Hn1 & ns & Hns & Hns').
  assert (is_retained a = false) as Hret by by destruct a.
  assert (expired a (Some d) now = if now >=? expires_at d then Some d else None) as Hex
    by (unfold expired; by rewrite Hret).
  destruct (now >=? expires_at d) eqn:Ex; to_prop.
  - destruct (step_sound _ now (DeadlineExpired (id d)) _ Hs ltac:(lia)) as (tr & e' & Es & Hs' & _).
    destruct (ends_some _ _ _ _ (expiry_awaits now i k d _ Ep Ed ltac:(lia)) Es) as (Hw & Hd & Hp).
    exists now, (DeadlineExpired (id d)), tr, e', t1. split_and!; try done.
    + intros m. rewrite (drive_transfer _ _ _ _ _ _ _ _ Hret En), Hex. unfold advance.
      by rewrite Ee, Es.
    + split_and!; [lia|cbn; lia| |done]. by apply (sound_later now).
    + by rewrite Hp.
  - destruct (submit_spec a (transfer_timeout (Some d) now t1) t1 k Ha) as (ev & t2 & E2 & Hr & Ee2 & Hc2).
    destruct (get_now start t2) as [now3 t3] eqn:En3.
    assert (0 < transfer_ns) by apply transfer_ns_positive.
    assert (clock_at (host t1) <= clock_at (host t2)) by (destruct (is_reply ev); lia).
    destruct (get_now_spec start t2 now3 t3 ltac:(lia) H0 En3) as (Ee3 & Hc3 & Hn3 & Hn4 & _).
    assert (ms_since start (clock_at (host t)) <= ms_since start (clock_at (host t2)))
      by (apply Z.div_le_mono; lia).
    destruct (step_sound _ now3 ev _ Hs ltac:(lia)) as (tr & e' & Es & Hs' & _).
    destruct (ends_some _ _ _ _ (transfer_awaits now3 i k a ev _ Ep Ha Hr) Es) as (Hw & Hd & Hp).
    exists now3, ev, tr, e', t3. split_and!; try done.
    + by destruct a, ev as [|[]| | | |].
    + intros m. rewrite (drive_transfer _ _ _ _ _ _ _ _ Hret En), Hex, E2, En3. unfold advance.
      cbn [fst snd]. by rewrite Ee3, Ee2, Ee, Es.
    + split_and!; [lia|cbn; lia| |done]. by apply (sound_later now3).
    + intros Hp'. unfold closer. cbn [engine host set_engine].
      destruct (Hp Hp') as [[_ Hb]|(Hb & Hdl & Hph)]; [by left|right]. split; [done|].
      rewrite Hdl, Ed. destruct (is_reply ev) eqn:Er.
      * left. apply (time_left_before _ _ ns); [lia|lia|cbn [host set_engine]; lia].
      * right. split; [|by destruct Hph]. apply time_left_mono. cbn [host set_engine]. lia.
Qed.

Lemma drive_returns i start : forall b tau p t queue,
  budget (engine t) = b -> time_left start (current_deadline (engine t)) t = tau -> phase queue = p ->
  driving i start queue t -> returns i start queue (current_deadline (engine t)) t.
Proof.
  intros b. induction b as [b IHb] using lt_wf_ind. intros tau.
  induction tau as [tau IHt] using lt_wf_ind. intros p. induction p as [p IHp] using lt_wf_ind.
  intros t queue Hb Ht Hph Hdr. pose proof Hdr as (_ & Hs & Hq).
  destruct (pending_op (engine t)) as [[j k]|] eqn:Ep.
  2: { apply returns_completed; [by eapply sound_idle|done|done]. }
  unfold awaits in Hq. rewrite Ep in Hq. destruct queue as [|a [|]]; try done.
  apply andb_true_iff in Hq as [->%Z.eqb_eq Ha].
  destruct (current_deadline (engine t)) as [d|] eqn:Ed.
  2: { destruct Hs as ((_ & Hs) & _). by rewrite Ep, Ed in Hs. }
  destruct (driving_step i start a t k d Hdr Ep Ed Ha)
    as (now & ev & tr & e' & t1 & Hev & Es & Hd & Hnd & Hdr' & Hcl).
  apply (returns_step i start a (Some d) t now ev tr e' t1); [by destruct a|done|done|done|].
  rewrite Hnd. change (current_deadline e') with (current_deadline (engine (set_engine e' t1))).
  destruct (is_some (pending_op e')) eqn:Ep'.
  - destruct (Hcl eq_refl) as [Hl|(Hl & [Hl2|[Hl2 Hl3]])]; try rewrite Ed in Hl2.
    + eapply IHb; [|reflexivity..|exact Hdr']. rewrite <- Hb. exact Hl.
    + eapply IHt; [|by rewrite <- Hb|reflexivity..|exact Hdr']. rewrite <- Ht. exact Hl2.
    + apply Nat.lt_eq_cases in Hl2 as [Hl2|Hl2].
      * eapply IHt; [|by rewrite <- Hb|reflexivity..|exact Hdr']. rewrite <- Ht. exact Hl2.
      * eapply IHp; [|by rewrite <- Hb|by rewrite <- Ht|reflexivity|exact Hdr']. by rewrite <- Hph.
  - destruct Hdr' as (_ & Hs' & Hw'). apply returns_completed; [|by destruct (pending_op e') eqn:?|done].
    eapply sound_idle; [done|]. by destruct (pending_op e') eqn:?.
Qed.

End Driver.

(** *** Exchanges *)

Section Exchanges.
Context {H : Type} {HU : UsbHostTransport H} {HC : InstantClock H}.
Variable fuel : nat.

Abbreviation executed_op := (Operation * result halt OperationResult)%type.

(** The operations that take the adapter from one state to another, in order,
    with their results. *)
Inductive executed : list executed_op -> CcidCardTransport H -> CcidCardTransport H -> Prop :=
  | executed_nil t : executed [] t t
  | executed_cons op r l t t1 t2 :
      execute_op fuel op t = (r, t1) -> executed l t1 t2 -> executed ((op, r) :: l) t t2.

(** A GET RESPONSE for [le] bytes, a length that a byte can hold. *)
Definition asks_for (le : Z) (op : Operation) : Prop :=
  exists bs, op = transfer_op bs /\ take 4 bs = [0; 0xC0; 0; 0] /\
    (0 <= le -> bs = [0; 0xC0; 0; 0; le]).

Definition body_of (x : executed_op) : bytes :=
  match transfer_result x.2 with Ok (b, _, _) => b | Err _ => [] end.
Definition bodies (l : list executed_op) : bytes := concat (map body_of l).

(** GET RESPONSE commands, each asking for the length the response before it
    announced, the first for [le]. *)
Fixpoint follows (le : Z) (l : list executed_op) : Prop :=
  match l with
  | [] => True
  | (op, r) :: rest =>
      asks_for le op /\
      match rest with
      | [] => True
      | _ => exists b s1 s2, transfer_result r = Ok (b, s1, s2) /\
               (s1 = SW1_BYTES_AVAILABLE \/ s1 = SW1_WRONG_LE) /\ follows s2 rest
      end
  end.

(** The status of the last response. *)
Definition ends_with (l : list executed_op) (s1 s2 : Z) : Prop :=
  exists l' x b, l = l' ++ [x] /\ transfer_result x.2 = Ok (b, s1, s2).

Lemma prepare_get_response le p lv bs :
  prepare_command_bytes (as_bytes (GetResponse_into_apdu Plain le)) p lv = Ok bs ->
  asks_for le (transfer_op bs).
Proof.
  change (as_bytes (GetResponse_into_apdu Plain le)) with [0; 0xC0; 0; 0; le].
  unfold prepare_command_bytes, asks_for. intros E. exists bs. split; [done|]. revert E.
  case_if; [done|]. case_if; [|by intros [= <-]].
  unfold t0_case3_from_short_case4, checked_add. change (get [0; 192; 0; 0; le] 4) with (Some le).
  change (len [0; 192; 0; 0; le]) with 5. cbn [mbind option_bind].
  destruct (le =? 0); [by intros [= <-]|]. case_if; cbn [mbind option_bind]; [|by intros [= <-]].
  case_if; cbn [mbind option_bind]; [|by intros [= <-]]. case_if; intros [= <-]; [done|].
  split; [done|]. lia.
Qed.

(** What the loop did and what it returned. *)
Definition chained (n : nat) (combined : bytes) (le : Z) (r : result halt TransportOutcome)
    (l : list executed_op) : Prop :=
  follows le l /\ (length l <= n)%nat /\
  forall resp, r = Ok (Response resp) ->
    body resp = combined ++ bodies l /\ len (body resp) <= EXTENDED_RESPONSE_DATA_MAX_BYTES /\
    ends_with l (sw1 resp) (sw2 resp).

Lemma chained_cons n combined le op res b s1 s2 r l :
  asks_for le op -> transfer_result res = Ok (b, s1, s2) ->
  s1 = SW1_BYTES_AVAILABLE \/ s1 = SW1_WRONG_LE -> chained n (combined ++ b) s2 r l ->
  chained (S n) combined le r ((op, res) :: l).
Proof.
  intros Ha Hr Hs (Hf & Hn & Hp). split_and!; [|cbn; lia|].
  - split; [done|]. destruct l; [done|]. by exists b, s1, s2.
  - intros resp Ho. destruct (Hp resp Ho) as (Hb & Hl & l' & x & b' & -> & Hx).
    split_and!; [|done|by exists ((op, res) :: l'), x, b'].
    rewrite Hb. unfold bodies. cbn [map concat]. unfold body_of at 2. cbn [snd]. rewrite Hr.
    by rewrite app_assoc.
Qed.

Lemma transfer_result_early res early resp :
  transfer_result res = Err early -> early <> Ok (Response resp).
Proof. destruct res as [[]|[[]| |]]; cbn; try naive_solver. by destruct (split_status response); naive_solver. Qed.

Lemma get_response_loop_executes n : forall combined le wrong t r t',
  get_response_loop fuel n combined le wrong t = (r, t') ->
  exists l, executed l t t' /\ chained n combined le r l.
Proof.
  assert (forall n combined le t e, exists l, executed l t t /\ chained n combined le (Err e) l) as Hnone.
  { intros. exists []. split; [constructor|]. split_and!; [done|cbn; lia|done]. }
  induction n as [|n IH]; intros combined le wrong t r t' E; cbn [get_response_loop] in E.
  { injection E as <- <-. apply Hnone. }
  destruct (prepare_command_bytes _ _ _) as [bs|e] eqn:Ep; [|injection E as <- <-; apply Hnone].
  apply prepare_get_response in Ep. destruct (execute_op fuel (transfer_op bs) t) as [res t1] eqn:Ex.
  assert (forall r, (forall resp, r <> Ok (Response resp)) ->
    exists l, executed l t t1 /\ chained (S n) combined le r l) as Hone.
  { intros r0 Hr0. exists [(transfer_op bs, res)].
    split; [by econstructor; [|constructor]|]. split_and!; [done|cbn; lia|naive_solver]. }
  destruct (transfer_result res) as [[[b s1] s2]|early] eqn:Et.
  2: { injection E as <- <-. apply Hone. intros resp. by eapply transfer_result_early. }
  case_match_in E; [injection E as <- <-; by apply Hone|].
  case_match_in E.
  { case_match_in E; [injection E as <- <-; by apply Hone|]. to_prop.
    destruct (IH _ _ _ _ _ _ E) as (l & Hl & Hc). exists ((transfer_op bs, res) :: l).
    split; [by econstructor|]. eapply chained_cons; try done. by left. }
  case_match_in E.
  { case_match_in E; [injection E as <- <-; by apply Hone|]. to_prop.
    destruct (IH _ _ _ _ _ _ E) as (l & Hl & Hc). exists ((transfer_op bs, res) :: l).
    split; [by econstructor|]. eapply chained_cons; try done. by right. }
  injection E as <- <-. exists [(transfer_op bs, res)].
  split; [by econstructor; [|constructor]|]. split_and!; [done|cbn; lia|]. intros resp [= <-].
  cbn [body sw1 sw2]. unfold bodies, body_of. cbn [map concat snd]. rewrite Et, app_nil_r.
  split_and!; [done| |by exists [], (transfer_op bs, res), b].
  to_prop. unfold saturating_add, EXTENDED_RESPONSE_DATA_MAX_BYTES in *. rewrite len_app. ulia.
Qed.

(** One exchange: the command, then GET RESPONSE commands while the card
    announces more; a response is made of all the bodies and the last status. *)
Definition exchange (sent : bytes) (r : result halt TransportOutcome) (l : list executed_op) : Prop :=
  exists res rest, l = (transfer_op sent, res) :: rest /\ (length rest <= MAX_CHAIN_ITERATIONS)%nat /\
    (rest = [] \/ exists b le, transfer_result res = Ok (b, SW1_BYTES_AVAILABLE, le) /\ follows le rest) /\
    forall resp, r = Ok (Response resp) ->
      body resp = bodies l /\ ends_with l (sw1 resp) (sw2 resp).

Lemma run_exchange_executes sent t :
  exists l, executed l t (run_exchange fuel sent t).2 /\ exchange sent (run_exchange fuel sent t).1 l.
Proof.
  unfold run_exchange. destruct (execute_op fuel (transfer_op sent) t) as [res t1] eqn:Ex.
  assert (executed [(transfer_op sent, res)] t t1) as H1 by (econstructor; [done|constructor]).
  destruct (transfer_result res) as [[[b s1] s2]|early] eqn:Et; cbn [fst snd].
  2: { exists [(transfer_op sent, res)]. split; [done|]. exists res, [].
       split_and!; [done|cbn; lia|by left|]. intros resp He.
       by destruct (transfer_result_early _ _ resp Et). }
  case_if; to_prop; subst.
  - destruct (get_response_loop fuel MAX_CHAIN_ITERATIONS b s2 0 t1) as [r t'] eqn:El.
    destruct (get_response_loop_executes _ _ _ _ _ _ _ El) as (l & Hl & Hf & Hn & Hr).
    exists ((transfer_op sent, res) :: l). split; [by econstructor|]. exists res, l.
    split_and!; [done|done|right; by exists b, s2|]. intros resp Hresp.
    destruct (Hr resp Hresp) as (Hb & _ & l' & x & b' & -> & Hx).
    split; [|by exists ((transfer_op sent, res) :: l'), x, b'].
    rewrite Hb. unfold bodies. cbn [map concat]. unfold body_of at 2. cbn [snd]. by rewrite Et.
  - exists [(transfer_op sent, res)]. split; [done|]. exists res, [].
    split_and!; [done|cbn; lia|by left|]. cbn [fst]. intros resp [= <-]. cbn [body sw1 sw2].
    unfold bodies, body_of. cbn [map concat snd]. rewrite Et, app_nil_r.
    split; [done|]. by exists [], (transfer_op sent, res), b.
Qed.

Lemma prepared_command apdu p lv sent :
  prepare_command_bytes apdu p lv = Ok sent -> sent = apdu \/ exists le, apdu = sent ++ [le].
Proof.
  unfold prepare_command_bytes. case_if; [done|]. case_if; [|intros [= <-]; by left].
  unfold t0_case3_from_short_case4, checked_add.
  destruct (get apdu 4) as [lc|] eqn:E4; [|intros [= <-]; by left]. cbn [mbind option_bind].
  repeat (case_if; cbn [mbind option_bind]; try (intros [= <-]; by left)).
  intros [= <-]. right. to_prop. destruct apdu as [|x xs _] using rev_ind; [done|].
  exists x. rewrite len_app. change (len [x]) with 1. unfold take_z.
  replace (Z.to_nat (len xs + 1 - 1)) with (length xs) by (unfold len; lia). by rewrite take_app_length.
Qed.

End Exchanges.

(** ** Properties *)

Section Properties.
Context {H : Type} {HU : UsbHostTransport H} {HC : InstantClock H} {HS : SteadyHost H}.


(** C15 A credential command goes to the reader once: the adapter refuses it
    unsent, or executes it as one transfer (less the trailing length byte at the
    TPDU level of T=0) and after it at most 256 GET RESPONSE commands, each for
    the length the card has just announced; the response is made of the bodies in
    order and the last status. *)
Theorem ccid_credential_sent_once (fuel : nat) (cmd : CredentialCommand) (t : CcidCardTransport H) :
  match expose_wire cmd with
  | None => ccid_transmit_credential fuel cmd t = (Err Panic, t)
  | Some wire =>
      match prepare_command_bytes wire (protocol t) (level (engine t)) with
      | Err e => ccid_transmit_credential fuel cmd t = (Err (Failed e), t)
      | Ok sent =>
          (sent = wire \/ exists le, wire = sent ++ [le]) /\
          exists l, executed fuel l t (ccid_transmit_credential fuel cmd t).2 /\
            exchange sent (ccid_transmit_credential fuel cmd t).1 l
      end
  end.
Proof.
  unfold ccid_transmit_credential. destruct (expose_wire cmd) as [wire|]; [|done].
  unfold prepare, ebind.
  destruct (prepare_command_bytes wire (protocol t) (level (engine t))) as [sent|e] eqn:E; [|done].
  split; [by eapply prepared_command|]. cbn [map_err]. apply run_exchange_executes.
Qed.

End Properties.

(** ** Witnesses *)

(** A host that hands out scripted replies, a millisecond each, until its clock
    stops. *)
Record scripted := MkScripted { clock_ns : Z; replies : list bytes }.

Definition stop_ns : Z := CLOCK_MAX * 1000000.

Definition scripted_clock (h : scripted) : Z := Z.min (Z.max 0 (clock_ns h)) stop_ns.

#[local] Instance scripted_host : UsbHostTransport scripted := {
  bulk_out _ data _ h := (Ok (len data), h);
  bulk_in _ buf _ h :=
    match replies h with
    | reply :: rest =>
        if scripted_clock h + 1000000 <=? stop_ns
        then (Ok (len reply), reply ++ drop (length reply) buf,
              MkScripted (scripted_clock h + 1000000) rest)
        else (Err (Io BulkInUnderflow), buf, h)
    | [] => (Err (Io BulkInUnderflow), buf, h)
    end;
  control_transfer _ _ _ _ data _ h := (Ok 0, data, h) }.

#[local] Instance scripted_instant : InstantClock scripted := fun h => (scripted_clock h, h).

#[local] Instance scripted_steady : SteadyHost scripted.
Proof.
  refine {| clock_at := scripted_clock; transfer_ns := 1000000 |}; try done; intros.
  - unfold scripted_clock, stop_ns, CLOCK_MAX, U64_MAX, DEFAULT_ENGINE_TIMEOUT_MS. lia.
  - cbn. destruct (replies h) as [|reply rest]; [cbn; lia|].
    destruct (scripted_clock h + 1000000 <=? stop_ns) eqn:E; cbn [fst snd is_ok]; [|lia].
    assert (0 <= scripted_clock h)
      by (unfold scripted_clock, stop_ns, CLOCK_MAX, U64_MAX, DEFAULT_ENGINE_TIMEOUT_MS; lia).
    to_prop. unfold scripted_clock at 2. cbn [clock_ns]. lia.
Defined.

(** A reader with a card powered on, and the reply to one transfer. *)
Definition powered_reader : CcidCardTransport scripted :=
  MkTransport
    (MkScripted 0 [chain_frame 0 0 0 [0x6F; 0x61; 2]; chain_frame 0 1 0 [1; 2; 0x90; 0]])
    (set_activated true (set_card_present true (CcidEngine_new 0 0 1 sample_descriptor)))
    sample_descriptor 2 130 (Atr.MkAtr Atr.Direct (Atr.MkT0 0 0) [] [] None) T0 1 5000.


(** The two replies of the reader make one response. *)
Example exchange_over_scripted_host :
  (run_exchange 20 [0; 0xB0; 0; 0; 0] powered_reader).1
  = Ok (Response (mkResponse [0x6F; 1; 2] 0x90 0)).
Proof. vm_compute. reflexivity. Qed.

End Transport.
