(* ===== verification/RappState.v ===== *)
(** * The remote card protocol's state machines (crates/rapp/src/state.rs)

    The pairing, session and operation machines of an endpoint with their
    guards and actions, and the composite state [RappState] with its security
    outcomes.  The published machine
    (doc/protocols/rapp-state-machine-v26.11.2.yaml) is transcribed as rule
    tables: [pairing_table], [session_table] and [operation_table].

    The theorems: each transition function accepts exactly the table's rules
    and does what they say; and, over every run of a machine, the invariants
    the protocol names: pair keys live exactly while a record is stored, only
    the holder, idle expiry or the peer's notice ends a pairing, a session
    leaves no material behind, and an operation consumes one card command, at
    most, on the holder's approval, and answers once unless its session closes. *)

From stdpp Require Import base list.
From Stdlib Require Import ZArith Lia.
From S2P Require Import Prelude.

Module RappState.

(** ** Data *)

Inductive EndpointRole := Requester | Proxy.

Record Guards := mkGuards {
  user_initiated : bool;
  local_user_action : bool;
  transcript_matches : bool;
  granted_sets_equal : bool;
  initiation_permitted : bool;
  pairing_routed : bool;
  ready_parameters_match : bool;
  untried_pairing_candidate : bool }.

Definition Guards_default : Guards := mkGuards false false false false false false false false.

Inductive PairingState :=
  | P_Unpaired | P_Offering | P_Exchanging | P_Handshaking | P_Confirming
  | P_StorageConfirming | P_PairedDisconnected | P_PairedConnected | P_Revoking
  | P_Revoked.

Inductive SessionState :=
  | S_Absent | S_Connecting | S_Authenticating | S_Healthy | S_Closing | S_Closed.

Inductive OperationState :=
  | O_None | O_Requested | O_Queued | O_AwaitingConsent | O_Executing | O_Completed
  | O_Rejected | O_Cancelled.

Inductive PairingEvent :=
  | PE_StartPairing | PE_OfferExpiredOrCancelled | PE_AttemptStarted
  | PE_CodeEntered | PE_AttemptFailed | PE_AttemptRefused | PE_CandidateBusy
  | PE_LastCandidateFailed | PE_NoCustodianTried | PE_SearchInterrupted
  | PE_KeyConfirmed | PE_HandshakeAuthenticated | PE_HandshakeFailed
  | PE_HelloVerified | PE_BothConfirmed | PE_DeniedAbortedOrTimedOut
  | PE_PairRecordStoreFailed | PE_PeerStorageConfirmed | PE_SessionHealthy
  | PE_SessionClosed | PE_ForgetPairing | PE_ExpiryCheck | PE_IdleExpired
  | PE_RevocationNoticeSent | PE_NoticeWindowExpired | PE_RevocationAttemptEnded
  | PE_PeerRevocationNotice | PE_PeerWithdrawalNotice.

Inductive SessionEvent :=
  | SE_Connect | SE_PreambleReceived | SE_TransportConnected | SE_TransportFailed
  | SE_HandshakeComplete | SE_HandshakeCompleteWhileRevoking | SE_ReadyVerified
  | SE_CandidateFailure | SE_AuthenticatedProtocolViolation
  | SE_SessionHelloReceived | SE_PeerSilent | SE_SilenceLimitReached
  | SE_UserDisconnect | SE_LocalCloseRequested | SE_ServiceWithdrawn
  | SE_CardUnavailable | SE_PeerCloseReceived | SE_SessionIntegrityFailed
  | SE_CloseRequestedByPairing | SE_CloseCompleteOrDeadline.

Inductive OperationEvent :=
  | OE_RequestReceived | OE_RequestDuplicate | OE_RequestWhileBusy
  | OE_RequestUnauthorized | OE_RequestUnsupported | OE_CardHeldElsewhere
  | OE_CardAcquiredForConsent | OE_CardAcquiredForRead | OE_UserDenied
  | OE_UserApproved | OE_WaitingForCard | OE_CardFound | OE_WrongPin
  | OE_RetryFloorRefused | OE_CardSuccess | OE_CardError | OE_RequestExpired
  | OE_SessionClosed | OE_RequestSent | OE_ProgressReceived
  | OE_ResultCompletedReceived | OE_ResultRejectedReceived
  | OE_ResultCancelledReceived.

Inductive Action :=
  | A_GenerateOffer | A_GeneratePairingCode | A_AdvertisePairingMode
  | A_DisplayPairingCode | A_HidePairingCode | A_DestroyOffer | A_ReadOffer
  | A_BeginCpaceInitiator | A_TryNextCandidate | A_AdmitAttempt | A_EndFailedAttempt
  | A_AnswerBusy | A_DeferCandidate | A_ShowWrongCode | A_ShowNoneInPairingMode
  | A_ConsumeOffer | A_DerivePairingSecret | A_BeginPairingHandshake
  | A_DeriveChannelIdentifiers | A_DestroyPairingSecret | A_SendPairingHello
  | A_SendPairingConfirm | A_SendPairingAbortBestEffort | A_DestroyCandidateKeys
  | A_CloseCandidate | A_StorePairRecordAtomically | A_SendPairingStored
  | A_MarkRecordConfirmed | A_ClosePairingChannel | A_RevokeUnconfirmedPairRecord
  | A_MarkRecordRevoked | A_SendClosePairingRevoked | A_CloseSession
  | A_DestroyPairKeys | A_RecordLastSession | A_WithdrawIdentity | A_ShowConnected
  | A_ShowPairedDisconnected | A_ShowForgotten | A_ShowPeerForgot
  | A_ShowPeerWithdrawn | A_ClearResidualPairRecord | A_SendSessionHello
  | A_RecordPeerDisplayName | A_ShowPairingNotStored | A_OpenTransport
  | A_SendSessionPreamble | A_BeginKkInitiator | A_BeginKkResponder
  | A_DeriveSessionIdentifiers | A_SendSessionReady | A_SendCardStatus
  | A_StartLiveness | A_SendLivenessPing | A_RecordPeerCloseReason | A_EchoPeerClose
  | A_SendCloseUserDisconnect | A_SendCloseNormal | A_SendCloseProtocolViolation
  | A_SendCloseServiceWithdrawn | A_SendCloseCardUnavailable
  | A_NoteCloseNoticeImpossible | A_ProceedWithoutCloseNotice
  | A_DestroySessionMaterial | A_DestroyCredentialBuffers | A_ShowDisconnecting
  | A_ShowConnectionStopped | A_StartExpiryClock | A_SendErrorBusy
  | A_SendErrorDuplicateOperation | A_SendResultUnauthorized
  | A_SendResultUnsupportedParameter | A_SendProgressQueued | A_PresentConsent
  | A_SendProgressConsentShown | A_DismissConsent | A_ExecuteRead
  | A_CheckRetryFloor | A_ConsumeCardCommand | A_SendProgressWaitingForCard
  | A_SendProgressCardWaitEnded | A_PromptPinAgain | A_SendResultCompleted
  | A_SendResultUserCancelled | A_SendResultRetryFloor | A_SendResultCardError
  | A_SendResultOperationExpired | A_ClearOperationCredentials
  | A_ContinueCardExchangeLocally | A_DiscardAnswer | A_ReleaseCard | A_ShowProgress
  | A_ReleaseResult | A_ReleaseFailure | A_ReportOperationLost.

Definition is_terminal (self : OperationState) : bool :=
  match self with O_Completed | O_Rejected | O_Cancelled => true | _ => false end.

Record Transition (S : Type) := mkTransition { state : S; actions : list Action }.
Arguments mkTransition {S} _ _.
Arguments state {S} _.
Arguments actions {S} _.

Inductive TransitionError := WrongRole | GuardFailed | UnexpectedInput | TerminalOperation.

Definition require (condition : bool) : result TransitionError unit :=
  if condition then Ok tt else Err GuardFailed.

Definition require_role (role expected : EndpointRole) : result TransitionError unit :=
  match role, expected with
  | Requester, Requester | Proxy, Proxy => Ok tt
  | _, _ => Err WrongRole
  end.

(** ** The transition functions *)

Definition pairing_transition (self : PairingState) (role : EndpointRole) (event : PairingEvent) (guards : Guards)
  : result TransitionError (Transition PairingState) :=
  match self, event with
  | P_Unpaired, PE_StartPairing =>
      let? _ := require_role role Proxy in
      let? _ := require (user_initiated guards) in
      Ok (mkTransition P_Offering
        [A_GenerateOffer; A_GeneratePairingCode; A_AdvertisePairingMode;
         A_DisplayPairingCode])
  | P_Offering, PE_OfferExpiredOrCancelled =>
      let? _ := require_role role Proxy in
      Ok (mkTransition P_Unpaired
        [A_DestroyOffer; A_HidePairingCode])
  | P_Offering, PE_AttemptStarted =>
      let? _ := require_role role Proxy in
      Ok (mkTransition P_Exchanging
        [A_AdmitAttempt])
  | P_Unpaired, PE_CodeEntered =>
      let? _ := require_role role Requester in
      let? _ := require (user_initiated guards) in
      Ok (mkTransition P_Exchanging
        [A_ReadOffer; A_BeginCpaceInitiator])
  | P_Exchanging, PE_AttemptFailed =>
      match role with
      | Proxy =>
          Ok (mkTransition P_Offering
            [A_EndFailedAttempt])
      | Requester =>
          let? _ := require (untried_pairing_candidate guards) in
          Ok (mkTransition P_Exchanging
            [A_CloseCandidate; A_TryNextCandidate; A_ReadOffer; A_BeginCpaceInitiator])
      end
  | (P_Offering | P_Exchanging), PE_AttemptRefused =>
      let? _ := require_role role Proxy in
      Ok (mkTransition self
        [A_AnswerBusy])
  | P_Exchanging, PE_CandidateBusy =>
      let? _ := require_role role Requester in
      let? _ := require (untried_pairing_candidate guards) in
      Ok (mkTransition P_Exchanging
        [A_CloseCandidate; A_DeferCandidate; A_TryNextCandidate; A_ReadOffer;
         A_BeginCpaceInitiator])
  | P_Exchanging, PE_LastCandidateFailed =>
      let? _ := require_role role Requester in
      Ok (mkTransition P_Unpaired
        [A_CloseCandidate; A_ShowWrongCode])
  | P_Exchanging, PE_NoCustodianTried =>
      let? _ := require_role role Requester in
      Ok (mkTransition P_Unpaired
        [A_CloseCandidate; A_ShowNoneInPairingMode])
  | P_Exchanging, PE_SearchInterrupted =>
      let? _ := require_role role Requester in
      Ok (mkTransition P_Unpaired
        [A_CloseCandidate])
  | P_Exchanging, PE_OfferExpiredOrCancelled =>
      let? _ := require_role role Proxy in
      Ok (mkTransition P_Unpaired
        [A_DestroyOffer; A_HidePairingCode; A_CloseCandidate])
  | P_Exchanging, PE_KeyConfirmed =>
      match role with
      | Proxy =>
          Ok (mkTransition P_Handshaking
            [A_ConsumeOffer; A_HidePairingCode; A_DerivePairingSecret;
             A_BeginPairingHandshake])
      | Requester =>
          Ok (mkTransition P_Handshaking
            [A_DerivePairingSecret; A_BeginPairingHandshake])
      end
  | P_Handshaking, PE_HandshakeAuthenticated =>
      match role with
      | Requester =>
          let? _ := require (transcript_matches guards) in
          Ok (mkTransition P_Confirming
            [A_DeriveChannelIdentifiers; A_DestroyPairingSecret; A_SendPairingHello])
      | Proxy =>
          let? _ := require (transcript_matches guards) in
          Ok (mkTransition P_Confirming
            [A_DeriveChannelIdentifiers; A_DestroyPairingSecret])
      end
  | P_Handshaking, PE_HandshakeFailed =>
      Ok (mkTransition P_Unpaired
        [A_DestroyPairingSecret; A_DestroyCandidateKeys; A_CloseCandidate])
  | P_Confirming, PE_HelloVerified =>
      let? _ := require_role role Proxy in
      Ok (mkTransition P_Confirming
        [A_SendPairingConfirm])
  | P_Confirming, PE_BothConfirmed =>
      let? _ := require (granted_sets_equal guards) in
      Ok (mkTransition P_StorageConfirming
        [A_StorePairRecordAtomically; A_SendPairingStored])
  | P_Confirming, PE_DeniedAbortedOrTimedOut =>
      Ok (mkTransition P_Unpaired
        [A_SendPairingAbortBestEffort; A_DestroyCandidateKeys; A_CloseCandidate])
  | P_Confirming, PE_PairRecordStoreFailed =>
      Ok (mkTransition P_Unpaired
        [A_SendPairingAbortBestEffort; A_DestroyCandidateKeys; A_CloseCandidate;
         A_ShowPairingNotStored])
  | P_StorageConfirming, PE_PeerStorageConfirmed =>
      Ok (mkTransition P_PairedDisconnected
        [A_MarkRecordConfirmed; A_ClosePairingChannel])
  | P_StorageConfirming, PE_DeniedAbortedOrTimedOut =>
      Ok (mkTransition P_Unpaired
        [A_RevokeUnconfirmedPairRecord; A_DestroyPairKeys; A_CloseCandidate])
  | P_PairedDisconnected, PE_SessionHealthy =>
      Ok (mkTransition P_PairedConnected
        [A_RecordLastSession; A_ShowConnected])
  | P_PairedConnected, PE_SessionClosed =>
      Ok (mkTransition P_PairedDisconnected
        [A_RecordLastSession; A_ShowPairedDisconnected])
  | P_PairedConnected, PE_PeerWithdrawalNotice =>
      let? _ := require_role role Proxy in
      Ok (mkTransition P_PairedDisconnected
        [A_RecordLastSession; A_ShowPeerWithdrawn])
  | P_PairedConnected, PE_ForgetPairing =>
      let? _ := require (local_user_action guards) in
      Ok (mkTransition P_Revoked
        [A_MarkRecordRevoked; A_SendClosePairingRevoked; A_CloseSession; A_DestroyPairKeys;
         A_WithdrawIdentity; A_ShowForgotten])
  | P_PairedDisconnected, PE_ForgetPairing =>
      let? _ := require (local_user_action guards) in
      Ok (mkTransition P_Revoking
        [A_MarkRecordRevoked; A_WithdrawIdentity; A_ShowForgotten])
  | P_PairedConnected, PE_ExpiryCheck =>
      Ok (mkTransition P_PairedConnected
        [A_RecordLastSession])
  | P_PairedDisconnected, PE_ExpiryCheck =>
      Ok (mkTransition P_PairedDisconnected
        [])
  | P_PairedDisconnected, PE_IdleExpired =>
      match role with
      | Proxy =>
          Ok (mkTransition P_Revoking
            [A_MarkRecordRevoked; A_WithdrawIdentity])
      | Requester =>
          Ok (mkTransition P_Revoked
            [A_MarkRecordRevoked; A_DestroyPairKeys; A_WithdrawIdentity])
      end
  | P_Revoking, PE_RevocationNoticeSent =>
      Ok (mkTransition P_Revoked
        [A_DestroyPairKeys])
  | P_Revoking, PE_NoticeWindowExpired =>
      let? _ := require_role role Proxy in
      Ok (mkTransition P_Revoked
        [A_DestroyPairKeys])
  | P_Revoking, PE_RevocationAttemptEnded =>
      let? _ := require_role role Requester in
      Ok (mkTransition P_Revoked
        [A_DestroyPairKeys])
  | P_PairedDisconnected, PE_PeerRevocationNotice =>
      Ok (mkTransition P_Revoked
        [A_MarkRecordRevoked; A_CloseSession; A_DestroyPairKeys; A_WithdrawIdentity;
         A_ShowPeerForgot])
  | P_PairedConnected, PE_PeerRevocationNotice =>
      Ok (mkTransition P_Revoked
        [A_MarkRecordRevoked; A_CloseSession; A_DestroyPairKeys; A_WithdrawIdentity;
         A_ShowPeerForgot])
  | P_Revoking, PE_PeerRevocationNotice =>
      Ok (mkTransition P_Revoked
        [A_MarkRecordRevoked; A_CloseSession; A_DestroyPairKeys; A_WithdrawIdentity;
         A_ShowPeerForgot])
  | P_Revoked, PE_ForgetPairing =>
      let? _ := require (local_user_action guards) in
      Ok (mkTransition P_Unpaired
        [A_ClearResidualPairRecord])
  | _, _ => Err UnexpectedInput
  end.

Definition session_transition (self : SessionState) (role : EndpointRole) (event : SessionEvent) (guards : Guards)
  : result TransitionError (Transition SessionState) :=
  match self, event with
  | S_Absent, SE_Connect =>
      let? _ := require_role role Requester in
      let? _ := require (initiation_permitted guards) in
      Ok (mkTransition S_Connecting
        [A_OpenTransport])
  | S_Absent, SE_PreambleReceived =>
      let? _ := require_role role Proxy in
      let? _ := require (pairing_routed guards) in
      Ok (mkTransition S_Authenticating
        [A_BeginKkResponder])
  | S_Connecting, SE_TransportConnected =>
      let? _ := require_role role Requester in
      Ok (mkTransition S_Authenticating
        [A_SendSessionPreamble; A_BeginKkInitiator])
  | S_Connecting, SE_TransportFailed =>
      let? _ := require_role role Requester in
      Ok (mkTransition S_Closed
        [A_DestroySessionMaterial; A_ShowConnectionStopped])
  | S_Authenticating, SE_HandshakeComplete =>
      match role with
      | Proxy =>
          Ok (mkTransition S_Healthy
            [A_DeriveSessionIdentifiers; A_SendSessionReady; A_SendCardStatus;
             A_StartLiveness])
      | Requester =>
          Ok (mkTransition S_Authenticating
            [A_DeriveSessionIdentifiers])
      end
  | S_Authenticating, SE_HandshakeCompleteWhileRevoking =>
      Ok (mkTransition S_Closing
        [A_DeriveSessionIdentifiers; A_SendClosePairingRevoked])
  | S_Authenticating, SE_PeerCloseReceived =>
      let? _ := require_role role Requester in
      Ok (mkTransition S_Closed
        [A_RecordPeerCloseReason; A_EchoPeerClose; A_DestroySessionMaterial])
  | S_Authenticating, SE_ReadyVerified =>
      let? _ := require_role role Requester in
      let? _ := require (ready_parameters_match guards) in
      Ok (mkTransition S_Healthy
        [A_RecordPeerDisplayName; A_SendSessionHello; A_StartLiveness; A_ShowConnected])
  | S_Authenticating, SE_CandidateFailure =>
      Ok (mkTransition S_Closed
        [A_DestroySessionMaterial; A_CloseCandidate])
  | S_Authenticating, SE_TransportFailed =>
      Ok (mkTransition S_Closed
        [A_DestroySessionMaterial; A_ShowConnectionStopped])
  | S_Authenticating, SE_AuthenticatedProtocolViolation =>
      Ok (mkTransition S_Closing
        [A_SendCloseProtocolViolation; A_ShowDisconnecting])
  | S_Healthy, SE_SessionHelloReceived =>
      let? _ := require_role role Proxy in
      Ok (mkTransition S_Healthy
        [A_RecordPeerDisplayName])
  | S_Healthy, SE_PeerSilent =>
      Ok (mkTransition S_Healthy
        [A_SendLivenessPing])
  | S_Healthy, SE_SilenceLimitReached =>
      Ok (mkTransition S_Closing
        [A_NoteCloseNoticeImpossible; A_ShowDisconnecting])
  | S_Healthy, SE_UserDisconnect =>
      Ok (mkTransition S_Closing
        [A_SendCloseUserDisconnect; A_ShowDisconnecting])
  | S_Healthy, SE_LocalCloseRequested =>
      Ok (mkTransition S_Closing
        [A_SendCloseNormal; A_ShowDisconnecting])
  | S_Healthy, SE_ServiceWithdrawn =>
      Ok (mkTransition S_Closing
        [A_SendCloseServiceWithdrawn; A_ShowDisconnecting])
  | (S_Connecting | S_Authenticating), SE_ServiceWithdrawn =>
      let? _ := require_role role Requester in
      Ok (mkTransition S_Closed
        [A_DestroySessionMaterial; A_CloseCandidate; A_ShowConnectionStopped])
  | S_Healthy, SE_CardUnavailable =>
      let? _ := require_role role Proxy in
      Ok (mkTransition S_Closing
        [A_SendCloseCardUnavailable; A_ShowDisconnecting])
  | S_Healthy, SE_PeerCloseReceived =>
      Ok (mkTransition S_Closing
        [A_RecordPeerCloseReason; A_EchoPeerClose; A_ShowDisconnecting])
  | S_Healthy, SE_TransportFailed =>
      Ok (mkTransition S_Closing
        [A_NoteCloseNoticeImpossible; A_ShowDisconnecting])
  | S_Healthy, SE_SessionIntegrityFailed =>
      Ok (mkTransition S_Closing
        [A_NoteCloseNoticeImpossible; A_ShowDisconnecting])
  | S_Healthy, SE_AuthenticatedProtocolViolation =>
      Ok (mkTransition S_Closing
        [A_SendCloseProtocolViolation; A_ShowDisconnecting])
  | S_Healthy, SE_CloseRequestedByPairing =>
      Ok (mkTransition S_Closing
        [A_ShowDisconnecting])
  | S_Connecting, SE_CloseRequestedByPairing =>
      Ok (mkTransition S_Closed
        [A_DestroySessionMaterial; A_CloseCandidate; A_ShowConnectionStopped])
  | S_Authenticating, SE_CloseRequestedByPairing =>
      Ok (mkTransition S_Closed
        [A_DestroySessionMaterial; A_CloseCandidate; A_ShowConnectionStopped])
  | S_Closing, SE_PeerCloseReceived =>
      Ok (mkTransition S_Closed
        [A_RecordPeerCloseReason; A_DestroySessionMaterial; A_DestroyCredentialBuffers;
         A_ShowConnectionStopped])
  | S_Closing, SE_TransportFailed =>
      Ok (mkTransition S_Closing
        [A_ProceedWithoutCloseNotice])
  | S_Closing, SE_CloseCompleteOrDeadline =>
      Ok (mkTransition S_Closed
        [A_DestroySessionMaterial; A_DestroyCredentialBuffers; A_ShowConnectionStopped])
  | _, _ => Err UnexpectedInput
  end.

Definition operation_transition (self : OperationState) (role : EndpointRole) (event : OperationEvent) (guards : Guards)
  : result TransitionError (Transition OperationState) :=
  match self, event with
  | O_None, OE_RequestReceived =>
      let? _ := require_role role Proxy in
      Ok (mkTransition O_Requested
        [A_StartExpiryClock])
  | O_None, OE_RequestDuplicate =>
      let? _ := require_role role Proxy in
      Ok (mkTransition O_None
        [A_SendErrorDuplicateOperation])
  | O_None, OE_RequestWhileBusy =>
      let? _ := require_role role Proxy in
      Ok (mkTransition O_None
        [A_SendErrorBusy])
  | O_None, OE_RequestUnauthorized =>
      let? _ := require_role role Proxy in
      Ok (mkTransition O_Rejected
        [A_SendResultUnauthorized])
  | O_None, OE_RequestUnsupported =>
      let? _ := require_role role Proxy in
      Ok (mkTransition O_Rejected
        [A_SendResultUnsupportedParameter])
  | O_Requested, OE_CardHeldElsewhere =>
      let? _ := require_role role Proxy in
      Ok (mkTransition O_Queued
        [A_SendProgressQueued])
  | O_Requested, OE_CardAcquiredForConsent =>
      let? _ := require_role role Proxy in
      Ok (mkTransition O_AwaitingConsent
        [A_PresentConsent; A_SendProgressConsentShown])
  | O_Queued, OE_CardAcquiredForConsent =>
      let? _ := require_role role Proxy in
      Ok (mkTransition O_AwaitingConsent
        [A_PresentConsent; A_SendProgressConsentShown])
  | O_Requested, OE_CardAcquiredForRead =>
      let? _ := require_role role Proxy in
      Ok (mkTransition O_Executing
        [A_ExecuteRead])
  | O_Queued, OE_CardAcquiredForRead =>
      let? _ := require_role role Proxy in
      Ok (mkTransition O_Executing
        [A_ExecuteRead])
  | O_AwaitingConsent, OE_UserDenied =>
      let? _ := require_role role Proxy in
      Ok (mkTransition O_Rejected
        [A_DismissConsent; A_SendResultUserCancelled; A_ReleaseCard])
  | O_AwaitingConsent, OE_UserApproved =>
      let? _ := require_role role Proxy in
      Ok (mkTransition O_Executing
        [A_DismissConsent; A_CheckRetryFloor; A_ConsumeCardCommand])
  | O_Executing, OE_WaitingForCard =>
      let? _ := require_role role Proxy in
      Ok (mkTransition O_Executing
        [A_SendProgressWaitingForCard])
  | O_Executing, OE_CardFound =>
      let? _ := require_role role Proxy in
      Ok (mkTransition O_Executing
        [A_SendProgressCardWaitEnded])
  | O_Executing, OE_WrongPin =>
      let? _ := require_role role Proxy in
      Ok (mkTransition O_Executing
        [A_PromptPinAgain])
  | O_Executing, OE_RetryFloorRefused =>
      let? _ := require_role role Proxy in
      Ok (mkTransition O_Rejected
        [A_ClearOperationCredentials; A_SendResultRetryFloor; A_ReleaseCard])
  | O_Executing, OE_CardSuccess =>
      let? _ := require_role role Proxy in
      Ok (mkTransition O_Completed
        [A_ClearOperationCredentials; A_SendResultCompleted; A_ReleaseCard])
  | O_Executing, OE_CardError =>
      let? _ := require_role role Proxy in
      Ok (mkTransition O_Rejected
        [A_ClearOperationCredentials; A_SendResultCardError; A_ReleaseCard])
  | O_Requested, OE_RequestExpired =>
      let? _ := require_role role Proxy in
      Ok (mkTransition O_Cancelled
        [A_DismissConsent; A_SendResultOperationExpired; A_ReleaseCard])
  | O_Queued, OE_RequestExpired =>
      let? _ := require_role role Proxy in
      Ok (mkTransition O_Cancelled
        [A_DismissConsent; A_SendResultOperationExpired; A_ReleaseCard])
  | O_AwaitingConsent, OE_RequestExpired =>
      let? _ := require_role role Proxy in
      Ok (mkTransition O_Cancelled
        [A_DismissConsent; A_SendResultOperationExpired; A_ReleaseCard])
  | O_Requested, OE_SessionClosed =>
      match role with
      | Proxy =>
          Ok (mkTransition O_None
            [A_DismissConsent; A_ClearOperationCredentials; A_ReleaseCard])
      | Requester =>
          Ok (mkTransition O_None
            [A_ReportOperationLost])
      end
  | O_Queued, OE_SessionClosed =>
      let? _ := require_role role Proxy in
      Ok (mkTransition O_None
        [A_DismissConsent; A_ClearOperationCredentials; A_ReleaseCard])
  | O_AwaitingConsent, OE_SessionClosed =>
      let? _ := require_role role Proxy in
      Ok (mkTransition O_None
        [A_DismissConsent; A_ClearOperationCredentials; A_ReleaseCard])
  | O_Executing, OE_SessionClosed =>
      let? _ := require_role role Proxy in
      Ok (mkTransition O_None
        [A_ContinueCardExchangeLocally; A_DiscardAnswer; A_ClearOperationCredentials;
         A_ReleaseCard])
  | O_None, OE_RequestSent =>
      let? _ := require_role role Requester in
      Ok (mkTransition O_Requested
        [])
  | O_Requested, OE_ProgressReceived =>
      let? _ := require_role role Requester in
      Ok (mkTransition O_Requested
        [A_ShowProgress])
  | O_Requested, OE_ResultCompletedReceived =>
      let? _ := require_role role Requester in
      Ok (mkTransition O_Completed
        [A_ReleaseResult])
  | O_Requested, OE_ResultRejectedReceived =>
      let? _ := require_role role Requester in
      Ok (mkTransition O_Rejected
        [A_ReleaseFailure])
  | O_Requested, OE_ResultCancelledReceived =>
      let? _ := require_role role Requester in
      Ok (mkTransition O_Cancelled
        [A_ReleaseFailure])
  | (O_Completed | O_Rejected | O_Cancelled), _ => Err TerminalOperation
  | _, _ => Err UnexpectedInput
  end.

(** ** The composite state *)

Record RappState := mkRappState {
  role : EndpointRole; pairing : PairingState; session : SessionState }.

(** [SecurityOutcome]: the actions, beside the state the call leaves. *)
Definition unpaired (r : EndpointRole) : RappState := mkRappState r P_Unpaired S_Absent.

Definition operation_admission_permitted (self : RappState) : bool :=
  match pairing self with P_PairedConnected => true | _ => false end
  && match session self with S_Healthy => true | _ => false end.

Definition close_session (self : RappState) (event : SessionEvent) : RappState * list Action :=
  match session_transition (session self) (role self) event Guards_default with
  | Ok t => (mkRappState (role self) (pairing self) (state t), actions t)
  | Err _ => (self, [])
  end.

Definition authenticated_protocol_violation (self : RappState) : RappState * list Action :=
  let pairing_event :=
    match pairing self with
    | P_Handshaking => Some PE_HandshakeFailed
    | P_Confirming | P_StorageConfirming => Some PE_DeniedAbortedOrTimedOut
    | P_Exchanging =>
        Some match role self with
             | Proxy => PE_AttemptFailed
             | Requester => PE_LastCandidateFailed
             end
    | _ => None
    end in
  match pairing_event with
  | Some event =>
      match pairing_transition (pairing self) (role self) event Guards_default with
      | Ok t => (mkRappState (role self) (state t) (session self), actions t)
      | Err _ => (self, [])
      end
  | None => close_session self SE_AuthenticatedProtocolViolation
  end.

Definition session_integrity_failed (self : RappState) : RappState * list Action :=
  close_session self SE_SessionIntegrityFailed.

Definition silence_limit_reached (self : RappState) : RappState * list Action :=
  close_session self SE_SilenceLimitReached.

(** ** The published tables *)

Record rule (S E : Type) := mkRule {
  rule_from : S; rule_event : E; rule_role : option EndpointRole;
  rule_guard : option (Guards -> bool); rule_to : S; rule_actions : list Action }.
Arguments mkRule {S E} _ _ _ _ _ _.
Arguments rule_from {S E} _.
Arguments rule_event {S E} _.
Arguments rule_role {S E} _.
Arguments rule_guard {S E} _.
Arguments rule_to {S E} _.
Arguments rule_actions {S E} _.

Definition pairing_table : list (rule PairingState PairingEvent) :=
  [ mkRule P_Unpaired PE_StartPairing (Some Proxy) (Some user_initiated) P_Offering
     [A_GenerateOffer; A_GeneratePairingCode; A_AdvertisePairingMode; A_DisplayPairingCode];
    mkRule P_Offering PE_OfferExpiredOrCancelled (Some Proxy) (None) P_Unpaired
     [A_DestroyOffer; A_HidePairingCode];
    mkRule P_Offering PE_AttemptStarted (Some Proxy) (None) P_Exchanging
     [A_AdmitAttempt];
    mkRule P_Unpaired PE_CodeEntered (Some Requester) (Some user_initiated) P_Exchanging
     [A_ReadOffer; A_BeginCpaceInitiator];
    mkRule P_Exchanging PE_AttemptFailed (Some Proxy) (None) P_Offering
     [A_EndFailedAttempt];
    mkRule P_Offering PE_AttemptRefused (Some Proxy) (None) P_Offering
     [A_AnswerBusy];
    mkRule P_Exchanging PE_AttemptRefused (Some Proxy) (None) P_Exchanging
     [A_AnswerBusy];
    mkRule P_Exchanging PE_CandidateBusy (Some Requester) (Some untried_pairing_candidate) P_Exchanging
     [A_CloseCandidate; A_DeferCandidate; A_TryNextCandidate; A_ReadOffer;
      A_BeginCpaceInitiator];
    mkRule P_Exchanging PE_AttemptFailed (Some Requester) (Some untried_pairing_candidate) P_Exchanging
     [A_CloseCandidate; A_TryNextCandidate; A_ReadOffer; A_BeginCpaceInitiator];
    mkRule P_Exchanging PE_LastCandidateFailed (Some Requester) (None) P_Unpaired
     [A_CloseCandidate; A_ShowWrongCode];
    mkRule P_Exchanging PE_NoCustodianTried (Some Requester) (None) P_Unpaired
     [A_CloseCandidate; A_ShowNoneInPairingMode];
    mkRule P_Exchanging PE_SearchInterrupted (Some Requester) (None) P_Unpaired
     [A_CloseCandidate];
    mkRule P_Exchanging PE_OfferExpiredOrCancelled (Some Proxy) (None) P_Unpaired
     [A_DestroyOffer; A_HidePairingCode; A_CloseCandidate];
    mkRule P_Exchanging PE_KeyConfirmed (Some Proxy) (None) P_Handshaking
     [A_ConsumeOffer; A_HidePairingCode; A_DerivePairingSecret; A_BeginPairingHandshake];
    mkRule P_Exchanging PE_KeyConfirmed (Some Requester) (None) P_Handshaking
     [A_DerivePairingSecret; A_BeginPairingHandshake];
    mkRule P_Handshaking PE_HandshakeAuthenticated (Some Requester) (Some transcript_matches) P_Confirming
     [A_DeriveChannelIdentifiers; A_DestroyPairingSecret; A_SendPairingHello];
    mkRule P_Handshaking PE_HandshakeAuthenticated (Some Proxy) (Some transcript_matches) P_Confirming
     [A_DeriveChannelIdentifiers; A_DestroyPairingSecret];
    mkRule P_Handshaking PE_HandshakeFailed (None) (None) P_Unpaired
     [A_DestroyPairingSecret; A_DestroyCandidateKeys; A_CloseCandidate];
    mkRule P_Confirming PE_HelloVerified (Some Proxy) (None) P_Confirming
     [A_SendPairingConfirm];
    mkRule P_Confirming PE_BothConfirmed (None) (Some granted_sets_equal) P_StorageConfirming
     [A_StorePairRecordAtomically; A_SendPairingStored];
    mkRule P_Confirming PE_DeniedAbortedOrTimedOut (None) (None) P_Unpaired
     [A_SendPairingAbortBestEffort; A_DestroyCandidateKeys; A_CloseCandidate];
    mkRule P_Confirming PE_PairRecordStoreFailed (None) (None) P_Unpaired
     [A_SendPairingAbortBestEffort; A_DestroyCandidateKeys; A_CloseCandidate;
      A_ShowPairingNotStored];
    mkRule P_StorageConfirming PE_PeerStorageConfirmed (None) (None) P_PairedDisconnected
     [A_MarkRecordConfirmed; A_ClosePairingChannel];
    mkRule P_StorageConfirming PE_DeniedAbortedOrTimedOut (None) (None) P_Unpaired
     [A_RevokeUnconfirmedPairRecord; A_DestroyPairKeys; A_CloseCandidate];
    mkRule P_PairedDisconnected PE_SessionHealthy (None) (None) P_PairedConnected
     [A_RecordLastSession; A_ShowConnected];
    mkRule P_PairedConnected PE_SessionClosed (None) (None) P_PairedDisconnected
     [A_RecordLastSession; A_ShowPairedDisconnected];
    mkRule P_PairedConnected PE_PeerWithdrawalNotice (Some Proxy) (None) P_PairedDisconnected
     [A_RecordLastSession; A_ShowPeerWithdrawn];
    mkRule P_PairedConnected PE_ForgetPairing (None) (Some local_user_action) P_Revoked
     [A_MarkRecordRevoked; A_SendClosePairingRevoked; A_CloseSession; A_DestroyPairKeys;
      A_WithdrawIdentity; A_ShowForgotten];
    mkRule P_PairedDisconnected PE_ForgetPairing (None) (Some local_user_action) P_Revoking
     [A_MarkRecordRevoked; A_WithdrawIdentity; A_ShowForgotten];
    mkRule P_PairedConnected PE_ExpiryCheck (None) (None) P_PairedConnected
     [A_RecordLastSession];
    mkRule P_PairedDisconnected PE_ExpiryCheck (None) (None) P_PairedDisconnected
     [];
    mkRule P_PairedDisconnected PE_IdleExpired (Some Proxy) (None) P_Revoking
     [A_MarkRecordRevoked; A_WithdrawIdentity];
    mkRule P_PairedDisconnected PE_IdleExpired (Some Requester) (None) P_Revoked
     [A_MarkRecordRevoked; A_DestroyPairKeys; A_WithdrawIdentity];
    mkRule P_Revoking PE_RevocationNoticeSent (None) (None) P_Revoked
     [A_DestroyPairKeys];
    mkRule P_Revoking PE_NoticeWindowExpired (Some Proxy) (None) P_Revoked
     [A_DestroyPairKeys];
    mkRule P_Revoking PE_RevocationAttemptEnded (Some Requester) (None) P_Revoked
     [A_DestroyPairKeys];
    mkRule P_PairedDisconnected PE_PeerRevocationNotice (None) (None) P_Revoked
     [A_MarkRecordRevoked; A_CloseSession; A_DestroyPairKeys; A_WithdrawIdentity;
      A_ShowPeerForgot];
    mkRule P_PairedConnected PE_PeerRevocationNotice (None) (None) P_Revoked
     [A_MarkRecordRevoked; A_CloseSession; A_DestroyPairKeys; A_WithdrawIdentity;
      A_ShowPeerForgot];
    mkRule P_Revoking PE_PeerRevocationNotice (None) (None) P_Revoked
     [A_MarkRecordRevoked; A_CloseSession; A_DestroyPairKeys; A_WithdrawIdentity;
      A_ShowPeerForgot];
    mkRule P_Revoked PE_ForgetPairing (None) (Some local_user_action) P_Unpaired
     [A_ClearResidualPairRecord] ].

Definition session_table : list (rule SessionState SessionEvent) :=
  [ mkRule S_Absent SE_Connect (Some Requester) (Some initiation_permitted) S_Connecting
     [A_OpenTransport];
    mkRule S_Absent SE_PreambleReceived (Some Proxy) (Some pairing_routed) S_Authenticating
     [A_BeginKkResponder];
    mkRule S_Connecting SE_TransportConnected (Some Requester) (None) S_Authenticating
     [A_SendSessionPreamble; A_BeginKkInitiator];
    mkRule S_Connecting SE_TransportFailed (Some Requester) (None) S_Closed
     [A_DestroySessionMaterial; A_ShowConnectionStopped];
    mkRule S_Authenticating SE_HandshakeComplete (Some Proxy) (None) S_Healthy
     [A_DeriveSessionIdentifiers; A_SendSessionReady; A_SendCardStatus; A_StartLiveness];
    mkRule S_Authenticating SE_HandshakeComplete (Some Requester) (None) S_Authenticating
     [A_DeriveSessionIdentifiers];
    mkRule S_Authenticating SE_HandshakeCompleteWhileRevoking (None) (None) S_Closing
     [A_DeriveSessionIdentifiers; A_SendClosePairingRevoked];
    mkRule S_Authenticating SE_PeerCloseReceived (Some Requester) (None) S_Closed
     [A_RecordPeerCloseReason; A_EchoPeerClose; A_DestroySessionMaterial];
    mkRule S_Authenticating SE_ReadyVerified (Some Requester) (Some ready_parameters_match) S_Healthy
     [A_RecordPeerDisplayName; A_SendSessionHello; A_StartLiveness; A_ShowConnected];
    mkRule S_Authenticating SE_CandidateFailure (None) (None) S_Closed
     [A_DestroySessionMaterial; A_CloseCandidate];
    mkRule S_Authenticating SE_TransportFailed (None) (None) S_Closed
     [A_DestroySessionMaterial; A_ShowConnectionStopped];
    mkRule S_Authenticating SE_AuthenticatedProtocolViolation (None) (None) S_Closing
     [A_SendCloseProtocolViolation; A_ShowDisconnecting];
    mkRule S_Healthy SE_SessionHelloReceived (Some Proxy) (None) S_Healthy
     [A_RecordPeerDisplayName];
    mkRule S_Healthy SE_PeerSilent (None) (None) S_Healthy
     [A_SendLivenessPing];
    mkRule S_Healthy SE_SilenceLimitReached (None) (None) S_Closing
     [A_NoteCloseNoticeImpossible; A_ShowDisconnecting];
    mkRule S_Healthy SE_UserDisconnect (None) (None) S_Closing
     [A_SendCloseUserDisconnect; A_ShowDisconnecting];
    mkRule S_Healthy SE_LocalCloseRequested (None) (None) S_Closing
     [A_SendCloseNormal; A_ShowDisconnecting];
    mkRule S_Healthy SE_ServiceWithdrawn (None) (None) S_Closing
     [A_SendCloseServiceWithdrawn; A_ShowDisconnecting];
    mkRule S_Connecting SE_ServiceWithdrawn (Some Requester) (None) S_Closed
     [A_DestroySessionMaterial; A_CloseCandidate; A_ShowConnectionStopped];
    mkRule S_Authenticating SE_ServiceWithdrawn (Some Requester) (None) S_Closed
     [A_DestroySessionMaterial; A_CloseCandidate; A_ShowConnectionStopped];
    mkRule S_Healthy SE_CardUnavailable (Some Proxy) (None) S_Closing
     [A_SendCloseCardUnavailable; A_ShowDisconnecting];
    mkRule S_Healthy SE_PeerCloseReceived (None) (None) S_Closing
     [A_RecordPeerCloseReason; A_EchoPeerClose; A_ShowDisconnecting];
    mkRule S_Healthy SE_TransportFailed (None) (None) S_Closing
     [A_NoteCloseNoticeImpossible; A_ShowDisconnecting];
    mkRule S_Healthy SE_SessionIntegrityFailed (None) (None) S_Closing
     [A_NoteCloseNoticeImpossible; A_ShowDisconnecting];
    mkRule S_Healthy SE_AuthenticatedProtocolViolation (None) (None) S_Closing
     [A_SendCloseProtocolViolation; A_ShowDisconnecting];
    mkRule S_Healthy SE_CloseRequestedByPairing (None) (None) S_Closing
     [A_ShowDisconnecting];
    mkRule S_Connecting SE_CloseRequestedByPairing (None) (None) S_Closed
     [A_DestroySessionMaterial; A_CloseCandidate; A_ShowConnectionStopped];
    mkRule S_Authenticating SE_CloseRequestedByPairing (None) (None) S_Closed
     [A_DestroySessionMaterial; A_CloseCandidate; A_ShowConnectionStopped];
    mkRule S_Closing SE_PeerCloseReceived (None) (None) S_Closed
     [A_RecordPeerCloseReason; A_DestroySessionMaterial; A_DestroyCredentialBuffers;
      A_ShowConnectionStopped];
    mkRule S_Closing SE_TransportFailed (None) (None) S_Closing
     [A_ProceedWithoutCloseNotice];
    mkRule S_Closing SE_CloseCompleteOrDeadline (None) (None) S_Closed
     [A_DestroySessionMaterial; A_DestroyCredentialBuffers; A_ShowConnectionStopped] ].

Definition operation_table : list (rule OperationState OperationEvent) :=
  [ mkRule O_None OE_RequestReceived (Some Proxy) (None) O_Requested
     [A_StartExpiryClock];
    mkRule O_None OE_RequestDuplicate (Some Proxy) (None) O_None
     [A_SendErrorDuplicateOperation];
    mkRule O_None OE_RequestWhileBusy (Some Proxy) (None) O_None
     [A_SendErrorBusy];
    mkRule O_None OE_RequestUnauthorized (Some Proxy) (None) O_Rejected
     [A_SendResultUnauthorized];
    mkRule O_None OE_RequestUnsupported (Some Proxy) (None) O_Rejected
     [A_SendResultUnsupportedParameter];
    mkRule O_Requested OE_CardHeldElsewhere (Some Proxy) (None) O_Queued
     [A_SendProgressQueued];
    mkRule O_Requested OE_CardAcquiredForConsent (Some Proxy) (None) O_AwaitingConsent
     [A_PresentConsent; A_SendProgressConsentShown];
    mkRule O_Queued OE_CardAcquiredForConsent (Some Proxy) (None) O_AwaitingConsent
     [A_PresentConsent; A_SendProgressConsentShown];
    mkRule O_Requested OE_CardAcquiredForRead (Some Proxy) (None) O_Executing
     [A_ExecuteRead];
    mkRule O_Queued OE_CardAcquiredForRead (Some Proxy) (None) O_Executing
     [A_ExecuteRead];
    mkRule O_AwaitingConsent OE_UserDenied (Some Proxy) (None) O_Rejected
     [A_DismissConsent; A_SendResultUserCancelled; A_ReleaseCard];
    mkRule O_AwaitingConsent OE_UserApproved (Some Proxy) (None) O_Executing
     [A_DismissConsent; A_CheckRetryFloor; A_ConsumeCardCommand];
    mkRule O_Executing OE_WaitingForCard (Some Proxy) (None) O_Executing
     [A_SendProgressWaitingForCard];
    mkRule O_Executing OE_CardFound (Some Proxy) (None) O_Executing
     [A_SendProgressCardWaitEnded];
    mkRule O_Executing OE_WrongPin (Some Proxy) (None) O_Executing
     [A_PromptPinAgain];
    mkRule O_Executing OE_RetryFloorRefused (Some Proxy) (None) O_Rejected
     [A_ClearOperationCredentials; A_SendResultRetryFloor; A_ReleaseCard];
    mkRule O_Executing OE_CardSuccess (Some Proxy) (None) O_Completed
     [A_ClearOperationCredentials; A_SendResultCompleted; A_ReleaseCard];
    mkRule O_Executing OE_CardError (Some Proxy) (None) O_Rejected
     [A_ClearOperationCredentials; A_SendResultCardError; A_ReleaseCard];
    mkRule O_Requested OE_RequestExpired (Some Proxy) (None) O_Cancelled
     [A_DismissConsent; A_SendResultOperationExpired; A_ReleaseCard];
    mkRule O_Queued OE_RequestExpired (Some Proxy) (None) O_Cancelled
     [A_DismissConsent; A_SendResultOperationExpired; A_ReleaseCard];
    mkRule O_AwaitingConsent OE_RequestExpired (Some Proxy) (None) O_Cancelled
     [A_DismissConsent; A_SendResultOperationExpired; A_ReleaseCard];
    mkRule O_Requested OE_SessionClosed (Some Proxy) (None) O_None
     [A_DismissConsent; A_ClearOperationCredentials; A_ReleaseCard];
    mkRule O_Queued OE_SessionClosed (Some Proxy) (None) O_None
     [A_DismissConsent; A_ClearOperationCredentials; A_ReleaseCard];
    mkRule O_AwaitingConsent OE_SessionClosed (Some Proxy) (None) O_None
     [A_DismissConsent; A_ClearOperationCredentials; A_ReleaseCard];
    mkRule O_Executing OE_SessionClosed (Some Proxy) (None) O_None
     [A_ContinueCardExchangeLocally; A_DiscardAnswer; A_ClearOperationCredentials;
      A_ReleaseCard];
    mkRule O_None OE_RequestSent (Some Requester) (None) O_Requested
     [];
    mkRule O_Requested OE_ProgressReceived (Some Requester) (None) O_Requested
     [A_ShowProgress];
    mkRule O_Requested OE_ResultCompletedReceived (Some Requester) (None) O_Completed
     [A_ReleaseResult];
    mkRule O_Requested OE_ResultRejectedReceived (Some Requester) (None) O_Rejected
     [A_ReleaseFailure];
    mkRule O_Requested OE_ResultCancelledReceived (Some Requester) (None) O_Cancelled
     [A_ReleaseFailure];
    mkRule O_Requested OE_SessionClosed (Some Requester) (None) O_None
     [A_ReportOperationLost] ].

#[export] Instance EndpointRole_eq_dec : EqDecision EndpointRole.
Proof. solve_decision. Defined.
#[export] Instance PairingState_eq_dec : EqDecision PairingState.
Proof. solve_decision. Defined.
#[export] Instance SessionState_eq_dec : EqDecision SessionState.
Proof. solve_decision. Defined.
#[export] Instance OperationState_eq_dec : EqDecision OperationState.
Proof. solve_decision. Defined.
#[export] Instance PairingEvent_eq_dec : EqDecision PairingEvent.
Proof. solve_decision. Defined.
#[export] Instance SessionEvent_eq_dec : EqDecision SessionEvent.
Proof. solve_decision. Defined.
#[export] Instance OperationEvent_eq_dec : EqDecision OperationEvent.
Proof. solve_decision. Defined.

Section Tables.
Context {S E : Type} `{EqDecision S, EqDecision E}.

(** A rule fires in its state, on its event, at its role, under its guard. *)
Definition applies (s : S) (r : EndpointRole) (e : E) (g : Guards) (x : rule S E) : bool :=
  bool_decide (rule_from x = s) && bool_decide (rule_event x = e)
  && match rule_role x with Some r' => bool_decide (r = r') | None => true end
  && match rule_guard x with Some b => b g | None => true end.

(** The outcomes the table allows. *)
Definition outcomes (table : list (rule S E)) (s : S) (r : EndpointRole) (e : E) (g : Guards)
  : list (Transition S) :=
  (fun x => mkTransition (rule_to x) (rule_actions x)) <$> List.filter (applies s r e g) table.

Definition accepted {X} (t : result X (Transition S)) : list (Transition S) :=
  match t with Ok t => [t] | Err _ => [] end.

End Tables.

(** Decide an equation between finite computations in which only the guards
    are left abstract. *)
Ltac by_guards :=
  vm_compute;
  repeat match goal with
  | |- context [match ?b with true => _ | false => _ end] => is_var b; destruct b
  end; (reflexivity || exact I || discriminate || (intros; discriminate)).

Lemma pairing_accepts s r e g :
  accepted (pairing_transition s r e g) = outcomes pairing_table s r e g.
Proof. destruct g. destruct s, r, e; by_guards. Qed.

Lemma session_accepts s r e g :
  accepted (session_transition s r e g) = outcomes session_table s r e g.
Proof. destruct g. destruct s, r, e; by_guards. Qed.

Lemma operation_accepts s r e g :
  accepted (operation_transition s r e g) = outcomes operation_table s r e g.
Proof. destruct g. destruct s, r, e; by_guards. Qed.

(** ** Runs *)

Section Runs.
Context {S E : Type}.
Context (trans : S -> EndpointRole -> E -> Guards -> result TransitionError (Transition S)).

(** A run of a machine at one role: the accepted events with the guards they
    came under, and every action taken, in order.  A refused event leaves the
    state as it is and takes no action. *)
Inductive run (r : EndpointRole) (s0 : S) : list (E * Guards) -> S -> list Action -> Prop :=
  | run_start : run r s0 [] s0 []
  | run_step evs s log e g t :
      run r s0 evs s log -> trans s r e g = Ok t ->
      run r s0 (evs ++ [(e, g)]) (state t) (log ++ actions t).

(** A quantity tracked over the actions of a run is a function of the state,
    when every transition carries it from one state's value to the other's. *)
Lemma run_tracks {V} (after : V -> Action -> V) (val : S -> V) r s0 :
  (forall s e g, match trans s r e g with
                 | Ok t => fold_left after (actions t) (val s) = val (state t)
                 | Err _ => True
                 end) ->
  forall evs s log, run r s0 evs s log -> fold_left after log (val s0) = val s.
Proof.
  intros Hstep evs s log. induction 1 as [|evs s log e g t Hr IH Ht]; [done|].
  rewrite fold_left_app, IH. specialize (Hstep s e g). by rewrite Ht in Hstep.
Qed.

(** The same for a relation between the state and the tracked quantity. *)
Lemma run_inv {V} (after : V -> Action -> V) (I : S -> V -> Prop) r s0 v0 :
  I s0 v0 ->
  (forall s e g v t, I s v -> trans s r e g = Ok t -> I (state t) (fold_left after (actions t) v)) ->
  forall evs s log, run r s0 evs s log -> I s (fold_left after log v0).
Proof.
  intros H0 Hstep evs s log. induction 1 as [|evs s log e g t Hr IH Ht]; [done|].
  rewrite fold_left_app. by eapply Hstep.
Qed.

End Runs.

(** *** What the pairing's actions leave behind *)

Definition keys_after (b : bool) (a : Action) : bool :=
  match a with A_StorePairRecordAtomically => true | A_DestroyPairKeys => false | _ => b end.
Definition secret_after (b : bool) (a : Action) : bool :=
  match a with A_DerivePairingSecret => true | A_DestroyPairingSecret => false | _ => b end.
Definition code_after (b : bool) (a : Action) : bool :=
  match a with A_DisplayPairingCode => true | A_HidePairingCode => false | _ => b end.
Definition confirmed_after (b : bool) (a : Action) : bool :=
  match a with A_MarkRecordConfirmed => true | A_MarkRecordRevoked => false | _ => b end.

Definition has_keys (s : PairingState) : bool :=
  match s with
  | P_StorageConfirming | P_PairedDisconnected | P_PairedConnected | P_Revoking => true
  | _ => false
  end.
Definition is_paired (s : PairingState) : bool :=
  match s with P_PairedDisconnected | P_PairedConnected => true | _ => false end.
Definition shows_code (r : EndpointRole) (s : PairingState) : bool :=
  match r, s with Proxy, (P_Offering | P_Exchanging) => true | _, _ => false end.
Definition has_secret (s : PairingState) : bool :=
  match s with P_Handshaking => true | _ => false end.

Lemma pairing_step_tracks s r e g :
  match pairing_transition s r e g with
  | Ok t => (fold_left keys_after (actions t) (has_keys s),
             fold_left secret_after (actions t) (has_secret s),
             fold_left code_after (actions t) (shows_code r s),
             fold_left confirmed_after (actions t) (is_paired s))
            = (has_keys (state t), has_secret (state t), shows_code r (state t), is_paired (state t))
  | Err _ => True
  end.
Proof. destruct g. destruct s, r, e; by_guards. Qed.

(** The three ways a pairing ends. *)
Definition ends_pairing (e : PairingEvent * Guards) : Prop :=
  match e.1 with
  | PE_ForgetPairing => local_user_action e.2 = true
  | PE_IdleExpired | PE_PeerRevocationNotice => True
  | _ => False
  end.

Definition revokes (a : Action) : bool :=
  match a with A_DestroyPairKeys | A_MarkRecordRevoked | A_RevokeUnconfirmedPairRecord => true | _ => false end.

Lemma pairing_step_keeps s r e g :
  match pairing_transition s r e g with
  | Ok t => is_paired s = true ->
            (is_paired (state t) && negb (existsb revokes (actions t)))
            || match e with
               | PE_ForgetPairing => local_user_action g
               | PE_IdleExpired => match s with P_PairedDisconnected => true | _ => false end
               | PE_PeerRevocationNotice => true
               | _ => false
               end = true
  | Err _ => True
  end.
Proof. destruct g. destruct s, r, e; by_guards. Qed.

(** *** What the session's actions leave behind *)

Definition material_after (b : bool) (a : Action) : bool :=
  match a with
  | A_BeginKkInitiator | A_BeginKkResponder => true
  | A_DestroySessionMaterial => false
  | _ => b
  end.
Definition has_material (s : SessionState) : bool :=
  match s with S_Authenticating | S_Healthy | S_Closing => true | _ => false end.

(** Whether the session reached service, whether its credential buffers were
    then destroyed, and how many close notices it sent. *)
Record session_ghost := mkSG { sg_served : bool; sg_buffers : bool; sg_closes : nat }.

Definition session_after (g : session_ghost) (a : Action) : session_ghost :=
  match a with
  | A_StartLiveness => mkSG true true (sg_closes g)
  | A_DestroyCredentialBuffers => mkSG (sg_served g) false (sg_closes g)
  | A_SendClosePairingRevoked | A_EchoPeerClose | A_SendCloseUserDisconnect | A_SendCloseNormal
  | A_SendCloseProtocolViolation | A_SendCloseServiceWithdrawn | A_SendCloseCardUnavailable =>
      mkSG (sg_served g) (sg_buffers g) (sg_closes g + 1)
  | _ => g
  end.

Definition session_inv (s : SessionState) (g : session_ghost) : Prop :=
  match s with
  | S_Absent | S_Connecting | S_Authenticating => g = mkSG false false 0
  | S_Healthy => g = mkSG true true 0
  | S_Closing => (sg_closes g <= 1)%nat /\ (sg_buffers g = true -> sg_served g = true)
  | S_Closed => (sg_closes g <= 1)%nat /\ sg_buffers g = false
  end.

Lemma session_step_material s r e g :
  match session_transition s r e g with
  | Ok t => fold_left material_after (actions t) (has_material s) = has_material (state t)
  | Err _ => True
  end.
Proof. destruct g. destruct s, r, e; by_guards. Qed.

Lemma session_step_inv s r e g v t :
  session_inv s v -> session_transition s r e g = Ok t ->
  session_inv (state t) (fold_left session_after (actions t) v).
Proof.
  intros Hi Ht. destruct s, r, e; cbn in Ht; try discriminate;
    repeat (match type of Ht with context [require ?b] => destruct b end; cbn in Ht);
    try discriminate; injection Ht as <-; cbn in Hi |- *; try (subst v); cbn; auto with lia;
    destruct v; cbn in *; intuition (auto with lia).
Qed.

(** *** The history of an operation *)

(** A run of an operation at one role, with the actions each event took. *)
Abbreviation op_history := (list (OperationEvent * list Action)).

Inductive op_run (r : EndpointRole) : op_history -> OperationState -> Prop :=
  | op_run_start : op_run r [] O_None
  | op_run_step h s e g t :
      op_run r h s -> operation_transition s r e g = Ok t -> op_run r (h ++ [(e, actions t)]) (state t).

Definition takes_request (e : OperationEvent) : bool :=
  match e with
  | OE_RequestReceived | OE_RequestUnauthorized | OE_RequestUnsupported | OE_RequestSent => true
  | _ => false
  end.

(** The steps since the last request was taken, that one included. *)
Definition since_request (h : op_history) : op_history :=
  fold_left (fun acc st => if takes_request st.1 then [st] else acc ++ [st]) h [].

Definition actions_of (h : op_history) : list Action := concat (map snd h).

Definition is_command (a : Action) : bool := match a with A_ConsumeCardCommand => true | _ => false end.
(** A result sent to the peer, or released to the caller. *)
Definition is_answer (a : Action) : bool :=
  match a with
  | A_SendResultUnauthorized | A_SendResultUnsupportedParameter | A_SendResultCompleted
  | A_SendResultUserCancelled | A_SendResultRetryFloor | A_SendResultCardError
  | A_SendResultOperationExpired | A_ReleaseResult | A_ReleaseFailure => true
  | _ => false
  end.
Definition is_consent (a : Action) : bool := match a with A_PresentConsent => true | _ => false end.
Definition is_denial (st : OperationEvent * list Action) : bool :=
  match st.1 with OE_UserDenied => true | _ => false end.
Definition is_close (st : OperationEvent * list Action) : bool :=
  match st.1 with OE_SessionClosed => true | _ => false end.

Definition commands_in (h : op_history) : nat := length (List.filter is_command (actions_of h)).
Definition answers_in (h : op_history) : list Action := List.filter is_answer (actions_of h).

(** Every card command of [h] was consumed by the custodian in the step of the
    holder's approval, right after the retry floor's check, and the consent it
    approves was presented in an earlier step of [h]. *)
Definition consented (r : EndpointRole) (h : op_history) : Prop :=
  forall before e acts after, h = before ++ (e, acts) :: after -> existsb is_command acts = true ->
    r = Proxy /\ e = OE_UserApproved /\ existsb is_consent (actions_of before) = true /\
    exists l, acts = l ++ [A_CheckRetryFloor; A_ConsumeCardCommand].

Definition op_inv (r : EndpointRole) (s : OperationState) (h : op_history) : Prop :=
  (commands_in h <= 1)%nat /\
  length (answers_in h) = (if is_terminal s then 1 else 0)%nat /\
  (existsb is_denial h = true ->
     s = O_Rejected /\ commands_in h = 0%nat /\ answers_in h = [A_SendResultUserCancelled]) /\
  (existsb is_close h = true <-> s = O_None /\ existsb (fun st => takes_request st.1) h = true) /\
  (s <> O_None -> existsb (fun st => takes_request st.1) h = true) /\
  match s with
  | O_Requested | O_Queued => commands_in h = 0%nat
  | O_AwaitingConsent => commands_in h = 0%nat /\ existsb is_consent (actions_of h) = true
  | _ => True
  end.

Lemma actions_of_snoc h e acts : actions_of (h ++ [(e, acts)]) = actions_of h ++ acts.
Proof. unfold actions_of. rewrite map_app, concat_app. cbn. by rewrite app_nil_r. Qed.

Lemma since_request_snoc h e acts :
  since_request (h ++ [(e, acts)]) = if takes_request e then [(e, acts)] else since_request h ++ [(e, acts)].
Proof. unfold since_request. by rewrite fold_left_app. Qed.

Lemma consented_snoc r h e acts : consented r h ->
  (existsb is_command acts = true ->
     r = Proxy /\ e = OE_UserApproved /\ existsb is_consent (actions_of h) = true /\
     exists l, acts = l ++ [A_CheckRetryFloor; A_ConsumeCardCommand]) ->
  consented r (h ++ [(e, acts)]).
Proof.
  intros Hh Hs before e' acts' after Heq. destruct after as [|x after _] using rev_ind.
  - apply app_inj_tail in Heq as [-> [= -> ->]]. done.
  - rewrite app_comm_cons, app_assoc in Heq. apply app_inj_tail in Heq as [-> _]. by eapply Hh.
Qed.

(** A step that takes no request. *)
Lemma op_inv_snoc r s h e acts :
  op_inv r s (h ++ [(e, acts)]) <->
  (commands_in h + length (List.filter is_command acts) <= 1)%nat /\
  length (answers_in h ++ List.filter is_answer acts) = (if is_terminal s then 1 else 0)%nat /\
  (existsb is_denial h || is_denial (e, acts) = true ->
     s = O_Rejected /\ (commands_in h + length (List.filter is_command acts) = 0)%nat /\
     answers_in h ++ List.filter is_answer acts = [A_SendResultUserCancelled]) /\
  (existsb is_close h || is_close (e, acts) = true <->
     s = O_None /\ existsb (fun st => takes_request st.1) h || takes_request e = true) /\
  (s <> O_None -> existsb (fun st => takes_request st.1) h || takes_request e = true) /\
  match s with
  | O_Requested | O_Queued => (commands_in h + length (List.filter is_command acts))%nat = 0%nat
  | O_AwaitingConsent => (commands_in h + length (List.filter is_command acts))%nat = 0%nat /\
      existsb is_consent (actions_of h) || existsb is_consent acts = true
  | _ => True
  end.
Proof.
  unfold op_inv, commands_in, answers_in.
  rewrite actions_of_snoc, !List.filter_app, !length_app, !existsb_app. cbn [existsb fst snd].
  by rewrite !orb_false_r.
Qed.

(** Before any request the history holds nothing but refusals. *)
Lemma operation_step_inv s r e g h t :
  op_inv r s h -> consented r h -> operation_transition s r e g = Ok t ->
  let h' := if takes_request e then [(e, actions t)] else h ++ [(e, actions t)] in
  op_inv r (state t) h' /\ consented r h'.
Proof.
  intros Hi Hc Ht. cbv zeta. destruct (takes_request e) eqn:Hq.
  - split; [|change [(e, actions t)] with ([] ++ [(e, actions t)]); apply consented_snoc];
      [| by intros [|] ? |]; destruct s, r, e; try discriminate; cbn in Ht; try discriminate;
      injection Ht as <-; vm_compute; intuition (done || lia).
  - split; [|apply consented_snoc; [done|]].
    + apply op_inv_snoc. unfold op_inv in Hi. destruct Hi as (H1 & H2 & H3 & H4 & H6 & H5).
      set (c := commands_in h) in *. clearbody c. set (a := answers_in h) in *. clearbody a.
      set (d := existsb is_denial h) in *. clearbody d. set (cl := existsb is_close h) in *. clearbody cl.
      set (q := existsb _ h) in *. clearbody q. set (pr := existsb is_consent _) in *. clearbody pr.
      rewrite length_app.
      destruct s, r, e; try discriminate; cbn in Ht; try discriminate; injection Ht as <-; cbn in *;
        destruct d; try (destruct (H3 eq_refl) as (? & _); discriminate); destruct cl, q; cbn in *;
        try (discriminate (H6 ltac:(discriminate)));
        destruct a; try discriminate; cbn; intuition (congruence || lia).
    + unfold op_inv in Hi. destruct Hi as (_ & _ & _ & _ & _ & H5). destruct s, r, e; try discriminate;
        cbn in Ht; try discriminate; injection Ht as <-; cbn; try discriminate.
      intros _. destruct H5 as (_ & H5). split_and!; [done|done|done|]. by exists [A_DismissConsent].
Qed.

Lemma op_run_inv r h s : op_run r h s -> op_inv r s (since_request h) /\ consented r (since_request h).
Proof.
  induction 1 as [|h s e g t Hr [Hi Hc] Ht].
  - split; [vm_compute; intuition (done || lia)|]. by intros [|].
  - rewrite since_request_snoc. by eapply operation_step_inv.
Qed.

Lemma operation_terminal s r e g :
  is_terminal s = true -> operation_transition s r e g = Err TerminalOperation.
Proof. destruct s; try done; intros _; by destruct e. Qed.

(** ** Properties *)

(** C2 (refinement) The three machines are the published ones: in every state,
    at either role, on every event and under every combination of guards, a
    transition is accepted exactly when one rule of the table applies, and it
    then moves to that rule's state with that rule's actions in order; no two
    rules ever apply at once. *)
Theorem machines_implement_the_published_tables (r : EndpointRole) (g : Guards) :
  (forall s e t, pairing_transition s r e g = Ok t <-> outcomes pairing_table s r e g = [t]) /\
  (forall s e t, session_transition s r e g = Ok t <-> outcomes session_table s r e g = [t]) /\
  (forall s e t, operation_transition s r e g = Ok t <-> outcomes operation_table s r e g = [t]) /\
  (forall s e x, pairing_transition s r e g = Err x -> outcomes pairing_table s r e g = []) /\
  (forall s e x, session_transition s r e g = Err x -> outcomes session_table s r e g = []) /\
  (forall s e x, operation_transition s r e g = Err x -> outcomes operation_table s r e g = []).
Proof.
  split_and!; intros s e; rewrite <- ?pairing_accepts, <- ?session_accepts, <- ?operation_accepts;
    try (destruct (pairing_transition s r e g)); try (destruct (session_transition s r e g));
    try (destruct (operation_transition s r e g)); cbn; intros; try done;
    split; by intros [= ->] || intros [=].
Qed.

Lemma machines_implement_the_published_tables_witness :
  outcomes pairing_table P_Revoking Proxy PE_NoticeWindowExpired Guards_default
  = [mkTransition P_Revoked [A_DestroyPairKeys]].
Proof.
  apply (machines_implement_the_published_tables Proxy Guards_default). reflexivity.
Defined.

(** (invariant) Along every run of a pairing from the unpaired state, what
    its actions leave behind follows the state: pair keys exist exactly while
    a record is stored or its revocation is being delivered, so none survive
    revocation or a failed confirmation; the pairing secret exists exactly
    during the handshake; the custodian shows the code exactly while it offers
    or exchanges; and a record is marked confirmed exactly while paired. *)
Theorem pairing_leaves_nothing_behind (r : EndpointRole) evs (s : PairingState) (log : list Action) :
  run pairing_transition r P_Unpaired evs s log ->
  fold_left keys_after log false = has_keys s /\
  fold_left secret_after log false = has_secret s /\
  fold_left code_after log false = shows_code r s /\
  fold_left confirmed_after log false = is_paired s.
Proof.
  intros Hr. split_and!.
  - apply (run_tracks _ keys_after has_keys r P_Unpaired) in Hr; [done|]. intros s' e g.
    pose proof (pairing_step_tracks s' r e g) as H. destruct (pairing_transition _ _ _ _); [|done]. congruence.
  - apply (run_tracks _ secret_after has_secret r P_Unpaired) in Hr; [done|]. intros s' e g.
    pose proof (pairing_step_tracks s' r e g) as H. destruct (pairing_transition _ _ _ _); [|done]. congruence.
  - replace false with (shows_code r P_Unpaired) by by destruct r.
    apply (run_tracks _ code_after (shows_code r) r P_Unpaired) in Hr; [done|]. intros s' e g.
    pose proof (pairing_step_tracks s' r e g) as H. destruct (pairing_transition _ _ _ _); [|done]. congruence.
  - apply (run_tracks _ confirmed_after is_paired r P_Unpaired) in Hr; [done|]. intros s' e g.
    pose proof (pairing_step_tracks s' r e g) as H. destruct (pairing_transition _ _ _ _); [|done]. congruence.
Qed.

Definition all_guards : Guards := mkGuards true true true true true true true true.

Lemma pairing_leaves_nothing_behind_witness :
  fold_left keys_after ([] ++ [A_GenerateOffer; A_GeneratePairingCode; A_AdvertisePairingMode;
    A_DisplayPairingCode]) false = has_keys P_Offering.
Proof.
  apply (pairing_leaves_nothing_behind Proxy ([] ++ [(PE_StartPairing, all_guards)])).
  apply (run_step _ _ _ [] P_Unpaired [] PE_StartPairing all_guards
           (mkTransition P_Offering [A_GenerateOffer; A_GeneratePairingCode; A_AdvertisePairingMode;
              A_DisplayPairingCode])); [constructor|reflexivity].
Defined.

(** (safety) No failure and no withdrawal revokes a pairing: along any run
    from a paired state without an action of the holder to forget it, an idle
    expiry or the peer's revocation notice, the endpoints stay paired and no
    action revokes the record or destroys its keys; and an idle expiry is
    never accepted while connected. *)
Theorem no_failure_revokes_a_pairing (r : EndpointRole) (s0 : PairingState) evs s log :
  is_paired s0 = true ->
  run pairing_transition r s0 evs s log ->
  Forall (fun e => ~ ends_pairing e) evs ->
  is_paired s = true /\ existsb revokes log = false /\
  (forall g, pairing_transition P_PairedConnected r PE_IdleExpired g = Err UnexpectedInput).
Proof.
  intros H0 Hr Hf.
  assert (is_paired s = true /\ existsb revokes log = false) as [? ?]; [|split_and!; [done..|by intros []]].
  induction Hr as [|evs s log e g t Hr IH Ht]; [done|].
  apply Forall_app in Hf as [Hf He]. inversion He as [|?? Hne _]; subst.
  destruct (IH Hf) as [Hs Hlog]. pose proof (pairing_step_keeps s r e g) as H. rewrite Ht in H.
  specialize (H Hs). apply orb_true_iff in H as [H|H].
  - apply andb_prop in H as [H1 H2]. rewrite existsb_app, Hlog. split; [done|].
    by apply negb_true_iff in H2.
  - exfalso. apply Hne. unfold ends_pairing. cbn. by destruct e.
Qed.

Lemma no_failure_revokes_a_pairing_witness :
  is_paired P_PairedDisconnected = true /\
  existsb revokes ([] ++ [A_RecordLastSession; A_ShowPeerWithdrawn]) = false.
Proof.
  destruct (no_failure_revokes_a_pairing Proxy P_PairedConnected
    ([] ++ [(PE_PeerWithdrawalNotice, Guards_default)]) P_PairedDisconnected
    ([] ++ [A_RecordLastSession; A_ShowPeerWithdrawn])) as (H1 & H2 & _).
  - reflexivity.
  - apply (run_step _ _ _ [] P_PairedConnected [] PE_PeerWithdrawalNotice Guards_default
      (mkTransition P_PairedDisconnected [A_RecordLastSession; A_ShowPeerWithdrawn]));
      [constructor|reflexivity].
  - constructor; [cbn; tauto|constructor].
  - split; assumption.
Defined.

(** (invariant) Along every run of a session, its cryptographic material
    exists exactly between the start of the handshake and the closed state;
    at most one close notice is sent, and none before the session ends; when
    a session that served is closed its credential buffers are destroyed; and
    the closed state accepts no event. *)
Theorem session_closes_cleanly (r : EndpointRole) evs (s : SessionState) (log : list Action) :
  run session_transition r S_Absent evs s log ->
  fold_left material_after log false = has_material s /\
  session_inv s (fold_left session_after log (mkSG false false 0)) /\
  (s = S_Closed -> forall e g, session_transition s r e g = Err UnexpectedInput).
Proof.
  intros Hr. split_and!.
  - apply (run_tracks _ material_after has_material r S_Absent) in Hr; [done|].
    intros. apply session_step_material.
  - eapply (run_inv _ session_after session_inv r S_Absent); [reflexivity| |eassumption].
    intros s' e g v t. apply session_step_inv.
  - by intros -> [].
Qed.

Lemma session_closes_cleanly_witness :
  session_inv S_Connecting (fold_left session_after ([] ++ [A_OpenTransport]) (mkSG false false 0)).
Proof.
  apply (session_closes_cleanly Requester ([] ++ [(SE_Connect, all_guards)])).
  apply (run_step _ _ _ [] S_Absent [] SE_Connect all_guards (mkTransition S_Connecting [A_OpenTransport]));
    [constructor|reflexivity].
Defined.

(** C4 (invariant) Along every run of an operation, of what followed the last
    request taken: a card command is consumed only by the custodian, in the step
    of the holder's approval, right after the retry floor's check, with the
    consent presented in an earlier step, and at most once; a denial ends the
    operation with no command consumed and the cancelled result as its only
    answer; an operation that ends answers exactly once and accepts no further
    event, and before its end it has answered nothing; and an operation returns
    to none, unanswered, exactly when its session closed. *)
Theorem operation_consents_and_answers_once (r : EndpointRole) (h : op_history) (s : OperationState) :
  op_run r h s ->
  let h' := since_request h in
  consented r h' /\ (commands_in h' <= 1)%nat /\
  (existsb is_denial h' = true ->
     s = O_Rejected /\ commands_in h' = 0%nat /\ answers_in h' = [A_SendResultUserCancelled]) /\
  length (answers_in h') = (if is_terminal s then 1 else 0)%nat /\
  (is_terminal s = true -> forall e g, operation_transition s r e g = Err TerminalOperation) /\
  (existsb is_close h' = true <-> s = O_None /\ existsb (fun st => takes_request st.1) h' = true).
Proof.
  intros Hr. cbv zeta. destruct (op_run_inv r h s Hr) as ((H1 & H2 & H3 & H4 & _) & Hc).
  split_and!; [done..| |done]. intros. by apply operation_terminal.
Qed.

(** A request acquired, shown, approved and answered. *)
Lemma operation_consents_and_answers_once_witness :
  let h := ((([] ++ [(OE_RequestReceived, [A_StartExpiryClock])])
    ++ [(OE_CardAcquiredForConsent, [A_PresentConsent; A_SendProgressConsentShown])])
    ++ [(OE_UserApproved, [A_DismissConsent; A_CheckRetryFloor; A_ConsumeCardCommand])])
    ++ [(OE_CardSuccess, [A_ClearOperationCredentials; A_SendResultCompleted; A_ReleaseCard])] in
  consented Proxy (since_request h) /\ commands_in (since_request h) = 1%nat /\
  length (answers_in (since_request h)) = 1%nat.
Proof.
  cbv zeta. refine (let H := operation_consents_and_answers_once Proxy _ O_Completed _ in
    conj (proj1 H) (conj eq_refl (proj1 (proj2 (proj2 (proj2 H)))))).
  eapply (op_run_step Proxy _ O_Executing OE_CardSuccess Guards_default (mkTransition O_Completed _)); [|reflexivity].
  eapply (op_run_step Proxy _ O_AwaitingConsent OE_UserApproved Guards_default (mkTransition O_Executing _));
    [|reflexivity].
  eapply (op_run_step Proxy _ O_Requested OE_CardAcquiredForConsent Guards_default
    (mkTransition O_AwaitingConsent _)); [|reflexivity].
  eapply (op_run_step Proxy _ O_None OE_RequestReceived Guards_default (mkTransition O_Requested _));
    [constructor|reflexivity].
Defined.

(** (safety) The security outcomes of the composite state: an authenticated
    violation, an integrity failure or silence keeps a pairing that is stored
    and revokes nothing; a violation while pairing ends the attempt; and from
    a serving session each of the three stops the admission of operations,
    which only a connected pairing with a healthy session ever has. *)
Theorem security_failures_keep_the_pairing (self : RappState) :
  let vs := [authenticated_protocol_violation self; session_integrity_failed self;
             silence_limit_reached self] in
  (is_paired (pairing self) = true ->
     Forall (fun o => pairing o.1 = pairing self /\ role o.1 = role self
               /\ existsb revokes o.2 = false) vs) /\
  (session self = S_Healthy -> is_paired (pairing self) = true ->
     Forall (fun o => session o.1 = S_Closing /\ operation_admission_permitted o.1 = false) vs) /\
  (match pairing self with
   | P_Exchanging | P_Handshaking | P_Confirming | P_StorageConfirming => true
   | _ => false
   end = true ->
   exists o, authenticated_protocol_violation self = o
     /\ (pairing o.1 = P_Unpaired \/ (pairing o.1 = P_Offering /\ role self = Proxy))
     /\ session o.1 = session self) /\
  (operation_admission_permitted self = true <->
     pairing self = P_PairedConnected /\ session self = S_Healthy).
Proof.
  destruct self as [r p s]. cbn [pairing session role]. cbv zeta. split_and!.
  - intros Hp. destruct p; try done; destruct r, s; repeat constructor.
  - intros -> Hp. destruct p; try done; destruct r; repeat constructor.
  - intros Hp. eexists; split; [done|]. destruct p; try done; destruct r; cbn; auto.
  - unfold operation_admission_permitted. cbn. split; [by destruct p, s|by intros [-> ->]].
Qed.

Lemma security_failures_keep_the_pairing_witness :
  pairing (authenticated_protocol_violation (mkRappState Proxy P_PairedConnected S_Healthy)).1
  = P_PairedConnected.
Proof.
  destruct (security_failures_keep_the_pairing (mkRappState Proxy P_PairedConnected S_Healthy))
    as (H & _). specialize (H eq_refl). inversion H as [|? ? Hv Hrest]. apply Hv.
Defined.

End RappState.
