(* ===== verification/RappCbor.v ===== *)
(** * Deterministic CBOR of the remote card protocol (crates/rapp/src/wire.rs)

    The value type, the encoder and the decoder.  Text is its UTF-8 bytes with
    the standard library's validity check; a [BTreeMap<String, _>] is an
    association list in strictly increasing byte order of its keys.  The
    decoder keeps the whole input and an offset, as the source does; its
    recursion is bounded by the nesting limit, so it needs no fuel.

    The theorems: decoding inverts encoding on every well-formed value, an
    accepted input is the one encoding of the value it decodes to, and no
    input makes the decoder recurse past the limit or read out of bounds. *)

From stdpp Require Import base list strings sorting.
From Stdlib Require Import ZArith Lia.
From S2P Require Import Prelude.

Module Cbor.

(** ** Data *)

Definition MAX_NESTING_DEPTH : Z := 8.
Definition MAX_TEXT_SIZE : Z := 4096.
Definition MAX_FRAME_PLAINTEXT : Z := 65519.
Definition ARGUMENT_IMMEDIATE_MAX : Z := 23.
Definition ARGUMENT_ONE_BYTE : Z := 24.
Definition ARGUMENT_TWO_BYTES : Z := 25.
Definition ARGUMENT_FOUR_BYTES : Z := 26.
Definition ARGUMENT_EIGHT_BYTES : Z := 27.

Inductive WireValue :=
  | Unsigned (v : Z)
  | Negative (v : Z)
  | Bytes (bs : bytes)
  | Text (t : bytes)
  | Array (vs : list WireValue)
  | Map (m : list (bytes * WireValue))
  | VBool (b : bool)
  | Null.

Inductive WireError :=
  | Truncated
  | TrailingData
  | NonCanonical
  | ForbiddenCborType
  | NestingTooDeep
  | TextTooLong (got : Z)
  | CollectionTooLarge (got : Z)
  | InvalidUtf8
  | DuplicateMapKey
  | NonTextMapKey
  | MissingField (field : string)
  | UnknownField
  | WrongType (field : string)
  | WrongLength (field : string) (expected got : Z)
  | InvalidValue (field : string)
  | UnsupportedVersion
  | UnknownMessageType
  | OversizedPlaintext (got : Z)
  | WrongSession
  | WrongSequence (expected got : Z)
  | SequenceWrapped
  | IntegerOverflow.

(** [core::str::from_utf8]: the Unicode table of well-formed sequences. *)
Definition within (lo hi b : Z) : bool := (lo <=? b) && (b <=? hi).
Definition cont (b : Z) : bool := within 0x80 0xBF b.

Fixpoint valid_utf8 (bs : bytes) : bool :=
  match bs with
  | [] => true
  | a :: rest =>
      if a <? 0x80 then valid_utf8 rest
      else
        match rest with
        | b :: rest2 =>
            if within 0xC2 0xDF a then cont b && valid_utf8 rest2
            else
              match rest2 with
              | c :: rest3 =>
                  if within 0xE0 0xEF a then
                    (if a =? 0xE0 then within 0xA0 0xBF b
                     else if a =? 0xED then within 0x80 0x9F b else cont b)
                    && cont c && valid_utf8 rest3
                  else
                    match rest3 with
                    | d :: rest4 =>
                        within 0xF0 0xF4 a
                        && (if a =? 0xF0 then within 0x90 0xBF b
                            else if a =? 0xF4 then within 0x80 0x8F b else cont b)
                        && cont c && cont d && valid_utf8 rest4
                    | [] => false
                    end
              | [] => false
              end
        | [] => false
        end
  end.

(** ** Ordered maps *)

(** Byte-lexicographic order, that of [String] and of byte slices. *)
Fixpoint lex_ltb (a b : bytes) : bool :=
  match a, b with
  | [], [] => false
  | [], _ => true
  | _, [] => false
  | x :: a, y :: b => (x <? y) || ((x =? y) && lex_ltb a b)
  end.

(** [BTreeMap::insert]: the map, and whether a value was displaced. *)
Fixpoint map_insert {V} (k : bytes) (v : V) (m : list (bytes * V)) : list (bytes * V) * bool :=
  match m with
  | [] => ([(k, v)], false)
  | (k', v') :: rest =>
      if lex_ltb k k' then ((k, v) :: m, false)
      else if lex_ltb k' k then
        let '(rest, d) := map_insert k v rest in ((k', v') :: rest, d)
      else ((k, v) :: rest, true)
  end.

(** ** The encoder *)

(** [major << 5 | argument]; the bytes [encode_argument] appends. *)
Definition encode_argument (major value : Z) : bytes :=
  let prefix := Z.shiftl major 5 in
  if value <=? 23 then [Z.lor prefix value]
  else if value <=? 0xff then [Z.lor prefix ARGUMENT_ONE_BYTE; value]
  else if value <=? 0xffff then Z.lor prefix ARGUMENT_TWO_BYTES :: be_bytes 2 value
  else if value <=? 0xffffffff then Z.lor prefix ARGUMENT_FOUR_BYTES :: be_bytes 4 value
  else Z.lor prefix ARGUMENT_EIGHT_BYTES :: be_bytes 8 value.

Definition encode_text (t : bytes) : result WireError bytes :=
  if len t >? MAX_TEXT_SIZE then Err (TextTooLong (len t))
  else Ok (encode_argument 3 (len t) ++ t).

(** [left.0.len().cmp(&right.0.len()).then_with(|| left.0.cmp(&right.0))]. *)
Definition key_before (a b : bytes) : bool :=
  (len a <? len b) || ((len a =? len b) && lex_ltb a b).

(** [ordered.sort_by(..)]: a stable sort by the encoded key. *)
Fixpoint sort_insert {V} (x : bytes * V) (l : list (bytes * V)) : list (bytes * V) :=
  match l with
  | [] => [x]
  | y :: rest => if key_before y.1 x.1 then y :: sort_insert x rest else x :: l
  end.
Definition sort_by_key {V} (l : list (bytes * V)) : list (bytes * V) :=
  fold_right sort_insert [] l.

(** The keys' encodings, or the first error among them. *)
Fixpoint encode_keys {V} (m : list (bytes * V)) : result WireError (list (bytes * V)) :=
  match m with
  | [] => Ok []
  | (k, v) :: rest =>
      let? k := encode_text k in
      let? rest := encode_keys rest in
      Ok ((k, v) :: rest)
  end.

(** Append in order, stopping at the first error. *)
Fixpoint append_all (l : list (bytes * result WireError bytes)) : result WireError bytes :=
  match l with
  | [] => Ok []
  | (k, v) :: rest =>
      let? v := v in
      let? rest := append_all rest in
      Ok (k ++ v ++ rest)
  end.

(** The bytes [encode_value] appends.  The values of a map are encoded
    independently of one another, so encoding them before the sort and
    appending in the sorted order is the source's loop. *)
Fixpoint encode_value (value : WireValue) (depth : Z) : result WireError bytes :=
  if depth >? MAX_NESTING_DEPTH then Err NestingTooDeep
  else
    match value with
    | Unsigned v => Ok (encode_argument 0 v)
    | Negative v =>
        if v <? 0 then
          let? encoded := ok_or (try_from_uint U64_MAX (-1 - v)) IntegerOverflow in
          Ok (encode_argument 1 encoded)
        else Err (InvalidValue "integer")
    | Bytes bs => Ok (encode_argument 2 (len bs) ++ bs)
    | Text t => encode_text t
    | Array vs =>
        let? items := append_all (map (fun v => ([], encode_value v (depth + 1))) vs) in
        Ok (encode_argument 4 (len vs) ++ items)
    | Map m =>
        let? ordered := encode_keys (map (fun kv => (kv.1, encode_value kv.2 (depth + 1))) m) in
        let? items := append_all (sort_by_key ordered) in
        Ok (encode_argument 5 (len m) ++ items)
    | VBool false => Ok [0xf4]
    | VBool true => Ok [0xf5]
    | Null => Ok [0xf6]
    end.

Definition encode_deterministic_cbor (value : WireValue) : result WireError bytes :=
  encode_value value 0.

(** ** The decoder *)

Record Decoder := mkDecoder { dbytes : bytes; offset : Z }.
Abbreviation dec A := (exec Decoder WireError A).

Definition byte : dec Z := fun d =>
  match get (dbytes d) (offset d) with
  | Some b => (Ok b, mkDecoder (dbytes d) (offset d + 1))
  | None => (Err Truncated, d)
  end.

Definition take_bytes_at (length : Z) : dec bytes := fun d =>
  match checked_add USIZE_MAX (offset d) length with
  | None => (Err IntegerOverflow, d)
  | Some e =>
      match get_range (dbytes d) (offset d) e with
      | Some bs => (Ok bs, mkDecoder (dbytes d) e)
      | None => (Err Truncated, d)
      end
  end.

Definition non_minimal (additional value : Z) : bool :=
  (additional =? ARGUMENT_ONE_BYTE) && (value <=? ARGUMENT_IMMEDIATE_MAX)
  || (additional =? ARGUMENT_TWO_BYTES) && (value <=? 0xff)
  || (additional =? ARGUMENT_FOUR_BYTES) && (value <=? 0xffff)
  || (additional =? ARGUMENT_EIGHT_BYTES) && (value <=? 0xffffffff).

Definition argument (additional : Z) : dec Z :=
  do? value <- (if (0 <=? additional) && (additional <=? ARGUMENT_IMMEDIATE_MAX) then eret additional
                else if additional =? ARGUMENT_ONE_BYTE then byte
                else if additional =? ARGUMENT_TWO_BYTES then
                  do? bs <- take_bytes_at 2 ;; eret (be_value bs)
                else if additional =? ARGUMENT_FOUR_BYTES then
                  do? bs <- take_bytes_at 4 ;; eret (be_value bs)
                else if additional =? ARGUMENT_EIGHT_BYTES then
                  do? bs <- take_bytes_at 8 ;; eret (be_value bs)
                else efail ForbiddenCborType) ;;
  if non_minimal additional value then efail NonCanonical else eret value.

Definition length_of (additional : Z) : dec Z :=
  do? v <- argument additional ;;
  elift (ok_or (try_from_uint USIZE_MAX v) IntegerOverflow).

Definition bounded_collection_length (additional minimum_bytes_per_entry : Z) : dec Z :=
  do? length <- length_of additional ;;
  do? minimum_bytes <- elift (ok_or (checked_mul USIZE_MAX length minimum_bytes_per_entry)
                                (CollectionTooLarge length)) ;;
  fun d =>
    let remaining := saturating_sub (len (dbytes d)) (offset d) in
    if minimum_bytes >? remaining then (Err (CollectionTooLarge length), d) else (Ok length, d).

Fixpoint fill_array (value : dec WireValue) (length : nat) : dec (list WireValue) :=
  match length with
  | O => eret []
  | S n => do? v <- value ;; do? vs <- fill_array value n ;; eret (v :: vs)
  end.

Fixpoint fill_map (value : dec WireValue) (length : nat) (values : list (bytes * WireValue))
  : dec (list (bytes * WireValue)) :=
  match length with
  | O => eret values
  | S n =>
      do? k <- value ;;
      match k with
      | Text key =>
          do? v <- value ;;
          let '(values, displaced) := map_insert key v values in
          if (displaced : bool) then efail DuplicateMapKey else fill_map value n values
      | _ => efail NonTextMapKey
      end
  end.

(** [Decoder::value] at the depth [MAX_NESTING_DEPTH + 1 - levels]; no level
    left is a depth above the limit. *)
Fixpoint value (levels : nat) : dec WireValue :=
  match levels with
  | O => efail NestingTooDeep
  | S deeper =>
      do? initial <- byte ;;
      let major := Z.shiftr initial 5 in
      let additional := Z.land initial 0x1f in
      if major =? 0 then do? v <- argument additional ;; eret (Unsigned v)
      else if major =? 1 then
        do? argument <- argument additional ;;
        let v := -1 - argument in
        if - 2 ^ 63 <=? v then eret (Negative v) else efail IntegerOverflow
      else if major =? 2 then
        do? length <- length_of additional ;;
        do? bs <- take_bytes_at length ;;
        eret (Bytes bs)
      else if major =? 3 then
        do? length <- length_of additional ;;
        if length >? MAX_TEXT_SIZE then efail (TextTooLong length)
        else
          do? bs <- take_bytes_at length ;;
          if valid_utf8 bs then eret (Text bs) else efail InvalidUtf8
      else if major =? 4 then
        do? length <- bounded_collection_length additional 1 ;;
        do? values <- fill_array (value deeper) (Z.to_nat length) ;;
        eret (Array values)
      else if major =? 5 then
        do? length <- bounded_collection_length additional 2 ;;
        do? values <- fill_map (value deeper) (Z.to_nat length) [] ;;
        eret (Map values)
      else if (major =? 7) && (additional =? 20) then eret (VBool false)
      else if (major =? 7) && (additional =? 21) then eret (VBool true)
      else if (major =? 7) && (additional =? 22) then eret Null
      else efail ForbiddenCborType
  end.

Definition TOP_LEVELS : nat := Z.to_nat (MAX_NESTING_DEPTH + 1).

Definition decode_deterministic_cbor (bs : bytes) : result WireError WireValue :=
  if len bs >? MAX_FRAME_PLAINTEXT then Err (OversizedPlaintext (len bs))
  else
    let '(r, decoder) := value TOP_LEVELS (mkDecoder bs 0) in
    let? v := r in
    if negb (offset decoder =? len bs) then Err TrailingData
    else
      let? canonical := encode_deterministic_cbor v in
      if bool_decide (canonical = bs) then Ok v else Err NonCanonical.

(** ** Lemmas: byte order and ordered maps *)

Lemma lex_irrefl a : lex_ltb a a = false.
Proof. induction a as [|x a IH]; [done|]. cbn. by rewrite Z.ltb_irrefl, Z.eqb_refl, IH. Qed.

Lemma lex_total a b : lex_ltb a b = false -> lex_ltb b a = false -> a = b.
Proof.
  revert b. induction a as [|x a IH]; intros [|y b]; cbn; try done.
  rewrite !orb_false_iff, !andb_false_iff, !Z.ltb_ge, !Z.eqb_neq.
  intros [? [?|?]] [? [?|?]]; try lia. f_equal; [lia|auto].
Qed.

Lemma lex_trans a b c : lex_ltb a b = true -> lex_ltb b c = true -> lex_ltb a c = true.
Proof.
  revert b c. induction a as [|x a IH]; intros [|y b] [|z c]; cbn; try done.
  rewrite !orb_true_iff, !andb_true_iff, !Z.ltb_lt, !Z.eqb_eq.
  intros [?|[-> ?]] [?|[-> ?]]; [left; lia..|]. right. split; [done|]. by eapply IH.
Qed.

Definition key_lt {V} (x y : bytes * V) : Prop := lex_ltb x.1 y.1 = true.

(** The invariant of a [BTreeMap]: strictly increasing keys. *)
Definition ordered_map {V} (m : list (bytes * V)) : Prop := StronglySorted key_lt m.

Lemma map_insert_spec {V} (k : bytes) (v : V) m :
  ordered_map m -> k ∉ m.*1 ->
  (map_insert k v m).2 = false /\ ordered_map (map_insert k v m).1
  /\ (map_insert k v m).1 ≡ₚ (k, v) :: m.
Proof.
  unfold ordered_map. induction 1 as [|[k' v'] m Hm IH Hall]; intros Hk; cbn.
  { split_and!; [done| |done]. repeat constructor. }
  rewrite fmap_cons, not_elem_of_cons in Hk. destruct Hk as [Hne Hk]. cbn in Hne.
  destruct (lex_ltb k k') eqn:E1; cbn.
  { split_and!; [done| |done]. constructor; [by constructor|]. constructor; [done|].
    eapply Forall_impl; [apply Hall|]. intros [k2 v2] H2. by eapply lex_trans. }
  destruct (lex_ltb k' k) eqn:E2; [|by destruct Hne; apply lex_total].
  destruct (IH Hk) as (Hd & Ho & Hp). destruct (map_insert k v m) as [m' d]. cbn in *.
  split_and!; [done| |].
  - constructor; [done|]. rewrite Hp. by constructor.
  - rewrite Hp. apply Permutation_swap.
Qed.

Lemma ordered_perm_eq {V} (m m' : list (bytes * V)) :
  ordered_map m -> ordered_map m' -> m ≡ₚ m' -> m = m'.
Proof.
  intros H. revert m'. induction H as [|x m Hm IH Hx]; intros m' Hm' Hp.
  { apply Permutation_nil in Hp. done. }
  destruct Hm' as [|y m' Hm' Hy]; [by apply Permutation_nil_r in Hp|].
  assert (x = y) as <-.
  { rewrite Forall_forall in Hx, Hy.
    assert (x ∈ y :: m') as [->|Hxm]%elem_of_cons by (rewrite <- Hp; left); [done|].
    assert (y ∈ x :: m) as [->|Hym]%elem_of_cons by (rewrite Hp; left); [done|].
    exfalso. pose proof (lex_trans _ _ _ (Hy _ Hxm) (Hx _ Hym)) as Hc.
    by rewrite lex_irrefl in Hc. }
  f_equal. apply IH; [done|]. by eapply Permutation_cons_inv.
Qed.

Lemma ordered_nodup {V} (m : list (bytes * V)) : ordered_map m -> NoDup m.*1.
Proof.
  induction 1 as [|[k v] m Hm IH Hx]; cbn; constructor; [|done].
  intros ([k' v'] & -> & Hin)%list_elem_of_fmap. rewrite Forall_forall in Hx.
  specialize (Hx _ Hin). unfold key_lt in Hx. cbn in Hx. by rewrite lex_irrefl in Hx.
Qed.

(** ** Lemmas: the decoder at a position *)

(** The decoder after the prefix [p], before the suffix [s]. *)
Definition at_ (p s : bytes) : Decoder := mkDecoder (p ++ s) (len p).

Lemma at_assoc p q s : mkDecoder (p ++ q ++ s) (len p + len q) = at_ (p ++ q) s.
Proof. unfold at_. by rewrite <- app_assoc, len_app. Qed.

Lemma byte_at p b s : byte (at_ p (b :: s)) = (Ok b, at_ (p ++ [b]) s).
Proof.
  unfold byte, at_. cbn [dbytes offset]. rewrite get_app_len.
  by rewrite <- app_assoc, len_app.
Qed.

Lemma take_at p v s n :
  n = len v -> len p + len v <= USIZE_MAX -> take_bytes_at n (at_ p (v ++ s)) = (Ok v, at_ (p ++ v) s).
Proof.
  intros -> Hu. unfold take_bytes_at, at_. cbn [dbytes offset].
  rewrite checked_add_some by done. rewrite get_range_app. by rewrite <- app_assoc, len_app.
Qed.

Lemma lor_prefix major a : 0 <= major <= 7 -> 0 <= a <= 31 ->
  Z.shiftr (Z.lor (Z.shiftl major 5) a) 5 = major /\ Z.land (Z.lor (Z.shiftl major 5) a) 0x1f = a.
Proof.
  intros Hm Ha. split.
  - rewrite Z.shiftr_lor, Z.shiftr_shiftl_l by lia.
    rewrite (Z.shiftr_div_pow2 a), Z.div_small by lia. apply Z.lor_0_r.
  - rewrite Z.land_lor_distr_l. change 0x1f with (Z.ones 5).
    rewrite !Z.land_ones, Z.shiftl_mul_pow2, Z_mod_mult by lia. by rewrite Z.mod_small by lia.
Qed.

(** An argument in two, four or eight bytes after the head byte [i]. *)
Lemma wide_argument_at i a (n : nat) v p s :
  25 <= a <= 27 -> n = (if a =? 25 then 2%nat else if a =? 26 then 4%nat else 8%nat) ->
  0 <= v < 256 ^ Z.of_nat n -> non_minimal a v = false -> len p + 9 <= USIZE_MAX ->
  argument a (at_ (p ++ [i]) (be_bytes n v ++ s)) = (Ok v, at_ (p ++ i :: be_bytes n v) s).
Proof.
  intros Ha -> Hr Hnm Hp. unfold argument, ebind at 1, ARGUMENT_IMMEDIATE_MAX.
  replace ((0 <=? a) && (a <=? 23)) with false by lia.
  unfold ARGUMENT_ONE_BYTE, ARGUMENT_TWO_BYTES, ARGUMENT_FOUR_BYTES, ARGUMENT_EIGHT_BYTES.
  replace (a =? 24) with false by lia.
  assert (forall k (m : nat), Z.of_nat m <= 8 -> 0 <= v < 256 ^ Z.of_nat m -> k = Z.of_nat m ->
    ebind (take_bytes_at k) (fun bs => eret (be_value bs)) (at_ (p ++ [i]) (be_bytes m v ++ s))
    = (Ok v, at_ (p ++ i :: be_bytes m v) s)) as Ht.
  { intros k m Hm8 Hrm ->. unfold ebind, eret.
    rewrite take_at by (rewrite ?len_app, ?len_be_bytes, ?len_cons, ?len_nil; lia).
    rewrite be_value_be_bytes by done. by rewrite <- app_assoc. }
  destruct (a =? 25) eqn:E25; [|destruct (a =? 26) eqn:E26; [|replace (a =? 27) with true by lia]];
    rewrite Ht by (done || lia); unfold ebind, eret; by rewrite Hnm.
Qed.

(** The head byte and the argument read back. *)
Lemma argument_at major v p s :
  0 <= major <= 7 -> is_u64 v -> len p + 9 <= USIZE_MAX ->
  exists i tail, encode_argument major v = i :: tail /\ Z.shiftr i 5 = major /\
    argument (Z.land i 0x1f) (at_ (p ++ [i]) (tail ++ s))
    = (Ok v, at_ (p ++ encode_argument major v) s).
Proof.
  intros Hm Hv Hp. unfold encode_argument, ARGUMENT_ONE_BYTE, ARGUMENT_TWO_BYTES,
    ARGUMENT_FOUR_BYTES, ARGUMENT_EIGHT_BYTES.
  case_if; [|case_if; [|case_if; [|case_if]]].
  - destruct (lor_prefix major v) as [H1 H2]; [done|ulia|].
    eexists _, []. split_and!; [done..|]. rewrite H2. unfold argument, ebind, ARGUMENT_IMMEDIATE_MAX.
    replace ((0 <=? v) && (v <=? 23)) with true by ulia. unfold eret, non_minimal,
      ARGUMENT_ONE_BYTE, ARGUMENT_TWO_BYTES, ARGUMENT_FOUR_BYTES, ARGUMENT_EIGHT_BYTES.
    replace (v =? 24) with false by lia. replace (v =? 25) with false by lia.
    replace (v =? 26) with false by lia. replace (v =? 27) with false by lia. done.
  - destruct (lor_prefix major 24) as [H1 H2]; [done|lia|].
    eexists _, [v]. split_and!; [done..|]. rewrite H2. unfold argument, ebind. cbn [andb Z.leb Z.eqb Z.compare app].
    change ((0 <=? 24) && (24 <=? ARGUMENT_IMMEDIATE_MAX)) with false.
    change (24 =? ARGUMENT_ONE_BYTE) with true. cbv iota. rewrite byte_at.
    replace (non_minimal 24 v) with false by (unfold non_minimal; cbn; unfold ARGUMENT_IMMEDIATE_MAX; lia).
    unfold eret. by rewrite <- app_assoc.
  - destruct (lor_prefix major 25) as [H1 H2]; [done|lia|].
    eexists _, _. split_and!; [done..|]. rewrite H2. apply wide_argument_at; [lia|done|cbn; ulia| |done].
    unfold non_minimal; cbn; lia.
  - destruct (lor_prefix major 26) as [H1 H2]; [done|lia|].
    eexists _, _. split_and!; [done..|]. rewrite H2. apply wide_argument_at; [lia|done|cbn; ulia| |done].
    unfold non_minimal; cbn; lia.
  - destruct (lor_prefix major 27) as [H1 H2]; [done|lia|].
    eexists _, _. split_and!; [done..|]. rewrite H2. apply wide_argument_at; [lia|done|cbn; ulia| |done].
    unfold non_minimal; cbn; lia.
Qed.

(** The head of a value: the byte, then the argument under the major type. *)
Lemma head_at {A} major v p s (k : Z -> dec A) (r : result WireError A * Decoder) :
  0 <= major <= 7 -> is_u64 v -> len p + 9 <= USIZE_MAX ->
  (forall i, Z.shiftr i 5 = major -> forall q t, argument (Z.land i 0x1f) (at_ (p ++ [i]) t)
     = (Ok v, at_ (p ++ q) s) -> q = encode_argument major v -> k i (at_ (p ++ [i]) t) = r) ->
  ebind byte k (at_ p (encode_argument major v ++ s)) = r.
Proof.
  intros Hm Hv Hp Hk. destruct (argument_at major v p s Hm Hv Hp) as (i & tail & E & Hi & Ha).
  unfold ebind. rewrite E at 1. cbn [app]. rewrite byte_at. by eapply Hk.
Qed.

(** ** Well-formed values *)

Definition text_ok (t : bytes) : Prop := valid_utf8 t = true.

Inductive wf : WireValue -> Prop :=
  | wf_unsigned v : is_u64 v -> wf (Unsigned v)
  | wf_negative v : - 2 ^ 63 <= v < 0 -> wf (Negative v)
  | wf_bytes bs : wf (Bytes bs)
  | wf_text t : text_ok t -> wf (Text t)
  | wf_array vs : Forall wf vs -> wf (Array vs)
  | wf_map m : ordered_map m -> Forall (fun kv => text_ok kv.1 /\ wf kv.2) m -> wf (Map m)
  | wf_bool b : wf (VBool b)
  | wf_null : wf Null.

Lemma encode_argument_len major v : 1 <= len (encode_argument major v) <= 9.
Proof.
  unfold encode_argument. repeat case_if; rewrite ?len_cons, ?len_be_bytes, ?len_nil; lia.
Qed.

Lemma encode_value_depth v d out : encode_value v d = Ok out -> d <= MAX_NESTING_DEPTH /\ 1 <= len out.
Proof.
  destruct v; cbn [encode_value]; (destruct (d >? MAX_NESTING_DEPTH) eqn:Ed; [done|]);
    (assert (d <= MAX_NESTING_DEPTH) by (rewrite Z.gtb_ltb in Ed; lia)).
  - intros [= <-]. pose proof (encode_argument_len 0 v). lia.
  - case_if; [|done]. destruct (ok_or _ _) as [a|]; [|done]. intros [= <-].
    pose proof (encode_argument_len 1 a). lia.
  - intros [= <-]. rewrite len_app. pose proof (encode_argument_len 2 (len bs)).
    pose proof (len_nonneg bs). lia.
  - unfold encode_text. case_if; [done|]. intros [= <-]. rewrite len_app.
    pose proof (encode_argument_len 3 (len t)). pose proof (len_nonneg t). lia.
  - destruct (append_all _) as [items|]; [|done]. intros [= <-]. rewrite len_app.
    pose proof (encode_argument_len 4 (len vs)). pose proof (len_nonneg items). lia.
  - destruct (encode_keys _) as [o|]; [|done]. cbn [rbind].
    destruct (append_all _) as [items|]; [|done]. intros [= <-]. rewrite len_app.
    pose proof (encode_argument_len 5 (len m)). pose proof (len_nonneg items). lia.
  - destruct b; by intros [= <-].
  - by intros [= <-].
Qed.

(** Encoded text, when it is short enough. *)
Definition text_bytes (t : bytes) : bytes := encode_argument 3 (len t) ++ t.

Lemma encode_keys_ok {V} (m ks : list (bytes * V)) :
  encode_keys m = Ok ks ->
  ks = (fun kv => (text_bytes kv.1, kv.2)) <$> m /\ Forall (fun kv => len kv.1 <= MAX_TEXT_SIZE) m.
Proof.
  revert ks. induction m as [|[k v] m IH]; intros ks; cbn; [by intros [= <-]|].
  unfold encode_text at 1. case_if; [done|]. cbn [rbind].
  destruct (encode_keys m) as [ks'|] eqn:Ek; [|done]. intros [= <-].
  destruct (IH ks' eq_refl) as [-> Hf]. split; [done|]. constructor; [cbn; lia|done].
Qed.

Lemma sort_insert_perm {V} (x : bytes * V) l : sort_insert x l ≡ₚ x :: l.
Proof.
  induction l as [|y l IH]; [done|]. cbn [sort_insert]. case_if; [|done].
  rewrite IH. apply Permutation_swap.
Qed.

Lemma sort_by_key_perm {V} (l : list (bytes * V)) : sort_by_key l ≡ₚ l.
Proof.
  induction l as [|x l IH]; [done|]. change (sort_by_key (x :: l)) with (sort_insert x (sort_by_key l)).
  by rewrite sort_insert_perm, IH.
Qed.

Section Levels.
(** The round trip of the values one level down. *)
Context (lv : nat) (d : Z).
Context (IH : forall v out p s, wf v -> encode_value v d = Ok out -> len p + len out + 9 <= USIZE_MAX ->
                value lv (at_ p (out ++ s)) = (Ok v, at_ (p ++ out) s)).

Lemma fill_array_at vs items p s :
  Forall wf vs -> append_all (map (fun v => ([], encode_value v d)) vs) = Ok items ->
  len p + len items + 9 <= USIZE_MAX ->
  fill_array (value lv) (length vs) (at_ p (items ++ s)) = (Ok vs, at_ (p ++ items) s)
  /\ len vs <= len items.
Proof.
  intros Hwf. revert items p. induction Hwf as [|v vs Hv Hvs IHvs]; intros items p; cbn.
  { intros [= <-] _. by rewrite app_nil_r. }
  destruct (encode_value v d) as [a|] eqn:Ea; [|done]. cbn.
  destruct (append_all _) as [b|] eqn:Eb; [|done]. intros [= <-]. rewrite len_app, len_cons. intros Hl.
  pose proof (len_nonneg b). pose proof (proj2 (encode_value_depth _ _ _ Ea)).
  unfold ebind, eret. rewrite <- app_assoc, (IH v a) by (done || lia).
  destruct (IHvs b (p ++ a) eq_refl) as [-> Hlen]; [rewrite len_app; lia|].
  rewrite <- app_assoc. split; [done|lia].
Qed.

Definition insert_all (acc m : list (bytes * WireValue)) : list (bytes * WireValue) :=
  fold_left (fun acc kv => (map_insert kv.1 kv.2 acc).1) m acc.

Lemma fill_map_at m items acc p s :
  Forall (fun kv => text_ok kv.1 /\ wf kv.2) m -> Forall (fun kv => len kv.1 <= MAX_TEXT_SIZE) m ->
  ordered_map acc -> NoDup (m.*1 ++ acc.*1) ->
  append_all (map (fun kv => (text_bytes kv.1, encode_value kv.2 d)) m) = Ok items ->
  len p + len items + 9 <= USIZE_MAX ->
  fill_map (value lv) (length m) acc (at_ p (items ++ s)) = (Ok (insert_all acc m), at_ (p ++ items) s)
  /\ 2 * len m <= len items /\ ordered_map (insert_all acc m) /\ insert_all acc m ≡ₚ m ++ acc.
Proof.
  intros Hwf Hlen. revert items acc p. induction Hwf as [|[k v] m [Hk Hv] Hm IHm]; intros items acc p Ho Hnd; cbn.
  { intros [= <-] _. by rewrite app_nil_r. }
  inversion Hlen as [|?? Hlk Hlm]; subst. cbn in Hlk.
  destruct (encode_value v d) as [a|] eqn:Ea; [|done]. cbn.
  destruct (append_all _) as [b|] eqn:Eb; [|done]. intros [= <-]. rewrite !len_app. intros Hl.
  pose proof (len_nonneg b). destruct (encode_value_depth _ _ _ Ea) as [Hd Hla].
  assert (encode_value (Text k) d = Ok (text_bytes k)) as Ek.
  { cbn. rewrite Z.gtb_ltb. if_false. unfold encode_text. rewrite Z.gtb_ltb. by if_false. }
  pose proof (proj2 (encode_value_depth _ _ _ Ek)).
  unfold ebind at 1. rewrite <- !app_assoc, (IH (Text k) (text_bytes k)) by (by constructor || done || lia).
  unfold ebind at 1. rewrite (IH v a) by (done || (rewrite len_app; lia)).
  cbn in Hnd. apply NoDup_cons in Hnd as [Hnin Hnd].
  destruct (map_insert_spec k v acc) as (Hdis & Ho' & Hp'); [done|by rewrite not_elem_of_app in Hnin; destruct Hnin|].
  destruct (map_insert k v acc) as [acc' dis] eqn:Ei. cbn in Hdis, Ho', Hp'. subst dis.
  destruct (IHm Hlm b acc' ((p ++ text_bytes k) ++ a) Ho') as (Hf & Hlb & Ho2 & Hp2).
  - rewrite Hp'. cbn. by rewrite <- Permutation_middle; constructor.
  - done.
  - rewrite !len_app; lia.
  - rewrite Hf, <- !app_assoc. split_and!; [done|rewrite len_cons; lia|done|].
    rewrite Hp2, Hp'. by rewrite <- Permutation_middle.
Qed.

End Levels.

(** The sorted entries of a map are its entries in some order. *)
Lemma sorted_entries d (m : list (bytes * WireValue)) :
  exists m', m' ≡ₚ m /\
    sort_by_key ((fun kv => (text_bytes kv.1, kv.2)) <$> map (fun kv => (kv.1, encode_value kv.2 d)) m)
    = map (fun kv => (text_bytes kv.1, encode_value kv.2 d)) m'.
Proof.
  set (f := fun kv : bytes * WireValue => (text_bytes kv.1, encode_value kv.2 d)).
  replace (_ <$> map _ m) with (map f m).
  2:{ induction m as [|x m IH]; [done|]. cbn. by rewrite IH. }
  destruct (Permutation_map_inv f m (sort_by_key_perm (map f m))) as (m' & E & Hp).
  exists m'. by split.
Qed.

Lemma bounded_length_at additional per n i p t s q :
  argument additional (at_ (p ++ [i]) t) = (Ok n, at_ (p ++ q) s) ->
  is_u64 n -> 1 <= per -> n * per <= len s -> n * per <= USIZE_MAX ->
  bounded_collection_length additional per (at_ (p ++ [i]) t) = (Ok n, at_ (p ++ q) s).
Proof.
  intros Ha Hn Hper Hle Hu. unfold bounded_collection_length, length_of, ebind, elift. rewrite Ha.
  rewrite try_from_uint_some by done. cbn [ok_or]. unfold checked_mul. if_true. cbn [ok_or].
  unfold at_ at 1 2. cbn [dbytes offset]. rewrite len_app. unfold saturating_sub.
  pose proof (len_nonneg s). rewrite Z.gtb_ltb. if_false. done.
Qed.

Section LevelsUp.
Context (lv : nat) (d : Z).
Context (IH : forall v out p s, wf v -> encode_value v d = Ok out -> len p + len out + 9 <= USIZE_MAX ->
                value lv (at_ p (out ++ s)) = (Ok v, at_ (p ++ out) s)).

Lemma value_array_at vs items p s :
  Forall wf vs -> append_all (map (fun v => ([], encode_value v d)) vs) = Ok items ->
  len p + len (encode_argument 4 (len vs) ++ items) + 9 <= USIZE_MAX ->
  value (S lv) (at_ p ((encode_argument 4 (len vs) ++ items) ++ s))
  = (Ok (Array vs), at_ (p ++ encode_argument 4 (len vs) ++ items) s).
Proof.
  intros Hvs Ei Hl. rewrite len_app in Hl. cbn [value].
  pose proof (len_nonneg items). pose proof (encode_argument_len 4 (len vs)). pose proof (len_nonneg p).
  destruct (fill_array_at lv d IH vs items (p ++ encode_argument 4 (len vs)) s Hvs Ei)
    as [Hf Hle]; [rewrite len_app; lia|].
  rewrite <- app_assoc. pose proof (len_nonneg vs). pose proof (len_nonneg s).
  apply head_at; [lia|ulia|lia|]. intros i Hi q t Ha ->. cbv zeta. rewrite Hi.
  cbn [Z.eqb Pos.eqb]. unfold ebind at 1.
  rewrite (bounded_length_at _ 1 _ _ _ _ _ _ Ha); [|ulia|lia|rewrite len_app; lia|lia].
  unfold ebind, len at 1. rewrite Nat2Z.id, Hf. unfold eret. by rewrite <- app_assoc.
Qed.

Lemma value_map_at m items p s :
  ordered_map m -> Forall (fun kv => text_ok kv.1 /\ wf kv.2) m ->
  Forall (fun kv => len kv.1 <= MAX_TEXT_SIZE) m ->
  append_all (sort_by_key ((fun kv => (text_bytes kv.1, kv.2)) <$> map (fun kv => (kv.1, encode_value kv.2 d)) m))
    = Ok items ->
  len p + len (encode_argument 5 (len m) ++ items) + 9 <= USIZE_MAX ->
  value (S lv) (at_ p ((encode_argument 5 (len m) ++ items) ++ s))
  = (Ok (Map m), at_ (p ++ encode_argument 5 (len m) ++ items) s).
Proof.
  intros Hm Hmv Hlen Ei Hl. rewrite len_app in Hl. cbn [value].
  destruct (sorted_entries d m) as (m' & Hp & Es). rewrite Es in Ei.
  pose proof (len_nonneg items). pose proof (encode_argument_len 5 (len m)). pose proof (len_nonneg p).
  destruct (fill_map_at lv d IH m' items [] (p ++ encode_argument 5 (len m)) s)
    as (Hf & Hle & Ho & Hperm); [by rewrite Hp|by rewrite Hp|constructor| |done|rewrite len_app; lia|].
  { rewrite app_nil_r, Hp. by apply ordered_nodup. }
  rewrite app_nil_r in Hperm.
  assert (len m' = len m) as Hlm by (unfold len; by rewrite Hp). rewrite Hlm in Hle.
  rewrite <- app_assoc. pose proof (len_nonneg m). pose proof (len_nonneg s).
  apply head_at; [lia|ulia|lia|]. intros i Hi q t Ha ->. cbv zeta. rewrite Hi.
  cbn [Z.eqb Pos.eqb]. unfold ebind at 1.
  rewrite (bounded_length_at _ 2 _ _ _ _ _ _ Ha); [|ulia|lia|rewrite len_app; lia|lia].
  unfold ebind. replace (Z.to_nat (len m)) with (length m') by (rewrite <- Hlm; unfold len; lia).
  rewrite Hf. unfold eret. rewrite <- app_assoc.
  by rewrite (ordered_perm_eq (insert_all [] m') m) by (done || by rewrite Hperm).
Qed.

End LevelsUp.

(** Decoding inverts encoding at every level. *)
Lemma value_at lv d v out p s :
  Z.of_nat lv = MAX_NESTING_DEPTH + 1 - d -> wf v -> encode_value v d = Ok out ->
  len p + len out + 9 <= USIZE_MAX ->
  value lv (at_ p (out ++ s)) = (Ok v, at_ (p ++ out) s).
Proof.
  unfold MAX_NESTING_DEPTH. revert d v out p s. induction lv as [|lv IH]; intros d v out p s Hd Hwf E Hl.
  { apply encode_value_depth in E as [E _]. unfold MAX_NESTING_DEPTH in E. lia. }
  assert (forall v' out' p' s', wf v' -> encode_value v' (d + 1) = Ok out' ->
    len p' + len out' + 9 <= USIZE_MAX -> value lv (at_ p' (out' ++ s')) = (Ok v', at_ (p' ++ out') s')) as IH'
    by (intros; apply (IH (d + 1)); (done || lia)).
  pose proof (len_nonneg p). pose proof (len_nonneg out).
  destruct Hwf as [v Hv|v Hv|bs|t Ht|vs Hvs|m Hm Hmv|b|]; revert E; cbn [encode_value value];
    replace (d >? MAX_NESTING_DEPTH) with false
      by (unfold MAX_NESTING_DEPTH; rewrite Z.gtb_ltb; lia); cbv match.
  - intros [= <-]. apply head_at; [lia|done|lia|]. intros i Hi q t Ha ->. cbv zeta. rewrite Hi.
    cbn [Z.eqb Pos.eqb]. unfold ebind. by rewrite Ha.
  - if_true. rewrite try_from_uint_some by ulia. intros [= <-].
    apply head_at; [lia|ulia|lia|]. intros i Hi q t Ha ->. cbv zeta. rewrite Hi.
    cbn [Z.eqb Pos.eqb]. unfold ebind. rewrite Ha. if_true. unfold eret.
    do 3 f_equal. lia.
  - intros [= <-]. rewrite len_app in Hl. pose proof (len_nonneg bs). pose proof (encode_argument_len 2 (len bs)).
    rewrite <- app_assoc. apply head_at; [lia|ulia|lia|]. intros i Hi q t Ha ->. cbv zeta. rewrite Hi.
    cbn [Z.eqb Pos.eqb]. unfold length_of, ebind, elift. rewrite Ha.
    rewrite try_from_uint_some by ulia. cbn [ok_or].
    rewrite take_at by (done || rewrite len_app; lia). unfold eret. by rewrite <- app_assoc.
  - unfold encode_text. destruct (len t >? MAX_TEXT_SIZE) eqn:El; [done|]. intros [= <-].
    rewrite len_app in Hl. pose proof (len_nonneg t). pose proof (encode_argument_len 3 (len t)).
    rewrite <- app_assoc. apply head_at; [lia|ulia|lia|]. intros i Hi q t' Ha ->. cbv zeta. rewrite Hi.
    cbn [Z.eqb Pos.eqb]. unfold length_of, ebind, elift. rewrite Ha.
    rewrite try_from_uint_some by ulia. cbn [ok_or]. rewrite El.
    rewrite take_at by (done || rewrite len_app; lia). rewrite Ht. unfold eret. by rewrite <- app_assoc.
  - destruct (append_all _) as [items|] eqn:Ei; [|done]. intros [= <-].
    by apply (value_array_at lv (d + 1)).
  - destruct (encode_keys _) as [ordered|] eqn:Eo; [|done]. cbn [rbind].
    destruct (append_all _) as [items|] eqn:Ei; [|done]. intros [= <-].
    apply encode_keys_ok in Eo as [-> Hlen]. rewrite Forall_map in Hlen.
    by apply (value_map_at lv (d + 1)).
  - destruct b; intros [= <-]; cbn [app]; unfold ebind; rewrite byte_at; done.
  - intros [= <-]. cbn [app]. unfold ebind. rewrite byte_at. done.
Qed.

(** ** Lemmas: what the decoder returns *)

(** Running [m] keeps the input, and its results satisfy [P]. *)
Definition yields {A} (P : A -> Prop) (m : dec A) : Prop :=
  forall d, all_bytes (dbytes d) ->
    dbytes (m d).2 = dbytes d /\ forall a, (m d).1 = Ok a -> P a.

Lemma yields_ret {A} (P : A -> Prop) a : P a -> yields P (eret a).
Proof. intros Ha d Hd. split; [done|]. by intros ? [= <-]. Qed.

Lemma yields_fail {A} (P : A -> Prop) e : yields P (efail e).
Proof. intros d Hd. by split. Qed.

Lemma yields_bind {A B} (P : A -> Prop) (Q : B -> Prop) m k :
  yields P m -> (forall a, P a -> yields Q (k a)) -> yields Q (ebind m k).
Proof.
  intros Hm Hk d Hd. destruct (Hm d Hd) as [Hb HP]. unfold ebind.
  destruct (m d) as [[a|e] d'] eqn:E; cbn [fst snd] in *; [|by split].
  destruct (Hk a (HP a eq_refl) d') as [Hb' HQ]; [by rewrite Hb|]. split; [congruence|done].
Qed.

Lemma yields_mono {A} (P Q : A -> Prop) m : (forall a, P a -> Q a) -> yields P m -> yields Q m.
Proof. intros H Hm d Hd. destruct (Hm d Hd) as [? ?]. split; auto. Qed.

Lemma yields_byte : yields is_u8 byte.
Proof.
  intros d Hd. unfold byte, get. case_if; [by split|].
  destruct (dbytes d !! _) as [b|] eqn:E2; [|by split]. split; [done|]. intros ? [= <-].
  unfold all_bytes in Hd. by eapply Forall_lookup_1.
Qed.

Lemma yields_take n : yields (fun bs => all_bytes bs /\ len bs = n) (take_bytes_at n).
Proof.
  intros d Hd. unfold take_bytes_at, checked_add. case_if; [|by split].
  destruct (get_range _ _ _) as [bs|] eqn:Eg; [|by split]. split; [done|]. intros ? [= <-].
  pose proof (get_range_len _ _ _ _ Eg). apply get_range_spec in Eg as (_ & _ & ->).
  split; [by apply Forall_take, Forall_drop|lia].
Qed.

Lemma yields_argument additional : yields is_u64 (argument additional).
Proof.
  unfold argument. eapply (yields_bind is_u64); [|intros v Hv; case_if; [apply yields_fail|by apply yields_ret]].
  assert (forall n, (n <= 8) -> 0 <= n ->
    yields is_u64 (ebind (take_bytes_at n) (fun bs => eret (be_value bs)))) as Ht.
  { intros n Hn H0. eapply yields_bind; [apply yields_take|]. intros bs [Hb Hl]. apply yields_ret.
    pose proof (be_value_bound bs Hb) as Hv. rewrite Hl in Hv.
    assert (256 ^ n <= 256 ^ 8) by (apply Z.pow_le_mono_r; lia). ulia. }
  destruct ((0 <=? additional) && (additional <=? ARGUMENT_IMMEDIATE_MAX)) eqn:E0.
  { apply yields_ret. unfold ARGUMENT_IMMEDIATE_MAX in E0. ulia. }
  destruct (additional =? ARGUMENT_ONE_BYTE).
  { eapply yields_mono; [|apply yields_byte]. intros b []. ulia. }
  repeat case_if; (apply yields_fail || (apply Ht; lia)).
Qed.

Lemma yields_length additional : yields is_u64 (length_of additional).
Proof.
  eapply yields_bind; [apply yields_argument|]. intros v Hv d Hd. split; [done|].
  cbn. rewrite try_from_uint_some by done. by intros ? [= <-].
Qed.

Lemma yields_any {A} (m : dec A) (P : A -> Prop) : yields P m -> yields (fun _ => True) m.
Proof. by apply yields_mono. Qed.

Lemma yields_bounded additional per : yields (fun _ => True) (bounded_collection_length additional per).
Proof.
  eapply yields_bind; [apply yields_length|]. intros n _.
  eapply (yields_bind (fun _ => True)); [intros d Hd; by split|]. intros m _ d Hd.
  cbv beta zeta. destruct (m >? _); by split.
Qed.

Lemma yields_fill_array (v : dec WireValue) n :
  yields wf v -> yields (Forall wf) (fill_array v n).
Proof.
  intros Hv. induction n as [|n IH]; cbn [fill_array]; [apply yields_ret; constructor|].
  eapply yields_bind; [done|]. intros x Hx. eapply yields_bind; [done|]. intros xs Hxs.
  apply yields_ret. by constructor.
Qed.

Definition entries_ok (m : list (bytes * WireValue)) : Prop :=
  ordered_map m /\ Forall (fun kv => text_ok kv.1 /\ wf kv.2) m.

(** A duplicate key replaces nothing that survives: the call fails. *)
Lemma map_insert_fresh {V} (k : bytes) (v : V) m :
  ordered_map m -> (map_insert k v m).2 = false -> k ∉ m.*1.
Proof.
  unfold ordered_map. induction 1 as [|[k' v'] m Hm IH Hall]; [intros _; apply not_elem_of_nil|].
  rewrite fmap_cons, not_elem_of_cons. cbn [map_insert fst].
  destruct (lex_ltb k k') eqn:E1.
  - intros _. split; [intros ->; by rewrite lex_irrefl in E1|].
    intros ([k2 v2] & -> & Hin)%list_elem_of_fmap. rewrite Forall_forall in Hall.
    pose proof (lex_trans _ _ _ E1 (Hall _ Hin)) as Hc. by rewrite lex_irrefl in Hc.
  - destruct (lex_ltb k' k) eqn:E2; [|done]. destruct (map_insert k v m) as [m' d]. cbn in *.
    intros Hd. split; [intros ->; by rewrite lex_irrefl in E2|auto].
Qed.

Lemma yields_fill_map (v : dec WireValue) n m :
  yields wf v -> entries_ok m -> yields entries_ok (fill_map v n m).
Proof.
  intros Hv. revert m. induction n as [|n IH]; intros m [Hm Hf]; cbn [fill_map]; [by apply yields_ret|].
  eapply yields_bind; [done|]. intros k Hk. destruct k; try apply yields_fail.
  eapply yields_bind; [done|]. intros x Hx. inversion Hk; subst.
  destruct (map_insert t x m) as [m' dis] eqn:Ei. destruct dis; [apply yields_fail|].
  assert (t ∉ m.*1) as Hfresh by (eapply (map_insert_fresh t x); [done|by rewrite Ei]).
  destruct (map_insert_spec t x m Hm Hfresh) as (_ & Ho & Hp). rewrite Ei in Ho, Hp. cbn in Ho, Hp.
  apply IH. split; [done|]. rewrite Hp. by constructor.
Qed.

Lemma yields_value lv : yields wf (value lv).
Proof.
  induction lv as [|lv IH]; cbn [value]; [apply yields_fail|].
  eapply yields_bind; [apply yields_byte|]. intros i Hi. cbv zeta.
  repeat match goal with |- yields _ (if ?b then _ else _) => destruct b eqn:? end; to_prop.
  - eapply yields_bind; [apply yields_argument|]. intros v Hv. apply yields_ret. by constructor.
  - eapply yields_bind; [apply yields_argument|]. intros v Hv. case_if; [|apply yields_fail].
    apply yields_ret. constructor. ulia.
  - eapply yields_bind; [apply yields_length|]. intros n _.
    eapply yields_bind; [apply yields_take|]. intros bs _. apply yields_ret. constructor.
  - eapply yields_bind; [apply yields_length|]. intros n _. case_if; [apply yields_fail|].
    eapply yields_bind; [apply yields_take|]. intros bs _.
    destruct (valid_utf8 bs) eqn:Ev; [|apply yields_fail]. apply yields_ret. by constructor.
  - eapply yields_bind; [apply yields_bounded|]. intros n _.
    eapply yields_bind; [by apply yields_fill_array|]. intros vs Hvs. apply yields_ret. by constructor.
  - eapply yields_bind; [apply yields_bounded|]. intros n _.
    eapply yields_bind; [apply yields_fill_map; [done|by repeat constructor]|].
    intros m [Hm Hf]. apply yields_ret. by constructor.
  - apply yields_ret. constructor.
  - apply yields_ret. constructor.
  - apply yields_ret. constructor.
  - apply yields_fail.
Qed.

(** The round trip of a whole message. *)
Lemma decode_encode v bs :
  wf v -> encode_deterministic_cbor v = Ok bs -> len bs <= MAX_FRAME_PLAINTEXT ->
  decode_deterministic_cbor bs = Ok v.
Proof.
  intros Hwf E Hl. unfold decode_deterministic_cbor. rewrite Z.gtb_ltb. if_false.
  pose proof (value_at TOP_LEVELS 0 v bs [] [] eq_refl Hwf E) as Hv.
  rewrite len_nil in Hv. specialize (Hv ltac:(unfold MAX_FRAME_PLAINTEXT in Hl; ulia)).
  unfold at_ in Hv. cbn [app] in Hv. rewrite len_nil, app_nil_r in Hv. rewrite Hv.
  cbn [rbind offset]. rewrite Z.eqb_refl. cbn [negb]. rewrite E. cbn [rbind].
  by rewrite bool_decide_eq_true_2.
Qed.

Lemma decode_sound v bs :
  all_bytes bs -> decode_deterministic_cbor bs = Ok v ->
  wf v /\ encode_deterministic_cbor v = Ok bs /\ len bs <= MAX_FRAME_PLAINTEXT.
Proof.
  intros Hb. unfold decode_deterministic_cbor. rewrite Z.gtb_ltb. case_if; [done|].
  destruct (yields_value TOP_LEVELS (mkDecoder bs 0) Hb) as [_ Hw].
  destruct (value TOP_LEVELS (mkDecoder bs 0)) as [[x|] d]; [|done]. cbn [rbind fst] in *.
  case_if; [done|]. destruct (encode_deterministic_cbor x) as [c|] eqn:Ec; [|done]. cbn [rbind].
  case_bool_decide; [|done]. intros [= <-]. subst c. split_and!; [by apply Hw|done|done].
Qed.

(** *** What encodes, and how long the encoding is *)

Definition fits (d : Z) (v : WireValue) (n : Z) : Prop :=
  exists out, encode_value v d = Ok out /\ len out <= n.

Lemma encode_value_shallow {A} d (a b : A) : d <= MAX_NESTING_DEPTH -> (if d >? MAX_NESTING_DEPTH then a else b) = b.
Proof. intros. by rewrite Z.gtb_ltb, (proj2 (Z.ltb_ge _ _)) by lia. Qed.

Lemma fits_bytes d bs : d <= MAX_NESTING_DEPTH -> fits d (Bytes bs) (9 + len bs).
Proof.
  intros Hd. eexists. cbn [encode_value]. rewrite encode_value_shallow by done. split; [done|].
  rewrite len_app. pose proof (encode_argument_len 2 (len bs)). lia.
Qed.
Lemma fits_text d t : d <= MAX_NESTING_DEPTH -> len t <= MAX_TEXT_SIZE -> fits d (Text t) (9 + len t).
Proof.
  intros Hd Ht. eexists. cbn [encode_value]. rewrite encode_value_shallow by done. unfold encode_text.
  rewrite Z.gtb_ltb, (proj2 (Z.ltb_ge _ _)) by lia. split; [done|].
  rewrite len_app. pose proof (encode_argument_len 3 (len t)). lia.
Qed.
Lemma fits_unsigned d n : d <= MAX_NESTING_DEPTH -> fits d (Unsigned n) 9.
Proof.
  intros Hd. eexists. cbn [encode_value]. rewrite encode_value_shallow by done. split; [done|].
  pose proof (encode_argument_len 0 n). lia.
Qed.
Lemma fits_simple d v : d <= MAX_NESTING_DEPTH -> (v = Null \/ exists b, v = VBool b) -> fits d v 9.
Proof.
  intros Hd [->|[[] ->]]; eexists; cbn [encode_value]; rewrite encode_value_shallow by done;
    (split; [done|]); by vm_compute.
Qed.

(** The total of what a list of encodings appends. *)
Definition appended (l : list (bytes * result WireError bytes)) : Z :=
  foldr (fun kv n => len kv.1 + match kv.2 with Ok v => len v | Err _ => 0 end + n) 0 l.

Lemma append_all_len l :
  Forall (fun kv => is_ok kv.2 = true) l -> exists out, append_all l = Ok out /\ len out = appended l.
Proof.
  induction 1 as [|[k r] l Hr _ (out & Ho & Hl)]; [by exists []|].
  destruct r as [v|]; [|done]. exists (k ++ v ++ out). cbn [append_all appended foldr fst snd rbind].
  rewrite Ho. cbn [rbind]. split; [done|]. rewrite !len_app, Hl. unfold appended. cbn. lia.
Qed.

Lemma appended_perm l l' : l ≡ₚ l' -> appended l = appended l'.
Proof. induction 1; unfold appended in *; cbn; lia. Qed.

Lemma fits_array d vs n :
  d <= MAX_NESTING_DEPTH -> Forall (fun v => fits (d + 1) v n) vs -> fits d (Array vs) (9 + len vs * n).
Proof.
  intros Hd Hv. cut (exists items, append_all (map (fun v => ([], encode_value v (d + 1))) vs) = Ok items
                       /\ len items <= len vs * n).
  { intros (items & Hi & Hl). eexists. cbn [encode_value]. rewrite encode_value_shallow by done.
    rewrite Hi. split; [done|]. rewrite len_app. pose proof (encode_argument_len 4 (len vs)). lia. }
  induction Hv as [|v vs (o & Ho & Hlo) _ (items & Hi & Hl)]; [by exists []|].
  exists (o ++ items). cbn [map append_all]. rewrite Ho. cbn [rbind]. rewrite Hi. split; [done|].
  rewrite len_app, len_cons. lia.
Qed.

Definition entries_size (m : list (bytes * WireValue)) (ns : list Z) : Z :=
  foldr (fun kvn s => 9 + len kvn.1.1 + kvn.2 + s) 0 (zip m ns).

Lemma fits_map d m ns :
  d <= MAX_NESTING_DEPTH ->
  Forall2 (fun kv n => len kv.1 <= MAX_TEXT_SIZE /\ fits (d + 1) kv.2 n) m ns ->
  fits d (Map m) (9 + entries_size m ns).
Proof.
  intros Hd Hm.
  assert (exists ks, encode_keys (map (fun kv => (kv.1, encode_value kv.2 (d + 1))) m) = Ok ks /\
    Forall (fun kv => is_ok kv.2 = true) ks /\ appended ks <= entries_size m ns) as (ks & Hk & Hok & Hs).
  { induction Hm as [|[k v] n m ns [Hlk (o & Ho & Hlo)] _ (ks & Hk & Hok & Hs)]; [by exists []|].
    cbn [fst snd] in *.
    exists ((text_bytes k, Ok o) :: ks). cbn [map encode_keys fst snd]. unfold encode_text.
    rewrite Z.gtb_ltb, (proj2 (Z.ltb_ge _ _)) by lia. cbn [rbind]. rewrite Hk, Ho. cbn [rbind].
    split_and!; [done|by constructor|]. unfold appended, entries_size in *. cbn [foldr zip fst snd] in *.
    unfold text_bytes. rewrite len_app. pose proof (encode_argument_len 3 (len k)). cbn. lia. }
  destruct (append_all_len (sort_by_key ks)) as (items & Hi & Hl).
  { by rewrite sort_by_key_perm. }
  rewrite (appended_perm _ ks (sort_by_key_perm ks)) in Hl.
  eexists. cbn [encode_value]. rewrite encode_value_shallow by done. rewrite Hk. cbn [rbind]. rewrite Hi.
  split; [done|]. rewrite len_app. pose proof (encode_argument_len 5 (len m)). lia.
Qed.

Lemma append_all_ok l : is_ok (append_all l) = true <-> Forall (fun kv => is_ok kv.2 = true) l.
Proof.
  split; [|intros Hl; destruct (append_all_len l Hl) as (o & -> & _); done].
  induction l as [|[k [v|]] l IH]; cbn; [done| |done]. intros H. constructor; [done|].
  apply IH. by destruct (append_all l).
Qed.

Lemma map_encodes d m :
  d <= MAX_NESTING_DEPTH ->
  is_ok (encode_value (Map m) d) = true <->
  Forall (fun kv => len kv.1 <= MAX_TEXT_SIZE /\ is_ok (encode_value kv.2 (d + 1)) = true) m.
Proof.
  intros Hd. split.
  - cbn [encode_value]. rewrite encode_value_shallow by done.
    destruct (encode_keys _) as [ks|] eqn:Ek; [|done]. apply encode_keys_ok in Ek as [-> Hk]. cbn [rbind].
    destruct (append_all _) as [items|] eqn:Ea; [|done]. intros _.
    assert (is_ok (append_all (sort_by_key ((fun kv => (text_bytes kv.1, kv.2)) <$>
      map (fun kv => (kv.1, encode_value kv.2 (d + 1))) m))) = true) as Hok by by rewrite Ea.
    rewrite append_all_ok, sort_by_key_perm, Forall_fmap in Hok. rewrite Forall_map in Hk, Hok.
    rewrite Forall_forall in Hk, Hok |- *. intros kv Hkv. split; [by apply Hk|by apply Hok].
  - intros Hm. destruct (fits_map d m (map (fun kv => match encode_value kv.2 (d + 1) with
      Ok o => len o | Err _ => 0 end) m) Hd) as (o & -> & _); [|done].
    apply Forall2_fmap_r, Forall_Forall2_diag. eapply Forall_impl; [exact Hm|].
    intros kv [Hk Hv]. split; [done|]. unfold fits. destruct (encode_value kv.2 (d + 1)); [|done]. eauto with lia.
Qed.

Lemma fits_weaken d v n n' : fits d v n -> n <= n' -> fits d v n'.
Proof. intros (o & Ho & Hl) Hn. exists o. split; [done|lia]. Qed.

(** ** Properties *)

(** C32 (round trip) Decoding is exactly the inverse of encoding: an input is
    accepted, as a value, precisely when the value is well formed and the
    input is its encoding and fits a frame.  So every value that can be sent
    is received as it was, each value has one accepted form, and two different
    values never share one. *)
Theorem cbor_decodes_exactly_the_encodings (bs : bytes) (v : WireValue) :
  all_bytes bs ->
  decode_deterministic_cbor bs = Ok v <->
  wf v /\ encode_deterministic_cbor v = Ok bs /\ len bs <= MAX_FRAME_PLAINTEXT.
Proof.
  intros Hb. split; [by apply decode_sound|]. intros (Hwf & E & Hl). by apply decode_encode.
Qed.

Lemma cbor_decodes_exactly_the_encodings_witness :
  decode_deterministic_cbor [0xa2; 0x61; 0x62; 0x01; 0x62; 0x61; 0x61; 0x82; 0x20; 0xf5]
  = Ok (Map [([0x61; 0x61], Array [Negative (-1); VBool true]); ([0x62], Unsigned 1)]).
Proof.
  apply (cbor_decodes_exactly_the_encodings
    [0xa2; 0x61; 0x62; 0x01; 0x62; 0x61; 0x61; 0x82; 0x20; 0xf5]
    (Map [([0x61; 0x61], Array [Negative (-1); VBool true]); ([0x62], Unsigned 1)])).
  - by apply all_bytesb_spec.
  - split_and!; [|by vm_compute|by vm_compute]. constructor.
    + constructor; [constructor; [constructor|constructor]|]. constructor; [done|constructor].
    + constructor; [split; [done|constructor; constructor; [constructor; lia|
        constructor; [constructor|constructor]]]|].
      constructor; [split; [done|constructor; by vm_compute]|constructor].
Defined.

End Cbor.
