(* ===== verification/RappWire.v ===== *)
(** * Envelopes of the remote card protocol (crates/rapp/src/wire.rs)

    The message registry, the schema of each message body, the envelope
    around it and the sequence numbers of a session.  A Rust [String] is its
    UTF-8 bytes; the names the source writes as literals are converted with
    [utf8].  The closure that seals a plaintext is an argument of
    [seal_next], as it is in the source.

    The theorems: an input is accepted as an envelope exactly when it is the
    encoding of that envelope and the envelope is valid; a receiver accepts
    the messages of its session numbered 0, 1, 2, ... and nothing else; and
    every message a sender seals arrives, in order, as it was sent. *)

From stdpp Require Import base list strings sorting.
From Stdlib Require Import ZArith Lia Ascii.
From S2P Require Import Prelude RappCbor.

Module Wire.
Import Cbor.

(** ** Data *)

Definition WIRE_VERSION : Z * Z * Z := (26, 11, 7).
Definition SESSION_ID_SIZE : Z := 16.

(** The bytes of an ASCII literal. *)
Fixpoint utf8 (s : string) : bytes :=
  match s with
  | EmptyString => []
  | String c rest => Z.of_nat (nat_of_ascii c) :: utf8 rest
  end.

(** The comparison of a text with a literal. *)
Definition text_is (t : bytes) (s : string) : bool := bool_decide (t = utf8 s).

(** [BTreeMap<String, WireValue>]. *)
Notation body_map := (list (bytes * WireValue)).

Fixpoint map_get {V} (k : bytes) (m : list (bytes * V)) : option V :=
  match m with
  | [] => None
  | (k', v) :: rest => if decide (k = k') then Some v else map_get k rest
  end.

Fixpoint map_remove {V} (k : bytes) (m : list (bytes * V)) : list (bytes * V) :=
  match m with
  | [] => []
  | (k', v) :: rest => if decide (k = k') then rest else (k', v) :: map_remove k rest
  end.

(** ** The message registry *)

Inductive MessageType :=
  | M_PairingHello
  | M_PairingConfirm
  | M_PairingAbort
  | M_PairingStored
  | M_SessionReady
  | M_SessionHello
  | M_SessionClose
  | M_LivenessPing
  | M_LivenessPong
  | M_OperationRequest
  | M_OperationResult
  | M_OperationProgress
  | M_CardStatus
  | M_Error.

Definition as_str (message_type : MessageType) : string :=
  match message_type with
  | M_PairingHello => "pairing.hello"
  | M_PairingConfirm => "pairing.confirm"
  | M_PairingAbort => "pairing.abort"
  | M_PairingStored => "pairing.stored"
  | M_SessionReady => "session.ready"
  | M_SessionHello => "session.hello"
  | M_SessionClose => "session.close"
  | M_LivenessPing => "liveness.ping"
  | M_LivenessPong => "liveness.pong"
  | M_OperationRequest => "operation.request"
  | M_OperationResult => "operation.result"
  | M_OperationProgress => "operation.progress"
  | M_CardStatus => "card.status"
  | M_Error => "error"
  end.

Definition parse (value : bytes) : result WireError MessageType :=
  if text_is value "pairing.hello" then Ok M_PairingHello
  else if text_is value "pairing.confirm" then Ok M_PairingConfirm
  else if text_is value "pairing.abort" then Ok M_PairingAbort
  else if text_is value "pairing.stored" then Ok M_PairingStored
  else if text_is value "session.ready" then Ok M_SessionReady
  else if text_is value "session.hello" then Ok M_SessionHello
  else if text_is value "session.close" then Ok M_SessionClose
  else if text_is value "liveness.ping" then Ok M_LivenessPing
  else if text_is value "liveness.pong" then Ok M_LivenessPong
  else if text_is value "operation.request" then Ok M_OperationRequest
  else if text_is value "operation.result" then Ok M_OperationResult
  else if text_is value "operation.progress" then Ok M_OperationProgress
  else if text_is value "card.status" then Ok M_CardStatus
  else if text_is value "error" then Ok M_Error
  else Err UnknownMessageType.

(** ** The body schemas *)

Inductive FieldType :=
  | FUnsigned
  | FBytes (length : Z)
  | FText
  | FArray
  | FMap
  | FBool.

Record FieldSpec := mkSpec { name : string; field_type : FieldType; optional : bool }.

Definition OPERATION_ID : FieldType := FBytes 16.
Definition PAIR_ID : FieldType := FBytes 16.
Definition CERTIFICATE_FINGERPRINT : FieldType := FBytes 32.
Definition ERROR_NAME_LENGTHS (n : Z) : bool := (1 <=? n) && (n <=? 64).
Definition ERROR_MESSAGE_LENGTHS (n : Z) : bool := (1 <=? n) && (n <=? 512).

Definition specs (message_type : MessageType) : list FieldSpec :=
  match message_type with
  | M_PairingHello =>
      [mkSpec "parameters" FMap false;
       mkSpec "display_name" FText false;
       mkSpec "platform" FText false;
       mkSpec "requested_profiles" FArray true]
  | M_PairingConfirm =>
      [mkSpec "granted_profiles" FArray false]
  | M_PairingAbort =>
      [mkSpec "reason" FText false]
  | M_PairingStored =>
      [mkSpec "pair_id" PAIR_ID false]
  | M_CardStatus =>
      [mkSpec "card_present" FBool false;
       mkSpec "reader_attached" FBool false;
       mkSpec "certificate_fingerprint" CERTIFICATE_FINGERPRINT false]
  | M_SessionReady =>
      [mkSpec "parameters" FMap false;
       mkSpec "nonce" (FBytes 32) false;
       mkSpec "display_name" FText false]
  | M_SessionHello =>
      [mkSpec "display_name" FText false]
  | M_SessionClose =>
      [mkSpec "reason" FText false]
  | M_LivenessPing | M_LivenessPong =>
      [mkSpec "challenge" (FBytes 32) false]
  | M_OperationRequest =>
      [mkSpec "operation_id" OPERATION_ID false;
       mkSpec "profile" FText false;
       mkSpec "action" FText false;
       mkSpec "context" FMap false;
       mkSpec "payload" FMap false;
       mkSpec "expires_after_ms" FUnsigned true]
  | M_OperationResult =>
      [mkSpec "operation_id" OPERATION_ID false;
       mkSpec "status" FText false;
       mkSpec "response" FMap true;
       mkSpec "error" FText true]
  | M_OperationProgress =>
      [mkSpec "operation_id" OPERATION_ID false;
       mkSpec "event" FText false]
  | M_Error =>
      [mkSpec "error_name" FText false;
       mkSpec "message" FText false;
       mkSpec "operation_id" OPERATION_ID true]
  end.

Definition validate_field (spec : FieldSpec) (value : WireValue) : result WireError unit :=
  let valid :=
    match field_type spec, value with
    | FUnsigned, Unsigned _ => true
    | FBytes length, Bytes bs => len bs =? length
    | FText, Text _ => true
    | FArray, Array _ => true
    | FMap, Map _ => true
    | FBool, VBool _ => true
    | _, _ => false
    end in
  if valid then Ok tt else Err (WrongType (name spec)).

Definition text_field (body : body_map) (field : string) : option bytes :=
  match map_get (utf8 field) body with
  | Some (Text value) => Some value
  | _ => None
  end.

Definition one_of (t : option bytes) (allowed : list string) : bool :=
  match t with
  | Some t => existsb (text_is t) allowed
  | None => false
  end.

Definition sized (t : option bytes) (lengths : Z -> bool) : bool :=
  match t with
  | Some t => lengths (len t)
  | None => false
  end.

Definition validate_discriminants (message_type : MessageType) (body : body_map) :
  result WireError unit :=
  let text := text_field body in
  match message_type with
  | M_SessionClose =>
      if negb (one_of (text "reason")
                 ["normal"; "complete"; "user_disconnect"; "policy"; "protocol_violation";
                  "pairing_revoked"; "shutdown"; "card_unavailable"; "service_withdrawn"])
      then Err (InvalidValue "reason") else Ok tt
  | M_OperationResult =>
      if negb (one_of (text "status") ["completed"; "rejected"; "cancelled"])
      then Err (InvalidValue "status") else Ok tt
  | M_Error =>
      if negb (sized (text "error_name") ERROR_NAME_LENGTHS)
      then Err (InvalidValue "error_name")
      else if negb (sized (text "message") ERROR_MESSAGE_LENGTHS)
      then Err (InvalidValue "message") else Ok tt
  | _ => Ok tt
  end.

(** The loop over the schema; the first failure wins. *)
Fixpoint validate_specs (l : list FieldSpec) (body : body_map) : result WireError unit :=
  match l with
  | [] => Ok tt
  | spec :: rest =>
      match map_get (utf8 (name spec)) body with
      | None => if optional spec then validate_specs rest body
                else Err (MissingField (name spec))
      | Some value => let? _ := validate_field spec value in validate_specs rest body
      end
  end.

Definition validate_body (message_type : MessageType) (body : body_map) :
  result WireError unit :=
  let specs := specs message_type in
  if existsb (fun kv => negb (existsb (fun spec => text_is kv.1 (name spec)) specs)) body
  then Err UnknownField
  else
    let? _ := validate_specs specs body in
    validate_discriminants message_type body.

(** ** Reading the fields of an envelope *)

Definition reject_unknown_fields (m : body_map) (known : list string) : result WireError unit :=
  if existsb (fun kv => negb (existsb (text_is kv.1) known)) m then Err UnknownField else Ok tt.

(** [map.remove(field).ok_or(MissingField)?]. *)
Definition removed (field : string) : exec body_map WireError WireValue := fun m =>
  match map_get (utf8 field) m with
  | Some v => (Ok v, map_remove (utf8 field) m)
  | None => (Err (MissingField field), m)
  end.

Definition take_unsigned (field : string) : exec body_map WireError Z :=
  do? v <- removed field;;
  match v with Unsigned value => eret value | _ => efail (WrongType field) end.

Definition take_text (field : string) : exec body_map WireError bytes :=
  do? v <- removed field;;
  match v with Text value => eret value | _ => efail (WrongType field) end.

Definition take_bytes (field : string) : exec body_map WireError bytes :=
  do? v <- removed field;;
  match v with Bytes value => eret value | _ => efail (WrongType field) end.

Definition take_array (field : string) : exec body_map WireError (list WireValue) :=
  do? v <- removed field;;
  match v with Array value => eret value | _ => efail (WrongType field) end.

Definition take_map (field : string) : exec body_map WireError body_map :=
  do? v <- removed field;;
  match v with Map value => eret value | _ => efail (WrongType field) end.

(** ** Envelopes *)

Record Envelope := mkEnvelope {
  message_type : MessageType;
  session_id : bytes;
  sequence : Z;
  body : body_map;
}.

(** [SessionId::reconstruct]: the length check of the array conversion. *)
Definition SessionId_reconstruct (bs : bytes) : result (Z * Z) bytes :=
  if len bs =? SESSION_ID_SIZE then Ok bs else Err (SESSION_ID_SIZE, len bs).

Definition Envelope_reconstruct (message_type : MessageType) (session_id : bytes)
    (sequence : Z) (body : body_map) : result WireError Envelope :=
  let? _ := validate_body message_type body in
  Ok (mkEnvelope message_type session_id sequence body).

Definition version_value : list WireValue :=
  let '(year, month, day) := WIRE_VERSION in [Unsigned year; Unsigned month; Unsigned day].

(** [version.as_slice() == [..]]. *)
Definition version_matches (version : list WireValue) : bool :=
  let '(year, month, day) := WIRE_VERSION in
  match version with
  | [Unsigned y; Unsigned m; Unsigned d] => (y =? year) && (m =? month) && (d =? day)
  | _ => false
  end.

(** The five insertions of [encode], in its order. *)
Definition envelope_map (e : Envelope) : body_map :=
  let insert k v m := (map_insert (utf8 k) v m).1 in
  let m := insert "version" (Array version_value) [] in
  let m := insert "type" (Text (utf8 (as_str (message_type e)))) m in
  let m := insert "session_id" (Bytes (session_id e)) m in
  let m := insert "sequence" (Unsigned (sequence e)) m in
  insert "body" (Map (body e)) m.

Definition Envelope_encode (e : Envelope) : result WireError bytes :=
  let? encoded := encode_deterministic_cbor (Map (envelope_map e)) in
  if len encoded >? MAX_FRAME_PLAINTEXT then Err (OversizedPlaintext (len encoded))
  else Ok encoded.

(** The fields of [decode], read in its order. *)
Definition decode_fields : exec body_map WireError Envelope :=
  do? version <- take_array "version";;
  if negb (version_matches version) then efail UnsupportedVersion
  else
    do? type_name <- take_text "type";;
    do? message_type <- elift (parse type_name);;
    do? session_bytes <- take_bytes "session_id";;
    do? session_id <- elift (map_err (fun _ => WrongLength "session_id" SESSION_ID_SIZE
                                                 (len session_bytes))
                               (SessionId_reconstruct session_bytes));;
    do? sequence <- take_unsigned "sequence";;
    do? body <- take_map "body";;
    do? _ <- elift (validate_body message_type body);;
    eret (mkEnvelope message_type session_id sequence body).

Definition envelope_fields : list string := ["version"; "type"; "session_id"; "sequence"; "body"].

Definition Envelope_decode (bs : bytes) : result WireError Envelope :=
  if len bs >? MAX_FRAME_PLAINTEXT then Err (OversizedPlaintext (len bs))
  else
    let? v := decode_deterministic_cbor bs in
    match v with
    | Map m =>
        let? _ := reject_unknown_fields m envelope_fields in
        (decode_fields m).1
    | _ => Err (WrongType "envelope")
    end.

(** ** Sequence numbers *)

Record SequenceGuard := mkGuard {
  guard_session : bytes;
  next_send : Z;
  next_receive : Z;
}.

Definition SequenceGuard_new (session_id : bytes) : SequenceGuard := mkGuard session_id 0 0.

Definition seal_next {T E} (from : WireError -> E) (message_type : MessageType)
    (body : body_map) (seal : bytes -> result E T) : exec SequenceGuard E T := fun g =>
  match checked_add U64_MAX (next_send g) 1 with
  | None => (Err (from SequenceWrapped), g)
  | Some following =>
      match rbind (Envelope_reconstruct message_type (guard_session g) (next_send g) body)
              Envelope_encode with
      | Err e => (Err (from e), g)
      | Ok plaintext =>
          match seal plaintext with
          | Err e => (Err e, g)
          | Ok sealed => (Ok sealed, mkGuard (guard_session g) following (next_receive g))
          end
      end
  end.

Definition accept_incoming (e : Envelope) : exec SequenceGuard WireError unit := fun g =>
  if negb (bool_decide (session_id e = guard_session g)) then (Err WrongSession, g)
  else if negb (sequence e =? next_receive g)
  then (Err (WrongSequence (next_receive g) (sequence e)), g)
  else
    match checked_add U64_MAX (next_receive g) 1 with
    | None => (Err SequenceWrapped, g)
    | Some following => (Ok tt, mkGuard (guard_session g) (next_send g) following)
    end.

(** ** Lemmas: the registry and the maps *)

Lemma parse_as_str m : parse (utf8 (as_str m)) = Ok m.
Proof. by destruct m. Qed.

Lemma parse_ok t m : parse t = Ok m -> t = utf8 (as_str m).
Proof.
  unfold parse, text_is. repeat (case_bool_decide; [intros [= <-]; done|]). done.
Qed.

Lemma version_matches_spec v : version_matches v = true <-> v = version_value.
Proof.
  split; [|by intros ->]. cbn.
  destruct v as [|[] [|[] [|[] []]]]; try done. intros H. to_prop. by subst.
Qed.

Lemma map_get_in {V} (k : bytes) (m : list (bytes * V)) v :
  map_get k m = Some v -> (k, v) ∈ m.
Proof.
  induction m as [|[k' v'] m IH]; cbn; [done|]. destruct (decide (k = k')) as [->|].
  - intros [= ->]. left.
  - intros H. right. auto.
Qed.

Lemma map_get_unique {V} (k : bytes) (m : list (bytes * V)) v :
  NoDup m.*1 -> (k, v) ∈ m -> map_get k m = Some v.
Proof.
  induction m as [|[k' v'] m IH]; cbn; [by intros _ ?%not_elem_of_nil|].
  intros [Hn Hd]%NoDup_cons [[= -> ->]|Hin]%elem_of_cons; [by rewrite decide_True|].
  rewrite decide_False; [auto|]. intros ->. apply Hn. apply list_elem_of_fmap. by exists (k', v).
Qed.

Lemma map_get_remove {V} (k k' : bytes) (m : list (bytes * V)) :
  k <> k' -> map_get k (map_remove k' m) = map_get k m.
Proof.
  intros Hk. induction m as [|[k2 v2] m IH]; cbn; [done|]. destruct (decide (k' = k2)) as [->|]; cbn.
  - by rewrite decide_False.
  - by rewrite IH.
Qed.

(** Ordered maps with the same entries are the same list. *)
Lemma ordered_ext {V} (m m' : list (bytes * V)) :
  ordered_map m -> ordered_map m' -> (forall k, map_get k m = map_get k m') -> m = m'.
Proof.
  intros Hm Hm' Hg. apply ordered_perm_eq; [done|done|].
  pose proof (ordered_nodup _ Hm) as Hd. pose proof (ordered_nodup _ Hm') as Hd'.
  apply NoDup_Permutation; [by eapply NoDup_fmap_1|by eapply NoDup_fmap_1|].
  intros [k v]. split; intros Hin.
  - apply map_get_in. rewrite <- Hg. by apply map_get_unique.
  - apply map_get_in. rewrite Hg. by apply map_get_unique.
Qed.

(** ** Lemmas: envelopes *)

Lemma envelope_map_eq e :
  envelope_map e =
    [(utf8 "body", Map (body e)); (utf8 "sequence", Unsigned (sequence e));
     (utf8 "session_id", Bytes (session_id e));
     (utf8 "type", Text (utf8 (as_str (message_type e)))); (utf8 "version", Array version_value)].
Proof. reflexivity. Qed.

Lemma envelope_map_ordered e : ordered_map (envelope_map e).
Proof. rewrite envelope_map_eq. repeat (constructor; [|repeat (constructor; [done|]); constructor]). constructor. Qed.

(** What every constructed or received envelope satisfies. *)
Definition valid_envelope (e : Envelope) : Prop :=
  len (session_id e) = SESSION_ID_SIZE /\ is_u64 (sequence e) /\ wf (Map (body e))
  /\ validate_body (message_type e) (body e) = Ok tt.

Lemma as_str_utf8 m : text_ok (utf8 (as_str m)).
Proof. by destruct m. Qed.

Lemma envelope_map_wf e : valid_envelope e -> wf (Map (envelope_map e)).
Proof.
  intros (Hs & Hq & Hb & Hv). constructor; [apply envelope_map_ordered|].
  rewrite envelope_map_eq.
  repeat (constructor; [split; [done|]|]); [done|by constructor|constructor| |by repeat constructor|constructor].
  constructor. apply as_str_utf8.
Qed.

(** A reader succeeds exactly on a field of its type, and removes it. *)
Definition reads {A} (take : string -> exec body_map WireError A) (ctor : A -> WireValue) : Prop :=
  forall f m a m',
    take f m = (Ok a, m') <->
    map_get (utf8 f) m = Some (ctor a) /\ m' = map_remove (utf8 f) m.

Ltac reads_tac :=
  intros f m a m'; unfold take_unsigned, take_text, take_bytes, take_array, take_map, ebind, removed;
  destruct (map_get (utf8 f) m) as [[]|]; cbn -[map_remove];
  (split; [intros H; inversion H; by subst|intros [H ->]; inversion H; by subst]).

Lemma reads_unsigned : reads take_unsigned Unsigned.
Proof. reads_tac. Qed.
Lemma reads_text : reads take_text Text.
Proof. reads_tac. Qed.
Lemma reads_bytes : reads take_bytes Bytes.
Proof. reads_tac. Qed.
Lemma reads_array : reads take_array Array.
Proof. reads_tac. Qed.
Lemma reads_map : reads take_map Map.
Proof. reads_tac. Qed.

(** Sequencing a reader, seen from its result. *)
Lemma reads_bind {A B} (take : string -> exec body_map WireError A) ctor f
    (k : A -> exec body_map WireError B) m b :
  reads take ctor ->
  (ebind (take f) k m).1 = Ok b <->
  exists a, map_get (utf8 f) m = Some (ctor a) /\ (k a (map_remove (utf8 f) m)).1 = Ok b.
Proof.
  intros Hr. unfold ebind. destruct (take f m) as [[a|e] m'] eqn:E.
  - apply Hr in E as [E ->]. split; [by exists a|]. intros (a' & E' & H).
    assert (take f m = (Ok a', map_remove (utf8 f) m)) as Ha' by by apply Hr.
    assert (take f m = (Ok a, map_remove (utf8 f) m)) as Ha by by apply Hr. congruence.
  - split; [done|]. intros (a & E' & _).
    assert (take f m = (Ok a, map_remove (utf8 f) m)) as Ha by by apply Hr. congruence.
Qed.

Lemma elift_bind {S E A B} (r : result E A) (k : A -> exec S E B) s b :
  (ebind (elift r) k s).1 = Ok b <-> exists a, r = Ok a /\ (k a s).1 = Ok b.
Proof. unfold ebind, elift. destruct r; naive_solver. Qed.

(** What the reading of the fields requires of the map. *)
Definition fields_of (m : body_map) (e : Envelope) : Prop :=
  map_get (utf8 "version") m = Some (Array version_value)
  /\ map_get (utf8 "type") m = Some (Text (utf8 (as_str (message_type e))))
  /\ map_get (utf8 "session_id") m = Some (Bytes (session_id e))
  /\ map_get (utf8 "sequence") m = Some (Unsigned (sequence e))
  /\ map_get (utf8 "body") m = Some (Map (body e)).

Lemma decode_fields_spec m e :
  (decode_fields m).1 = Ok e <->
  fields_of m e /\ len (session_id e) = SESSION_ID_SIZE
  /\ validate_body (message_type e) (body e) = Ok tt.
Proof.
  unfold decode_fields, fields_of. rewrite (reads_bind _ _ _ _ _ _ reads_array).
  split.
  - intros (v & Ev & H). destruct (version_matches v) eqn:Hv; [|done]. apply version_matches_spec in Hv as ->.
    cbn [negb] in H. cbv match in H.
    apply (reads_bind _ _ _ _ _ _ reads_text) in H as (t & Et & H).
    apply elift_bind in H as (mt & Hp & H). apply parse_ok in Hp as ->.
    apply (reads_bind _ _ _ _ _ _ reads_bytes) in H as (s & Es & H).
    apply elift_bind in H as (s' & Hs & H).
    apply (reads_bind _ _ _ _ _ _ reads_unsigned) in H as (q & Eq & H).
    apply (reads_bind _ _ _ _ _ _ reads_map) in H as (b & Eb & H).
    apply elift_bind in H as ([] & Hb & H). injection H as <-. cbn [session_id message_type body sequence].
    unfold SessionId_reconstruct in Hs. destruct (len s =? SESSION_ID_SIZE) eqn:El; [|done].
    injection Hs as <-. to_prop. repeat rewrite map_get_remove in * by done. done.
  - intros ((Ev & Et & Es & Eq & Eb) & Hl & Hv). eexists. split; [done|].
    rewrite (proj2 (version_matches_spec _) eq_refl). cbn [negb]. cbv match.
    apply (reads_bind _ _ _ _ _ _ reads_text). eexists. rewrite map_get_remove by done. split; [done|].
    apply elift_bind. eexists. split; [apply parse_as_str|].
    apply (reads_bind _ _ _ _ _ _ reads_bytes). eexists. rewrite !map_get_remove by done. split; [done|].
    apply elift_bind. exists (session_id e).
    split; [unfold SessionId_reconstruct; by rewrite Hl, Z.eqb_refl|].
    apply (reads_bind _ _ _ _ _ _ reads_unsigned). eexists. rewrite !map_get_remove by done. split; [done|].
    apply (reads_bind _ _ _ _ _ _ reads_map). eexists. rewrite !map_get_remove by done. split; [done|].
    apply elift_bind. exists tt. split; [done|]. by destruct e.
Qed.

Lemma existsb_negb_false {A} (f : A -> bool) l :
  existsb (fun x => negb (f x)) l = false -> forall x, x ∈ l -> f x = true.
Proof.
  intros H x Hx. destruct (f x) eqn:E; [done|]. exfalso. apply Bool.not_true_iff_false in H. apply H.
  apply existsb_exists. exists x. split; [by apply list_elem_of_In|by rewrite E].
Qed.

(** A map with these fields and no others is the one [encode] builds. *)
Lemma fields_determine m e :
  ordered_map m -> reject_unknown_fields m envelope_fields = Ok tt -> fields_of m e ->
  m = envelope_map e.
Proof.
  intros Hm Hu (Ev & Et & Es & Eq & Eb). apply ordered_ext; [done|apply envelope_map_ordered|].
  unfold reject_unknown_fields in Hu. destruct (existsb _ m) eqn:Ex; [done|].
  pose proof (existsb_negb_false (fun kv => existsb (text_is kv.1) envelope_fields) m Ex) as Hk.
  intros k. destruct (decide (k ∈ utf8 <$> envelope_fields)) as [Hin|Hout].
  - rewrite envelope_map_eq. unfold envelope_fields in Hin. cbn [fmap list_fmap] in Hin.
    rewrite !elem_of_cons in Hin.
    destruct Hin as [->|[->|[->|[->|[->|[]%not_elem_of_nil]]]]].
    + by rewrite Ev.
    + by rewrite Et.
    + by rewrite Es.
    + by rewrite Eq.
    + by rewrite Eb.
  - assert (forall m' : body_map, (forall kv, kv ∈ m' -> existsb (text_is kv.1) envelope_fields = true) ->
                       map_get k m' = None) as Hnone.
    { intros m' H'. destruct (map_get k m') as [v|] eqn:Eg; [|done]. apply map_get_in in Eg.
      specialize (H' _ Eg). apply existsb_exists in H' as (f & Hf & Ht). destruct Hout.
      unfold text_is in Ht. apply bool_decide_eq_true_1 in Ht. cbn in Ht. rewrite Ht.
      apply list_elem_of_fmap. exists f. split; [done|]. by apply list_elem_of_In. }
    rewrite !Hnone; [done| |done]. intros kv. rewrite envelope_map_eq, !elem_of_cons.
    intros [->|[->|[->|[->|[->|[]%not_elem_of_nil]]]]]; by vm_compute.
Qed.

(** The two directions of the round trip. *)
Lemma envelope_decode_encode e bs :
  valid_envelope e -> Envelope_encode e = Ok bs -> Envelope_decode bs = Ok e.
Proof.
  intros Hv. unfold Envelope_encode, Envelope_decode. rewrite !Z.gtb_ltb.
  destruct (encode_deterministic_cbor _) as [out|] eqn:E; [|done]. cbn [rbind]. rewrite Z.gtb_ltb.
  destruct (MAX_FRAME_PLAINTEXT <? len out) eqn:El; [done|]. intros [= <-]. rewrite El. to_prop.
  rewrite (decode_encode _ _ (envelope_map_wf e Hv) E El). cbn [rbind].
  replace (reject_unknown_fields _ _) with (@Ok WireError _ tt) by by rewrite envelope_map_eq.
  cbn [rbind]. apply decode_fields_spec. destruct Hv as (Hs & _ & _ & Hb). by rewrite envelope_map_eq.
Qed.

Lemma envelope_decode_sound e bs :
  all_bytes bs -> Envelope_decode bs = Ok e -> valid_envelope e /\ Envelope_encode e = Ok bs.
Proof.
  intros Hbs. unfold Envelope_encode, Envelope_decode. rewrite !Z.gtb_ltb.
  destruct (MAX_FRAME_PLAINTEXT <? len bs) eqn:El; [done|].
  destruct (decode_deterministic_cbor bs) as [v|] eqn:Ed; [|done]. cbn [rbind].
  apply decode_sound in Ed as (Hwf & Ee & Hl); [|done]. destruct v; try done.
  destruct (reject_unknown_fields m envelope_fields) as [[]|] eqn:Hu; [|done]. cbn [rbind].
  intros (Hf & Hs & Hb)%decode_fields_spec. inversion Hwf as [| | | | |m' Ho Hall| |]; subst m'.
  pose proof (fields_determine m e Ho Hu Hf) as Hm.
  rewrite Forall_forall in Hall. destruct Hf as (_ & _ & _ & Hq & Hbody).
  apply map_get_in in Hq, Hbody. apply Hall in Hq as [_ Hq], Hbody as [_ Hbody].
  split; [split_and!; [done|by inversion Hq|done|done]|].
  rewrite <- Hm, Ee. cbn [rbind]. rewrite Z.gtb_ltb. by rewrite El.
Qed.

(** ** Lemmas: sequence numbers *)

Lemma accept_incoming_cases e g :
  (session_id e = guard_session g /\ sequence e = next_receive g /\ next_receive g < U64_MAX
   /\ accept_incoming e g
      = (Ok tt, mkGuard (guard_session g) (next_send g) (next_receive g + 1)))
  \/ exists err, accept_incoming e g = (Err err, g).
Proof.
  unfold accept_incoming. case_bool_decide; cbn [negb]; [|right; by eexists].
  destruct (sequence e =? next_receive g) eqn:Eq; cbn [negb]; [|right; by eexists].
  to_prop. destruct (checked_add U64_MAX (next_receive g) 1) as [n|] eqn:En; [|right; by eexists].
  unfold checked_add in En. case_match_in En; [|done]. injection En as <-. to_prop. left.
  split_and!; [done|done|lia|done].
Qed.

(** Offer the envelopes of [l] in turn; those the guard lets through. *)
Fixpoint accepted (l : list Envelope) (g : SequenceGuard) : list Envelope * SequenceGuard :=
  match l with
  | [] => ([], g)
  | e :: rest =>
      let '(r, g) := accept_incoming e g in
      let '(out, g) := accepted rest g in
      (if is_ok r then e :: out else out, g)
  end.

(** One call of [seal_next] by a sender: the message, and whether its
    encryption succeeds. *)
Record send := mkSend { send_type : MessageType; send_body : body_map; seal_ok : bool }.

Definition perform (s : send) : exec SequenceGuard (option WireError) bytes :=
  seal_next Some (send_type s) (send_body s) (fun pt => if seal_ok s then Ok pt else Err None).

(** The plaintexts a sender seals over a series of calls, each with the call. *)
Fixpoint sealed (l : list send) (g : SequenceGuard) : list (send * bytes) * SequenceGuard :=
  match l with
  | [] => ([], g)
  | s :: rest =>
      let '(r, g) := perform s g in
      let '(out, g) := sealed rest g in
      (match r with Ok pt => (s, pt) :: out | Err _ => out end, g)
  end.

(** The receiver's handling of a frame once it is decrypted. *)
Definition receive (bs : bytes) : exec SequenceGuard WireError Envelope :=
  do? e <- elift (Envelope_decode bs);;
  do? _ <- accept_incoming e;;
  eret e.

Fixpoint receive_all (l : list bytes) : exec SequenceGuard WireError (list Envelope) :=
  match l with
  | [] => eret []
  | bs :: rest =>
      do? e <- receive bs;;
      do? es <- receive_all rest;;
      eret (e :: es)
  end.

(** [l] continues the numbering of its session from [n]. *)
Fixpoint numbered (sid : bytes) (n : Z) (l : list Envelope) : Prop :=
  match l with
  | [] => True
  | e :: rest => session_id e = sid /\ sequence e = n /\ numbered sid (n + 1) rest
  end.

Lemma accepted_numbered l g :
  let '(out, g') := accepted l g in
  numbered (guard_session g) (next_receive g) out
  /\ guard_session g' = guard_session g /\ next_send g' = next_send g
  /\ next_receive g' = next_receive g + len out.
Proof.
  revert g. induction l as [|e l IH]; intros g; cbn [accepted].
  { rewrite len_nil. cbn. split_and!; [done..|lia]. }
  destruct (accept_incoming_cases e g) as [(Hs & Hq & Hb & ->)|(err & ->)]; cbn [is_ok].
  - specialize (IH (mkGuard (guard_session g) (next_send g) (next_receive g + 1))).
    destruct (accepted l _) as [out g']. cbn in IH. destruct IH as (Hn & ? & ? & ?).
    cbn. rewrite len_cons. split_and!; [done|done|done|done|done|lia].
  - specialize (IH g). by destruct (accepted l g).
Qed.

Lemma accept_next e g :
  session_id e = guard_session g -> sequence e = next_receive g -> next_receive g < U64_MAX ->
  accept_incoming e g = (Ok tt, mkGuard (guard_session g) (next_send g) (next_receive g + 1)).
Proof.
  intros Hs Hq Hb. unfold accept_incoming. rewrite bool_decide_eq_true_2 by done.
  rewrite Hq, Z.eqb_refl. cbn [negb]. by rewrite checked_add_some by lia.
Qed.

Lemma numbered_accepted l g :
  numbered (guard_session g) (next_receive g) l -> next_receive g + len l <= U64_MAX ->
  (accepted l g).1 = l.
Proof.
  revert g. induction l as [|e l IH]; intros g; cbn [accepted numbered]; [done|].
  intros (Hs & Hq & Hn). rewrite len_cons. intros Hl. pose proof (len_nonneg l).
  rewrite (accept_next e g Hs Hq) by lia.
  specialize (IH (mkGuard (guard_session g) (next_send g) (next_receive g + 1))). cbn in IH.
  specialize (IH Hn ltac:(lia)). destruct (accepted l _) as [out g']. cbn in *. by f_equal.
Qed.

(** The calls a sender may make with a body of the source's type. *)
Definition sendable (s : send) : Prop := wf (Map (send_body s)).

Lemma perform_cases s g :
  sendable s -> len (guard_session g) = SESSION_ID_SIZE -> 0 <= next_send g ->
  (exists pt,
     perform s g = (Ok pt, mkGuard (guard_session g) (next_send g + 1) (next_receive g))
     /\ next_send g < U64_MAX
     /\ Envelope_decode pt
        = Ok (mkEnvelope (send_type s) (guard_session g) (next_send g) (send_body s)))
  \/ exists err, perform s g = (Err err, g).
Proof.
  intros Hb Hl H0. unfold perform, seal_next, checked_add.
  destruct (next_send g + 1 <=? U64_MAX) eqn:En; [|right; by eexists]. to_prop.
  unfold Envelope_reconstruct.
  destruct (validate_body (send_type s) (send_body s)) as [[]|] eqn:Ev; cbn [rbind]; [|right; by eexists].
  destruct (Envelope_encode _) as [pt|] eqn:Ee; [|right; by eexists].
  destruct (seal_ok s); [|right; by eexists]. left. exists pt. split_and!; [done|lia|].
  apply envelope_decode_encode; [|done]. split_and!; cbn; [done| |done|done]. ulia.
Qed.

Lemma sealed_received l gs gr :
  Forall sendable l -> len (guard_session gs) = SESSION_ID_SIZE -> 0 <= next_send gs ->
  guard_session gr = guard_session gs -> next_receive gr = next_send gs ->
  let '(out, gs') := sealed l gs in
  exists es gr',
    receive_all out.*2 gr = (Ok es, gr')
    /\ numbered (guard_session gs) (next_send gs) es
    /\ (fun e => (message_type e, body e)) <$> es
       = (fun x => (send_type x.1, send_body x.1)) <$> out
    /\ next_send gs' = next_send gs + len out /\ next_receive gr' = next_receive gr + len out.
Proof.
  intros Hl. revert gs gr. induction Hl as [|s l Hs Hl IH]; intros gs gr Hlen H0 Hsid Hn; cbn [sealed].
  { exists [], gr. rewrite len_nil. cbn. split_and!; [done..|lia|lia]. }
  destruct (perform_cases s gs Hs Hlen H0) as [(pt & -> & Hb & Hd)|(err & ->)].
  2:{ specialize (IH gs gr Hlen H0 Hsid Hn). by destruct (sealed l gs). }
  set (gs1 := mkGuard (guard_session gs) (next_send gs + 1) (next_receive gs)).
  set (gr1 := mkGuard (guard_session gr) (next_send gr) (next_receive gr + 1)).
  specialize (IH gs1 gr1 Hlen ltac:(cbn; lia) Hsid ltac:(cbn; lia)).
  destruct (sealed l gs1) as [out gs']. destruct IH as (es & gr' & Hr & Hnum & Hmap & Hs' & Hr').
  set (e := mkEnvelope (send_type s) (guard_session gs) (next_send gs) (send_body s)) in *.
  assert (receive pt gr = (Ok e, gr1)) as Hrec.
  { unfold receive, ebind, elift. rewrite Hd, (accept_next e gr) by (cbn; congruence || lia). done. }
  exists (e :: es), gr'. cbn [fmap list_fmap snd receive_all]. unfold ebind at 1. rewrite Hrec.
  unfold ebind. rewrite Hr. cbn [eret numbered]. rewrite len_cons.
  split_and!; [done|done|done|done|by rewrite Hmap|cbn in Hs'; lia|cbn in Hr'; lia].
Qed.

(** ** Properties *)

(** (round trip) An input is accepted as an envelope exactly when that
    envelope is valid - a session identifier of its length, a sequence number
    in range, a body its message type allows - and the input is its encoding.
    No other version, field or unregistered type gets through, and what is
    sent is what is read. *)
Theorem envelope_decodes_exactly_the_valid_encodings (bs : bytes) (e : Envelope) :
  all_bytes bs ->
  Envelope_decode bs = Ok e <-> valid_envelope e /\ Envelope_encode e = Ok bs.
Proof.
  intros Hbs. split; [by apply envelope_decode_sound|]. intros [Hv He]. by apply envelope_decode_encode.
Qed.

(** A closing message of session 0..0f, its first message. *)
Definition sample_close : Envelope :=
  mkEnvelope M_SessionClose (seqZ 0 16) 0 [(utf8 "reason", Text (utf8 "normal"))].

Definition sample_bytes : bytes :=
  match Envelope_encode sample_close with Ok bs => bs | Err _ => [] end.

Lemma envelope_decodes_exactly_the_valid_encodings_witness :
  Envelope_decode sample_bytes = Ok sample_close.
Proof.
  apply (envelope_decodes_exactly_the_valid_encodings sample_bytes sample_close).
  - apply all_bytesb_spec. by vm_compute.
  - split; [|by vm_compute]. split_and!; [by vm_compute|by vm_compute| |by vm_compute].
    constructor.
    + constructor; constructor.
    + constructor; [|constructor]. split; [by vm_compute|]. constructor. by vm_compute.
Defined.

(** (safety) Whatever envelopes a peer, or an attacker replaying its
    frames, offers in whatever order, the ones a fresh guard lets through are
    those of its session numbered 0, 1, 2, ... without a gap or a repeat; and
    an undisturbed run of them is let through entirely. *)
Theorem receiver_accepts_each_number_once (sid : bytes) (l : list Envelope) :
  numbered sid 0 (accepted l (SequenceGuard_new sid)).1
  /\ next_receive (accepted l (SequenceGuard_new sid)).2
     = len (accepted l (SequenceGuard_new sid)).1
  /\ (numbered sid 0 l -> len l <= U64_MAX -> (accepted l (SequenceGuard_new sid)).1 = l).
Proof.
  pose proof (accepted_numbered l (SequenceGuard_new sid)) as H.
  split_and!; [..|apply (numbered_accepted l (SequenceGuard_new sid))];
    destruct (accepted l _); apply H.
Qed.

(** Replayed, skipped and foreign envelopes around an ordinary one. *)
Lemma receiver_accepts_each_number_once_witness :
  (accepted [sample_close] (SequenceGuard_new (seqZ 0 16))).1 = [sample_close]
  /\ len (accepted [mkEnvelope M_LivenessPing [] 0 []; sample_close; sample_close;
                    mkEnvelope M_LivenessPing (seqZ 0 16) 2 []]
            (SequenceGuard_new (seqZ 0 16))).1 = 1.
Proof.
  split; [|by vm_compute].
  apply (receiver_accepts_each_number_once (seqZ 0 16) [sample_close]); [|by vm_compute].
  by split_and!.
Defined.

(** (functional) Two guards of one session keep step: whatever a sender
    tries to send, the calls that are refused or whose encryption fails use up
    no number, and the plaintexts of the others are accepted by the receiver
    in order, each as the message that was sent. *)
Theorem sealed_messages_arrive_in_order (sid : bytes) (l : list send) :
  len sid = SESSION_ID_SIZE -> Forall sendable l ->
  let '(out, gs) := sealed l (SequenceGuard_new sid) in
  exists es gr,
    receive_all out.*2 (SequenceGuard_new sid) = (Ok es, gr)
    /\ numbered sid 0 es
    /\ (fun e => (message_type e, body e)) <$> es
       = (fun x => (send_type x.1, send_body x.1)) <$> out
    /\ next_send gs = len out /\ next_receive gr = len out.
Proof.
  intros Hs Hl.
  by apply (sealed_received l (SequenceGuard_new sid) (SequenceGuard_new sid)).
Qed.

Definition sample_sends : list send :=
  let close := [(utf8 "reason", Text (utf8 "normal"))] in
  [mkSend M_SessionClose close false; mkSend M_SessionClose [] true;
   mkSend M_SessionClose close true; mkSend M_PairingAbort close true].

Lemma sealed_messages_arrive_in_order_witness :
  exists es gr,
    receive_all (sealed sample_sends (SequenceGuard_new (seqZ 0 16))).1.*2
      (SequenceGuard_new (seqZ 0 16)) = (Ok es, gr)
    /\ (message_type <$> es) = [M_SessionClose; M_PairingAbort] /\ next_receive gr = 2.
Proof.
  assert (Forall sendable sample_sends) as Hs.
  { assert (wf (Map [(utf8 "reason", Text (utf8 "normal"))])) as Hw.
    { constructor; [constructor; constructor|]. constructor; [|constructor].
      split; [by vm_compute|]. constructor. by vm_compute. }
    assert (wf (Map [])) as He by (constructor; constructor).
    constructor; [exact Hw|]. constructor; [exact He|]. constructor; [exact Hw|].
    constructor; [exact Hw|constructor]. }
  destruct (sealed_messages_arrive_in_order (seqZ 0 16) sample_sends eq_refl Hs)
    as (es & gr & Hr & _ & Hm & _ & Hn).
  exists es, gr. split; [exact Hr|]. split; [|rewrite Hn; by vm_compute].
  apply (f_equal (fmap fst)) in Hm. rewrite <- list_fmap_compose in Hm.
  etransitivity; [exact Hm|by vm_compute].
Defined.

End Wire.
