(* ===== verification/RappOperation.v ===== *)
(** * Operations of the remote card protocol

    crates/rapp/src/operation.rs and result.rs: the closed registry of card
    operations, the typed requests and results, and their wire bodies.  The
    readers remove fields from a [BTreeMap]; here they are computations on the
    map.  [str::trim] is modelled on UTF-8 bytes, with the white space of
    Unicode. *)

From stdpp Require Import base list strings option sorting.
From Stdlib Require Import ZArith Lia.
From S2P Require Import Prelude RappCbor RappWire.

Module Op.
Import Cbor Wire.

(** ** Registries (types.rs, operation.rs, result.rs) *)

Definition OPERATION_ID_SIZE : Z := 16.
Definition DEFAULT_OPERATION_LIFETIME_MS : Z := 300000.

Definition OperationId : Type := bytes.

(** The identifier macro's [reconstruct]: the expected and the actual length on error. *)
Definition identifier_reconstruct (size : Z) (bs : bytes) : result (Z * Z) bytes :=
  if len bs =? size then Ok bs else Err (size, len bs).
Definition OperationId_reconstruct (bs : bytes) : result (Z * Z) OperationId :=
  identifier_reconstruct OPERATION_ID_SIZE bs.

Inductive ProfileName := CardStatus | Authentication | DocumentSigning.

#[global] Instance ProfileName_eq_dec : EqDecision ProfileName.
Proof. solve_decision. Defined.

Definition ProfileName_ALL : list ProfileName := [CardStatus; Authentication; DocumentSigning].

Definition ProfileName_as_str (p : ProfileName) : string :=
  match p with
  | CardStatus => "fi.refineid.card-status"
  | Authentication => "fi.refineid.authentication"
  | DocumentSigning => "fi.refineid.document-signing"
  end.

Definition ProfileName_parse (value : bytes) : option ProfileName :=
  if text_is value "fi.refineid.card-status" then Some CardStatus
  else if text_is value "fi.refineid.authentication" then Some Authentication
  else if text_is value "fi.refineid.document-signing" then Some DocumentSigning
  else None.

Inductive CardOperationError :=
  | InvalidLifetime
  | InvalidDisplayContext
  | WrongDigestLength
  | KeyAlgorithmMismatch
  | BatchTooLarge
  | PackageTooLarge
  | InvalidIdentifier
  | ProfileActionMismatch
  | UnknownAction
  | UnknownProfile
  | InvalidField (field : string)
  | UnexpectedField
  | OperationMismatch
  | EWire (e : WireError).

Inductive CertificateKind := CertAuthentication | CertSignature.

Definition CertificateKind_wire_name (k : CertificateKind) : string :=
  match k with CertAuthentication => "authentication" | CertSignature => "signature" end.

Definition CertificateKind_parse (value : bytes) : result CardOperationError CertificateKind :=
  if text_is value "authentication" then Ok CertAuthentication
  else if text_is value "signature" then Ok CertSignature
  else Err (InvalidField "kind").

Inductive CardKeyProfile := EcdsaP256 | EcdsaP384 | Rsa2048 | Rsa3072.

Definition signature_size (p : CardKeyProfile) : Z :=
  match p with EcdsaP256 => 64 | EcdsaP384 => 96 | Rsa2048 => 256 | Rsa3072 => 384 end.

Definition CardKeyProfile_wire_name (p : CardKeyProfile) : string :=
  match p with
  | EcdsaP256 => "ecdsa_p256" | EcdsaP384 => "ecdsa_p384"
  | Rsa2048 => "rsa_2048" | Rsa3072 => "rsa_3072"
  end.

Definition CardKeyProfile_parse (value : bytes) : result CardOperationError CardKeyProfile :=
  if text_is value "ecdsa_p256" then Ok EcdsaP256
  else if text_is value "ecdsa_p384" then Ok EcdsaP384
  else if text_is value "rsa_2048" then Ok Rsa2048
  else if text_is value "rsa_3072" then Ok Rsa3072
  else Err (InvalidField "key_profile").

Inductive SignatureAlgorithm :=
  | EcdsaSha224 | EcdsaSha256 | EcdsaSha384 | EcdsaSha512
  | RsaPkcs1Sha256 | RsaPkcs1Sha384 | RsaPkcs1Sha512 | RsaPssSha256.

Definition SignatureAlgorithm_wire_name (a : SignatureAlgorithm) : string :=
  match a with
  | EcdsaSha224 => "ecdsa_sha224"
  | EcdsaSha256 => "ecdsa_sha256"
  | EcdsaSha384 => "ecdsa_sha384"
  | EcdsaSha512 => "ecdsa_sha512"
  | RsaPkcs1Sha256 => "rsa_pkcs1_sha256"
  | RsaPkcs1Sha384 => "rsa_pkcs1_sha384"
  | RsaPkcs1Sha512 => "rsa_pkcs1_sha512"
  | RsaPssSha256 => "rsa_pss_sha256"
  end.

Definition digest_size (a : SignatureAlgorithm) : Z :=
  match a with
  | EcdsaSha224 => 28
  | EcdsaSha256 | RsaPkcs1Sha256 | RsaPssSha256 => 32
  | EcdsaSha384 | RsaPkcs1Sha384 => 48
  | EcdsaSha512 | RsaPkcs1Sha512 => 64
  end.

Definition supports (a : SignatureAlgorithm) (profile : CardKeyProfile) : bool :=
  match a, profile with
  | (EcdsaSha224 | EcdsaSha256 | EcdsaSha384 | EcdsaSha512), (EcdsaP256 | EcdsaP384) => true
  | (RsaPkcs1Sha256 | RsaPkcs1Sha384 | RsaPkcs1Sha512 | RsaPssSha256), (Rsa2048 | Rsa3072) => true
  | _, _ => false
  end.

Definition SignatureAlgorithm_parse (value : bytes) : result CardOperationError SignatureAlgorithm :=
  if text_is value "ecdsa_sha224" then Ok EcdsaSha224
  else if text_is value "ecdsa_sha256" then Ok EcdsaSha256
  else if text_is value "ecdsa_sha384" then Ok EcdsaSha384
  else if text_is value "ecdsa_sha512" then Ok EcdsaSha512
  else if text_is value "rsa_pkcs1_sha256" then Ok RsaPkcs1Sha256
  else if text_is value "rsa_pkcs1_sha384" then Ok RsaPkcs1Sha384
  else if text_is value "rsa_pkcs1_sha512" then Ok RsaPkcs1Sha512
  else if text_is value "rsa_pss_sha256" then Ok RsaPssSha256
  else Err (InvalidField "algorithm").

(** ** Names shown to the holder *)

(** [text.trim().is_empty()]: every character is white space. *)
Fixpoint is_blank (t : bytes) : bool :=
  match t with
  | [] => true
  | b :: rest =>
      if within 0x09 0x0D b || (b =? 0x20) then is_blank rest
      else
        match rest with
        | c :: rest2 =>
            if (b =? 0xC2) && ((c =? 0x85) || (c =? 0xA0)) then is_blank rest2
            else
              match rest2 with
              | d :: rest3 =>
                  if (b =? 0xE1) && (c =? 0x9A) && (d =? 0x80)
                     || (b =? 0xE2) && (c =? 0x80)
                        && (within 0x80 0x8A d || (d =? 0xA8) || (d =? 0xA9) || (d =? 0xAF))
                     || (b =? 0xE2) && (c =? 0x81) && (d =? 0x9F)
                     || (b =? 0xE3) && (c =? 0x80) && (d =? 0x80)
                  then is_blank rest3 else false
              | [] => false
              end
        | [] => false
        end
  end.

Definition DISPLAY_NAME_BYTES (n : Z) : bool := (1 <=? n) && (n <=? 256).
Definition CONTAINER_RESERVED_DIRECTORY : bytes := utf8 "META-INF/".

(** [str::get(..n)]: [None] inside a character or past the end. *)
Definition str_prefix (t : bytes) (n : Z) : option bytes :=
  if len t <? n then None
  else match get t n with
       | Some b => if cont b then None else Some (take_z t n)
       | None => Some (take_z t n)
       end.

Definition to_ascii_lowercase (b : Z) : Z := if within 65 90 b then b + 32 else b.
Definition eq_ignore_ascii_case (a b : bytes) : bool :=
  bool_decide (map to_ascii_lowercase a = map to_ascii_lowercase b).

Definition ContainedFiles : Type := list bytes.

(** The loop over the entries, those before the current one in [seen]. *)
Fixpoint check_entries (seen names : list bytes) : result CardOperationError unit :=
  match names with
  | [] => Ok tt
  | name :: rest =>
      if negb (DISPLAY_NAME_BYTES (len name)) || is_blank name then Err InvalidDisplayContext
      else
        let reserved :=
          match str_prefix name (len CONTAINER_RESERVED_DIRECTORY) with
          | Some head => eq_ignore_ascii_case head CONTAINER_RESERVED_DIRECTORY
          | None => false
          end in
        if reserved || bool_decide (name ∈ seen) then Err (InvalidField "contained_files")
        else check_entries (seen ++ [name]) rest
  end.

Definition ContainedFiles_reconstruct (names : list bytes) : result CardOperationError ContainedFiles :=
  if is_empty names then Err (InvalidField "contained_files")
  else let? _ := check_entries [] names in Ok names.

(** ** Operations *)

Inductive CardOperation :=
  | InspectCard
  | ReadIdentity
  | ReadCertificate (kind : CertificateKind)
  | BrowserAuthenticate (origin : bytes) (key_profile : CardKeyProfile)
      (algorithm : SignatureAlgorithm) (digest : bytes)
  | SignDocument (document_name : bytes) (contained_files : option ContainedFiles)
      (key_profile : CardKeyProfile) (algorithm : SignatureAlgorithm) (digest : bytes)
  | BatchSignDocuments (document_names : list bytes) (key_profile : CardKeyProfile)
      (algorithm : SignatureAlgorithm) (digests : list bytes).

Definition is_consequential (op : CardOperation) : bool :=
  match op with
  | BrowserAuthenticate _ _ _ _ | SignDocument _ _ _ _ _ | BatchSignDocuments _ _ _ _ => true
  | _ => false
  end.

Definition batch_total (op : CardOperation) : option Z :=
  match op with BatchSignDocuments _ _ _ digests => Some (len digests) | _ => None end.

Definition required_profile (op : CardOperation) : ProfileName :=
  match op with
  | InspectCard | ReadIdentity => CardStatus
  | ReadCertificate CertAuthentication | BrowserAuthenticate _ _ _ _ => Authentication
  | ReadCertificate CertSignature | SignDocument _ _ _ _ _ | BatchSignDocuments _ _ _ _ =>
      DocumentSigning
  end.

Record CardIdentity := MkIdentity {
  holder_name : bytes;
  card_id : bytes;
  issuance_date : bytes;
  expiration_date : bytes;
  certificates : list bytes;
  token_display_name : option bytes }.

Inductive CardOperationResult :=
  | Inspection (answer_to_reset : bytes)
  | Identity (identity : CardIdentity)
  | Certificate (der : bytes)
  | Signature (signature : bytes)
  | Signatures (signatures : list bytes).

#[global] Instance CardIdentity_eq_dec : EqDecision CardIdentity.
Proof. solve_decision. Defined.
#[global] Instance CardOperationResult_eq_dec : EqDecision CardOperationResult.
Proof. solve_decision. Defined.

Definition HOLDER_NAME_BYTES (n : Z) : bool := (1 <=? n) && (n <=? 128).
Definition CARD_ID_BYTES (n : Z) : bool := (1 <=? n) && (n <=? 64).
Definition DATE_BYTES : Z := 10.
Definition TOKEN_DISPLAY_NAME_BYTES (n : Z) : bool := (1 <=? n) && (n <=? 64).

Definition CardIdentity_reconstruct (holder_name card_id issuance_date expiration_date : bytes)
    (certificates : list bytes) (token_display_name : option bytes) :
  result CardOperationError CardIdentity :=
  if negb (HOLDER_NAME_BYTES (len holder_name)) then Err (InvalidField "card_holder_name")
  else if negb (CARD_ID_BYTES (len card_id)) then Err (InvalidField "card_id")
  else if negb (len issuance_date =? DATE_BYTES) then Err (InvalidField "issuance_date")
  else if negb (len expiration_date =? DATE_BYTES) then Err (InvalidField "expiration_date")
  else if is_empty certificates || existsb is_empty certificates
  then Err (InvalidField "certificates")
  else if match token_display_name with
          | Some name => negb (TOKEN_DISPLAY_NAME_BYTES (len name))
          | None => false
          end
  then Err (InvalidField "token_display_name")
  else Ok (MkIdentity holder_name card_id issuance_date expiration_date certificates
             token_display_name).

(** ** Fields of a body *)

Definition insert (field : string) (v : WireValue) (m : body_map) : body_map :=
  (map_insert (utf8 field) v m).1.

(** [map.remove(field)]. *)
Definition remove_field (field : string) {E} : exec body_map E (option WireValue) := fun m =>
  match map_get (utf8 field) m with
  | Some v => (Ok (Some v), map_remove (utf8 field) m)
  | None => (Ok None, m)
  end.

(** A field read with [read], any other value or a missing one being [error]. *)
Definition take_as {E A} (error : E) (read : WireValue -> option A) (field : string) :
  exec body_map E A :=
  do? v <- remove_field field ;; elift (ok_or (v ≫= read) error).

Definition as_text (v : WireValue) : option bytes := match v with Text t => Some t | _ => None end.
Definition as_bytes (v : WireValue) : option bytes := match v with Bytes b => Some b | _ => None end.
Definition as_unsigned (v : WireValue) : option Z := match v with Unsigned n => Some n | _ => None end.
Definition as_array (v : WireValue) : option (list WireValue) :=
  match v with Array vs => Some vs | _ => None end.
Definition as_map (v : WireValue) : option body_map := match v with Map m => Some m | _ => None end.
Definition as_bool (v : WireValue) : option bool := match v with VBool b => Some b | _ => None end.

Abbreviation reader := (exec body_map CardOperationError).

Definition take_text (field : string) : reader bytes := take_as (InvalidField field) as_text field.
Definition take_bytes (field : string) : reader bytes := take_as (InvalidField field) as_bytes field.
Definition take_unsigned (field : string) : reader Z :=
  take_as (InvalidField field) as_unsigned field.
Definition take_array (field : string) : reader (list WireValue) :=
  take_as (InvalidField field) as_array field.
Definition take_map (field : string) : reader body_map := take_as (InvalidField field) as_map field.

(** An iterator collected into a [Result]. *)
Fixpoint collect {E A B} (f : A -> result E B) (l : list A) : result E (list B) :=
  match l with
  | [] => Ok []
  | a :: l => let? b := f a in let? bs := collect f l in Ok (b :: bs)
  end.

Definition take_text_array (field : string) : reader (list bytes) :=
  do? vs <- take_array field ;;
  elift (collect (fun v => ok_or (as_text v) (InvalidField field)) vs).

Definition contains_key (field : string) (m : body_map) : bool :=
  match map_get (utf8 field) m with Some _ => true | None => false end.

Definition take_optional_text_array (field : string) : reader (option (list bytes)) := fun m =>
  if contains_key field m then (do? names <- take_text_array field ;; eret (Some names)) m
  else (Ok None, m).

Definition take_byte_array (field : string) : reader (list bytes) :=
  do? vs <- take_array field ;;
  elift (collect (fun v => match v with
                           | Bytes bs => if is_empty bs then Err (InvalidField field) else Ok bs
                           | _ => Err (InvalidField field)
                           end) vs).

Definition take_id (field : string) : reader OperationId :=
  do? bs <- take_bytes field ;;
  elift (map_err (fun _ => InvalidIdentifier) (OperationId_reconstruct bs)).

Definition require_empty {E} (error : E) : exec body_map E unit := fun m =>
  if is_empty m then (Ok tt, m) else (Err error, m).

(** ** Results *)

Inductive ResultStatus := Completed | Rejected | Cancelled.

#[global] Instance ResultStatus_eq_dec : EqDecision ResultStatus.
Proof. solve_decision. Defined.

Definition ResultStatus_as_str (s : ResultStatus) : string :=
  match s with Completed => "completed" | Rejected => "rejected" | Cancelled => "cancelled" end.

Definition ResultStatus_parse (value : bytes) : result CardOperationError ResultStatus :=
  if text_is value "completed" then Ok Completed
  else if text_is value "rejected" then Ok Rejected
  else if text_is value "cancelled" then Ok Cancelled
  else Err (InvalidField "status").

Inductive ResultError :=
  | RE_Busy | RE_DuplicateOperation | RE_InvalidLifetime | RE_OperationExpired | RE_Unauthorized
  | RE_UnsupportedParameter | RE_UserCancelled | RE_RetryFloor | RE_CardError | RE_OperationFailed.

Definition ResultError_as_str (e : ResultError) : string :=
  match e with
  | RE_Busy => "busy"
  | RE_DuplicateOperation => "duplicate_operation"
  | RE_InvalidLifetime => "invalid_lifetime"
  | RE_OperationExpired => "operation_expired"
  | RE_Unauthorized => "unauthorized"
  | RE_UnsupportedParameter => "unsupported_parameter"
  | RE_UserCancelled => "user_cancelled"
  | RE_RetryFloor => "retry_floor"
  | RE_CardError => "card_error"
  | RE_OperationFailed => "operation_failed"
  end.

Definition ResultError_parse (value : bytes) : result CardOperationError ResultError :=
  if text_is value "busy" then Ok RE_Busy
  else if text_is value "duplicate_operation" then Ok RE_DuplicateOperation
  else if text_is value "invalid_lifetime" then Ok RE_InvalidLifetime
  else if text_is value "operation_expired" then Ok RE_OperationExpired
  else if text_is value "unauthorized" then Ok RE_Unauthorized
  else if text_is value "unsupported_parameter" then Ok RE_UnsupportedParameter
  else if text_is value "user_cancelled" then Ok RE_UserCancelled
  else if text_is value "retry_floor" then Ok RE_RetryFloor
  else if text_is value "card_error" then Ok RE_CardError
  else if text_is value "operation_failed" then Ok RE_OperationFailed
  else Err (InvalidField "error").

Definition permits (e : ResultError) (status : ResultStatus) : bool :=
  match e with
  | RE_OperationExpired => match status with Cancelled => true | _ => false end
  | RE_Busy | RE_DuplicateOperation => false
  | _ => match status with Rejected => true | _ => false end
  end.

Inductive ProxyFailure :=
  | PF_RequestExpired | PF_RequestInvalidOrUnsupported | PF_Unauthorized | PF_UserDenied
  | PF_RetryFloor | PF_CardError | PF_OperationFailed.

Definition failure_status (f : ProxyFailure) : ResultStatus :=
  match f with PF_RequestExpired => Cancelled | _ => Rejected end.

Definition failure_error (f : ProxyFailure) : ResultError :=
  match f with
  | PF_RequestExpired => RE_OperationExpired
  | PF_RequestInvalidOrUnsupported => RE_UnsupportedParameter
  | PF_Unauthorized => RE_Unauthorized
  | PF_UserDenied => RE_UserCancelled
  | PF_RetryFloor => RE_RetryFloor
  | PF_CardError => RE_CardError
  | PF_OperationFailed => RE_OperationFailed
  end.

Definition result_to_wire (r : CardOperationResult) : body_map :=
  match r with
  | Inspection atr => insert "atr" (Bytes atr) []
  | Identity i =>
      let body :=
        insert "certificates" (Array (map Bytes (certificates i)))
          (insert "expiration_date" (Text (expiration_date i))
             (insert "issuance_date" (Text (issuance_date i))
                (insert "card_id" (Text (card_id i))
                   (insert "card_holder_name" (Text (holder_name i)) [])))) in
      match token_display_name i with
      | Some name => insert "token_display_name" (Text name) body
      | None => body
      end
  | Certificate bs => insert "certificate" (Bytes bs) []
  | Signature bs => insert "signature" (Bytes bs) []
  | Signatures l => insert "signatures" (Array (map Bytes l)) []
  end.

(** The optional [token_display_name]. *)
Definition take_token_display_name : reader (option bytes) :=
  do? v <- remove_field "token_display_name" ;;
  match v with
  | None => eret None
  | Some (Text value) => eret (Some value)
  | Some _ => efail (InvalidField "token_display_name")
  end.

Definition read_result (operation : CardOperation) : reader CardOperationResult :=
  match operation with
  | InspectCard => do? atr <- take_bytes "atr" ;; eret (Inspection atr)
  | ReadIdentity =>
      do? values <- take_array "certificates" ;;
      do? certificates <- elift (collect (fun v => ok_or (as_bytes v) (InvalidField "certificates"))
                                   values) ;;
      do? token <- take_token_display_name ;;
      do? holder <- take_text "card_holder_name" ;;
      do? card <- take_text "card_id" ;;
      do? issued <- take_text "issuance_date" ;;
      do? expires <- take_text "expiration_date" ;;
      do? i <- elift (CardIdentity_reconstruct holder card issued expires certificates token) ;;
      eret (Identity i)
  | ReadCertificate _ => do? bs <- take_bytes "certificate" ;; eret (Certificate bs)
  | BrowserAuthenticate _ _ _ _ | SignDocument _ _ _ _ _ =>
      do? bs <- take_bytes "signature" ;; eret (Signature bs)
  | BatchSignDocuments _ _ _ _ =>
      do? l <- take_byte_array "signatures" ;; eret (Signatures l)
  end.

Definition result_from_wire (body : body_map) (operation : CardOperation) :
  result CardOperationError CardOperationResult :=
  ((do? r <- read_result operation ;;
    do? _ <- require_empty UnexpectedField ;; eret r) body).1.

(** The [response] map; [typed_for] reads it as the answer to an operation. *)
Definition ResultResponse : Type := body_map.
Definition from_result (r : CardOperationResult) : ResultResponse := result_to_wire r.
Definition typed_for (response : ResultResponse) (operation : CardOperation) :
  result CardOperationError CardOperationResult := result_from_wire response operation.

Record OperationResultMessage := MkResult {
  res_operation_id : OperationId;
  res_status : ResultStatus;
  res_error : option ResultError;
  res_response : option ResultResponse }.

Definition result_completed (operation_id : OperationId) (r : CardOperationResult) :
  OperationResultMessage := MkResult operation_id Completed None (Some (from_result r)).
Definition result_rejection (operation_id : OperationId) (status : ResultStatus) (e : ResultError) :
  OperationResultMessage := MkResult operation_id status (Some e) None.
Definition result_failure (operation_id : OperationId) (f : ProxyFailure) : OperationResultMessage :=
  result_rejection operation_id (failure_status f) (failure_error f).

Definition is_consistent (m : OperationResultMessage) : bool :=
  match res_status m, res_error m, res_response m with
  | Completed, None, Some _ => true
  | status, Some e, None => negb (bool_decide (status = Completed)) && permits e status
  | _, _, _ => false
  end.

Definition result_matches_operation (r : CardOperationResult) (operation : CardOperation) : bool :=
  match r, operation with
  | Signatures signatures, BatchSignDocuments _ _ _ digests => len signatures =? len digests
  | Inspection _, InspectCard => true
  | Identity _, ReadIdentity => true
  | Certificate _, ReadCertificate _ => true
  | Signature _, (BrowserAuthenticate _ _ _ _ | SignDocument _ _ _ _ _) => true
  | _, _ => false
  end.

Definition validate_for (m : OperationResultMessage) (operation_id : OperationId)
    (operation : CardOperation) : result CardOperationError unit :=
  if negb (bool_decide (res_operation_id m = operation_id)) then Err OperationMismatch
  else if negb (is_consistent m) then Err (InvalidField "result")
  else
    match res_response m with
    | Some response =>
        let? r := typed_for response operation in
        if negb (result_matches_operation r operation) then Err ProfileActionMismatch else Ok tt
    | None => Ok tt
    end.

Definition result_to_wire_body (m : OperationResultMessage) : result CardOperationError body_map :=
  if negb (is_consistent m) then Err (InvalidField "result")
  else
    let body := insert "status" (Text (utf8 (ResultStatus_as_str (res_status m))))
                  (insert "operation_id" (Bytes (res_operation_id m)) []) in
    let body := match res_error m with
                | Some e => insert "error" (Text (utf8 (ResultError_as_str e))) body
                | None => body
                end in
    Ok (match res_response m with
        | Some response => insert "response" (Map response) body
        | None => body
        end).

Definition take_result_error : reader (option ResultError) :=
  do? v <- remove_field "error" ;;
  match v with
  | None => eret None
  | Some (Text value) => do? e <- elift (ResultError_parse value) ;; eret (Some e)
  | Some _ => efail (InvalidField "error")
  end.

Definition take_response : reader (option ResultResponse) :=
  do? v <- remove_field "response" ;;
  match v with
  | None => eret None
  | Some (Map fields) => eret (Some fields)
  | Some _ => efail (InvalidField "response")
  end.

Definition result_from_wire_body (body : body_map) :
  result CardOperationError OperationResultMessage :=
  ((do? operation_id <- take_id "operation_id" ;;
    do? status_text <- take_text "status" ;;
    do? status <- elift (ResultStatus_parse status_text) ;;
    do? error <- take_result_error ;;
    do? response <- take_response ;;
    do? _ <- require_empty UnexpectedField ;;
    let message := MkResult operation_id status error response in
    if is_consistent message then eret message else efail (InvalidField "result")) body).1.

(** ** Validation of an operation *)

Definition validate_named_digest (display_name : bytes) (key_profile : CardKeyProfile)
    (algorithm : SignatureAlgorithm) (digest : bytes) : result CardOperationError unit :=
  if is_blank display_name || negb (DISPLAY_NAME_BYTES (len display_name))
  then Err InvalidDisplayContext
  else if negb (len digest =? digest_size algorithm) then Err WrongDigestLength
  else if negb (supports algorithm key_profile) then Err KeyAlgorithmMismatch
  else Ok tt.

(** Whether an envelope at the widest sequence number fits one frame. *)
Definition fits_one_frame (message_type : MessageType) (body : body_map)
    (too_large : CardOperationError) : result CardOperationError unit :=
  let? envelope :=
    map_err EWire (Envelope_reconstruct message_type (repeat 0 (Z.to_nat SESSION_ID_SIZE)) U64_MAX body) in
  match Envelope_encode envelope with
  | Ok _ => Ok tt
  | Err (OversizedPlaintext _) => Err too_large
  | Err error => Err (EWire error)
  end.

Definition ensure_batch_result_fits_one_frame (count : Z) (key_profile : CardKeyProfile) :
  result CardOperationError unit :=
  let signature := repeat 0 (Z.to_nat (signature_size key_profile)) in
  let r := Signatures (repeat signature (Z.to_nat count)) in
  let? body :=
    result_to_wire_body (result_completed (repeat 0 (Z.to_nat OPERATION_ID_SIZE)) r) in
  fits_one_frame M_OperationResult body BatchTooLarge.

Fixpoint validate_documents (names digests : list bytes) (key_profile : CardKeyProfile)
    (algorithm : SignatureAlgorithm) : result CardOperationError unit :=
  match names, digests with
  | name :: names, digest :: digests =>
      let? _ := validate_named_digest name key_profile algorithm digest in
      validate_documents names digests key_profile algorithm
  | _, _ => Ok tt
  end.

Definition validate_operation (op : CardOperation) : result CardOperationError unit :=
  match op with
  | BrowserAuthenticate origin key_profile algorithm digest =>
      validate_named_digest origin key_profile algorithm digest
  | SignDocument document_name _ key_profile algorithm digest =>
      validate_named_digest document_name key_profile algorithm digest
  | BatchSignDocuments document_names key_profile algorithm digests =>
      if is_empty digests || negb (len document_names =? len digests)
      then Err (InvalidField "digests")
      else
        let? _ := validate_documents document_names digests key_profile algorithm in
        ensure_batch_result_fits_one_frame (len digests) key_profile
  | _ => Ok tt
  end.

(** ** The wire form of an operation *)

Definition key_fields (key_profile : CardKeyProfile) (algorithm : SignatureAlgorithm) : body_map :=
  insert "algorithm" (Text (utf8 (SignatureAlgorithm_wire_name algorithm)))
    (insert "key_profile" (Text (utf8 (CardKeyProfile_wire_name key_profile))) []).

(** The action, the context and the payload. *)
Definition wire_parts (op : CardOperation) : string * body_map * body_map :=
  match op with
  | InspectCard => ("inspect_card", [], [])
  | ReadIdentity => ("read_identity", [], [])
  | ReadCertificate kind =>
      ("read_certificate", [], insert "kind" (Text (utf8 (CertificateKind_wire_name kind))) [])
  | BrowserAuthenticate origin key_profile algorithm digest =>
      ("browser_authenticate", insert "origin" (Text origin) [],
       insert "digest" (Bytes digest) (key_fields key_profile algorithm))
  | SignDocument document_name contained_files key_profile algorithm digest =>
      let context := insert "document_name" (Text document_name) [] in
      ("sign_document",
       match contained_files with
       | Some files => insert "contained_files" (Array (map Text files)) context
       | None => context
       end,
       insert "digest" (Bytes digest) (key_fields key_profile algorithm))
  | BatchSignDocuments document_names key_profile algorithm digests =>
      ("batch_sign_documents",
       insert "document_names" (Array (map Text document_names)) [],
       insert "digests" (Array (map Bytes digests)) (key_fields key_profile algorithm))
  end%string.

(** Both maps of a request being read. *)
Definition in_context {A} (m : reader A) : exec (body_map * body_map) CardOperationError A :=
  fun s => let '(r, c) := m s.1 in (r, (c, s.2)).
Definition in_payload {A} (m : reader A) : exec (body_map * body_map) CardOperationError A :=
  fun s => let '(r, p) := m s.2 in (r, (s.1, p)).

Definition take_key_fields : reader (CardKeyProfile * SignatureAlgorithm) :=
  do? profile_text <- take_text "key_profile" ;;
  do? key_profile <- elift (CardKeyProfile_parse profile_text) ;;
  do? algorithm_text <- take_text "algorithm" ;;
  do? algorithm <- elift (SignatureAlgorithm_parse algorithm_text) ;;
  eret (key_profile, algorithm).

Definition take_contained_files : reader (option ContainedFiles) :=
  do? names <- take_optional_text_array "contained_files" ;;
  match names with
  | Some names => do? files <- elift (ContainedFiles_reconstruct names) ;; eret (Some files)
  | None => eret None
  end.

Definition take_digests : reader (list bytes) :=
  do? vs <- take_array "digests" ;;
  elift (collect (fun v => ok_or (as_bytes v) (InvalidField "digests")) vs).

Definition read_operation (action : bytes) :
  exec (body_map * body_map) CardOperationError CardOperation :=
  if text_is action "inspect_card" then eret InspectCard
  else if text_is action "read_identity" then eret ReadIdentity
  else if text_is action "read_certificate" then
    do? text <- in_payload (take_text "kind") ;;
    do? kind <- elift (CertificateKind_parse text) ;;
    eret (ReadCertificate kind)
  else if text_is action "browser_authenticate" then
    do? origin <- in_context (take_text "origin") ;;
    do? keys <- in_payload take_key_fields ;;
    do? digest <- in_payload (take_bytes "digest") ;;
    eret (BrowserAuthenticate origin keys.1 keys.2 digest)
  else if text_is action "sign_document" then
    do? document_name <- in_context (take_text "document_name") ;;
    do? contained_files <- in_context take_contained_files ;;
    do? keys <- in_payload take_key_fields ;;
    do? digest <- in_payload (take_bytes "digest") ;;
    eret (SignDocument document_name contained_files keys.1 keys.2 digest)
  else if text_is action "batch_sign_documents" then
    do? document_names <- in_context (take_text_array "document_names") ;;
    do? keys <- in_payload take_key_fields ;;
    do? digests <- in_payload take_digests ;;
    eret (BatchSignDocuments document_names keys.1 keys.2 digests)
  else efail UnknownAction.

Definition from_wire_parts (action : bytes) (context payload : body_map) :
  result CardOperationError CardOperation :=
  match read_operation action (context, payload) with
  | (Ok operation, (context, payload)) =>
      if negb (is_empty context) || negb (is_empty payload) then Err UnexpectedField
      else let? _ := validate_operation operation in Ok operation
  | (Err e, _) => Err e
  end.

(** ** Requests *)

Record OperationRequest := MkRequest {
  operation_id : OperationId;
  profile : ProfileName;
  local_start_ms : Z;
  expires_after_ms : Z;
  operation : CardOperation }.

Definition request_wire_body (r : OperationRequest) : body_map :=
  let '(action, context, payload) := wire_parts (operation r) in
  insert "payload" (Map payload)
    (insert "context" (Map context)
       (insert "expires_after_ms" (Unsigned (expires_after_ms r))
          (insert "action" (Text (utf8 action))
             (insert "profile" (Text (utf8 (ProfileName_as_str (profile r))))
                (insert "operation_id" (Bytes (operation_id r)) []))))).

Definition is_package (op : CardOperation) : bool :=
  match op with SignDocument _ (Some _) _ _ _ => true | _ => false end.

Definition validate_request (r : OperationRequest) : result CardOperationError unit :=
  if expires_after_ms r =? 0 then Err InvalidLifetime
  else if negb (bool_decide (profile r = required_profile (operation r)))
  then Err ProfileActionMismatch
  else
    let? _ := validate_operation (operation r) in
    if is_package (operation r)
    then fits_one_frame M_OperationRequest (request_wire_body r) PackageTooLarge
    else Ok tt.

Definition request_reconstruct (id : OperationId) (p : ProfileName) (start expires : Z)
    (op : CardOperation) : result CardOperationError OperationRequest :=
  let r := MkRequest id p start expires op in
  let? _ := validate_request r in Ok r.

Definition local_deadline_ms (r : OperationRequest) (maximum_lifetime_ms : Z) :
  result CardOperationError Z :=
  let? _ := validate_request r in
  if maximum_lifetime_ms =? 0 then Err InvalidLifetime
  else Ok (saturating_add U64_MAX (local_start_ms r)
             (Z.min (expires_after_ms r) maximum_lifetime_ms)).

Definition request_to_wire_body (r : OperationRequest) : result CardOperationError body_map :=
  let? _ := validate_request r in Ok (request_wire_body r).

Record OperationRequestRefusal := MkRefusal {
  refused_operation_id : OperationId; refusal_error : ResultError }.

Inductive RequestError :=
  | Malformed (e : CardOperationError)
  | Refused (r : OperationRequestRefusal).

Definition take_lifetime : reader Z := fun m =>
  if contains_key "expires_after_ms" m then take_unsigned "expires_after_ms" m
  else (Ok DEFAULT_OPERATION_LIFETIME_MS, m).

Definition request_from_wire_body (body : body_map) (local_start_ms : Z) :
  result RequestError OperationRequest :=
  let? fields :=
    map_err Malformed
      ((do? id_bytes <- take_bytes "operation_id" ;;
        do? operation_id <- elift (map_err (fun _ => InvalidIdentifier)
                                     (OperationId_reconstruct id_bytes)) ;;
        do? profile_text <- take_text "profile" ;;
        do? action <- take_text "action" ;;
        do? context <- take_map "context" ;;
        do? payload <- take_map "payload" ;;
        do? expires_after_ms <- take_lifetime ;;
        do? _ <- require_empty UnexpectedField ;;
        eret (operation_id, profile_text, action, context, payload, expires_after_ms)) body).1 in
  let '(operation_id, profile_text, action, context, payload, expires_after_ms) := fields in
  let refuse error := Refused (MkRefusal operation_id error) in
  if expires_after_ms =? 0 then Err (refuse RE_InvalidLifetime)
  else
    match ProfileName_parse profile_text with
    | None => Err (refuse RE_UnsupportedParameter)
    | Some profile =>
        map_err (fun _ => refuse RE_UnsupportedParameter)
          (let? operation := from_wire_parts action context payload in
           request_reconstruct operation_id profile local_start_ms expires_after_ms operation)
    end.

(** ** Lemmas *)

(** *** Reading and rebuilding maps *)

Lemma ebind_ok {S E A B} (m : exec S E A) (k : A -> exec S E B) s b s2 :
  ebind m k s = (Ok b, s2) <-> exists a s1, m s = (Ok a, s1) /\ k a s1 = (Ok b, s2).
Proof.
  unfold ebind. destruct (m s) as [[a|e] s1]; split.
  - intros H. by exists a, s1.
  - by intros (a' & s1' & [= <- <-] & H).
  - done.
  - by intros (a' & s1' & H & _).
Qed.

Lemma elift_ok {S E A} (r : result E A) (s s' : S) a : elift r s = (Ok a, s') <-> r = Ok a /\ s' = s.
Proof. unfold elift. split; [by intros [= -> ->]|by intros [-> ->]]. Qed.

Lemma eret_ok {S E A} (x : A) (s s' : S) a : @eret S E A x s = (Ok a, s') <-> a = x /\ s' = s.
Proof. unfold eret. split; [by intros [= -> ->]|by intros [-> ->]]. Qed.

Lemma fst_ok {S E A} (m : exec S E A) s a : (m s).1 = Ok a <-> exists s', m s = (Ok a, s').
Proof. destruct (m s) as [r s1]; cbn. split; [intros ->; by exists s1|by intros (s' & [= -> ->])]. Qed.

Lemma require_empty_ok {E} (e : E) m m' : require_empty e m = (Ok tt, m') <-> m = [] /\ m' = [].
Proof. unfold require_empty. destruct m; cbn; naive_solver. Qed.

Lemma remove_field_ok {E} field m (v : option WireValue) m' :
  @remove_field field E m = (Ok v, m') <->
  map_get (utf8 field) m = v /\ m' = (if v then map_remove (utf8 field) m else m).
Proof. unfold remove_field. destruct (map_get (utf8 field) m) eqn:E1; naive_solver. Qed.

(** A field is taken when it holds the constructor read. *)
Definition inverts {A} (read : WireValue -> option A) (ctor : A -> WireValue) : Prop :=
  forall v a, read v = Some a <-> v = ctor a.

Lemma take_as_ok {E A} (error : E) (read : WireValue -> option A) ctor field m a m' :
  inverts read ctor ->
  take_as error read field m = (Ok a, m') <->
  map_get (utf8 field) m = Some (ctor a) /\ m' = map_remove (utf8 field) m.
Proof.
  intros Hr. unfold take_as. rewrite ebind_ok. setoid_rewrite remove_field_ok. split.
  - intros (v & m1 & [Hg ->] & H). apply elift_ok in H as [H ->]. destruct v as [v|]; [|done].
    cbn in H. destruct (read v) as [x|] eqn:Ex; [|done]. injection H as ->.
    apply Hr in Ex as ->. done.
  - intros [Hg ->]. exists (Some (ctor a)), (map_remove (utf8 field) m). split; [done|].
    apply elift_ok. split; [|done]. cbn. by rewrite (proj2 (Hr _ _) eq_refl).
Qed.

Lemma inverts_text : inverts as_text Text.
Proof. by intros [] a; split; intros; simplify_eq/=. Qed.
Lemma inverts_bytes : inverts as_bytes Bytes.
Proof. by intros [] a; split; intros; simplify_eq/=. Qed.
Lemma inverts_unsigned : inverts as_unsigned Unsigned.
Proof. by intros [] a; split; intros; simplify_eq/=. Qed.
Lemma inverts_array : inverts as_array Array.
Proof. by intros [] a; split; intros; simplify_eq/=. Qed.
Lemma inverts_map : inverts as_map Map.
Proof. by intros [] a; split; intros; simplify_eq/=. Qed.
Lemma inverts_bool : inverts as_bool VBool.
Proof. by intros [] a; split; intros; simplify_eq/=. Qed.

(** An entry of an ordered map, taken out and put back. *)
Lemma map_rebuild {V} (k : bytes) (v : V) m :
  ordered_map m -> map_get k m = Some v ->
  m = (map_insert k v (map_remove k m)).1 /\ ordered_map (map_remove k m).
Proof.
  induction m as [|[k' v'] m IH]; cbn [map_get map_remove]; [done|].
  intros Ho Hg. apply StronglySorted_inv in Ho as [Ho Hf]. destruct (decide (k = k')) as [->|Hne].
  - injection Hg as ->. split; [|done]. destruct m as [|[k2 v2] m]; [done|]. cbn.
    rewrite List.Forall_cons_iff in Hf. destruct Hf as [Hf _]. unfold key_lt in Hf. cbn in Hf. by rewrite Hf.
  - destruct (IH Ho Hg) as [Hm Ho']. split.
    + cbn. rewrite List.Forall_forall in Hf.
      assert (key_lt (k', v') (k, v)) as Hlt.
      { apply Hf. apply list_elem_of_In. by apply map_get_in. }
      unfold key_lt in Hlt. cbn in Hlt.
      assert (lex_ltb k k' = false) as ->.
      { destruct (lex_ltb k k') eqn:E; [|done].
        pose proof (lex_trans _ _ _ E Hlt) as H. by rewrite lex_irrefl in H. }
      rewrite Hlt. destruct (map_insert k v (map_remove k m)) as [m2 d]. cbn in *. by rewrite <- Hm.
    + constructor; [done|]. rewrite List.Forall_forall in *. intros x Hx. apply Hf.
      clear -Hx. induction m as [|[k2 v2] m IH]; cbn in *; [done|].
      destruct (decide (k = k2)); [by right|]. destruct Hx as [<-|Hx]; [by left|right; auto].
Qed.

Lemma collect_map {E A B} (f : B -> result E A) (g : A -> B) (l : list A) :
  (forall a, a ∈ l -> f (g a) = Ok a) -> collect f (map g l) = Ok l.
Proof.
  induction l as [|a l IH]; intros H; cbn; [done|].
  rewrite H by by left. cbn. rewrite IH by (intros; apply H; by right). done.
Qed.

Lemma collect_inv {E A B} (f : B -> result E A) (g : A -> B) vs (l : list A) :
  (forall v a, f v = Ok a -> v = g a) -> collect f vs = Ok l -> vs = map g l.
Proof.
  intros Hf. revert l. induction vs as [|v vs IH]; intros l H; cbn in H.
  - by injection H as <-.
  - destruct (f v) as [a|] eqn:E1; [|done]. cbn in H.
    destruct (collect f vs) as [l'|] eqn:E2; [|done]. injection H as <-. cbn.
    by rewrite (Hf _ _ E1), <- (IH _ eq_refl).
Qed.

Lemma wf_entry k v m :
  wf (Map m) -> map_get k m = Some v ->
  m = (map_insert k v (map_remove k m)).1 /\ wf (Map (map_remove k m)) /\ wf v.
Proof.
  intros Hw Hg. inversion Hw as [| | | | |? Ho Hf| |]; subst. destruct (map_rebuild k v m Ho Hg) as [Hm Ho'].
  split_and!; [done| |].
  - constructor; [done|]. rewrite List.Forall_forall in *. intros x Hx. apply Hf.
    clear -Hx. induction m as [|[k2 v2] m IH]; cbn in *; [done|].
    destruct (decide (k = k2)); [by right|]. destruct Hx as [<-|Hx]; [by left|right; auto].
  - rewrite List.Forall_forall in Hf. apply map_get_in, list_elem_of_In in Hg. by apply (Hf (k, v)).
Qed.

(** What a reader that succeeds took out of the map: [put] puts it back. *)
Definition undoes {E A} (rd : exec body_map E A) (put : A -> body_map -> body_map) (ok : A -> Prop) : Prop :=
  forall m a m', wf (Map m) -> rd m = (Ok a, m') -> m = put a m' /\ wf (Map m') /\ ok a.

Lemma take_as_undoes {E A} (error : E) (read : WireValue -> option A) ctor field :
  inverts read ctor ->
  undoes (take_as error read field) (fun a => insert field (ctor a)) (fun a => wf (ctor a)).
Proof.
  intros Hr m a m' Hw H. apply (take_as_ok _ _ _ _ _ _ _ Hr) in H as [Hg ->]. by apply wf_entry.
Qed.

Definition put_option (field : string) (v : option WireValue) (m : body_map) : body_map :=
  match v with Some v => insert field v m | None => m end.

Lemma remove_field_undoes {E} field :
  undoes (@remove_field field E) (put_option field)
    (fun v => match v with Some v => wf v | None => True end).
Proof.
  intros m v m' Hw H. apply remove_field_ok in H as [Hg ->]. destruct v as [v|]; [|done].
  by apply wf_entry.
Qed.

(** Undo the readers of a run, from the first to the last. *)
Ltac unread_with tac :=
  repeat match goal with
  | H : (_ _).1 = Ok _ |- _ => apply fst_ok in H as (? & H)
  | H : ebind _ _ _ = (Ok _, _) |- _ => apply ebind_ok in H as (? & ? & ? & ?)
  | H : elift _ _ = (Ok _, _) |- _ => apply elift_ok in H as [? ?]; subst
  | H : eret _ _ = (Ok _, _) |- _ => apply eret_ok in H as [? ?]; subst
  | H : efail _ _ = (Ok _, _) |- _ => discriminate H
  | u : unit |- _ => destruct u
  | H : require_empty _ _ = (Ok tt, _) |- _ => apply require_empty_ok in H as [-> ->]
  | Hw : wf (Map ?m), H : remove_field _ ?m = (Ok _, _) |- _ =>
      destruct (remove_field_undoes _ _ _ _ Hw H) as (-> & ? & ?); clear H Hw
  | Hw : wf (Map ?m), H : take_as ?e ?r ?f ?m = (Ok _, _) |- _ =>
      let I := fresh in
      eassert (inverts r _) as I by tac;
      destruct (take_as_undoes e r _ f I _ _ _ Hw H) as (-> & ? & ?); clear I H Hw
  | H : rbind ?r _ = Ok _ |- _ => let E := fresh "E" in destruct r eqn:E; [|discriminate H]; cbn [rbind] in H
  end.
Ltac inverts_known :=
  first [apply inverts_text | apply inverts_bytes | apply inverts_unsigned | apply inverts_array
        | apply inverts_map | apply inverts_bool].
Ltac unread :=
  unfold take_id, take_text, take_bytes, take_unsigned, take_array, take_map in *;
  unread_with inverts_known.

(** *** Registry names *)

Ltac parse_names H :=
  repeat match type of H with
  | (if text_is ?t ?s then _ else _) = _ =>
      let E := fresh in
      destruct (text_is t s) eqn:E;
      [apply bool_decide_eq_true in E as ->; injection H as <-; reflexivity|clear E]
  end; discriminate H.

Lemma ProfileName_parse_inv t p : ProfileName_parse t = Some p -> t = utf8 (ProfileName_as_str p).
Proof. unfold ProfileName_parse. intros H. parse_names H. Qed.
Lemma CertificateKind_parse_inv t p : CertificateKind_parse t = Ok p -> t = utf8 (CertificateKind_wire_name p).
Proof. unfold CertificateKind_parse. intros H. parse_names H. Qed.
Lemma CardKeyProfile_parse_inv t p : CardKeyProfile_parse t = Ok p -> t = utf8 (CardKeyProfile_wire_name p).
Proof. unfold CardKeyProfile_parse. intros H. parse_names H. Qed.
Lemma SignatureAlgorithm_parse_inv t p :
  SignatureAlgorithm_parse t = Ok p -> t = utf8 (SignatureAlgorithm_wire_name p).
Proof. unfold SignatureAlgorithm_parse. intros H. parse_names H. Qed.
Lemma ResultStatus_parse_inv t p : ResultStatus_parse t = Ok p -> t = utf8 (ResultStatus_as_str p).
Proof. unfold ResultStatus_parse. intros H. parse_names H. Qed.
Lemma ResultError_parse_inv t p : ResultError_parse t = Ok p -> t = utf8 (ResultError_as_str p).
Proof. unfold ResultError_parse. intros H. parse_names H. Qed.

Ltac names_known :=
  repeat match goal with
  | H : ProfileName_parse _ = _ |- _ => apply ProfileName_parse_inv in H as ->
  | H : CertificateKind_parse _ = _ |- _ => apply CertificateKind_parse_inv in H as ->
  | H : CardKeyProfile_parse _ = _ |- _ => apply CardKeyProfile_parse_inv in H as ->
  | H : SignatureAlgorithm_parse _ = _ |- _ => apply SignatureAlgorithm_parse_inv in H as ->
  | H : ResultStatus_parse _ = _ |- _ => apply ResultStatus_parse_inv in H as ->
  | H : ResultError_parse _ = _ |- _ => apply ResultError_parse_inv in H as ->
  end.

(** There are three profiles. *)
Lemma distinct_profiles (l : list ProfileName) : NoDup l -> len l <= 3.
Proof.
  intros Hd. pose proof (NoDup_submseteq l ProfileName_ALL Hd) as Hs.
  apply submseteq_length in Hs; [cbn in Hs; unfold len; lia|]. intros [] _; unfold ProfileName_ALL; rewrite !elem_of_cons; tauto.
Qed.

(** *** Operations *)

Lemma collect_text field vs l :
  collect (fun v => ok_or (as_text v) (InvalidField field)) vs = Ok l -> vs = map Text l.
Proof. apply collect_inv. intros [] a H; simplify_eq/=; done. Qed.
Lemma collect_bytes field vs l :
  collect (fun v => ok_or (as_bytes v) (InvalidField field)) vs = Ok l -> vs = map Bytes l.
Proof. apply collect_inv. intros [] a H; simplify_eq/=; done. Qed.

Lemma take_text_array_undoes field :
  undoes (take_text_array field) (fun l => insert field (Array (map Text l))) (fun _ => True).
Proof.
  intros m l m' Hw H. unfold take_text_array in H. unread.
  match goal with H : collect _ _ = _ |- _ => apply collect_text in H as -> end. done.
Qed.

Lemma take_digests_undoes :
  undoes take_digests (fun l => insert "digests" (Array (map Bytes l))) (fun _ => True).
Proof.
  intros m l m' Hw H. unfold take_digests in H. unread.
  match goal with H : collect _ _ = _ |- _ => apply collect_bytes in H as -> end. done.
Qed.

Lemma take_key_fields_undoes :
  undoes take_key_fields (fun k m =>
    insert "key_profile" (Text (utf8 (CardKeyProfile_wire_name k.1)))
      (insert "algorithm" (Text (utf8 (SignatureAlgorithm_wire_name k.2))) m)) (fun _ => True).
Proof. intros m k m' Hw H. unfold take_key_fields in H. unread. names_known. done. Qed.

(** The type invariant of [ContainedFiles]. *)
Definition files_ok (files : option ContainedFiles) : Prop :=
  match files with Some l => ContainedFiles_reconstruct l = Ok l | None => True end.

Lemma ContainedFiles_reconstruct_id l l' : ContainedFiles_reconstruct l = Ok l' -> l' = l.
Proof.
  unfold ContainedFiles_reconstruct. destruct (is_empty l); [done|]. intros H. unread. by injection H.
Qed.

Lemma take_contained_files_undoes :
  undoes take_contained_files
    (fun files => put_option "contained_files" ((fun l => Array (map Text l)) <$> files)) files_ok.
Proof.
  intros m files m' Hw H. unfold take_contained_files, take_optional_text_array in H.
  apply ebind_ok in H as (names & m1 & H1 & H2). destruct (contains_key "contained_files" m) eqn:E.
  - unread. apply (take_text_array_undoes _ _ _ _ Hw) in H as (-> & Hw' & _). unread.
    match goal with H : ContainedFiles_reconstruct _ = _ |- _ =>
      pose proof (ContainedFiles_reconstruct_id _ _ H) as -> end. done.
  - injection H1 as <- <-. unread. done.
Qed.

Lemma in_context_ok {A} (m : reader A) c p a s' :
  in_context m (c, p) = (Ok a, s') <-> exists c', m c = (Ok a, c') /\ s' = (c', p).
Proof. unfold in_context. cbn. destruct (m c) as [r c1]. naive_solver. Qed.
Lemma in_payload_ok {A} (m : reader A) c p a s' :
  in_payload m (c, p) = (Ok a, s') <-> exists p', m p = (Ok a, p') /\ s' = (c, p').
Proof. unfold in_payload. cbn. destruct (m p) as [r p1]. naive_solver. Qed.

Ltac unread_parts :=
  repeat match goal with
  | H : ebind _ _ _ = (Ok _, _) |- _ => apply ebind_ok in H as (? & ? & ? & ?)
  | H : eret _ (_, _) = (Ok _, _) |- _ => apply eret_ok in H as [? ?]; simplify_eq
  | H : elift _ (_, _) = (Ok _, _) |- _ => apply elift_ok in H as [? ?]; simplify_eq
  | H : in_context _ _ = _ |- _ => apply in_context_ok in H as (? & H & ->)
  | H : in_payload _ _ = _ |- _ => apply in_payload_ok in H as (? & H & ->)
  | Hw : wf (Map ?m), H : take_key_fields ?m = _ |- _ =>
      destruct (take_key_fields_undoes _ _ _ Hw H) as (-> & ? & _); clear H Hw
  | Hw : wf (Map ?m), H : take_digests ?m = _ |- _ =>
      destruct (take_digests_undoes _ _ _ Hw H) as (-> & ? & _); clear H Hw
  | Hw : wf (Map ?m), H : take_contained_files ?m = _ |- _ =>
      destruct (take_contained_files_undoes _ _ _ Hw H) as (-> & ? & ?); clear H Hw
  | Hw : wf (Map ?m), H : take_text_array _ ?m = _ |- _ =>
      destruct (take_text_array_undoes _ _ _ _ Hw H) as (-> & ? & _); clear H Hw
  | _ => progress unread
  end.

Definition operation_ok (op : CardOperation) : Prop :=
  match op with SignDocument _ files _ _ _ => files_ok files | _ => True end.

Lemma from_wire_parts_inv action context payload op :
  wf (Map context) -> wf (Map payload) -> from_wire_parts action context payload = Ok op ->
  validate_operation op = Ok tt /\ operation_ok op /\
  exists a, wire_parts op = (a, context, payload) /\ action = utf8 a.
Proof.
  intros Hc Hp H. unfold from_wire_parts in H.
  destruct (read_operation action (context, payload)) as [[o|] [c p]] eqn:E; [|done].
  destruct c; [|done]. destruct p; [|done]. cbn [is_empty negb orb] in H.
  destruct (validate_operation o) as [[]|] eqn:Ev; [|done]. injection H as ->.
  split; [done|]. revert E. unfold read_operation.
  repeat (destruct (text_is action _) eqn:Ea;
    [apply bool_decide_eq_true in Ea as ->; intros E; unread_parts; names_known;
     cbn [fst] in *; subst; (split; [done|]); eexists; split; [|reflexivity]; try reflexivity|clear Ea]);
    [|done].
  by match goal with files : option ContainedFiles |- _ => destruct files end.
Qed.

(** The names of the registries are read back, and so are their fields. *)
Lemma CardKeyProfile_parse_name p : CardKeyProfile_parse (utf8 (CardKeyProfile_wire_name p)) = Ok p.
Proof. by destruct p. Qed.
Lemma SignatureAlgorithm_parse_name a :
  SignatureAlgorithm_parse (utf8 (SignatureAlgorithm_wire_name a)) = Ok a.
Proof. by destruct a. Qed.
Lemma ProfileName_parse_name p : ProfileName_parse (utf8 (ProfileName_as_str p)) = Some p.
Proof. by destruct p. Qed.
Lemma ResultStatus_parse_name p : ResultStatus_parse (utf8 (ResultStatus_as_str p)) = Ok p.
Proof. by destruct p. Qed.
Lemma ResultError_parse_name p : ResultError_parse (utf8 (ResultError_as_str p)) = Ok p.
Proof. by destruct p. Qed.

Lemma collect_texts field l :
  collect (fun v => ok_or (as_text v) (InvalidField field)) (map Text l) = Ok l.
Proof. by apply collect_map. Qed.
Lemma collect_bytess field l :
  collect (fun v => ok_or (as_bytes v) (InvalidField field)) (map Bytes l) = Ok l.
Proof. by apply collect_map. Qed.

Lemma OperationId_inv {E} (e : E) bs id :
  map_err (fun _ => e) (OperationId_reconstruct bs) = Ok id -> id = bs /\ len id = OPERATION_ID_SIZE.
Proof. unfold OperationId_reconstruct, identifier_reconstruct. case_if; [|done]. by intros [= <-]. Qed.

Lemma OperationId_ok {E} (e : E) bs :
  len bs = OPERATION_ID_SIZE -> map_err (fun _ => e) (OperationId_reconstruct bs) = Ok bs.
Proof. unfold OperationId_reconstruct, identifier_reconstruct. intros ->. by rewrite Z.eqb_refl. Qed.

Lemma remove_field_some {E} field m v :
  map_get (utf8 field) m = Some v ->
  @remove_field field E m = (Ok (Some v), map_remove (utf8 field) m).
Proof. intros H. by apply remove_field_ok. Qed.
Lemma remove_field_none {E} field m :
  map_get (utf8 field) m = None -> @remove_field field E m = (Ok None, m).
Proof. intros H. by apply remove_field_ok. Qed.

(** Run the readers forwards over a map whose keys are known. *)
Ltac reread_with tac :=
  repeat match goal with
  | |- ebind _ _ _ = (Ok _, _) => apply ebind_ok; eexists _, _; split
  | |- in_context _ _ = (Ok _, _) => apply in_context_ok; eexists; split; [|reflexivity]
  | |- in_payload _ _ = (Ok _, _) => apply in_payload_ok; eexists; split; [|reflexivity]
  | |- take_as _ _ _ _ = (Ok _, _) => eapply take_as_ok; [inverts_known|split; reflexivity]
  | |- remove_field _ _ = (Ok _, _) =>
      first [eapply remove_field_some; reflexivity | eapply remove_field_none; reflexivity]
  | |- (match _ with _ => _ end) _ = (Ok _, _) => progress cbn match
  | |- require_empty _ _ = (Ok _, _) => apply require_empty_ok; split; reflexivity
  | |- elift _ _ = (Ok _, _) => apply elift_ok; split; [tac|reflexivity]
  | |- eret _ _ = (Ok _, _) => reflexivity
  end.
Ltac reread_values :=
  first [ apply CardKeyProfile_parse_name | apply SignatureAlgorithm_parse_name
        | apply ResultStatus_parse_name | apply ResultError_parse_name
        | apply collect_texts | apply collect_bytess | apply OperationId_ok; eassumption
        | eassumption | reflexivity ].
Ltac reread :=
  unfold take_key_fields, take_digests, take_text_array, take_id, take_text, take_bytes,
    take_unsigned, take_array, take_map;
  reread_with reread_values.

Lemma take_optional_some field m l :
  map_get (utf8 field) m = Some (Array (map Text l)) ->
  take_optional_text_array field m = (Ok (Some l), map_remove (utf8 field) m).
Proof.
  intros H. unfold take_optional_text_array, contains_key. rewrite H. reread.
  eapply take_as_ok; [inverts_known|done].
Qed.

Lemma take_optional_none field m :
  map_get (utf8 field) m = None -> take_optional_text_array field m = (Ok None, m).
Proof. intros H. unfold take_optional_text_array, contains_key. by rewrite H. Qed.

(** Choose the branch of an action. *)
Lemma read_sign_document :
  read_operation (utf8 "sign_document") =
  (do? document_name <- in_context (take_text "document_name") ;;
   do? contained_files <- in_context take_contained_files ;;
   do? keys <- in_payload take_key_fields ;;
   do? digest <- in_payload (take_bytes "digest") ;;
   eret (SignDocument document_name contained_files keys.1 keys.2 digest)).
Proof. reflexivity. Qed.

Lemma read_operation_complete op :
  operation_ok op ->
  read_operation (utf8 (wire_parts op).1.1) ((wire_parts op).1.2, (wire_parts op).2)
  = (Ok op, ([], [])).
Proof.
  intros Ho. destruct op as [| |[]|? k a ?|? [files|] k a ?|? k a ?];
    unfold wire_parts; cbn [fst snd]; try reflexivity; cbn [operation_ok files_ok] in Ho.
  - change (read_operation _) with (
      do? origin <- in_context (take_text "origin") ;;
      do? keys <- in_payload take_key_fields ;;
      do? digest <- in_payload (take_bytes "digest") ;;
      eret (BrowserAuthenticate origin keys.1 keys.2 digest)).
    reread.
  - rewrite read_sign_document. unfold take_contained_files. reread.
    { apply take_optional_some. reflexivity. } cbn match. reread.
  - rewrite read_sign_document. unfold take_contained_files. reread.
    { apply take_optional_none. reflexivity. } cbn match. reread.
  - change (read_operation _) with (
      do? document_names <- in_context (take_text_array "document_names") ;;
      do? keys <- in_payload take_key_fields ;;
      do? digests <- in_payload take_digests ;;
      eret (BatchSignDocuments document_names keys.1 keys.2 digests)).
    reread.
Qed.

Lemma from_wire_parts_complete op :
  validate_operation op = Ok tt -> operation_ok op ->
  from_wire_parts (utf8 (wire_parts op).1.1) (wire_parts op).1.2 (wire_parts op).2 = Ok op.
Proof.
  intros Hv Ho. unfold from_wire_parts. rewrite read_operation_complete by done.
  cbn [is_empty negb orb]. by rewrite Hv.
Qed.

(** *** Requests *)

Definition request_ok (r : OperationRequest) : Prop :=
  len (operation_id r) = OPERATION_ID_SIZE /\ operation_ok (operation r).

(** The bodies of a request: the lifetime may be left out at its default. *)
Definition request_body (r : OperationRequest) (m : body_map) : Prop :=
  m = request_wire_body r \/
  expires_after_ms r = DEFAULT_OPERATION_LIFETIME_MS /\
  m = map_remove (utf8 "expires_after_ms") (request_wire_body r).

Lemma take_lifetime_inv m ms m' :
  wf (Map m) -> take_lifetime m = (Ok ms, m') ->
  m = insert "expires_after_ms" (Unsigned ms) m' \/ ms = DEFAULT_OPERATION_LIFETIME_MS /\ m = m'.
Proof.
  unfold take_lifetime. intros Hw H. destruct (contains_key _ _).
  - unread. by left.
  - injection H as <- <-. by right.
Qed.

Lemma request_inv m start r :
  wf (Map m) -> request_from_wire_body m start = Ok r ->
  request_ok r /\ local_start_ms r = start /\ validate_request r = Ok tt /\ request_body r m.
Proof.
  intros Hw H. unfold request_from_wire_body in H.
  match type of H with rbind (map_err _ ?x) _ = _ => destruct x as [fields|] eqn:E1; [|done] end.
  cbn [map_err rbind] in H. destruct fields as [[[[[id ptext] action] context] payload] expires].
  destruct (expires =? 0); [done|]. destruct (ProfileName_parse ptext) as [p|] eqn:Ep; [|done].
  destruct (from_wire_parts action context payload) as [op|] eqn:Eo; [|done]. cbn [rbind map_err] in H.
  unfold request_reconstruct in H. destruct (validate_request _) as [[]|] eqn:Ev; [|done].
  injection H as <-. unread. simplify_eq.
  match goal with H : map_err _ _ = Ok _ |- _ => apply OperationId_inv in H as [-> Hid] end.
  match goal with Hw : wf (Map ?m), H : take_lifetime ?m = _ |- _ =>
    apply (take_lifetime_inv _ _ _ Hw) in H as Hl end.
  apply ProfileName_parse_inv in Ep as ->.
  apply from_wire_parts_inv in Eo as (_ & Hop & a & Hwp & ->); [|done..].
  split_and!; [done|done|done|]. unfold request_body, request_wire_body.
  cbn [operation profile operation_id expires_after_ms]. rewrite Hwp.
  destruct Hl as [->|[-> ->]]; [left|right; split; [done|]]; reflexivity.
Qed.

Lemma request_complete m r :
  request_ok r -> validate_request r = Ok tt -> request_body r m ->
  request_from_wire_body m (local_start_ms r) = Ok r.
Proof.
  intros [Hid Hop] Hv Hm. destruct r as [id p start expires op].
  unfold request_body in Hm. unfold request_from_wire_body.
  cbn [operation_id operation expires_after_ms local_start_ms profile] in *.
  destruct (wire_parts op) as [[action context] payload] eqn:Ew.
  match goal with |- context [rbind (map_err _ ?x) _] =>
    assert (x = Ok (id, utf8 (ProfileName_as_str p), utf8 action, context, payload, expires)) as -> end.
  { apply fst_ok. eexists. unfold request_wire_body in Hm. cbn [operation profile operation_id expires_after_ms] in Hm.
    rewrite Ew in Hm. destruct Hm as [->|[-> ->]]; reread; (reflexivity || reread). }
  cbn [map_err rbind]. unfold validate_request in Hv.
  cbn [operation profile operation_id expires_after_ms] in Hv.
  destruct (expires =? 0) eqn:Ee; [done|]. rewrite ProfileName_parse_name.
  destruct (negb _) eqn:Epr in Hv; [done|].
  destruct (validate_operation op) as [[]|] eqn:Evo; [|done]. cbn [rbind] in Hv.
  pose proof (from_wire_parts_complete op Evo Hop) as Hc. rewrite Ew in Hc. cbn [fst snd] in Hc.
  rewrite Hc. cbn [rbind]. unfold request_reconstruct, validate_request.
  cbn [operation profile operation_id expires_after_ms]. rewrite Ee, Epr, Evo. cbn [rbind]. by rewrite Hv.
Qed.

(** *** Results *)

Lemma collect_signatures field vs l :
  collect (fun v => match v with
                    | Bytes bs => if is_empty bs then Err (InvalidField field) else Ok bs
                    | _ => Err (InvalidField field)
                    end) vs = Ok l <-> vs = map Bytes l /\ existsb is_empty l = false.
Proof.
  split.
  - revert l. induction vs as [|v vs IH]; intros l H; cbn in H; [by injection H as <-|].
    destruct v; try done. destruct (is_empty bs) eqn:E; [done|]. cbn in H.
    destruct (collect _ vs) as [l'|]; [|done]. injection H as <-.
    destruct (IH l' eq_refl) as [-> Hl]. cbn. by rewrite E.
  - intros [-> Hl]. apply collect_map. intros a Ha. destruct (is_empty a) eqn:E; [|done].
    assert (existsb is_empty l = true) as H; [|congruence].
    apply existsb_exists. exists a. by rewrite <- list_elem_of_In.
Qed.

(** The answers that an operation can have. *)
Definition answers (operation : CardOperation) (r : CardOperationResult) : Prop :=
  match r, operation with
  | Inspection _, InspectCard => True
  | Identity i, ReadIdentity =>
      CardIdentity_reconstruct (holder_name i) (card_id i) (issuance_date i) (expiration_date i)
        (certificates i) (token_display_name i) = Ok i
  | Certificate _, ReadCertificate _ => True
  | Signature _, (BrowserAuthenticate _ _ _ _ | SignDocument _ _ _ _ _) => True
  | Signatures l, BatchSignDocuments _ _ _ _ => existsb is_empty l = false
  | _, _ => False
  end.

Lemma CardIdentity_reconstruct_id h c i e cs t id :
  CardIdentity_reconstruct h c i e cs t = Ok id -> id = MkIdentity h c i e cs t.
Proof. unfold CardIdentity_reconstruct. repeat case_if; by intros [= <-]. Qed.

Lemma take_token_undoes :
  undoes take_token_display_name
    (fun t => put_option "token_display_name" (Text <$> t)) (fun _ => True).
Proof.
  intros m t m' Hw H. unfold take_token_display_name in H. unread.
  destruct x as [[]|]; unread; done.
Qed.

Lemma typed_for_inv fields operation r :
  wf (Map fields) -> typed_for fields operation = Ok r ->
  fields = from_result r /\ answers operation r.
Proof.
  intros Hw H. unfold typed_for, result_from_wire in H. unread.
  destruct operation; unfold read_result, take_byte_array in *; unread; try done.
  - match goal with Hw : wf (Map ?m), H : take_token_display_name ?m = _ |- _ =>
      destruct (take_token_undoes _ _ _ Hw H) as (-> & ? & _) end. unread.
    match goal with H : collect _ _ = _ |- _ => apply collect_bytes in H as -> end.
    match goal with H : CardIdentity_reconstruct _ _ _ _ _ ?t = _ |- _ =>
      pose proof (CardIdentity_reconstruct_id _ _ _ _ _ _ _ H) as ->; split; [by destruct t|exact H] end.
  - match goal with H : collect _ _ = _ |- _ => apply collect_signatures in H as [-> Hl] end. done.
Qed.

Lemma typed_for_complete operation r :
  answers operation r -> typed_for (from_result r) operation = Ok r.
Proof.
  intros Ha. unfold typed_for, result_from_wire. apply fst_ok. exists [].
  destruct operation, r as [|[h c i e cs t]| | |]; try done; unfold read_result, take_byte_array, from_result, result_to_wire;
    cbn [holder_name card_id issuance_date expiration_date certificates token_display_name] in *;
    try (reread; fail).
  - unfold answers in Ha. cbn [holder_name card_id issuance_date expiration_date certificates token_display_name] in Ha.
    unfold take_token_display_name. destruct t; reread.
  - unfold answers in Ha. reread. apply elift_ok. split; [by apply collect_signatures|reflexivity].
    all: reread.
Qed.

Lemma result_body_inv m r :
  wf (Map m) -> result_from_wire_body m = Ok r ->
  len (res_operation_id r) = OPERATION_ID_SIZE /\ result_to_wire_body r = Ok m /\
  (forall fields, res_response r = Some fields -> wf (Map fields)).
Proof.
  intros Hw H. unfold result_from_wire_body, take_result_error, take_response in H. unread.
  names_known. match goal with H : map_err _ _ = Ok _ |- _ => apply OperationId_inv in H as [-> Hid] end.
  repeat (match goal with v : option WireValue |- _ => destruct v as [[]|] end; unread); names_known;
    match goal with H : (if is_consistent ?r then _ else _) _ = _ |- _ =>
      destruct (is_consistent r) eqn:Ec; [|discriminate H] end; unread; simplify_eq;
    unfold result_to_wire_body; rewrite Ec; cbn [negb]; (split_and!; [done|reflexivity|]);
    intros fields Hf; cbn in Hf; by simplify_eq.
Qed.

Lemma result_body_complete r m :
  len (res_operation_id r) = OPERATION_ID_SIZE -> result_to_wire_body r = Ok m ->
  result_from_wire_body m = Ok r.
Proof.
  intros Hid Hm. unfold result_to_wire_body in Hm. destruct (is_consistent r) eqn:Ec; [|done].
  cbn [negb] in Hm. injection Hm as <-. destruct r as [id st err resp].
  unfold result_from_wire_body, take_result_error, take_response. apply fst_ok. exists [].
  cbn [res_operation_id res_status res_error res_response] in *.
  destruct err, resp; reread;
    match goal with |- (if ?b then _ else _) _ = _ => by replace b with true end.
Qed.

(** A completed result whose response answers the operation. *)
Definition completed_answer (id : OperationId) (op : CardOperation) (a : CardOperationResult)
    (m : body_map) : Prop :=
  exists r fields, result_from_wire_body m = Ok r /\ validate_for r id op = Ok tt /\
    res_status r = Completed /\ res_response r = Some fields /\ typed_for fields op = Ok a.

(** ** Properties *)

(** C12 The reader of a request accepts exactly the bodies of valid requests: over
    every map a decoded envelope can hold, it returns a request if and only if
    that request is well typed and passes its validation, started when it was
    read, and the map is its wire form, the default lifetime left out or not.
    Two different requests never share a body. *)
Theorem request_decoded_exactly (m : body_map) (start : Z) (r : OperationRequest) :
  wf (Map m) ->
  request_from_wire_body m start = Ok r <->
  request_ok r /\ local_start_ms r = start /\ validate_request r = Ok tt /\ request_body r m.
Proof.
  intros Hw. split; [by apply request_inv|]. intros (Ho & <- & Hv & Hm). by apply request_complete.
Qed.

(** A requester reads a completed result as an answer to its operation exactly
    when the body is the wire form of that answer, under the operation's
    identifier, and the answer is of the operation's kind, within its bounds and
    with one signature per document of a batch. *)
Theorem completed_result_read_exactly (id : OperationId) (op : CardOperation)
    (a : CardOperationResult) (m : body_map) :
  wf (Map m) ->
  completed_answer id op a m <->
  len id = OPERATION_ID_SIZE /\ answers op a /\ result_matches_operation a op = true /\
  result_to_wire_body (result_completed id a) = Ok m.
Proof.
  intros Hw. split.
  - intros (r & fields & Hr & Hv & Hst & Hf & Ht).
    destruct (result_body_inv m r Hw Hr) as (Hid & Hm & Hwf). specialize (Hwf fields Hf).
    destruct (typed_for_inv _ _ _ Hwf Ht) as [-> Ha]. unfold validate_for in Hv. rewrite Hf, Ht in Hv.
    case_match_in Hv; [done|]. to_prop. case_match_in Hv; [done|]. to_prop. cbn [rbind] in Hv.
    case_match_in Hv; [done|]. to_prop.
    destruct r as [rid st err resp]. cbn [res_operation_id res_status res_response] in *. subst.
    match goal with H : bool_decide (rid = id) = true |- _ => apply bool_decide_eq_true in H as -> end.
    split_and!; [done|done|done|]. by destruct err.
  - intros (Hid & Ha & Hma & Hm). exists (result_completed id a), (from_result a).
    split_and!; [by apply result_body_complete| |done|done|by apply typed_for_complete].
    unfold validate_for, result_completed. cbn [res_operation_id res_response].
    rewrite bool_decide_eq_true_2 by done. cbn. rewrite typed_for_complete by done. cbn. by rewrite Hma.
Qed.

Definition sample_id : OperationId := repeat 7 16.
Definition sample_request : OperationRequest :=
  MkRequest sample_id DocumentSigning 5 60000
    (SignDocument (utf8 "contract.asice") (Some [utf8 "contract.pdf"]) EcdsaP384 EcdsaSha256
       (repeat 1 32)).

Lemma sample_request_wf : wf (Map (request_wire_body sample_request)).
Proof.
  vm_compute. repeat first [constructor | split | reflexivity | done].
Qed.

Lemma request_decoded_exactly_witness :
  wf (Map (request_wire_body sample_request)) /\
  request_from_wire_body (request_wire_body sample_request) 5 = Ok sample_request.
Proof.
  pose proof sample_request_wf as Hw. split; [exact Hw|].
  apply (request_decoded_exactly (request_wire_body sample_request) 5 sample_request Hw).
  split_and!; [split; reflexivity|reflexivity|vm_compute; reflexivity|by left].
Defined.

Lemma completed_result_read_exactly_witness :
  exists m, completed_answer sample_id (operation sample_request) (Signature (repeat 2 96)) m.
Proof.
  eexists. eapply completed_result_read_exactly.
  2: { split_and!; [reflexivity|done|reflexivity|reflexivity]. }
  vm_compute. repeat first [constructor | split | reflexivity | done].
Defined.

End Op.
