(* ===== verification/RappMessage.v ===== *)
(** * Typed messages of the remote card protocol

    crates/rapp/src/message.rs, display_name.rs and the bodies of
    [operation.progress] (authorization.rs): every authenticated message as a
    typed value, its wire body and the reader of that body. *)

From stdpp Require Import base list strings option sorting.
From Stdlib Require Import ZArith Lia.
From S2P Require Import Prelude RappCbor RappWire RappOperation.

Module Msg.
Import Cbor Wire Op.

(** ** Data *)

Definition CPACE_KC2_SUITE : string := "CPACE-RISTR255-SHA512-RAPP-KC2 + Noise_XXpsk3_25519_ChaChaPoly_SHA512".
Definition MANDATORY_PAIRING_SUITE : string := "Noise_XXpsk3_25519_ChaChaPoly_SHA512".
Definition MANDATORY_SESSION_SUITE : string := "Noise_KK_25519_ChaChaPoly_SHA512".
Definition PAIR_ID_SIZE : Z := 16.
Definition CERTIFICATE_FINGERPRINT_SIZE : Z := 32.
Definition GRANTS_HASH_SIZE : Z := 32.
Definition SESSION_READY_NONCE_SIZE : Z := 32.
Definition LIVENESS_CHALLENGE_SIZE : Z := 32.
Definition DISPLAY_NAME_MAX_BYTES : Z := 256.

Inductive MessageError :=
  | ME_InvalidField (field : string)
  | ME_UnexpectedField
  | ME_Operation (e : CardOperationError).

Inductive DisplayNameError := Blank | TooLong.

Definition check_label (text : bytes) : result DisplayNameError unit :=
  if len text >? DISPLAY_NAME_MAX_BYTES then Err TooLong
  else if is_blank text then Err Blank
  else Ok tt.

Definition DisplayName : Type := bytes.
Definition DisplayName_parse (text : bytes) : result DisplayNameError DisplayName :=
  let? _ := check_label text in Ok text.

Inductive ProgressEvent := Queued | ConsentShown | WaitingForCard | CardWaitEnded | WaitingForUnlock.

Definition ProgressEvent_as_str (e : ProgressEvent) : string :=
  match e with
  | Queued => "queued"
  | ConsentShown => "consent_shown"
  | WaitingForCard => "waiting_for_card"
  | CardWaitEnded => "card_wait_ended"
  | WaitingForUnlock => "waiting_for_unlock"
  end.

Definition ProgressEvent_parse (value : bytes) : result CardOperationError ProgressEvent :=
  if text_is value "queued" then Ok Queued
  else if text_is value "consent_shown" then Ok ConsentShown
  else if text_is value "waiting_for_card" then Ok WaitingForCard
  else if text_is value "card_wait_ended" then Ok CardWaitEnded
  else if text_is value "waiting_for_unlock" then Ok WaitingForUnlock
  else Err (InvalidField "event").

Record OperationProgressMessage := MkProgress {
  progress_operation_id : OperationId; event : ProgressEvent }.

Inductive CloseReason :=
  | Normal | Complete | UserDisconnect | Policy | ProtocolViolation | PairingRevoked | Shutdown
  | CardUnavailable | ServiceWithdrawn.

Record NegotiatedParameters := MkNegotiated {
  offer_hash : bytes; transport_profile : bytes; candidate_id : bytes }.
Record PairingHelloMessage := MkHello {
  parameters : NegotiatedParameters; hello_display_name : DisplayName; platform : bytes;
  requested_profiles : option (list ProfileName) }.

Inductive CardPresence := Present (fingerprint : bytes) | CardAbsent.
Inductive CardReader := Attached | ReaderAbsent.
Record CardStatusMessage := MkCardStatus { card : CardPresence; reader : CardReader }.

Record SessionParameters := MkSessionParameters {
  session_transport_profile : bytes; session_candidate_id : bytes; grants_hash : bytes }.
Record SessionReadyMessage := MkReady {
  session_parameters : SessionParameters; nonce : bytes; ready_display_name : DisplayName }.

Record ProtocolErrorMessage := MkError { error : ResultError; error_operation_id : option OperationId }.

Definition error_busy (id : OperationId) : ProtocolErrorMessage := MkError RE_Busy (Some id).
Definition error_duplicate (id : OperationId) : ProtocolErrorMessage :=
  MkError RE_DuplicateOperation (Some id).

Definition message (m : ProtocolErrorMessage) : string :=
  match error m with
  | RE_Busy => "Another operation of this session is live."
  | RE_DuplicateOperation => "The operation identifier was already used on this session."
  | RE_InvalidLifetime => "The operation lifetime is zero."
  | RE_OperationExpired => "The operation deadline passed."
  | RE_Unauthorized => "The profile is not granted to this pairing."
  | RE_UnsupportedParameter => "A parameter is not supported."
  | RE_UserCancelled => "The holder declined."
  | RE_RetryFloor => "The card's remaining attempts are reserved for its issuer's software."
  | RE_CardError => "The card did not answer."
  | RE_OperationFailed => "The operation could not be carried out."
  end.

Inductive TypedMessage :=
  | T_PairingHello (v : PairingHelloMessage)
  | T_PairingConfirm (granted_profiles : list ProfileName)
  | T_PairingAbort (reason : bytes)
  | T_PairingStored (pair_id : bytes)
  | T_SessionReady (v : SessionReadyMessage)
  | T_SessionHello (display_name : DisplayName)
  | T_SessionClose (reason : CloseReason)
  | T_LivenessPing (challenge : bytes)
  | T_LivenessPong (challenge : bytes)
  | T_OperationRequest (r : OperationRequest)
  | T_OperationRequestRefused (r : OperationRequestRefusal)
  | T_OperationResult (r : OperationResultMessage)
  | T_OperationProgress (p : OperationProgressMessage)
  | T_CardStatus (s : CardStatusMessage)
  | T_Error (e : ProtocolErrorMessage).

Definition typed_message_type (m : TypedMessage) : MessageType :=
  match m with
  | T_PairingHello _ => M_PairingHello
  | T_PairingConfirm _ => M_PairingConfirm
  | T_PairingAbort _ => M_PairingAbort
  | T_PairingStored _ => M_PairingStored
  | T_SessionReady _ => M_SessionReady
  | T_SessionHello _ => M_SessionHello
  | T_SessionClose _ => M_SessionClose
  | T_LivenessPing _ => M_LivenessPing
  | T_LivenessPong _ => M_LivenessPong
  | T_OperationRequest _ | T_OperationRequestRefused _ => M_OperationRequest
  | T_OperationResult _ => M_OperationResult
  | T_OperationProgress _ => M_OperationProgress
  | T_CardStatus _ => M_CardStatus
  | T_Error _ => M_Error
  end.

(** ** Fields *)

Abbreviation reads := (exec body_map MessageError).

Definition m_take_text (field : string) : reads bytes := take_as (ME_InvalidField field) as_text field.
Definition m_take_bytes (field : string) : reads bytes :=
  take_as (ME_InvalidField field) as_bytes field.
Definition m_take_bool (field : string) : reads bool := take_as (ME_InvalidField field) as_bool field.
Definition m_take_map (field : string) : reads body_map := take_as (ME_InvalidField field) as_map field.
Definition take_fixed (n : Z) (field : string) : reads bytes :=
  do? bs <- m_take_bytes field ;;
  if len bs =? n then eret bs else efail (ME_InvalidField field).
Definition m_require_empty : reads unit := require_empty ME_UnexpectedField.

Definition take_display_name : reads DisplayName :=
  do? text <- m_take_text "display_name" ;;
  elift (map_err (fun _ => ME_InvalidField "display_name") (DisplayName_parse text)).

Definition validate_name (value : bytes) (field : string) : result MessageError unit :=
  map_err (fun _ => ME_InvalidField field) (check_label value).

Definition validate_label (value : bytes) (field : string) : result MessageError unit :=
  if is_blank value || (len value >? 4096) then Err (ME_InvalidField field) else Ok tt.

Definition is_ascii_alphanumeric (b : Z) : bool := within 48 57 b || within 65 90 b || within 97 122 b.

Definition validate_transport_name (value : bytes) (field : string) : result MessageError unit :=
  if is_empty value || (len value >? 255)
     || negb (forallb (fun b => is_ascii_alphanumeric b || (b =? 46) || (b =? 45) || (b =? 95)) value)
  then Err (ME_InvalidField field) else Ok tt.

(** [sort_by] and [sort_unstable] on the names of profiles. *)
Definition profile_before (a b : ProfileName) : bool :=
  lex_ltb (utf8 (ProfileName_as_str a)) (utf8 (ProfileName_as_str b)).
Fixpoint insert_profile (p : ProfileName) (l : list ProfileName) : list ProfileName :=
  match l with
  | [] => [p]
  | q :: rest => if profile_before q p then q :: insert_profile p rest else p :: l
  end.
Definition sort_profiles (l : list ProfileName) : list ProfileName := foldr insert_profile [] l.

Fixpoint adjacent_equal (l : list ProfileName) : bool :=
  match l with
  | a :: ((b :: _) as rest) => bool_decide (a = b) || adjacent_equal rest
  | _ => false
  end.

Definition validate_profile_set (l : list ProfileName) : result MessageError unit :=
  if is_empty l || adjacent_equal (sort_profiles l) then Err (ME_InvalidField "profiles") else Ok tt.

Definition profile_array (l : list ProfileName) : WireValue :=
  Array (map (fun p => Text (utf8 (ProfileName_as_str p))) (sort_profiles l)).

Definition profiles_from_array (values : list WireValue) : result MessageError (list ProfileName) :=
  let? profiles :=
    collect (fun v => ok_or (as_text v ≫= ProfileName_parse) (ME_InvalidField "profiles")) values in
  let? _ := validate_profile_set profiles in
  Ok (sort_profiles profiles).

Definition m_version_value : WireValue := Array version_value.

Definition require_version : reads unit :=
  do? v <- remove_field "version" ;;
  match v with
  | Some (Array version) =>
      if version_matches version then eret tt else efail (ME_InvalidField "version")
  | _ => efail (ME_InvalidField "version")
  end.

Definition require_pairing_suite : reads unit :=
  do? v <- remove_field "suite" ;;
  match v with
  | Some (Text suite) =>
      if text_is suite CPACE_KC2_SUITE || text_is suite MANDATORY_PAIRING_SUITE
      then eret tt else efail (ME_InvalidField "suite")
  | _ => efail (ME_InvalidField "suite")
  end.

(** ** Pairing *)

Definition negotiated_parameters_to_map (v : NegotiatedParameters) : body_map :=
  insert "candidate_id" (Text (candidate_id v))
    (insert "transport_profile" (Text (transport_profile v))
       (insert "offer_hash" (Bytes (offer_hash v))
          (insert "suite" (Text (utf8 CPACE_KC2_SUITE))
             (insert "version" m_version_value [])))).

Definition negotiated_parameters_from_map (m : body_map) : result MessageError NegotiatedParameters :=
  ((do? _ <- require_version ;;
    do? _ <- require_pairing_suite ;;
    do? offer_hash <- take_fixed 32 "offer_hash" ;;
    do? transport_profile <- m_take_text "transport_profile" ;;
    do? candidate_id <- m_take_text "candidate_id" ;;
    do? _ <- m_require_empty ;;
    do? _ <- elift (validate_transport_name transport_profile "transport_profile") ;;
    do? _ <- elift (validate_label candidate_id "candidate_id") ;;
    eret (MkNegotiated offer_hash transport_profile candidate_id)) m).1.

Definition pairing_hello_to_body (v : PairingHelloMessage) : result MessageError body_map :=
  let? _ := validate_name (platform v) "platform" in
  let? _ := validate_transport_name (transport_profile (parameters v)) "transport_profile" in
  let? _ := validate_label (candidate_id (parameters v)) "candidate_id" in
  let? _ := match requested_profiles v with
            | Some profiles => validate_profile_set profiles
            | None => Ok tt
            end in
  let body :=
    insert "platform" (Text (platform v))
      (insert "display_name" (Text (hello_display_name v))
         (insert "parameters" (Map (negotiated_parameters_to_map (parameters v))) [])) in
  Ok (match requested_profiles v with
      | Some profiles => insert "requested_profiles" (profile_array profiles) body
      | None => body
      end).

Definition take_requested_profiles : reads (option (list ProfileName)) :=
  do? v <- remove_field "requested_profiles" ;;
  match v with
  | None => eret None
  | Some (Array values) => do? profiles <- elift (profiles_from_array values) ;; eret (Some profiles)
  | Some _ => efail (ME_InvalidField "requested_profiles")
  end.

Definition pairing_hello_from_body (body : body_map) : result MessageError PairingHelloMessage :=
  ((do? map <- m_take_map "parameters" ;;
    do? parameters <- elift (negotiated_parameters_from_map map) ;;
    do? display_name <- take_display_name ;;
    do? platform <- m_take_text "platform" ;;
    do? requested_profiles <- take_requested_profiles ;;
    do? _ <- m_require_empty ;;
    do? _ <- elift (validate_name platform "platform") ;;
    eret (MkHello parameters display_name platform requested_profiles)) body).1.

Definition pairing_confirm_to_body (granted : list ProfileName) : result MessageError body_map :=
  let? _ := validate_profile_set granted in
  Ok (insert "granted_profiles" (profile_array granted) []).

Definition take_granted_profiles : reads (list ProfileName) :=
  do? v <- remove_field "granted_profiles" ;;
  match v with
  | Some (Array values) => elift (profiles_from_array values)
  | _ => efail (ME_InvalidField "granted_profiles")
  end.

Definition pairing_confirm_from_body (body : body_map) : result MessageError (list ProfileName) :=
  ((do? profiles <- take_granted_profiles ;;
    do? _ <- m_require_empty ;; eret profiles) body).1.

Definition pairing_abort_to_body (reason : bytes) : result MessageError body_map :=
  let? _ := validate_label reason "reason" in Ok (insert "reason" (Text reason) []).

Definition pairing_abort_from_body (body : body_map) : result MessageError bytes :=
  ((do? reason <- m_take_text "reason" ;;
    do? _ <- m_require_empty ;;
    do? _ <- elift (validate_label reason "reason") ;;
    eret reason) body).1.

Definition pairing_stored_to_body (pair_id : bytes) : body_map := insert "pair_id" (Bytes pair_id) [].

Definition pairing_stored_from_body (body : body_map) : result MessageError bytes :=
  ((do? bs <- m_take_bytes "pair_id" ;;
    do? pair_id <- elift (map_err (fun _ => ME_InvalidField "pair_id")
                            (identifier_reconstruct PAIR_ID_SIZE bs)) ;;
    do? _ <- m_require_empty ;; eret pair_id) body).1.

(** ** Card status *)

Definition zero_fingerprint : bytes := repeat 0 (Z.to_nat CERTIFICATE_FINGERPRINT_SIZE).

Definition card_status_to_body (v : CardStatusMessage) : body_map :=
  let '(present, fingerprint) :=
    match card v with
    | Present fingerprint => (true, fingerprint)
    | CardAbsent => (false, zero_fingerprint)
    end in
  let reader_attached := match reader v with Attached => true | ReaderAbsent => false end in
  insert "certificate_fingerprint" (Bytes fingerprint)
    (insert "reader_attached" (VBool reader_attached) (insert "card_present" (VBool present) [])).

Definition card_status_from_body (body : body_map) : result MessageError CardStatusMessage :=
  ((do? card_present <- m_take_bool "card_present" ;;
    do? reader_attached <- m_take_bool "reader_attached" ;;
    do? fingerprint <- take_fixed CERTIFICATE_FINGERPRINT_SIZE "certificate_fingerprint" ;;
    do? _ <- m_require_empty ;;
    let zero := bool_decide (fingerprint = zero_fingerprint) in
    let reader := if reader_attached then Attached else ReaderAbsent in
    match card_present, zero with
    | true, false => eret (MkCardStatus (Present fingerprint) reader)
    | false, true => eret (MkCardStatus CardAbsent reader)
    | _, _ => efail (ME_InvalidField "certificate_fingerprint")
    end) body).1.

(** ** Sessions *)

Definition session_parameters_map (p : SessionParameters) : body_map :=
  insert "grants_hash" (Bytes (grants_hash p))
    (insert "candidate_id" (Text (session_candidate_id p))
       (insert "transport_profile" (Text (session_transport_profile p))
          (insert "suite" (Text (utf8 MANDATORY_SESSION_SUITE))
             (insert "version" m_version_value [])))).

Definition session_ready_to_body (v : SessionReadyMessage) : result MessageError body_map :=
  let p := session_parameters v in
  let? _ := validate_transport_name (session_transport_profile p) "transport_profile" in
  let? _ := validate_label (session_candidate_id p) "candidate_id" in
  Ok (insert "display_name" (Text (ready_display_name v))
        (insert "nonce" (Bytes (nonce v))
           (insert "parameters" (Map (session_parameters_map p)) []))).

Definition session_parameters_from_map (m : body_map) : result MessageError SessionParameters :=
  ((do? _ <- require_version ;;
    do? suite <- m_take_text "suite" ;;
    if negb (text_is suite MANDATORY_SESSION_SUITE) then efail (ME_InvalidField "suite")
    else
      do? transport_profile <- m_take_text "transport_profile" ;;
      do? candidate_id <- m_take_text "candidate_id" ;;
      do? grants_bytes <- m_take_bytes "grants_hash" ;;
      do? grants_hash <- elift (map_err (fun _ => ME_InvalidField "grants_hash")
                                  (identifier_reconstruct GRANTS_HASH_SIZE grants_bytes)) ;;
      do? _ <- m_require_empty ;;
      do? _ <- elift (validate_transport_name transport_profile "transport_profile") ;;
      do? _ <- elift (validate_label candidate_id "candidate_id") ;;
      eret (MkSessionParameters transport_profile candidate_id grants_hash)) m).1.

Definition session_ready_from_body (body : body_map) : result MessageError SessionReadyMessage :=
  ((do? map <- m_take_map "parameters" ;;
    do? nonce <- take_fixed SESSION_READY_NONCE_SIZE "nonce" ;;
    do? display_name <- take_display_name ;;
    do? _ <- m_require_empty ;;
    do? parameters <- elift (session_parameters_from_map map) ;;
    eret (MkReady parameters nonce display_name)) body).1.

Definition session_hello_to_body (display_name : DisplayName) : body_map :=
  insert "display_name" (Text display_name) [].

Definition session_hello_from_body (body : body_map) : result MessageError DisplayName :=
  ((do? display_name <- take_display_name ;; do? _ <- m_require_empty ;; eret display_name) body).1.

Definition close_reason_name (r : CloseReason) : string :=
  match r with
  | Normal => "normal"
  | Complete => "complete"
  | UserDisconnect => "user_disconnect"
  | Policy => "policy"
  | ProtocolViolation => "protocol_violation"
  | PairingRevoked => "pairing_revoked"
  | Shutdown => "shutdown"
  | CardUnavailable => "card_unavailable"
  | ServiceWithdrawn => "service_withdrawn"
  end.

Definition parse_close_reason (value : bytes) : result MessageError CloseReason :=
  if text_is value "normal" then Ok Normal
  else if text_is value "complete" then Ok Complete
  else if text_is value "user_disconnect" then Ok UserDisconnect
  else if text_is value "policy" then Ok Policy
  else if text_is value "protocol_violation" then Ok ProtocolViolation
  else if text_is value "pairing_revoked" then Ok PairingRevoked
  else if text_is value "shutdown" then Ok Shutdown
  else if text_is value "card_unavailable" then Ok CardUnavailable
  else if text_is value "service_withdrawn" then Ok ServiceWithdrawn
  else Err (ME_InvalidField "reason").

Definition session_close_to_body (reason : CloseReason) : body_map :=
  insert "reason" (Text (utf8 (close_reason_name reason))) [].

Definition session_close_from_body (body : body_map) : result MessageError CloseReason :=
  ((do? text <- m_take_text "reason" ;;
    do? reason <- elift (parse_close_reason text) ;;
    do? _ <- m_require_empty ;; eret reason) body).1.

Definition liveness_to_body (challenge : bytes) : body_map := insert "challenge" (Bytes challenge) [].

Definition liveness_from_body (body : body_map) : result MessageError bytes :=
  ((do? challenge <- take_fixed LIVENESS_CHALLENGE_SIZE "challenge" ;;
    do? _ <- m_require_empty ;; eret challenge) body).1.

(** ** Progress and errors *)

Definition progress_to_wire_body (p : OperationProgressMessage) : body_map :=
  insert "event" (Text (utf8 (ProgressEvent_as_str (event p))))
    (insert "operation_id" (Bytes (progress_operation_id p)) []).

Definition progress_from_wire_body (body : body_map) :
  result CardOperationError OperationProgressMessage :=
  ((do? id <- take_id "operation_id" ;;
    do? text <- take_text "event" ;;
    do? event <- elift (ProgressEvent_parse text) ;;
    do? _ <- require_empty UnexpectedField ;; eret (MkProgress id event)) body).1.

Definition error_to_body (e : ProtocolErrorMessage) : body_map :=
  let body := insert "message" (Text (utf8 (message e)))
                (insert "error_name" (Text (utf8 (ResultError_as_str (error e)))) []) in
  match error_operation_id e with
  | Some id => insert "operation_id" (Bytes id) body
  | None => body
  end.

Definition take_error_operation_id : reads (option OperationId) :=
  do? v <- remove_field "operation_id" ;;
  match v with
  | None => eret None
  | Some (Bytes value) =>
      do? id <- elift (map_err (fun _ => ME_InvalidField "operation_id")
                         (OperationId_reconstruct value)) ;; eret (Some id)
  | Some _ => efail (ME_InvalidField "operation_id")
  end.

Definition error_from_body (body : body_map) : result MessageError ProtocolErrorMessage :=
  ((do? name <- m_take_text "error_name" ;;
    do? error <- elift (map_err (fun _ => ME_InvalidField "error_name") (ResultError_parse name)) ;;
    do? _ <- m_take_text "message" ;;
    do? operation_id <- take_error_operation_id ;;
    do? _ <- m_require_empty ;; eret (MkError error operation_id)) body).1.

(** ** Messages *)

Definition from_envelope (envelope : Envelope) (local_start_ms : Z) : result MessageError TypedMessage :=
  let body := body envelope in
  match message_type envelope with
  | M_PairingHello => rmap T_PairingHello (pairing_hello_from_body body)
  | M_PairingConfirm => rmap T_PairingConfirm (pairing_confirm_from_body body)
  | M_PairingAbort => rmap T_PairingAbort (pairing_abort_from_body body)
  | M_PairingStored => rmap T_PairingStored (pairing_stored_from_body body)
  | M_SessionReady => rmap T_SessionReady (session_ready_from_body body)
  | M_SessionHello => rmap T_SessionHello (session_hello_from_body body)
  | M_SessionClose => rmap T_SessionClose (session_close_from_body body)
  | M_LivenessPing => rmap T_LivenessPing (liveness_from_body body)
  | M_LivenessPong => rmap T_LivenessPong (liveness_from_body body)
  | M_OperationRequest =>
      match request_from_wire_body body local_start_ms with
      | Ok request => Ok (T_OperationRequest request)
      | Err (Refused refusal) => Ok (T_OperationRequestRefused refusal)
      | Err (Malformed e) => Err (ME_Operation e)
      end
  | M_OperationResult => rmap T_OperationResult (map_err ME_Operation (result_from_wire_body body))
  | M_OperationProgress => rmap T_OperationProgress (map_err ME_Operation (progress_from_wire_body body))
  | M_CardStatus => rmap T_CardStatus (card_status_from_body body)
  | M_Error => rmap T_Error (error_from_body body)
  end.

Definition to_wire_body (m : TypedMessage) : result MessageError body_map :=
  match m with
  | T_PairingHello v => pairing_hello_to_body v
  | T_PairingConfirm granted => pairing_confirm_to_body granted
  | T_PairingAbort reason => pairing_abort_to_body reason
  | T_PairingStored pair_id => Ok (pairing_stored_to_body pair_id)
  | T_SessionReady v => session_ready_to_body v
  | T_SessionHello name => Ok (session_hello_to_body name)
  | T_SessionClose reason => Ok (session_close_to_body reason)
  | T_LivenessPing challenge | T_LivenessPong challenge => Ok (liveness_to_body challenge)
  | T_OperationRequest r => map_err ME_Operation (request_to_wire_body r)
  | T_OperationRequestRefused _ => Err (ME_InvalidField "operation")
  | T_OperationResult r => map_err ME_Operation (result_to_wire_body r)
  | T_OperationProgress p => Ok (progress_to_wire_body p)
  | T_CardStatus s => Ok (card_status_to_body s)
  | T_Error e => Ok (error_to_body e)
  end.

(** ** Lemmas *)

Lemma close_reason_parse_name r : parse_close_reason (utf8 (close_reason_name r)) = Ok r.
Proof. by destruct r. Qed.
Lemma ProgressEvent_parse_name e : ProgressEvent_parse (utf8 (ProgressEvent_as_str e)) = Ok e.
Proof. by destruct e. Qed.

Definition name_ok (name : DisplayName) : Prop := check_label name = Ok tt.
Definition profiles_sorted (l : list ProfileName) : Prop := sort_profiles l = l.

Lemma DisplayName_ok {E} (e : E) name :
  name_ok name -> map_err (fun _ => e) (DisplayName_parse name) = Ok name.
Proof. unfold name_ok, DisplayName_parse. by intros ->. Qed.

Lemma identifier_ok {E} (e : E) n bs :
  len bs = n -> map_err (fun _ => e) (identifier_reconstruct n bs) = Ok bs.
Proof. intros <-. unfold identifier_reconstruct. by rewrite Z.eqb_refl. Qed.

Lemma take_fixed_some n field m bs :
  map_get (utf8 field) m = Some (Bytes bs) -> len bs = n ->
  take_fixed n field m = (Ok bs, map_remove (utf8 field) m).
Proof.
  intros Hg <-. unfold take_fixed, m_take_bytes. apply ebind_ok. eexists _, _. split.
  - eapply take_as_ok; [inverts_known|by split].
  - by rewrite Z.eqb_refl.
Qed.

Lemma require_version_some m :
  map_get (utf8 "version") m = Some m_version_value ->
  require_version m = (Ok tt, map_remove (utf8 "version") m).
Proof.
  intros Hg. unfold require_version. apply ebind_ok. eexists _, _. split; [by apply remove_field_some|].
  reflexivity.
Qed.
Lemma require_pairing_suite_some m :
  map_get (utf8 "suite") m = Some (Text (utf8 CPACE_KC2_SUITE)) ->
  require_pairing_suite m = (Ok tt, map_remove (utf8 "suite") m).
Proof.
  intros Hg. unfold require_pairing_suite. apply ebind_ok. eexists _, _.
  split; [by apply remove_field_some|]. reflexivity.
Qed.

Lemma profiles_round_trip l :
  profiles_sorted l -> validate_profile_set l = Ok tt ->
  profiles_from_array (map (fun p => Text (utf8 (ProfileName_as_str p))) (sort_profiles l)) = Ok l.
Proof.
  intros Hs Hv. unfold profiles_from_array. rewrite Hs.
  rewrite collect_map by (intros p _; cbn; by rewrite ProfileName_parse_name). cbn. rewrite Hv. cbn.
  by rewrite Hs.
Qed.

Ltac message_values :=
  first [ apply close_reason_parse_name | apply ProgressEvent_parse_name
        | rewrite ResultError_parse_name; reflexivity
        | apply DisplayName_ok; eassumption | apply identifier_ok; eassumption
        | apply profiles_round_trip; eassumption | reread_values ].
Ltac reread_message :=
  unfold take_id, take_text, take_bytes, take_display_name, m_take_text, m_take_bytes, m_take_bool,
    m_take_map, m_require_empty, take_requested_profiles, profile_array,
    take_granted_profiles, take_error_operation_id;
  repeat first
  [ match goal with |- take_fixed _ _ _ = (Ok _, _) =>
      eapply take_fixed_some; [reflexivity|eassumption] end
  | match goal with |- require_version _ = (Ok _, _) => eapply require_version_some; reflexivity end
  | match goal with |- require_pairing_suite _ = (Ok _, _) =>
      eapply require_pairing_suite_some; reflexivity end
  | progress reread_with message_values ].

Definition message_ok (start : Z) (m : TypedMessage) : Prop :=
  match m with
  | T_PairingHello v =>
      len (offer_hash (parameters v)) = 32 /\ name_ok (hello_display_name v) /\
      match requested_profiles v with Some l => profiles_sorted l | None => True end
  | T_PairingConfirm l => profiles_sorted l
  | T_PairingStored id => len id = PAIR_ID_SIZE
  | T_SessionReady v =>
      len (nonce v) = SESSION_READY_NONCE_SIZE /\ name_ok (ready_display_name v) /\
      len (grants_hash (session_parameters v)) = GRANTS_HASH_SIZE
  | T_SessionHello name => name_ok name
  | T_LivenessPing c | T_LivenessPong c => len c = LIVENESS_CHALLENGE_SIZE
  | T_OperationRequest r => request_ok r /\ local_start_ms r = start
  | T_OperationResult r => len (res_operation_id r) = OPERATION_ID_SIZE
  | T_OperationProgress p => len (progress_operation_id p) = OPERATION_ID_SIZE
  | T_CardStatus s =>
      match card s with
      | Present fp => len fp = CERTIFICATE_FINGERPRINT_SIZE /\ fp <> zero_fingerprint
      | CardAbsent => True
      end
  | T_Error e => match error_operation_id e with Some id => len id = OPERATION_ID_SIZE | None => True end
  | _ => True
  end.

Lemma pairing_hello_reads v body :
  message_ok 0 (T_PairingHello v) -> pairing_hello_to_body v = Ok body ->
  pairing_hello_from_body body = Ok v.
Proof.
  destruct v as [[oh tp ci] name pf profiles]. cbn [message_ok parameters offer_hash hello_display_name requested_profiles].
  intros (Ho & Hn & Hp) H. unfold pairing_hello_to_body in H.
  cbn [platform parameters transport_profile candidate_id requested_profiles hello_display_name] in H.
  unread. injection H as <-. unfold pairing_hello_from_body. apply fst_ok. exists [].
  assert (negotiated_parameters_from_map (negotiated_parameters_to_map (MkNegotiated oh tp ci))
          = Ok (MkNegotiated oh tp ci)) as Hm.
  { unfold negotiated_parameters_from_map, negotiated_parameters_to_map. apply fst_ok. exists [].
    cbn [candidate_id transport_profile offer_hash]. reread_message. }
  destruct profiles; reread_message.
Qed.

Lemma session_ready_reads v body :
  message_ok 0 (T_SessionReady v) -> session_ready_to_body v = Ok body ->
  session_ready_from_body body = Ok v.
Proof.
  destruct v as [[tp ci gh] nc name]. intros (Hnc & Hn & Hg) H. unfold session_ready_to_body in H.
  cbn [session_parameters session_transport_profile session_candidate_id grants_hash nonce ready_display_name] in *.
  unread. injection H as <-. unfold session_ready_from_body. apply fst_ok. exists [].
  assert (session_parameters_from_map (session_parameters_map (MkSessionParameters tp ci gh))
          = Ok (MkSessionParameters tp ci gh)) as Hm.
  { unfold session_parameters_from_map, session_parameters_map. apply fst_ok. exists [].
    cbn [grants_hash session_candidate_id session_transport_profile]. reread_message.
    match goal with |- (if negb ?b then _ else _) _ = _ => change b with true end. cbn [negb].
    reread_message. }
  reread_message.
Qed.

Lemma card_status_reads s :
  message_ok 0 (T_CardStatus s) -> card_status_from_body (card_status_to_body s) = Ok s.
Proof.
  destruct s as [c r]. cbn [message_ok card]. intros Hc. unfold card_status_from_body.
  apply fst_ok. exists []. destruct c as [fp|]; unfold card_status_to_body; cbn [card reader].
  - destruct Hc as [Hl Hz]. reread_message. rewrite bool_decide_eq_false_2 by done.
    by destruct r.
  - assert (len zero_fingerprint = CERTIFICATE_FINGERPRINT_SIZE) by reflexivity.
    reread_message. rewrite bool_decide_eq_true_2 by done. by destruct r.
Qed.

Lemma rmap_ok {E A B} (f : A -> B) (r : result E A) a : r = Ok a -> rmap f r = Ok (f a).
Proof. by intros ->. Qed.

Ltac reads_back := apply rmap_ok, fst_ok; exists []; reread_message.

(** A message is read back from its body. *)
Lemma message_reads start m body sid seq :
  message_ok start m -> to_wire_body m = Ok body ->
  from_envelope (mkEnvelope (typed_message_type m) sid seq body) start = Ok m.
Proof.
  intros Ho Hb. unfold from_envelope. cbn [Wire.body Wire.message_type].
  destruct m; cbn [typed_message_type to_wire_body message_ok] in *;
    unfold pairing_confirm_to_body, pairing_abort_to_body in *; unread;
    try (injection Hb as <-); try done.
  - by apply rmap_ok, pairing_hello_reads.
  - reads_back.
  - reads_back.
  - reads_back.
  - by apply rmap_ok, session_ready_reads.
  - reads_back.
  - reads_back.
  - reads_back.
  - reads_back.
  - destruct Ho as [Ho <-]. unfold request_to_wire_body in Hb.
    destruct (validate_request r) as [[]|] eqn:Ev; [|done]. injection Hb as <-.
    rewrite request_complete; [done|done|done|by left].
  - destruct (result_to_wire_body r) as [b|] eqn:Er; [|done]. injection Hb as ->.
    by rewrite (result_body_complete r body).
  - apply rmap_ok. destruct p as [id ev]. cbn [progress_operation_id] in Ho.
    assert (progress_from_wire_body (progress_to_wire_body (MkProgress id ev)) = Ok (MkProgress id ev)) as ->;
      [|done]. apply fst_ok; exists []; reread_message.
  - by apply rmap_ok, card_status_reads.
  - destruct e as [err [id|]]; cbn [error_operation_id] in Ho; reads_back.
Qed.

(** A field of the length its schema asks for. *)
Lemma field_length (n : Z) (bs : bytes) spec :
  field_type spec = FBytes n -> len bs = n -> validate_field spec (Bytes bs) = Ok tt.
Proof. intros Hs <-. unfold validate_field. by rewrite Hs, Z.eqb_refl. Qed.

Lemma validate_body_intro t m :
  existsb (fun kv => negb (existsb (fun spec => text_is kv.1 (name spec)) (specs t))) m = false ->
  validate_specs (specs t) m = Ok tt -> validate_discriminants t m = Ok tt -> validate_body t m = Ok tt.
Proof. intros H1 H2 H3. unfold validate_body. by rewrite H1, H2. Qed.

Lemma specs_some spec rest m v :
  map_get (utf8 (name spec)) m = Some v -> validate_field spec v = Ok tt ->
  validate_specs rest m = Ok tt -> validate_specs (spec :: rest) m = Ok tt.
Proof. intros H1 H2 H3. cbn [validate_specs]. by rewrite H1, H2. Qed.
Lemma specs_none spec rest m :
  map_get (utf8 (name spec)) m = None -> optional spec = true ->
  validate_specs rest m = Ok tt -> validate_specs (spec :: rest) m = Ok tt.
Proof. intros H1 H2 H3. cbn [validate_specs]. by rewrite H1, H2. Qed.

Ltac fits_schema :=
  apply validate_body_intro;
  [ reflexivity
  | cbn [specs];
    repeat first
      [ eapply specs_some; [reflexivity|first [reflexivity|eapply field_length; [reflexivity|eassumption]]|]
      | eapply specs_none; [reflexivity|reflexivity|]
      | reflexivity ]
  | try reflexivity ].

(** The schema of the envelope accepts the body of every message. *)
Lemma message_fits_schema start m body :
  message_ok start m -> to_wire_body m = Ok body ->
  validate_body (typed_message_type m) body = Ok tt.
Proof.
  intros Ho Hb.
  destruct m; cbn [typed_message_type to_wire_body message_ok] in *;
    unfold pairing_confirm_to_body, pairing_abort_to_body, pairing_hello_to_body,
      session_ready_to_body in *; unread;
    try (injection Hb as <-); try reflexivity.
  - destruct (requested_profiles v); fits_schema.
  - fits_schema.
  - destruct Ho as (Ho & _). fits_schema.
  - destruct reason; reflexivity.
  - fits_schema.
  - fits_schema.
  - destruct Ho as [[Ho _] _]. unfold request_to_wire_body in Hb.
    destruct (validate_request r) as [[]|]; [|done]. injection Hb as <-. unfold request_wire_body.
    destruct (wire_parts (operation r)) as [[? ?] ?]. fits_schema.
  - done.
  - unfold result_to_wire_body in Hb. destruct (is_consistent r); [|done]. injection Hb as <-.
    destruct (res_error r), (res_response r); fits_schema; by destruct (res_status r).
  - fits_schema.
  - destruct s as [[fp|] r]; [destruct Ho as [Ho _]; cbn [card] in *|reflexivity].
    unfold card_status_to_body; cbn [card reader]. fits_schema.
  - destruct e as [err [id|]]; unfold error_to_body; cbn [error_operation_id error] in *;
      fits_schema; by destruct err.
Qed.

(** ** Properties *)

(** Every typed message travels: the body it is encoded to is accepted by the
    schema of its envelope, and the reader turns the envelope back into the
    message, whatever its session and number. *)
Theorem typed_messages_round_trip (start : Z) (m : TypedMessage) (body : body_map) (sid : bytes)
    (seq : Z) :
  message_ok start m -> to_wire_body m = Ok body ->
  exists e, Envelope_reconstruct (typed_message_type m) sid seq body = Ok e /\
    from_envelope e start = Ok m.
Proof.
  intros Ho Hb. exists (mkEnvelope (typed_message_type m) sid seq body). split.
  - unfold Envelope_reconstruct. by rewrite (message_fits_schema start m body).
  - by apply message_reads.
Qed.

Definition sample_hello : TypedMessage :=
  T_PairingHello (MkHello (MkNegotiated (repeat 1 32) (utf8 "tcp") (utf8 "a")) (utf8 "Desk")
    (utf8 "linux") (Some [Authentication; CardStatus])).

Lemma typed_messages_round_trip_witness :
  exists body e, to_wire_body sample_hello = Ok body /\
    Envelope_reconstruct M_PairingHello (repeat 0 16) 0 body = Ok e /\
    from_envelope e 0 = Ok sample_hello.
Proof.
  destruct (to_wire_body sample_hello) as [body|] eqn:E; [|vm_compute in E; discriminate E].
  destruct (typed_messages_round_trip 0 sample_hello body (repeat 0 16) 0) as (e & H1 & H2).
  - split_and!; reflexivity.
  - exact E.
  - by exists body, e.
Defined.

End Msg.
