(* ===== verification/RappEngines.v ===== *)
(** * The operation engines of the remote card protocol

    crates/rapp/src/authorization.rs, proxy_engine.rs and requester_engine.rs:
    one operation from its admission to its result, the custodian's dispatcher
    and the requester's.  A method on [&mut self] is a computation on the
    engine; [BTreeSet<OperationId>] is a finite set. *)

From stdpp Require Import base list strings option gmap.
From Stdlib Require Import ZArith Lia.
From S2P Require Import Prelude RappCbor RappWire RappOperation RappMessage.

Module Engines.
Import Op Msg.

(** ** One operation (authorization.rs) *)

Record UserApproval := MkApproval { approval_operation_id : OperationId; approved_at_ms : Z }.

Definition for_request (r : OperationRequest) (approved_at_ms : Z) : UserApproval :=
  MkApproval (operation_id r) approved_at_ms.

Inductive AuthorizationStage := Requested | AwaitingConsent | ExecutingSafeRead | Executing | Terminal.

#[global] Instance AuthorizationStage_eq_dec : EqDecision AuthorizationStage.
Proof. solve_decision. Defined.

Record AuthorizationTransaction := MkTransaction {
  request : OperationRequest;
  stage : AuthorizationStage;
  batch_signatures : list bytes }.

Inductive AuthorizationError :=
  | ApprovalMismatch | Expired | WrongStage (s : AuthorizationStage) | InvalidResult.

Inductive PrerequisitesOutcome := PO_AwaitConsent | PO_ExecuteSafeRead (operation : CardOperation).

Definition prepare (r : OperationRequest) : AuthorizationTransaction := MkTransaction r Requested [].
Definition tx_operation_id (t : AuthorizationTransaction) : OperationId := operation_id (request t).
Definition is_terminal (t : AuthorizationTransaction) : bool := bool_decide (stage t = Terminal).
Definition set_stage (s : AuthorizationStage) (t : AuthorizationTransaction) : AuthorizationTransaction :=
  MkTransaction (request t) s (batch_signatures t).

Abbreviation step := (exec AuthorizationTransaction AuthorizationError).

Definition tx_prerequisites_complete : step PrerequisitesOutcome := fun t =>
  if negb (bool_decide (stage t = Requested)) then (Err (WrongStage (stage t)), t)
  else if is_consequential (operation (request t))
  then (Ok PO_AwaitConsent, set_stage AwaitingConsent t)
  else (Ok (PO_ExecuteSafeRead (operation (request t))), set_stage ExecutingSafeRead t).

(** The command handed out is the operation approved. *)
Definition tx_approve (approval : UserApproval) (now_ms maximum_lifetime_ms : Z) : step CardOperation :=
  fun t =>
    if negb (bool_decide (stage t = AwaitingConsent)) then (Err (WrongStage (stage t)), t)
    else if negb (bool_decide (approval_operation_id approval = operation_id (request t)))
    then (Err ApprovalMismatch, t)
    else
      match local_deadline_ms (request t) maximum_lifetime_ms with
      | Err _ => (Err Expired, t)
      | Ok deadline =>
          if (approved_at_ms approval <? local_start_ms (request t))
             || (approved_at_ms approval >? deadline) || (now_ms >? deadline)
          then (Err Expired, t)
          else (Ok (operation (request t)), set_stage Executing t)
      end.

Definition tx_finish_failure (r : OperationResultMessage) : step unit := fun t =>
  if is_terminal t then (Err (WrongStage (stage t)), t)
  else if bool_decide (res_status r = Completed) then (Err InvalidResult, t)
  else
    match validate_for r (operation_id (request t)) (operation (request t)) with
    | Err _ => (Err InvalidResult, t)
    | Ok _ => (Ok tt, set_stage Terminal t)
    end.

Definition is_executing (t : AuthorizationTransaction) : bool :=
  match stage t with Executing | ExecutingSafeRead => true | _ => false end.

(** A batch is answered with exactly the signatures it recorded. *)
Definition batch_answered (r : OperationResultMessage) (t : AuthorizationTransaction) : bool :=
  match batch_total (operation (request t)) with
  | None => true
  | Some total =>
      (len (batch_signatures t) =? total)
      && match res_response r with
         | Some response =>
             match typed_for response (operation (request t)) with
             | Ok answered => bool_decide (answered = Signatures (batch_signatures t))
             | Err _ => false
             end
         | None => false
         end
  end.

Definition tx_finish_completed (r : OperationResultMessage) : step unit := fun t =>
  if negb (is_executing t) then (Err (WrongStage (stage t)), t)
  else if negb (bool_decide (res_status r = Completed)) then (Err InvalidResult, t)
  else
    match validate_for r (operation_id (request t)) (operation (request t)) with
    | Err _ => (Err InvalidResult, t)
    | Ok _ =>
        if negb (batch_answered r t) then (Err InvalidResult, t)
        else (Ok tt, set_stage Terminal t)
    end.

Definition tx_record_batch_signature (signature : bytes) : step unit := fun t =>
  if negb (bool_decide (stage t = Executing)) then (Err (WrongStage (stage t)), t)
  else
    match batch_total (operation (request t)) with
    | None => (Err InvalidResult, t)
    | Some total =>
        if (len (batch_signatures t) >=? total) || is_empty signature then (Err InvalidResult, t)
        else (Ok tt, MkTransaction (request t) (stage t) (batch_signatures t ++ [signature]))
    end.

Definition is_expired (t : AuthorizationTransaction) (now_ms maximum_lifetime_ms : Z) : bool :=
  match local_deadline_ms (request t) maximum_lifetime_ms with
  | Ok deadline => now_ms >? deadline
  | Err _ => false
  end.

(** ** The custodian (proxy_engine.rs) *)

Definition MAX_SEEN_OPERATION_IDS : nat := 4096.

Record ProxyOperationEngine := MkProxy {
  granted_profiles : list ProfileName;
  live : option AuthorizationTransaction;
  seen : gset OperationId }.

Definition proxy_new (granted : list ProfileName) : ProxyOperationEngine := MkProxy granted None ∅.

Inductive ProxyDispatch :=
  | InspectPrerequisites (id : OperationId)
  | AwaitConsent (id : OperationId)
  | ExecuteSafeRead (id : OperationId) (read : CardOperation)
  | ExecuteCardCommand (id : OperationId) (command : CardOperation)
  | Send (m : TypedMessage)
  | NotOperation (m : TypedMessage).

Inductive ProxyViolation := CustodianOnlyMessage | OperationMemoryExhausted.

Inductive ProxyEngineError :=
  | InvalidLocalTransition
  | UnknownLocalOperation
  | AuthenticatedProtocolViolation (v : ProxyViolation).

Inductive ProxySessionCloseAction :=
  | Dropped (id : OperationId)
  | ContinueCardExchange (id : OperationId).

Abbreviation proxy := (exec ProxyOperationEngine ProxyEngineError).

Definition set_live (l : option AuthorizationTransaction) (e : ProxyOperationEngine) : ProxyOperationEngine :=
  MkProxy (granted_profiles e) l (seen e).
Definition set_seen (s : gset OperationId) (e : ProxyOperationEngine) : ProxyOperationEngine :=
  MkProxy (granted_profiles e) (live e) s.

(** A method of the live operation, its errors as [InvalidLocalTransition]. *)
Definition live_mut {A} (id : OperationId) (m : step A) : proxy A := fun e =>
  match live e with
  | Some t =>
      if bool_decide (tx_operation_id t = id) then
        let '(r, t) := m t in
        (map_err (fun _ => InvalidLocalTransition) r, set_live (Some t) e)
      else (Err UnknownLocalOperation, e)
  | None => (Err UnknownLocalOperation, e)
  end.

(** A look at the live operation. *)
Definition live_ref {A} (id : OperationId) (f : AuthorizationTransaction -> A) : proxy A :=
  live_mut id (fun t => (Ok (f t), t)).

Definition send_result (r : OperationResultMessage) : ProxyDispatch := Send (T_OperationResult r).

Definition proxy_finish_failure (id : OperationId) (f : ProxyFailure) : proxy ProxyDispatch :=
  let r := result_failure id f in
  do? _ <- live_mut id (tx_finish_failure r) ;; eret (send_result r).

Definition prerequisites_complete (id : OperationId) (now_ms maximum_lifetime_ms : Z) :
  proxy ProxyDispatch :=
  do? expired <- live_ref id (fun t => bool_decide (stage t = Requested)
                                       && is_expired t now_ms maximum_lifetime_ms) ;;
  if expired : bool then proxy_finish_failure id PF_RequestExpired
  else
    do? outcome <- live_mut id tx_prerequisites_complete ;;
    eret (match outcome with
          | PO_AwaitConsent => AwaitConsent id
          | PO_ExecuteSafeRead read => ExecuteSafeRead id read
          end).

Definition approve (id : OperationId) (approval : UserApproval) (now_ms maximum_lifetime_ms : Z) :
  proxy ProxyDispatch :=
  do? expired <- live_ref id (fun t => bool_decide (stage t = AwaitingConsent)
                                       && is_expired t now_ms maximum_lifetime_ms) ;;
  if expired : bool then proxy_finish_failure id PF_RequestExpired
  else
    do? command <- live_mut id (tx_approve approval now_ms maximum_lifetime_ms) ;;
    eret (ExecuteCardCommand id command).

Definition is_waiting (t : AuthorizationTransaction) : bool :=
  match stage t with Requested | AwaitingConsent => true | _ => false end.

Definition expire_due (now_ms maximum_lifetime_ms : Z) : proxy (option ProxyDispatch) := fun e =>
  match live e with
  | None => (Ok None, e)
  | Some t =>
      if negb (is_waiting t) || negb (is_expired t now_ms maximum_lifetime_ms) then (Ok None, e)
      else (do? d <- proxy_finish_failure (tx_operation_id t) PF_RequestExpired ;; eret (Some d)) e
  end.

Definition proxy_finish_completed (id : OperationId) (r : OperationResultMessage) : proxy ProxyDispatch :=
  do? _ <- live_mut id (tx_finish_completed r) ;; eret (send_result r).

Definition record_batch_signature (id : OperationId) (signature : bytes) : proxy unit :=
  live_mut id (tx_record_batch_signature signature).

Definition complete_batch (id : OperationId) : proxy ProxyDispatch :=
  do? signatures <- live_ref id batch_signatures ;;
  proxy_finish_completed id (result_completed id (Signatures signatures)).

Definition report_progress (id : OperationId) (ev : ProgressEvent) (e : ProxyOperationEngine) :
  result ProxyEngineError TypedMessage :=
  match live e with
  | Some t =>
      if bool_decide (tx_operation_id t = id) then
        if is_terminal t then Err InvalidLocalTransition
        else Ok (T_OperationProgress (MkProgress id ev))
      else Err UnknownLocalOperation
  | None => Err UnknownLocalOperation
  end.

Definition report_card_status (status : CardStatusMessage) : TypedMessage := T_CardStatus status.

Definition proxy_session_closed (e : ProxyOperationEngine) :
  option ProxySessionCloseAction * ProxyOperationEngine :=
  let e' := MkProxy (granted_profiles e) None ∅ in
  match live e with
  | None => (None, e')
  | Some t =>
      (match stage t with
       | Terminal => None
       | Executing | ExecutingSafeRead => Some (ContinueCardExchange (tx_operation_id t))
       | Requested | AwaitingConsent => Some (Dropped (tx_operation_id t))
       end, e')
  end.

Definition admission_refusal (id : OperationId) : proxy (option ProxyDispatch) := fun e =>
  if bool_decide (id ∈ seen e) then (Ok (Some (Send (T_Error (error_duplicate id)))), e)
  else if (MAX_SEEN_OPERATION_IDS <=? size (seen e))%nat
  then (Err (AuthenticatedProtocolViolation OperationMemoryExhausted), e)
  else
    let e := set_seen ({[id]} ∪ seen e) e in
    if match live e with Some t => negb (is_terminal t) | None => false end
    then (Ok (Some (Send (T_Error (error_busy id)))), e)
    else (Ok None, e).

Definition receive_request (r : OperationRequest) : proxy ProxyDispatch :=
  let id := operation_id r in
  do? refused <- admission_refusal id ;;
  match refused with
  | Some answer => eret answer
  | None => fun e =>
      if negb (bool_decide (profile r ∈ granted_profiles e))
      then (Ok (send_result (result_failure id PF_Unauthorized)), e)
      else (Ok (InspectPrerequisites id), set_live (Some (prepare r)) e)
  end.

Definition proxy_receive (m : TypedMessage) : proxy ProxyDispatch :=
  match m with
  | T_OperationRequest r => receive_request r
  | T_OperationRequestRefused refusal =>
      let id := refused_operation_id refusal in
      do? refused <- admission_refusal id ;;
      match refused with
      | Some answer => eret answer
      | None => eret (send_result (result_rejection id Rejected (refusal_error refusal)))
      end
  | T_OperationResult _ | T_OperationProgress _ | T_CardStatus _ =>
      efail (AuthenticatedProtocolViolation CustodianOnlyMessage)
  | other => eret (NotOperation other)
  end.

(** ** The requester (requester_engine.rs) *)

Record RequesterOperationEngine := MkRequester {
  r_live : option OperationRequest;
  used : gset OperationId }.

Definition requester_new : RequesterOperationEngine := MkRequester None ∅.

Inductive RequesterDispatch :=
  | RD_CardStatus (s : CardStatusMessage)
  | RD_Progress (id : OperationId) (ev : ProgressEvent)
  | RD_Completed (id : OperationId) (r : CardOperationResult)
  | RD_Ended (id : OperationId) (status : ResultStatus) (e : ResultError)
  | RD_Refused (id : OperationId) (e : ResultError)
  | RD_PeerError (e : ResultError)
  | RD_Ignored (id : OperationId)
  | RD_NotOperation (m : TypedMessage).

Inductive RequesterViolation := RequesterOnlyMessage | RV_InvalidResult.

Inductive RequesterEngineError :=
  | LiveOperation
  | DuplicateLocalOperationId
  | InvalidLocalRequest (e : CardOperationError)
  | R_UnknownLocalOperation
  | R_AuthenticatedProtocolViolation (v : RequesterViolation).

Abbreviation requester := (exec RequesterOperationEngine RequesterEngineError).

Definition live_id (e : RequesterOperationEngine) : option OperationId := operation_id <$> r_live e.

Definition begin_ (r : OperationRequest) : requester TypedMessage := fun e =>
  match r_live e with
  | Some _ => (Err LiveOperation, e)
  | None =>
      if bool_decide (operation_id r ∈ used e) then (Err DuplicateLocalOperationId, e)
      else
        match validate_request r with
        | Err err => (Err (InvalidLocalRequest err), e)
        | Ok _ =>
            (Ok (T_OperationRequest r), MkRequester (Some r) ({[operation_id r]} ∪ used e))
        end
  end.

Definition cancel (id : OperationId) : requester unit := fun e =>
  if bool_decide (live_id e = Some id) then (Ok tt, MkRequester None (used e))
  else (Err R_UnknownLocalOperation, e).

Definition receive_error (err : ProtocolErrorMessage) (e : RequesterOperationEngine) :
  RequesterDispatch * RequesterOperationEngine :=
  match error_operation_id err with
  | Some id =>
      if bool_decide (live_id e = Some id)
      then (RD_Refused id (error err), MkRequester None (used e))
      else (RD_Ignored id, e)
  | None => (RD_PeerError (error err), e)
  end.

Definition invalid_result {A} : result RequesterEngineError A :=
  Err (R_AuthenticatedProtocolViolation RV_InvalidResult).

(** What a result means for the live request it answers. *)
Definition read_answer (result : OperationResultMessage) (r : OperationRequest) :
  Prelude.result RequesterEngineError RequesterDispatch :=
  let id := res_operation_id result in
  match validate_for result id (operation r) with
  | Err _ => invalid_result
  | Ok _ =>
      match res_status result, res_response result, res_error result with
      | Completed, Some response, None =>
          match typed_for response (operation r) with
          | Ok a => Ok (RD_Completed id a)
          | Err _ => invalid_result
          end
      | status, None, Some err => Ok (RD_Ended id status err)
      | _, _, _ => invalid_result
      end
  end.

Definition requester_receive (m : TypedMessage) : requester RequesterDispatch := fun e =>
  match m with
  | T_CardStatus s => (Ok (RD_CardStatus s), e)
  | T_Error err => let '(d, e) := receive_error err e in (Ok d, e)
  | T_OperationProgress p =>
      let id := progress_operation_id p in
      (Ok (if bool_decide (live_id e = Some id) then RD_Progress id (event p) else RD_Ignored id), e)
  | T_OperationResult result =>
      match r_live e with
      | Some r =>
          if bool_decide (operation_id r = res_operation_id result)
          then (read_answer result r, MkRequester None (used e))
          else (Ok (RD_Ignored (res_operation_id result)), e)
      | None => (Ok (RD_Ignored (res_operation_id result)), e)
      end
  | T_OperationRequest _ | T_OperationRequestRefused _ =>
      (Err (R_AuthenticatedProtocolViolation RequesterOnlyMessage), e)
  | other => (Ok (RD_NotOperation other), e)
  end.

Definition requester_session_closed (e : RequesterOperationEngine) :
  option OperationId * RequesterOperationEngine := (live_id e, MkRequester None ∅).

(** ** Runs of the custodian *)

(** The calls of one session. *)
Inductive proxy_call :=
  | PC_Receive (m : TypedMessage)
  | PC_Prerequisites (id : OperationId) (now_ms maximum_lifetime_ms : Z)
  | PC_Approve (id : OperationId) (approval : UserApproval) (now_ms maximum_lifetime_ms : Z)
  | PC_Expire (now_ms maximum_lifetime_ms : Z)
  | PC_FinishCompleted (id : OperationId) (r : OperationResultMessage)
  | PC_FinishFailure (id : OperationId) (f : ProxyFailure)
  | PC_Record (id : OperationId) (signature : bytes)
  | PC_CompleteBatch (id : OperationId).

Abbreviation reply := (result ProxyEngineError (option ProxyDispatch)).
Abbreviation entry := (proxy_call * result ProxyEngineError (option ProxyDispatch))%type.

Definition some_of (m : proxy ProxyDispatch) : proxy (option ProxyDispatch) :=
  do? d <- m ;; eret (Some d).

Definition perform (c : proxy_call) : proxy (option ProxyDispatch) :=
  match c with
  | PC_Receive m => some_of (proxy_receive m)
  | PC_Prerequisites id now max => some_of (prerequisites_complete id now max)
  | PC_Approve id approval now max => some_of (approve id approval now max)
  | PC_Expire now max => expire_due now max
  | PC_FinishCompleted id r => some_of (proxy_finish_completed id r)
  | PC_FinishFailure id f => some_of (proxy_finish_failure id f)
  | PC_Record id signature => do? _ <- record_batch_signature id signature ;; eret None
  | PC_CompleteBatch id => some_of (complete_batch id)
  end.

(** The states of a session and what it has been asked and answered. *)
Inductive session (granted : list ProfileName) : list entry -> ProxyOperationEngine -> Prop :=
  | session_new : session granted [] (proxy_new granted)
  | session_call log e c r e' :
      session granted log e -> perform c e = (r, e') -> session granted (log ++ [(c, r)]) e'.

Definition commands (id : OperationId) (x : entry) : bool :=
  match x.2 with Ok (Some (ExecuteCardCommand j _)) => bool_decide (j = id) | _ => false end.
Definition results (id : OperationId) (x : entry) : bool :=
  match x.2 with
  | Ok (Some (Send (T_OperationResult m))) => bool_decide (res_operation_id m = id)
  | _ => false
  end.
Definition count (f : entry -> bool) (log : list entry) : nat := length (List.filter f log).

Definition silent (r : reply) : Prop :=
  forall c id, commands id (c, r) = false /\ results id (c, r) = false.

(** What a call does. *)
Inductive effect (e : ProxyOperationEngine) : proxy_call -> reply -> ProxyOperationEngine -> Prop :=
  | effect_none c r : silent r -> effect e c r e
  | effect_busy c r id : silent r -> effect e c r (set_seen ({[id]} ∪ seen e) e)
  | effect_refused c m :
      res_operation_id m ∉ seen e ->
      effect e c (Ok (Some (send_result m))) (set_seen ({[res_operation_id m]} ∪ seen e) e)
  | effect_admitted r :
      operation_id r ∉ seen e -> profile r ∈ granted_profiles e ->
      effect e (PC_Receive (T_OperationRequest r)) (Ok (Some (InspectPrerequisites (operation_id r))))
        (MkProxy (granted_profiles e) (Some (prepare r)) ({[operation_id r]} ∪ seen e))
  | effect_consent t now max :
      live e = Some t -> stage t = Requested -> is_consequential (operation (request t)) = true ->
      effect e (PC_Prerequisites (tx_operation_id t) now max)
        (Ok (Some (AwaitConsent (tx_operation_id t)))) (set_live (Some (set_stage AwaitingConsent t)) e)
  | effect_read c t op :
      live e = Some t -> stage t = Requested ->
      effect e c (Ok (Some (ExecuteSafeRead (tx_operation_id t) op)))
        (set_live (Some (set_stage ExecutingSafeRead t)) e)
  | effect_command t approval now max deadline :
      live e = Some t -> stage t = AwaitingConsent ->
      approval_operation_id approval = tx_operation_id t ->
      local_deadline_ms (request t) max = Ok deadline ->
      local_start_ms (request t) <= approved_at_ms approval <= deadline -> now <= deadline ->
      effect e (PC_Approve (tx_operation_id t) approval now max)
        (Ok (Some (ExecuteCardCommand (tx_operation_id t) (operation (request t)))))
        (set_live (Some (set_stage Executing t)) e)
  | effect_answer c t m :
      live e = Some t -> stage t <> Terminal -> res_operation_id m = tx_operation_id t ->
      effect e c (Ok (Some (send_result m))) (set_live (Some (set_stage Terminal t)) e)
  | effect_record c r t signatures :
      live e = Some t -> silent r ->
      effect e c r (set_live (Some (MkTransaction (request t) (stage t) signatures)) e).

(** ** Runs of the requester *)

Inductive requester_call := RC_Begin (r : OperationRequest) | RC_Cancel (id : OperationId) | RC_Receive (m : TypedMessage).

Inductive requester_reply := RR_Send (m : TypedMessage) | RR_Cancelled | RR_Dispatch (d : RequesterDispatch).

Abbreviation r_entry := (requester_call * result RequesterEngineError requester_reply)%type.

Definition r_perform (c : requester_call) : requester requester_reply :=
  match c with
  | RC_Begin r => do? m <- begin_ r ;; eret (RR_Send m)
  | RC_Cancel id => do? _ <- cancel id ;; eret RR_Cancelled
  | RC_Receive m => do? d <- requester_receive m ;; eret (RR_Dispatch d)
  end.

Inductive r_session : list r_entry -> RequesterOperationEngine -> Prop :=
  | r_session_new : r_session [] requester_new
  | r_session_call log e c r e' :
      r_session log e -> r_perform c e = (r, e') -> r_session (log ++ [(c, r)]) e'.

(** The entries that put operation [id] on the wire, and those that end it. *)
Definition begins (id : OperationId) (x : r_entry) : bool :=
  match x.2 with Ok (RR_Send (T_OperationRequest r)) => bool_decide (operation_id r = id) | _ => false end.
Definition ends (id : OperationId) (x : r_entry) : bool :=
  match x with
  | (RC_Cancel j, Ok RR_Cancelled) => bool_decide (j = id)
  | (_, Ok (RR_Dispatch (RD_Completed j _ | RD_Ended j _ _ | RD_Refused j _))) => bool_decide (j = id)
  | _ => false
  end.
Definition r_count (f : r_entry -> bool) (log : list r_entry) : nat := length (List.filter f log).

(** What an answer was given to. *)
Definition answered (log : list r_entry) (id : OperationId) (a : CardOperationResult) : Prop :=
  exists r, operation_id r = id /\ In (RC_Begin r, Ok (RR_Send (T_OperationRequest r))) log /\
    validate_request r = Ok tt /\ result_matches_operation a (operation r) = true /\
    r_count (ends id) log = 0%nat.

(** What a call does to the requester. *)
Inductive r_effect (e : RequesterOperationEngine) :
    requester_call -> result RequesterEngineError requester_reply -> RequesterOperationEngine -> Prop :=
  | r_effect_none c r :
      (forall id, begins id (c, r) = false /\ ends id (c, r) = false) -> r_effect e c r e
  | r_effect_begin r :
      r_live e = None -> operation_id r ∉ used e -> validate_request r = Ok tt ->
      r_effect e (RC_Begin r) (Ok (RR_Send (T_OperationRequest r)))
        (MkRequester (Some r) ({[operation_id r]} ∪ used e))
  | r_effect_end c r q :
      r_live e = Some q ->
      (forall id, begins id (c, r) = false /\ (ends id (c, r) = true -> id = operation_id q)) ->
      (forall id a, r = Ok (RR_Dispatch (RD_Completed id a)) ->
        id = operation_id q /\ result_matches_operation a (operation q) = true) ->
      r_effect e c r (MkRequester None (used e)).

(** ** One operation across the wire *)

(** A message's envelope on the wire; none when the message is inconsistent or
    its frame would be too large. *)
Definition encoded (sid : bytes) (seq : Z) (m : TypedMessage) : option bytes :=
  match to_wire_body m with
  | Ok body =>
      match Wire.Envelope_reconstruct (typed_message_type m) sid seq body with
      | Ok e => match Wire.Envelope_encode e with Ok bs => Some bs | Err _ => None end
      | Err _ => None
      end
  | Err _ => None
  end.

(** The message read from the wire at the other end, at its time. *)
Definition decoded (bs : bytes) (start : Z) : option TypedMessage :=
  match Wire.Envelope_decode bs with
  | Ok e => match from_envelope e start with Ok m => Some m | Err _ => None end
  | Err _ => None
  end.

(** What the types of the code guarantee of a message: its texts are UTF-8,
    its numbers 64-bit and its maps in key order. *)
Definition typed (m : TypedMessage) : Prop := forall body, to_wire_body m = Ok body -> Cbor.wf (Cbor.Map body).

(** The calls made of the custodian, in order. *)
Fixpoint performs (cs : list proxy_call) (e : ProxyOperationEngine) : list reply * ProxyOperationEngine :=
  match cs with
  | [] => ([], e)
  | c :: cs => let '(r, e) := perform c e in let '(rs, e) := performs cs e in (r :: rs, e)
  end.

(** The request as the custodian reads it, at its own time. *)
Definition received_at (start : Z) (r : OperationRequest) : OperationRequest :=
  MkRequest (operation_id r) (profile r) start (expires_after_ms r) (operation r).

(** The calls that hand the custodian the card's answer: a batch signature by signature. *)
Definition card_calls (id : OperationId) (a : CardOperationResult) : list proxy_call :=
  match a with
  | Signatures l => map (PC_Record id) l ++ [PC_CompleteBatch id]
  | _ => [PC_FinishCompleted id (result_completed id a)]
  end.
Definition card_replies (id : OperationId) (a : CardOperationResult) : list reply :=
  match a with Signatures l => map (fun _ => Ok None) l | _ => [] end
  ++ [Ok (Some (send_result (result_completed id a)))].

(** ** Lemmas *)

Lemma validate_for_id r id op : validate_for r id op = Ok tt -> res_operation_id r = id.
Proof. unfold validate_for. case_if; [done|]. to_prop. by apply bool_decide_eq_true in E. Qed.

Lemma live_mut_cases {A} id (m : step A) e r e' :
  live_mut id m e = (r, e') ->
  (exists err, r = Err err /\ e' = e) \/
  exists t r0 t', live e = Some t /\ tx_operation_id t = id /\ m t = (r0, t') /\
    r = map_err (fun _ => InvalidLocalTransition) r0 /\ e' = set_live (Some t') e.
Proof.
  unfold live_mut. destruct (live e) as [t|]; [|intros [= <- <-]; left; eauto].
  case_bool_decide; [|intros [= <- <-]; left; eauto].
  destruct (m t) as [r0 t'] eqn:E. intros [= <- <-]. right. exists t, r0, t'. done.
Qed.

Lemma live_same e t : live e = Some t -> set_live (Some t) e = e.
Proof. destruct e. cbn. by intros ->. Qed.

Lemma silent_err e : silent (Err e).
Proof. done. Qed.
Lemma silent_none : silent (Ok None).
Proof. done. Qed.
Lemma silent_other d :
  match d with ExecuteCardCommand _ _ => false | Send (T_OperationResult _) => false | _ => true end = true ->
  silent (Ok (Some d)).
Proof. destruct d as [| | | |[]|]; by try done. Qed.

(** Nothing happened to the live operation. *)
Ltac unchanged :=
  match goal with H : _ = (_, ?t') |- context [set_live (Some ?t') _] => injection H as <- <- end;
  rewrite live_same by done; intros [= <- <-]; by constructor.

Lemma finish_failure_effect c id f e r e' :
  some_of (proxy_finish_failure id f) e = (r, e') -> effect e c r e'.
Proof.
  unfold some_of, proxy_finish_failure, ebind.
  destruct (live_mut id _ e) as [r1 e1] eqn:E.
  destruct (live_mut_cases _ _ _ _ _ E) as [(err & -> & ->)|(t & r0 & t' & Hl & Hid & Ht & -> & ->)].
  { intros [= <- <-]. by constructor. }
  unfold tx_finish_failure in Ht. destruct (is_terminal t) eqn:Et.
  { unchanged. }
  case_bool_decide. { unchanged. }
  destruct (validate_for _ _ _) as [[]|] eqn:Ev; injection Ht as <- <-.
  - intros [= <- <-]. constructor; [done| |by apply validate_for_id in Ev].
    by apply bool_decide_eq_false in Et.
  - rewrite live_same by done. intros [= <- <-]. by constructor.
Qed.

Lemma finish_completed_effect c id m e r e' :
  some_of (proxy_finish_completed id m) e = (r, e') -> effect e c r e'.
Proof.
  unfold some_of, proxy_finish_completed, ebind.
  destruct (live_mut id _ e) as [r1 e1] eqn:E.
  destruct (live_mut_cases _ _ _ _ _ E) as [(err & -> & ->)|(t & r0 & t' & Hl & Hid & Ht & -> & ->)].
  { intros [= <- <-]. by constructor. }
  unfold tx_finish_completed in Ht. destruct (is_executing t) eqn:Et; cbn [negb] in Ht.
  2: { unchanged. }
  case_bool_decide; cbn [negb] in Ht.
  2: { unchanged. }
  destruct (validate_for _ _ _) as [[]|] eqn:Ev.
  2: { unchanged. }
  destruct (batch_answered m t); cbn [negb] in Ht; injection Ht as <- <-.
  - intros [= <- <-]. constructor; [done| |by apply validate_for_id in Ev].
    unfold is_executing in Et. by destruct (stage t).
  - rewrite live_same by done. intros [= <- <-]. by constructor.
Qed.

Lemma prerequisites_effect id now max e r e' :
  some_of (prerequisites_complete id now max) e = (r, e') ->
  effect e (PC_Prerequisites id now max) r e'.
Proof.
  unfold some_of, prerequisites_complete, live_ref, ebind at 1 2.
  destruct (live_mut id _ e) as [r1 e1] eqn:E.
  destruct (live_mut_cases _ _ _ _ _ E) as [(err & -> & ->)|(t & r0 & t' & Hl & Hid & [= <- <-] & -> & ->)].
  { intros [= <- <-]. by constructor. }
  rewrite live_same by done. cbn [map_err]. case_if; [by apply finish_failure_effect|]. clear E.
  unfold ebind. destruct (live_mut id tx_prerequisites_complete e) as [r1 e1] eqn:E.
  destruct (live_mut_cases _ _ _ _ _ E) as [(err & -> & ->)|(t' & r0 & t1 & Hl' & _ & Ht & -> & ->)].
  { intros [= <- <-]. by constructor. }
  rewrite Hl in Hl'. injection Hl' as <-. unfold tx_prerequisites_complete in Ht.
  case_bool_decide as Hst; cbn [negb] in Ht; [|unchanged].
  destruct (is_consequential _) eqn:Hc; injection Ht as <- <-; intros [= <- <-]; rewrite <- Hid.
  - by constructor.
  - by constructor.
Qed.

Lemma approve_effect id approval now max e r e' :
  some_of (approve id approval now max) e = (r, e') ->
  effect e (PC_Approve id approval now max) r e'.
Proof.
  unfold some_of, approve, live_ref, ebind at 1 2.
  destruct (live_mut id _ e) as [r1 e1] eqn:E.
  destruct (live_mut_cases _ _ _ _ _ E) as [(err & -> & ->)|(t & r0 & t' & Hl & Hid & [= <- <-] & -> & ->)].
  { intros [= <- <-]. by constructor. }
  rewrite live_same by done. cbn [map_err]. case_if; [by apply finish_failure_effect|]. clear E.
  unfold ebind. destruct (live_mut id (tx_approve approval now max) e) as [r1 e1] eqn:E.
  destruct (live_mut_cases _ _ _ _ _ E) as [(err & -> & ->)|(t' & r0 & t1 & Hl' & _ & Ht & -> & ->)].
  { intros [= <- <-]. by constructor. }
  rewrite Hl in Hl'. injection Hl' as <-. unfold tx_approve in Ht.
  case_bool_decide as Hst; cbn [negb] in Ht; [|unchanged].
  case_bool_decide as Hap; cbn [negb] in Ht; [|unchanged].
  destruct (local_deadline_ms (request t) max) as [dl|] eqn:Hdl; [|unchanged].
  destruct ((_ <? _) || _ || _) eqn:Hb; [unchanged|].
  injection Ht as <- <-; intros [= <- <-]; rewrite <- Hid.
  to_prop. eapply effect_command; try done; lia.
Qed.

Lemma admission_cases id e r e' :
  admission_refusal id e = (r, e') ->
  (e' = e /\ (is_ok r = false \/ r = Ok (Some (Send (T_Error (error_duplicate id)))))) \/
  id ∉ seen e /\ e' = set_seen ({[id]} ∪ seen e) e /\
  (r = Ok (Some (Send (T_Error (error_busy id)))) \/ r = Ok None).
Proof.
  unfold admission_refusal. case_bool_decide; [intros [= <- <-]; left; by auto|].
  case_if; [intros [= <- <-]; left; by auto|].
  case_if; intros [= <- <-]; right; by auto.
Qed.

Lemma receive_effect m e r e' :
  some_of (proxy_receive m) e = (r, e') -> effect e (PC_Receive m) r e'.
Proof.
  unfold some_of, proxy_receive.
  destruct m as [| | | | | | | | |rq|rf| | | |]; try (intros [= <- <-]; by constructor).
  - unfold receive_request, ebind. destruct (admission_refusal (operation_id rq) e) as [r1 e1] eqn:E.
    destruct (admission_cases _ _ _ _ E) as [[-> [Hr| ->]]|(Hs & -> & [-> | ->])].
    + destruct r1; [done|]. intros [= <- <-]. by constructor.
    + intros [= <- <-]. by constructor.
    + intros [= <- <-]. by apply effect_busy.
    + case_bool_decide as Hg; cbn [negb]; intros [= <- <-]; [by apply effect_admitted|].
      by apply (effect_refused e _ (result_failure (operation_id rq) PF_Unauthorized)).
  - unfold ebind. destruct (admission_refusal _ e) as [r1 e1] eqn:E.
    destruct (admission_cases _ _ _ _ E) as [[-> [Hr| ->]]|(Hs & -> & [-> | ->])].
    + destruct r1; [done|]. intros [= <- <-]. by constructor.
    + intros [= <- <-]. by constructor.
    + intros [= <- <-]. by apply effect_busy.
    + intros [= <- <-].
      by apply (effect_refused e _ (result_rejection (refused_operation_id rf) Rejected (refusal_error rf))).
Qed.

Lemma record_effect c id signature e r e' :
  (do? _ <- record_batch_signature id signature ;; eret None) e = (r, e') -> effect e c r e'.
Proof.
  unfold ebind, record_batch_signature. destruct (live_mut id _ e) as [r1 e1] eqn:E.
  destruct (live_mut_cases _ _ _ _ _ E) as [(err & -> & ->)|(t & r0 & t' & Hl & Hid & Ht & -> & ->)].
  { intros [= <- <-]. by constructor. }
  unfold tx_record_batch_signature in Ht. case_bool_decide; cbn [negb] in Ht; [|unchanged].
  destruct (batch_total _); [|unchanged]. destruct (_ || _); [unchanged|].
  injection Ht as <- <-. intros [= <- <-]. by apply effect_record.
Qed.

Lemma perform_effect c e r e' : perform c e = (r, e') -> effect e c r e'.
Proof.
  destruct c; cbn [perform].
  - apply receive_effect.
  - apply prerequisites_effect.
  - apply approve_effect.
  - unfold expire_due. destruct (live e) as [t|] eqn:El; [|intros [= <- <-]; by constructor].
    case_if; [intros [= <- <-]; by constructor|]. apply finish_failure_effect.
  - apply finish_completed_effect.
  - apply finish_failure_effect.
  - apply record_effect.
  - unfold some_of, complete_batch, live_ref. intros H. unfold ebind at 1 2 in H.
    destruct (live_mut id _ e) as [r1 e1] eqn:E.
    destruct (live_mut_cases _ _ _ _ _ E) as [(err & -> & ->)|(t & r0 & t' & Hl & Hid & [= <- <-] & -> & ->)].
    { injection H as <- <-. by constructor. }
    rewrite live_same in H by done. cbn [map_err] in H. by eapply finish_completed_effect.
Qed.

(** *** What holds of a session *)

Definition admitted (r : OperationRequest) (log : list entry) : Prop :=
  In (PC_Receive (T_OperationRequest r), Ok (Some (InspectPrerequisites (operation_id r)))) log.
Definition consent_asked (id : OperationId) (log : list entry) : Prop :=
  exists now max, In (PC_Prerequisites id now max, Ok (Some (AwaitConsent id))) log.

(** Why a card command may be executed. *)
Definition authorized (granted : list ProfileName) (log : list entry) (c : proxy_call)
    (id : OperationId) (op : CardOperation) : Prop :=
  exists r approval now max deadline,
    operation_id r = id /\ operation r = op /\ admitted r log /\ profile r ∈ granted /\
    is_consequential op = true /\ consent_asked id log /\ count (results id) log = 0%nat /\
    c = PC_Approve id approval now max /\ approval_operation_id approval = id /\
    local_deadline_ms r max = Ok deadline /\
    local_start_ms r <= approved_at_ms approval <= deadline /\ now <= deadline.

Definition live_ok (granted : list ProfileName) (log : list entry) (t : AuthorizationTransaction) : Prop :=
  let id := tx_operation_id t in
  admitted (request t) log /\ profile (request t) ∈ granted /\
  (stage t <> Terminal -> count (results id) log = 0%nat) /\
  (stage t = Requested \/ stage t = AwaitingConsent \/ stage t = ExecutingSafeRead ->
   count (commands id) log = 0%nat) /\
  (stage t = AwaitingConsent ->
   consent_asked id log /\ is_consequential (operation (request t)) = true).

Record session_inv (granted : list ProfileName) (log : list entry) (e : ProxyOperationEngine) : Prop := {
  inv_granted : granted_profiles e = granted;
  inv_unseen id : id ∉ seen e -> count (commands id) log = 0%nat /\ count (results id) log = 0%nat;
  inv_once id : (count (commands id) log <= 1)%nat /\ (count (results id) log <= 1)%nat;
  inv_live t : live e = Some t -> tx_operation_id t ∈ seen e /\ live_ok granted log t }.

Lemma count_snoc f log x : count f (log ++ [x]) = (count f log + Nat.b2n (f x))%nat.
Proof. unfold count. rewrite List.filter_app, length_app. cbn. by destruct (f x). Qed.

Lemma admitted_snoc r log x : admitted r log -> admitted r (log ++ [x]).
Proof. intros H. apply in_app_iff. by left. Qed.
Lemma consent_snoc id log x : consent_asked id log -> consent_asked id (log ++ [x]).
Proof. intros (now & max & H). exists now, max. apply in_app_iff. by left. Qed.

(** An entry that neither commands nor answers operation [id]. *)
Definition leaves (id : OperationId) (x : entry) : Prop :=
  commands id x = false /\ results id x = false.

Lemma silent_leaves id c r : silent r -> leaves id (c, r).
Proof. intros H. apply H. Qed.

Lemma live_ok_snoc granted log t x :
  leaves (tx_operation_id t) x -> live_ok granted log t -> live_ok granted (log ++ [x]) t.
Proof.
  intros [Hc Hr] (Ha & Hg & H1 & H2 & H3). unfold live_ok. rewrite !count_snoc, Hc, Hr. cbn [Nat.b2n].
  rewrite !Nat.add_0_r. split_and!; [by apply admitted_snoc|done|done|done|].
  intros Hs. destruct (H3 Hs). split; [by apply consent_snoc|done].
Qed.

(** The parts of the invariant that follow when the entry leaves everything. *)
Lemma inv_silent granted log e c r e' :
  session_inv granted log e -> silent r -> granted_profiles e' = granted_profiles e ->
  seen e ⊆ seen e' ->
  (forall t, live e' = Some t -> tx_operation_id t ∈ seen e' /\ live_ok granted (log ++ [(c, r)]) t) ->
  session_inv granted (log ++ [(c, r)]) e'.
Proof.
  intros [Hg Hu Ho Hl] Hs Hg' Hse Hl'. constructor.
  - congruence.
  - intros id Hid. rewrite !count_snoc. destruct (Hs c id) as [-> ->]. destruct (Hu id) as [-> ->]; [set_solver|done].
  - intros id. rewrite !count_snoc. destruct (Hs c id) as [-> ->]. specialize (Ho id). cbn. lia.
  - exact Hl'.
Qed.

Lemma inv_step granted log e c r e' :
  session_inv granted log e -> effect e c r e' -> session_inv granted (log ++ [(c, r)]) e'.
Proof.
  intros Hi He. pose proof Hi as [Hg Hu Ho Hl].
  destruct He as [c r Hs|c r id Hs|c m Hm|rq Hrq Hp|t now max Ht Hst Hcon|c t op Ht Hst
    |t ap now max dl Ht Hst Hap Hdl Hb Hn|c t m Ht Hst Hm|c r t sg Ht Hs].
  - apply (inv_silent _ _ e); try done. intros t Ht. destruct (Hl t Ht). split; [done|].
    apply live_ok_snoc; [by apply silent_leaves|done].
  - apply (inv_silent _ _ e); try done; cbn; [set_solver|]. intros t Ht.
    destruct (Hl t Ht). split; [set_solver|].
    apply live_ok_snoc; [by apply silent_leaves|done].
  - constructor; cbn; [done|..].
    + intros id Hid. rewrite !count_snoc. cbn. rewrite bool_decide_eq_false_2 by set_solver.
      destruct (Hu id) as [-> ->]; [set_solver|done].
    + intros id. rewrite !count_snoc. cbn. specialize (Ho id). case_bool_decide; cbn; [|lia].
      subst. destruct (Hu _ Hm) as [-> ->]. lia.
    + intros t Ht. destruct (Hl t Ht). split; [set_solver|]. apply live_ok_snoc; [|done].
      split; [done|]. cbn. apply bool_decide_eq_false_2. congruence.
  - apply (inv_silent _ _ e); try done; cbn; [set_solver|]. intros t [= <-].
    split; [set_solver|]. destruct (Hu _ Hrq) as [Hc Hr]. unfold live_ok, tx_operation_id. cbn [prepare request stage].
    rewrite !count_snoc, Hc, Hr. split_and!; try done; [|congruence].
    apply in_app_iff. right. by left.
  - apply (inv_silent _ _ e); try done. intros t' [= <-]. destruct (Hl t Ht) as [Hse (Ha & Hg' & H1 & H2 & H3)].
    split; [done|]. unfold live_ok, tx_operation_id. cbn [set_stage request stage]. rewrite !count_snoc. cbn.
    rewrite !Nat.add_0_r. split_and!; [by apply admitted_snoc|done| | |].
    + intros _. apply H1. congruence.
    + intros _. apply H2. by left.
    + intros _. split; [|done]. exists now, max. apply in_app_iff. right. by left.
  - apply (inv_silent _ _ e); try done. intros t' [= <-]. destruct (Hl t Ht) as [Hse (Ha & Hg' & H1 & H2 & H3)].
    split; [done|]. unfold live_ok, tx_operation_id. cbn [set_stage request stage]. rewrite !count_snoc. cbn.
    rewrite !Nat.add_0_r. split_and!; [by apply admitted_snoc|done| | |done].
    + intros _. apply H1. congruence.
    + intros _. apply H2. by left.
  - destruct (Hl t Ht) as [Hse (Ha & Hg' & H1 & H2 & H3)]. constructor; cbn; [done|..].
    + intros id Hid. rewrite !count_snoc. cbn. rewrite bool_decide_eq_false_2 by set_solver.
      destruct (Hu id) as [-> ->]; [set_solver|done].
    + intros id. rewrite !count_snoc. cbn. specialize (Ho id). case_bool_decide; cbn; [|lia].
      subst. rewrite H2 by auto. lia.
    + intros t' [= <-]. split; [done|]. unfold live_ok, tx_operation_id. cbn [set_stage request stage].
      rewrite !count_snoc. cbn. rewrite !Nat.add_0_r.
      split_and!; [by apply admitted_snoc|done| |naive_solver|done].
      intros _. apply H1. congruence.
  - destruct (Hl t Ht) as [Hse (Ha & Hg' & H1 & H2 & H3)]. constructor; cbn; [done|..].
    + intros id Hid. rewrite !count_snoc. cbn. rewrite bool_decide_eq_false_2 by (rewrite Hm; set_solver).
      destruct (Hu id) as [-> ->]; [set_solver|done].
    + intros id. rewrite !count_snoc. cbn. specialize (Ho id). case_bool_decide; cbn; [|lia].
      subst. rewrite Hm in Ho |- *. rewrite H1 by done. lia.
    + intros t' [= <-]. split; [done|]. unfold live_ok, tx_operation_id. cbn [set_stage request stage].
      split_and!; [by apply admitted_snoc|done|done|naive_solver|done].
  - apply (inv_silent _ _ e); try done. intros t' [= <-]. destruct (Hl t Ht) as [Hse Hok].
    split; [done|].
    apply (live_ok_snoc granted log t); [by apply silent_leaves|done].
Qed.

Lemma inv_new granted : session_inv granted [] (proxy_new granted).
Proof. constructor; [done|done|cbn; lia|done]. Qed.

Lemma session_invariant granted log e : session granted log e -> session_inv granted log e.
Proof.
  induction 1 as [|log e c r e' _ IH Hp]; [apply inv_new|].
  eapply inv_step; [done|]. by apply perform_effect.
Qed.

Lemma command_authorized granted log e c id op e' :
  session_inv granted log e -> effect e c (Ok (Some (ExecuteCardCommand id op))) e' ->
  authorized granted log c id op.
Proof.
  intros [_ _ _ Hl] He. inversion He as [? ? Hs|? ? ? Hs| | | | |t ap now max dl Ht Hst Hap Hdl Hb Hn| |? ? ? ? ? Hs]; subst;
    try (destruct (Hs (PC_Expire 0 0) id) as [Hc _]; cbn in Hc; by rewrite bool_decide_eq_true_2 in Hc).
  destruct (Hl t Ht) as [_ (Ha & Hg & H1 & _ & H3)]. destruct (H3 Hst) as [Hask Hcon].
  exists (request t), ap, now, max, dl. split_and!; try done; try lia. apply H1. congruence.
Qed.

(** An entry of a session was made in a session of what came before it. *)
Lemma session_split granted log e :
  session granted log e -> forall pre x post, log = pre ++ x :: post ->
  exists e0 e1, session granted pre e0 /\ perform x.1 e0 = (x.2, e1).
Proof.
  induction 1 as [|log e c r e' Hs IH Hp]; intros pre x post E; [by destruct pre|].
  destruct post as [|y post _] using rev_ind.
  - apply app_inj_tail in E as [-> <-]. by exists e, e'.
  - rewrite app_comm_cons, app_assoc in E. apply app_inj_tail in E as [-> _]. by eapply IH.
Qed.

(** *** What holds of a requester's session *)

Lemma read_answer_dispatch m q id a :
  read_answer m q = Ok (RD_Completed id a) ->
  id = res_operation_id m /\ result_matches_operation a (operation q) = true.
Proof.
  unfold read_answer. destruct (validate_for m _ (operation q)) as [[]|] eqn:Ev; [|done].
  destruct (res_status m), (res_response m) as [f|] eqn:Er, (res_error m); try done.
  destruct (typed_for f (operation q)) as [b|] eqn:Et; [|done]. intros [= <- <-]. split; [done|].
  unfold validate_for in Ev. rewrite Er, Et in Ev. repeat (case_match_in Ev; [done|]). cbn [rbind] in Ev.
  case_match_in Ev; [done|]. by to_prop.
Qed.

Lemma read_answer_ends m q c id :
  (forall j, c <> RC_Cancel j) ->
  ends id (c, rmap RR_Dispatch (read_answer m q)) = true -> id = res_operation_id m.
Proof.
  intros Hc. unfold read_answer, invalid_result.
  destruct (validate_for m _ (operation q)) as [[]|]; [|by destruct c].
  destruct (res_status m), (res_response m) as [f|], (res_error m); try (by destruct c);
    try (destruct (typed_for f (operation q))); destruct c; try done; cbn;
    intros H%bool_decide_eq_true; done.
Qed.

Lemma requester_quiet e (c : requester_call) (r : result RequesterEngineError requester_reply) :
  match c, r with
  | _, Err _ => true
  | RC_Receive _, Ok (RR_Dispatch (RD_Completed _ _ | RD_Ended _ _ _ | RD_Refused _ _)) => false
  | RC_Receive _, Ok (RR_Dispatch _) => true
  | _, _ => false
  end = true -> r_effect e c r e.
Proof. intros H. constructor. intros id. by destruct c, r as [[| |[]]|]. Qed.

Lemma requester_receive_effect m e r e' :
  r_perform (RC_Receive m) e = (r, e') -> r_effect e (RC_Receive m) r e'.
Proof.
  cbn [r_perform]. unfold ebind, requester_receive, receive_error, live_id.
  destruct m as [| | | | | | | | |rq|rf|result|p|s|err]; try (intros [= <- <-]; by apply requester_quiet).
  - destruct (r_live e) as [q|] eqn:El; [|intros [= <- <-]; by apply requester_quiet].
    case_bool_decide as Hid; [|intros [= <- <-]; by apply requester_quiet].
    intros H. assert (r = rmap RR_Dispatch (read_answer result q) /\ e' = MkRequester None (used e)) as [-> ->].
    { destruct (read_answer result q); injection H as <- <-; done. }
    apply (r_effect_end e _ _ q); [done| |].
    + intros id. split; [by destruct (read_answer result q)|].
      rewrite Hid. by apply read_answer_ends.
    + intros id a Ha. destruct (read_answer result q) as [d|] eqn:Ed; [|done]. cbn in Ha.
      injection Ha as ->. apply read_answer_dispatch in Ed as [-> Hm]. by rewrite Hid.
  - intros [= <- <-]. case_bool_decide; by apply requester_quiet.
  - destruct (error_operation_id err) as [id|]; [|intros [= <- <-]; by apply requester_quiet].
    case_bool_decide as Hid; [|intros [= <- <-]; by apply requester_quiet].
    intros [= <- <-]. destruct (r_live e) as [q|] eqn:El; [|done]. injection Hid as <-.
    apply (r_effect_end e _ _ q); [done| |done].
    intros id. split; [done|]. by intros <-%bool_decide_eq_true.
Qed.

Lemma r_perform_effect c e r e' : r_perform c e = (r, e') -> r_effect e c r e'.
Proof.
  destruct c as [q|id|m]; [| |apply requester_receive_effect]; cbn [r_perform]; unfold ebind.
  - unfold begin_. destruct (r_live e) eqn:El; [intros [= <- <-]; by apply requester_quiet|].
    case_bool_decide; [intros [= <- <-]; by apply requester_quiet|].
    destruct (validate_request q) as [[]|] eqn:Ev; intros [= <- <-]; [by constructor|by apply requester_quiet].
  - unfold cancel, live_id. case_bool_decide as Hid; intros [= <- <-]; [|by apply requester_quiet].
    destruct (r_live e) as [q|] eqn:El; [|done]. injection Hid as <-.
    apply (r_effect_end e _ _ q); [done| |done]. intros id. split; [done|]. by intros <-%bool_decide_eq_true.
Qed.

Definition pending (log : list r_entry) (q : OperationRequest) : Prop :=
  In (RC_Begin q, Ok (RR_Send (T_OperationRequest q))) log /\ validate_request q = Ok tt /\
  r_count (ends (operation_id q)) log = 0%nat.

Record r_session_inv (log : list r_entry) (e : RequesterOperationEngine) : Prop := {
  r_inv_unused id : id ∉ used e -> r_count (begins id) log = 0%nat /\ r_count (ends id) log = 0%nat;
  r_inv_once id : (r_count (ends id) log <= r_count (begins id) log <= 1)%nat;
  r_inv_live q : r_live e = Some q -> operation_id q ∈ used e /\ pending log q }.

Lemma r_count_snoc f log x : r_count f (log ++ [x]) = (r_count f log + Nat.b2n (f x))%nat.
Proof. unfold r_count. rewrite List.filter_app, length_app. cbn. by destruct (f x). Qed.

Lemma r_inv_step log e c r e' :
  r_session_inv log e -> r_effect e c r e' -> r_session_inv (log ++ [(c, r)]) e'.
Proof.
  intros [Hu Ho Hl] He. destruct He as [c r Hs|q Hn Hq Hv|c r q Hq Hs Ha].
  - constructor.
    + intros id Hid. rewrite !r_count_snoc. destruct (Hs id) as [-> ->]. destruct (Hu id Hid) as [-> ->]. done.
    + intros id. rewrite !r_count_snoc. destruct (Hs id) as [-> ->]. specialize (Ho id). cbn. lia.
    + intros q Hq. destruct (Hl q Hq) as [? (H1 & H2 & H3)]. unfold pending. rewrite r_count_snoc.
      destruct (Hs (operation_id q)) as [_ ->]. rewrite H3. split_and!; try done. apply in_app_iff. by left.
  - destruct (Hu _ Hq) as [Hb He]. constructor; cbn [used r_live].
    + intros id Hid. rewrite !r_count_snoc. cbn. rewrite bool_decide_eq_false_2 by set_solver.
      destruct (Hu id) as [-> ->]; [set_solver|done].
    + intros id. rewrite !r_count_snoc. cbn. specialize (Ho id). case_bool_decide; cbn; [subst; lia|lia].
    + intros q' [= <-]. split; [set_solver|]. unfold pending. rewrite r_count_snoc, He.
      split_and!; try done. apply in_app_iff. right. by left.
  - destruct (Hl q Hq) as [Hin (Hbeg & _ & Hend)]. constructor; cbn [used r_live]; [| |done].
    + intros id Hid. rewrite !r_count_snoc. destruct (Hs id) as [-> He]. destruct (Hu id Hid) as [-> ->].
      destruct (ends id (c, r)); [|done]. rewrite He in Hid by done. done.
    + intros id. rewrite !r_count_snoc. destruct (Hs id) as [-> He]. specialize (Ho id).
      destruct (ends id (c, r)); cbn [Nat.b2n]; [|lia]. rewrite He in Ho |- * by done. rewrite Hend.
      assert (0 < r_count (begins (operation_id q)) log)%nat; [|lia].
      apply in_split in Hbeg as (l1 & l2 & ->). unfold r_count. rewrite List.filter_app, length_app. cbn.
      rewrite bool_decide_eq_true_2 by done. cbn. lia.
Qed.

Lemma r_session_invariant log e : r_session log e -> r_session_inv log e.
Proof.
  induction 1 as [|log e c r e' _ IH Hp].
  - constructor; [done|cbn; lia|done].
  - eapply r_inv_step; [done|]. by apply r_perform_effect.
Qed.

Lemma r_session_split log e :
  r_session log e -> forall pre x post, log = pre ++ x :: post ->
  exists e0 e1, r_session pre e0 /\ r_perform x.1 e0 = (x.2, e1).
Proof.
  induction 1 as [|log e c r e' Hs IH Hp]; intros pre x post E; [by destruct pre|].
  destruct post as [|y post _] using rev_ind.
  - apply app_inj_tail in E as [-> <-]. by exists e, e'.
  - rewrite app_comm_cons, app_assoc in E. apply app_inj_tail in E as [-> _]. by eapply IH.
Qed.

(** *** One operation across the wire *)

Lemma decoded_encoded sid seq start m m' bs :
  message_ok start m' -> to_wire_body m = to_wire_body m' -> typed_message_type m = typed_message_type m' ->
  typed m -> len sid = Wire.SESSION_ID_SIZE -> is_u64 seq ->
  encoded sid seq m = Some bs -> decoded bs start = Some m'.
Proof.
  intros Ho Hb Ht Hw Hsid Hseq. unfold encoded, decoded, typed, Wire.Envelope_reconstruct in *. rewrite Hb, Ht in *.
  destruct (to_wire_body m') as [body|] eqn:Eb; [|done]. pose proof (message_fits_schema start m' body Ho Eb) as Hf.
  rewrite Hf. cbn [rbind]. destruct (Wire.Envelope_encode _) as [bs'|] eqn:Ee; [|done]. intros [= ->].
  assert (Hd : Wire.Envelope_decode bs = Ok (Wire.mkEnvelope (typed_message_type m') sid seq body)).
  { apply Wire.envelope_decode_encode; [|done]. split_and!; [exact Hsid|exact Hseq|exact (Hw _ eq_refl)|exact Hf]. }
  rewrite Hd.
  by rewrite (message_reads start m' body).
Qed.

Lemma completed_valid id op a :
  answers op a -> result_matches_operation a op = true ->
  validate_for (result_completed id a) id op = Ok tt.
Proof.
  intros Ha Hm. unfold validate_for, result_completed. cbn [res_operation_id res_response].
  rewrite bool_decide_eq_true_2 by done. cbn. rewrite typed_for_complete by done. cbn. by rewrite Hm.
Qed.

Lemma performs_app cs ds e :
  performs (cs ++ ds) e =
  let '(rs, e1) := performs cs e in let '(rs', e2) := performs ds e1 in (rs ++ rs', e2).
Proof.
  revert e. induction cs as [|c cs IH]; intros e; cbn; [by destruct (performs ds e)|].
  destruct (perform c e) as [r e1]. rewrite IH. destruct (performs cs e1) as [rs e2].
  by destruct (performs ds e2).
Qed.

(** The custodian with operation [t] in hand. *)
Lemma live_mut_at {A} (m : step A) e t :
  live e = Some t ->
  live_mut (tx_operation_id t) m e =
  (map_err (fun _ => InvalidLocalTransition) (m t).1, set_live (Some (m t).2) e).
Proof.
  intros Hl. unfold live_mut. rewrite Hl, bool_decide_eq_true_2 by done. by destruct (m t).
Qed.

Lemma records_run e t total l :
  live e = Some t -> stage t = Executing -> batch_total (operation (request t)) = Some total ->
  existsb is_empty l = false -> len (batch_signatures t) + len l <= total ->
  performs (map (PC_Record (tx_operation_id t)) l) e =
  (map (fun _ => Ok None) l, set_live (Some (MkTransaction (request t) (stage t) (batch_signatures t ++ l))) e).
Proof.
  revert e t. induction l as [|x l IH]; intros e t Hl Hst Ht He Hlen.
  - cbn. rewrite app_nil_r, live_same; [done|]. rewrite Hl. by destruct t.
  - cbn [existsb] in He. to_prop. rewrite len_cons in Hlen. pose proof (len_nonneg l).
    cbn [map performs perform]. unfold ebind, record_batch_signature.
    rewrite live_mut_at by done. unfold tx_record_batch_signature.
    rewrite Ht, Hst, bool_decide_eq_true_2 by done. cbn [negb].
    destruct (_ >=? _) eqn:Hge; [lia|]. match goal with H : is_empty x = false |- _ => rewrite H end.
    cbn [orb fst snd map_err eret].
    set (t1 := MkTransaction (request t) Executing (batch_signatures t ++ [x])).
    assert (len (batch_signatures t1) + len l <= total) as Hlen1.
    { cbn. rewrite len_app, len_cons. unfold len at 2. cbn. lia. }
    assert (IH1 := IH (set_live (Some t1) e) t1 eq_refl eq_refl Ht ltac:(done) Hlen1).
    change (tx_operation_id t1) with (tx_operation_id t) in IH1. rewrite IH1.
    cbn [t1 batch_signatures request stage]. unfold set_live. cbn. by rewrite <- app_assoc.
Qed.

Lemma card_answer_runs e t a :
  live e = Some t -> stage t = Executing -> batch_signatures t = [] ->
  is_consequential (operation (request t)) = true ->
  answers (operation (request t)) a -> result_matches_operation a (operation (request t)) = true ->
  (performs (card_calls (tx_operation_id t) a) e).1 = card_replies (tx_operation_id t) a.
Proof.
  intros Hl Hst Hb Hc Ha Hm. assert (Hv := completed_valid (tx_operation_id t) _ _ Ha Hm).
  unfold card_calls, card_replies. destruct a as [| | |sig|l]; try by destruct (operation (request t)).
  - cbn [performs perform]. unfold some_of, ebind, proxy_finish_completed, ebind.
    rewrite live_mut_at by done. unfold tx_finish_completed, is_executing. rewrite Hst. cbn [negb].
    rewrite bool_decide_eq_true_2 by done. cbn [negb]. unfold tx_operation_id in Hv |- *. rewrite Hv.
    unfold batch_answered. by destruct (operation (request t)).
  - destruct (batch_total (operation (request t))) as [total|] eqn:Et; [|by destruct (operation (request t))].
    assert (len l = total /\ existsb is_empty l = false) as [Hlen Hne].
    { destruct (operation (request t)); try done. cbn in Et, Hm, Ha. injection Et as <-. to_prop. done. }
    rewrite performs_app, (records_run e t total) by (rewrite ?Hb; cbn; done || (rewrite Hlen; unfold len; cbn; lia)).
    cbn [performs perform]. unfold some_of, complete_batch, live_ref, proxy_finish_completed, ebind.
    set (t1 := MkTransaction (request t) (stage t) (batch_signatures t ++ l)).
    change (tx_operation_id t) with (tx_operation_id t1). rewrite live_mut_at by done.
    cbn [fst snd map_err]. rewrite live_mut_at by done. unfold tx_finish_completed, is_executing.
    subst t1. cbn [stage request batch_signatures]. rewrite Hst, Hb. cbn [negb app].
    rewrite bool_decide_eq_true_2 by done. cbn [negb]. unfold tx_operation_id in Hv. cbn [request].
    unfold tx_operation_id. cbn [request]. rewrite Hv. unfold batch_answered. cbn [request batch_signatures].
    rewrite Et, Hlen, Z.eqb_refl. cbn [res_response result_completed]. rewrite typed_for_complete by done.
    cbn. by rewrite bool_decide_eq_true_2.
Qed.

(** A custodian that can take operation [r] on. *)
Definition can_admit (p : ProxyOperationEngine) (r : OperationRequest) : Prop :=
  operation_id r ∉ seen p /\ (size (seen p) < MAX_SEEN_OPERATION_IDS)%nat /\
  profile r ∈ granted_profiles p /\
  match live p with Some t => stage t = Terminal | None => True end.

Lemma admits p r :
  can_admit p r ->
  perform (PC_Receive (T_OperationRequest r)) p =
  (Ok (Some (InspectPrerequisites (operation_id r))),
   MkProxy (granted_profiles p) (Some (prepare r)) ({[operation_id r]} ∪ seen p)).
Proof.
  intros (Hs & Hn & Hg & Hl). cbn [perform proxy_receive].
  unfold some_of, ebind, receive_request, ebind, admission_refusal.
  rewrite bool_decide_eq_false_2 by done. destruct (_ <=? _)%nat eqn:Hle; [apply Nat.leb_le in Hle; lia|].
  cbn [set_seen live]. replace (match live p with Some t => negb (is_terminal t) | None => false end) with false.
  2: { destruct (live p) as [t|]; [|done]. unfold is_terminal. by rewrite bool_decide_eq_true_2. }
  by rewrite bool_decide_eq_true_2.
Qed.

(** The deadline of a request read at [start]. *)
Definition deadline_at (start : Z) (r : OperationRequest) (maximum_lifetime_ms : Z) : Z :=
  saturating_add U64_MAX start (Z.min (expires_after_ms r) maximum_lifetime_ms).

Lemma deadline_of start r max :
  validate_request r = Ok tt -> 0 < max ->
  local_deadline_ms (received_at start r) max = Ok (deadline_at start r max).
Proof.
  intros Hv Hm. unfold local_deadline_ms.
  change (validate_request (received_at start r)) with (validate_request r). rewrite Hv.
  cbn [rbind]. by rewrite (proj2 (Z.eqb_neq max 0)) by lia.
Qed.

Lemma consents e t now max :
  live e = Some t -> stage t = Requested -> is_consequential (operation (request t)) = true ->
  is_expired t now max = false ->
  perform (PC_Prerequisites (tx_operation_id t) now max) e =
  (Ok (Some (AwaitConsent (tx_operation_id t))), set_live (Some (set_stage AwaitingConsent t)) e).
Proof.
  intros Hl Hst Hc He. cbn [perform]. unfold some_of, prerequisites_complete, live_ref, ebind.
  rewrite live_mut_at by done. cbn [fst snd map_err]. rewrite He, andb_false_r, live_same, live_mut_at by done.
  unfold tx_prerequisites_complete. by rewrite Hst, bool_decide_eq_true_2, Hc.
Qed.

Lemma approves e t at_ms now max deadline :
  live e = Some t -> stage t = AwaitingConsent -> local_deadline_ms (request t) max = Ok deadline ->
  local_start_ms (request t) <= at_ms <= deadline -> now <= deadline ->
  perform (PC_Approve (tx_operation_id t) (for_request (request t) at_ms) now max) e =
  (Ok (Some (ExecuteCardCommand (tx_operation_id t) (operation (request t)))),
   set_live (Some (set_stage Executing t)) e).
Proof.
  intros Hl Hst Hd Ha Hn. cbn [perform]. unfold some_of, approve, live_ref, ebind.
  rewrite live_mut_at by done. cbn [fst snd map_err].
  replace (is_expired t now max) with false by (unfold is_expired; rewrite Hd; lia).
  rewrite andb_false_r, live_same, live_mut_at by done. unfold tx_approve.
  rewrite Hst, bool_decide_eq_true_2 by done. cbn [negb]. rewrite bool_decide_eq_true_2 by done. cbn [negb].
  rewrite Hd. cbn [approved_at_ms for_request].
  destruct ((_ <? _) || _ || _) eqn:Hb; [|done]. to_prop. lia.
Qed.

(** ** Properties *)


(** In every session of the requester, an operation identifier is put on the
    wire at most once and ends at most once, never before it was begun, whether
    it is cancelled, refused, ended or completed; and an answer reported as
    completed is of the kind its request asked for, a valid request that was
    begun in this session and had not ended. *)
Theorem requester_answers_once log e :
  r_session log e ->
  (forall id, (r_count (ends id) log <= r_count (begins id) log <= 1)%nat) /\
  forall pre c id a post,
    log = pre ++ (c, Ok (RR_Dispatch (RD_Completed id a))) :: post -> answered pre id a.
Proof.
  intros Hs. split; [apply (r_session_invariant _ _ Hs)|].
  intros pre c id a post E. destruct (r_session_split _ _ Hs _ _ _ E) as (e0 & e1 & Hs0 & Hp).
  apply r_perform_effect in Hp. destruct (r_session_invariant _ _ Hs0) as [_ _ Hl].
  inversion Hp as [? ? Hq| |? ? q Hq _ Ha]; subst.
  - destruct (Hq id) as [_ Hf]. by destruct c; cbn in Hf; rewrite bool_decide_eq_true_2 in Hf.
  - destruct (Ha id a eq_refl) as [-> Hm]. destruct (Hl q Hq) as [_ (H1 & H2 & H3)]. by exists q.
Qed.

(** C6 A consequential operation whose two messages fit their frames runs to its
    answer.  A valid request begun at the requester, encoded in its envelope, is
    decoded by the custodian as it was sent, with the custodian's clock; a
    custodian that has room for it asks for its prerequisites, then for
    consent, and on the user's approval before the deadline hands out exactly the
    requested card command; once the card's answer is handed back, signature by
    signature for a batch, the one result sent, encoded in its envelope, is
    decoded by the requester as that answer to that operation. *)
Theorem operation_served_end_to_end (r : OperationRequest) (a : CardOperationResult)
    (q : RequesterOperationEngine) (p : ProxyOperationEngine) (sid : bytes)
    (n1 n2 start start' inspected approved now max : Z) (frame1 frame2 : bytes) :
  let id := operation_id r in
  let r' := received_at start r in
  let answer := T_OperationResult (result_completed id a) in
  request_ok r -> validate_request r = Ok tt -> is_consequential (operation r) = true ->
  answers (operation r) a -> result_matches_operation a (operation r) = true ->
  r_live q = None -> id ∉ used q -> can_admit p r -> 0 < max ->
  inspected <= deadline_at start r max -> start <= approved <= deadline_at start r max ->
  now <= deadline_at start r max ->
  typed (T_OperationRequest r) -> typed answer -> len sid = Wire.SESSION_ID_SIZE -> is_u64 n1 -> is_u64 n2 ->
  encoded sid n1 (T_OperationRequest r) = Some frame1 -> encoded sid n2 answer = Some frame2 ->
  exists q1 q2,
    begin_ r q = (Ok (T_OperationRequest r), q1) /\
    decoded frame1 start = Some (T_OperationRequest r') /\
    (performs ([PC_Receive (T_OperationRequest r'); PC_Prerequisites id inspected max;
                PC_Approve id (for_request r' approved) now max] ++ card_calls id a) p).1 =
      [Ok (Some (InspectPrerequisites id)); Ok (Some (AwaitConsent id));
       Ok (Some (ExecuteCardCommand id (operation r)))] ++ card_replies id a /\
    decoded frame2 start' = Some answer /\
    requester_receive answer q1 = (Ok (RD_Completed id a), q2) /\ r_live q2 = None.
Proof.
  intros id r' answer Hok Hv Hc Ha Hm Hq Hu Hp Hmax Hi Hap Hn Ht1 Ht2 Hsid Hn1 Hn2 Hf1 Hf2.
  exists (MkRequester (Some r) ({[id]} ∪ used q)), (MkRequester None ({[id]} ∪ used q)).
  assert (Hd := deadline_of start r max Hv Hmax). change (received_at start r) with r' in Hd.
  split_and!; [| by apply (decoded_encoded sid n1 start (T_OperationRequest r)) | | | | done].
  - unfold begin_. by rewrite Hq, bool_decide_eq_false_2, Hv.
  - cbn [app performs]. change (operation_id r) with (operation_id r').
    rewrite (admits p r') by exact Hp. set (e1 := MkProxy _ _ _).
    change id with (tx_operation_id (prepare r')). rewrite (consents e1 (prepare r')) by
      (try done; unfold is_expired; change (request (prepare r')) with r'; rewrite Hd; lia).
    set (e2 := set_live _ e1). set (t2 := set_stage _ _) in e2.
    change (tx_operation_id (prepare r')) with (tx_operation_id t2). change r' with (request t2).
    rewrite (approves e2 t2 approved now max (deadline_at start r max)) by done.
    set (t3 := set_stage Executing t2). change (tx_operation_id t2) with (tx_operation_id t3).
    pose proof (card_answer_runs (set_live (Some t3) e2) t3 a eq_refl eq_refl eq_refl Hc Ha Hm) as Hr.
    destruct (performs (card_calls (tx_operation_id t3) a) (set_live (Some t3) e2)) as [rs e3].
    cbn in Hr |- *. by rewrite Hr.
  - apply (decoded_encoded sid n2 start' answer answer); try done. apply Hok.
  - cbn [requester_receive answer r_live]. rewrite bool_decide_eq_true_2 by done. unfold read_answer.
    cbn [res_operation_id result_completed]. rewrite completed_valid by done.
    cbn [res_status res_response res_error result_completed]. by rewrite typed_for_complete.
Qed.

(** A session in which a document is signed. *)
Definition sample_custodian : ProxyOperationEngine := proxy_new [DocumentSigning].
Definition sample_calls : list proxy_call :=
  [PC_Receive (T_OperationRequest sample_request); PC_Prerequisites sample_id 6 60000;
   PC_Approve sample_id (for_request sample_request 7) 8 60000]
  ++ card_calls sample_id (Signature (repeat 2 96)).

Lemma performs_session granted log cs e :
  session granted log e ->
  session granted (log ++ zip cs (performs cs e).1) (performs cs e).2.
Proof.
  revert log e. induction cs as [|c cs IH]; intros log e Hs; cbn [performs]; [by rewrite app_nil_r|].
  destruct (perform c e) as [r e1] eqn:Ep. specialize (IH (log ++ [(c, r)]) e1 (session_call _ _ _ _ _ _ Hs Ep)).
  destruct (performs cs e1) as [rs e2]. by rewrite <- app_assoc in IH.
Qed.


Lemma requester_answers_once_witness :
  exists log e, r_session log e /\ r_count (ends sample_id) log = 1%nat /\
    forall id, (r_count (ends id) log <= r_count (begins id) log <= 1)%nat.
Proof.
  assert (r_session ([] ++ [(RC_Begin sample_request, Ok (RR_Send (T_OperationRequest sample_request)))])
    (r_perform (RC_Begin sample_request) requester_new).2) as H1.
  { eapply r_session_call; [constructor|]. vm_compute. reflexivity. }
  eassert (H2 := r_session_call _ _ (RC_Receive (T_OperationResult
    (result_completed sample_id (Signature (repeat 2 96))))) _ _ H1 (surjective_pairing _)).
  eexists _, _. split; [exact H2|]. split; [vm_compute; reflexivity|].
  exact (proj1 (requester_answers_once _ _ H2)).
Defined.

Definition sample_answer : TypedMessage :=
  T_OperationResult (result_completed sample_id (Signature (repeat 2 96))).
Definition sample_frame (m : TypedMessage) : bytes := default [] (encoded (repeat 0 16) 0 m).

Lemma sample_request_typed : typed (T_OperationRequest sample_request).
Proof. intros body Hb. assert (body = request_wire_body sample_request) as -> by (vm_compute in Hb; by injection Hb as <-).
  apply sample_request_wf. Qed.

Lemma sample_answer_typed : typed sample_answer.
Proof. intros body Hb. vm_compute in Hb. injection Hb as <-. repeat first [constructor | split | reflexivity | done]. Qed.

Lemma operation_served_end_to_end_witness :
  decoded (sample_frame (T_OperationRequest sample_request)) 5 = Some (T_OperationRequest sample_request) /\
  exists q, (requester_receive sample_answer q).1 = Ok (RD_Completed sample_id (Signature (repeat 2 96))).
Proof.
  destruct (operation_served_end_to_end sample_request (Signature (repeat 2 96)) requester_new
    sample_custodian (repeat 0 16) 0 0 5 9 6 7 8 60000 (sample_frame (T_OperationRequest sample_request))
    (sample_frame sample_answer)) as (q1 & q2 & _ & Hd & _ & _ & H & _).
  - split; reflexivity.
  - vm_compute. reflexivity.
  - done.
  - done.
  - done.
  - done.
  - by apply not_elem_of_empty.
  - split_and!; [by apply not_elem_of_empty|vm_compute; lia|by left|done].
  - done.
  - vm_compute. discriminate.
  - vm_compute. split; discriminate.
  - vm_compute. discriminate.
  - exact sample_request_typed.
  - exact sample_answer_typed.
  - reflexivity.
  - split; vm_compute; discriminate.
  - split; vm_compute; discriminate.
  - vm_compute. reflexivity.
  - vm_compute. reflexivity.
  - split; [exact Hd|]. exists q1. exact (f_equal fst H).
Defined.

End Engines.
