(* ===== verification/RappPairRecord.v ===== *)
(** * Pair records of the remote card protocol

    crates/rapp/src/pairing.rs: the long-term record of a pairing, its stored
    form, and the operations that change it.  A change is encoded and handed to
    the device-only store before it is made; the store is a computation on a
    state of its own, and [AtomicStore] states what the source asks of it.

    The theorems: the stored forms accepted are exactly those of valid records;
    whatever the store does, the record in memory is the record a restart would
    read; a pairing expires exactly when no session was established for thirty
    days. *)

From stdpp Require Import base list strings option sorting.
From Stdlib Require Import ZArith Lia.
From S2P Require Import Prelude RappState RappCbor RappWire RappOperation RappMessage.

Module PairRecord.
Import Cbor Wire Op Msg.
#[local] Existing Instance RappState.EndpointRole_eq_dec.

(** ** Data *)

Definition X25519_KEY_SIZE : Z := 32.
Definition PAIR_RECORD_FORMAT_VERSION : Z * Z * Z := (26, 11, 2).

Definition pair_record_format_value : WireValue :=
  let '(year, month, day) := PAIR_RECORD_FORMAT_VERSION in
  Array [Unsigned year; Unsigned month; Unsigned day].

Record PairRecord := MkRecord {
  pair_id : bytes; role : RappState.EndpointRole;
  local_static_private : bytes; local_static_public : bytes; remote_static_public : bytes;
  record_grants_hash : bytes; profiles : list ProfileName; peer_display_name : DisplayName;
  created_at_ms : Z; storage_confirmed : bool;
  forgotten_at_ms : option Z; last_session_at_ms : option Z }.

Definition REVOCATION_ATTEMPT_BOUND_MS : Z := 10000.
Definition REVOCATION_NOTICE_DAYS : Z := 30.
Definition PAIRING_IDLE_EXPIRY_DAYS : Z := 30.
Definition MILLISECONDS_PER_DAY : Z := 86400000.
Definition REVOCATION_NOTICE_MS : Z := REVOCATION_NOTICE_DAYS * MILLISECONDS_PER_DAY.
Definition PAIRING_IDLE_EXPIRY_MS : Z := PAIRING_IDLE_EXPIRY_DAYS * MILLISECONDS_PER_DAY.

Inductive SweepOutcome := Recorded | Kept | Expired.

Inductive PairRecordError := InvalidStaticKey | NoNegotiatedProfiles.

Inductive PairRecordCodecError :=
  | InvalidInput
  | ProtocolFailure
  | UnsupportedVersion
  | InvalidRecord (e : PairRecordError).

Inductive RecordStoreError (E : Type) :=
  | Encoding (e : PairRecordCodecError)
  | Store (e : E).
Arguments Encoding {E} _.
Arguments Store {E} _.

Record SweepPlan := MkPlan {
  outcome : SweepOutcome; plan_last_session_at_ms : option Z; plan_forgotten_at_ms : option Z }.

Definition later_session (recorded_ms : option Z) (at_ms : Z) : Z :=
  match recorded_ms with
  | Some recorded_ms => if recorded_ms >=? at_ms then recorded_ms else at_ms
  | None => at_ms
  end.

(** ** The record *)

Definition all_zero (key : bytes) : bool := forallb (fun byte => byte =? 0) key.

Definition PairRecord_new (pair_id : bytes) (role : RappState.EndpointRole)
    (local_static_private local_static_public remote_static_public grants_hash : bytes)
    (profiles : list ProfileName) (peer_display_name : DisplayName) (created_at_ms : Z) :
  result PairRecordError PairRecord :=
  if all_zero local_static_private || all_zero local_static_public || all_zero remote_static_public
  then Err InvalidStaticKey
  else if is_empty profiles then Err NoNegotiatedProfiles
  else Ok (MkRecord pair_id role local_static_private local_static_public remote_static_public
             grants_hash profiles peer_display_name created_at_ms true None None).

Definition set_display_name (name : DisplayName) (r : PairRecord) : PairRecord :=
  MkRecord (pair_id r) (role r) (local_static_private r) (local_static_public r)
    (remote_static_public r) (record_grants_hash r) (profiles r) name (created_at_ms r)
    (storage_confirmed r) (forgotten_at_ms r) (last_session_at_ms r).
Definition set_confirmed (confirmed : bool) (r : PairRecord) : PairRecord :=
  MkRecord (pair_id r) (role r) (local_static_private r) (local_static_public r)
    (remote_static_public r) (record_grants_hash r) (profiles r) (peer_display_name r)
    (created_at_ms r) confirmed (forgotten_at_ms r) (last_session_at_ms r).
Definition set_times (forgotten last : option Z) (r : PairRecord) : PairRecord :=
  MkRecord (pair_id r) (role r) (local_static_private r) (local_static_public r)
    (remote_static_public r) (record_grants_hash r) (profiles r) (peer_display_name r)
    (created_at_ms r) (storage_confirmed r) forgotten last.

Definition awaiting_storage_confirmation (r : PairRecord) : PairRecord := set_confirmed false r.
Definition to_storage_confirmed (r : PairRecord) : PairRecord := set_confirmed true r.

Definition forgotten (at_ms : Z) (r : PairRecord) : PairRecord :=
  match forgotten_at_ms r with
  | None => set_times (Some at_ms) (last_session_at_ms r) r
  | Some _ => r
  end.

Definition with_session_at (at_ms : Z) (r : PairRecord) : PairRecord :=
  set_times (forgotten_at_ms r) (Some (later_session (last_session_at_ms r) at_ms)) r.

Definition revocation_notice_expired (r : PairRecord) (now_ms : Z) : bool :=
  match forgotten_at_ms r with
  | None => false
  | Some at_ms =>
      match role r with
      | RappState.Proxy => saturating_sub now_ms at_ms >=? REVOCATION_NOTICE_MS
      | RappState.Requester =>
          (now_ms <? at_ms) || (now_ms - at_ms >=? REVOCATION_ATTEMPT_BOUND_MS)
      end
  end.

Definition serving_profiles (r : PairRecord) : list ProfileName :=
  match forgotten_at_ms r with Some _ => [] | None => profiles r end.

(** ** The stored form *)

Definition PEER_DISPLAY_NAME_KEY : string := "peer_display_name".
Definition LOCAL_STATIC_PRIVATE_KEY : string := "local_static_private".

Definition role_name (r : RappState.EndpointRole) : string :=
  match r with RappState.Requester => "requester" | RappState.Proxy => "proxy" end.

Definition optional_unsigned (v : option Z) : WireValue :=
  match v with Some n => Unsigned n | None => Null end.

(** The map of [encode_with_times], with [key] in the place of the private key. *)
Definition record_map (key : bytes) (r : PairRecord) (forgotten last : option Z) : body_map :=
  insert "format_version" pair_record_format_value
    (insert "pair_id" (Bytes (pair_id r))
       (insert "role" (Text (utf8 (role_name (role r))))
          (insert LOCAL_STATIC_PRIVATE_KEY (Bytes key)
             (insert "local_static_public" (Bytes (local_static_public r))
                (insert "remote_static_public" (Bytes (remote_static_public r))
                   (insert "grants_hash" (Bytes (record_grants_hash r))
                      (insert "profiles"
                         (Array (map (fun p => Text (utf8 (ProfileName_as_str p))) (profiles r)))
                         (insert PEER_DISPLAY_NAME_KEY (Text (peer_display_name r))
                            (insert "created_at_ms" (Unsigned (created_at_ms r))
                               (insert "storage_confirmed" (VBool (storage_confirmed r))
                                  (insert "forgotten_at_ms" (optional_unsigned forgotten)
                                     (insert "last_session_at_ms" (optional_unsigned last)
                                        [])))))))))))).

(** The map is encoded once with the key's place held by zeros, to reserve the
    buffer, and then with the key. *)
Definition encode_with_times (r : PairRecord) (forgotten last : option Z) :
  result PairRecordCodecError bytes :=
  let value := record_map (repeat 0 (Z.to_nat X25519_KEY_SIZE)) r forgotten last in
  let? _ := map_err (fun _ => ProtocolFailure) (encode_deterministic_cbor (Map value)) in
  let value :=
    match map_get (utf8 LOCAL_STATIC_PRIVATE_KEY) value with
    | Some (Bytes _) => insert LOCAL_STATIC_PRIVATE_KEY (Bytes (local_static_private r)) value
    | _ => value
    end in
  map_err (fun _ => ProtocolFailure) (encode_deterministic_cbor (Map value)).

Definition encode_pair_record (r : PairRecord) : result PairRecordCodecError bytes :=
  encode_with_times r (forgotten_at_ms r) (last_session_at_ms r).

Abbreviation takes := (exec body_map PairRecordCodecError).

Definition take_value (key : string) : takes WireValue := take_as InvalidInput Some key.
Definition p_take_bytes (key : string) : takes bytes := take_as InvalidInput as_bytes key.
Definition take_key_array (n : Z) (key : string) : takes bytes :=
  do? bs <- p_take_bytes key ;;
  if len bs =? n then eret bs else efail InvalidInput.
Definition take_private_key : takes bytes :=
  do? decoded <- p_take_bytes LOCAL_STATIC_PRIVATE_KEY ;;
  if negb (len decoded =? X25519_KEY_SIZE) then efail InvalidInput else eret decoded.
Definition p_take_text (key : string) : takes bytes := take_as InvalidInput as_text key.
Definition p_take_unsigned (key : string) : takes Z := take_as InvalidInput as_unsigned key.

Definition as_optional_unsigned (v : WireValue) : option (option Z) :=
  match v with Null => Some None | Unsigned n => Some (Some n) | _ => None end.
Definition take_optional_unsigned (key : string) : takes (option Z) :=
  take_as InvalidInput as_optional_unsigned key.
Definition p_take_bool (key : string) : takes bool := take_as InvalidInput as_bool key.
Definition p_take_text_array (key : string) : takes (list bytes) :=
  do? values <- take_as InvalidInput as_array key ;;
  elift (collect (fun v => ok_or (as_text v) InvalidInput) values).

Definition expected_keys : list string :=
  ["format_version"; "pair_id"; "role"; LOCAL_STATIC_PRIVATE_KEY; "local_static_public";
   "remote_static_public"; "grants_hash"; "profiles"; PEER_DISPLAY_NAME_KEY; "created_at_ms";
   "storage_confirmed"; "forgotten_at_ms"; "last_session_at_ms"].

(** [value != pair_record_format_value()]. *)
Definition is_format_value (v : WireValue) : bool :=
  let '(year, month, day) := PAIR_RECORD_FORMAT_VERSION in
  match v with
  | Array [Unsigned y; Unsigned m; Unsigned d] => (y =? year) && (m =? month) && (d =? day)
  | _ => false
  end.

Definition require_format : takes unit :=
  do? v <- take_value "format_version" ;;
  if is_format_value v then eret tt else efail UnsupportedVersion.

Definition take_identifier (n : Z) (key : string) : takes bytes :=
  do? bs <- p_take_bytes key ;;
  elift (map_err (fun _ => InvalidInput) (identifier_reconstruct n bs)).

Definition take_role : takes RappState.EndpointRole :=
  do? text <- p_take_text "role" ;;
  if text_is text "requester" then eret RappState.Requester
  else if text_is text "proxy" then eret RappState.Proxy
  else efail InvalidInput.

Definition take_profiles : takes (list ProfileName) :=
  do? names <- p_take_text_array "profiles" ;;
  elift (collect (fun name => ok_or (ProfileName_parse name) InvalidInput) names).

Definition p_take_display_name : takes DisplayName :=
  do? text <- p_take_text PEER_DISPLAY_NAME_KEY ;;
  elift (map_err (fun _ => InvalidInput) (DisplayName_parse text)).

Definition read_record : takes PairRecord :=
  do? _ <- require_format ;;
  do? pair_id <- take_identifier PAIR_ID_SIZE "pair_id" ;;
  do? role <- take_role ;;
  do? local_static_private <- take_private_key ;;
  do? local_static_public <- take_key_array X25519_KEY_SIZE "local_static_public" ;;
  do? remote_static_public <- take_key_array X25519_KEY_SIZE "remote_static_public" ;;
  do? grants_hash <- take_identifier GRANTS_HASH_SIZE "grants_hash" ;;
  do? profiles <- take_profiles ;;
  do? peer_display_name <- p_take_display_name ;;
  do? created_at_ms <- p_take_unsigned "created_at_ms" ;;
  do? storage_confirmed <- p_take_bool "storage_confirmed" ;;
  do? forgotten_at_ms <- take_optional_unsigned "forgotten_at_ms" ;;
  do? last_session_at_ms <- take_optional_unsigned "last_session_at_ms" ;;
  do? _ <- require_empty InvalidInput ;;
  do? record <- elift (map_err InvalidRecord
    (PairRecord_new pair_id role local_static_private local_static_public remote_static_public
       grants_hash profiles peer_display_name created_at_ms)) ;;
  let record := if storage_confirmed then record else awaiting_storage_confirmation record in
  let record := match last_session_at_ms with
                | Some at_ms => with_session_at at_ms record
                | None => record
                end in
  eret (match forgotten_at_ms with
        | Some at_ms => forgotten at_ms record
        | None => record
        end).

Definition decode_pair_record (encoded : bytes) : result PairRecordCodecError PairRecord :=
  let? value := map_err (fun _ => InvalidInput) (decode_deterministic_cbor encoded) in
  match value with
  | Map m =>
      if existsb (fun kv => negb (existsb (text_is kv.1) expected_keys)) m then Err InvalidInput
      else (read_record m).1
  | _ => Err InvalidInput
  end.

(** ** Changes to a stored record *)

Definition idle_limit_reached (r : PairRecord) (now_ms : Z) : bool :=
  let since_ms :=
    match last_session_at_ms r with
    | Some at_ms => if at_ms >? created_at_ms r then at_ms else created_at_ms r
    | None => created_at_ms r
    end in
  saturating_sub now_ms since_ms >=? PAIRING_IDLE_EXPIRY_MS.

Definition plan_sweep (r : PairRecord) (now_ms : Z) (session_established : bool) : SweepPlan :=
  let unchanged := MkPlan Kept (last_session_at_ms r) (forgotten_at_ms r) in
  if negb (storage_confirmed r) || bool_decide (is_Some (forgotten_at_ms r)) then unchanged
  else if session_established then
    MkPlan Recorded (Some (later_session (last_session_at_ms r) now_ms)) (forgotten_at_ms r)
  else if idle_limit_reached r now_ms then
    MkPlan Expired (last_session_at_ms r) (Some now_ms)
  else unchanged.

Section Changes.

(** The platform's store: a computation on its own state. *)
Context {S E : Type} (store : bytes -> exec S E unit).

Definition sweep (now_ms : Z) (session_established : bool) :
  exec (PairRecord * S) (RecordStoreError E) SweepOutcome := fun '(r, s) =>
  let plan := plan_sweep r now_ms session_established in
  match outcome plan with
  | Kept => (Ok Kept, (r, s))
  | _ =>
      match encode_with_times r (plan_forgotten_at_ms plan) (plan_last_session_at_ms plan) with
      | Err e => (Err (Encoding e), (r, s))
      | Ok encoded =>
          match store encoded s with
          | (Err e, s) => (Err (Store e), (r, s))
          | (Ok _, s) =>
              (Ok (outcome plan),
               (set_times (plan_forgotten_at_ms plan) (plan_last_session_at_ms plan) r, s))
          end
      end
  end.

Definition record_peer_display_name (name : DisplayName) :
  exec (PairRecord * S) (RecordStoreError E) bool := fun '(r, s) =>
  if bool_decide (peer_display_name r = name) then (Ok false, (r, s))
  else
    let previous := peer_display_name r in
    let r := set_display_name name r in
    let '(stored, s) :=
      match encode_pair_record r with
      | Err e => (Err (Encoding e), s)
      | Ok encoded => let '(o, s) := store encoded s in (map_err Store o, s)
      end in
    match stored with
    | Err e => (Err e, (set_display_name previous r, s))
    | Ok _ => (Ok true, (r, s))
    end.

End Changes.

(** ** Lemmas *)

(** *** The stored form *)

(** What the types of the source and [PairRecord_new] guarantee of a record. *)
Definition time_ok (t : option Z) : Prop := match t with Some t => is_u64 t | None => True end.
Definition record_ok (r : PairRecord) : Prop :=
  (len (pair_id r) = PAIR_ID_SIZE /\ len (record_grants_hash r) = GRANTS_HASH_SIZE) /\
  (len (local_static_private r) = X25519_KEY_SIZE /\ len (local_static_public r) = X25519_KEY_SIZE /\
   len (remote_static_public r) = X25519_KEY_SIZE) /\
  all_zero (local_static_private r) || all_zero (local_static_public r)
    || all_zero (remote_static_public r) = false /\
  is_empty (profiles r) = false /\
  (name_ok (peer_display_name r) /\ text_ok (peer_display_name r)) /\
  is_u64 (created_at_ms r) /\ time_ok (forgotten_at_ms r) /\ time_ok (last_session_at_ms r).

Lemma inverts_value : inverts Some (fun v => v).
Proof. intros v a. naive_solver. Qed.
Lemma inverts_optional : inverts as_optional_unsigned optional_unsigned.
Proof. intros [] [a|]; split; intros; simplify_eq/=; done. Qed.

Lemma is_format_value_ok v : is_format_value v = true <-> v = pair_record_format_value.
Proof.
  split; [|by intros ->]. unfold is_format_value. cbn. intros H.
  repeat case_match_in H; try done. to_prop. by subst.
Qed.

Lemma collect_p_text vs l : collect (fun v => ok_or (as_text v) InvalidInput) vs = Ok l -> vs = map Text l.
Proof. apply collect_inv. intros [] a H; simplify_eq/=; done. Qed.
Lemma collect_profiles ns l :
  collect (fun name => ok_or (ProfileName_parse name) InvalidInput) ns = Ok l ->
  ns = map (fun p => utf8 (ProfileName_as_str p)) l.
Proof. apply collect_inv. intros v a H. apply ok_or_inv in H. by apply ProfileName_parse_inv. Qed.

Ltac take_inverts := first [inverts_known | apply inverts_value | apply inverts_optional].


Ltac untake := intros m a m' Hw H; unread_with take_inverts.

Lemma require_format_undoes :
  undoes require_format (fun _ => insert "format_version" pair_record_format_value) (fun _ => True).
Proof.
  unfold require_format, take_value. untake.
  match goal with H : (if is_format_value ?v then _ else _) _ = _ |- _ =>
    destruct (is_format_value v) eqn:Ef; [|done] end.
  unread. apply is_format_value_ok in Ef as ->. done.
Qed.

Lemma take_identifier_undoes n key :
  undoes (take_identifier n key) (fun bs => insert key (Bytes bs)) (fun bs => len bs = n).
Proof.
  unfold take_identifier, p_take_bytes. untake.
  match goal with H : map_err _ _ = _ |- _ => apply map_err_ok_inv in H; unfold identifier_reconstruct in H end.
  case_match_in H0; [|done]. by simplify_eq.
Qed.

Lemma take_key_array_undoes n key :
  undoes (take_key_array n key) (fun bs => insert key (Bytes bs)) (fun bs => len bs = n).
Proof.
  unfold take_key_array, p_take_bytes. untake.
  match goal with H : (if ?b then _ else _) _ = _ |- _ => destruct b eqn:El; [|done] end.
  to_prop. by unread.
Qed.

Lemma take_private_key_undoes :
  undoes take_private_key (fun bs => insert LOCAL_STATIC_PRIVATE_KEY (Bytes bs))
    (fun bs => len bs = X25519_KEY_SIZE).
Proof.
  unfold take_private_key, p_take_bytes. untake.
  match goal with H : (if negb ?b then _ else _) _ = _ |- _ => destruct b eqn:El; [|done] end.
  cbn [negb] in *. to_prop. by unread.
Qed.

Lemma take_role_undoes :
  undoes take_role (fun r => insert "role" (Text (utf8 (role_name r)))) (fun _ => True).
Proof.
  unfold take_role, p_take_text. untake.
  repeat match goal with H : (if text_is ?t ?s then _ else _) _ = _ |- _ =>
    let E := fresh "E" in destruct (text_is t s) eqn:E; [apply bool_decide_eq_true in E as ->|] end; by unread.
Qed.

Lemma take_profiles_undoes :
  undoes take_profiles (fun l =>
    insert "profiles" (Array (map (fun p => Text (utf8 (ProfileName_as_str p))) l))) (fun _ => True).
Proof.
  unfold take_profiles, p_take_text_array. untake.
  match goal with H : collect _ _ = Ok a |- _ => apply collect_profiles in H as -> end.
  match goal with H : collect _ _ = Ok _ |- _ => apply collect_p_text in H as -> end.
  by rewrite map_map.
Qed.

Lemma take_display_name_undoes :
  undoes p_take_display_name (fun name => insert PEER_DISPLAY_NAME_KEY (Text name))
    (fun name => name_ok name /\ text_ok name).
Proof.
  unfold p_take_display_name, p_take_text. untake.
  match goal with H : map_err _ _ = _ |- _ => apply map_err_ok_inv in H; unfold DisplayName_parse in H end.
  destruct (check_label _) as [[]|] eqn:El; [|done]. simplify_eq/=.
  match goal with H : wf (Text _) |- _ => by inversion H end.
Qed.

Tactic Notation "untake_field" uconstr(L) :=
  match goal with Hw : wf (Map ?m), H : _ ?m = (Ok _, _) |- _ =>
    destruct (L _ _ _ Hw H) as (-> & ? & ?); clear H Hw end.

Lemma optional_ok t : wf (optional_unsigned t) -> time_ok t.
Proof. destruct t; [|done]. by inversion 1. Qed.

Lemma PairRecord_new_ok id ro k1 k2 k3 g ps n c r :
  PairRecord_new id ro k1 k2 k3 g ps n c = Ok r <->
  all_zero k1 || all_zero k2 || all_zero k3 = false /\ is_empty ps = false /\
  r = MkRecord id ro k1 k2 k3 g ps n c true None None.
Proof. unfold PairRecord_new. destruct (_ || _), (is_empty _); naive_solver. Qed.

Lemma read_record_inv m r m' :
  wf (Map m) -> read_record m = (Ok r, m') ->
  record_ok r /\ m = record_map (local_static_private r) r (forgotten_at_ms r) (last_session_at_ms r).
Proof.
  intros Hw H. unfold read_record in H.
  repeat match goal with H : ebind _ _ _ = (Ok _, _) |- _ => apply ebind_ok in H as (? & ? & ? & ?) end.
  untake_field require_format_undoes. untake_field (take_identifier_undoes _ _).
  untake_field take_role_undoes. untake_field take_private_key_undoes.
  do 2 untake_field (take_key_array_undoes _ _). untake_field (take_identifier_undoes _ _).
  untake_field take_profiles_undoes. untake_field take_display_name_undoes.
  unfold p_take_unsigned, p_take_bool, take_optional_unsigned in *. unread_with take_inverts.
  match goal with H : map_err _ _ = _ |- _ =>
    apply map_err_ok_inv, PairRecord_new_ok in H as (? & ? & ->) end.
  repeat match goal with H : wf (optional_unsigned _) |- _ => apply optional_ok in H
                       | H : wf (Unsigned _) |- _ => inversion H; clear H; subst end.
  split.
  - unfold record_ok. repeat case_match; simplify_eq/=; tauto.
  - repeat case_match; simplify_eq/=; reflexivity.
Qed.

Ltac take_reads := apply ebind_ok; eexists _, _; split; [eapply take_as_ok; [take_inverts|by split]|].

Lemma require_format_reads m :
  map_get (utf8 "format_version") m = Some pair_record_format_value ->
  require_format m = (Ok tt, map_remove (utf8 "format_version") m).
Proof. intros Hg. unfold require_format, take_value. by take_reads. Qed.

Lemma take_identifier_reads n key m bs :
  map_get (utf8 key) m = Some (Bytes bs) -> len bs = n ->
  take_identifier n key m = (Ok bs, map_remove (utf8 key) m).
Proof.
  intros Hg Hl. unfold take_identifier, p_take_bytes. take_reads. apply elift_ok.
  split; [by apply identifier_ok|done].
Qed.

Lemma take_key_array_reads n key m bs :
  map_get (utf8 key) m = Some (Bytes bs) -> len bs = n ->
  take_key_array n key m = (Ok bs, map_remove (utf8 key) m).
Proof. intros Hg <-. unfold take_key_array, p_take_bytes. take_reads. by rewrite Z.eqb_refl. Qed.

Lemma take_private_key_reads m bs :
  map_get (utf8 LOCAL_STATIC_PRIVATE_KEY) m = Some (Bytes bs) -> len bs = X25519_KEY_SIZE ->
  take_private_key m = (Ok bs, map_remove (utf8 LOCAL_STATIC_PRIVATE_KEY) m).
Proof. intros Hg Hl. unfold take_private_key, p_take_bytes. take_reads. by rewrite Hl. Qed.

Lemma take_role_reads m r :
  map_get (utf8 "role") m = Some (Text (utf8 (role_name r))) ->
  take_role m = (Ok r, map_remove (utf8 "role") m).
Proof. intros Hg. unfold take_role, p_take_text. take_reads. by destruct r. Qed.

Lemma take_profiles_reads m l :
  map_get (utf8 "profiles") m = Some (Array (map (fun p => Text (utf8 (ProfileName_as_str p))) l)) ->
  take_profiles m = (Ok l, map_remove (utf8 "profiles") m).
Proof.
  intros Hg. unfold take_profiles, p_take_text_array.
  rewrite <- (map_map (fun p => utf8 (ProfileName_as_str p)) Text) in Hg.
  apply ebind_ok. eexists _, _. split.
  - take_reads. apply elift_ok. split; [by apply collect_map|done].
  - apply elift_ok. split; [|done]. apply collect_map. intros p _. by rewrite ProfileName_parse_name.
Qed.

Lemma take_display_name_reads m name :
  map_get (utf8 PEER_DISPLAY_NAME_KEY) m = Some (Text name) -> name_ok name ->
  p_take_display_name m = (Ok name, map_remove (utf8 PEER_DISPLAY_NAME_KEY) m).
Proof.
  intros Hg Hn. unfold p_take_display_name, p_take_text. take_reads. apply elift_ok.
  split; [by apply DisplayName_ok|done].
Qed.

Ltac reread_field :=
  first [ apply require_format_reads | apply take_role_reads | apply take_profiles_reads
        | apply take_identifier_reads | apply take_key_array_reads | apply take_private_key_reads
        | apply take_display_name_reads | eapply take_as_ok; [take_inverts|split]
        | apply require_empty_ok; split | apply elift_ok; split ].

Lemma read_record_complete r :
  record_ok r ->
  read_record (record_map (local_static_private r) r (forgotten_at_ms r) (last_session_at_ms r))
  = (Ok r, []).
Proof.
  intros ((Hid & Hg) & (H1 & H2 & H3) & Hz & Hp & (Hn & _) & _). unfold read_record.
  do 15 (apply ebind_ok; eexists _, _; split; [reread_field; first [reflexivity|eassumption|idtac]|]).
  - rewrite (proj2 (PairRecord_new_ok _ _ _ _ _ _ _ _ _ _)) by done. reflexivity.
  - apply eret_ok. split; [|reflexivity]. by destruct r as [????????? [] [] []].
Qed.

Lemma record_map_eq k r f l :
  record_map k r f l =
  [(utf8 "created_at_ms", Unsigned (created_at_ms r));
   (utf8 "forgotten_at_ms", optional_unsigned f);
   (utf8 "format_version", pair_record_format_value);
   (utf8 "grants_hash", Bytes (record_grants_hash r));
   (utf8 "last_session_at_ms", optional_unsigned l);
   (utf8 LOCAL_STATIC_PRIVATE_KEY, Bytes k);
   (utf8 "local_static_public", Bytes (local_static_public r));
   (utf8 "pair_id", Bytes (pair_id r));
   (utf8 PEER_DISPLAY_NAME_KEY, Text (peer_display_name r));
   (utf8 "profiles", Array (map (fun p => Text (utf8 (ProfileName_as_str p))) (profiles r)));
   (utf8 "remote_static_public", Bytes (remote_static_public r));
   (utf8 "role", Text (utf8 (role_name (role r))));
   (utf8 "storage_confirmed", VBool (storage_confirmed r))].
Proof. reflexivity. Qed.

(** The second encoding of [encode_with_times] is of the map with the key. *)
Lemma record_map_key (P : bytes * WireValue -> Prop) k k' r f l :
  P (utf8 LOCAL_STATIC_PRIVATE_KEY, Bytes k') -> Forall P (record_map k r f l) ->
  Forall P (record_map k' r f l).
Proof.
  rewrite !record_map_eq. intros Hk H.
  repeat (apply Forall_cons_1 in H as [? H]). repeat (apply Forall_cons_2; [assumption|]). exact H.
Qed.

Lemma encode_with_times_ok r f l bs :
  encode_with_times r f l = Ok bs <->
  encode_deterministic_cbor (Map (record_map (local_static_private r) r f l)) = Ok bs.
Proof.
  unfold encode_with_times.
  change (match map_get _ _ with Some (Bytes _) => _ | _ => _ end)
    with (record_map (local_static_private r) r f l).
  split.
  - destruct (map_err _ _); [|done]. apply map_err_ok_inv.
  - intros H. rewrite H. destruct (encode_deterministic_cbor (Map (record_map (repeat _ _) r f l))) eqn:E; [done|].
    exfalso. cut (is_ok (encode_value (Map (record_map (repeat 0 (Z.to_nat X25519_KEY_SIZE)) r f l)) 0) = true).
    { unfold encode_deterministic_cbor in E. by rewrite E. }
    assert (is_ok (encode_value (Map (record_map (local_static_private r) r f l)) 0) = true) as Hok
      by (unfold encode_deterministic_cbor in H; by rewrite H).
    rewrite map_encodes in Hok |- * by done. revert Hok. apply record_map_key. by split.
Qed.

Lemma wf_optional t : time_ok t -> wf (optional_unsigned t).
Proof. destruct t; by constructor. Qed.

Lemma record_map_wf k r f l :
  record_ok r -> time_ok f -> time_ok l -> wf (Map (record_map k r f l)).
Proof.
  intros (_ & _ & _ & _ & (_ & Hn) & Hc & _) Hf Hl. constructor.
  - rewrite record_map_eq. repeat (constructor; [|repeat (constructor; [reflexivity|])]); constructor.
  - rewrite record_map_eq. repeat apply Forall_cons_2; try (split; [reflexivity|cbn [snd]]); try constructor;
      try done; try by apply wf_optional.
    + repeat constructor; by vm_compute.
    + apply Forall_map, Forall_true. intros []; constructor; reflexivity.
    + by destruct (role r).
Qed.

Lemma fits_optional d t : d <= MAX_NESTING_DEPTH -> fits d (optional_unsigned t) 9.
Proof. intros Hd. destruct t; [by apply fits_unsigned|]. apply fits_simple; [done|by left]. Qed.

(** A record of distinct profiles has a stored form, of less than a kilobyte. *)
Lemma record_map_fits k r f l :
  record_ok r -> len k = X25519_KEY_SIZE -> NoDup (profiles r) ->
  fits 0 (Map (record_map k r f l)) 1200.
Proof.
  intros ((Hid & Hg) & (_ & H2 & H3) & _ & _ & (Hn & _) & _) Hk Hp.
  pose proof (distinct_profiles _ Hp) as Hp3.
  assert (len (peer_display_name r) <= 256) as Hn256.
  { unfold name_ok, check_label, DISPLAY_NAME_MAX_BYTES in Hn. case_match_in Hn; [done|]. lia. }
  assert (fits 1 (Array (map (fun p => Text (utf8 (ProfileName_as_str p))) (profiles r))) 200) as Hps.
  { eapply fits_weaken; [apply (fits_array _ _ 50); [done|]|].
    - apply Forall_map, Forall_true. intros [];
        (eapply fits_weaken; [apply fits_text; vm_compute; done|by vm_compute]).
    - unfold len in *. rewrite length_map. lia. }
  eapply fits_weaken.
  - rewrite record_map_eq. eapply (fits_map 0 _ [9; 9; 40; 41; 9; 41; 41; 25; 265; 200; 41; 20; 9]); [done|].
    repeat (apply List.Forall2_cons; [split; [by vm_compute|cbn [snd]]|]); [..|apply List.Forall2_nil];
      first [ by apply fits_optional | by apply fits_unsigned | exact Hps
            | eapply fits_weaken; [by apply fits_bytes|unfold PAIR_ID_SIZE, GRANTS_HASH_SIZE, X25519_KEY_SIZE in *; lia]
            | idtac ].
    + eexists. split; [reflexivity|by vm_compute].
    + eapply fits_weaken; [apply fits_text; [done|unfold MAX_TEXT_SIZE; lia]|lia].
    + eapply fits_weaken; [apply fits_text; [done|by destruct (role r)]|by destruct (role r)].
    + apply fits_simple; [done|]. right. eauto.
  - by vm_compute.
Qed.

Lemma encode_total r f l :
  record_ok r -> NoDup (profiles r) ->
  exists bs, encode_with_times r f l = Ok bs /\ len bs <= MAX_FRAME_PLAINTEXT.
Proof.
  intros Hr Hp. pose proof Hr as (_ & (Hk & _) & _).
  destruct (record_map_fits (local_static_private r) r f l Hr Hk Hp) as (bs & Hb & Hl).
  exists bs. split; [by apply encode_with_times_ok|]. unfold MAX_FRAME_PLAINTEXT. lia.
Qed.

Lemma decode_record bs r :
  all_bytes bs -> decode_pair_record bs = Ok r ->
  record_ok r /\ encode_pair_record r = Ok bs /\ len bs <= MAX_FRAME_PLAINTEXT.
Proof.
  intros Hb H. unfold decode_pair_record in H.
  destruct (decode_deterministic_cbor bs) as [v|] eqn:Ed; [|done]. cbn [map_err rbind] in H.
  destruct (decode_sound v bs Hb Ed) as (Hw & He & Hl). destruct v as [| | | | |m| |]; try done.
  destruct (existsb _ m); [done|]. apply fst_ok in H as (m' & H).
  apply read_record_inv in H as [Hr Hm]; [|done].
  split_and!; [done| |done]. unfold encode_pair_record. apply encode_with_times_ok. by rewrite <- Hm.
Qed.

Lemma encode_record bs r :
  record_ok r -> encode_pair_record r = Ok bs -> len bs <= MAX_FRAME_PLAINTEXT ->
  decode_pair_record bs = Ok r.
Proof.
  intros Hr He Hl. pose proof Hr as (_ & _ & _ & _ & _ & _ & Hf & Hs).
  unfold encode_pair_record in He. apply encode_with_times_ok in He.
  unfold decode_pair_record. rewrite (decode_encode _ bs (record_map_wf _ r _ _ Hr Hf Hs) He Hl).
  cbn [map_err rbind]. rewrite record_map_eq at 1.
  match goal with |- (if ?b then _ else _) = _ => change b with false end.
  by rewrite read_record_complete.
Qed.

(** *** Sequences of changes *)

(** A store writes all of a record or none of it, and says which. *)
Record AtomicStore {S E} (store : bytes -> exec S E unit) (stored : S -> bytes) : Prop := {
  store_writes : forall bs s s', store bs s = (Ok tt, s') -> stored s' = bs;
  store_refuses : forall bs s e s', store bs s = (Err e, s') -> stored s' = stored s }.

Inductive change :=
  | Sweep (now_ms : Z) (session_established : bool)
  | Rename (name : DisplayName).

Definition change_ok (c : change) : Prop :=
  match c with Sweep now _ => is_u64 now | Rename name => name_ok name /\ text_ok name end.

Definition apply_change {S E} (store : bytes -> exec S E unit) (st : PairRecord * S) (c : change) :
  PairRecord * S :=
  match c with
  | Sweep now established => (sweep store now established st).2
  | Rename name => (record_peer_display_name store name st).2
  end.

Definition run_changes {S E} (store : bytes -> exec S E unit) (cs : list change)
  (st : PairRecord * S) : PairRecord * S := fold_left (apply_change store) cs st.

(** What no change touches. *)
Definition identity (r : PairRecord) :=
  (pair_id r, role r, (local_static_private r, local_static_public r, remote_static_public r),
   record_grants_hash r, profiles r, created_at_ms r, storage_confirmed r).

Lemma set_times_ok f l r : record_ok r -> time_ok f -> time_ok l -> record_ok (set_times f l r).
Proof. unfold record_ok. cbn. tauto. Qed.
Lemma set_display_name_ok n r :
  record_ok r -> name_ok n -> text_ok n -> record_ok (set_display_name n r).
Proof. unfold record_ok. cbn. tauto. Qed.
Lemma set_display_name_back n r : set_display_name (peer_display_name r) (set_display_name n r) = r.
Proof. by destruct r. Qed.

Lemma encode_set_times f l r : encode_pair_record (set_times f l r) = encode_with_times r f l.
Proof. reflexivity. Qed.

Lemma later_session_ok t now : time_ok t -> is_u64 now -> is_u64 (later_session t now).
Proof. unfold later_session. destruct t; [|done]. cbn. intros. by case_if. Qed.

Lemma plan_sweep_ok r now e :
  record_ok r -> is_u64 now ->
  time_ok (plan_forgotten_at_ms (plan_sweep r now e)) /\
  time_ok (plan_last_session_at_ms (plan_sweep r now e)).
Proof.
  intros (_ & _ & _ & _ & _ & _ & Hf & Hl) Hn. unfold plan_sweep.
  case_if; [done|]. destruct e; [split; [done|by apply later_session_ok]|]. by case_if.
Qed.

Section Device.
Context {S E : Type} (store : bytes -> exec S E unit) (stored : S -> bytes).
Context (Hstore : AtomicStore store stored).

(** The record in memory is the one a restart reads. *)
Definition consistent (st : PairRecord * S) : Prop :=
  record_ok st.1 /\ NoDup (profiles st.1) /\ encode_pair_record st.1 = Ok (stored st.2).

Lemma sweep_consistent now e st :
  is_u64 now -> consistent st ->
  consistent (sweep store now e st).2 /\ identity (sweep store now e st).2.1 = identity st.1.
Proof.
  intros Hn. destruct st as [r s]. intros (Hr & Hp & He). cbn [fst snd] in *. unfold sweep.
  destruct (plan_sweep_ok r now e Hr Hn) as [Hf Hl].
  destruct (plan_sweep r now e) as [o l f]. cbn [outcome plan_forgotten_at_ms plan_last_session_at_ms] in *.
  assert (consistent (r, s) /\ identity r = identity r) as Hsame
    by (split; [exact (conj Hr (conj Hp He))|reflexivity]).
  destruct o; try exact Hsame;
    (destruct (encode_with_times r f l) as [bs|] eqn:Eb; [|exact Hsame];
     destruct (store bs s) as [[[]|] s'] eqn:Es; cbn [fst snd];
     [ rewrite <- encode_set_times, <- (store_writes _ _ Hstore _ _ _ Es) in Eb;
       split; [exact (conj (set_times_ok _ _ _ Hr Hf Hl) (conj Hp Eb))|reflexivity]
     | rewrite <- (store_refuses _ _ Hstore _ _ _ _ Es) in He;
       split; [exact (conj Hr (conj Hp He))|reflexivity] ]).
Qed.

Lemma rename_consistent name st :
  name_ok name -> text_ok name -> consistent st ->
  consistent (record_peer_display_name store name st).2 /\
  identity (record_peer_display_name store name st).2.1 = identity st.1.
Proof.
  intros Hn Ht. destruct st as [r s]. intros (Hr & Hp & He). cbn [fst snd] in *.
  unfold record_peer_display_name.
  assert (consistent (r, s) /\ identity r = identity r) as Hsame
    by (split; [exact (conj Hr (conj Hp He))|reflexivity]).
  case_bool_decide; [exact Hsame|].
  destruct (encode_pair_record (set_display_name name r)) as [bs|] eqn:Eb;
    [destruct (store bs s) as [[[]|] s'] eqn:Es|]; cbn [map_err fst snd]; rewrite ?set_display_name_back.
  - rewrite <- (store_writes _ _ Hstore _ _ _ Es) in Eb.
    split; [exact (conj (set_display_name_ok _ _ Hr Hn Ht) (conj Hp Eb))|reflexivity].
  - rewrite <- (store_refuses _ _ Hstore _ _ _ _ Es) in He.
    split; [exact (conj Hr (conj Hp He))|reflexivity].
  - exact Hsame.
Qed.

Lemma run_consistent cs st :
  Forall change_ok cs -> consistent st ->
  consistent (run_changes store cs st) /\ identity (run_changes store cs st).1 = identity st.1.
Proof.
  intros Hc. revert st. induction Hc as [|c cs Hc _ IH]; intros st Hst; [split; [exact Hst|reflexivity]|].
  assert (consistent (apply_change store st c) /\ identity (apply_change store st c).1 = identity st.1)
    as [H1 H2].
  { destruct c; [by apply sweep_consistent|]. destruct Hc. by apply rename_consistent. }
  destruct (IH _ H1) as [H3 H4]. split; [exact H3|]. exact (eq_trans H4 H2).
Qed.

End Device.

(** *** Idle expiry *)

(** One sweep of a history: its time, whether a session was established, and
    whether the store accepted the write. *)
Definition one_sweep : Type := Z * bool * bool.

Definition swept (r : PairRecord) (h : one_sweep) : PairRecord :=
  let '(now, established, accepted) := h in
  (sweep (fun _ s => (if (accepted : bool) then Ok tt else Err tt, s)) now established (r, tt)).2.1.

(** When a pairing last active at [since] expires over a history of sweeps. *)
Fixpoint expiry (since : Z) (history : list one_sweep) : option Z :=
  match history with
  | [] => None
  | (now, established, accepted) :: history =>
      if negb accepted then expiry since history
      else if (established : bool) then expiry (Z.max since now) history
      else if since + PAIRING_IDLE_EXPIRY_MS <=? now then Some now
      else expiry since history
  end.

Definition last_active (r : PairRecord) : Z :=
  Z.max (created_at_ms r) (default (created_at_ms r) (last_session_at_ms r)).

Definition active (r : PairRecord) : Prop := storage_confirmed r = true /\ forgotten_at_ms r = None.

Lemma swept_forgotten r h : is_Some (forgotten_at_ms r) -> swept r h = r.
Proof.
  intros Hf. destruct h as [[now e] a]. unfold swept, sweep, plan_sweep.
  by rewrite (bool_decide_eq_true_2 _ Hf), orb_true_r.
Qed.

Lemma foldl_forgotten r hs : is_Some (forgotten_at_ms r) -> fold_left swept hs r = r.
Proof. intros Hf. induction hs; [done|]. cbn. by rewrite swept_forgotten. Qed.

Lemma idle_limit_spec r now :
  idle_limit_reached r now = (last_active r + PAIRING_IDLE_EXPIRY_MS <=? now).
Proof.
  unfold idle_limit_reached, last_active, saturating_sub.
  destruct (last_session_at_ms r) as [t|]; cbn [default from_option id]; [rewrite Z.gtb_ltb; case_if|];
    rewrite Z.geb_leb; apply eq_bool_prop_intro; rewrite !Is_true_true, !Z.leb_le;
    unfold PAIRING_IDLE_EXPIRY_MS, PAIRING_IDLE_EXPIRY_DAYS, MILLISECONDS_PER_DAY; lia.
Qed.

Lemma swept_active r now e a :
  record_ok r -> NoDup (profiles r) -> active r ->
  swept r (now, e, a) =
  if negb a then r
  else if e then set_times None (Some (later_session (last_session_at_ms r) now)) r
  else if last_active r + PAIRING_IDLE_EXPIRY_MS <=? now
       then set_times (Some now) (last_session_at_ms r) r else r.
Proof.
  intros Hr Hp [Hc Hf]. unfold swept, sweep, plan_sweep. rewrite Hc, Hf. cbn [negb orb bool_decide].
  rewrite bool_decide_eq_false_2 by (by intros [? ?]). rewrite idle_limit_spec.
  destruct e; [|case_if]; cbn [outcome plan_forgotten_at_ms plan_last_session_at_ms].
  - destruct (encode_total r None (Some (later_session (last_session_at_ms r) now)) Hr Hp) as (bs & -> & _).
    by destruct a.
  - destruct (encode_total r (Some now) (last_session_at_ms r) Hr Hp) as (bs & -> & _). by destruct a.
  - by destruct a.
Qed.

Lemma last_active_session r now :
  last_active (set_times None (Some (later_session (last_session_at_ms r) now)) r)
  = Z.max (last_active r) now.
Proof.
  unfold last_active, later_session. cbn. destruct (last_session_at_ms r); cbn; [|lia].
  rewrite Z.geb_leb. case_if; lia.
Qed.

Lemma expiry_spec r hs :
  record_ok r -> NoDup (profiles r) -> active r -> Forall (fun h => is_u64 h.1.1) hs ->
  forgotten_at_ms (fold_left swept hs r) = expiry (last_active r) hs.
Proof.
  intros Hr Hp Ha Hh. revert r Hr Hp Ha. induction Hh as [|[[now e] a] hs Hn _ IH]; intros r Hr Hp Ha.
  { by destruct Ha. }
  cbn [fold_left expiry fst] in *. rewrite swept_active by done. destruct a; cbn [negb]; [|by apply IH].
  pose proof Hr as (_ & _ & _ & _ & _ & _ & _ & Hl). destruct Ha as [Hc Hf].
  destruct e; [|case_if].
  - rewrite IH; [by rewrite last_active_session| |done|done].
    apply set_times_ok; [done|done|by apply later_session_ok].
  - by rewrite foldl_forgotten by by eexists.
  - by apply IH.
Qed.

(** ** Properties *)

(** (round trip) The stored forms a restart accepts are exactly those of
    valid records: decoding yields a record if and only if its fields have their
    sizes, its keys are not all zero, it has a profile and a display name, and
    the bytes are its stored form.  Two different records never share one. *)
Theorem pair_record_decoded_exactly (bs : bytes) (r : PairRecord) :
  all_bytes bs ->
  decode_pair_record bs = Ok r <->
  record_ok r /\ encode_pair_record r = Ok bs /\ len bs <= MAX_FRAME_PLAINTEXT.
Proof.
  intros Hb. split; [by apply decode_record|]. intros (Hr & He & Hl). by apply encode_record.
Qed.

(** C11 (invariant) Memory and store never diverge: after any sequence of sweeps
    and renames over a store that writes a record whole or refuses it, whichever
    writes it refuses, a restart reads exactly the record in memory, and the
    identity of the pairing, its keys and grants are what they were. *)
Theorem restart_reads_the_record_in_memory {S E} (store : bytes -> exec S E unit)
    (stored : S -> bytes) (r : PairRecord) (s : S) (cs : list change) :
  AtomicStore store stored -> record_ok r -> NoDup (profiles r) ->
  encode_pair_record r = Ok (stored s) -> Forall change_ok cs ->
  decode_pair_record (stored (run_changes store cs (r, s)).2) = Ok (run_changes store cs (r, s)).1
  /\ identity (run_changes store cs (r, s)).1 = identity r.
Proof.
  intros Hst Hr Hp He Hc.
  destruct (run_consistent store stored Hst cs (r, s) Hc (conj Hr (conj Hp He))) as [(Hr' & Hp' & He') Hi].
  split; [|exact Hi]. apply encode_record; [exact Hr'|exact He'|].
  destruct (encode_total _ (forgotten_at_ms (run_changes store cs (r, s)).1)
              (last_session_at_ms (run_changes store cs (r, s)).1) Hr' Hp') as (bs & Hb & Hl).
  unfold encode_pair_record in He'. rewrite Hb in He'. injection He' as ->. exact Hl.
Qed.

(** (functional) A pairing expires exactly when it was idle for thirty days:
    over any history of sweeps of an active record, some refused by the store,
    the record ends forgotten at the time of the first sweep that was stored,
    found no session, and came thirty days after the latest of the creation and
    the sessions recorded before it, and not forgotten if there is none; it
    serves its profiles until then and none after. *)
Theorem pairing_expires_exactly_when_idle (r : PairRecord) (history : list one_sweep) :
  record_ok r -> NoDup (profiles r) -> active r -> Forall (fun h => is_u64 h.1.1) history ->
  forgotten_at_ms (fold_left swept history r) = expiry (last_active r) history /\
  (serving_profiles (fold_left swept history r) = [] <-> is_Some (expiry (last_active r) history)).
Proof.
  intros Hr Hp Ha Hh. pose proof (expiry_spec r history Hr Hp Ha Hh) as He. split; [done|].
  unfold serving_profiles. rewrite He. destruct (expiry _ _); [by split|].
  split; [|by intros []]. intros Hs. exfalso.
  cut (profiles (fold_left swept history r) = profiles r).
  { intros Hsame. rewrite Hs in Hsame. pose proof Hr as (_ & _ & _ & Hne & _). by rewrite <- Hsame in Hne. }
  clear. revert r. induction history as [|[[now e] a] h IH]; intros r; [done|]. cbn [fold_left].
  rewrite IH. unfold swept, sweep.
  destruct (outcome (plan_sweep r now e)); [|reflexivity|];
    (destruct (encode_with_times r _ _), a; reflexivity).
Qed.

(** *** Witnesses *)

Definition sample_record : PairRecord :=
  MkRecord (repeat 1 16) RappState.Proxy (repeat 2 32) (repeat 3 32) (repeat 4 32) (repeat 5 32)
    [Authentication; DocumentSigning] (utf8 "Laptop") 1000 true None None.

Lemma sample_record_ok : record_ok sample_record.
Proof. unfold record_ok, sample_record. cbn. split_and!; by vm_compute. Qed.

Lemma sample_profiles_distinct : NoDup (profiles sample_record).
Proof. cbn. apply NoDup_cons. split; [by rewrite list_elem_of_singleton|apply NoDup_singleton]. Qed.

(** A device that writes every other time. *)
Definition sample_store (bs : bytes) : exec (bytes * bool) unit unit := fun '(old, accept) =>
  if (accept : bool) then (Ok tt, (bs, false)) else (Err tt, (old, true)).

Lemma sample_store_atomic : AtomicStore sample_store fst.
Proof. split; intros bs [old []]; naive_solver. Qed.

Definition sample_stored : bytes := default [] (match encode_pair_record sample_record with Ok bs => Some bs | Err _ => None end).

Lemma pair_record_decoded_exactly_witness : decode_pair_record sample_stored = Ok sample_record.
Proof.
  apply (pair_record_decoded_exactly sample_stored sample_record).
  - apply all_bytesb_spec. by vm_compute.
  - split_and!; [apply sample_record_ok|by vm_compute|by vm_compute].
Defined.

Lemma restart_reads_the_record_in_memory_witness :
  let st := run_changes sample_store [Sweep 2000 true; Rename (utf8 "Desk"); Rename (utf8 "Desk")]
              (sample_record, (sample_stored, true)) in
  decode_pair_record st.2.1 = Ok st.1 /\ peer_display_name st.1 = utf8 "Desk".
Proof.
  split; [|by vm_compute].
  apply (restart_reads_the_record_in_memory sample_store fst sample_record (sample_stored, true)
           [Sweep 2000 true; Rename (utf8 "Desk"); Rename (utf8 "Desk")]).
  - apply sample_store_atomic.
  - apply sample_record_ok.
  - apply sample_profiles_distinct.
  - by vm_compute.
  - repeat constructor; by vm_compute.
Defined.

Lemma pairing_expires_exactly_when_idle_witness :
  forgotten_at_ms (fold_left swept [(5000, true, true); (2592001000, false, true); (2592005000, false, false);
                                    (2592005001, false, true)] sample_record) = Some 2592005001.
Proof.
  refine (eq_trans (proj1 (pairing_expires_exactly_when_idle sample_record
    [(5000, true, true); (2592001000, false, true); (2592005000, false, false); (2592005001, false, true)]
    sample_record_ok _ _ _)) _).
  - apply sample_profiles_distinct.
  - by split.
  - repeat constructor; by vm_compute.
  - by vm_compute.
Defined.

End PairRecord.
