(* ===== verification/RappNoise.v ===== *)
(** * The Noise handshake of sessions

    crates/rapp/src/noise.rs: the pattern [Noise_KK_25519_ChaChaPoly_SHA512].
    X25519, SHA-512, HMAC-SHA-512 and ChaCha20-Poly1305 are third-party packages:
    the fields of the classes [X25519] and [NoiseSuite], and [X25519Laws] and
    [NoiseSuiteLaws] are what the pattern relies on.  The ephemeral key a message
    draws is an argument, the result of the random source.  An output slice is
    its length; the bytes written to it are the result.

    The theorem: two endpoints that hold one another's static keys complete the
    handshake with the same transcript and transports linked in both directions. *)

From stdpp Require Import base list strings option.
From Stdlib Require Import ZArith Lia.
From S2P Require Import Prelude RappCbor RappWire RappOperation RappMessage.

Module Noise.
Import Cbor Wire Msg.

(** ** Errors (crypto.rs, transport.rs) *)

Inductive HandshakeRole := Initiator | Responder.

Inductive FrameError := Oversized (got maximum : Z).

Inductive CryptoError :=
  | Configuration
  | InvalidKeyLength
  | NoiseHandshake
  | NonEmptyHandshakePayload
  | HandshakeIncomplete
  | MissingRemoteStatic
  | FrameErr (e : FrameError)
  | WireErr (e : WireError).

(** ** Packages *)

Definition X25519_KEY_SIZE : Z := 32.
Definition NOISE_TAG_SIZE : Z := 16.
Definition KK_HANDSHAKE_MESSAGE_SIZE : Z := X25519_KEY_SIZE + NOISE_TAG_SIZE.
Definition NONCE_ZERO_PREFIX_LEN : Z := 4.

Class X25519 := {
  mul_clamped : bytes -> bytes -> bytes;
  mul_base_clamped : bytes -> bytes;
  identity_point : bytes }.

Class X25519Laws `{X25519} : Prop := {
  agreement_commutes a b : mul_clamped (mul_base_clamped b) a = mul_clamped (mul_base_clamped a) b;
  public_size a : len (mul_base_clamped a) = X25519_KEY_SIZE }.

Class NoiseSuite := {
  sha512 : bytes -> bytes;
  hmac_sha512 : bytes -> bytes -> bytes;
  chacha_encrypt : bytes -> bytes -> bytes -> bytes -> option bytes;
  chacha_decrypt : bytes -> bytes -> bytes -> bytes -> option bytes }.

(** An encryption is [NOISE_TAG_SIZE] longer than its message and is decrypted
    under the same key, nonce and associated data; a message of a frame can be
    encrypted. *)
Class NoiseSuiteLaws `{NoiseSuite} : Prop := {
  chacha_inverse key nonce ad msg c :
    chacha_encrypt key nonce ad msg = Some c ->
    chacha_decrypt key nonce ad c = Some msg /\ len c = len msg + NOISE_TAG_SIZE;
  chacha_total key nonce ad msg :
    len msg <= MAX_FRAME_PLAINTEXT -> is_Some (chacha_encrypt key nonce ad msg);
  sha512_size msg : len (sha512 msg) = 64 }.

Definition x25519_public_key `{X25519} (private_key : bytes) : bytes := mul_base_clamped private_key.

Definition dh `{X25519} (private_key public_key : bytes) : result CryptoError bytes :=
  let shared := mul_clamped public_key private_key in
  if bool_decide (shared = identity_point) then Err Configuration else Ok shared.

Section Noise.
Context `{X25519, NoiseSuite}.

(** ** Cipher states *)

Record NoiseCipherState := MkCipher { key : option bytes; nonce : Z }.

Definition cipher_new : NoiseCipherState := MkCipher None 0.
Definition initialize_key (k : bytes) : NoiseCipherState := MkCipher (Some k) 0.

(** [nonce.to_le_bytes()] after the prefix. *)
Definition nonce_bytes (n : Z) : bytes :=
  repeat 0 (Z.to_nat NONCE_ZERO_PREFIX_LEN) ++ rev (be_bytes 8 n).

Definition advance_nonce {A} (value : A) : exec NoiseCipherState CryptoError A := fun c =>
  match checked_add U64_MAX (nonce c) 1 with
  | Some n => (Ok value, MkCipher (key c) n)
  | None => (Err NoiseHandshake, c)
  end.

Definition encrypt (ad plaintext : bytes) : exec NoiseCipherState CryptoError bytes := fun c =>
  match key c with
  | None => (Ok plaintext, c)
  | Some k =>
      match chacha_encrypt k (nonce_bytes (nonce c)) ad plaintext with
      | None => (Err NoiseHandshake, c)
      | Some ciphertext => advance_nonce ciphertext c
      end
  end.

Definition decrypt (ad ciphertext : bytes) : exec NoiseCipherState CryptoError bytes := fun c =>
  match key c with
  | None => (Ok ciphertext, c)
  | Some k =>
      if len ciphertext <? NOISE_TAG_SIZE then (Err NoiseHandshake, c)
      else match chacha_decrypt k (nonce_bytes (nonce c)) ad ciphertext with
           | None => (Err NoiseHandshake, c)
           | Some plaintext => advance_nonce plaintext c
           end
  end.

(** ** The symmetric state *)

Record NoiseSymmetricState := MkSymmetric {
  chaining_key : bytes; handshake_hash : bytes; cipher : NoiseCipherState }.

Definition symmetric_new (protocol_name : bytes) : NoiseSymmetricState :=
  let h := if len protocol_name <=? 64
           then protocol_name ++ repeat 0 (Z.to_nat (64 - len protocol_name))
           else sha512 protocol_name in
  MkSymmetric h h cipher_new.

Definition mix_hash (data : bytes) (s : NoiseSymmetricState) : NoiseSymmetricState :=
  MkSymmetric (chaining_key s) (sha512 (handshake_hash s ++ data)) (cipher s).

Definition derive_2 (ck input_key_material : bytes) : bytes * bytes :=
  let temp_key := hmac_sha512 ck input_key_material in
  let output1 := hmac_sha512 temp_key [1] in
  let output2 := hmac_sha512 temp_key (output1 ++ [2]) in
  (output1, take_z output2 32).

Definition mix_key (material : bytes) (s : NoiseSymmetricState) : NoiseSymmetricState :=
  let '(next_ck, k) := derive_2 (chaining_key s) material in
  MkSymmetric next_ck (handshake_hash s) (initialize_key k).

(** A computation on the cipher of the symmetric state. *)
Definition on_cipher {A} (f : exec NoiseCipherState CryptoError A) :
  exec NoiseSymmetricState CryptoError A := fun s =>
  let '(r, c) := f (cipher s) in (r, MkSymmetric (chaining_key s) (handshake_hash s) c).

Definition encrypt_and_hash (plaintext : bytes) : exec NoiseSymmetricState CryptoError bytes := fun s =>
  (do? ciphertext <- on_cipher (encrypt (handshake_hash s) plaintext) ;;
   fun s => (Ok ciphertext, mix_hash ciphertext s)) s.

Definition decrypt_and_hash (ciphertext : bytes) : exec NoiseSymmetricState CryptoError bytes := fun s =>
  (do? plaintext <- on_cipher (decrypt (handshake_hash s) ciphertext) ;;
   fun s => (Ok plaintext, mix_hash ciphertext s)) s.

Definition split (s : NoiseSymmetricState) : bytes * bytes :=
  let temp_key := hmac_sha512 (chaining_key s) [] in
  let output1 := hmac_sha512 temp_key [1] in
  let output2 := hmac_sha512 temp_key (output1 ++ [2]) in
  (take_z output1 32, take_z output2 32).

(** ** Transports *)

Record NoiseTransport := MkTransport { send : NoiseCipherState; receive : NoiseCipherState }.

Definition transport_write (payload : bytes) (capacity : Z) :
  exec NoiseTransport CryptoError bytes := fun t =>
  let '(r, c) := encrypt [] payload (send t) in
  let t := MkTransport c (receive t) in
  match r with
  | Err e => (Err e, t)
  | Ok ciphertext =>
      if capacity <? len ciphertext then (Err NoiseHandshake, t) else (Ok ciphertext, t)
  end.

Definition transport_read (payload : bytes) (capacity : Z) :
  exec NoiseTransport CryptoError bytes := fun t =>
  let '(r, c) := decrypt [] payload (receive t) in
  let t := MkTransport (send t) c in
  match r with
  | Err e => (Err e, t)
  | Ok plaintext =>
      if capacity <? len plaintext then (Err NoiseHandshake, t) else (Ok plaintext, t)
  end.

(** ** The handshake *)

Record KkHandshakeState := MkKk {
  kk_role : HandshakeRole; symmetric : NoiseSymmetricState;
  local_static_priv : bytes; remote_static_pub : bytes;
  local_ephemeral_priv : option bytes; remote_ephemeral_pub : option bytes;
  message_index : Z; finished : bool }.

Definition kk_new (role : HandshakeRole) (local_static_priv remote_static_pub prologue : bytes) :
  result CryptoError KkHandshakeState :=
  let symmetric := mix_hash prologue (symmetric_new (utf8 MANDATORY_SESSION_SUITE)) in
  let local_static_pub := x25519_public_key local_static_priv in
  let symmetric :=
    match role with
    | Initiator => mix_hash remote_static_pub (mix_hash local_static_pub symmetric)
    | Responder => mix_hash local_static_pub (mix_hash remote_static_pub symmetric)
    end in
  Ok (MkKk role symmetric local_static_priv remote_static_pub None None 0 false).

Abbreviation kk := (exec KkHandshakeState CryptoError).

Definition with_symmetric (f : NoiseSymmetricState -> NoiseSymmetricState) : kk unit := fun s =>
  (Ok tt, MkKk (kk_role s) (f (symmetric s)) (local_static_priv s) (remote_static_pub s)
            (local_ephemeral_priv s) (remote_ephemeral_pub s) (message_index s) (finished s)).
Definition on_symmetric {A} (f : exec NoiseSymmetricState CryptoError A) : kk A := fun s =>
  let '(r, sym) := f (symmetric s) in
  (r, MkKk (kk_role s) sym (local_static_priv s) (remote_static_pub s)
        (local_ephemeral_priv s) (remote_ephemeral_pub s) (message_index s) (finished s)).
Definition set_local_ephemeral (e : option bytes) : kk unit := fun s =>
  (Ok tt, MkKk (kk_role s) (symmetric s) (local_static_priv s) (remote_static_pub s)
            e (remote_ephemeral_pub s) (message_index s) (finished s)).
Definition set_remote_ephemeral (e : bytes) : kk unit := fun s =>
  (Ok tt, MkKk (kk_role s) (symmetric s) (local_static_priv s) (remote_static_pub s)
            (local_ephemeral_priv s) (Some e) (message_index s) (finished s)).

(** [mix_key(&dh(private, public)?)]. *)
Definition mix_dh (private public : KkHandshakeState -> bytes) : kk unit := fun s =>
  (do? shared <- elift (dh (private s) (public s)) ;; with_symmetric (mix_key shared)) s.

Definition advance : kk unit := fun s =>
  let index := message_index s + 1 in
  let done_ := index =? 2 in
  (Ok tt, MkKk (kk_role s) (symmetric s) (local_static_priv s) (remote_static_pub s)
            (if done_ then None else local_ephemeral_priv s) (remote_ephemeral_pub s)
            index (if done_ then true else finished s)).

(** [fresh_ephemeral_private]'s draw is [drawn]. *)
Definition write_ephemeral (drawn : result CryptoError bytes) : kk (bytes * bytes) :=
  do? ephemeral_priv <- elift drawn ;;
  let ephemeral_pub := x25519_public_key ephemeral_priv in
  do? _ <- set_local_ephemeral (Some ephemeral_priv) ;;
  do? _ <- with_symmetric (mix_hash ephemeral_pub) ;;
  eret (ephemeral_priv, ephemeral_pub).

(** The message is at least [KK_HANDSHAKE_MESSAGE_SIZE] long, so the slice is in range. *)
Definition read_ephemeral (message : bytes) : kk bytes :=
  let ephemeral_pub := take_z message X25519_KEY_SIZE in
  do? _ <- set_remote_ephemeral ephemeral_pub ;;
  do? _ <- with_symmetric (mix_hash ephemeral_pub) ;;
  eret ephemeral_pub.

Definition write_initiator_message_1 (drawn : result CryptoError bytes) (payload : bytes) : kk bytes :=
  do? '(ephemeral_priv, ephemeral_pub) <- write_ephemeral drawn ;;
  do? _ <- mix_dh (fun _ => ephemeral_priv) remote_static_pub ;;
  do? _ <- mix_dh local_static_priv remote_static_pub ;;
  do? sealed <- on_symmetric (encrypt_and_hash payload) ;;
  eret (ephemeral_pub ++ sealed).

Definition read_responder_message_1 (message : bytes) : kk bytes :=
  do? ephemeral_pub <- read_ephemeral message ;;
  do? _ <- mix_dh local_static_priv (fun _ => ephemeral_pub) ;;
  do? _ <- mix_dh local_static_priv remote_static_pub ;;
  on_symmetric (decrypt_and_hash (drop_z message X25519_KEY_SIZE)).

Definition write_responder_message_2 (drawn : result CryptoError bytes) (payload : bytes) : kk bytes := fun s =>
  match remote_ephemeral_pub s with
  | None => (Err NoiseHandshake, s)
  | Some remote_ephemeral =>
      (do? '(ephemeral_priv, ephemeral_pub) <- write_ephemeral drawn ;;
       do? _ <- mix_dh (fun _ => ephemeral_priv) (fun _ => remote_ephemeral) ;;
       do? _ <- mix_dh (fun _ => ephemeral_priv) remote_static_pub ;;
       do? sealed <- on_symmetric (encrypt_and_hash payload) ;;
       eret (ephemeral_pub ++ sealed)) s
  end.

Definition read_initiator_message_2 (message : bytes) : kk bytes := fun s =>
  match local_ephemeral_priv s with
  | None => (Err NoiseHandshake, s)
  | Some local_ephemeral =>
      (do? ephemeral_pub <- read_ephemeral message ;;
       do? _ <- mix_dh (fun _ => local_ephemeral) (fun _ => ephemeral_pub) ;;
       do? _ <- mix_dh local_static_priv (fun _ => ephemeral_pub) ;;
       on_symmetric (decrypt_and_hash (drop_z message X25519_KEY_SIZE))) s
  end.

Definition kk_write_message (drawn : result CryptoError bytes) (payload : bytes) (capacity : Z) :
  kk bytes := fun s =>
  if finished s then (Err NoiseHandshake, s)
  else
    (do? message <-
       match kk_role s, message_index s with
       | Initiator, 0 => write_initiator_message_1 drawn payload
       | Responder, 1 => write_responder_message_2 drawn payload
       | _, _ => efail NoiseHandshake
       end ;;
     if capacity <? len message then efail NoiseHandshake
     else do? _ <- advance ;; eret message) s.

Definition kk_read_message (message : bytes) (capacity : Z) : kk bytes := fun s =>
  if finished s || (len message <? KK_HANDSHAKE_MESSAGE_SIZE) then (Err NoiseHandshake, s)
  else
    (do? payload <-
       match kk_role s, message_index s with
       | Responder, 0 => read_responder_message_1 message
       | Initiator, 1 => read_initiator_message_2 message
       | _, _ => efail NoiseHandshake
       end ;;
     if capacity <? len payload then efail NoiseHandshake
     else do? _ <- advance ;; eret payload) s.

Definition into_transport (s : KkHandshakeState) : result CryptoError NoiseTransport :=
  if negb (finished s) then Err HandshakeIncomplete
  else
    let '(c1, c2) := split (symmetric s) in
    Ok (match kk_role s with
        | Initiator => MkTransport (initialize_key c1) (initialize_key c2)
        | Responder => MkTransport (initialize_key c2) (initialize_key c1)
        end).

End Noise.

(** ** Lemmas *)

(** Run the steps of a message up to the next agreement or cipher. *)
Ltac kk_run :=
  unfold kk_write_message, kk_read_message, write_initiator_message_1, read_responder_message_1,
    write_responder_message_2, read_initiator_message_2, write_ephemeral, read_ephemeral, mix_dh,
    on_symmetric, advance, set_local_ephemeral, set_remote_ephemeral, with_symmetric, ebind, elift, eret;
  cbn -[dh mix_key encrypt_and_hash decrypt_and_hash x25519_public_key mix_hash
        KK_HANDSHAKE_MESSAGE_SIZE X25519_KEY_SIZE Z.ltb app].

Section Agreement.
Context `{X25519Laws, NoiseSuiteLaws}.

Lemma dh_comm a b : dh a (x25519_public_key b) = dh b (x25519_public_key a).
Proof. unfold dh, x25519_public_key. by rewrite agreement_commutes. Qed.

(** What a state with a fresh key encrypts, the same state decrypts, and both end equal. *)
Lemma seal_agrees material s :
  exists sealed s', len sealed = NOISE_TAG_SIZE /\
    encrypt_and_hash [] (mix_key material s) = (Ok sealed, s') /\
    decrypt_and_hash sealed (mix_key material s) = (Ok [], s').
Proof.
  unfold mix_key. destruct (derive_2 _ _) as [ck k].
  destruct (chacha_total k (nonce_bytes 0) (handshake_hash s) []) as [c Hc]; [done|].
  destruct (chacha_inverse _ _ _ _ _ Hc) as [Hd Hl]. eexists c, _. rewrite Hl. split; [done|].
  unfold encrypt_and_hash, decrypt_and_hash, on_cipher, encrypt, decrypt, ebind.
  cbn [cipher key nonce initialize_key handshake_hash].
  rewrite Hc, Hd. rewrite (proj2 (Z.ltb_ge (len c) _)) by (rewrite Hl; done). done.
Qed.

Lemma split_message priv sealed :
  len sealed = NOISE_TAG_SIZE ->
  let m := x25519_public_key priv ++ sealed in
  len m = KK_HANDSHAKE_MESSAGE_SIZE /\ take_z m X25519_KEY_SIZE = x25519_public_key priv /\
  drop_z m X25519_KEY_SIZE = sealed.
Proof.
  intros Hs. pose proof (public_size priv) as Hp. cbn. unfold x25519_public_key in *.
  rewrite len_app, Hp, Hs. split; [done|]. unfold take_z, drop_z. unfold len in Hp.
  rewrite take_app_length', drop_app_length' by lia. done.
Qed.

Lemma room cap : KK_HANDSHAKE_MESSAGE_SIZE <= cap -> (cap <? len (@nil Z)) = false.
Proof.
  unfold KK_HANDSHAKE_MESSAGE_SIZE, X25519_KEY_SIZE, NOISE_TAG_SIZE. rewrite len_nil. intros.
  apply Z.ltb_ge. lia.
Qed.

Lemma message_1 sym a b ea s1 s2 cap :
  KK_HANDSHAKE_MESSAGE_SIZE <= cap ->
  dh ea (x25519_public_key b) = Ok s1 -> dh a (x25519_public_key b) = Ok s2 ->
  exists m1 sym',
    kk_write_message (Ok ea) [] cap (MkKk Initiator sym a (x25519_public_key b) None None 0 false)
    = (Ok m1, MkKk Initiator sym' a (x25519_public_key b) (Some ea) None 1 false) /\
    kk_read_message m1 cap (MkKk Responder sym b (x25519_public_key a) None None 0 false)
    = (Ok [], MkKk Responder sym' b (x25519_public_key a) None (Some (x25519_public_key ea)) 1 false).
Proof.
  intros Hcap Hs1 Hs2.
  destruct (seal_agrees s2 (mix_key s1 (mix_hash (x25519_public_key ea) sym))) as (sealed & sym' & Hl & He & Hd).
  destruct (split_message ea sealed Hl) as (Hm & Ht & Hr).
  exists (x25519_public_key ea ++ sealed), sym'. split; kk_run.
  - rewrite Hs1. kk_run. rewrite Hs2. kk_run. rewrite He. kk_run.
    rewrite (proj2 (Z.ltb_ge _ _)) by lia. done.
  - rewrite Hm, Z.ltb_irrefl. kk_run. rewrite Ht, Hr, dh_comm, Hs1. kk_run. rewrite (dh_comm b a), Hs2. kk_run.
    rewrite Hd. kk_run. by rewrite room.
Qed.

Lemma message_2 sym a b ea eb s1 s2 cap :
  KK_HANDSHAKE_MESSAGE_SIZE <= cap ->
  dh eb (x25519_public_key ea) = Ok s1 -> dh eb (x25519_public_key a) = Ok s2 ->
  exists m2 sym',
    kk_write_message (Ok eb) [] cap
      (MkKk Responder sym b (x25519_public_key a) None (Some (x25519_public_key ea)) 1 false)
    = (Ok m2, MkKk Responder sym' b (x25519_public_key a) None (Some (x25519_public_key ea)) 2 true) /\
    kk_read_message m2 cap (MkKk Initiator sym a (x25519_public_key b) (Some ea) None 1 false)
    = (Ok [], MkKk Initiator sym' a (x25519_public_key b) None (Some (x25519_public_key eb)) 2 true).
Proof.
  intros Hcap Hs1 Hs2.
  destruct (seal_agrees s2 (mix_key s1 (mix_hash (x25519_public_key eb) sym))) as (sealed & sym' & Hl & He & Hd).
  destruct (split_message eb sealed Hl) as (Hm & Ht & Hr).
  exists (x25519_public_key eb ++ sealed), sym'. split; kk_run.
  - rewrite Hs1. kk_run. rewrite Hs2. kk_run. rewrite He. kk_run.
    rewrite (proj2 (Z.ltb_ge _ _)) by lia. done.
  - rewrite Hm, Z.ltb_irrefl. kk_run. rewrite Ht, Hr, dh_comm, Hs1. kk_run. rewrite (dh_comm a eb), Hs2. kk_run.
    rewrite Hd. kk_run. by rewrite room.
Qed.
End Agreement.

(** ** Linked transports *)

(** Each end reads next what the other writes next. *)
Definition linked (a b : NoiseTransport) : Prop :=
  send a = receive b /\ send b = receive a /\ is_Some (key (send a)) /\ is_Some (key (send b)) /\
  0 <= nonce (send a) /\ 0 <= nonce (send b).

Lemma linked_sym a b : linked a b -> linked b a.
Proof. unfold linked. tauto. Qed.

Section Links.
Context `{NoiseSuiteLaws}.

(** A message is written unless the counter is spent, and arrives. *)
Lemma linked_delivers a b m cap cap' :
  linked a b -> nonce (send a) < U64_MAX -> len m <= MAX_FRAME_PLAINTEXT ->
  len m + NOISE_TAG_SIZE <= cap -> len m <= cap' ->
  exists c a' b', transport_write m cap a = (Ok c, a') /\ len c = len m + NOISE_TAG_SIZE /\
    transport_read c cap' b = (Ok m, b') /\ linked a' b' /\
    nonce (send a') = nonce (send a) + 1 /\ send b' = send b /\ receive a' = receive a.
Proof.
  intros (Hab & Hba & [k Hk] & [k' Hk'] & Hn & Hn') Hmax Hm Hc Hc'.
  destruct (chacha_total k (nonce_bytes (nonce (send a))) [] m Hm) as [c Hs].
  destruct (chacha_inverse _ _ _ _ _ Hs) as [Hd Hl].
  unfold transport_write, transport_read, encrypt, decrypt, advance_nonce. rewrite <- Hab, Hk, Hs.
  unfold checked_add. rewrite (proj2 (Z.leb_le _ _)) by lia.
  rewrite (proj2 (Z.ltb_ge cap _)) by lia. eexists c, _, _. split; [reflexivity|].
  rewrite Hl. split; [done|]. pose proof (len_nonneg m).
  rewrite (proj2 (Z.ltb_ge (len m + _) _)) by lia. rewrite Hd.
  rewrite (proj2 (Z.ltb_ge cap' _)) by lia. split; [reflexivity|].
  unfold linked; cbn.
  split_and!; first [done | lia | by eexists | rewrite Hk; done | idtac].
Qed.
End Links.

Lemma kk_agreement `{X25519Laws, NoiseSuiteLaws} (a b ea eb prologue es ss ee se : bytes) (cap : Z) :
  KK_HANDSHAKE_MESSAGE_SIZE <= cap ->
  dh ea (x25519_public_key b) = Ok es -> dh a (x25519_public_key b) = Ok ss ->
  dh eb (x25519_public_key ea) = Ok ee -> dh eb (x25519_public_key a) = Ok se ->
  exists i r m1 i1 r1 m2 i2 r2 ti tr,
    kk_new Initiator a (x25519_public_key b) prologue = Ok i /\
    kk_new Responder b (x25519_public_key a) prologue = Ok r /\
    kk_write_message (Ok ea) [] cap i = (Ok m1, i1) /\ kk_read_message m1 cap r = (Ok [], r1) /\
    kk_write_message (Ok eb) [] cap r1 = (Ok m2, r2) /\ kk_read_message m2 cap i1 = (Ok [], i2) /\
    handshake_hash (symmetric i2) = handshake_hash (symmetric r2) /\
    into_transport i2 = Ok ti /\ into_transport r2 = Ok tr /\ linked ti tr.
Proof.
  intros Hcap Hes Hss Hee Hse.
  set (sym := mix_hash (x25519_public_key b) (mix_hash (x25519_public_key a)
                (mix_hash prologue (symmetric_new (utf8 MANDATORY_SESSION_SUITE))))).
  destruct (message_1 sym a b ea es ss cap Hcap Hes Hss) as (m1 & sym1 & Hw1 & Hr1).
  destruct (message_2 sym1 a b ea eb ee se cap Hcap Hee Hse) as (m2 & sym2 & Hw2 & Hr2).
  destruct (split sym2) as [c1 c2] eqn:Es.
  eexists _, _, m1, _, _, m2, _, _, _, _. split; [reflexivity|]. split; [reflexivity|].
  split; [exact Hw1|]. split; [exact Hr1|]. split; [exact Hw2|]. split; [exact Hr2|].
  split; [reflexivity|]. unfold into_transport. cbn [finished negb symmetric kk_role].
  rewrite Es. split; [reflexivity|]. split; [reflexivity|].
  by split_and!; try eexists.
Qed.

(** ** Properties *)

(** (liveness) Two endpoints that hold one another's static public keys and
    run over the same prologue complete the handshake, whatever ephemeral keys
    they draw, provided no agreement is degenerate: each reads the other's
    message, and they end with the same transcript hash and with transports of
    which each reads what the other writes. *)
Theorem kk_handshake_agrees `{X25519Laws, NoiseSuiteLaws} (a b ea eb prologue es ss ee se : bytes) (cap : Z) :
  KK_HANDSHAKE_MESSAGE_SIZE <= cap ->
  dh ea (x25519_public_key b) = Ok es -> dh a (x25519_public_key b) = Ok ss ->
  dh eb (x25519_public_key ea) = Ok ee -> dh eb (x25519_public_key a) = Ok se ->
  exists i r m1 i1 r1 m2 i2 r2 ti tr,
    kk_new Initiator a (x25519_public_key b) prologue = Ok i /\
    kk_new Responder b (x25519_public_key a) prologue = Ok r /\
    kk_write_message (Ok ea) [] cap i = (Ok m1, i1) /\ kk_read_message m1 cap r = (Ok [], r1) /\
    kk_write_message (Ok eb) [] cap r1 = (Ok m2, r2) /\ kk_read_message m2 cap i1 = (Ok [], i2) /\
    handshake_hash (symmetric i2) = handshake_hash (symmetric r2) /\
    into_transport i2 = Ok ti /\ into_transport r2 = Ok tr /\ linked ti tr.
Proof. apply kk_agreement. Qed.

(** *** Witness *)

Definition toy_pad (a : bytes) : bytes := take 32 (a ++ repeat 0 32).
Definition toy_sum (p q : bytes) : bytes := zip_with (fun x y => (x + y) mod 256) p q.

Lemma toy_sum_comm p q : toy_sum p q = toy_sum q p.
Proof.
  unfold toy_sum. revert q. induction p as [|x p IH]; intros [|y q]; cbn; [done..|]. rewrite IH. do 2 f_equal. lia.
Qed.

#[local] Instance toy_x25519 : X25519 := {|
  mul_clamped p a := toy_sum p (toy_pad a); mul_base_clamped := toy_pad; identity_point := repeat 0 32 |}.

#[local] Instance toy_suite : NoiseSuite := {|
  sha512 m := repeat (foldr Z.add 0 m mod 256) 64;
  hmac_sha512 k m := repeat (foldr Z.add 0 (k ++ m) mod 256) 64;
  chacha_encrypt k n ad m := Some (m ++ repeat 0 16);
  chacha_decrypt k n ad c := Some (take (length c - 16) c) |}.

#[local] Instance toy_x25519_laws : X25519Laws.
Proof.
  split; [intros a b; apply toy_sum_comm|]. intros a. cbn [mul_base_clamped toy_x25519]. unfold toy_pad, len.
  rewrite length_take, length_app, repeat_length. unfold X25519_KEY_SIZE. lia.
Qed.

#[local] Instance toy_suite_laws : NoiseSuiteLaws.
Proof.
  split; [|intros; by eexists|done]. intros k n ad m c. cbn [chacha_encrypt chacha_decrypt toy_suite]. intros [= <-]. split.
  - rewrite length_app. cbn [length]. by rewrite Nat.add_sub, take_app_length.
  - by rewrite len_app.
Qed.

Lemma kk_handshake_agrees_witness :
  exists i2 r2 ti tr, into_transport i2 = Ok ti /\ into_transport r2 = Ok tr /\ linked ti tr.
Proof.
  destruct (kk_handshake_agrees (repeat 1 32) (repeat 2 32) (repeat 3 32) (repeat 4 32) (utf8 "prologue")
    (repeat 5 32) (repeat 3 32) (repeat 7 32) (repeat 5 32) 65535)
    as (i & r & m1 & i1 & r1 & m2 & i2 & r2 & ti & tr & Hall); [by vm_compute..|].
  exists i2, r2, ti, tr. tauto.
Defined.

End Noise.
