(* ===== verification/RappChannel.v ===== *)
(** * The secure channel of the remote card protocol

    crates/rapp/src/transport.rs (frames and transport profiles) and crypto.rs:
    the handshake channel, the identifiers derived from its transcript, and the
    encrypted channel that numbers what it seals.  Pairings run on the package
    [snow] and sessions on the handshake of [RappNoise]; the operations used of
    the package are the class [SnowApi], and [SnowLaws] is what a completed
    handshake of it gives.  SHA-256 is a parameter.

    The theorem: what one end of a channel seals the other opens, in order and
    under the same numbers, and the numbers are those of the cipher. *)

From stdpp Require Import base list strings option.
From Stdlib Require Import ZArith Lia.
From S2P Require Import Prelude RappState RappCbor RappWire RappOperation RappMessage RappPairRecord RappNoise.

Module Channel.
Import Cbor Wire Op Msg PairRecord Noise.

(** ** Frames and transports (transport.rs) *)

Definition MAX_FRAME_SIZE : Z := 65535.

Definition BinaryFrame : Type := bytes.
Definition BinaryFrame_reconstruct (bs : bytes) : result FrameError BinaryFrame :=
  if len bs >? MAX_FRAME_SIZE then Err (Oversized (len bs) MAX_FRAME_SIZE) else Ok bs.

Inductive TransportProfile := Ble | Stream.

Definition BLE_PROFILE : string := "fi.refineid.rapp.ble".
Definition STREAM_PROFILE : string := "fi.refineid.stream".
Definition BLE_CANDIDATE_ID : string := "ble".
Definition STREAM_CANDIDATE_ID : string := "stream".

Definition profile_name (p : TransportProfile) : string :=
  match p with Ble => BLE_PROFILE | Stream => STREAM_PROFILE end.
Definition profile_candidate_id (p : TransportProfile) : string :=
  match p with Ble => BLE_CANDIDATE_ID | Stream => STREAM_CANDIDATE_ID end.

(** ** Packages *)

(** [snow::HandshakeState] and [snow::TransportState]: a message is written into
    a buffer of the given capacity, or read into one. *)
Class SnowApi (Hs Ts : Type) := {
  snow_hs_write : bytes -> Z -> exec Hs unit bytes;
  snow_hs_read : bytes -> Z -> exec Hs unit bytes;
  snow_finished : Hs -> bool;
  snow_hash : Hs -> bytes;
  snow_remote_static : Hs -> option bytes;
  snow_into_transport : Hs -> option Ts;
  snow_write : bytes -> Z -> exec Ts unit bytes;
  snow_read : bytes -> Z -> exec Ts unit bytes }.

Class SnowLaws (Hs Ts : Type) `{SnowApi Hs Ts} := {
  snow_linked : Ts -> Ts -> Prop;
  snow_written : Ts -> Z;
  snow_linked_sym a b : snow_linked a b -> snow_linked b a;
  snow_delivers a b m cap cap' :
    snow_linked a b -> snow_written a < U64_MAX -> len m <= MAX_FRAME_PLAINTEXT ->
    len m + NOISE_TAG_SIZE <= cap -> len m <= cap' ->
    exists c a' b', snow_write m cap a = (Ok c, a') /\ len c = len m + NOISE_TAG_SIZE /\
      snow_read c cap' b = (Ok m, b') /\ snow_linked a' b' /\
      snow_written a' = snow_written a + 1 /\ snow_written b' = snow_written b }.

Class Sha256 := sha256 : bytes -> bytes.

(** ** Handshakes (crypto.rs) *)

Definition derive_id `{NoiseSuite} (label : string) (size : Z) (handshake_hash : bytes) : bytes :=
  take_z (sha512 (utf8 label ++ handshake_hash)) size.
Definition derive_session_id `{NoiseSuite} (handshake_hash : bytes) : bytes :=
  derive_id "rapp-session-id" SESSION_ID_SIZE handshake_hash.
Definition derive_pair_id `{NoiseSuite} (handshake_hash : bytes) : bytes :=
  derive_id "rapp-pair-id" PAIR_ID_SIZE handshake_hash.

(** [names.dedup()]. *)
Fixpoint dedup (l : list bytes) : list bytes :=
  match l with
  | a :: ((b :: _) as rest) => if bool_decide (a = b) then dedup rest else a :: dedup rest
  | _ => l
  end.

Fixpoint insert_name (x : bytes) (l : list bytes) : list bytes :=
  match l with
  | [] => [x]
  | y :: rest => if lex_ltb y x then y :: insert_name x rest else x :: l
  end.

Definition compute_grants_hash `{Sha256} (profiles : list ProfileName) : result CryptoError bytes :=
  let names := dedup (foldr insert_name [] (map (fun p => utf8 (ProfileName_as_str p)) profiles)) in
  let? encoded := map_err WireErr (encode_deterministic_cbor (Array (map Text names))) in
  Ok (sha256 encoded).

Definition pairing_prologue (offer_hash transport_profile : bytes) : result CryptoError bytes :=
  map_err WireErr (encode_deterministic_cbor (Array
    [Text (utf8 "rapp-pairing"); Array version_value; Text (utf8 CPACE_KC2_SUITE);
     Bytes offer_hash; Text transport_profile])).

Definition session_prologue (pair_id grants_hash transport_profile : bytes) : result CryptoError bytes :=
  map_err WireErr (encode_deterministic_cbor (Array
    [Text (utf8 "rapp-session"); Array version_value; Text (utf8 MANDATORY_SESSION_SUITE);
     Bytes pair_id; Bytes grants_hash; Text transport_profile])).

Section Channel.
Context {Hs Ts : Type} `{SnowApi Hs Ts, X25519, NoiseSuite}.

Inductive HandshakeChannelState := SnowState (s : Hs) | KkState (s : KkHandshakeState).

Record HandshakeChannel := MkHandshakeChannel {
  hc_state : HandshakeChannelState; derive_pair : bool }.

Inductive TransportMode := SnowMode (t : Ts) | Native (t : NoiseTransport).

Record SecureChannel := MkChannel { transport : TransportMode; channel_sequence : SequenceGuard }.

Record HandshakeCompletion := MkCompletion {
  secure_channel : SecureChannel; completion_session_id : bytes; completion_pair_id : option bytes;
  remote_static_key : bytes }.

Inductive OpenError :=
  | SessionIntegrityFailure
  | AuthenticatedProtocolViolation (e : WireError).

(** [HandshakeChannel::session]. *)
Definition session_channel (role : HandshakeRole) (private_key remote_public_key pair_id grants_hash
    transport_profile : bytes) : result CryptoError HandshakeChannel :=
  let? prologue := session_prologue pair_id grants_hash transport_profile in
  let? state := kk_new role private_key remote_public_key prologue in
  Ok (MkHandshakeChannel (KkState state) false).

(** The ephemeral key a KK message draws is [drawn]; [snow] draws its own. *)
Definition hc_write_message (drawn : result CryptoError bytes) :
  exec HandshakeChannel CryptoError BinaryFrame := fun hc =>
  let '(r, state) :=
    match hc_state hc with
    | SnowState s => let '(r, s) := snow_hs_write [] MAX_FRAME_SIZE s in
                     (map_err (fun _ => NoiseHandshake) r, SnowState s)
    | KkState s => let '(r, s) := kk_write_message drawn [] MAX_FRAME_SIZE s in
                   (map_err (fun _ => NoiseHandshake) r, KkState s)
    end in
  let hc := MkHandshakeChannel state (derive_pair hc) in
  match r with
  | Err e => (Err e, hc)
  | Ok output => (map_err FrameErr (BinaryFrame_reconstruct output), hc)
  end.

Definition hc_read_message (frame : BinaryFrame) : exec HandshakeChannel CryptoError unit := fun hc =>
  let '(r, state) :=
    match hc_state hc with
    | SnowState s => let '(r, s) := snow_hs_read frame MAX_FRAME_SIZE s in
                     (map_err (fun _ => NoiseHandshake) r, SnowState s)
    | KkState s => let '(r, s) := kk_read_message frame MAX_FRAME_SIZE s in
                   (map_err (fun _ => NoiseHandshake) r, KkState s)
    end in
  let hc := MkHandshakeChannel state (derive_pair hc) in
  match r with
  | Err e => (Err e, hc)
  | Ok payload => if negb (len payload =? 0) then (Err NonEmptyHandshakePayload, hc) else (Ok tt, hc)
  end.

Definition is_complete (hc : HandshakeChannel) : bool :=
  match hc_state hc with SnowState s => snow_finished s | KkState s => finished s end.

Definition complete (hc : HandshakeChannel) : result CryptoError HandshakeCompletion :=
  if negb (is_complete hc) then Err HandshakeIncomplete
  else
    match hc_state hc with
    | SnowState s =>
        let session_id := derive_session_id (snow_hash s) in
        let pair_id := if derive_pair hc then Some (derive_pair_id (snow_hash s)) else None in
        let? remote_static := ok_or (snow_remote_static s) MissingRemoteStatic in
        let? remote_static :=
          if len remote_static =? Noise.X25519_KEY_SIZE then Ok remote_static else Err InvalidKeyLength in
        let? noise := ok_or (snow_into_transport s) NoiseHandshake in
        Ok (MkCompletion (MkChannel (SnowMode noise) (SequenceGuard_new session_id)) session_id pair_id
              remote_static)
    | KkState s =>
        let session_id := derive_session_id (handshake_hash (symmetric s)) in
        let? t := into_transport s in
        Ok (MkCompletion (MkChannel (Native t) (SequenceGuard_new session_id)) session_id None
              (remote_static_pub s))
    end.

(** ** The secure channel *)

Definition mode_write (plaintext : bytes) (capacity : Z) : exec TransportMode unit bytes := fun mode =>
  match mode with
  | SnowMode t => let '(r, t) := snow_write plaintext capacity t in (r, SnowMode t)
  | Native t => let '(r, t) := transport_write plaintext capacity t in (map_err (fun _ => tt) r, Native t)
  end.
Definition mode_read (frame : bytes) (capacity : Z) : exec TransportMode unit bytes := fun mode =>
  match mode with
  | SnowMode t => let '(r, t) := snow_read frame capacity t in (r, SnowMode t)
  | Native t => let '(r, t) := transport_read frame capacity t in (map_err (fun _ => tt) r, Native t)
  end.

(** The closure given to [seal_next]; it carries the transport it leaves. *)
Definition seal_with (t : TransportMode) (plaintext : bytes) :
  result (CryptoError * TransportMode) (bytes * TransportMode) :=
  match mode_write plaintext (len plaintext + NOISE_TAG_SIZE) t with
  | (Ok output, t) => Ok (output, t)
  | (Err _, t) => Err (NoiseHandshake, t)
  end.

Definition seal (message_type : MessageType) (body : body_map) :
  exec SecureChannel CryptoError BinaryFrame := fun ch =>
  match seal_next (fun e => (WireErr e, transport ch)) message_type body (seal_with (transport ch))
          (channel_sequence ch) with
  | (Err (e, t), g) => (Err e, MkChannel t g)
  | (Ok (output, t), g) => (map_err FrameErr (BinaryFrame_reconstruct output), MkChannel t g)
  end.

Definition open_ (frame : BinaryFrame) : exec SecureChannel OpenError Envelope := fun ch =>
  let maximum_plaintext := saturating_sub (len frame) NOISE_TAG_SIZE in
  match mode_read frame (Z.min maximum_plaintext MAX_FRAME_PLAINTEXT) (transport ch) with
  | (Err _, t) => (Err SessionIntegrityFailure, MkChannel t (channel_sequence ch))
  | (Ok plaintext, t) =>
      match Envelope_decode plaintext with
      | Err e => (Err (AuthenticatedProtocolViolation e), MkChannel t (channel_sequence ch))
      | Ok envelope =>
          match accept_incoming envelope (channel_sequence ch) with
          | (Err e, g) => (Err (AuthenticatedProtocolViolation e), MkChannel t g)
          | (Ok _, g) => (Ok envelope, MkChannel t g)
          end
      end
  end.

End Channel.

Arguments HandshakeChannelState : clear implicits.
Arguments HandshakeChannel : clear implicits.
Arguments TransportMode : clear implicits.
Arguments SecureChannel : clear implicits.
Arguments HandshakeCompletion : clear implicits.

(** ** Lemmas *)

Section Delivery.
Context {Hs Ts : Type} `{SnowLaws Hs Ts, X25519, NoiseSuiteLaws}.

Definition mode_linked (a b : TransportMode Ts) : Prop :=
  match a, b with
  | SnowMode a, SnowMode b => snow_linked a b
  | Native a, Native b => linked a b
  | _, _ => False
  end.
Definition written (t : TransportMode Ts) : Z :=
  match t with SnowMode t => snow_written t | Native t => nonce (send t) end.

Lemma mode_delivers a b m cap cap' :
  mode_linked a b -> written a < U64_MAX -> len m <= MAX_FRAME_PLAINTEXT ->
  len m + NOISE_TAG_SIZE <= cap -> len m <= cap' ->
  exists c a' b', mode_write m cap a = (Ok c, a') /\ len c = len m + NOISE_TAG_SIZE /\
    mode_read c cap' b = (Ok m, b') /\ mode_linked a' b' /\
    written a' = written a + 1 /\ written b' = written b.
Proof.
  destruct a as [a|a], b as [b|b]; try done; cbn [mode_linked written]; intros Hl Hw Hm Hc Hc'.
  - destruct (snow_delivers a b m cap cap' Hl Hw Hm Hc Hc') as (c & a' & b' & Hwr & Hlen & Hr & Hl' & Ha & Hb).
    exists c, (SnowMode a'), (SnowMode b'). unfold mode_write, mode_read. rewrite Hwr, Hr. done.
  - destruct (linked_delivers a b m cap cap' Hl Hw Hm Hc Hc')
      as (c & a' & b' & Hwr & Hlen & Hr & Hl' & Ha & Hb & _).
    exists c, (Native a'), (Native b'). unfold mode_write, mode_read. rewrite Hwr, Hr. cbn. by rewrite Hb.
Qed.

(** Two ends of a channel: each reads next what the other seals next, and the
    numbers of the envelopes are those of the ciphers. *)
Definition joined (a b : SecureChannel Ts) : Prop :=
  mode_linked (transport a) (transport b) /\ mode_linked (transport b) (transport a) /\
  guard_session (channel_sequence a) = guard_session (channel_sequence b) /\
  len (guard_session (channel_sequence a)) = SESSION_ID_SIZE /\
  next_send (channel_sequence a) = next_receive (channel_sequence b) /\
  next_send (channel_sequence b) = next_receive (channel_sequence a) /\
  next_send (channel_sequence a) = written (transport a) /\
  next_send (channel_sequence b) = written (transport b) /\
  0 <= next_send (channel_sequence a) /\ 0 <= next_send (channel_sequence b).

Lemma joined_sym a b : joined a b -> joined b a.
Proof. unfold joined. intros (?&?&Heq&?&?&?&?&?&?&?). rewrite <- Heq. tauto. Qed.

Lemma mode_linked_sym a b : mode_linked a b -> mode_linked b a.
Proof. destruct a, b; cbn; [apply snow_linked_sym|done|done|apply linked_sym]. Qed.

(** The bytes an envelope is sealed as arrive at the other end. *)
Lemma seal_arrives mt body a b pt :
  joined a b -> wf (Map body) -> next_send (channel_sequence a) < U64_MAX ->
  validate_body mt body = Ok tt ->
  Envelope_encode (mkEnvelope mt (guard_session (channel_sequence a)) (next_send (channel_sequence a)) body)
  = Ok pt ->
  exists frame a' b', seal mt body a = (Ok frame, a') /\
     open_ frame b = (Ok (mkEnvelope mt (guard_session (channel_sequence a))
                            (next_send (channel_sequence a)) body), b') /\
     joined a' b' /\ next_send (channel_sequence a') = next_send (channel_sequence a) + 1 /\
     next_send (channel_sequence b') = next_send (channel_sequence b).
Proof.
  destruct a as [ta ga], b as [tb gb]. unfold joined. cbn [transport channel_sequence].
  intros (Hl & Hl' & Hsid & Hlen & Hab & Hba & Hwa & Hwb & Hp0 & Hp1) Hb Hmax Ev Ee.
  set (env := mkEnvelope mt (guard_session ga) (next_send ga) body) in *.
  assert (Envelope_decode pt = Ok env) as Hd.
  { apply envelope_decode_encode; [|done]. split_and!; cbn; [done| |done|done]. ulia. }
  assert (len pt <= MAX_FRAME_PLAINTEXT) as Hpt.
  { unfold Envelope_encode in Ee. destruct (encode_deterministic_cbor _) as [out|]; [|done]. cbn [rbind] in Ee.
    case_match_in Ee; [done|]. simplify_eq. lia. }
  destruct (mode_delivers ta tb pt (len pt + NOISE_TAG_SIZE) (len pt) Hl ltac:(lia) Hpt ltac:(lia) ltac:(lia))
    as (c & ta' & tb' & Hw & Hc & Hr & Hl2 & Hwa' & Hwb').
  exists c, (MkChannel ta' (mkGuard (guard_session ga) (next_send ga + 1) (next_receive ga))),
    (MkChannel tb' (mkGuard (guard_session gb) (next_send gb) (next_receive gb + 1))).
  unfold seal, seal_next. cbn [transport channel_sequence].
  rewrite checked_add_some by lia. unfold Envelope_reconstruct. rewrite Ev. cbn [rbind]. fold env. rewrite Ee.
  unfold seal_with. rewrite Hw. split.
  { unfold BinaryFrame_reconstruct. rewrite Z.gtb_ltb, (proj2 (Z.ltb_ge _ _)); [done|].
    unfold MAX_FRAME_PLAINTEXT, NOISE_TAG_SIZE, MAX_FRAME_SIZE in *. lia. }
  split.
  { unfold open_. cbn [transport channel_sequence].
    replace (Z.min (saturating_sub (len c) NOISE_TAG_SIZE) MAX_FRAME_PLAINTEXT) with (len pt)
      by (unfold saturating_sub; pose proof (len_nonneg pt); lia).
    rewrite Hr, Hd, (accept_next env gb) by (cbn; congruence || lia). done. }
  cbn. split_and!; try done; try lia; [by apply mode_linked_sym].
Qed.

(** Sealing either fails and changes nothing, or the other end opens the frame. *)
Lemma seal_delivers mt body a b :
  joined a b -> wf (Map body) ->
  (exists frame a' b', seal mt body a = (Ok frame, a') /\
     open_ frame b = (Ok (mkEnvelope mt (guard_session (channel_sequence a))
                            (next_send (channel_sequence a)) body), b') /\
     joined a' b' /\ next_send (channel_sequence a') = next_send (channel_sequence a) + 1 /\
     next_send (channel_sequence b') = next_send (channel_sequence b))
  \/ exists e, seal mt body a = (Err e, a).
Proof.
  intros Hj Hb. destruct (Z.lt_ge_cases (next_send (channel_sequence a)) U64_MAX) as [Hmax|Hmax].
  - destruct (validate_body mt body) as [[]|] eqn:Ev;
      [destruct (Envelope_encode (mkEnvelope mt (guard_session (channel_sequence a))
         (next_send (channel_sequence a)) body)) as [pt|] eqn:Ee|].
    + left. by apply (seal_arrives mt body a b pt).
    + right. destruct a as [ta ga]. unfold seal, seal_next, Envelope_reconstruct. cbn [transport channel_sequence] in *.
      rewrite checked_add_some, Ev by lia. cbn [rbind]. rewrite Ee. by eexists.
    + right. destruct a as [ta ga]. unfold seal, seal_next, Envelope_reconstruct. cbn [transport channel_sequence] in *.
      rewrite checked_add_some, Ev by lia. cbn [rbind]. by eexists.
  - right. destruct a as [ta ga]. unfold seal, seal_next, checked_add. cbn [transport channel_sequence] in *.
    rewrite (proj2 (Z.leb_gt _ _)) by lia. by eexists.
Qed.

End Delivery.

End Channel.
