(* ===== verification/RappSession.v ===== *)
(** * Sessions of the remote card protocol

    crates/rapp/src/session_flow.rs (the handshake of a session and the exchange
    of [session.ready] and [session.hello]), endpoint.rs (the established
    endpoint) and session_end.rs.  A method on [&mut self] is a computation on
    its record, over the channel of [RappChannel] and the states of [RappState].

    The theorems: two endpoints of a pairing open a session end to end; an
    endpoint sends nothing after its close; a custodian hands on nothing before
    the requester named itself; a close is acknowledged. *)

From stdpp Require Import base list strings option.
From Stdlib Require Import ZArith Lia.
From S2P Require Import Prelude RappState RappCbor RappWire RappOperation RappMessage RappEngines.
From S2P Require Import RappPairRecord RappNoise RappChannel.

Module Session.
Import Cbor Wire Op Msg PairRecord Noise Channel.
#[local] Existing Instance RappState.EndpointRole_eq_dec.

#[global] Instance CloseReason_eq_dec : EqDecision CloseReason.
Proof. solve_decision. Defined.
#[global] Instance SessionParameters_eq_dec : EqDecision SessionParameters.
Proof. solve_decision. Defined.

(** ** Data (endpoint.rs, session_flow.rs) *)

Inductive OperationViolation :=
  | RequesterEngine (v : Engines.RequesterViolation)
  | ProxyEngine (v : Engines.ProxyViolation).

Inductive AuthenticatedViolation :=
  | V_Wire (e : WireError)
  | V_Semantic (e : MessageError)
  | V_UnexpectedPhase (t : MessageType)
  | V_ReadyParameterMismatch
  | V_Operation (v : OperationViolation).

Inductive EndpointError :=
  | SessionClosed
  | EE_Crypto (e : CryptoError)
  | EE_Message (e : MessageError)
  | EE_UnexpectedPhase (t : MessageType).

Inductive ReceiveOutcome :=
  | Received (m : TypedMessage)
  | PeerClosed (reason : CloseReason) (echo : option BinaryFrame)
  | CloseAcknowledged (reason : CloseReason) (crossing : bool)
  | IgnoredWhileClosing
  | ClosedByFailure (actions : list RappState.Action)
  | ViolationClosed (v : AuthenticatedViolation) (actions : list RappState.Action)
      (notice : option BinaryFrame).

Inductive SessionError :=
  | RoleViolation
  | StorageUnconfirmed
  | SE_Crypto (e : CryptoError)
  | SE_Message (e : MessageError)
  | IntegrityFailure
  | UnexpectedPairId
  | DuplicateReady
  | DuplicateHello
  | ReadyIncomplete
  | Closed.

Inductive ReadyOutcome :=
  | Verified (custodian_name : DisplayName)
  | ReadyPeerClosed (reason : CloseReason) (echo : option BinaryFrame)
  | ReadyViolation (v : AuthenticatedViolation) (notice : option BinaryFrame).

Inductive CloseEcho :=
  | Acknowledged (reason : CloseReason) (crossing : bool)
  | Ignored
  | EchoClosed.

Definition permitted_in_established_session (m : TypedMessage) : bool :=
  match m with
  | T_PairingHello _ | T_PairingConfirm _ | T_PairingAbort _ | T_PairingStored _ | T_SessionReady _
  | T_SessionHello _ => false
  | _ => true
  end.

Definition result_ok {E A} (r : result E A) : option A := match r with Ok a => Some a | Err _ => None end.

Section Session.
Context {Hs Ts : Type} `{SnowApi Hs Ts, X25519, NoiseSuite}.

(** ** The established endpoint *)

Record EstablishedEndpoint := MkEndpoint {
  ep_pair_id : bytes; ep_channel : option (SecureChannel Ts); ep_state : RappState.RappState;
  awaiting_session_hello : bool; ep_close_sent : option CloseReason }.

Definition ep_set_channel (ch : option (SecureChannel Ts)) (e : EstablishedEndpoint) : EstablishedEndpoint :=
  MkEndpoint (ep_pair_id e) ch (ep_state e) (awaiting_session_hello e) (ep_close_sent e).
Definition ep_set_state (s : RappState.RappState) (e : EstablishedEndpoint) : EstablishedEndpoint :=
  MkEndpoint (ep_pair_id e) (ep_channel e) s (awaiting_session_hello e) (ep_close_sent e).
Definition ep_set_awaiting (b : bool) (e : EstablishedEndpoint) : EstablishedEndpoint :=
  MkEndpoint (ep_pair_id e) (ep_channel e) (ep_state e) b (ep_close_sent e).
Definition ep_set_close_sent (r : CloseReason) (e : EstablishedEndpoint) : EstablishedEndpoint :=
  MkEndpoint (ep_pair_id e) (ep_channel e) (ep_state e) (awaiting_session_hello e) (Some r).

Definition EstablishedEndpoint_new (pair_id : bytes) (channel : SecureChannel Ts) (state : RappState.RappState) :
  EstablishedEndpoint :=
  MkEndpoint pair_id (Some channel) state
    (match RappState.role state with RappState.Proxy => true | RappState.Requester => false end) None.

Definition awaits_close_echo (e : EstablishedEndpoint) : bool :=
  match ep_close_sent e, ep_channel e with Some _, Some _ => true | _, _ => false end.

Definition ep_seal (m : TypedMessage) : exec EstablishedEndpoint EndpointError BinaryFrame := fun e =>
  match ep_channel e with
  | None => (Err SessionClosed, e)
  | Some ch =>
      match to_wire_body m with
      | Err er => (Err (EE_Message er), e)
      | Ok body =>
          let '(r, ch) := seal (typed_message_type m) body ch in
          (map_err EE_Crypto r, ep_set_channel (Some ch) e)
      end
  end.

Definition ep_send (m : TypedMessage) : exec EstablishedEndpoint EndpointError BinaryFrame := fun e =>
  if negb (permitted_in_established_session m) then (Err (EE_UnexpectedPhase (typed_message_type m)), e)
  else match ep_close_sent e with
  | Some _ => (Err SessionClosed, e)
  | None =>
      match ep_seal m e with
      | (Err er, e) => (Err er, e)
      | (Ok frame, e) =>
          (Ok frame, match m with T_SessionClose reason => ep_set_close_sent reason e | _ => e end)
      end
  end.

Definition answer_close (reason : CloseReason) (e : EstablishedEndpoint) : ReceiveOutcome * EstablishedEndpoint :=
  let '(echo, e) := ep_seal (T_SessionClose reason) e in
  (PeerClosed reason (result_ok echo), ep_set_channel None e).

Definition close_for_violation (v : AuthenticatedViolation) (e : EstablishedEndpoint) :
  ReceiveOutcome * EstablishedEndpoint :=
  let '(state, actions) := RappState.authenticated_protocol_violation (ep_state e) in
  let '(r, e) := ep_send (T_SessionClose ProtocolViolation) (ep_set_state state e) in
  let notice := result_ok r in
  (ViolationClosed v actions notice,
   match notice with None => ep_set_channel None e | Some _ => e end).

Definition admits (e : EstablishedEndpoint) (m : TypedMessage) : bool :=
  match m with
  | T_SessionHello _ => awaiting_session_hello e
  | T_SessionClose PairingRevoked => true
  | _ => negb (awaiting_session_hello e) && permitted_in_established_session m
  end.

Definition receive_while_closing (frame : BinaryFrame) (now_ms : Z) (sent : CloseReason) :
  exec EstablishedEndpoint EndpointError ReceiveOutcome := fun e =>
  match ep_channel e with
  | None => (Err SessionClosed, e)
  | Some ch =>
      let '(opened, ch) := open_ frame ch in
      let e := ep_set_channel (Some ch) e in
      match opened with
      | Ok envelope =>
          match from_envelope envelope now_ms with
          | Ok (T_SessionClose reason) =>
              (Ok (CloseAcknowledged reason (negb (bool_decide (reason = sent)))), ep_set_channel None e)
          | _ => (Ok IgnoredWhileClosing, e)
          end
      | Err _ => (Ok (ClosedByFailure []), ep_set_channel None e)
      end
  end.

(** What [receive] does with an opened message. *)
Definition take_message (message : result MessageError TypedMessage) (e : EstablishedEndpoint) :
  ReceiveOutcome * EstablishedEndpoint :=
  match message with
  | Ok m =>
      if admits e m then
        match m with
        | T_SessionClose reason => answer_close reason e
        | T_SessionHello _ => (Received m, ep_set_awaiting false e)
        | _ => (Received m, e)
        end
      else close_for_violation (V_UnexpectedPhase (typed_message_type m)) e
  | Err error => close_for_violation (V_Semantic error) e
  end.

Definition ep_receive (frame : BinaryFrame) (now_ms : Z) :
  exec EstablishedEndpoint EndpointError ReceiveOutcome := fun e =>
  match ep_close_sent e with
  | Some sent => receive_while_closing frame now_ms sent e
  | None =>
      match ep_channel e with
      | None => (Err SessionClosed, e)
      | Some ch =>
          let '(opened, ch) := open_ frame ch in
          let e := ep_set_channel (Some ch) e in
          let '(outcome, e) :=
            match opened with
            | Ok envelope => take_message (from_envelope envelope now_ms) e
            | Err SessionIntegrityFailure =>
                let '(state, actions) := RappState.session_integrity_failed (ep_state e) in
                (ClosedByFailure actions, ep_set_channel None (ep_set_state state e))
            | Err (AuthenticatedProtocolViolation wire_error) => close_for_violation (V_Wire wire_error) e
            end in
          (Ok outcome, e)
      end
  end.

Definition ep_close_session (e : EstablishedEndpoint) : EstablishedEndpoint := ep_set_channel None e.

Definition close_for_silence (e : EstablishedEndpoint) : list RappState.Action * EstablishedEndpoint :=
  let '(state, actions) := RappState.silence_limit_reached (ep_state e) in
  (actions, ep_set_channel None (ep_set_state state e)).

Definition close_for_operation_violation (v : OperationViolation) (e : EstablishedEndpoint) :
  ReceiveOutcome * EstablishedEndpoint := close_for_violation (V_Operation v) e.

(** ** Opening a session *)

Record SessionHandshake := MkSessionHandshake {
  sh_role : RappState.EndpointRole; sh_pair_id : bytes; sh_expected_parameters : SessionParameters;
  sh_channel : HandshakeChannel Hs }.

Definition begin_ (pair : PairRecord) (transport : TransportProfile) : result SessionError SessionHandshake :=
  if negb (storage_confirmed pair) then Err StorageUnconfirmed
  else
    let expected_parameters :=
      MkSessionParameters (utf8 (profile_name transport)) (utf8 (profile_candidate_id transport))
        (record_grants_hash pair) in
    let? channel := map_err SE_Crypto
      (session_channel
         (match role pair with RappState.Requester => Initiator | RappState.Proxy => Responder end)
         (local_static_private pair) (remote_static_public pair) (pair_id pair)
         (record_grants_hash pair) (utf8 (profile_name transport))) in
    Ok (MkSessionHandshake (role pair) (pair_id pair) expected_parameters channel).

Definition begin_requester (pair : PairRecord) (transport : TransportProfile) :
  result SessionError SessionHandshake :=
  if negb (bool_decide (role pair = RappState.Requester)) then Err RoleViolation else begin_ pair transport.
Definition begin_proxy (pair : PairRecord) (transport : TransportProfile) :
  result SessionError SessionHandshake :=
  if negb (bool_decide (role pair = RappState.Proxy)) then Err RoleViolation else begin_ pair transport.

Definition sh_set_channel (c : HandshakeChannel Hs) (s : SessionHandshake) : SessionHandshake :=
  MkSessionHandshake (sh_role s) (sh_pair_id s) (sh_expected_parameters s) c.

Definition sh_write_message (drawn : result CryptoError bytes) :
  exec SessionHandshake SessionError BinaryFrame := fun s =>
  let '(r, c) := hc_write_message drawn (sh_channel s) in (map_err SE_Crypto r, sh_set_channel c s).
Definition sh_read_message (frame : BinaryFrame) : exec SessionHandshake SessionError unit := fun s =>
  let '(r, c) := hc_read_message frame (sh_channel s) in (map_err SE_Crypto r, sh_set_channel c s).

(** ** Authenticating a session *)

Record SessionAuthentication := MkAuthentication {
  sa_role : RappState.EndpointRole; sa_pair_id : bytes; sa_session_id : bytes;
  sa_expected_parameters : SessionParameters; sa_channel : option (SecureChannel Ts);
  sa_ready : bool; hello_sent : bool; sa_close_sent : option CloseReason }.

Definition into_authentication (s : SessionHandshake) : result SessionError SessionAuthentication :=
  let? completion := map_err SE_Crypto (complete (sh_channel s)) in
  match completion_pair_id completion with
  | Some _ => Err UnexpectedPairId
  | None =>
      Ok (MkAuthentication (sh_role s) (sh_pair_id s) (completion_session_id completion)
            (sh_expected_parameters s) (Some (secure_channel completion)) false false None)
  end.

Definition sa_set_channel (ch : option (SecureChannel Ts)) (s : SessionAuthentication) : SessionAuthentication :=
  MkAuthentication (sa_role s) (sa_pair_id s) (sa_session_id s) (sa_expected_parameters s) ch
    (sa_ready s) (hello_sent s) (sa_close_sent s).
Definition sa_set_ready (s : SessionAuthentication) : SessionAuthentication :=
  MkAuthentication (sa_role s) (sa_pair_id s) (sa_session_id s) (sa_expected_parameters s) (sa_channel s)
    true (hello_sent s) (sa_close_sent s).
Definition sa_set_hello_sent (s : SessionAuthentication) : SessionAuthentication :=
  MkAuthentication (sa_role s) (sa_pair_id s) (sa_session_id s) (sa_expected_parameters s) (sa_channel s)
    (sa_ready s) true (sa_close_sent s).
Definition sa_set_close_sent (r : CloseReason) (s : SessionAuthentication) : SessionAuthentication :=
  MkAuthentication (sa_role s) (sa_pair_id s) (sa_session_id s) (sa_expected_parameters s) (sa_channel s)
    (sa_ready s) (hello_sent s) (Some r).

Definition sa_seal (m : TypedMessage) : exec SessionAuthentication SessionError BinaryFrame := fun s =>
  match sa_channel s with
  | None => (Err Closed, s)
  | Some ch =>
      match to_wire_body m with
      | Err er => (Err (SE_Message er), s)
      | Ok body =>
          let '(r, ch) := seal (typed_message_type m) body ch in
          (map_err SE_Crypto r, sa_set_channel (Some ch) s)
      end
  end.

Definition sa_close_for_violation (v : AuthenticatedViolation) (s : SessionAuthentication) :
  ReadyOutcome * SessionAuthentication :=
  let '(r, s) := sa_seal (T_SessionClose ProtocolViolation) s in
  let notice := result_ok r in
  (ReadyViolation v notice,
   match notice with Some _ => sa_set_close_sent ProtocolViolation s | None => sa_set_channel None s end).

Definition send_ready (nonce : bytes) (display_name : DisplayName) :
  exec SessionAuthentication SessionError BinaryFrame := fun s =>
  if negb (bool_decide (sa_role s = RappState.Proxy)) then (Err RoleViolation, s)
  else if sa_ready s then (Err DuplicateReady, s)
  else match sa_close_sent s with
  | Some _ => (Err Closed, s)
  | None =>
      match sa_seal (T_SessionReady (MkReady (sa_expected_parameters s) nonce display_name)) s with
      | (Err e, s) => (Err e, s)
      | (Ok frame, s) => (Ok frame, sa_set_ready s)
      end
  end.

(** What [receive_ready] does with an opened message. *)
Definition take_ready (message : result MessageError TypedMessage) (s : SessionAuthentication) :
  ReadyOutcome * SessionAuthentication :=
  match message with
  | Ok (T_SessionReady ready) =>
      if bool_decide (session_parameters ready = sa_expected_parameters s)
      then (Verified (ready_display_name ready), sa_set_ready s)
      else sa_close_for_violation V_ReadyParameterMismatch s
  | Ok (T_SessionClose reason) =>
      let '(echo, s) := sa_seal (T_SessionClose reason) s in
      (ReadyPeerClosed reason (result_ok echo), sa_set_channel None s)
  | Ok m => sa_close_for_violation (V_UnexpectedPhase (typed_message_type m)) s
  | Err error => sa_close_for_violation (V_Semantic error) s
  end.

Definition receive_ready (frame : BinaryFrame) (now_ms : Z) :
  exec SessionAuthentication SessionError ReadyOutcome := fun s =>
  if negb (bool_decide (sa_role s = RappState.Requester)) then (Err RoleViolation, s)
  else if sa_ready s then (Err DuplicateReady, s)
  else match sa_close_sent s with
  | Some _ => (Err Closed, s)
  | None =>
      match sa_channel s with
      | None => (Err Closed, s)
      | Some ch =>
          let '(opened, ch) := open_ frame ch in
          let s := sa_set_channel (Some ch) s in
          match opened with
          | Err SessionIntegrityFailure => (Err IntegrityFailure, sa_set_channel None s)
          | Err (AuthenticatedProtocolViolation error) =>
              let '(outcome, s) := sa_close_for_violation (V_Wire error) s in (Ok outcome, s)
          | Ok envelope =>
              let '(outcome, s) := take_ready (from_envelope envelope now_ms) s in (Ok outcome, s)
          end
      end
  end.

Definition send_hello (display_name : DisplayName) :
  exec SessionAuthentication SessionError BinaryFrame := fun s =>
  if negb (bool_decide (sa_role s = RappState.Requester)) then (Err RoleViolation, s)
  else if negb (sa_ready s) then (Err ReadyIncomplete, s)
  else if hello_sent s then (Err DuplicateHello, s)
  else
    match sa_seal (T_SessionHello display_name) s with
    | (Err e, s) => (Err e, s)
    | (Ok frame, s) => (Ok frame, sa_set_hello_sent s)
    end.

Definition send_revocation_notice : exec SessionAuthentication SessionError BinaryFrame := fun s =>
  if bool_decide (sa_role s = RappState.Proxy) && sa_ready s then (Err DuplicateReady, s)
  else match sa_close_sent s with
  | Some _ => (Err Closed, s)
  | None =>
      let '(sealed, s) := sa_seal (T_SessionClose PairingRevoked) s in
      (sealed, match sealed with
               | Ok _ => sa_set_close_sent PairingRevoked s
               | Err _ => sa_set_channel None s
               end)
  end.

Definition receive_close_echo (frame : BinaryFrame) (now_ms : Z) :
  exec SessionAuthentication SessionError CloseEcho := fun s =>
  match sa_close_sent s, sa_channel s with
  | Some sent, Some ch =>
      let '(opened, ch) := open_ frame ch in
      let s := sa_set_channel (Some ch) s in
      match opened with
      | Ok envelope =>
          match from_envelope envelope now_ms with
          | Ok (T_SessionClose reason) =>
              (Ok (Acknowledged reason (negb (bool_decide (reason = sent)))), sa_set_channel None s)
          | _ => (Ok Ignored, s)
          end
      | Err _ => (Ok EchoClosed, sa_set_channel None s)
      end
  | _, _ => (Err Closed, s)
  end.

Definition into_established (s : SessionAuthentication) : result SessionError EstablishedEndpoint :=
  match sa_close_sent s with
  | Some _ => Err Closed
  | None =>
      if negb (sa_ready s) || (bool_decide (sa_role s = RappState.Requester) && negb (hello_sent s))
      then Err ReadyIncomplete
      else
        let? channel := ok_or (sa_channel s) Closed in
        Ok (EstablishedEndpoint_new (sa_pair_id s) channel
              (RappState.mkRappState (sa_role s) RappState.P_PairedConnected RappState.S_Healthy))
  end.

End Session.

Arguments EstablishedEndpoint : clear implicits.
Arguments SessionHandshake : clear implicits.
Arguments SessionAuthentication : clear implicits.

(** ** The end of a session at the requester (session_end.rs) *)

Inductive RequesterSessionEnd := Revoked | Withdrawn | Violation | Loss.

Definition of_received_close (reason : option CloseReason) : RequesterSessionEnd :=
  match reason with
  | Some PairingRevoked => Revoked
  | Some (ServiceWithdrawn | CardUnavailable) => Withdrawn
  | Some ProtocolViolation => Violation
  | Some (Normal | Complete | UserDisconnect | Policy | Shutdown) | None => Loss
  end.
Definition of_detected_violation : RequesterSessionEnd := Violation.
Definition redials (e : RequesterSessionEnd) : bool := match e with Loss => true | _ => false end.
Definition withdraws_identity_at_once (e : RequesterSessionEnd) : bool :=
  match e with Revoked | Withdrawn => true | _ => false end.

(** ** Lemmas *)

(** *** Runs of an endpoint *)

Section Runs.
Context {HS TS : Type} `{HSnow : SnowApi HS TS, HX : X25519, HN : NoiseSuite}.

Inductive ep_call :=
  | CallReceive (frame : BinaryFrame) (now_ms : Z)
  | CallSend (m : TypedMessage)
  | CallClose
  | CallSilence
  | CallViolation (v : OperationViolation).

(** The message whose frame an outcome asks to deliver, and the message it hands on. *)
Definition outcome_sent (o : ReceiveOutcome) : list TypedMessage :=
  match o with
  | PeerClosed reason (Some _) => [T_SessionClose reason]
  | ViolationClosed _ _ (Some _) => [T_SessionClose ProtocolViolation]
  | _ => []
  end.
Definition outcome_received (o : ReceiveOutcome) : list TypedMessage :=
  match o with Received m => [m] | _ => [] end.

Definition ep_step (c : ep_call) (e : EstablishedEndpoint TS) :
  (list TypedMessage * list TypedMessage) * EstablishedEndpoint TS :=
  match c with
  | CallReceive frame now =>
      let '(r, e) := ep_receive frame now e in
      (match r with Ok o => (outcome_sent o, outcome_received o) | Err _ => ([], []) end, e)
  | CallSend m =>
      let '(r, e) := ep_send m e in
      ((match r with Ok _ => [m] | Err _ => [] end, []), e)
  | CallClose => (([], []), ep_close_session e)
  | CallSilence => (([], []), (close_for_silence e).2)
  | CallViolation v =>
      let '(o, e) := close_for_operation_violation v e in ((outcome_sent o, outcome_received o), e)
  end.

Fixpoint ep_run (cs : list ep_call) (e : EstablishedEndpoint TS) :
  (list TypedMessage * list TypedMessage) * EstablishedEndpoint TS :=
  match cs with
  | [] => (([], []), e)
  | c :: cs =>
      let '((sent, received), e) := ep_step c e in
      let '((sent', received'), e) := ep_run cs e in
      ((sent ++ sent', received ++ received'), e)
  end.

Definition is_close (m : TypedMessage) : bool := match m with T_SessionClose _ => true | _ => false end.

(** The endpoint has sent its close, or dropped its channel. *)
Definition ended (e : EstablishedEndpoint TS) : Prop := ep_channel e = None \/ is_Some (ep_close_sent e).

Lemma ep_send_ended m e : ended e -> exists er, ep_send m e = (Err er, e).
Proof.
  intros He. unfold ep_send. case_if; [by eexists|]. destruct (ep_close_sent e) eqn:Ec; [by eexists|].
  destruct He as [He|[? He]]; [|congruence]. unfold ep_seal. rewrite He. by eexists.
Qed.

Lemma ep_receive_closing frame now e :
  is_Some (ep_close_sent e) ->
  exists r e', ep_receive frame now e = (r, e') /\ ended e' /\
    match r with Ok o => outcome_sent o = [] /\ outcome_received o = [] | Err _ => True end.
Proof.
  intros [sent Hs]. unfold ep_receive. rewrite Hs. unfold receive_while_closing.
  destruct (ep_channel e) as [ch|] eqn:Ech; [|eexists _, _; split_and!; [done|by left|done]].
  destruct (open_ frame ch) as [[env|] ch']; [|eexists _, _; split_and!; [done|by left|done]].
  destruct (from_envelope env now) as [[]|]; eexists _, _;
    (split_and!; [done|first [by left|right; cbn; by eexists]|done]).
Qed.

Lemma close_for_violation_spec v e o e' :
  close_for_violation v e = (o, e') ->
  ended e' /\ outcome_received o = [] /\
  (outcome_sent o = [] \/ (outcome_sent o = [T_SessionClose ProtocolViolation] /\ ~ ended e)).
Proof.
  unfold close_for_violation. destruct (RappState.authenticated_protocol_violation _) as [st acts].
  destruct (ep_send _ (ep_set_state st e)) as [[f|er] e1] eqn:Es; intros [= <- <-]; cbn.
  - split_and!; [|done|].
    + unfold ep_send in Es. cbn in Es. destruct (ep_close_sent e) eqn:Ec; [done|].
      destruct (ep_seal _ _) as [[]]; simplify_eq. right. by eexists.
    + right. split; [done|]. intros He. destruct (ep_send_ended (T_SessionClose ProtocolViolation) (ep_set_state st e))
        as [er Her]; [exact He|]. congruence.
  - split_and!; [by left|done|by left].
Qed.

(** What one message taken does: what it sends is a close, after which the
    endpoint has ended; what it hands on its phase admits. *)
Definition receive_spec (e : EstablishedEndpoint TS) (o : ReceiveOutcome) (e' : EstablishedEndpoint TS) : Prop :=
  (outcome_sent o = [] \/ exists r, outcome_sent o = [T_SessionClose r] /\ ended e') /\
  ((outcome_received o = [] /\ awaiting_session_hello e' = awaiting_session_hello e)
   \/ exists m, outcome_received o = [m] /\ awaiting_session_hello e' = false /\
        if awaiting_session_hello e then exists name, m = T_SessionHello name
        else permitted_in_established_session m = true).

Lemma close_for_violation_awaiting v e : awaiting_session_hello (close_for_violation v e).2 = awaiting_session_hello e.
Proof.
  unfold close_for_violation. destruct (RappState.authenticated_protocol_violation _) as [st acts].
  unfold ep_send, ep_seal. cbn. repeat case_match; simplify_eq; done.
Qed.

Lemma violation_receive_spec v e e0 :
  awaiting_session_hello e = awaiting_session_hello e0 ->
  receive_spec e0 (close_for_violation v e).1 (close_for_violation v e).2.
Proof.
  intros Ha. pose proof (close_for_violation_awaiting v e) as Haw.
  destruct (close_for_violation v e) as [o e'] eqn:Ev. destruct (close_for_violation_spec _ _ _ _ Ev) as (He & Hr & Hs).
  cbn in *. split; [|left; split; [done|congruence]]. destruct Hs as [Hs|[Hs _]]; [by left|right; by eexists].
Qed.

Lemma take_message_spec m e : receive_spec e (take_message m e).1 (take_message m e).2.
Proof.
  destruct m as [m|err]; [|by apply violation_receive_spec]. cbn [take_message].
  destruct (admits e m) eqn:Ea; [|by apply violation_receive_spec].
  assert ((forall n, m <> T_SessionHello n) -> (forall r, m <> T_SessionClose r) -> receive_spec e (Received m) e) as Hplain.
  { intros Hh Hc. split; [by left|]. right. exists m. split; [done|].
    assert (awaiting_session_hello e = false /\ permitted_in_established_session m = true) as [-> Hp]; [|done].
    destruct m; cbn in Ea; try (apply andb_prop in Ea as [Ea ?]; by apply negb_true_iff in Ea); naive_solver. }
  destruct m; try (apply Hplain; congruence).
  - cbn in Ea. split; [by left|]. right. eexists. split_and!; [done|done|]. rewrite Ea. by eexists.
  - unfold answer_close. destruct (ep_seal _ e) as [[f|er] e1] eqn:Es; cbn [fst snd].
    all: assert (awaiting_session_hello e1 = awaiting_session_hello e) as Haw
      by (unfold ep_seal in Es; repeat case_match; simplify_eq; done).
    + split; [right; eexists; split; [done|by left]|]. left. split; [done|exact Haw].
    + split; [by left|]. left. split; [done|exact Haw].
Qed.

Lemma ep_receive_spec frame now e o e' :
  ep_receive frame now e = (Ok o, e') -> receive_spec e o e'.
Proof.
  intros He. destruct (ep_close_sent e) as [sent|] eqn:Ec.
  - destruct (ep_receive_closing frame now e) as (r & e2 & Hr & _ & Ho); [by eexists|].
    rewrite Hr in He. injection He as -> ->. destruct Ho as [Ho1 Ho2]. split; [by left|]. left. split; [done|].
    unfold ep_receive in Hr. rewrite Ec in Hr. unfold receive_while_closing in Hr.
    repeat case_match; simplify_eq; done.
  - unfold ep_receive in He. rewrite Ec in He. destruct (ep_channel e) as [ch|]; [|done].
    destruct (open_ frame ch) as [[env|[|w]] ch'].
    + pose proof (take_message_spec (from_envelope env now) (ep_set_channel (Some ch') e)) as Ht.
      destruct (take_message _ _) as [o2 e2]. injection He as <- <-. exact Ht.
    + destruct (RappState.session_integrity_failed _) as [st acts]. injection He as <- <-.
      split; [by left|by left].
    + pose proof (violation_receive_spec (V_Wire w) (ep_set_channel (Some ch') e) e eq_refl) as Ht.
      destruct (close_for_violation _ _) as [o2 e2]. injection He as <- <-. exact Ht.
Qed.

Lemma ep_receive_ended frame now e :
  ended e -> exists r e', ep_receive frame now e = (r, e') /\ ended e' /\
    match r with Ok o => outcome_sent o = [] | Err _ => True end.
Proof.
  intros He. destruct (ep_close_sent e) as [sent|] eqn:Ec.
  - destruct (ep_receive_closing frame now e) as (r & e' & Hr & He' & Ho); [by eexists|].
    exists r, e'. split_and!; [done|done|]. destruct r; [by destruct Ho|done].
  - destruct He as [He|He]; [|rewrite Ec in He; by destruct He].
    unfold ep_receive. rewrite Ec, He. eexists _, _. split_and!; [done|by left|done].
Qed.

Lemma ep_receive_err frame now e er e' : ep_receive frame now e = (Err er, e') -> e' = e.
Proof.
  unfold ep_receive, receive_while_closing. intros He. repeat case_match; simplify_eq; done.
Qed.

Lemma ep_send_spec m e r e' :
  ep_send m e = (r, e') ->
  awaiting_session_hello e' = awaiting_session_hello e /\
  match r with Ok _ => is_close m = true -> ended e' | Err _ => True end.
Proof.
  unfold ep_send, ep_seal. intros He. repeat case_match; simplify_eq; (split; [done|]);
    cbn; try done; intros _; right; by eexists.
Qed.

Definition step_spec (e : EstablishedEndpoint TS) (sent received : list TypedMessage)
    (e' : EstablishedEndpoint TS) : Prop :=
  (ended e -> sent = [] /\ ended e') /\
  (sent = [] \/ exists m, sent = [m] /\ (is_close m = true -> ended e')) /\
  ((received = [] /\ awaiting_session_hello e' = awaiting_session_hello e)
   \/ exists m, received = [m] /\ awaiting_session_hello e' = false /\
        if awaiting_session_hello e then exists name, m = T_SessionHello name
        else permitted_in_established_session m = true).

Lemma ep_step_spec c e : step_spec e (ep_step c e).1.1 (ep_step c e).1.2 (ep_step c e).2.
Proof.
  destruct c as [frame now|m| | |v]; cbn [ep_step].
  - destruct (ep_receive frame now e) as [[o|er] e'] eqn:Er; cbn [fst snd].
    + destruct (ep_receive_spec _ _ _ _ _ Er) as [Hsent Hrec]. split_and!; [|naive_solver|exact Hrec].
      intros He. destruct (ep_receive_ended frame now e He) as (r & e2 & Hr & He2 & Ho). rewrite Er in Hr.
      injection Hr as <- <-. done.
    + apply ep_receive_err in Er as ->. split_and!; [done|by left|by left].
  - destruct (ep_send m e) as [r e'] eqn:Er; cbn [fst snd]. destruct (ep_send_spec _ _ _ _ Er) as [Ha Hc].
    split_and!; [|destruct r; [right; by eexists|by left]|by left].
    intros He. destruct (ep_send_ended m e He) as [er Her]. rewrite Her in Er. by injection Er as <- <-.
  - split_and!; [intros _; split; [done|by left]|by left|by left].
  - unfold close_for_silence. destruct (RappState.silence_limit_reached _) as [st acts].
    split_and!; [intros _; split; [done|by left]|by left|by left].
  - unfold close_for_operation_violation. pose proof (close_for_violation_awaiting (V_Operation v) e) as Ha.
    destruct (close_for_violation _ e) as [o e'] eqn:Ev. cbn [fst snd] in *.
    destruct (close_for_violation_spec _ _ _ _ Ev) as (He & Hr & Hsent). split_and!; [naive_solver|naive_solver|by left].
Qed.

(** What an endpoint sends over a run: messages that are no close, then at most a close. *)
Definition closes_last (sent : list TypedMessage) : Prop :=
  exists l c, sent = l ++ c /\ Forall (fun m => is_close m = false) l /\ (c = [] \/ exists r, c = [T_SessionClose r]).

Lemma ep_run_ended cs e : ended e -> (ep_run cs e).1.1 = [] /\ ended (ep_run cs e).2.
Proof.
  revert e. induction cs as [|c cs IH]; intros e He; [done|]. cbn [ep_run].
  destruct (ep_step_spec c e) as (Hd & _ & _). destruct (Hd He) as [Hsent He'].
  destruct (ep_step c e) as [[sent rec] e1]. cbn [fst snd] in *. subst sent.
  specialize (IH e1 He'). by destruct (ep_run cs e1) as [[sent' rec'] e2].
Qed.

Lemma ep_run_closes_last cs e : closes_last (ep_run cs e).1.1.
Proof.
  revert e. induction cs as [|c cs IH]; intros e; [by exists [], []; split_and!; [|constructor|left]|].
  cbn [ep_run]. destruct (ep_step_spec c e) as (_ & Hsent & _).
  destruct (ep_step c e) as [[sent rec] e1] eqn:E1. cbn [fst snd] in *.
  pose proof (IH e1) as (l & t & Hl & Hf & Ht). pose proof (ep_run_ended cs e1) as Hend.
  destruct (ep_run cs e1) as [[sent' rec'] e2]. cbn [fst snd] in *.
  destruct Hsent as [->|(m & -> & Hm)]; [by exists l, t|].
  destruct (is_close m) eqn:Ec.
  - destruct (Hend (Hm eq_refl)) as [-> _]. exists [], [m]. split_and!; [done|constructor|].
    right. destruct m; try done. by eexists.
  - exists (m :: l), t. subst. split_and!; [done|by constructor|done].
Qed.

Lemma ep_run_phase cs e :
  if awaiting_session_hello e
  then (ep_run cs e).1.2 = [] \/ exists name rest, (ep_run cs e).1.2 = T_SessionHello name :: rest /\
         Forall (fun m => permitted_in_established_session m = true) rest
  else Forall (fun m => permitted_in_established_session m = true) (ep_run cs e).1.2.
Proof.
  revert e. induction cs as [|c cs IH]; intros e; [by destruct (awaiting_session_hello e); [left|constructor]|].
  cbn [ep_run]. destruct (ep_step_spec c e) as (_ & _ & Hrec).
  destruct (ep_step c e) as [[sent rec] e1] eqn:E1. cbn [fst snd] in *.
  specialize (IH e1). destruct (ep_run cs e1) as [[sent' rec'] e2]. cbn [fst snd] in *.
  destruct Hrec as [[-> Ha]|(m & -> & Ha & Hm)]; rewrite Ha in IH; [done|].
  destruct (awaiting_session_hello e).
  - destruct Hm as [name ->]. right. by exists name, rec'.
  - by constructor.
Qed.

End Runs.

(** *** Delivery *)

Lemma envelope_encodes mt sid seq body n :
  len sid = SESSION_ID_SIZE -> fits 1 (Map body) n -> n <= 60000 ->
  exists pt, Envelope_encode (mkEnvelope mt sid seq body) = Ok pt.
Proof.
  intros Hsid Hb Hn.
  assert (fits 0 (Map (envelope_map (mkEnvelope mt sid seq body))) (n + 400)) as (out & Ho & Hl).
  { rewrite envelope_map_eq. eapply fits_weaken; [apply (fits_map 0 _ [n; 9; 25; 100; 40]); [done|]|].
    - repeat (apply List.Forall2_cons; [split; [by vm_compute|cbn [snd]]|]); [..|apply List.Forall2_nil].
      + done.
      + by apply fits_unsigned.
      + eapply fits_weaken; [by apply fits_bytes|]. cbn [session_id]. unfold SESSION_ID_SIZE in Hsid. lia.
      + eapply fits_weaken; [apply fits_text; [done|by destruct mt]|by destruct mt].
      + eexists. split; [reflexivity|by vm_compute].
    - unfold entries_size. cbn [zip zip_with foldr fst snd].
      repeat match goal with |- context [len (utf8 ?s)] =>
        let x := eval vm_compute in (len (utf8 s)) in change (len (utf8 s)) with x end. lia. }
  exists out. unfold Envelope_encode, encode_deterministic_cbor. rewrite Ho. cbn [rbind].
  rewrite Z.gtb_ltb, (proj2 (Z.ltb_ge _ _)); [done|]. unfold MAX_FRAME_PLAINTEXT. lia.
Qed.

(** A message whose body is well formed and of bounded size. *)
Definition sendable_message (now : Z) (m : TypedMessage) : Prop :=
  message_ok now m /\ exists body n, to_wire_body m = Ok body /\ wf (Map body) /\ fits 1 (Map body) n /\ n <= 60000.

Lemma name_len name : name_ok name -> len name <= 256.
Proof. unfold name_ok, check_label, DISPLAY_NAME_MAX_BYTES. intros Hn. case_match_in Hn; [done|]. lia. Qed.

Ltac one_entry := apply List.Forall2_cons; [split; [by vm_compute|cbn [snd]]|apply List.Forall2_nil].

Lemma close_sendable now reason : sendable_message now (T_SessionClose reason).
Proof.
  split; [done|]. exists (session_close_to_body reason), 200. split_and!; [done| | |done].
  - destruct reason; vm_compute; repeat first [constructor | split | reflexivity | done].
  - unfold session_close_to_body, insert. cbn [map_insert fst].
    eapply fits_weaken; [apply (fits_map 1 _ [100]); [done|one_entry]|by vm_compute].
    eapply fits_weaken; [apply fits_text; [done|by destruct reason]|by destruct reason].
Qed.

Lemma hello_sendable now name : name_ok name -> text_ok name -> sendable_message now (T_SessionHello name).
Proof.
  intros Hn Ht. pose proof (name_len name Hn). split; [done|]. exists (session_hello_to_body name), 400.
  split_and!; [done| | |done]; unfold session_hello_to_body, insert; cbn [map_insert fst].
  - constructor; [repeat constructor|]. constructor; [split; [by vm_compute|by constructor]|constructor].
  - eapply fits_weaken; [apply (fits_map 1 _ [265]); [done|one_entry]|by vm_compute].
    eapply fits_weaken; [apply fits_text; [done|unfold MAX_TEXT_SIZE; lia]|lia].
Qed.

Lemma session_parameters_map_eq p :
  session_parameters_map p =
  [(utf8 "candidate_id", Text (session_candidate_id p)); (utf8 "grants_hash", Bytes (grants_hash p));
   (utf8 "suite", Text (utf8 MANDATORY_SESSION_SUITE));
   (utf8 "transport_profile", Text (session_transport_profile p)); (utf8 "version", m_version_value)].
Proof. reflexivity. Qed.

Definition profile_parameters (t : TransportProfile) (grants : bytes) : SessionParameters :=
  MkSessionParameters (utf8 (profile_name t)) (utf8 (profile_candidate_id t)) grants.

Lemma profile_parameters_fit t grants :
  len grants = GRANTS_HASH_SIZE ->
  wf (Map (session_parameters_map (profile_parameters t grants))) /\
  fits 2 (Map (session_parameters_map (profile_parameters t grants))) 400.
Proof.
  intros Hg. unfold GRANTS_HASH_SIZE in Hg. rewrite session_parameters_map_eq. split.
  - constructor; [repeat (constructor; [|repeat (constructor; [reflexivity|])]); constructor|].
    repeat (constructor; [split; [by vm_compute|]|]); cbn [snd]; try constructor; try (by destruct t).
    repeat constructor; by vm_compute.
  - eapply fits_weaken; [apply (fits_map 2 _ [20; 41; 50; 40; 40]); [done|]|by vm_compute].
    repeat (apply List.Forall2_cons; [split; [by vm_compute|cbn [snd]]|]); [..|apply List.Forall2_nil].
    + eapply fits_weaken; [apply fits_text; [done|by destruct t]|by destruct t].
    + eapply fits_weaken; [by apply fits_bytes|]. cbn [grants_hash profile_parameters]. lia.
    + eapply fits_weaken; [by apply fits_text|by vm_compute].
    + eapply fits_weaken; [apply fits_text; [done|by destruct t]|by destruct t].
    + eexists. split; [reflexivity|by vm_compute].
Qed.

Lemma ready_sendable now t grants nc name :
  len grants = GRANTS_HASH_SIZE -> len nc = SESSION_READY_NONCE_SIZE -> name_ok name -> text_ok name ->
  sendable_message now (T_SessionReady (MkReady (profile_parameters t grants) nc name)).
Proof.
  intros Hg Hc Hn Ht. pose proof (name_len name Hn). split; [done|].
  destruct (profile_parameters_fit t grants Hg) as [Hw Hf]. unfold SESSION_READY_NONCE_SIZE in Hc.
  exists [(utf8 "display_name", Text name); (utf8 "nonce", Bytes nc);
          (utf8 "parameters", Map (session_parameters_map (profile_parameters t grants)))], 1000.
  split_and!; [by destruct t| | |done].
  - constructor; [repeat (constructor; [|repeat (constructor; [reflexivity|])]); constructor|].
    repeat (apply Forall_cons_2; [split; [by vm_compute|cbn [snd]]|]); [by constructor|constructor|exact Hw|constructor].
  - eapply fits_weaken; [apply (fits_map 1 _ [265; 41; 400]); [done|]|by vm_compute].
    repeat (apply List.Forall2_cons; [split; [by vm_compute|cbn [snd]]|]); [..|apply List.Forall2_nil].
    + eapply fits_weaken; [apply fits_text; [done|unfold MAX_TEXT_SIZE; lia]|lia].
    + eapply fits_weaken; [by apply fits_bytes|]. lia.
    + done.
Qed.

Section Delivery.
Context {HS TS : Type} `{HSnow : SnowApi HS TS, HSL : !SnowLaws HS TS, HX : X25519, HXL : !X25519Laws}.
Context `{HN : NoiseSuite, HNL : !NoiseSuiteLaws}.

Lemma message_arrives now m (a b : SecureChannel TS) :
  joined a b -> next_send (channel_sequence a) < U64_MAX -> sendable_message now m ->
  exists body frame a' b' env, to_wire_body m = Ok body /\
    seal (typed_message_type m) body a = (Ok frame, a') /\
    open_ frame b = (Ok env, b') /\ from_envelope env now = Ok m /\ joined a' b' /\
    next_send (channel_sequence a') = next_send (channel_sequence a) + 1 /\
    next_send (channel_sequence b') = next_send (channel_sequence b).
Proof.
  intros Hj Hmax (Hok & body & n & Hb & Hw & Hf & Hn). pose proof Hj as (_ & _ & _ & Hlen & _).
  destruct (envelope_encodes (typed_message_type m) _ (next_send (channel_sequence a)) body n Hlen Hf Hn) as [pt Hpt].
  destruct (seal_arrives (typed_message_type m) body a b pt Hj Hw Hmax (message_fits_schema now m body Hok Hb) Hpt)
    as (frame & a' & b' & Hs & Ho & Hj' & Ha & Hb').
  eexists body, frame, a', b', _. split_and!; [done|done|done| |done|done|done]. by apply message_reads.
Qed.

(** Two endpoints of one open session. *)
Definition ep_joined (a b : EstablishedEndpoint TS) : Prop :=
  exists ca cb, ep_channel a = Some ca /\ ep_channel b = Some cb /\ joined ca cb /\
    ep_close_sent a = None /\ ep_close_sent b = None /\
    next_send (channel_sequence ca) < U64_MAX - 1 /\ next_send (channel_sequence cb) < U64_MAX - 1.

Lemma ep_send_arrives now m a b ca cb :
  ep_channel a = Some ca -> ep_channel b = Some cb -> joined ca cb ->
  ep_close_sent a = None -> next_send (channel_sequence ca) < U64_MAX ->
  permitted_in_established_session m = true -> sendable_message now m ->
  exists frame ca' cb' env, 
    ep_send m a = (Ok frame, match m with T_SessionClose r => ep_set_close_sent r (ep_set_channel (Some ca') a)
                                        | _ => ep_set_channel (Some ca') a end) /\
    open_ frame cb = (Ok env, cb') /\ from_envelope env now = Ok m /\ joined ca' cb' /\
    next_send (channel_sequence ca') = next_send (channel_sequence ca) + 1 /\
    next_send (channel_sequence cb') = next_send (channel_sequence cb).
Proof.
  intros Ha Hb Hj Hc Hmax Hp Hm.
  destruct (message_arrives now m ca cb Hj Hmax Hm) as (body & frame & ca' & cb' & env & Hbody & Hs & Ho & Hf & Hj' & Hna & Hnb).
  exists frame, ca', cb', env. split_and!; try done.
  unfold ep_send, ep_seal. rewrite Hp, Hc, Ha, Hbody, Hs. cbn [negb map_err]. by destruct m.
Qed.

Lemma ep_seal_arrives now m a b ca cb :
  ep_channel a = Some ca -> joined ca cb -> next_send (channel_sequence ca) < U64_MAX -> sendable_message now m ->
  ep_channel b = Some cb ->
  exists frame ca' cb' env, ep_seal m a = (Ok frame, ep_set_channel (Some ca') a) /\
    open_ frame cb = (Ok env, cb') /\ from_envelope env now = Ok m /\ joined ca' cb'.
Proof.
  intros Ha Hj Hmax Hm Hb.
  destruct (message_arrives now m ca cb Hj Hmax Hm) as (body & frame & ca' & cb' & env & Hbody & Hs & Ho & Hf & Hj' & _).
  exists frame, ca', cb', env. split_and!; try done. unfold ep_seal. by rewrite Ha, Hbody, Hs.
Qed.

(** A permitted message is handed on, and the session stays open. *)
Lemma ep_message_delivered now m a b :
  ep_joined a b -> awaiting_session_hello b = false -> permitted_in_established_session m = true ->
  is_close m = false -> sendable_message now m ->
  exists frame a' b', ep_send m a = (Ok frame, a') /\ ep_receive frame now b = (Ok (Received m), b') /\
    awaiting_session_hello b' = false /\
    exists ca cb, ep_channel a' = Some ca /\ ep_channel b' = Some cb /\ joined ca cb /\
      ep_close_sent a' = None /\ ep_close_sent b' = None.
Proof.
  intros (ca & cb & Ha & Hb & Hj & Hca & Hcb & Hna & Hnb) Hw Hp Hc Hm.
  destruct (ep_send_arrives now m a b ca cb Ha Hb Hj Hca ltac:(lia) Hp Hm) as (frame & ca' & cb' & env & Hs & Ho & Hf & Hj' & _).
  exists frame, (ep_set_channel (Some ca') a), (ep_set_channel (Some cb') b).
  assert (admits b m = true) as Had.
  { destruct m; cbn in Hp, Hc |- *; try done; by rewrite Hw. }
  split_and!.
  - rewrite Hs. by destruct m.
  - unfold ep_receive. rewrite Hcb, Hb, Ho, Hf. cbn [take_message].
    replace (admits (ep_set_channel (Some cb') b) m) with true by (symmetry; exact Had).
    by destruct m.
  - done.
  - exists ca', cb'. by split_and!.
Qed.

(** A close is answered with its echo, and both ends close. *)
Lemma ep_close_acknowledged now reason a b :
  ep_joined a b -> awaiting_session_hello b = false ->
  exists frame a1 echo b1 a2,
    ep_send (T_SessionClose reason) a = (Ok frame, a1) /\
    ep_receive frame now b = (Ok (PeerClosed reason (Some echo)), b1) /\ ep_channel b1 = None /\
    ep_receive echo now a1 = (Ok (CloseAcknowledged reason false), a2) /\ ep_channel a2 = None.
Proof.
  intros (ca & cb & Ha & Hb & Hj & Hca & Hcb & Hna & Hnb) Hw.
  destruct (ep_send_arrives now (T_SessionClose reason) a b ca cb Ha Hb Hj Hca ltac:(lia) eq_refl (close_sendable now reason))
    as (frame & ca' & cb' & env & Hs & Ho & Hf & Hj' & Hna' & Hnb').
  destruct (ep_seal_arrives now (T_SessionClose reason) (ep_set_channel (Some cb') b)
              (ep_set_close_sent reason (ep_set_channel (Some ca') a)) cb' ca' eq_refl (joined_sym _ _ Hj') ltac:(lia)
              (close_sendable now reason) eq_refl) as (echo & cb2 & ca2 & env2 & Hs2 & Ho2 & Hf2 & _).
  eexists frame, _, echo, _, _. split; [exact Hs|]. split.
  - unfold ep_receive. rewrite Hcb, Hb, Ho, Hf. cbn [take_message].
    replace (admits (ep_set_channel (Some cb') b) (T_SessionClose reason)) with true
      by (cbn; rewrite Hw; by destruct reason).
    unfold answer_close. rewrite Hs2. cbn. reflexivity.
  - split; [done|]. split.
    + unfold ep_receive. cbn [ep_close_sent ep_set_close_sent]. unfold receive_while_closing.
      cbn [ep_channel ep_set_close_sent ep_set_channel]. rewrite Ho2, Hf2. rewrite bool_decide_eq_true_2 by done. reflexivity.
    + done.
Qed.

End Delivery.

(** *** Opening a session *)

Lemma prologue_encodes id grants t :
  len id = PAIR_ID_SIZE -> len grants = GRANTS_HASH_SIZE ->
  exists p, session_prologue id grants (utf8 (profile_name t)) = Ok p.
Proof.
  intros Hi Hg. unfold PAIR_ID_SIZE, GRANTS_HASH_SIZE in *.
  assert (fits 0 (Array [Text (utf8 "rapp-session"); Array version_value; Text (utf8 MANDATORY_SESSION_SUITE);
    Bytes id; Bytes grants; Text (utf8 (profile_name t))]) (9 + 6 * 60)) as (out & Ho & _).
  { eapply fits_weaken; [apply (fits_array 0 _ 60); [done|]|by vm_compute].
    repeat apply Forall_cons_2; [..|constructor].
    - eapply fits_weaken; [by apply fits_text|by vm_compute].
    - eexists. split; [reflexivity|by vm_compute].
    - eapply fits_weaken; [by apply fits_text|by vm_compute].
    - eapply fits_weaken; [by apply fits_bytes|lia].
    - eapply fits_weaken; [by apply fits_bytes|lia].
    - eapply fits_weaken; [apply fits_text; [done|by destruct t]|by destruct t]. }
  exists out. unfold session_prologue, encode_deterministic_cbor. by rewrite Ho.
Qed.

Section Opening.
Context {HS TS : Type} `{HSnow : SnowApi HS TS, HSL : !SnowLaws HS TS, HX : X25519, HXL : !X25519Laws}.
Context `{HN : NoiseSuite, HNL : !NoiseSuiteLaws}.

Lemma kk_write_room drawn p cap s m s' : kk_write_message drawn p cap s = (Ok m, s') -> len m <= cap.
Proof.
  unfold kk_write_message. intros Hw. destruct (finished s); [done|]. apply ebind_ok in Hw as (m' & s1 & _ & Hw).
  destruct (cap <? len m') eqn:E; [done|]. to_prop. apply ebind_ok in Hw as (u & s2 & _ & Hw).
  apply eret_ok in Hw as [-> _]. done.
Qed.

Lemma into_transport_fresh s t : into_transport s = Ok t -> finished s = true /\ nonce (send t) = 0.
Proof.
  unfold into_transport. destruct (finished s); [|done]. cbn [negb]. destruct (split (symmetric s)).
  destruct (kk_role s); by intros [= <-].
Qed.

Definition kk_handshake (role : RappState.EndpointRole) (id : bytes) (p : SessionParameters) (s : KkHandshakeState) :
  SessionHandshake HS := MkSessionHandshake role id p (MkHandshakeChannel (KkState s) false).

Lemma sh_write_kk role id p drawn s m s' :
  kk_write_message drawn [] MAX_FRAME_SIZE s = (Ok m, s') ->
  sh_write_message drawn (kk_handshake role id p s) = (Ok m, kk_handshake role id p s').
Proof.
  intros Hw. pose proof (kk_write_room _ _ _ _ _ _ Hw) as Hl. unfold sh_write_message, hc_write_message, kk_handshake.
  cbn [sh_channel hc_state]. rewrite Hw. cbn [map_err]. unfold BinaryFrame_reconstruct.
  by rewrite Z.gtb_ltb, (proj2 (Z.ltb_ge _ _)) by lia.
Qed.
Lemma sh_read_kk role id p s m s' :
  kk_read_message m MAX_FRAME_SIZE s = (Ok [], s') ->
  sh_read_message m (kk_handshake role id p s) = (Ok tt, kk_handshake role id p s').
Proof. intros Hr. unfold sh_read_message, hc_read_message, kk_handshake. cbn [sh_channel hc_state]. by rewrite Hr. Qed.

(** The authentication a completed handshake enters. *)
Definition kk_authentication (role : RappState.EndpointRole) (id : bytes) (p : SessionParameters)
    (sid : bytes) (t : NoiseTransport) : SessionAuthentication TS :=
  MkAuthentication role id sid p (Some (MkChannel (Native t) (SequenceGuard_new sid))) false false None.

Lemma into_authentication_kk role id p s t :
  into_transport s = Ok t ->
  into_authentication (kk_handshake role id p s)
  = Ok (kk_authentication role id p (derive_session_id (handshake_hash (symmetric s))) t).
Proof.
  intros Ht. destruct (into_transport_fresh s t Ht) as [Hf _]. unfold into_authentication, complete, is_complete, kk_handshake.
  cbn [sh_channel hc_state]. rewrite Hf. cbn [negb]. by rewrite Ht.
Qed.

Lemma native_joined ti tr sid :
  linked ti tr -> nonce (send ti) = 0 -> nonce (send tr) = 0 -> len sid = SESSION_ID_SIZE ->
  joined (MkChannel (Native ti) (SequenceGuard_new sid)) (MkChannel (Native tr) (SequenceGuard_new sid)).
Proof.
  intros Hl Hi Hr Hs. pose proof (linked_sym _ _ Hl). unfold joined. cbn. by rewrite Hi, Hr.
Qed.

Lemma session_id_size h : len (derive_session_id h) = SESSION_ID_SIZE.
Proof. unfold derive_session_id, derive_id. apply len_take_z. rewrite sha512_size. by vm_compute. Qed.

(** The records the two devices hold of one pairing. *)
Record paired (custodian requester : PairRecord) : Prop := {
  paired_roles : role custodian = RappState.Proxy /\ role requester = RappState.Requester;
  paired_ids : pair_id custodian = pair_id requester;
  paired_grants : record_grants_hash custodian = record_grants_hash requester;
  paired_confirmed : storage_confirmed custodian = true /\ storage_confirmed requester = true;
  paired_keys : remote_static_public custodian = x25519_public_key (local_static_private requester) /\
                remote_static_public requester = x25519_public_key (local_static_private custodian);
  paired_sizes : len (pair_id requester) = PAIR_ID_SIZE /\ len (record_grants_hash requester) = GRANTS_HASH_SIZE }.

Lemma begin_paired pair t p s :
  storage_confirmed pair = true ->
  session_prologue (pair_id pair) (record_grants_hash pair) (utf8 (profile_name t)) = Ok p ->
  kk_new (match role pair with RappState.Requester => Initiator | RappState.Proxy => Responder end)
    (local_static_private pair) (remote_static_public pair) p = Ok s ->
  begin_ pair t = Ok (kk_handshake (role pair) (pair_id pair) (profile_parameters t (record_grants_hash pair)) s).
Proof. intros Hc Hp Hs. unfold begin_, session_channel. rewrite Hc, Hp. cbn [negb rbind]. by rewrite Hs. Qed.

(** From the joined authentications to the open session. *)
Lemma authentication_opens now id t grants sid ta tc nc cname rname :
  joined (MkChannel (Native tc) (SequenceGuard_new sid)) (MkChannel (Native ta) (SequenceGuard_new sid)) ->
  len grants = GRANTS_HASH_SIZE -> len nc = SESSION_READY_NONCE_SIZE ->
  name_ok cname -> text_ok cname -> name_ok rname -> text_ok rname ->
  let p := profile_parameters t grants in
  exists f1 ac1 ar1 f2 ar2 ec er ec1,
    send_ready nc cname (kk_authentication RappState.Proxy id p sid tc) = (Ok f1, ac1) /\
    receive_ready f1 now (kk_authentication RappState.Requester id p sid ta) = (Ok (Verified cname), ar1) /\
    send_hello rname ar1 = (Ok f2, ar2) /\
    into_established ac1 = Ok ec /\ into_established ar2 = Ok er /\
    ep_receive f2 now ec = (Ok (Received (T_SessionHello rname)), ec1) /\
    ep_joined er ec1 /\ awaiting_session_hello er = false /\ awaiting_session_hello ec1 = false /\
    RappState.operation_admission_permitted (ep_state er) = true /\
    RappState.operation_admission_permitted (ep_state ec1) = true.
Proof.
  intros Hj Hg Hnc Hc1 Hc2 Hr1 Hr2 p.
  destruct (message_arrives now (T_SessionReady (MkReady p nc cname)) _ _ Hj ltac:(done)
              (ready_sendable now t grants nc cname Hg Hnc Hc1 Hc2))
    as (b1 & f1 & c1 & a1 & env1 & Hb1 & Hs1 & Ho1 & Hf1 & Hj1 & Hn1 & Hm1).
  destruct (message_arrives now (T_SessionHello rname) _ _ (joined_sym _ _ Hj1) ltac:(rewrite Hm1; done)
              (hello_sendable now rname Hr1 Hr2))
    as (b2 & f2 & a2 & c2 & env2 & Hb2 & Hs2 & Ho2 & Hf2 & Hj2 & Hn2 & Hm2).
  eexists f1, _, _, f2, _, _, _, _. split.
  { unfold send_ready, kk_authentication, sa_seal. rewrite bool_decide_eq_true_2 by done.
    cbn [negb sa_ready sa_close_sent sa_channel sa_expected_parameters sa_role]. rewrite Hb1, Hs1. reflexivity. }
  split.
  { unfold receive_ready, kk_authentication. rewrite bool_decide_eq_true_2 by done.
    cbn [negb sa_ready sa_close_sent sa_channel sa_role]. rewrite Ho1, Hf1. cbn [take_ready].
    rewrite bool_decide_eq_true_2 by done. reflexivity. }
  split.
  { unfold send_hello, sa_seal. rewrite bool_decide_eq_true_2 by done.
    cbn -[to_wire_body seal typed_message_type]. rewrite Hb2, Hs2. reflexivity. }
  split; [reflexivity|]. split; [reflexivity|]. split.
  { unfold ep_receive. cbn [ep_close_sent EstablishedEndpoint_new ep_channel]. rewrite Ho2, Hf2. reflexivity. }
  split_and!; try reflexivity. exists a2, c2. rewrite Hn2, Hm2, Hn1, Hm1.
  split_and!; try reflexivity. done.
Qed.

End Opening.

(** ** Properties *)

(** C9 (liveness) A session opens end to end.  When the two devices hold the
    records of one pairing and no key agreement is degenerate, the requester's
    dial and the custodian's answer complete the handshake; the custodian's
    [session.ready] is verified, the requester's [session.hello] received; and
    both are left with healthy endpoints, the two ends of one channel, whatever
    ephemeral keys, nonce and display names they use. *)
Theorem session_opens_end_to_end {HS TS : Type} `{HSnow : SnowApi HS TS, HSL : !SnowLaws HS TS}
    `{HX : X25519, HXL : !X25519Laws, HN : NoiseSuite, HNL : !NoiseSuiteLaws}
    (custodian requester : PairRecord) (t : TransportProfile) (ea eb nc cname rname es ss ee se : bytes) (now : Z) :
  paired custodian requester ->
  dh ea (remote_static_public requester) = Ok es ->
  dh (local_static_private requester) (remote_static_public requester) = Ok ss ->
  dh eb (x25519_public_key ea) = Ok ee -> dh eb (remote_static_public custodian) = Ok se ->
  len nc = SESSION_READY_NONCE_SIZE -> name_ok cname -> text_ok cname -> name_ok rname -> text_ok rname ->
  exists (hr hc hr1 hc1 hr2 hc2 : SessionHandshake HS) m1 m2 (ar ac ar1 ac1 ar2 : SessionAuthentication TS)
      f1 f2 ec er ec1,
    begin_requester requester t = Ok hr /\ begin_proxy custodian t = Ok hc /\
    sh_write_message (Ok ea) hr = (Ok m1, hr1) /\ sh_read_message m1 hc = (Ok tt, hc1) /\
    sh_write_message (Ok eb) hc1 = (Ok m2, hc2) /\ sh_read_message m2 hr1 = (Ok tt, hr2) /\
    into_authentication hr2 = Ok ar /\ into_authentication hc2 = Ok ac /\
    send_ready nc cname ac = (Ok f1, ac1) /\ receive_ready f1 now ar = (Ok (Verified cname), ar1) /\
    send_hello rname ar1 = (Ok f2, ar2) /\ into_established ac1 = Ok ec /\ into_established ar2 = Ok er /\
    ep_receive f2 now ec = (Ok (Received (T_SessionHello rname)), ec1) /\
    ep_joined er ec1 /\ awaiting_session_hello er = false /\ awaiting_session_hello ec1 = false /\
    RappState.operation_admission_permitted (ep_state er) = true /\
    RappState.operation_admission_permitted (ep_state ec1) = true.
Proof.
  intros [[Hrc Hrr] Hid Hgr [Hcc Hcr] [Hkc Hkr] [Hsi Hsg]] Hes Hss Hee Hse Hnc Hc1 Hc2 Hr1 Hr2.
  rewrite Hkr in Hes, Hss. rewrite Hkc in Hse.
  destruct (prologue_encodes (pair_id requester) (record_grants_hash requester) t Hsi Hsg) as [p Hp].
  destruct (kk_agreement (local_static_private requester) (local_static_private custodian) ea eb p es ss ee se
              MAX_FRAME_SIZE ltac:(done) Hes Hss Hee Hse)
    as (i & r & m1 & i1 & r1 & m2 & i2 & r2 & ti & tr & Hi & Hr & Hw1 & Hrd1 & Hw2 & Hrd2 & Hh & Hti & Htr & Hl).
  destruct (into_transport_fresh _ _ Hti) as [_ Hni]. destruct (into_transport_fresh _ _ Htr) as [_ Hnr].
  set (sid := derive_session_id (handshake_hash (symmetric i2))).
  pose proof (native_joined tr ti sid (linked_sym _ _ Hl) Hnr Hni (session_id_size _)) as Hj.
  destruct (authentication_opens now (pair_id requester) t (record_grants_hash requester) sid ti tr nc cname rname
              Hj Hsg Hnc Hc1 Hc2 Hr1 Hr2)
    as (f1 & ac1 & ar1 & f2 & ar2 & ec & er & ec1 & Hopen).
  eexists _, _, _, _, _, _, m1, m2, _, _, ar1, ac1, ar2, f1, f2, ec, er, ec1.
  split. { unfold begin_requester. rewrite bool_decide_eq_true_2 by done. cbn [negb].
           apply (begin_paired _ _ p i); [done|done|]. rewrite Hrr, Hkr. exact Hi. }
  split. { unfold begin_proxy. rewrite bool_decide_eq_true_2 by done. cbn [negb].
           apply (begin_paired _ _ p r); [done|by rewrite Hid, Hgr|]. rewrite Hrc, Hkc. exact Hr. }
  split; [by apply sh_write_kk|]. split; [by apply sh_read_kk|].
  split; [by apply sh_write_kk|]. split; [by apply sh_read_kk|].
  split; [by apply into_authentication_kk|]. split; [by apply into_authentication_kk|].
  rewrite <- Hh, Hid, Hgr, Hrr, Hrc. exact Hopen.
Qed.

(** C10 (safety) Nothing follows a close: over any sequence of frames received,
    messages sent, silence and violations, what an established endpoint seals is
    messages that are no close and then at most one [session.close]; once it has
    sent its close or dropped its channel it seals nothing. *)
Theorem nothing_is_sent_after_a_close {HS TS : Type} `{SnowApi HS TS, X25519, NoiseSuite}
    (cs : list ep_call) (e : EstablishedEndpoint TS) :
  closes_last (ep_run cs e).1.1 /\ (ended e -> (ep_run cs e).1.1 = []).
Proof. split; [apply ep_run_closes_last|]. intros He. by apply ep_run_ended. Qed.

(** (safety) A custodian hands on nothing before the requester named itself:
    from the endpoint a session starts with, whatever arrives, the first message
    handed on is a [session.hello], and what follows is never a hello, a
    [session.ready] or a message of the pairing; a requester is handed none of
    these at all. *)
Theorem custodian_hears_hello_first {HS TS : Type} `{SnowApi HS TS, X25519, NoiseSuite}
    (id : bytes) (ch : SecureChannel TS) (st : RappState.RappState) (cs : list ep_call) :
  let received := (ep_run cs (EstablishedEndpoint_new id ch st)).1.2 in
  match RappState.role st with
  | RappState.Proxy =>
      received = [] \/ exists name rest, received = T_SessionHello name :: rest /\
        Forall (fun m => permitted_in_established_session m = true) rest
  | RappState.Requester => Forall (fun m => permitted_in_established_session m = true) received
  end.
Proof.
  pose proof (ep_run_phase cs (EstablishedEndpoint_new id ch st)) as Hr. cbn [awaiting_session_hello EstablishedEndpoint_new] in Hr.
  by destruct (RappState.role st).
Qed.

(** (functional) An open session delivers and closes: every message permitted
    in it arrives at the other end as it was sent and leaves the session open;
    and a close is received with its reason and answered with an echo, which the
    sender takes as the acknowledgement, both ends then being closed. *)
Theorem open_session_delivers_and_closes {HS TS : Type} `{HSnow : SnowApi HS TS, HSL : !SnowLaws HS TS}
    `{HX : X25519, HN : NoiseSuite, HNL : !NoiseSuiteLaws}
    (a b : EstablishedEndpoint TS) (now : Z) :
  ep_joined a b -> awaiting_session_hello b = false ->
  (forall m, permitted_in_established_session m = true -> is_close m = false -> sendable_message now m ->
     exists frame a' b', ep_send m a = (Ok frame, a') /\ ep_receive frame now b = (Ok (Received m), b') /\
       awaiting_session_hello b' = false /\
       exists ca cb, ep_channel a' = Some ca /\ ep_channel b' = Some cb /\ joined ca cb /\
         ep_close_sent a' = None /\ ep_close_sent b' = None) /\
  (forall reason, exists frame a1 echo b1 a2,
     ep_send (T_SessionClose reason) a = (Ok frame, a1) /\
     ep_receive frame now b = (Ok (PeerClosed reason (Some echo)), b1) /\ ep_channel b1 = None /\
     ep_receive echo now a1 = (Ok (CloseAcknowledged reason false), a2) /\ ep_channel a2 = None).
Proof.
  intros Hj Hw. split.
  - intros m Hp Hc Hm. by apply ep_message_delivered.
  - intros reason. by apply ep_close_acknowledged.
Qed.

(** C40 (error) While a session is being authenticated a hello can follow a close:
    a requester that verified [session.ready] and sent the close of a revoked
    pairing still seals a [session.hello] after it. *)
Theorem hello_follows_the_revocation_close {HS TS : Type} `{HSnow : SnowApi HS TS, HSL : !SnowLaws HS TS}
    `{HX : X25519, HN : NoiseSuite, HNL : !NoiseSuiteLaws}
    (s : SessionAuthentication TS) (a b : SecureChannel TS) (name : DisplayName) (now : Z) :
  sa_role s = RappState.Requester -> sa_ready s = true -> hello_sent s = false -> sa_close_sent s = None ->
  sa_channel s = Some a -> joined a b -> next_send (channel_sequence a) + 1 < U64_MAX ->
  name_ok name -> text_ok name ->
  exists close s1 hello s2, send_revocation_notice s = (Ok close, s1) /\ sa_close_sent s1 = Some PairingRevoked /\
    send_hello name s1 = (Ok hello, s2).
Proof.
  intros Hr Hrd Hh Hc Ha Hj Hmax Hn Ht.
  destruct (message_arrives now (T_SessionClose PairingRevoked) a b Hj ltac:(lia) (close_sendable now PairingRevoked))
    as (b1 & f1 & a1 & c1 & env1 & Hb1 & Hs1 & _ & _ & Hj1 & Hn1 & _).
  destruct (message_arrives now (T_SessionHello name) a1 c1 Hj1 ltac:(lia) (hello_sendable now name Hn Ht))
    as (b2 & f2 & a2 & c2 & env2 & Hb2 & Hs2 & _).
  destruct s as [ro id sid ps ch rdy hs cs]. cbn in Hr, Hrd, Hh, Hc, Ha. subst.
  eexists f1, _, f2, _. split.
  { unfold send_revocation_notice, sa_seal. rewrite bool_decide_eq_false_2 by done.
    cbn -[to_wire_body seal typed_message_type]. rewrite Hb1, Hs1. reflexivity. }
  split; [reflexivity|].
  unfold send_hello, sa_seal. rewrite bool_decide_eq_true_2 by done.
  cbn -[to_wire_body seal typed_message_type]. rewrite Hb2, Hs2. reflexivity.
Qed.

(** *** Witnesses *)

#[local] Existing Instances Noise.toy_x25519 Noise.toy_x25519_laws Noise.toy_suite Noise.toy_suite_laws.

(** No [snow] transport takes part in a session. *)
#[local] Instance no_snow : SnowApi unit unit := {|
  snow_hs_write _ _ := efail tt; snow_hs_read _ _ := efail tt; snow_finished _ := false; snow_hash _ := [];
  snow_remote_static _ := None; snow_into_transport _ := None;
  snow_write _ _ := efail tt; snow_read _ _ := efail tt |}.
#[local, refine] Instance no_snow_laws : SnowLaws unit unit := {|
  snow_linked _ _ := False; snow_written _ := 0 |}.
Proof. all: by intros. Defined.

Definition sample_custodian : PairRecord :=
  MkRecord (repeat 1 16) RappState.Proxy (repeat 2 32) (repeat 2 32) (repeat 3 32) (repeat 5 32)
    [Authentication] (utf8 "Laptop") 1000 true None None.
Definition sample_requester : PairRecord :=
  MkRecord (repeat 1 16) RappState.Requester (repeat 3 32) (repeat 3 32) (repeat 2 32) (repeat 5 32)
    [Authentication] (utf8 "Phone") 1000 true None None.

Lemma sample_paired : paired sample_custodian sample_requester.
Proof. by split. Qed.

Lemma session_opens_end_to_end_witness :
  exists er ec1 : EstablishedEndpoint unit, ep_joined er ec1 /\
    RappState.operation_admission_permitted (ep_state er) = true.
Proof.
  destruct (session_opens_end_to_end (HS := unit) (TS := unit) sample_custodian sample_requester Ble
    (repeat 7 32) (repeat 8 32) (repeat 9 32) (utf8 "Phone") (utf8 "Laptop")
    (repeat 9 32) (repeat 5 32) (repeat 15 32) (repeat 11 32) 0 sample_paired)
    as (hr & hc & hr1 & hc1 & hr2 & hc2 & m1 & m2 & ar & ac & ar1 & ac1 & ar2 & f1 & f2 & ec & er & ec1 & Hall);
    [by vm_compute..|].
  exists er, ec1. tauto.
Defined.

Definition sample_transport : NoiseTransport := MkTransport (initialize_key (repeat 1 32)) (initialize_key (repeat 1 32)).
Definition sample_channel : SecureChannel unit :=
  MkChannel (Native sample_transport) (SequenceGuard_new (repeat 4 16)).
Definition sample_endpoint : EstablishedEndpoint unit :=
  EstablishedEndpoint_new (repeat 1 16) sample_channel
    (RappState.mkRappState RappState.Requester RappState.P_PairedConnected RappState.S_Healthy).

Lemma nothing_is_sent_after_a_close_witness :
  (ep_run [CallSend (T_LivenessPing (repeat 0 32))] (ep_close_session sample_endpoint)).1.1 = [].
Proof.
  apply (nothing_is_sent_after_a_close (HS := unit) [CallSend (T_LivenessPing (repeat 0 32))] (ep_close_session sample_endpoint)).
  by left.
Defined.

Lemma open_session_delivers_and_closes_witness :
  exists frame a1 echo b1 a2,
    ep_send (T_SessionClose Normal) sample_endpoint = (Ok frame, a1) /\
    ep_receive frame 0 sample_endpoint = (Ok (PeerClosed Normal (Some echo)), b1) /\ ep_channel b1 = None /\
    ep_receive echo 0 a1 = (Ok (CloseAcknowledged Normal false), a2) /\ ep_channel a2 = None.
Proof.
  apply (open_session_delivers_and_closes (HS := unit) sample_endpoint sample_endpoint 0); [|reflexivity].
  exists sample_channel, sample_channel. by split_and!.
Defined.

Definition sample_authentication : SessionAuthentication unit :=
  MkAuthentication RappState.Requester (repeat 1 16) (repeat 4 16) (profile_parameters Ble (repeat 5 32))
    (Some sample_channel) true false None.

Lemma hello_follows_the_revocation_close_witness :
  exists close s1 hello s2, send_revocation_notice sample_authentication = (Ok close, s1) /\
    sa_close_sent s1 = Some PairingRevoked /\ send_hello (utf8 "Laptop") s1 = (Ok hello, s2).
Proof.
  apply (hello_follows_the_revocation_close (HS := unit) sample_authentication sample_channel sample_channel (utf8 "Laptop") 0);
    done.
Defined.

End Session.
