(* ===== verification/RappDiscovery.v ===== *)
(** * Discovery records of the remote card protocol

    crates/rapp/src/txt.rs, pair_keys.rs, withdrawal.rs and announcement.rs: the
    TXT records a custodian publishes, the keys of a pairing they are bound to,
    the withdrawal hints and the instance names.  X25519 and HMAC-SHA-256 are
    third-party packages: the classes [X25519] and [HmacSha256], with
    what the code relies on as [X25519Laws] and [HmacSha256Laws].  The random source is a
    computation that returns the bytes it fills.

    The theorems: the published records are parsed back, and only they; a
    withdrawal announced by a custodian is recognised by its paired requester
    within one counter step. *)

From stdpp Require Import base list strings option sorting.
From Stdlib Require Import ZArith Lia.
From S2P Require Import Prelude RappState RappCbor RappWire RappOperation RappMessage RappPairRecord RappNoise.

Module Discovery.
Import Cbor Wire Op PairRecord.
Import RappNoise.Noise(X25519, X25519Laws, mul_clamped, mul_base_clamped, identity_point, agreement_commutes,
  x25519_public_key).

(** ** TXT records (txt.rs) *)

Definition HINT_SIZE : Z := 8.
Definition VERSION_KEY : string := "v".
Definition VERSION : string := "1".
Definition MODE_KEY : string := "mode".
Definition ENTRY_SEPARATOR : Z := 44.
Definition HEX_DIGITS_PER_BYTE : Z := 2.
Definition ENTRY_HEX_DIGITS : Z := HINT_SIZE * HEX_DIGITS_PER_BYTE.
Definition HEX_DIGITS : bytes := utf8 "0123456789abcdef".
Definition NIBBLE_BITS : Z := 4.
Definition NIBBLE_MASK : Z := 15.

Record AnnouncementCandidate := MkCandidate { hint_of : bytes; last_used_ms : Z }.

(** A sort by a strict order; equal elements keep their order. *)
Fixpoint insert_by {A} (before : A -> A -> bool) (x : A) (l : list A) : list A :=
  match l with
  | [] => [x]
  | y :: rest => if before y x then y :: insert_by before x rest else x :: l
  end.
Definition sort_by {A} (before : A -> A -> bool) (l : list A) : list A :=
  foldr (insert_by before) [] l.

(** The comparison of [most_recently_used] is [Less]. *)
Definition ranks_before (left right : AnnouncementCandidate) : bool :=
  (last_used_ms right <? last_used_ms left)
  || ((last_used_ms right =? last_used_ms left) && lex_ltb (hint_of left) (hint_of right)).

Definition most_recently_used (candidates : list AnnouncementCandidate) (limit : Z) : list bytes :=
  map hint_of (take_z (sort_by ranks_before candidates) limit).

(** [keys.iter().position(..)]. *)
Fixpoint position {A} (f : A -> bool) (l : list A) : option nat :=
  match l with
  | [] => None
  | x :: l => if f x then Some O else S <$> position f l
  end.

Fixpoint values_loop (keys : list string) (entries : list (bytes * bytes))
  (slots : list (option bytes)) : option (list (option bytes)) :=
  match entries with
  | [] => Some slots
  | (key, value) :: rest =>
      match position (fun known => eq_ignore_ascii_case (utf8 known) key) keys with
      | None => None
      | Some index =>
          match slots !! index with
          | Some None => values_loop keys rest (<[index := Some value]> slots)
          | _ => None
          end
      end
  end.
Definition values (entries : list (bytes * bytes)) (keys : list string) :
  option (list (option bytes)) := values_loop keys entries (repeat None (length keys)).

(** [HEX_DIGITS[n]], for a nibble [n]. *)
Definition hex_digit (n : Z) : Z := default 0 (get HEX_DIGITS n).

Definition lower_hex (bs : bytes) : bytes :=
  concat (map (fun byte => [hex_digit (Z.shiftr byte NIBBLE_BITS); hex_digit (Z.land byte NIBBLE_MASK)]) bs).
Definition encode_entry (entry : bytes) : bytes := lower_hex entry.

(** [join(",")]. *)
Fixpoint join (separator : Z) (parts : list bytes) : bytes :=
  match parts with
  | [] => []
  | [part] => part
  | part :: rest => part ++ separator :: join separator rest
  end.
Definition encode_list (entries : list bytes) : bytes := join ENTRY_SEPARATOR (map encode_entry entries).

Definition nibble (digit : Z) : option Z :=
  n ← position (fun candidate => candidate =? digit) HEX_DIGITS; try_from_uint U8_MAX (Z.of_nat n).

(** The loop over [bytes.as_chunks::<2>()]. *)
Fixpoint decode_pairs (bs : bytes) : option bytes :=
  match bs with
  | high :: low :: rest =>
      high ← nibble high; low ← nibble low; entry ← decode_pairs rest;
      Some (Z.lor (Z.land (Z.shiftl high NIBBLE_BITS) 255) low :: entry)
  | _ => Some []
  end.
Definition decode_entry (text : bytes) : option bytes :=
  if negb (len text =? ENTRY_HEX_DIGITS) then None else decode_pairs text.

(** [list.split(',')]. *)
Fixpoint split_on (separator : Z) (text : bytes) : list bytes :=
  match text with
  | [] => [[]]
  | b :: rest =>
      if b =? separator then [] :: split_on separator rest
      else match split_on separator rest with
           | [] => [[b]]
           | part :: parts => (b :: part) :: parts
           end
  end.

Definition decode_list (text : bytes) (maximum : Z) : option (list bytes) :=
  entries ← mapM decode_entry (split_on ENTRY_SEPARATOR text);
  if len entries <=? maximum then Some entries else None.

(** ** Pair keys (pair_keys.rs) *)

Definition PAIR_KEY_SIZE : Z := 32.
Definition HKDF_FIRST_BLOCK : Z := 1.

Class HmacSha256 := hmac_sha256 : bytes -> bytes -> bytes.

Class HmacSha256Laws `{HmacSha256} : Prop := {
  hmac_size k m : len (hmac_sha256 k m) = PAIR_KEY_SIZE;
  hmac_bytes k m : all_bytes (hmac_sha256 k m) }.

Inductive DegenerateAgreement := Degenerate.

Definition derive_pair_key `{X25519, HmacSha256} (pair_id local_static_private remote_static_public info : bytes) :
  result DegenerateAgreement bytes :=
  let agreement := mul_clamped remote_static_public local_static_private in
  if bool_decide (agreement = identity_point) then Err Degenerate
  else
    let prk := hmac_sha256 pair_id agreement in
    Ok (hmac_sha256 prk (info ++ [HKDF_FIRST_BLOCK])).

Definition mac `{HmacSha256} (key : bytes) (parts : list bytes) : bytes := hmac_sha256 key (concat parts).

(** ** Withdrawal (withdrawal.rs) *)

Definition WITHDRAWAL_HINT_SIZE : Z := HINT_SIZE.
Definition WITHDRAWAL_COUNTER_SECONDS : Z := 60.
Definition WITHDRAWN_RECORD_ENTRIES : Z := 8.
Definition MAX_INSTANCE_NAME_SIZE : Z := 63.
Definition WITHDRAWAL_KEY_INFO : bytes := utf8 "rapp-withdrawal".
Definition TXT_MODE_WITHDRAWN : string := "withdrawn".
Definition TXT_WITHDRAWN_KEY : string := "withdrawn".
Definition SERVICE_NAME_SUFFIXES : list string := ["._tcp"; "._udp"; ".local"; ".local."].

Inductive WithdrawalError :=
  | DegenerateAgreementError
  | StorageUnconfirmed
  | InvalidInstanceName
  | RandomUnavailable.

Definition InstanceName : Type := bytes.

(** [name.get(at..)]: [None] inside a character. *)
Definition str_suffix (t : bytes) (at_ : Z) : option bytes :=
  match get t at_ with
  | Some b => if cont b then None else Some (drop_z t at_)
  | None => if at_ =? len t then Some [] else None
  end.

Definition ends_with_suffix (name : bytes) (suffix : string) : bool :=
  let suffix := utf8 suffix in
  (len suffix <=? len name)
  && match str_suffix name (len name - len suffix) with
     | Some tail => eq_ignore_ascii_case tail suffix
     | None => false
     end.

Definition InstanceName_new (name : bytes) : result WithdrawalError InstanceName :=
  let looks_like_service_name := existsb (ends_with_suffix name) SERVICE_NAME_SUFFIXES in
  if is_empty name || (len name >? MAX_INSTANCE_NAME_SIZE) || looks_like_service_name
  then Err InvalidInstanceName else Ok name.

Definition withdrawal_counter (unix_time_seconds : Z) : Z := unix_time_seconds / WITHDRAWAL_COUNTER_SECONDS.

Section Keys.
Context `{X25519, HmacSha256}.

Definition WithdrawalKey : Type := bytes.

Definition WithdrawalKey_from_parts (pair_id local_static_private remote_static_public : bytes) :
  result WithdrawalError WithdrawalKey :=
  map_err (fun _ => DegenerateAgreementError)
    (derive_pair_key pair_id local_static_private remote_static_public WITHDRAWAL_KEY_INFO).

Definition WithdrawalKey_derive (r : PairRecord) : result WithdrawalError WithdrawalKey :=
  if negb (storage_confirmed r) then Err StorageUnconfirmed
  else WithdrawalKey_from_parts (pair_id r) (local_static_private r) (remote_static_public r).

(** The length octet: [u8::try_from] succeeds on every instance name. *)
Definition hint (key : WithdrawalKey) (instance : InstanceName) (counter : Z) : bytes :=
  let digest := mac key [[len instance]; instance; be_bytes 8 counter] in
  take_z digest WITHDRAWAL_HINT_SIZE.

Definition WithdrawnRecord : Type := list bytes.

Definition candidate_counters (counter : Z) : list Z :=
  omap id [checked_sub counter 1; Some counter; checked_add U64_MAX counter 1].

Definition matches (key : WithdrawalKey) (record : WithdrawnRecord) (instance : InstanceName)
    (counter : Z) : bool :=
  fold_left (fun matched candidate =>
    let expected := hint key instance candidate in
    fold_left (fun matched entry => matched || bool_decide (expected = entry)) record matched)
    (candidate_counters counter) false.

End Keys.

Inductive WithdrawnRecordError := UnexpectedKey | WrongHeader | MalformedEntries.

(** One round of the loop of [assemble]: the order drawn, and the hint or a
    filler drawn. *)
Definition keyed_entry {R} (random : Z -> exec R WithdrawalError bytes) (hints : list bytes) (index : nat) :
  exec R WithdrawalError (bytes * bytes) :=
  do? order <- random WITHDRAWAL_HINT_SIZE ;;
  match hints !! index with
  | Some hint => eret (order, hint)
  | None => do? filler <- random WITHDRAWAL_HINT_SIZE ;; eret (order, filler)
  end.

Fixpoint keyed_entries {R} (random : Z -> exec R WithdrawalError bytes) (hints : list bytes)
  (indices : list nat) : exec R WithdrawalError (list (bytes * bytes)) :=
  match indices with
  | [] => eret []
  | index :: rest =>
      do? entry <- keyed_entry random hints index ;;
      do? entries <- keyed_entries random hints rest ;;
      eret (entry :: entries)
  end.

(** The source's sort leaves the order of entries with equal keys open. *)
Definition assemble {R} (candidates : list AnnouncementCandidate)
    (random : Z -> exec R WithdrawalError bytes) : exec R WithdrawalError WithdrawnRecord :=
  let hints := most_recently_used candidates WITHDRAWN_RECORD_ENTRIES in
  do? keyed <- keyed_entries random hints (seq 0 (Z.to_nat WITHDRAWN_RECORD_ENTRIES)) ;;
  eret (map snd (sort_by (fun a b => lex_ltb a.1 b.1) keyed)).

Definition WithdrawnRecord_parse (entries : list (bytes * bytes)) :
  result WithdrawnRecordError WithdrawnRecord :=
  match values entries [VERSION_KEY; MODE_KEY; TXT_WITHDRAWN_KEY] with
  | Some [version; mode; list] =>
      if negb (bool_decide (version = Some (utf8 VERSION)))
         || negb (bool_decide (mode = Some (utf8 TXT_MODE_WITHDRAWN)))
      then Err WrongHeader
      else
        let? list := ok_or list WrongHeader in
        ok_or (entries ← decode_list list WITHDRAWN_RECORD_ENTRIES;
               if len entries =? WITHDRAWN_RECORD_ENTRIES then Some entries else None)
          MalformedEntries
  | _ => Err UnexpectedKey
  end.

Definition txt_entries (record : WithdrawnRecord) : list (bytes * bytes) :=
  [(utf8 VERSION_KEY, utf8 VERSION); (utf8 MODE_KEY, utf8 TXT_MODE_WITHDRAWN);
   (utf8 TXT_WITHDRAWN_KEY, encode_list record)].

(** ** Announcements (announcement.rs) *)

Definition INSTANCE_NAME_PREFIX : string := "refineid-".
Definition INSTANCE_NAME_RANDOM_SIZE : Z := 4.

(** [Panicked] is the [expect]. *)
Definition fresh_instance_name {R E} (random : Z -> exec R E bytes) :
  exec R (fault E) InstanceName :=
  do? bs <- emap_err Raised (random INSTANCE_NAME_RANDOM_SIZE) ;;
  match InstanceName_new (utf8 INSTANCE_NAME_PREFIX ++ lower_hex bs) with
  | Ok name => eret name
  | Err _ => efail Panicked
  end.

Definition CardAnnouncement : Type := bool.
Definition CardAnnouncement_new : CardAnnouncement := false.
Definition closed_with_card_unavailable (_ : CardAnnouncement) : CardAnnouncement := true.
Definition registered_fresh_instance (_ : CardAnnouncement) : CardAnnouncement := false.
Definition card_available (owed : CardAnnouncement) (serving : bool) : bool * CardAnnouncement :=
  let owed := if negb serving then false else owed in (owed, owed).

(** ** Lemmas *)

(** *** Hexadecimal *)

Definition nibbles : list Z := [0; 1; 2; 3; 4; 5; 6; 7; 8; 9; 10; 11; 12; 13; 14; 15].

Lemma nibbles_all n : 0 <= n <= 15 -> n ∈ nibbles.
Proof. intros Hn. unfold nibbles. rewrite !elem_of_cons. lia. Qed.

Lemma nibble_hex n : 0 <= n <= 15 -> nibble (hex_digit n) = Some n.
Proof.
  intros Hn. apply nibbles_all in Hn. revert n Hn. apply Forall_forall.
  unfold nibbles. repeat constructor.
Qed.

Lemma nibble_bound n : 0 <= n <= 15 -> hex_digit n <> ENTRY_SEPARATOR.
Proof.
  intros Hn. apply nibbles_all in Hn. revert n Hn. apply Forall_forall.
  unfold nibbles. repeat constructor; by vm_compute.
Qed.

Lemma position_some {A} (f : A -> bool) l i : position f l = Some i -> exists x, l !! i = Some x /\ f x = true.
Proof.
  revert i. induction l as [|y l IH]; intros i H; [done|]. cbn in H. destruct (f y) eqn:Ef.
  - simplify_eq. by exists y.
  - apply fmap_Some in H as (j & Hj & ->). by apply IH.
Qed.

Lemma nibble_inv d n : nibble d = Some n -> 0 <= n <= 15 /\ d = hex_digit n.
Proof.
  unfold nibble. intros H. apply bind_Some in H as (i & Hi & H). unfold try_from_uint in H.
  case_match_in H; [|done]. simplify_eq. apply position_some in Hi as (x & Hx & He). apply Z.eqb_eq in He as ->.
  pose proof (lookup_lt_Some _ _ _ Hx) as Hl. change (length HEX_DIGITS) with 16%nat in Hl.
  split; [lia|]. unfold hex_digit, get. rewrite (proj2 (Z.ltb_ge _ _)) by lia. by rewrite Nat2Z.id, Hx.
Qed.

Lemma byte_nibbles b : is_u8 b ->
  0 <= Z.shiftr b NIBBLE_BITS <= 15 /\ 0 <= Z.land b NIBBLE_MASK <= 15 /\
  Z.lor (Z.land (Z.shiftl (Z.shiftr b NIBBLE_BITS) NIBBLE_BITS) 255) (Z.land b NIBBLE_MASK) = b.
Proof.
  intros [H0 H1]. unfold U8_MAX in H1. assert (b ∈ seqZ 0 256) as Hb by (apply elem_of_seqZ; lia).
  clear H0 H1. revert b Hb. apply Forall_forall. apply (bool_decide_unpack _). by vm_compute.
Qed.

Lemma nibbles_byte h l : 0 <= h <= 15 -> 0 <= l <= 15 ->
  let b := Z.lor (Z.land (Z.shiftl h NIBBLE_BITS) 255) l in
  is_u8 b /\ Z.shiftr b NIBBLE_BITS = h /\ Z.land b NIBBLE_MASK = l.
Proof.
  intros Hh Hl. apply nibbles_all in Hh, Hl. cbn. revert l Hl. apply Forall_forall. revert h Hh. apply Forall_forall.
  unfold is_uint. apply (bool_decide_unpack _). by vm_compute.
Qed.

Lemma decode_pairs_hex bs : all_bytes bs -> decode_pairs (lower_hex bs) = Some bs.
Proof.
  induction 1 as [|b bs Hb _ IH]; [done|]. destruct (byte_nibbles b Hb) as (Hh & Hl & He).
  unfold lower_hex in *. cbn [map concat app decode_pairs]. rewrite !nibble_hex by done. cbn [mbind option_bind].
  by rewrite IH, He.
Qed.

Lemma decode_pairs_inv n t bs :
  length t = (2 * n)%nat -> decode_pairs t = Some bs -> all_bytes bs /\ t = lower_hex bs /\ length bs = n.
Proof.
  revert t bs. induction n as [|n IH]; intros t bs Hl H.
  { destruct t; [|done]. injection H as <-. split_and!; [constructor|done|done]. }
  destruct t as [|a [|b t]]; [done|cbn in Hl; lia|]. cbn [decode_pairs] in H.
  apply bind_Some in H as (h & Hh & H). apply bind_Some in H as (l & Hll & H).
  apply bind_Some in H as (e & He & H). simplify_eq. cbn [length] in Hl.
  destruct (IH t e ltac:(lia) He) as (Hb & -> & <-).
  apply nibble_inv in Hh as [Hh ->], Hll as [Hll ->]. destruct (nibbles_byte h l Hh Hll) as (H1 & H2 & H3).
  split_and!; [by constructor| |done]. unfold lower_hex. cbn [map concat app]. by rewrite H2, H3.
Qed.

Definition entry_ok (e : bytes) : Prop := all_bytes e /\ len e = HINT_SIZE.

Lemma lower_hex_len bs : len (lower_hex bs) = 2 * len bs.
Proof. unfold lower_hex. induction bs; [done|]. cbn [map concat app]. rewrite !len_cons, IHbs. lia. Qed.

Lemma decode_entry_exact t e : decode_entry t = Some e <-> entry_ok e /\ t = encode_entry e.
Proof.
  unfold decode_entry, entry_ok, encode_entry. split.
  - intros H. case_match_in H; [done|].
    destruct (decode_pairs_inv 8 t e) as (Hb & -> & Hl); [unfold ENTRY_HEX_DIGITS, HINT_SIZE, HEX_DIGITS_PER_BYTE, len in *; lia|done|].
    split; [|done]. split; [done|]. unfold len, HINT_SIZE. by rewrite Hl.
  - intros [[Hb Hl] ->]. rewrite lower_hex_len, Hl. by apply decode_pairs_hex.
Qed.

(** *** Lists *)

Lemma join_split s t : join s (split_on s t) = t /\ split_on s t <> [].
Proof.
  induction t as [|b t [IH1 IH2]]; [done|]. cbn [split_on]. case_if; [subst|].
  - split; [|done]. destruct (split_on s t); [done|]. cbn in *. by rewrite IH1.
  - destruct (split_on s t) as [|p ps]; [done|]. split; [|done]. destruct ps; cbn in *; congruence.
Qed.

Lemma split_part s p t : s ∉ p -> split_on s (p ++ s :: t) = p :: split_on s t.
Proof.
  induction p as [|b p IH]; intros Hs; cbn; [by rewrite Z.eqb_refl|].
  apply not_elem_of_cons in Hs as [Hb Hs]. rewrite (proj2 (Z.eqb_neq b s)) by congruence. by rewrite IH.
Qed.
Lemma split_last s p : s ∉ p -> split_on s p = [p].
Proof.
  induction p as [|b p IH]; intros Hs; cbn; [done|].
  apply not_elem_of_cons in Hs as [Hb Hs]. rewrite (proj2 (Z.eqb_neq b s)) by congruence. by rewrite IH.
Qed.

Lemma split_join s ps : ps <> [] -> Forall (fun p => s ∉ p) ps -> split_on s (join s ps) = ps.
Proof.
  intros Hne Hp. induction Hp as [|p ps Hs Hps IH]; [done|]. destruct ps as [|q ps]; [by apply split_last|].
  change (join s (p :: q :: ps)) with (p ++ s :: join s (q :: ps)). rewrite split_part by done. by rewrite IH.
Qed.

Lemma encode_entry_separator e : entry_ok e -> ENTRY_SEPARATOR ∉ encode_entry e.
Proof.
  intros [Hb _]. unfold encode_entry, lower_hex. induction Hb as [|b bs Hb _ IH]; cbn [map concat app]; [apply not_elem_of_nil|].
  destruct (byte_nibbles b Hb) as (Hh & Hl & _). rewrite !not_elem_of_cons.
  split_and!; [..|done]; intros E; symmetry in E; revert E; by apply nibble_bound.
Qed.

Lemma decode_list_exact t n es :
  decode_list t n = Some es <-> Forall entry_ok es /\ es <> [] /\ len es <= n /\ t = encode_list es.
Proof.
  unfold decode_list, encode_list. split.
  - intros H. apply bind_Some in H as (es' & Hm & H). case_match_in H; [|done]. simplify_eq.
    destruct (join_split ENTRY_SEPARATOR t) as [Hj Hne]. apply mapM_Some in Hm.
    assert (split_on ENTRY_SEPARATOR t = map encode_entry es /\ Forall entry_ok es) as [Hs Hok].
    { clear -Hm. induction Hm as [|p e ps es He _ [-> IH]]; [done|]. apply decode_entry_exact in He as [He ->].
      split; [done|by constructor]. }
    split_and!; [done|intros ->; by rewrite Hs in Hne|done|by rewrite <- Hs].
  - intros (Hok & Hne & Hl & ->). rewrite split_join.
    + assert (mapM decode_entry (map encode_entry es) = Some es) as ->.
      { apply mapM_Some. clear -Hok. induction Hok; constructor; [by apply decode_entry_exact|done]. }
      cbn. by rewrite (proj2 (Z.leb_le _ _)).
    + by destruct es.
    + rewrite Forall_map. eapply Forall_impl; [exact Hok|]. apply encode_entry_separator.
Qed.

(** *** Sorting *)

Lemma insert_by_perm {A} (before : A -> A -> bool) x l : insert_by before x l ≡ₚ x :: l.
Proof.
  induction l as [|y l IH]; [done|]. cbn [insert_by]. case_if; [|done]. rewrite IH. apply Permutation_swap.
Qed.
Lemma sort_by_perm {A} (before : A -> A -> bool) l : sort_by before l ≡ₚ l.
Proof. induction l as [|x l IH]; [done|]. cbn. by rewrite insert_by_perm, IH. Qed.

Lemma filter_length_perm {A} (f : A -> bool) l k :
  l ≡ₚ k -> length (List.filter f l) = length (List.filter f k).
Proof. induction 1; cbn; repeat case_match; cbn; lia. Qed.

Section Sort.
Context {A} (before : A -> A -> bool).
Context (before_trans : forall a b c, before a b = true -> before b c = true -> before a c = true).
Context (before_irrefl : forall a, before a a = false).
Context (before_total : forall a b, before a b = false -> before b a = false -> a = b).

Lemma not_before_trans a b c : before b a = false -> before c b = false -> before c a = false.
Proof.
  intros H1 H2. destruct (before c a) eqn:E; [|done]. destruct (before a b) eqn:E1.
  - by rewrite (before_trans _ _ _ E E1) in H2.
  - by rewrite (before_total _ _ H1 E1), E in H2.
Qed.

Lemma sort_by_sorted l : StronglySorted (fun a b => before b a = false) (sort_by before l).
Proof.
  induction l as [|x l IH]; [constructor|].
  change (sort_by before (x :: l)) with (insert_by before x (sort_by before l)).
  induction IH as [|y l' Hs IH Hf]; cbn [insert_by]; [repeat constructor|].
  destruct (before y x) eqn:E.
  - constructor; [done|]. rewrite insert_by_perm. constructor; [|done].
    destruct (before x y) eqn:E2; [|done]. pose proof (before_trans _ _ _ E E2) as H. by rewrite before_irrefl in H.
  - constructor; [by constructor|]. constructor; [done|]. eapply Forall_impl; [exact Hf|].
    cbn. intros z Hz. by apply (not_before_trans x y z).
Qed.

(** An element that fewer than [n] others come before is among the first [n]. *)
Lemma sort_by_first `{EqDecision A} (n : nat) x l :
  x ∈ l -> (length (List.filter (fun y => before y x) l) < n)%nat -> x ∈ take n (sort_by before l).
Proof.
  intros Hx Hn. rewrite <- (sort_by_perm before l) in Hx.
  destruct (list_elem_of_split_l _ _ Hx) as (l1 & l2 & Hl & Hx1).
  assert (length l1 < n)%nat as Hlen.
  { eapply Nat.le_lt_trans; [|exact Hn].
    rewrite <- (filter_length_perm _ _ _ (sort_by_perm before l)), Hl, List.filter_app, length_app.
    cut (List.filter (fun y => before y x) l1 = l1); [intros ->; lia|].
    pose proof (sort_by_sorted l) as Hs. rewrite Hl in Hs. clear -Hs Hx1 before_total.
    induction l1 as [|y l1 IH]; [done|]. apply not_elem_of_cons in Hx1 as [Hne Hx1]. cbn in Hs.
    apply StronglySorted_inv in Hs as [Hs Hf]. cbn. rewrite Forall_app, Forall_cons in Hf. destruct Hf as (_ & Hf & _).
    destruct (before y x) eqn:E; [by rewrite IH|]. by rewrite (before_total _ _ E Hf) in Hne. }
  rewrite Hl, take_app_ge by lia. apply elem_of_app. right.
  destruct (n - length l1)%nat eqn:E; [lia|]. cbn. by left.
Qed.
End Sort.

Lemma ranks_before_trans a b c : ranks_before a b = true -> ranks_before b c = true -> ranks_before a c = true.
Proof.
  unfold ranks_before. rewrite !orb_true_iff, !andb_true_iff, !Z.ltb_lt, !Z.eqb_eq.
  intros [H1|[H1 L1]] [H2|[H2 L2]]; [left; lia..|]. right. split; [lia|]. by apply (lex_trans _ (hint_of b)).
Qed.
Lemma ranks_before_irrefl a : ranks_before a a = false.
Proof. unfold ranks_before. by rewrite Z.ltb_irrefl, lex_irrefl, andb_false_r. Qed.
Lemma ranks_before_total a b : ranks_before a b = false -> ranks_before b a = false -> a = b.
Proof.
  unfold ranks_before. rewrite !orb_false_iff, !andb_false_iff, !Z.ltb_ge, !Z.eqb_neq.
  destruct a as [ha ta], b as [hb tb]. cbn. intros [H1 [L1|L1]] [H2 [L2|L2]]; try lia.
  f_equal; [by apply lex_total|lia].
Qed.
#[local] Instance candidate_eq_dec : EqDecision AnnouncementCandidate.
Proof. solve_decision. Defined.

(** Fewer than [n] candidates rank before [mine]. *)
Definition ranks_within (n : Z) (mine : AnnouncementCandidate) (candidates : list AnnouncementCandidate) : Prop :=
  mine ∈ candidates /\ len (List.filter (fun c => ranks_before c mine) candidates) < n.

Lemma most_recently_used_in n mine candidates :
  ranks_within n mine candidates -> hint_of mine ∈ most_recently_used candidates n.
Proof.
  intros [Hm Hn]. unfold most_recently_used, take_z. apply list_elem_of_fmap_2.
  apply sort_by_first; [apply ranks_before_trans|apply ranks_before_irrefl|apply ranks_before_total|typeclasses eauto|done|].
  unfold len in Hn. lia.
Qed.

(** *** Assembling a record *)

(** A source that always fills the buffer it is given. *)
Definition random_total {R E} (random : Z -> exec R E bytes) : Prop :=
  forall n s, 0 <= n -> exists bs s', random n s = (Ok bs, s') /\ len bs = n /\ all_bytes bs.

Section Assemble.
Context {R} (random : Z -> exec R WithdrawalError bytes) (Hrandom : random_total random).

Lemma keyed_entry_total hints i s :
  Forall entry_ok hints ->
  exists k e s', keyed_entry random hints i s = (Ok (k, e), s') /\ entry_ok e /\
    (forall h, hints !! i = Some h -> e = h).
Proof.
  intros Hh. unfold keyed_entry, ebind.
  destruct (Hrandom WITHDRAWAL_HINT_SIZE s) as (k & s1 & -> & _); [done|].
  destruct (hints !! i) as [h|] eqn:Ei.
  - exists k, h, s1. split_and!; [done| |by intros ? [= ->]]. by eapply Forall_lookup_1 in Ei.
  - destruct (Hrandom WITHDRAWAL_HINT_SIZE s1) as (f & s2 & -> & Hl & Hb); [done|].
    exists k, f, s2. split_and!; [done|by split|done].
Qed.

Lemma keyed_entries_total hints ix s :
  Forall entry_ok hints ->
  exists keyed s', keyed_entries random hints ix s = (Ok keyed, s') /\ length keyed = length ix /\
    Forall entry_ok keyed.*2 /\ (forall i h, i ∈ ix -> hints !! i = Some h -> h ∈ keyed.*2).
Proof.
  intros Hh. revert s. induction ix as [|i ix IH]; intros s; cbn [keyed_entries].
  { exists [], s. split_and!; [done|done|constructor|]. intros i h Hi. by apply elem_of_nil in Hi. }
  destruct (keyed_entry_total hints i s Hh) as (k & e & s1 & He & Hok & Hi).
  destruct (IH s1) as (keyed & s2 & Hk & Hl & Hf & Hin).
  exists ((k, e) :: keyed), s2. unfold ebind. rewrite He, Hk. split_and!; [done|cbn; lia|by constructor|].
  intros j h Hj Hlk. apply elem_of_cons in Hj as [->|Hj]; cbn; apply elem_of_cons.
  - left. symmetry. by apply Hi.
  - right. by eapply Hin.
Qed.

Lemma assemble_total candidates s :
  Forall (fun c => entry_ok (hint_of c)) candidates ->
  exists record s', assemble candidates random s = (Ok record, s') /\
    Forall entry_ok record /\ len record = WITHDRAWN_RECORD_ENTRIES /\
    (forall h, h ∈ most_recently_used candidates WITHDRAWN_RECORD_ENTRIES -> h ∈ record).
Proof.
  intros Hc. set (hints := most_recently_used candidates WITHDRAWN_RECORD_ENTRIES).
  assert (Forall entry_ok hints /\ len hints <= 8) as [Hh Hlen].
  { unfold hints, most_recently_used, take_z. split.
    - rewrite Forall_map. apply Forall_take. by rewrite sort_by_perm.
    - unfold len. rewrite length_map, length_take. unfold WITHDRAWN_RECORD_ENTRIES. lia. }
  destruct (keyed_entries_total hints (seq 0 8) s Hh) as (keyed & s' & Hk & Hl & Hf & Hin).
  exists (map snd (sort_by (fun a b => lex_ltb a.1 b.1) keyed)), s'. unfold assemble. fold hints. unfold ebind.
  change (Z.to_nat WITHDRAWN_RECORD_ENTRIES) with 8%nat. rewrite Hk.
  assert (map snd (sort_by (fun a b => lex_ltb a.1 b.1) keyed) ≡ₚ keyed.*2) as Hp
    by (apply Permutation_map, sort_by_perm).
  split_and!; [done|by rewrite Hp| |].
  - unfold len. apply Permutation_length in Hp. rewrite Hp, length_fmap, Hl. done.
  - intros h Hmine. rewrite Hp. apply list_elem_of_lookup in Hmine as (i & Hi).
    eapply Hin; [|exact Hi]. apply lookup_lt_Some in Hi. apply elem_of_seq. unfold len in Hlen. lia.
Qed.
End Assemble.

(** *** Hints *)

Section Hints.
Context `{X25519Laws, HmacSha256Laws}.

Lemma hint_ok key instance counter : entry_ok (hint key instance counter).
Proof.
  unfold entry_ok, hint, mac. split.
  - apply Forall_take, hmac_bytes.
  - apply len_take_z. rewrite hmac_size. by vm_compute.
Qed.

Lemma fold_or {A} (f : A -> bool) l b : fold_left (fun m x => m || f x) l b = b || existsb f l.
Proof. revert b. induction l as [|x l IH]; intros b; cbn; [by rewrite orb_false_r|]. by rewrite IH, orb_assoc. Qed.

Lemma fold_or_record {A B} (f : A -> B -> bool) (cs : list A) (record : list B) b :
  fold_left (fun m c => fold_left (fun m e => m || f c e) record m) cs b
  = b || existsb (fun c => existsb (f c) record) cs.
Proof.
  revert b. induction cs as [|c cs IH]; intros b; cbn; [by rewrite orb_false_r|].
  by rewrite fold_or, IH, orb_assoc.
Qed.

Lemma candidate_counters_in c c' :
  is_u64 c -> c' ∈ candidate_counters c <-> is_u64 c' /\ Z.abs (c - c') <= 1.
Proof.
  intros Hc. unfold candidate_counters, checked_sub, checked_add. cbn [omap list_omap id].
  repeat case_if; rewrite ?elem_of_cons, elem_of_nil; unfold id; ulia.
Qed.

Lemma matches_spec key record instance counter :
  is_u64 counter ->
  matches key record instance counter = true <->
  exists c, is_u64 c /\ Z.abs (counter - c) <= 1 /\ hint key instance c ∈ record.
Proof.
  intros Hc. unfold matches. rewrite fold_or_record. cbn [orb]. rewrite existsb_exists. split.
  - intros (c & Hin & He). apply list_elem_of_In, candidate_counters_in in Hin as [Hu Ha]; [|done].
    exists c. split_and!; [done|done|]. apply existsb_exists in He as (e & He & Hb).
    apply bool_decide_eq_true in Hb as ->. by apply list_elem_of_In.
  - intros (c & Hu & Ha & Hin). exists c. split.
    + apply list_elem_of_In. by apply candidate_counters_in.
    + apply existsb_exists. eexists. split; [by apply list_elem_of_In|]. by apply bool_decide_eq_true.
Qed.

Lemma derive_agrees custodian requester key :
  pair_id custodian = pair_id requester ->
  remote_static_public custodian = x25519_public_key (local_static_private requester) ->
  remote_static_public requester = x25519_public_key (local_static_private custodian) ->
  storage_confirmed requester = true ->
  WithdrawalKey_derive custodian = Ok key -> WithdrawalKey_derive requester = Ok key.
Proof.
  intros Hid Hc Hr Hs Hk. unfold WithdrawalKey_derive in *. rewrite Hs. cbn [negb].
  destruct (negb _); [done|]. revert Hk. unfold WithdrawalKey_from_parts, derive_pair_key.
  unfold x25519_public_key in *. by rewrite Hid, Hc, Hr, agreement_commutes.
Qed.

Lemma parse_published record :
  Forall entry_ok record -> len record = WITHDRAWN_RECORD_ENTRIES ->
  WithdrawnRecord_parse (txt_entries record) = Ok record.
Proof.
  intros Hr Hl. unfold WithdrawnRecord_parse.
  change (values (txt_entries record) _)
    with (Some [Some (utf8 VERSION); Some (utf8 TXT_MODE_WITHDRAWN); Some (encode_list record)]).
  cbn match. rewrite !bool_decide_eq_true_2 by done. cbn [negb orb ok_or rbind].
  rewrite (proj2 (decode_list_exact _ _ record)); [|split_and!; [done|by intros ->|lia|done]].
  cbn [mbind option_bind]. by rewrite Hl.
Qed.
End Hints.

(** *** Instance names *)

Lemma hex_digit_plain n : 0 <= n <= 15 -> to_ascii_lowercase (hex_digit n) <> 46.
Proof.
  intros Hn. apply nibbles_all in Hn. revert n Hn. apply Forall_forall.
  unfold nibbles. repeat constructor; by vm_compute.
Qed.

Lemma lower_hex_plain bs : all_bytes bs -> Forall (fun x => to_ascii_lowercase x <> 46) (lower_hex bs).
Proof.
  unfold lower_hex. induction 1 as [|b bs Hb _ IH]; cbn [map concat app]; [constructor|].
  destruct (byte_nibbles b Hb) as (Hh & Hl & _).
  constructor; [by apply hex_digit_plain|]. constructor; [by apply hex_digit_plain|done].
Qed.

(** A suffix that starts with a dot does not match within dotless digits. *)
Lemma digits_not_a_suffix p t suffix s :
  utf8 suffix = 46 :: s -> len (utf8 suffix) <= len t ->
  Forall (fun x => to_ascii_lowercase x <> 46) t -> ends_with_suffix (p ++ t) suffix = false.
Proof.
  intros Hs Hl Ht. unfold ends_with_suffix. apply andb_false_intro2.
  assert (1 <= len (utf8 suffix)) as H1 by (rewrite Hs, len_cons; pose proof (len_nonneg s); lia).
  set (k := len (utf8 suffix)) in *. rewrite len_app. pose proof (len_nonneg p).
  assert (drop_z (p ++ t) (len p + len t - k) = drop_z t (len t - k)) as Hd.
  { unfold drop_z. rewrite drop_app. rewrite (drop_ge p) by (unfold len in *; lia).
    cbn. f_equal. unfold len in *. lia. }
  destruct (str_suffix _ _) as [tail|] eqn:E; [|done]. unfold str_suffix in E.
  destruct (get _ _) eqn:Eg.
  - destruct (cont z); [done|]. injection E as <-. rewrite Hd.
    destruct (drop_z t (len t - k)) as [|x l] eqn:Ed.
    { apply (f_equal len) in Ed. rewrite len_drop_z, len_nil in Ed by lia. lia. }
    apply bool_decide_eq_false. rewrite Hs. intros [= Hx].
    assert (x ∈ t) as Hin. { rewrite <- (take_drop (Z.to_nat (len t - k)) t). apply elem_of_app. right.
      unfold drop_z in Ed. rewrite Ed. by left. }
    rewrite Forall_forall in Ht. by apply (Ht x Hin).
  - rewrite len_app in E. case_match_in E; [lia|done].
Qed.

Lemma fresh_name_valid bs :
  all_bytes bs -> len bs = INSTANCE_NAME_RANDOM_SIZE ->
  InstanceName_new (utf8 INSTANCE_NAME_PREFIX ++ lower_hex bs) = Ok (utf8 INSTANCE_NAME_PREFIX ++ lower_hex bs).
Proof.
  intros Hb Hl. unfold InstanceName_new. unfold INSTANCE_NAME_RANDOM_SIZE in Hl.
  assert (len (lower_hex bs) = 8) as H8 by (rewrite lower_hex_len; lia).
  pose proof (lower_hex_plain bs Hb) as Hp.
  assert (forall suffix s, utf8 suffix = 46 :: s -> len (utf8 suffix) <= 8 ->
    ends_with_suffix (utf8 INSTANCE_NAME_PREFIX ++ lower_hex bs) suffix = false) as Hs.
  { intros suffix s Hu Hlen. apply (digits_not_a_suffix _ _ _ s Hu); [lia|done]. }
  cbn [existsb SERVICE_NAME_SUFFIXES].
  rewrite (Hs "._tcp" (utf8 "_tcp")), (Hs "._udp" (utf8 "_udp")), (Hs ".local" (utf8 "local")),
    (Hs ".local." (utf8 "local.")) by done.
  rewrite len_app, H8. reflexivity.
Qed.

(** ** Properties *)

(** (liveness) A withdrawal reaches the paired requester.  When a custodian
    announces its withdrawal and fewer than eight of its pairings were used more
    recently, then, whatever the random source draws, a record is assembled; the
    TXT entries it is published as are parsed back to it; and the other endpoint
    of the pairing derives the same key and recognises it at any clock that is
    within one step of the counter announced. *)
Theorem withdrawal_reaches_the_requester `{X25519Laws, HmacSha256Laws} {R} (custodian requester : PairRecord)
    (key : WithdrawalKey) (instance : InstanceName) (counter clock used : Z)
    (candidates : list AnnouncementCandidate) (random : Z -> exec R WithdrawalError bytes) (s : R) :
  pair_id custodian = pair_id requester ->
  remote_static_public custodian = x25519_public_key (local_static_private requester) ->
  remote_static_public requester = x25519_public_key (local_static_private custodian) ->
  storage_confirmed requester = true ->
  WithdrawalKey_derive custodian = Ok key ->
  Forall (fun c => entry_ok (hint_of c)) candidates ->
  ranks_within WITHDRAWN_RECORD_ENTRIES (MkCandidate (hint key instance counter) used) candidates ->
  random_total random -> is_u64 counter -> is_u64 clock -> Z.abs (clock - counter) <= 1 ->
  exists record s', assemble candidates random s = (Ok record, s') /\
    WithdrawnRecord_parse (txt_entries record) = Ok record /\
    WithdrawalKey_derive requester = Ok key /\ matches key record instance clock = true.
Proof.
  intros Hid Hc Hr Hs Hk Hcs Hin Hrandom Hu Hclock Hnear.
  destruct (assemble_total random Hrandom candidates s Hcs) as (record & s' & Ha & Hok & Hl & Hrec).
  exists record, s'. split_and!; [done|by apply parse_published|by apply (derive_agrees custodian)|].
  apply matches_spec; [done|]. exists counter. split_and!; [done|lia|].
  apply Hrec. by apply (most_recently_used_in _ (MkCandidate (hint key instance counter) used)).
Qed.

(** The [expect] on a fresh instance name never fires. *)
Theorem fresh_instance_name_never_panics {R E} (random : Z -> exec R E bytes) (s : R) :
  random_total random ->
  exists name s', fresh_instance_name random s = (Ok name, s') /\ InstanceName_new name = Ok name.
Proof.
  intros Hr. destruct (Hr INSTANCE_NAME_RANDOM_SIZE s) as (bs & s1 & Hb & Hl & Hall); [done|].
  unfold fresh_instance_name, ebind, emap_err. rewrite Hb. cbn [map_err].
  rewrite (fresh_name_valid bs Hall Hl). eexists _, _. split; [reflexivity|by apply fresh_name_valid].
Qed.

(** *** Witness *)

(** A keyed checksum in the place of the package; the agreement is that of [RappNoise]. *)
#[local] Existing Instances Noise.toy_x25519 Noise.toy_x25519_laws.

#[local] Instance toy_hmac : HmacSha256 := fun k m => repeat (foldr Z.add 0 (k ++ m) mod 256) 32.

#[local] Instance toy_hmac_laws : HmacSha256Laws.
Proof.
  split; [done|]. intros k m. unfold hmac_sha256, toy_hmac, all_bytes.
  apply Forall_forall. intros x Hx. apply list_elem_of_In, repeat_spec in Hx as ->. unfold is_uint, U8_MAX.
  pose proof (Z.mod_pos_bound (foldr Z.add 0 (k ++ m)) 256). lia.
Qed.

Definition zero_source (n : Z) : exec unit WithdrawalError bytes := fun s => (Ok (repeat 0 (Z.to_nat n)), s).

Definition toy_record (private public : bytes) (r : RappState.EndpointRole) : PairRecord :=
  MkRecord (repeat 1 16) r private public public (repeat 5 32) [Authentication] (utf8 "Laptop") 1000 true None None.

Lemma withdrawal_reaches_the_requester_witness :
  exists key record s', assemble [MkCandidate (hint key (utf8 "refineid-7f2a1c84") 100) 7] zero_source tt = (Ok record, s') /\
    WithdrawnRecord_parse (txt_entries record) = Ok record /\
    matches key record (utf8 "refineid-7f2a1c84") 101 = true.
Proof.
  eexists.
  destruct (withdrawal_reaches_the_requester (toy_record (repeat 3 32) (repeat 4 32) RappState.Proxy)
    (toy_record (repeat 4 32) (repeat 3 32) RappState.Requester)
    (hmac_sha256 (hmac_sha256 (repeat 1 16) (repeat 7 32)) (WITHDRAWAL_KEY_INFO ++ [1]))
    (utf8 "refineid-7f2a1c84") 100 101 7
    [MkCandidate (hint (hmac_sha256 (hmac_sha256 (repeat 1 16) (repeat 7 32)) (WITHDRAWAL_KEY_INFO ++ [1]))
       (utf8 "refineid-7f2a1c84") 100) 7] zero_source tt)
    as (record & s' & Ha & Hp & _ & Hm); [done|done|done|done|by vm_compute| | | |done|done|done|].
  - constructor; [apply hint_ok|constructor].
  - split; [by apply list_elem_of_singleton|by vm_compute].
  - intros n [] Hn. exists (repeat 0 (Z.to_nat n)), tt. split_and!; [done| |].
    + unfold len. rewrite repeat_length. lia.
    + apply Forall_forall. intros x Hx. apply list_elem_of_In, repeat_spec in Hx as ->. by vm_compute.
  - exists record, s'. by split_and!.
Defined.

End Discovery.
