(* ===== verification/RappOffer.v ===== *)
(** * Pairing offers of the remote card protocol

    crates/rapp/src/offer.rs, with the transport entries of
    crates/rapp/src/transport.rs: the bootstrap answer a custodian in pairing
    mode serves on each transport, an offer while it can admit an attempt and a
    busy answer while it cannot, and what a requester reads of it.

    The theorems: a requester reads exactly the encodings of valid offers that
    list the transport they arrived over, and of busy answers in range; every
    offer a custodian creates of registered profiles fits its transports and is
    read on each of them as it was made. *)

From stdpp Require Import base list strings option sorting.
From Stdlib Require Import ZArith Lia.
From S2P Require Import Prelude RappState RappCbor RappWire RappOperation RappMessage RappNoise RappChannel RappDiscovery.

Module Offer.
Import Cbor Wire Op Msg Channel.

(** ** Transport entries *)

Definition BLE_SERVICE_UUID : string := "7E39FD01-A6B5-4D78-9E11-37E28E9545F1".
Definition BLE_SERVICE_UUID_PARAMETER : string := "service_uuid".

Record TransportCandidate := MkTransportCandidate {
  candidate_profile : bytes; candidate_id : bytes; parameters : body_map }.

Definition offer_entry (t : TransportProfile) : TransportCandidate :=
  let parameters :=
    match t with
    | Ble => insert BLE_SERVICE_UUID_PARAMETER (Text (utf8 BLE_SERVICE_UUID)) []
    | Stream => []
    end in
  MkTransportCandidate (utf8 (profile_name t)) (utf8 (profile_candidate_id t)) parameters.

Definition TransportProfile_parse (name : bytes) : option TransportProfile :=
  if text_is name BLE_PROFILE then Some Ble
  else if text_is name STREAM_PROFILE then Some Stream
  else None.

#[global] Instance TransportProfile_eq_dec : EqDecision TransportProfile.
Proof. solve_decision. Defined.
#[global] Instance WireValue_eq_dec : EqDecision WireValue.
Proof.
  refine (fix go v w : Decision (v = w) :=
    let _ : EqDecision WireValue := go in
    match v, w with
    | Unsigned a, Unsigned b => cast_if (decide (a = b))
    | Negative a, Negative b => cast_if (decide (a = b))
    | Bytes a, Bytes b => cast_if (decide (a = b))
    | Text a, Text b => cast_if (decide (a = b))
    | Array a, Array b => cast_if (decide (a = b))
    | Map a, Map b => cast_if (decide (a = b))
    | VBool a, VBool b => cast_if (decide (a = b))
    | Null, Null => left eq_refl
    | _, _ => right _
    end); abstract congruence.
Defined.
#[global] Instance TransportCandidate_eq_dec : EqDecision TransportCandidate.
Proof. solve_decision. Defined.

(** ** Offers *)

Definition OFFER_ID_SIZE : Z := 32.
Definition OFFER_TTL_MS : Z := 300000.
Definition MAX_OFFER_SIZE : Z := 509.
Definition PAIRING_BUSY_RETRY_AFTER_MIN_MS : Z := 1.
Definition PAIRING_BUSY_RETRY_AFTER_MAX_MS : Z := 5000.
Definition OFFER_FIELDS : list string :=
  ["scheme"; "version"; "offer_id"; "suites"; "profiles"; "transports"; "offer_ttl_ms"].
Definition RETRY_AFTER_FIELD : string := "retry_after_ms".
Definition BUSY_FIELDS : list string := ["scheme"; "version"; RETRY_AFTER_FIELD].
Definition SCHEME : string := "rapp".

Record PairingOffer := MkOffer {
  offer_id : bytes; suites : list bytes; offer_profiles : list bytes;
  transports : list TransportCandidate; offer_ttl_ms : Z }.

Inductive PairingOfferError :=
  | PO_WrongScheme
  | PO_UnsupportedVersion
  | PO_WrongType
  | PO_MissingField (field : string)
  | PO_UnknownField
  | PO_WrongLength (field : string) (expected got : Z)
  | PO_EmptyRequiredArray
  | PO_MandatorySuiteMissing
  | PO_InvalidTransport
  | PO_TransportNotOffered
  | PO_RetryAfterOutOfRange (got : Z)
  | PO_InvalidTtl (got : Z)
  | PO_DeadlineOverflow
  | PO_Oversized (got : Z)
  | PO_Wire (e : WireError).

Record PairingOfferDeadline := MkDeadline { started_at_ms : Z; expires_at_ms : Z }.

Definition from_offer (offer : PairingOffer) (started_at_ms : Z) :
  result PairingOfferError PairingOfferDeadline :=
  let? expires_at_ms := ok_or (checked_add U64_MAX started_at_ms (offer_ttl_ms offer)) PO_DeadlineOverflow in
  Ok (MkDeadline started_at_ms expires_at_ms).
Definition is_live (d : PairingOfferDeadline) (now_ms : Z) : bool :=
  (now_ms >=? started_at_ms d) && (now_ms <? expires_at_ms d).

(** *** Validation *)

(** The loop of [validate], with the profile before. *)
Fixpoint check_transports (previous : option TransportProfile) (l : list TransportCandidate) :
  result PairingOfferError unit :=
  match l with
  | [] => Ok tt
  | candidate :: l =>
      let? profile := ok_or (TransportProfile_parse (candidate_profile candidate)) PO_InvalidTransport in
      if negb (bool_decide (candidate = offer_entry profile)) then Err PO_InvalidTransport
      else if match previous with
              | Some earlier => negb (lex_ltb (utf8 (profile_name earlier)) (utf8 (profile_name profile)))
              | None => false
              end
      then Err PO_InvalidTransport
      else check_transports (Some profile) l
  end.

Definition validate (o : PairingOffer) : result PairingOfferError unit :=
  if is_empty (suites o) || is_empty (offer_profiles o) || is_empty (transports o)
  then Err PO_EmptyRequiredArray
  else if negb (existsb (fun suite => text_is suite CPACE_KC2_SUITE) (suites o))
  then Err PO_MandatorySuiteMissing
  else if negb (offer_ttl_ms o =? OFFER_TTL_MS) then Err (PO_InvalidTtl (offer_ttl_ms o))
  else check_transports None (transports o).

Definition offer_reconstruct (offer_id : bytes) (suites profiles : list bytes)
    (transports : list TransportCandidate) (offer_ttl_ms : Z) : result PairingOfferError PairingOffer :=
  let offer := MkOffer offer_id suites profiles transports offer_ttl_ms in
  let? _ := validate offer in Ok offer.

(** [Vec::dedup]. *)
Fixpoint dedup_transports (l : list TransportProfile) : list TransportProfile :=
  match l with
  | a :: (b :: _) as rest => if decide (a = b) then dedup_transports rest else a :: dedup_transports rest
  | _ => l
  end.

(** The derived order of the profiles. *)
Definition profile_ltb (a b : TransportProfile) : bool :=
  match a, b with Ble, Stream => true | _, _ => false end.

Definition offer_create (offer_id : bytes) (profiles : list bytes) (served : list TransportProfile) :
  result PairingOfferError PairingOffer :=
  let served := dedup_transports (Discovery.sort_by profile_ltb served) in
  offer_reconstruct offer_id [utf8 CPACE_KC2_SUITE] profiles (map offer_entry served) OFFER_TTL_MS.

Definition entry (o : PairingOffer) (t : TransportProfile) : option TransportCandidate :=
  List.find (fun candidate => text_is (candidate_profile candidate) (profile_name t)) (transports o).

Definition served_over (o : PairingOffer) (t : TransportProfile) : result PairingOfferError PairingOffer :=
  match entry o t with None => Err PO_TransportNotOffered | Some _ => Ok o end.

(** *** The encoded form *)

Definition transport_to_value (c : TransportCandidate) : WireValue :=
  Map (insert "profile" (Text (candidate_profile c))
         (insert "candidate_id" (Text (candidate_id c))
            (insert "parameters" (Map (parameters c)) []))).

Definition offer_to_map (o : PairingOffer) : body_map :=
  insert "scheme" (Text (utf8 SCHEME))
    (insert "version" (Array version_value)
       (insert "offer_id" (Bytes (offer_id o))
          (insert "suites" (Array (map Text (suites o)))
             (insert "profiles" (Array (map Text (offer_profiles o)))
                (insert "transports" (Array (map transport_to_value (transports o)))
                   (insert "offer_ttl_ms" (Unsigned (offer_ttl_ms o)) [])))))).

Definition offer_to_cbor (o : PairingOffer) : result PairingOfferError bytes :=
  let? _ := validate o in
  let? encoded := map_err PO_Wire (encode_deterministic_cbor (Map (offer_to_map o))) in
  if len encoded >? MAX_OFFER_SIZE then Err (PO_Oversized (len encoded)) else Ok encoded.

Definition offer_hash `{Sha256} (o : PairingOffer) : result PairingOfferError bytes :=
  let? encoded := offer_to_cbor o in Ok (sha256 encoded).

Abbreviation takes := (exec body_map PairingOfferError).

(** The field readers: a missing field and one of another type are told apart. *)
Definition take_field {A} (read : WireValue -> option A) (field : string) : takes A :=
  do? v <- remove_field field ;;
  match v with
  | None => efail (PO_MissingField field)
  | Some v => elift (ok_or (read v) PO_WrongType)
  end.
Definition o_take_text (field : string) : takes bytes := take_field as_text field.
Definition o_take_bytes (field : string) : takes bytes := take_field as_bytes field.
Definition o_take_array (field : string) : takes (list WireValue) := take_field as_array field.
Definition o_take_unsigned (field : string) : takes Z := take_field as_unsigned field.
Definition o_take_text_array (field : string) : takes (list bytes) :=
  do? values <- o_take_array field ;;
  elift (collect (fun v => ok_or (as_text v) PO_WrongType) values).

Definition outside (fields : list string) (m : body_map) : bool :=
  existsb (fun kv => negb (existsb (text_is kv.1) fields)) m.

Definition decode_bootstrap_map (bs : bytes) : result PairingOfferError body_map :=
  if len bs >? MAX_OFFER_SIZE then Err (PO_Oversized (len bs))
  else
    let? value := map_err PO_Wire (decode_deterministic_cbor bs) in
    match value with Map m => Ok m | _ => Err PO_WrongType end.

Definition take_header (fields : list string) : takes unit := fun m =>
  if outside fields m then (Err PO_UnknownField, m)
  else
    (do? scheme <- o_take_text "scheme" ;;
     if negb (text_is scheme SCHEME) then efail PO_WrongScheme
     else
       do? version <- o_take_array "version" ;;
       if negb (version_matches version) then efail PO_UnsupportedVersion else eret tt) m.

Definition transport_from_value (value : WireValue) : result PairingOfferError TransportCandidate :=
  match value with
  | Map m =>
      if outside ["profile"; "candidate_id"; "parameters"] m then Err PO_UnknownField
      else
        ((do? profile <- o_take_text "profile" ;;
          do? candidate_id <- o_take_text "candidate_id" ;;
          do? parameters <- take_field as_map "parameters" ;;
          eret (MkTransportCandidate profile candidate_id parameters)) m).1
  | _ => Err PO_WrongType
  end.

Definition take_offer_id : takes bytes :=
  do? bs <- o_take_bytes "offer_id" ;;
  elift (map_err (fun _ => PO_WrongLength "offer_id" OFFER_ID_SIZE (len bs))
           (identifier_reconstruct OFFER_ID_SIZE bs)).

Definition offer_from_map (m : body_map) : result PairingOfferError PairingOffer :=
  ((do? _ <- take_header OFFER_FIELDS ;;
    do? offer_id <- take_offer_id ;;
    do? suites <- o_take_text_array "suites" ;;
    do? profiles <- o_take_text_array "profiles" ;;
    do? transport_values <- o_take_array "transports" ;;
    do? transports <- elift (collect transport_from_value transport_values) ;;
    do? offer_ttl_ms <- o_take_unsigned "offer_ttl_ms" ;;
    elift (offer_reconstruct offer_id suites profiles transports offer_ttl_ms)) m).1.

Definition offer_from_cbor (bs : bytes) : result PairingOfferError PairingOffer :=
  let? m := decode_bootstrap_map bs in offer_from_map m.

(** ** Busy answers *)

Definition PairingBusy : Type := Z.

Definition busy_new (retry_after_ms : Z) : result PairingOfferError PairingBusy :=
  if (retry_after_ms <? PAIRING_BUSY_RETRY_AFTER_MIN_MS)
     || (retry_after_ms >? PAIRING_BUSY_RETRY_AFTER_MAX_MS)
  then Err (PO_RetryAfterOutOfRange retry_after_ms)
  else Ok retry_after_ms.

Definition until_admissible (wait_ms : Z) : PairingBusy :=
  if wait_ms <? PAIRING_BUSY_RETRY_AFTER_MIN_MS then PAIRING_BUSY_RETRY_AFTER_MIN_MS
  else if wait_ms >? PAIRING_BUSY_RETRY_AFTER_MAX_MS then PAIRING_BUSY_RETRY_AFTER_MAX_MS
  else wait_ms.

Definition busy_map (b : PairingBusy) : body_map :=
  insert "scheme" (Text (utf8 SCHEME))
    (insert "version" (Array version_value) (insert RETRY_AFTER_FIELD (Unsigned b) [])).

Definition busy_to_cbor (b : PairingBusy) : result PairingOfferError bytes :=
  map_err PO_Wire (encode_deterministic_cbor (Map (busy_map b))).

Definition busy_from_map (m : body_map) : result PairingOfferError PairingBusy :=
  ((do? _ <- take_header BUSY_FIELDS ;;
    do? retry_after_ms <- o_take_unsigned RETRY_AFTER_FIELD ;;
    elift (busy_new retry_after_ms)) m).1.

Definition busy_from_cbor (bs : bytes) : result PairingOfferError PairingBusy :=
  let? m := decode_bootstrap_map bs in busy_from_map m.

Inductive BootstrapAnswer := AnswerOffer (o : PairingOffer) | AnswerBusy (b : PairingBusy).

Definition from_bootstrap (bs : bytes) (t : TransportProfile) : result PairingOfferError BootstrapAnswer :=
  let? m := decode_bootstrap_map bs in
  if contains_key RETRY_AFTER_FIELD m then
    let? busy := busy_from_map m in Ok (AnswerBusy busy)
  else
    let? offer := offer_from_map m in
    let? offer := served_over offer t in Ok (AnswerOffer offer).

(** ** Lemmas *)

(** *** Fields *)

Lemma take_field_ok {A} (read : WireValue -> option A) ctor field m a m' :
  inverts read ctor ->
  take_field read field m = (Ok a, m') <->
  map_get (utf8 field) m = Some (ctor a) /\ m' = map_remove (utf8 field) m.
Proof.
  intros Hr. unfold take_field. rewrite ebind_ok. setoid_rewrite remove_field_ok. split.
  - intros (v & m1 & [Hg ->] & H). destruct v as [v|]; [|done]. apply elift_ok in H as [H ->].
    apply ok_or_inv, Hr in H as ->. done.
  - intros [Hg ->]. exists (Some (ctor a)), (map_remove (utf8 field) m). split; [done|].
    apply elift_ok. by rewrite (proj2 (Hr _ _) eq_refl).
Qed.

(** A map without a key outside [fields] is determined by its values at them. *)
Lemma outside_false fields m k v :
  outside fields m = false -> map_get k m = Some v -> exists f, f ∈ fields /\ k = utf8 f.
Proof.
  intros Ho Hg. apply map_get_in in Hg. unfold outside in Ho.
  destruct (existsb (text_is k) fields) eqn:E.
  - apply existsb_exists in E as (f & Hf & E). apply list_elem_of_In in Hf.
    exists f. split; [done|]. by apply bool_decide_eq_true in E.
  - exfalso. rewrite <- not_true_iff_false, existsb_exists in Ho. apply Ho.
    exists (k, v). cbn [fst]. rewrite E. split; [by apply list_elem_of_In|done].
Qed.

Lemma determined fields m m' :
  ordered_map m -> ordered_map m' -> outside fields m = false -> outside fields m' = false ->
  Forall (fun f => map_get (utf8 f) m = map_get (utf8 f) m') fields -> m = m'.
Proof.
  intros Hm Hm' Ho Ho' Hf. rewrite Forall_forall in Hf. apply ordered_ext; [done|done|].
  intros k. destruct (map_get k m) as [v|] eqn:E.
  - destruct (outside_false _ _ _ _ Ho E) as (f & Hin & ->). by rewrite <- (Hf f Hin).
  - destruct (map_get k m') as [v'|] eqn:E'; [|done].
    destruct (outside_false _ _ _ _ Ho' E') as (f & Hin & ->). by rewrite <- (Hf f Hin), E in E'.
Qed.

Lemma get_remove_other {V} (a b : string) (m : list (bytes * V)) :
  utf8 a <> utf8 b -> map_get (utf8 a) (map_remove (utf8 b) m) = map_get (utf8 a) m.
Proof. apply map_get_remove. Qed.

Ltac unfield :=
  repeat match goal with
  | H : ebind _ _ _ = (Ok _, _) |- _ => apply ebind_ok in H as (? & ? & ? & ?)
  | H : elift _ _ = (Ok _, _) |- _ => apply elift_ok in H as [? ?]; subst
  | H : eret _ _ = (Ok _, _) |- _ => apply eret_ok in H as [? ?]; subst
  | H : take_field ?r ?f ?m = (Ok _, _) |- _ =>
      let I := fresh in
      eassert (inverts r _) as I by inverts_known;
      apply (take_field_ok _ _ _ _ _ _ I) in H as [H ->]; clear I
  | H : context [map_get (utf8 _) (map_remove (utf8 _) _)] |- _ =>
      rewrite get_remove_other in H by (let D := fresh in intros D; vm_compute in D; discriminate D)
  | H : (if negb ?b then _ else _) _ = (Ok _, _) |- _ =>
      let E := fresh "E" in destruct b eqn:E; cbn [negb] in H; [|discriminate H]
  | u : unit |- _ => destruct u
  end.

Lemma take_header_inv fields m m' :
  take_header fields m = (Ok tt, m') ->
  outside fields m = false /\ map_get (utf8 "scheme") m = Some (Text (utf8 SCHEME)) /\
  map_get (utf8 "version") m = Some (Array version_value) /\
  m' = map_remove (utf8 "version") (map_remove (utf8 "scheme") m).
Proof.
  unfold take_header, o_take_text, o_take_array. destruct (outside fields m); [done|]. intros H. unfield.
  match goal with H : text_is _ _ = true |- _ => apply bool_decide_eq_true in H as -> end.
  match goal with H : version_matches _ = true |- _ => apply version_matches_spec in H as -> end. done.
Qed.

(** *** Transport entries *)

Lemma TransportProfile_parse_inv n t : TransportProfile_parse n = Some t -> n = utf8 (profile_name t).
Proof. unfold TransportProfile_parse, text_is. repeat case_bool_decide; intros; by simplify_eq. Qed.

Lemma check_transports_entries previous l :
  check_transports previous l = Ok tt -> exists ts, l = map offer_entry ts.
Proof.
  revert previous. induction l as [|c l IH]; intros previous; cbn [check_transports]; [by exists []|].
  destruct (TransportProfile_parse _) as [t|]; [|done]. cbn [ok_or rbind].
  destruct (bool_decide _) eqn:E; [|done]. apply bool_decide_eq_true in E. cbn [negb].
  destruct (match previous with Some _ => _ | None => _ end); [done|]. intros H.
  destruct (IH _ H) as [ts ->]. exists (t :: ts). cbn. by rewrite <- E.
Qed.

Lemma transport_from_value_inv v c : wf v -> transport_from_value v = Ok c -> v = transport_to_value c.
Proof.
  intros Hw H. destruct v as [| | | | |m| |]; try discriminate H. unfold transport_from_value in H.
  destruct (outside _ m) eqn:Ho; [done|]. apply fst_ok in H as (m' & H).
  unfold o_take_text in H. unfield. unfold transport_to_value. f_equal.
  inversion Hw as [| | | | |? Hm _| |]; subst.
  apply (determined ["profile"; "candidate_id"; "parameters"]); [done| |done|reflexivity|].
  - repeat (constructor; [|repeat (constructor; [reflexivity|])]); constructor.
  - repeat (apply Forall_cons_2; [assumption|]). apply Forall_nil_2.
Qed.

Lemma transport_reads t : transport_from_value (transport_to_value (offer_entry t)) = Ok (offer_entry t).
Proof. by destruct t. Qed.

Lemma transport_wf t : wf (transport_to_value (offer_entry t)).
Proof.
  destruct t; constructor;
    (repeat (constructor; [|repeat (constructor; [reflexivity|])]); repeat constructor; reflexivity).
Qed.

Lemma collect_inv_wf {A} (f : WireValue -> result PairingOfferError A) (g : A -> WireValue) vs (l : list A) :
  (forall v a, wf v -> f v = Ok a -> v = g a) -> Forall wf vs -> collect f vs = Ok l -> vs = map g l.
Proof.
  intros Hf Hw. revert l. induction Hw as [|v vs Hv _ IH]; intros l H; cbn in H; [by injection H as <-|].
  destruct (f v) as [a|] eqn:E1; [|done]. cbn in H.
  destruct (collect f vs) as [l'|] eqn:E2; [|done]. injection H as <-. cbn.
  by rewrite (Hf _ _ Hv E1), <- (IH _ eq_refl).
Qed.

(** *** Offers *)

(** What the types of the source and [validate] guarantee of an offer. *)
Definition offer_ok (o : PairingOffer) : Prop :=
  validate o = Ok tt /\ len (offer_id o) = OFFER_ID_SIZE /\
  Forall text_ok (suites o) /\ Forall text_ok (offer_profiles o).

Lemma validate_ok o : validate o = Ok tt -> offer_ttl_ms o = OFFER_TTL_MS /\ exists ts, transports o = map offer_entry ts.
Proof.
  unfold validate. destruct (_ || _); [done|]. destruct (negb (existsb _ _)); [done|].
  destruct (offer_ttl_ms o =? OFFER_TTL_MS) eqn:E; [|done]. cbn [negb]. to_prop. intros H.
  split; [done|]. by apply check_transports_entries in H.
Qed.

Lemma offer_map_eq o :
  offer_to_map o =
  [(utf8 "offer_id", Bytes (offer_id o)); (utf8 "offer_ttl_ms", Unsigned (offer_ttl_ms o));
   (utf8 "profiles", Array (map Text (offer_profiles o))); (utf8 "scheme", Text (utf8 SCHEME));
   (utf8 "suites", Array (map Text (suites o)));
   (utf8 "transports", Array (map transport_to_value (transports o)));
   (utf8 "version", Array version_value)].
Proof. reflexivity. Qed.

Lemma offer_map_ordered o : ordered_map (offer_to_map o).
Proof. rewrite offer_map_eq. repeat (constructor; [|repeat (constructor; [reflexivity|])]); constructor. Qed.

Lemma offer_map_wf o : offer_ok o -> wf (Map (offer_to_map o)).
Proof.
  intros (Hv & _ & Hs & Hp). apply validate_ok in Hv as [Ht [ts Hts]].
  constructor; [apply offer_map_ordered|]. rewrite offer_map_eq.
  repeat (apply Forall_cons_2; [split; [reflexivity|cbn [snd]]|]); [..|apply Forall_nil_2]; constructor.
  - by rewrite Ht.
  - apply Forall_map. eapply Forall_impl; [exact Hp|]. by constructor.
  - reflexivity.
  - apply Forall_map. eapply Forall_impl; [exact Hs|]. by constructor.
  - rewrite Hts, map_map. apply Forall_map, Forall_true. apply transport_wf.
  - repeat constructor; by vm_compute.
Qed.

Lemma offer_reconstruct_ok id su ps ts ttl o :
  offer_reconstruct id su ps ts ttl = Ok o <-> o = MkOffer id su ps ts ttl /\ validate o = Ok tt.
Proof.
  unfold offer_reconstruct. split.
  - destruct (validate _) as [[]|] eqn:E; [|done]. by intros [= <-].
  - intros [-> ->]. done.
Qed.

Lemma take_offer_id_ok m id m' :
  take_offer_id m = (Ok id, m') <->
  map_get (utf8 "offer_id") m = Some (Bytes id) /\ len id = OFFER_ID_SIZE /\ m' = map_remove (utf8 "offer_id") m.
Proof.
  unfold take_offer_id, o_take_bytes. rewrite ebind_ok. setoid_rewrite (take_field_ok _ _ _ _ _ _ inverts_bytes).
  split.
  - intros (bs & m1 & [Hg ->] & H). apply elift_ok in H as [H ->]. apply map_err_ok_inv in H.
    unfold identifier_reconstruct in H. case_match_in H; [|done]. to_prop. by simplify_eq.
  - intros (Hg & Hl & ->). eexists _, _. split; [by split|]. apply elift_ok.
    split; [by apply identifier_ok|done].
Qed.

Lemma o_take_text_array_ok field m l m' :
  o_take_text_array field m = (Ok l, m') <->
  map_get (utf8 field) m = Some (Array (map Text l)) /\ m' = map_remove (utf8 field) m.
Proof.
  unfold o_take_text_array, o_take_array. rewrite ebind_ok. setoid_rewrite (take_field_ok _ _ _ _ _ _ inverts_array).
  split.
  - intros (vs & m1 & [Hg ->] & H). apply elift_ok in H as [H ->].
    apply (collect_inv _ Text) in H as ->; [done|]. intros [] a Ha; simplify_eq/=; done.
  - intros [Hg ->]. eexists _, _. split; [by split|]. apply elift_ok. split; [by apply collect_map|done].
Qed.

Lemma wf_texts l : wf (Array (map Text l)) -> Forall text_ok l.
Proof.
  inversion 1 as [| | | |? Hf| | |]; subst. rewrite Forall_map in Hf.
  eapply Forall_impl; [exact Hf|]. intros t. by inversion 1.
Qed.

Lemma offer_from_map_inv m o :
  wf (Map m) -> offer_from_map m = Ok o -> offer_ok o /\ m = offer_to_map o.
Proof.
  intros Hw H. unfold offer_from_map in H. apply fst_ok in H as (m' & H).
  repeat match goal with H : ebind _ _ _ = (Ok _, _) |- _ => apply ebind_ok in H as (? & ? & ? & ?) end.
  repeat match goal with u : unit |- _ => destruct u
                       | H : take_header _ _ = _ |- _ => apply take_header_inv in H as (? & ? & ? & ->)
                       | H : take_offer_id _ = _ |- _ => apply take_offer_id_ok in H as (? & ? & ->)
                       | H : o_take_text_array _ _ = _ |- _ => apply o_take_text_array_ok in H as (? & ->) end.
  unfold o_take_array, o_take_unsigned in *. unfield.
  match goal with H : offer_reconstruct _ _ _ _ _ = _ |- _ => apply offer_reconstruct_ok in H as [-> Hv] end.
  inversion Hw as [| | | | |? Hm Hf| |]; subst.
  assert (forall k v, map_get k m = Some v -> wf v) as Hwf.
  { intros k v Hg. apply map_get_in in Hg. rewrite Forall_forall in Hf. by apply (Hf (k, v)). }
  match goal with Hc : collect _ ?vs = Ok _, Hg : map_get _ _ = Some (Array ?vs) |- _ =>
    pose proof (Hwf _ _ Hg) as Hvs; apply (collect_inv_wf _ transport_to_value) in Hc as ->;
      [|exact transport_from_value_inv|by inversion Hvs] end.
  split.
  - split_and!; [done|done|eapply wf_texts, Hwf; eassumption..].
  - apply (determined OFFER_FIELDS); [done|apply offer_map_ordered|done|reflexivity|].
    repeat (apply Forall_cons_2; [assumption|]). apply Forall_nil_2.
Qed.

(** Read back a field of a map that is written out. *)
Ltac refield :=
  apply ebind_ok; eexists _, _; split;
  [first [ apply take_offer_id_ok; split_and!
         | apply o_take_text_array_ok; split
         | eapply take_field_ok; [inverts_known|split]
         | apply elift_ok; split ]; first [reflexivity|eassumption|idtac]|].

Lemma header_reads fields m :
  outside fields m = false -> map_get (utf8 "scheme") m = Some (Text (utf8 SCHEME)) ->
  map_get (utf8 "version") m = Some (Array version_value) ->
  take_header fields m = (Ok tt, map_remove (utf8 "version") (map_remove (utf8 "scheme") m)).
Proof.
  intros Ho Hs Hv. unfold take_header, o_take_text, o_take_array. rewrite Ho.
  refield. change (negb (text_is (utf8 SCHEME) SCHEME)) with false.
  apply ebind_ok. eexists _, _. split.
  { apply (take_field_ok _ _ _ _ _ _ inverts_array). split; [|reflexivity].
    rewrite get_remove_other by (intros D; vm_compute in D; discriminate D). exact Hv. }
  reflexivity.
Qed.

Lemma offer_from_map_complete o : offer_ok o -> offer_from_map (offer_to_map o) = Ok o.
Proof.
  intros (Hv & Hid & _ & _). pose proof (validate_ok _ Hv) as [_ [ts Hts]].
  unfold offer_from_map. apply fst_ok. eexists.
  apply ebind_ok; eexists _, _; split; [by apply header_reads|]. unfold o_take_array, o_take_unsigned.
  do 4 refield. refield; [|refield].
  - apply collect_map. rewrite Hts. intros c Hc. apply list_elem_of_fmap in Hc as (t & -> & _). apply transport_reads.
  - apply elift_ok. split; [|reflexivity]. apply offer_reconstruct_ok. split; [by destruct o|done].
Qed.

Lemma decode_bootstrap_inv bs m :
  all_bytes bs -> decode_bootstrap_map bs = Ok m ->
  wf (Map m) /\ encode_deterministic_cbor (Map m) = Ok bs /\ len bs <= MAX_OFFER_SIZE.
Proof.
  intros Hb. unfold decode_bootstrap_map. rewrite Z.gtb_ltb. destruct (MAX_OFFER_SIZE <? len bs) eqn:El; [done|].
  to_prop. destruct (decode_deterministic_cbor bs) as [v|] eqn:Ed; [|done]. cbn [map_err rbind].
  destruct (decode_sound v bs Hb Ed) as (Hw & He & _). destruct v; try done. by intros [= <-].
Qed.

Lemma decode_bootstrap_complete bs m :
  wf (Map m) -> encode_deterministic_cbor (Map m) = Ok bs -> len bs <= MAX_OFFER_SIZE ->
  decode_bootstrap_map bs = Ok m.
Proof.
  intros Hw He Hl. unfold decode_bootstrap_map. rewrite Z.gtb_ltb, (proj2 (Z.ltb_ge _ _)) by done.
  rewrite (decode_encode _ bs Hw He); [done|]. unfold MAX_OFFER_SIZE, MAX_FRAME_PLAINTEXT in *. lia.
Qed.

Lemma offer_to_cbor_ok o bs :
  offer_to_cbor o = Ok bs <->
  validate o = Ok tt /\ encode_deterministic_cbor (Map (offer_to_map o)) = Ok bs /\ len bs <= MAX_OFFER_SIZE.
Proof.
  unfold offer_to_cbor. destruct (validate o) as [[]|]; [|naive_solver]. cbn [rbind].
  destruct (encode_deterministic_cbor _) as [e|]; [|naive_solver]. cbn [map_err rbind]. rewrite Z.gtb_ltb.
  destruct (MAX_OFFER_SIZE <? len e) eqn:El; to_prop; split; try done.
  - intros (_ & [= ->] & ?). lia.
  - intros [= ->]. done.
  - by intros (_ & [= ->] & _).
Qed.

(** *** Busy answers *)

Definition busy_ok (b : PairingBusy) : Prop :=
  PAIRING_BUSY_RETRY_AFTER_MIN_MS <= b <= PAIRING_BUSY_RETRY_AFTER_MAX_MS.

Lemma busy_new_ok n b : busy_new n = Ok b <-> b = n /\ busy_ok b.
Proof.
  unfold busy_new, busy_ok. rewrite Z.gtb_ltb. destruct (_ || _) eqn:E; to_prop; split; try done.
  - intros [-> ?]. lia.
  - intros [= ->]. lia.
  - by intros [-> _].
Qed.

Lemma busy_map_eq b :
  busy_map b = [(utf8 RETRY_AFTER_FIELD, Unsigned b); (utf8 "scheme", Text (utf8 SCHEME));
                (utf8 "version", Array version_value)].
Proof. reflexivity. Qed.

Lemma busy_map_ordered b : ordered_map (busy_map b).
Proof. rewrite busy_map_eq. repeat (constructor; [|repeat (constructor; [reflexivity|])]); constructor. Qed.

Lemma busy_from_map_ok m b : wf (Map m) -> busy_from_map m = Ok b <-> busy_ok b /\ m = busy_map b.
Proof.
  intros Hw. unfold busy_from_map. rewrite fst_ok. split.
  - intros (m' & H). apply ebind_ok in H as ([] & m1 & H & ?). apply take_header_inv in H as (? & ? & ? & ->).
    unfold o_take_unsigned in *. unfield.
    match goal with H : busy_new _ = _ |- _ => apply busy_new_ok in H as [-> Hb] end. split; [done|].
    inversion Hw as [| | | | |? Hm _| |]; subst.
    apply (determined BUSY_FIELDS); [done|apply busy_map_ordered|done|reflexivity|].
    repeat (apply Forall_cons_2; [assumption|]). apply Forall_nil_2.
  - intros [Hb ->]. eexists. apply ebind_ok; eexists _, _; split; [by apply header_reads|].
    unfold o_take_unsigned. refield. apply elift_ok. split; [by apply busy_new_ok|reflexivity].
Qed.

Lemma busy_to_cbor_ok b bs :
  busy_ok b -> busy_to_cbor b = Ok bs <->
  wf (Map (busy_map b)) /\ encode_deterministic_cbor (Map (busy_map b)) = Ok bs /\ len bs <= MAX_OFFER_SIZE.
Proof.
  intros Hb. unfold busy_to_cbor.
  assert (wf (Map (busy_map b))) as Hw.
  { constructor; [apply busy_map_ordered|]. rewrite busy_map_eq.
    repeat (apply Forall_cons_2; [split; [reflexivity|cbn [snd]]|]); [..|apply Forall_nil_2]; constructor;
      [|reflexivity|repeat constructor; by vm_compute].
    unfold busy_ok, PAIRING_BUSY_RETRY_AFTER_MIN_MS, PAIRING_BUSY_RETRY_AFTER_MAX_MS in Hb. unfold is_uint, U64_MAX. lia. }
  assert (fits 0 (Map (busy_map b)) 200) as (e & He & Hl).
  { eapply fits_weaken; [rewrite busy_map_eq; apply (fits_map 0 _ [9; 13; 50]); [done|]|by vm_compute].
    repeat (apply List.Forall2_cons; [split; [by vm_compute|cbn [snd]]|]); [..|apply List.Forall2_nil].
    - by apply fits_unsigned.
    - by apply fits_text.
    - eapply fits_weaken; [apply (fits_array _ _ 9); [done|]|by vm_compute]. repeat constructor; by apply fits_unsigned. }
  unfold encode_deterministic_cbor. rewrite He. unfold MAX_OFFER_SIZE. split.
  - intros [= <-]. split_and!; [done|done|lia].
  - by intros (_ & [= ->] & _).
Qed.

(** *** Bootstrap answers *)

Lemma offer_answer_read o bs t :
  offer_ok o -> offer_to_cbor o = Ok bs ->
  from_bootstrap bs t = let? o := served_over o t in Ok (AnswerOffer o).
Proof.
  intros Ho Hc. apply offer_to_cbor_ok in Hc as (_ & He & Hl). unfold from_bootstrap.
  rewrite (decode_bootstrap_complete _ _ (offer_map_wf _ Ho) He Hl). cbn [rbind].
  change (contains_key RETRY_AFTER_FIELD (offer_to_map o)) with false.
  by rewrite (offer_from_map_complete _ Ho).
Qed.

Lemma busy_answer_read b bs t :
  busy_ok b -> busy_to_cbor b = Ok bs -> from_bootstrap bs t = Ok (AnswerBusy b).
Proof.
  intros Hb Hc. apply (busy_to_cbor_ok _ _ Hb) in Hc as (Hw & He & Hl). unfold from_bootstrap.
  rewrite (decode_bootstrap_complete _ _ Hw He Hl). cbn [rbind].
  change (contains_key RETRY_AFTER_FIELD (busy_map b)) with true. cbn iota.
  by rewrite (proj2 (busy_from_map_ok _ _ Hw) (conj Hb eq_refl)).
Qed.

(** *** Creation *)

Lemma sort_transports l :
  exists a b, Discovery.sort_by profile_ltb l = repeat Ble a ++ repeat Stream b /\
    (Ble ∈ l <-> a <> O) /\ (Stream ∈ l <-> b <> O).
Proof.
  induction l as [|t l (a & b & Hs & Ha & Hb)]; [exists O, O; by rewrite !elem_of_nil|].
  change (Discovery.sort_by profile_ltb (t :: l))
    with (Discovery.insert_by profile_ltb t (Discovery.sort_by profile_ltb l)).
  rewrite Hs. destruct t.
  - exists (S a), b. rewrite !elem_of_cons. split; [by destruct a, b|]. split; [naive_solver lia|]. rewrite Hb. naive_solver.
  - exists a, (S b). rewrite !elem_of_cons. split; [|split; [rewrite Ha; naive_solver|naive_solver lia]].
    clear. induction a as [|a IH]; [by destruct b|]. cbn. by rewrite IH.
Qed.

Lemma dedup_repeat t n l :
  head l <> Some t -> dedup_transports (repeat t (S n) ++ l) = t :: dedup_transports l.
Proof.
  intros Hl. induction n as [|n IH].
  - destruct l as [|x l]; [done|]. cbn in *. rewrite decide_False; [done|]. intros ->. done.
  - change (repeat t (S (S n)) ++ l) with (t :: repeat t (S n) ++ l).
    cbn [repeat app] in *. cbn [dedup_transports]. by rewrite decide_True.
Qed.

(** The transports served, each once and in order. *)
Lemma served_transports l :
  exists ts, dedup_transports (Discovery.sort_by profile_ltb l) = ts /\ (forall t, t ∈ ts <-> t ∈ l) /\
    (ts = [] \/ ts = [Ble] \/ ts = [Stream] \/ ts = [Ble; Stream]).
Proof.
  destruct (sort_transports l) as (a & b & -> & Ha & Hb). eexists. split; [reflexivity|].
  assert (forall n, dedup_transports (repeat Stream n) = if decide (n = O) then [] else [Stream]) as Hstream.
  { intros [|n]; [done|]. rewrite <- (app_nil_r (repeat Stream (S n))). by rewrite dedup_repeat. }
  destruct a as [|a]; [|rewrite dedup_repeat by (by destruct b)]; cbn [repeat app]; rewrite Hstream;
    destruct (decide (b = O)) as [E|E].
  all: split; [intros []; rewrite ?elem_of_cons, ?elem_of_nil, ?Ha, ?Hb; naive_solver lia|tauto].
Qed.

Lemma created_valid id ps served :
  is_empty ps = false -> served <> [] ->
  exists o ts, offer_create id ps served = Ok o /\ validate o = Ok tt /\ (forall t, t ∈ ts <-> t ∈ served) /\
    o = MkOffer id [utf8 CPACE_KC2_SUITE] ps (map offer_entry ts) OFFER_TTL_MS /\
    (ts = [Ble] \/ ts = [Stream] \/ ts = [Ble; Stream]).
Proof.
  intros Hp Hs. unfold offer_create. destruct (served_transports served) as (ts & -> & Hts & Hcases).
  assert (ts <> []) as Hne.
  { intros ->. destruct served as [|t l]; [done|]. apply (not_elem_of_nil t), Hts. by left. }
  set (o := MkOffer id [utf8 CPACE_KC2_SUITE] ps (map offer_entry ts) OFFER_TTL_MS).
  assert (validate o = Ok tt) as Hv.
  { unfold validate, o. cbn [suites offer_profiles transports]. rewrite Hp.
    destruct Hcases as [->|[->|[->| ->]]]; by vm_compute. }
  exists o, ts. split_and!; [by apply offer_reconstruct_ok|done|done|done|]. by destruct Hcases as [->|?].
Qed.

Lemma served_over_iff id ps ts ttl t :
  served_over (MkOffer id [utf8 CPACE_KC2_SUITE] ps (map offer_entry ts) ttl) t =
  if bool_decide (t ∈ ts) then Ok (MkOffer id [utf8 CPACE_KC2_SUITE] ps (map offer_entry ts) ttl)
  else Err PO_TransportNotOffered.
Proof.
  unfold served_over, entry. cbn [transports]. induction ts as [|u ts IH]; [done|]. cbn [map List.find].
  destruct (text_is _ _) eqn:E.
  - assert (u = t) as -> by (by destruct u, t). by rewrite bool_decide_eq_true_2 by by left.
  - assert (u <> t) as Hu by (intros ->; by destruct t).
    assert (t ∈ u :: ts <-> t ∈ ts) as Hin by (rewrite elem_of_cons; naive_solver).
    rewrite (bool_decide_ext _ _ Hin). by destruct (List.find _ _), (bool_decide (t ∈ ts)).
Qed.

(** An offer of registered profiles has an encoding of at most 440 bytes. *)
Lemma created_fits id (ps : list ProfileName) ts :
  len id = OFFER_ID_SIZE -> NoDup ps -> ts = [Ble] \/ ts = [Stream] \/ ts = [Ble; Stream] ->
  exists bs, encode_deterministic_cbor (Map (offer_to_map
    (MkOffer id [utf8 CPACE_KC2_SUITE] (map (fun p => utf8 (ProfileName_as_str p)) ps) (map offer_entry ts)
       OFFER_TTL_MS))) = Ok bs /\ len bs <= MAX_OFFER_SIZE.
Proof.
  intros Hid Hd Hts. apply distinct_profiles in Hd.
  cut (match encode_deterministic_cbor (Map (offer_to_map (MkOffer id [utf8 CPACE_KC2_SUITE]
         (map (fun p => utf8 (ProfileName_as_str p)) ps) (map offer_entry ts) OFFER_TTL_MS))) with
       | Ok bs => len bs <=? MAX_OFFER_SIZE | Err _ => false end = true).
  { destruct (encode_deterministic_cbor _) as [bs|]; [|done]. intros H. to_prop. by exists bs. }
  unfold len, OFFER_ID_SIZE in *.
  do 32 (destruct id as [|? id]; [exfalso; cbn [length] in Hid; lia|]).
  destruct id; [|exfalso; cbn [length] in Hid; lia]. clear Hid.
  destruct ps as [|p1 [|p2 [|p3 [|? ?]]]]; [| | | |exfalso; cbn [length] in Hd; lia]; clear Hd.
  all: repeat match goal with p : ProfileName |- _ => destruct p end.
  all: destruct Hts as [->|[->| ->]]; vm_compute; reflexivity.
Qed.

Lemma created_read id (ps : list ProfileName) served :
  len id = OFFER_ID_SIZE -> NoDup ps -> ps <> [] -> served <> [] ->
  exists ts bs,
    let o := MkOffer id [utf8 CPACE_KC2_SUITE] (map (fun p => utf8 (ProfileName_as_str p)) ps) (map offer_entry ts)
               OFFER_TTL_MS in
    offer_create id (map (fun p => utf8 (ProfileName_as_str p)) ps) served = Ok o /\ offer_ok o /\
    offer_to_cbor o = Ok bs /\ (forall t, t ∈ ts <-> t ∈ served) /\
    (ts = [Ble] \/ ts = [Stream] \/ ts = [Ble; Stream]).
Proof.
  intros Hid Hd Hp Hs.
  destruct (created_valid id (map (fun p => utf8 (ProfileName_as_str p)) ps) served) as (o & ts & Hc & Hv & Hts & Ho & Hcases);
    [by destruct ps|done|].
  destruct (created_fits id ps ts Hid Hd Hcases) as (bs & He & Hl). exists ts, bs. rewrite <- Ho in *.
  split_and!; [done| |by apply offer_to_cbor_ok|done|done].
  subst o. split_and!; [done|done|by repeat constructor|]. apply Forall_map, Forall_true. by intros [].
Qed.

(** ** Properties *)

(** (round trip) What a requester reads at the bootstrap is exactly what is
    valid: the bytes that arrive over a transport are read as an offer if and
    only if they are the encoding, of at most 509 bytes, of a valid offer that
    lists this transport, and as a busy answer if and only if they are the
    encoding of one whose wait is in range. *)
Theorem bootstrap_read_exactly (bs : bytes) (t : TransportProfile) (a : BootstrapAnswer) :
  all_bytes bs ->
  from_bootstrap bs t = Ok a <->
  match a with
  | AnswerOffer o => offer_ok o /\ offer_to_cbor o = Ok bs /\ is_Some (entry o t)
  | AnswerBusy b => busy_ok b /\ busy_to_cbor b = Ok bs
  end.
Proof.
  intros Hb. split.
  - unfold from_bootstrap. destruct (decode_bootstrap_map bs) as [m|] eqn:Ed; [|done]. cbn [rbind].
    apply decode_bootstrap_inv in Ed as (Hw & He & Hl); [|done]. destruct (contains_key _ m).
    + destruct (busy_from_map m) as [b|] eqn:Eb; [|done]. intros [= <-].
      apply busy_from_map_ok in Eb as [Hok ->]; [|done]. split; [done|]. by apply busy_to_cbor_ok.
    + destruct (offer_from_map m) as [o|] eqn:Eo; [|done]. cbn [rbind]. unfold served_over.
      destruct (entry o t) as [c|] eqn:Et; [|done]. intros [= <-].
      apply offer_from_map_inv in Eo as [Hok ->]; [|done]. split_and!; [done| |by rewrite Et].
      apply offer_to_cbor_ok. by destruct Hok.
  - destruct a as [o|b].
    + intros (Ho & Hc & [c Hc']). rewrite (offer_answer_read _ _ _ Ho Hc). unfold served_over. by rewrite Hc'.
    + intros [Hok Hc]. by apply busy_answer_read.
Qed.

(** (liveness) The offer a custodian creates reaches every requester: made of
    distinct registered profiles and any transports, it is valid, its encoding
    fits the attribute value of the smallest link, and over each transport it is
    served on, and over no other, it is read as it was made. *)
Theorem created_offer_is_read (id : bytes) (ps : list ProfileName) (served : list TransportProfile) :
  len id = OFFER_ID_SIZE -> NoDup ps -> ps <> [] -> served <> [] ->
  exists o bs, offer_create id (map (fun p => utf8 (ProfileName_as_str p)) ps) served = Ok o /\
    offer_to_cbor o = Ok bs /\ len bs <= MAX_OFFER_SIZE /\
    forall t, from_bootstrap bs t =
      if bool_decide (t ∈ served) then Ok (AnswerOffer o) else Err PO_TransportNotOffered.
Proof.
  intros Hid Hd Hp Hs. destruct (created_read id ps served Hid Hd Hp Hs) as (ts & bs & Hc & Hok & Hb & Hts & _).
  eexists _, bs. split; [exact Hc|]. split; [exact Hb|].
  split; [by apply offer_to_cbor_ok in Hb as (_ & _ & Hl)|]. intros t. rewrite (offer_answer_read _ _ _ Hok Hb).
  rewrite served_over_iff. rewrite (bool_decide_ext (t ∈ ts) (t ∈ served)) by apply Hts. by case_bool_decide.
Qed.

(** *** Witnesses *)

Lemma bootstrap_read_exactly_witness :
  from_bootstrap (match busy_to_cbor 750 with Ok bs => bs | Err _ => [] end) Stream = Ok (AnswerBusy 750).
Proof.
  apply (bootstrap_read_exactly _ Stream (AnswerBusy 750)); [vm_compute; repeat constructor; done|].
  split; [vm_compute; split; discriminate|reflexivity].
Defined.

Lemma created_offer_is_read_witness :
  exists o bs, offer_create (repeat 7 32) [utf8 (ProfileName_as_str Authentication)] [Stream; Stream] = Ok o /\
    offer_to_cbor o = Ok bs /\ len bs <= MAX_OFFER_SIZE /\
    forall t, from_bootstrap bs t =
      if bool_decide (t ∈ [Stream; Stream]) then Ok (AnswerOffer o) else Err PO_TransportNotOffered.
Proof.
  apply (created_offer_is_read (repeat 7 32) [Authentication] [Stream; Stream]);
    [reflexivity|repeat constructor; by intros ?%not_elem_of_nil|done|done].
Defined.

End Offer.
