(* ===== verification/RappCandidates.v ===== *)
(** * The tries of one pairing code

    crates/rapp/src/pairing_candidates.rs: the ledger by which a requester tries
    one typed code at the custodians it finds in pairing mode, and the events its
    outcomes are to the pairing machine of crates/rapp/src/state.rs.

    The theorems: whatever is found and answered, at most eight connections are
    opened, one at a time, no endpoint is opened again but after the wait of its
    busy answer, and no offer receives a second guess; and the report of the
    ledger is true of the endpoints and accepted by the pairing machine. *)

From stdpp Require Import base list strings option sorting.
From Stdlib Require Import ZArith Lia.
From S2P Require Import Prelude RappState RappCbor RappWire RappOffer.

Module Candidates.
Import Offer.

(** ** Data *)

Definition PAIRING_CANDIDATES_MAX : Z := 8.

Inductive CandidatePhase := PhClosed | PhOpened | PhTrying | PhAccepted | PhNotAccepted.

Inductive EndpointStatus := Waiting | Open | Deferred (not_before_ms : Z) | Done.

#[global] Instance CandidatePhase_eq_dec : EqDecision CandidatePhase.
Proof. solve_decision. Defined.
#[global] Instance EndpointStatus_eq_dec : EqDecision EndpointStatus.
Proof. solve_decision. Defined.

Inductive NextCandidate := NC_Try | NC_Deferred | NC_NotAccepted | NC_NoneTried.

Definition pairing_event (next : NextCandidate) (remote_use_available : bool) :
  RappState.PairingEvent * RappState.Guards :=
  let untried := RappState.mkGuards false false false false false false false true in
  match next with
  | NC_NotAccepted => (RappState.PE_LastCandidateFailed, RappState.Guards_default)
  | _ =>
      if negb remote_use_available then (RappState.PE_SearchInterrupted, RappState.Guards_default)
      else match next with
           | NC_Try => (RappState.PE_AttemptFailed, untried)
           | NC_Deferred => (RappState.PE_CandidateBusy, untried)
           | _ => (RappState.PE_NoCustodianTried, RappState.Guards_default)
           end
  end.

Inductive CandidateError := ConnectionOpen | NoConnection | NoTry | OfferAlreadyTried | Settled.

Section Ledger.

(** [E] is the platform's name of an endpoint. *)
Context {E : Type} `{EqDecision E}.

Record Candidate := MkCandidate { endpoint : E; status : EndpointStatus }.

Record PairingCandidates := MkCandidates {
  candidates : list Candidate; openings : Z; tried : list bytes; busy_answered : bool;
  phase : CandidatePhase }.

Inductive NextEndpoint := NE_Open (e : E) | NE_NotBefore (ms : Z) | NE_Exhausted.

(** ** Operations *)

Definition candidates_new : PairingCandidates := MkCandidates [] 0 [] false PhClosed.

Definition is_settled (s : PairingCandidates) : bool :=
  match phase s with PhAccepted | PhNotAccepted => true | _ => false end.

Definition set_phase (p : CandidatePhase) (s : PairingCandidates) : PairingCandidates :=
  MkCandidates (candidates s) (openings s) (tried s) (busy_answered s) p.

Definition found (e : E) (s : PairingCandidates) : PairingCandidates :=
  if is_settled s || (len (candidates s) >=? PAIRING_CANDIDATES_MAX)
     || existsb (fun c => bool_decide (endpoint c = e)) (candidates s)
  then s
  else MkCandidates (candidates s ++ [MkCandidate e Waiting]) (openings s) (tried s) (busy_answered s) (phase s).

(** [iter().position(..)] of the first endpoint not yet opened. *)
Fixpoint first_waiting (index : nat) (l : list Candidate) : option nat :=
  match l with
  | [] => None
  | c :: l => if bool_decide (status c = Waiting) then Some index else first_waiting (S index) l
  end.

(** [filter_map(..).min()] of the times and indices of the deferred endpoints. *)
Definition earlier (a b : Z * nat) : Z * nat :=
  if (a.1 <? b.1) || ((a.1 =? b.1) && (a.2 <=? b.2)%nat) then a else b.
Fixpoint earliest_deferred (index : nat) (l : list Candidate) : option (Z * nat) :=
  match l with
  | [] => None
  | c :: l =>
      match status c, earliest_deferred (S index) l with
      | Deferred t, None => Some (t, index)
      | Deferred t, Some later => Some (earlier (t, index) later)
      | _, later => later
      end
  end.

(** The endpoint at [index] is opened. *)
Definition open_at (index : nat) (s : PairingCandidates) : NextEndpoint * PairingCandidates :=
  match candidates s !! index with
  | None => (NE_Exhausted, s)
  | Some c =>
      (NE_Open (endpoint c),
       MkCandidates (<[index := MkCandidate (endpoint c) Open]> (candidates s)) (openings s + 1)
         (tried s) (busy_answered s) PhOpened)
  end.

Definition next_endpoint (now_ms : Z) : exec PairingCandidates CandidateError NextEndpoint := fun s =>
  match phase s with
  | PhOpened | PhTrying => (Err ConnectionOpen, s)
  | PhAccepted | PhNotAccepted => (Err Settled, s)
  | PhClosed =>
      if openings s >=? PAIRING_CANDIDATES_MAX then (Ok NE_Exhausted, s)
      else
        let '(next, s) :=
          match first_waiting 0 (candidates s), earliest_deferred 0 (candidates s) with
          | Some index, _ => open_at index s
          | None, Some (not_before_ms, index) =>
              if not_before_ms <=? now_ms then open_at index s else (NE_NotBefore not_before_ms, s)
          | None, None => (NE_Exhausted, s)
          end in
        (Ok next, s)
  end.

Definition begin_try (offer : PairingOffer) : exec PairingCandidates CandidateError unit := fun s =>
  match phase s with
  | PhClosed | PhTrying => (Err NoConnection, s)
  | PhAccepted | PhNotAccepted => (Err Settled, s)
  | PhOpened =>
      if bool_decide (offer_id offer ∈ tried s) then (Err OfferAlreadyTried, s)
      else (Ok tt, MkCandidates (candidates s) (openings s) (tried s ++ [offer_id offer]) (busy_answered s) PhTrying)
  end.

(** The first open endpoint is left at [st]. *)
Fixpoint close_first (st : EndpointStatus) (l : list Candidate) : list Candidate :=
  match l with
  | [] => []
  | c :: l => if bool_decide (status c = Open) then MkCandidate (endpoint c) st :: l else c :: close_first st l
  end.

Definition end_connection (st : EndpointStatus) : exec PairingCandidates CandidateError unit := fun s =>
  match phase s with
  | PhClosed => (Err NoConnection, s)
  | PhAccepted | PhNotAccepted => (Err Settled, s)
  | PhOpened | PhTrying =>
      (Ok tt, MkCandidates (close_first st (candidates s)) (openings s) (tried s) (busy_answered s) PhClosed)
  end.

Definition after_connection (next : NextCandidate) (s : PairingCandidates) : NextCandidate * PairingCandidates :=
  let left_ := existsb (fun c => negb (bool_decide (status c = Done))) (candidates s) in
  if left_ && (openings s <? PAIRING_CANDIDATES_MAX) then (next, s)
  else if is_empty (tried s) && negb (busy_answered s) then (NC_NoneTried, s)
  else (NC_NotAccepted, set_phase PhNotAccepted s).

Definition closed : exec PairingCandidates CandidateError NextCandidate := fun s =>
  match end_connection Done s with
  | (Err e, s) => (Err e, s)
  | (Ok _, s) => let '(next, s) := after_connection NC_Try s in (Ok next, s)
  end.

(** [Vec::pop]. *)
Definition pop {A} (l : list A) : list A := take (length l - 1) l.

Definition busy (retry_after_ms now_ms : Z) : exec PairingCandidates CandidateError NextCandidate := fun s =>
  let trying := bool_decide (phase s = PhTrying) in
  match end_connection (Deferred (saturating_add U64_MAX now_ms retry_after_ms)) s with
  | (Err e, s) => (Err e, s)
  | (Ok _, s) =>
      let s := MkCandidates (candidates s) (openings s) (if trying then pop (tried s) else tried s) true (phase s) in
      let '(next, s) := after_connection NC_Deferred s in (Ok next, s)
  end.

Definition accepted : exec PairingCandidates CandidateError unit := fun s =>
  match phase s with
  | PhTrying => (Ok tt, set_phase PhAccepted s)
  | PhClosed | PhOpened => (Err NoTry, s)
  | PhAccepted | PhNotAccepted => (Err Settled, s)
  end.

End Ledger.
Arguments Candidate : clear implicits.
Arguments PairingCandidates : clear implicits.
Arguments NextEndpoint : clear implicits.

(** ** The abstract search

    What may be seen of the tries of one code, whatever the ledger keeps: which
    endpoint is connected, which offers had a guess, and what stands of each
    endpoint. *)

Section Search.
Context {E : Type} `{EqDecision E}.

Inductive call :=
  | C_Found (e : E) | C_Next (now_ms : Z) | C_Begin (o : PairingOffer) | C_Closed
  | C_Busy (retry_after_ms now_ms : Z) | C_Accepted.

Inductive event := Opened (e : E) (now_ms : Z) | Begun (id : bytes) | Ended (st : EndpointStatus) | Taken.

Definition step (c : call) (s : PairingCandidates E) : list event * PairingCandidates E :=
  match c with
  | C_Found e => ([], found e s)
  | C_Next now_ms =>
      match next_endpoint now_ms s with (Ok (NE_Open e), s) => ([Opened e now_ms], s) | (_, s) => ([], s) end
  | C_Begin o => match begin_try o s with (Ok _, s) => ([Begun (offer_id o)], s) | (Err _, s) => ([], s) end
  | C_Closed => match closed s with (Ok _, s) => ([Ended Done], s) | (Err _, s) => ([], s) end
  | C_Busy retry_after_ms now_ms =>
      match busy retry_after_ms now_ms s with
      | (Ok _, s) => ([Ended (Deferred (saturating_add U64_MAX now_ms retry_after_ms))], s)
      | (Err _, s) => ([], s)
      end
  | C_Accepted => match accepted s with (Ok _, s) => ([Taken], s) | (Err _, s) => ([], s) end
  end.

Fixpoint run (cs : list call) (s : PairingCandidates E) : list event * PairingCandidates E :=
  match cs with
  | [] => ([], s)
  | c :: cs => let '(evs, s) := step c s in let '(rest, s) := run cs s in (evs ++ rest, s)
  end.

Record search := MkSearch {
  stands : E -> EndpointStatus; connected : option E; pending : option bytes; guessed : list bytes;
  connections : Z; taken : bool }.

Definition search_start : search := MkSearch (fun _ => Waiting) None None [] 0 false.

Definition may_open (st : EndpointStatus) (now_ms : Z) : bool :=
  match st with Waiting => true | Deferred t => t <=? now_ms | _ => false end.

Definition set_stands (e : E) (st : EndpointStatus) (f : E -> EndpointStatus) : E -> EndpointStatus :=
  fun e' => if decide (e' = e) then st else f e'.

(** The events the search allows: a connection is opened when none is, within the
    limit, to an endpoint not opened before or whose wait has passed; a guess is
    made on a connection, at an offer that had none; an ended connection leaves
    its guess unless it was answered busy. *)
Definition observe (v : search) (ev : event) : option search :=
  match ev with
  | Opened e now_ms =>
      match connected v with
      | None =>
          if negb (taken v) && (connections v <? PAIRING_CANDIDATES_MAX) && may_open (stands v e) now_ms then
            Some (MkSearch (set_stands e Open (stands v)) (Some e) None (guessed v) (connections v + 1) false)
          else None
      | Some _ => None
      end
  | Begun id =>
      match connected v, pending v with
      | Some _, None =>
          if negb (taken v) && negb (bool_decide (id ∈ guessed v)) then
            Some (MkSearch (stands v) (connected v) (Some id) (guessed v) (connections v) false)
          else None
      | _, _ => None
      end
  | Ended st =>
      match connected v with
      | Some e =>
          if taken v then None
          else
            let guesses := match st, pending v with Done, Some id => [id] | _, _ => [] end in
            Some (MkSearch (set_stands e st (stands v)) None None (guessed v ++ guesses) (connections v) false)
      | None => None
      end
  | Taken =>
      match pending v with
      | Some id =>
          if taken v then None
          else Some (MkSearch (stands v) (connected v) None (guessed v ++ [id]) (connections v) true)
      | None => None
      end
  end.

Fixpoint observe_all (v : search) (evs : list event) : option search :=
  match evs with [] => Some v | ev :: evs => observe v ev ≫= fun v => observe_all v evs end.

(** ** Lemmas *)

Lemma first_waiting_ok index (l : list (Candidate E)) j :
  first_waiting index l = Some j ->
  (index <= j)%nat /\ exists c, l !! (j - index)%nat = Some c /\ status c = Waiting.
Proof.
  revert index. induction l as [|c l IH]; intros index; cbn [first_waiting]; [done|]. case_bool_decide.
  - intros [= <-]. split; [lia|]. exists c. by rewrite Nat.sub_diag.
  - intros Hj. apply IH in Hj as (Hle & c' & Hc & Hs). split; [lia|]. exists c'.
    by replace (j - index)%nat with (S (j - S index)) by lia.
Qed.

Lemma earliest_deferred_ok index (l : list (Candidate E)) t j :
  earliest_deferred index l = Some (t, j) ->
  (index <= j)%nat /\ exists c, l !! (j - index)%nat = Some c /\ status c = Deferred t.
Proof.
  revert index t j. induction l as [|c l IH]; intros index t j; cbn [earliest_deferred]; [done|].
  assert (forall t j, earliest_deferred (S index) l = Some (t, j) ->
    (index <= j)%nat /\ exists c', (c :: l) !! (j - index)%nat = Some c' /\ status c' = Deferred t) as Hlater.
  { intros t' j' Hj. apply IH in Hj as (Hle & c' & Hc & Hs). split; [lia|]. exists c'.
    by replace (j' - index)%nat with (S (j' - S index)) by lia. }
  destruct (status c) as [| |t'|] eqn:Es; [by apply Hlater..| |by apply Hlater].
  assert ((index <= index)%nat /\ exists c', (c :: l) !! (index - index)%nat = Some c' /\ status c' = Deferred t') as Hhere.
  { split; [lia|]. exists c. by rewrite Nat.sub_diag. }
  destruct (earliest_deferred (S index) l) as [[t2 j2]|].
  - unfold earlier. cbn [fst snd]. destruct (_ || _); intros [= <- <-]; [done|by apply Hlater].
  - by intros [= <- <-].
Qed.

Lemma first_waiting_none index (l : list (Candidate E)) c : first_waiting index l = None -> c ∈ l -> status c <> Waiting.
Proof.
  revert index. induction l as [|c' l IH]; intros index; cbn [first_waiting]; [by intros _ ?%not_elem_of_nil|].
  case_bool_decide; [done|]. intros Hn [->|Hin]%elem_of_cons; [done|]. by apply (IH (S index)).
Qed.

Lemma earliest_deferred_none index (l : list (Candidate E)) c t : earliest_deferred index l = None -> c ∈ l -> status c <> Deferred t.
Proof.
  revert index. induction l as [|c' l IH]; intros index; cbn [earliest_deferred]; [by intros _ ?%not_elem_of_nil|].
  intros Hn [->|Hin]%elem_of_cons.
  - intros Hs. rewrite Hs in Hn. by destruct (earliest_deferred _ _).
  - apply (IH (S index)); [|done]. by destruct (status c'), (earliest_deferred _ _).
Qed.

Lemma close_first_at st (l : list (Candidate E)) j c :
  l !! j = Some c -> status c = Open -> (forall i c', l !! i = Some c' -> status c' = Open -> i = j) ->
  close_first st l = <[j := MkCandidate (endpoint c) st]> l.
Proof.
  revert j. induction l as [|c' l IH]; intros j Hj Hs Hu; [done|]. cbn [close_first]. case_bool_decide as Ho.
  - assert (j = O) as -> by (symmetry; by apply (Hu O c')). by injection Hj as ->.
  - destruct j as [|j]; [by injection Hj as ->|]. cbn. f_equal. apply IH; [done|done|].
    intros i c2 Hi Hs2. specialize (Hu (S i) c2 Hi Hs2). lia.
Qed.

Lemma pop_snoc {A} (l : list A) x : pop (l ++ [x]) = l.
Proof. unfold pop. rewrite length_app. cbn. by rewrite Nat.add_sub, take_app_length. Qed.

(** *** The ledger stands for the search *)

Definition phase_stands (s : PairingCandidates E) (v : search) : Prop :=
  match phase s with
  | PhClosed | PhNotAccepted => connected v = None /\ pending v = None /\ tried s = guessed v /\ taken v = false
  | PhOpened => is_Some (connected v) /\ pending v = None /\ tried s = guessed v /\ taken v = false
  | PhTrying =>
      is_Some (connected v) /\ taken v = false /\
      exists id, pending v = Some id /\ tried s = guessed v ++ [id] /\ id ∉ guessed v
  | PhAccepted => pending v = None /\ taken v = true
  end.

Record represents (s : PairingCandidates E) (v : search) : Prop := {
  rep_distinct : NoDup (map endpoint (candidates s));
  rep_stands : forall i c, candidates s !! i = Some c -> stands v (endpoint c) = status c;
  rep_unknown : forall e, e ∉ map endpoint (candidates s) -> stands v e = Waiting;
  rep_open : forall e, stands v e = Open <-> connected v = Some e;
  rep_openings : openings s = connections v;
  rep_limit : connections v <= PAIRING_CANDIDATES_MAX;
  rep_phase : phase_stands s v }.

Lemma endpoint_index (l : list (Candidate E)) i j c c' :
  NoDup (map endpoint l) -> l !! i = Some c -> l !! j = Some c' -> endpoint c = endpoint c' -> i = j.
Proof.
  intros Hd Hi Hj He. eapply (NoDup_lookup (map endpoint l)); [done|..]; rewrite list_lookup_fmap.
  - by rewrite Hi.
  - rewrite Hj. cbn. by rewrite He.
Qed.

(** Changing the status of one endpoint in the ledger and in the search. *)
Lemma represents_status (l : list (Candidate E)) f j c st :
  NoDup (map endpoint l) -> (forall i c, l !! i = Some c -> f (endpoint c) = status c) ->
  (forall e, e ∉ map endpoint l -> f e = Waiting) -> l !! j = Some c ->
  let l' := <[j := MkCandidate (endpoint c) st]> l in
  map endpoint l' = map endpoint l /\
  (forall i c', l' !! i = Some c' -> set_stands (endpoint c) st f (endpoint c') = status c') /\
  (forall e, e ∉ map endpoint l -> set_stands (endpoint c) st f e = Waiting).
Proof.
  intros Hd Hf Hu Hj l'. split_and!.
  - unfold l'. rewrite list_fmap_insert. apply list_insert_id. by rewrite list_lookup_fmap, Hj.
  - intros i c' Hi. unfold set_stands. apply list_lookup_insert_Some in Hi as [(<- & <- & _)|[Hne Hi]].
    + cbn. by rewrite decide_True.
    + rewrite decide_False; [by apply (Hf i)|]. intros He. apply Hne. symmetry.
      by apply (endpoint_index l i j c' c).
  - intros e He. unfold set_stands. rewrite decide_False; [by apply Hu|]. intros ->. apply He.
    apply list_elem_of_fmap. exists c. split; [done|]. by apply list_elem_of_lookup_2 with j.
Qed.

Lemma found_represents e s v : represents s v -> represents (found e s) v.
Proof.
  intros [Hd Hs Hu Ho Hn Hl Hp]. unfold found. destruct (_ || _ || _) eqn:Eb; [by constructor|].
  rewrite !orb_false_iff in Eb. destruct Eb as [_ Hnew].
  assert (e ∉ map endpoint (candidates s)) as Hfresh.
  { intros Hin. apply list_elem_of_fmap in Hin as (c & -> & Hc).
    rewrite <- not_true_iff_false, existsb_exists in Hnew. apply Hnew. exists c.
    split; [by apply list_elem_of_In|by apply bool_decide_eq_true]. }
  constructor; cbn [candidates openings]; try done.
  - rewrite fmap_app. apply NoDup_app. split_and!; [done| |apply NoDup_singleton].
    intros x Hx. cbn. rewrite list_elem_of_singleton. by intros ->.
  - intros i c Hi. apply lookup_app_Some in Hi as [Hi|[_ Hi]]; [by apply (Hs i)|].
    apply list_lookup_singleton_Some in Hi as [_ <-]. cbn. by apply Hu.
  - intros e' He'. apply Hu. intros Hin. apply He'. rewrite fmap_app, elem_of_app. by left.
Qed.

Lemma open_represents now j c s v :
  represents s v -> phase s = PhClosed -> openings s < PAIRING_CANDIDATES_MAX ->
  candidates s !! j = Some c -> may_open (status c) now = true ->
  exists s' v', open_at j s = (NE_Open (endpoint c), s') /\
    observe v (Opened (endpoint c) now) = Some v' /\ represents s' v'.
Proof.
  intros [Hd Hs Hu Ho Hn Hl Hp] Hph Hlt Hj Hm. unfold phase_stands in Hp. rewrite Hph in Hp.
  destruct Hp as (Hc & Hpe & Ht & Htk). unfold open_at. rewrite Hj. eexists _, _. split; [reflexivity|].
  unfold observe. rewrite Hc, Htk, (Hs _ _ Hj), Hm, <- Hn, (proj2 (Z.ltb_lt _ _)) by done. split; [reflexivity|].
  destruct (represents_status _ _ _ _ Open Hd Hs Hu Hj) as (He & Hs' & Hu').
  constructor; cbn [candidates openings connections stands connected].
  - by rewrite He.
  - done.
  - by rewrite He.
  - intros e. unfold set_stands. destruct (decide (e = endpoint c)) as [->|Hne]; [done|].
    rewrite Ho, Hc. naive_solver.
  - done.
  - lia.
  - unfold phase_stands. cbn. by split_and!.
Qed.

Lemma next_represents now s v :
  represents s v -> exists v', observe_all v (step (C_Next now) s).1 = Some v' /\
    represents (step (C_Next now) s).2 v'.
Proof.
  intros Hr. cbn [step]. unfold next_endpoint. destruct (phase s) eqn:Hph; try (by exists v).
  rewrite Z.geb_leb. destruct (PAIRING_CANDIDATES_MAX <=? openings s) eqn:El; [by exists v|]. to_prop.
  assert (forall j c, candidates s !! j = Some c -> may_open (status c) now = true ->
    exists v', observe_all v (match open_at j s with (NE_Open e, s) => ([Opened e now], s) | (_, s) => ([], s) end).1 = Some v' /\
      represents (match open_at j s with (NE_Open e, s) => ([Opened e now], s) | (_, s) => ([], s) end).2 v') as Hopen.
  { intros j c Hj Hm. destruct (open_represents now j c s v Hr Hph El Hj Hm) as (s' & v' & -> & Hv & Hr').
    exists v'. cbn [fst snd observe_all]. by rewrite Hv. }
  destruct (first_waiting 0 (candidates s)) as [j|] eqn:Ew.
  - apply first_waiting_ok in Ew as (_ & c & Hj & Hs). rewrite Nat.sub_0_r in Hj.
    specialize (Hopen j c Hj ltac:(by rewrite Hs)). by destruct (open_at j s) as [[] ?].
  - destruct (earliest_deferred 0 (candidates s)) as [[t j]|] eqn:Ed; [|by exists v].
    destruct (t <=? now) eqn:Et; [|by exists v].
    apply earliest_deferred_ok in Ed as (_ & c & Hj & Hs). rewrite Nat.sub_0_r in Hj.
    specialize (Hopen j c Hj ltac:(by rewrite Hs)). by destruct (open_at j s) as [[] ?].
Qed.

Lemma begin_represents o s v :
  represents s v -> exists v', observe_all v (step (C_Begin o) s).1 = Some v' /\
    represents (step (C_Begin o) s).2 v'.
Proof.
  intros Hr. cbn [step]. unfold begin_try. destruct (phase s) eqn:Hph; try (by exists v).
  case_bool_decide as Hin; [by exists v|]. destruct Hr as [Hd Hs Hu Ho Hn Hl Hp].
  unfold phase_stands in Hp. rewrite Hph in Hp. destruct Hp as ([e Hc] & Hpe & Ht & Htk).
  eexists. cbn [fst snd observe_all observe]. rewrite Hc, Hpe, Htk, bool_decide_eq_false_2 by by rewrite <- Ht.
  split; [reflexivity|]. constructor; cbn [candidates openings connections stands connected]; try done.
  - intros e'. by rewrite Ho, Hc.
  - unfold phase_stands. cbn. rewrite <- Ht. split_and!; [done|done|]. by exists (offer_id o).
Qed.

Lemma accepted_represents s v :
  represents s v -> exists v', observe_all v (step C_Accepted s).1 = Some v' /\
    represents (step C_Accepted s).2 v'.
Proof.
  intros Hr. cbn [step]. unfold accepted. destruct (phase s) eqn:Hph; try (by exists v).
  destruct Hr as [Hd Hs Hu Ho Hn Hl Hp]. unfold phase_stands in Hp. rewrite Hph in Hp.
  destruct Hp as ([e Hc] & Htk & id & Hpe & Ht & _).
  eexists. cbn [fst snd observe_all observe]. rewrite Hpe, Htk. split; [reflexivity|].
  by constructor.
Qed.

(** The end of a connection, left at [st] with the offers [kept] as tried. *)
Lemma end_represents st kept b s v :
  represents s v -> phase s = PhOpened \/ phase s = PhTrying -> st <> Open ->
  kept = guessed v ++ match st, pending v with Done, Some id => [id] | _, _ => [] end ->
  exists v', observe v (Ended st) = Some v' /\
    represents (MkCandidates (close_first st (candidates s)) (openings s) kept b PhClosed) v'.
Proof.
  intros [Hd Hs Hu Ho Hn Hl Hp] Hph Hst Hk. unfold phase_stands in Hp.
  assert (exists e, connected v = Some e /\ taken v = false) as (e & Hc & Htk).
  { destruct Hph as [Hph|Hph]; rewrite Hph in Hp.
    - destruct Hp as ([e Hc] & _ & _ & ?). by exists e.
    - destruct Hp as ([e Hc] & ? & _). by exists e. }
  assert (e ∈ map endpoint (candidates s)) as Hin.
  { destruct (decide (e ∈ map endpoint (candidates s))) as [|Hni]; [done|].
    apply Hu in Hni. pose proof (proj2 (Ho e) Hc) as Hopen. by rewrite Hni in Hopen. }
  apply list_elem_of_fmap in Hin as (c & -> & Hin). apply list_elem_of_lookup in Hin as [j Hj].
  assert (status c = Open) as Hso by (rewrite <- (Hs _ _ Hj); by apply Ho).
  rewrite (close_first_at st _ j c Hj Hso).
  2: { intros i c' Hi Hs'. apply (endpoint_index (candidates s) i j c' c); [done..|].
       rewrite <- (Hs _ _ Hi) in Hs'. apply Ho in Hs'. congruence. }
  eexists. cbn [observe]. rewrite Hc, Htk. split; [reflexivity|].
  destruct (represents_status _ _ _ _ st Hd Hs Hu Hj) as (He & Hs' & Hu').
  constructor; cbn [candidates openings connections stands connected].
  - by rewrite He.
  - done.
  - by rewrite He.
  - intros e. unfold set_stands. destruct (decide (e = endpoint c)) as [->|Hne]; [naive_solver|].
    rewrite Ho, Hc. naive_solver.
  - done.
  - done.
  - unfold phase_stands. cbn. by rewrite Hk.
Qed.

Lemma after_represents next s v :
  represents s v -> phase s = PhClosed -> represents (after_connection next s).2 v.
Proof.
  intros [Hd Hs Hu Ho Hn Hl Hp] Hph. unfold after_connection. destruct (_ && _); [by constructor|].
  destruct (_ && _); [by constructor|]. constructor; try done. unfold phase_stands in *. by rewrite Hph in Hp.
Qed.

Lemma closed_represents s v :
  represents s v -> exists v', observe_all v (step C_Closed s).1 = Some v' /\ represents (step C_Closed s).2 v'.
Proof.
  intros Hr. cbn [step]. unfold closed, end_connection. pose proof (rep_phase _ _ Hr) as Hp. unfold phase_stands in Hp.
  destruct (phase s) eqn:Hph; try (by exists v).
  all: match goal with |- context [after_connection NC_Try ?s1] =>
    destruct (end_represents Done (tried s) (busy_answered s) s v Hr) as (v' & Hv & Hr') end;
    [tauto|done| |].
  1: { destruct Hp as (_ & -> & -> & _). by rewrite app_nil_r. }
  2: { by destruct Hp as (_ & _ & id & -> & -> & _). }
  all: exists v'; pose proof (after_represents NC_Try _ _ Hr' eq_refl) as Ha; destruct (after_connection NC_Try _);
    cbn [fst snd observe_all] in *; by rewrite Hv.
Qed.

Lemma busy_represents retry now s v :
  represents s v -> exists v', observe_all v (step (C_Busy retry now) s).1 = Some v' /\
    represents (step (C_Busy retry now) s).2 v'.
Proof.
  intros Hr. cbn [step]. unfold busy, end_connection. pose proof (rep_phase _ _ Hr) as Hp. unfold phase_stands in Hp.
  set (st := Deferred (saturating_add U64_MAX now retry)).
  destruct (phase s) eqn:Hph; try (by exists v); cbn [candidates openings tried busy_answered phase].
  all: match goal with |- context [MkCandidates _ _ ?kept true _] =>
    destruct (end_represents st kept true s v Hr) as (v' & Hv & Hr') end;
    [tauto|done| |].
  1: { destruct Hp as (_ & _ & Ht & _). cbn. by rewrite app_nil_r. }
  2: { destruct Hp as (_ & _ & id & _ & Ht & _). rewrite bool_decide_eq_true_2, Ht, pop_snoc by done.
       cbn. by rewrite app_nil_r. }
  all: exists v'; pose proof (after_represents NC_Deferred _ _ Hr' eq_refl) as Ha; destruct (after_connection NC_Deferred _);
    cbn [fst snd observe_all] in *; by rewrite Hv.
Qed.

Lemma step_represents c s v :
  represents s v -> exists v', observe_all v (step c s).1 = Some v' /\ represents (step c s).2 v'.
Proof.
  intros Hr. destruct c.
  - exists v. split; [done|]. by apply found_represents.
  - by apply next_represents.
  - by apply begin_represents.
  - by apply closed_represents.
  - by apply busy_represents.
  - by apply accepted_represents.
Qed.

Lemma observe_all_app v evs evs' :
  observe_all v (evs ++ evs') = observe_all v evs ≫= fun v => observe_all v evs'.
Proof.
  revert v. induction evs as [|ev evs IH]; intros v; [done|]. cbn. destruct (observe v ev); [|done]. apply IH.
Qed.

Lemma run_represents cs s v :
  represents s v -> exists v', observe_all v (run cs s).1 = Some v' /\ represents (run cs s).2 v'.
Proof.
  revert s v. induction cs as [|c cs IH]; intros s v Hr; [by exists v|]. cbn [run].
  destruct (step_represents c s v Hr) as (v1 & Hv1 & Hr1). destruct (step c s) as [evs s1]. cbn [fst snd] in *.
  destruct (IH s1 v1 Hr1) as (v2 & Hv2 & Hr2). destruct (run cs s1) as [rest s2]. cbn [fst snd] in *.
  exists v2. split; [|done]. rewrite observe_all_app, Hv1. done.
Qed.

Lemma new_represents : represents candidates_new search_start.
Proof.
  constructor; try done.
  - constructor.
Qed.

(** *** Reports *)

Lemma settled_stays cs s : is_settled s = true -> run cs s = ([], s).
Proof.
  intros Hs. induction cs as [|c cs IH]; [done|]. cbn [run].
  assert (step c s = ([], s)) as ->; [|by rewrite IH].
  unfold is_settled in Hs.
  destruct c; cbn [step]; unfold found, next_endpoint, begin_try, closed, busy, end_connection, accepted, is_settled;
    by destruct (phase s).
Qed.

(** An endpoint left to open is handed out, now or at a later time. *)
Lemma next_endpoint_left now s v :
  represents s v -> phase s = PhClosed -> openings s < PAIRING_CANDIDATES_MAX ->
  existsb (fun c => negb (bool_decide (status c = Done))) (candidates s) = true ->
  (exists e, (next_endpoint now s).1 = Ok (NE_Open e)) \/
  exists ms, now < ms /\ (next_endpoint now s).1 = Ok (NE_NotBefore ms).
Proof.
  intros Hr Hph Hlt Hleft. unfold next_endpoint. rewrite Hph, Z.geb_leb, (proj2 (Z.leb_gt _ _)) by done.
  assert (forall j c, candidates s !! j = Some c -> (open_at j s).1 = NE_Open (endpoint c)) as Hopen.
  { intros j c Hj. unfold open_at. by rewrite Hj. }
  destruct (first_waiting 0 (candidates s)) as [j|] eqn:Ew.
  { apply first_waiting_ok in Ew as (_ & c & Hj & _). rewrite Nat.sub_0_r in Hj. left. exists (endpoint c).
    specialize (Hopen j c Hj). destruct (open_at j s). cbn in *. by rewrite Hopen. }
  destruct (earliest_deferred 0 (candidates s)) as [[t j]|] eqn:Ed.
  { destruct (t <=? now) eqn:Et; to_prop; [|right; by exists t].
    apply earliest_deferred_ok in Ed as (_ & c & Hj & _). rewrite Nat.sub_0_r in Hj. left. exists (endpoint c).
    specialize (Hopen j c Hj). destruct (open_at j s). cbn in *. by rewrite Hopen. }
  exfalso. apply existsb_exists in Hleft as (c & Hin & Hd). apply list_elem_of_In in Hin.
  apply negb_true_iff, bool_decide_eq_false in Hd. destruct (status c) eqn:Es; [| | |done].
  - by apply (first_waiting_none _ _ c Ew).
  - apply list_elem_of_lookup in Hin as [i Hi]. destruct Hr as [_ Hs _ Ho _ _ Hp].
    unfold phase_stands in Hp. rewrite Hph in Hp. destruct Hp as (Hc & _).
    rewrite <- (Hs _ _ Hi) in Es. apply Ho in Es. congruence.
  - by apply (earliest_deferred_none _ _ c not_before_ms Ed).
Qed.

(** What a report says of the ledger it leaves. *)
Definition report_true (next : NextCandidate) (s : PairingCandidates E) : Prop :=
  let over := Forall (fun c => status c = Done) (candidates s) \/ openings s = PAIRING_CANDIDATES_MAX in
  match next with
  | NC_Try | NC_Deferred =>
      is_settled s = false /\ forall now,
        (exists e, (next_endpoint now s).1 = Ok (NE_Open e)) \/
        exists ms, now < ms /\ (next_endpoint now s).1 = Ok (NE_NotBefore ms)
  | NC_NotAccepted => is_settled s = true /\ over /\ (tried s <> [] \/ busy_answered s = true)
  | NC_NoneTried => is_settled s = false /\ over /\ tried s = [] /\ busy_answered s = false
  end.

Lemma after_connection_true next s v :
  next = NC_Try \/ next = NC_Deferred -> represents s v -> phase s = PhClosed ->
  report_true (after_connection next s).1 (after_connection next s).2.
Proof.
  intros Hn Hr Hph. unfold after_connection. destruct (existsb _ _ && _) eqn:El.
  - apply andb_true_iff in El as [Hl Ho]. to_prop. cbn [fst snd].
    assert (is_settled s = false /\ forall now, (exists e, (next_endpoint now s).1 = Ok (NE_Open e)) \/
      exists ms, now < ms /\ (next_endpoint now s).1 = Ok (NE_NotBefore ms)) as Ht.
    { split; [unfold is_settled; by rewrite Hph|]. intros now. by apply (next_endpoint_left now s v). }
    by destruct Hn as [->| ->].
  - assert (Forall (fun c => status c = Done) (candidates s) \/ openings s = PAIRING_CANDIDATES_MAX) as Hover.
    { pose proof (rep_openings _ _ Hr). pose proof (rep_limit _ _ Hr).
      apply andb_false_iff in El as [El|El]; [left|right; to_prop; lia].
      apply Forall_forall. intros c Hc. destruct (decide (status c = Done)) as [|Hne]; [done|]. exfalso.
      rewrite <- not_true_iff_false, existsb_exists in El. apply El. exists c.
      split; [by apply list_elem_of_In|by rewrite bool_decide_eq_false_2]. }
    destruct (is_empty (tried s) && negb (busy_answered s)) eqn:Et; cbn [fst snd].
    + apply andb_true_iff in Et as [Et Eb]. apply negb_true_iff in Eb.
      split_and!; [unfold is_settled; by rewrite Hph|done|by destruct (tried s)|done].
    + split_and!; [done|done|]. cbn [set_phase tried busy_answered].
      apply andb_false_iff in Et as [Et|Et]; [left; by destruct (tried s)|right; by apply negb_false_iff].
Qed.

Lemma report_of_close cs next s' :
  let s := (run cs candidates_new).2 in
  closed s = (Ok next, s') \/ (exists retry now, busy retry now s = (Ok next, s')) -> report_true next s'.
Proof.
  intros s H. destruct (run_represents cs _ _ new_represents) as (v & _ & Hr). fold s in Hr.
  pose proof (rep_phase _ _ Hr) as Hp. unfold phase_stands in Hp.
  destruct H as [H|(retry & now & H)]; unfold closed, busy, end_connection in H;
    destruct (phase s) eqn:Hph; try discriminate H.
  1, 2: destruct (end_represents Done (tried s) (busy_answered s) s v Hr) as (v' & _ & Hr'); [tauto|done| |].
  1: { destruct Hp as (_ & -> & -> & _). by rewrite app_nil_r. }
  2: { by destruct Hp as (_ & _ & id & -> & -> & _). }
  3, 4: cbn [candidates openings tried busy_answered phase] in H;
    match goal with H : context [MkCandidates _ _ ?kept true _] |- _ =>
      destruct (end_represents (Deferred (saturating_add U64_MAX now retry)) kept true s v Hr) as (v' & _ & Hr') end;
    [tauto|done| |].
  3: { destruct Hp as (_ & _ & Ht & _). cbn. by rewrite app_nil_r. }
  4: { destruct Hp as (_ & _ & id & _ & Ht & _). rewrite bool_decide_eq_true_2, Ht, pop_snoc by done.
       cbn. by rewrite app_nil_r. }
  all: match goal with H : context [after_connection ?nx _] |- _ =>
    pose proof (after_connection_true nx _ _ ltac:(tauto) Hr' eq_refl) as Ha;
    destruct (after_connection nx _) as [n1 s1]; by injection H as -> -> end.
Qed.

End Search.
Arguments search : clear implicits.

(** ** Properties *)

(** C37 (refinement) The ledger implements the abstract search: whatever is found
    and answered, in any order, the connections it opens, the guesses it admits
    and the ends it records are ones the search allows.  So at most eight
    connections are opened, one at a time; an endpoint is opened again only after
    the wait of its busy answer; an offer had at most one guess that was not
    answered busy; and nothing happens once the code is accepted or refused. *)
Theorem ledger_implements_the_search {E : Type} `{EqDecision E} (cs cs' : list (call (E := E))) :
  let s := (run cs candidates_new).2 in
  (exists v, observe_all search_start (run cs candidates_new).1 = Some v /\
     connections v = openings s /\ connections v <= PAIRING_CANDIDATES_MAX) /\
  (is_settled s = true -> run cs' s = ([], s)).
Proof.
  intros s. split; [|by apply settled_stays].
  destruct (run_represents cs _ _ new_represents) as (v & Hv & Hr). exists v.
  split_and!; [done|symmetry; apply Hr|apply Hr].
Qed.

(** (functional) The requester reports the truth: the outcome of every closed
    or busy connection is an event its pairing machine takes.  It goes on while,
    and only while, an endpoint is left within the limit, which is then handed
    out now or at the time named; otherwise every endpoint is done or the limit
    is reached, and the user is told that the code is wrong if some custodian was
    tried or answered busy, and that none is in pairing mode if none was. *)
Theorem search_reported_truly {E : Type} `{EqDecision E} (cs : list (call (E := E))) (next : NextCandidate)
    (s' : PairingCandidates E) :
  let s := (run cs candidates_new).2 in
  closed s = (Ok next, s') \/ (exists retry now, busy retry now s = (Ok next, s')) ->
  report_true next s' /\
  exists t, RappState.pairing_transition RappState.P_Exchanging RappState.Requester
              (pairing_event next true).1 (pairing_event next true).2 = Ok t /\
    (RappState.state t = RappState.P_Exchanging <-> next = NC_Try \/ next = NC_Deferred) /\
    (RappState.A_ShowWrongCode ∈ RappState.actions t <-> next = NC_NotAccepted) /\
    (RappState.A_ShowNoneInPairingMode ∈ RappState.actions t <-> next = NC_NoneTried).
Proof.
  intros s H. split; [by apply (report_of_close cs)|].
  destruct next; (eexists; split; [reflexivity|]); cbn [RappState.state RappState.actions];
    rewrite ?elem_of_cons, ?elem_of_nil; naive_solver.
Qed.

(** *** Witnesses *)

Definition sample_offer : PairingOffer := MkOffer (repeat 7 32) [] [] [] OFFER_TTL_MS.

Lemma ledger_implements_the_search_witness :
  is_settled (run [C_Found 1; C_Next 0; C_Begin sample_offer; C_Accepted] candidates_new).2 = true /\
  run [C_Next 5; C_Closed] (run [C_Found 1; C_Next 0; C_Begin sample_offer; C_Accepted] candidates_new).2
  = ([], (run [C_Found 1; C_Next 0; C_Begin sample_offer; C_Accepted] candidates_new).2).
Proof.
  split; [reflexivity|].
  apply (ledger_implements_the_search [C_Found 1; C_Next 0; C_Begin sample_offer; C_Accepted] [C_Next 5; C_Closed]).
  reflexivity.
Defined.

Lemma search_reported_truly_witness :
  report_true NC_NotAccepted
    (closed (run [C_Found 1; C_Next 0; C_Begin sample_offer] candidates_new).2).2.
Proof.
  apply (search_reported_truly [C_Found 1; C_Next 0; C_Begin sample_offer]). left. reflexivity.
Defined.

End Candidates.
