(* ===== verification/RappPairing.v ===== *)
(** * Pairing of the remote card protocol

    crates/rapp/src/pairing_flow.rs, with [HandshakeChannel::pairing] of
    crates/rapp/src/crypto.rs: the dialogue over the channel of a pairing, from
    the handshake on one transport of the offer, through the hellos, the
    confirmation of equal grants and the two storage confirmations, to the
    confirmed record.  The handshake is that of the [snow] package, a parameter.

    The theorems: two devices that hold one offer and one secret end with records
    of the same pairing, from which a session opens; whatever arrives, a record
    is produced only after both hellos and equal, valid grants went both ways,
    and becomes active only after both storage confirmations. *)

From stdpp Require Import base list strings option sorting.
From Stdlib Require Import ZArith Lia.
From S2P Require Import Prelude RappState RappCbor RappWire RappOperation RappMessage RappPairRecord RappNoise RappChannel RappSession RappDiscovery RappOffer.

Module Pairing.
Import Cbor Wire Op Msg PairRecord Noise Channel.
#[local] Existing Instance RappState.EndpointRole_eq_dec.

#[global] Instance NegotiatedParameters_eq_dec : EqDecision NegotiatedParameters.
Proof. solve_decision. Defined.

(** ** Data *)

(** The private and the public static key of this device. *)
Record PairKeyMaterial := MkKeys { private_key : bytes; public_key : bytes }.

Inductive PairingError :=
  | PF_Offer (e : Offer.PairingOfferError)
  | PF_Crypto (e : CryptoError)
  | PF_Open (e : OpenError)
  | PF_Message (e : MessageError)
  | PF_PairRecord (e : PairRecordError)
  | PF_CandidateNotUnique
  | PF_UnsupportedProfile
  | PF_MissingPairId
  | PF_DuplicateMessage
  | PF_UnexpectedMessage
  | PF_ParameterMismatch
  | PF_RoleViolation
  | PF_HelloIncomplete
  | PF_ConfirmationIncomplete
  | PF_InvalidGrantSet
  | PF_GrantMismatch
  | PF_PairIdMismatch
  | PF_StorageUnconfirmed.

(** A failed attempt returns the offer. *)
Definition PairingAttemptFailure : Type := PairingError * Offer.PairingOffer.

(** [snow::Builder] for the pairing suite, from the private key, the pre-shared
    secret at the third place and the prologue. *)
Class SnowBuilder (Hs : Type) := snow_build : HandshakeRole -> bytes -> bytes -> bytes -> option Hs.

Section Flow.
Context {Hs Ts : Type} `{SnowApi Hs Ts, SnowBuilder Hs, X25519, NoiseSuite, Sha256}.

(** [HandshakeChannel::pairing]. *)
Definition pairing_channel (role : HandshakeRole) (keys : PairKeyMaterial) (secret offer_hash transport_profile : bytes) :
  result CryptoError (HandshakeChannel Hs) :=
  let? prologue := pairing_prologue offer_hash transport_profile in
  let? state := ok_or (snow_build role (private_key keys) secret prologue) Configuration in
  Ok (MkHandshakeChannel (SnowState state) true).

Definition handshake_role (role : RappState.EndpointRole) : HandshakeRole :=
  match role with RappState.Requester => Initiator | RappState.Proxy => Responder end.

Definition validate_grants (grants offered : list ProfileName) : result PairingError unit :=
  if is_empty grants || adjacent_equal (sort_profiles grants)
     || existsb (fun grant => negb (bool_decide (grant ∈ offered))) grants
  then Err PF_InvalidGrantSet else Ok tt.

Definition parse_profile_names (names : list bytes) : result PairingError (list ProfileName) :=
  let? profiles := collect (fun name => ok_or (ProfileName_parse name) PF_UnsupportedProfile) names in
  let? _ := validate_grants profiles profiles in
  Ok (sort_profiles profiles).

(** ** The handshake *)

Record PairingHandshake := MkPairingHandshake {
  ph_role : RappState.EndpointRole; ph_offer : Offer.PairingOffer; ph_offer_hash : bytes;
  ph_candidate : Offer.TransportCandidate; ph_offered_profiles : list ProfileName;
  ph_local_keys : PairKeyMaterial; ph_channel : HandshakeChannel Hs }.

Definition pairing_begin (role : RappState.EndpointRole) (offer : Offer.PairingOffer) (candidate_id : bytes)
    (local_keys : PairKeyMaterial) (pairing_secret : bytes) : result PairingAttemptFailure PairingHandshake :=
  let failed {A} (r : result PairingError A) := map_err (fun e => (e, offer)) r in
  match List.filter (fun c => bool_decide (Offer.candidate_id c = candidate_id)) (Offer.transports offer) with
  | [candidate] =>
      let? offered_profiles := failed (parse_profile_names (Offer.offer_profiles offer)) in
      let? hash := failed (map_err PF_Offer (Offer.offer_hash offer)) in
      let? channel := failed (map_err PF_Crypto
        (pairing_channel (handshake_role role) local_keys pairing_secret hash (Offer.candidate_profile candidate))) in
      Ok (MkPairingHandshake role offer hash candidate offered_profiles local_keys channel)
  | _ => Err (PF_CandidateNotUnique, offer)
  end.

Definition ph_set_channel (c : HandshakeChannel Hs) (s : PairingHandshake) : PairingHandshake :=
  MkPairingHandshake (ph_role s) (ph_offer s) (ph_offer_hash s) (ph_candidate s) (ph_offered_profiles s)
    (ph_local_keys s) c.

(** The handshake of [snow] draws its own ephemeral keys, and the first argument
    of [hc_write_message] is not used. *)
Definition ph_write_message : exec PairingHandshake PairingError BinaryFrame := fun s =>
  let '(r, c) := hc_write_message (Err NoiseHandshake) (ph_channel s) in (map_err PF_Crypto r, ph_set_channel c s).
Definition ph_read_message (frame : BinaryFrame) : exec PairingHandshake PairingError unit := fun s =>
  let '(r, c) := hc_read_message frame (ph_channel s) in (map_err PF_Crypto r, ph_set_channel c s).
Definition ph_is_complete (s : PairingHandshake) : bool := is_complete (ph_channel s).
Definition abort_attempt (s : PairingHandshake) : Offer.PairingOffer := ph_offer s.

(** ** Confirmation *)

Record PairingConfirmation := MkConfirmation {
  pc_role : RappState.EndpointRole; pc_pair_id : bytes; pc_offer_hash : bytes;
  pc_candidate : Offer.TransportCandidate; pc_offered_profiles : list ProfileName;
  pc_local_keys : PairKeyMaterial; pc_remote_static_public : bytes; pc_channel : SecureChannel Ts;
  local_hello_sent : bool; peer_hello : option PairingHelloMessage;
  local_grants : option (list ProfileName); peer_grants : option (list ProfileName) }.

Definition into_confirmation (s : PairingHandshake) : result PairingAttemptFailure PairingConfirmation :=
  let? completion := map_err (fun e => (PF_Crypto e, ph_offer s)) (complete (ph_channel s)) in
  match completion_pair_id completion with
  | None => Err (PF_MissingPairId, ph_offer s)
  | Some pair_id =>
      Ok (MkConfirmation (ph_role s) pair_id (ph_offer_hash s) (ph_candidate s) (ph_offered_profiles s)
            (ph_local_keys s) (remote_static_key completion) (secure_channel completion) false None None None)
  end.

Definition pc_set_channel (ch : SecureChannel Ts) (c : PairingConfirmation) : PairingConfirmation :=
  MkConfirmation (pc_role c) (pc_pair_id c) (pc_offer_hash c) (pc_candidate c) (pc_offered_profiles c)
    (pc_local_keys c) (pc_remote_static_public c) ch (local_hello_sent c) (peer_hello c) (local_grants c)
    (peer_grants c).
Definition pc_set_hello_sent (c : PairingConfirmation) : PairingConfirmation :=
  MkConfirmation (pc_role c) (pc_pair_id c) (pc_offer_hash c) (pc_candidate c) (pc_offered_profiles c)
    (pc_local_keys c) (pc_remote_static_public c) (pc_channel c) true (peer_hello c) (local_grants c)
    (peer_grants c).
Definition pc_set_peer_hello (h : PairingHelloMessage) (c : PairingConfirmation) : PairingConfirmation :=
  MkConfirmation (pc_role c) (pc_pair_id c) (pc_offer_hash c) (pc_candidate c) (pc_offered_profiles c)
    (pc_local_keys c) (pc_remote_static_public c) (pc_channel c) (local_hello_sent c) (Some h) (local_grants c)
    (peer_grants c).
Definition pc_set_local_grants (g : list ProfileName) (c : PairingConfirmation) : PairingConfirmation :=
  MkConfirmation (pc_role c) (pc_pair_id c) (pc_offer_hash c) (pc_candidate c) (pc_offered_profiles c)
    (pc_local_keys c) (pc_remote_static_public c) (pc_channel c) (local_hello_sent c) (peer_hello c) (Some g)
    (peer_grants c).
Definition pc_set_peer_grants (g : list ProfileName) (c : PairingConfirmation) : PairingConfirmation :=
  MkConfirmation (pc_role c) (pc_pair_id c) (pc_offer_hash c) (pc_candidate c) (pc_offered_profiles c)
    (pc_local_keys c) (pc_remote_static_public c) (pc_channel c) (local_hello_sent c) (peer_hello c)
    (local_grants c) (Some g).

Definition seal_typed (m : TypedMessage) : exec (SecureChannel Ts) PairingError BinaryFrame := fun ch =>
  match to_wire_body m with
  | Err e => (Err (PF_Message e), ch)
  | Ok body => let '(r, ch) := seal (typed_message_type m) body ch in (map_err PF_Crypto r, ch)
  end.

Definition open_typed (frame : BinaryFrame) (now_ms : Z) : exec (SecureChannel Ts) PairingError TypedMessage := fun ch =>
  match open_ frame ch with
  | (Err e, ch) => (Err (PF_Open e), ch)
  | (Ok envelope, ch) => (map_err PF_Message (from_envelope envelope now_ms), ch)
  end.

Definition on_channel {A} (f : exec (SecureChannel Ts) PairingError A) : exec PairingConfirmation PairingError A :=
  fun c => let '(r, ch) := f (pc_channel c) in (r, pc_set_channel ch c).

Definition expected_parameters (c : PairingConfirmation) : NegotiatedParameters :=
  MkNegotiated (pc_offer_hash c) (Offer.candidate_profile (pc_candidate c)) (Offer.candidate_id (pc_candidate c)).

Definition pc_send_hello (display_name : DisplayName) (platform : bytes) :
  exec PairingConfirmation PairingError BinaryFrame := fun c =>
  if local_hello_sent c then (Err PF_DuplicateMessage, c)
  else
    let requested_profiles :=
      if bool_decide (pc_role c = RappState.Requester) then Some (pc_offered_profiles c) else None in
    let message := T_PairingHello (MkHello (expected_parameters c) display_name platform requested_profiles) in
    match on_channel (seal_typed message) c with
    | (Err e, c) => (Err e, c)
    | (Ok frame, c) => (Ok frame, pc_set_hello_sent c)
    end.

(** The verification of [receive_hello] by this role. *)
Definition verify_hello (hello : PairingHelloMessage) (c : PairingConfirmation) : result PairingError unit :=
  if negb (bool_decide (parameters hello = expected_parameters c)) then Err PF_ParameterMismatch
  else
    match pc_role c, requested_profiles hello with
    | RappState.Requester, Some _ => Err PF_RoleViolation
    | RappState.Requester, None => Ok tt
    | RappState.Proxy, None => Err PF_RoleViolation
    | RappState.Proxy, Some requested =>
        if negb (bool_decide (requested = pc_offered_profiles c)) then Err PF_GrantMismatch else Ok tt
    end.

Definition pc_receive_hello (frame : BinaryFrame) (now_ms : Z) :
  exec PairingConfirmation PairingError PairingHelloMessage := fun c =>
  match peer_hello c with
  | Some _ => (Err PF_DuplicateMessage, c)
  | None =>
      match on_channel (open_typed frame now_ms) c with
      | (Err e, c) => (Err e, c)
      | (Ok (T_PairingHello hello), c) =>
          match verify_hello hello c with
          | Err e => (Err e, c)
          | Ok _ => (Ok hello, pc_set_peer_hello hello c)
          end
      | (Ok _, c) => (Err PF_UnexpectedMessage, c)
      end
  end.

Definition differs (grants : option (list ProfileName)) (others : list ProfileName) : bool :=
  match grants with Some l => negb (bool_decide (l = others)) | None => false end.

Definition pc_send_confirmation (granted_profiles : list ProfileName) :
  exec PairingConfirmation PairingError BinaryFrame := fun c =>
  if negb (local_hello_sent c) || bool_decide (peer_hello c = None) then (Err PF_HelloIncomplete, c)
  else if bool_decide (is_Some (local_grants c)) then (Err PF_DuplicateMessage, c)
  else
    match validate_grants granted_profiles (pc_offered_profiles c) with
    | Err e => (Err e, c)
    | Ok _ =>
        let granted_profiles := sort_profiles granted_profiles in
        if differs (peer_grants c) granted_profiles then (Err PF_GrantMismatch, c)
        else
          match on_channel (seal_typed (T_PairingConfirm granted_profiles)) c with
          | (Err e, c) => (Err e, c)
          | (Ok frame, c) => (Ok frame, pc_set_local_grants granted_profiles c)
          end
    end.

Definition pc_receive_confirmation (frame : BinaryFrame) (now_ms : Z) :
  exec PairingConfirmation PairingError (list ProfileName) := fun c =>
  if bool_decide (is_Some (peer_grants c)) then (Err PF_DuplicateMessage, c)
  else
    match on_channel (open_typed frame now_ms) c with
    | (Err e, c) => (Err e, c)
    | (Ok (T_PairingConfirm granted_profiles), c) =>
        match validate_grants granted_profiles (pc_offered_profiles c) with
        | Err e => (Err e, c)
        | Ok _ =>
            if differs (local_grants c) granted_profiles then (Err PF_GrantMismatch, c)
            else (Ok granted_profiles, pc_set_peer_grants granted_profiles c)
        end
    | (Ok _, c) => (Err PF_UnexpectedMessage, c)
    end.

(** ** Storage *)

Record PairingStorage := MkStorage {
  ps_pair_id : bytes; ps_channel : SecureChannel Ts; local_stored_sent : bool; peer_stored : bool }.

Definition into_storage (created_at_ms : Z) (c : PairingConfirmation) :
  result PairingError (PairRecord * PairingStorage) :=
  if negb (local_hello_sent c) || bool_decide (peer_hello c = None) then Err PF_HelloIncomplete
  else
    let? local := ok_or (local_grants c) PF_ConfirmationIncomplete in
    let? peer := ok_or (peer_grants c) PF_ConfirmationIncomplete in
    if negb (bool_decide (local = peer)) then Err PF_GrantMismatch
    else
      let? grants_hash := map_err PF_Crypto (compute_grants_hash local) in
      let? peer_display_name := ok_or (hello_display_name <$> peer_hello c) PF_HelloIncomplete in
      let? record := map_err PF_PairRecord
        (PairRecord_new (pc_pair_id c) (pc_role c) (private_key (pc_local_keys c)) (public_key (pc_local_keys c))
           (pc_remote_static_public c) grants_hash local peer_display_name created_at_ms) in
      Ok (awaiting_storage_confirmation record, MkStorage (pc_pair_id c) (pc_channel c) false false).

Definition ps_set_channel (ch : SecureChannel Ts) (s : PairingStorage) : PairingStorage :=
  MkStorage (ps_pair_id s) ch (local_stored_sent s) (peer_stored s).

Definition send_stored : exec PairingStorage PairingError BinaryFrame := fun s =>
  if local_stored_sent s then (Err PF_DuplicateMessage, s)
  else
    match seal_typed (T_PairingStored (ps_pair_id s)) (ps_channel s) with
    | (Err e, ch) => (Err e, ps_set_channel ch s)
    | (Ok frame, ch) => (Ok frame, MkStorage (ps_pair_id s) ch true (peer_stored s))
    end.

Definition receive_stored (frame : BinaryFrame) (now_ms : Z) : exec PairingStorage PairingError unit := fun s =>
  if peer_stored s then (Err PF_DuplicateMessage, s)
  else
    match open_typed frame now_ms (ps_channel s) with
    | (Err e, ch) => (Err e, ps_set_channel ch s)
    | (Ok (T_PairingStored pair_id), ch) =>
        if negb (bool_decide (pair_id = ps_pair_id s)) then (Err PF_PairIdMismatch, ps_set_channel ch s)
        else (Ok tt, MkStorage (ps_pair_id s) ch (local_stored_sent s) true)
    | (Ok _, ch) => (Err PF_UnexpectedMessage, ps_set_channel ch s)
    end.

Definition is_confirmed (s : PairingStorage) : bool := local_stored_sent s && peer_stored s.

(** [ActivePairing] holds the identifier of the pairing. *)
Definition ActivePairing : Type := bytes.

Definition into_active (s : PairingStorage) : result PairingError ActivePairing :=
  if negb (is_confirmed s) then Err PF_StorageUnconfirmed else Ok (ps_pair_id s).

Definition confirm (active : ActivePairing) (record : PairRecord) : result PairingError PairRecord :=
  if negb (bool_decide (pair_id record = active)) then Err PF_PairIdMismatch
  else Ok (to_storage_confirmed record).

End Flow.
Arguments PairingHandshake : clear implicits.
Arguments PairingConfirmation : clear implicits.
Arguments PairingStorage : clear implicits.

(** ** Runs *)

Section Runs.
Context {HS TS : Type} `{HSnow : SnowApi HS TS, HBuild : SnowBuilder HS, HX : X25519, HN : NoiseSuite, HSha : Sha256}.

Inductive pc_call :=
  | PC_SendHello (display_name platform : bytes) | PC_ReceiveHello (frame : BinaryFrame) (now_ms : Z)
  | PC_SendConfirmation (grants : list ProfileName) | PC_ReceiveConfirmation (frame : BinaryFrame) (now_ms : Z).

Definition hello_of (c : PairingConfirmation TS) (display_name platform : bytes) : TypedMessage :=
  T_PairingHello (MkHello (expected_parameters c) display_name platform
    (if bool_decide (pc_role c = RappState.Requester) then Some (pc_offered_profiles c) else None)).

(** A frame that left, or one that was taken, with the channel as it was. *)
Inductive wire_event :=
  | Sent (channel : SecureChannel TS) (frame : BinaryFrame)
  | Taken (channel : SecureChannel TS) (frame : BinaryFrame) (now_ms : Z).

(** The frame that left is the sealing of [m]. *)
Definition sealed_as (m : TypedMessage) (ev : wire_event) : Prop :=
  match ev with Sent ch frame => (seal_typed m ch).1 = Ok frame | Taken _ _ _ => False end.
(** The frame that was taken opens to [m]. *)
Definition opened_as (m : TypedMessage) (ev : wire_event) : Prop :=
  match ev with Sent _ _ => False | Taken ch frame now => (open_typed frame now ch).1 = Ok m end.

(** A call with the frame it sent or took, and the state it leaves. *)
Definition pc_step (call : pc_call) (c : PairingConfirmation TS) : list wire_event * PairingConfirmation TS :=
  let sent r := match r with (Ok frame, c') => ([Sent (pc_channel c) frame], c') | (Err _, c') => ([], c') end in
  match call with
  | PC_SendHello name platform => sent (pc_send_hello name platform c)
  | PC_ReceiveHello frame now =>
      match pc_receive_hello frame now c with
      | (Ok _, c') => ([Taken (pc_channel c) frame now], c') | (Err _, c') => ([], c') end
  | PC_SendConfirmation grants => sent (pc_send_confirmation grants c)
  | PC_ReceiveConfirmation frame now =>
      match pc_receive_confirmation frame now c with
      | (Ok _, c') => ([Taken (pc_channel c) frame now], c') | (Err _, c') => ([], c') end
  end.

Fixpoint pc_run (calls : list pc_call) (c : PairingConfirmation TS) : list wire_event * PairingConfirmation TS :=
  match calls with
  | [] => ([], c)
  | call :: calls =>
      let '(log, c) := pc_step call c in let '(log', c) := pc_run calls c in (log ++ log', c)
  end.

Inductive ps_call := PS_SendStored | PS_ReceiveStored (frame : BinaryFrame) (now_ms : Z).

Definition ps_step (call : ps_call) (s : PairingStorage TS) : list wire_event * PairingStorage TS :=
  match call with
  | PS_SendStored =>
      match send_stored s with
      | (Ok frame, s') => ([Sent (ps_channel s) frame], s') | (Err _, s') => ([], s') end
  | PS_ReceiveStored frame now =>
      match receive_stored frame now s with
      | (Ok _, s') => ([Taken (ps_channel s) frame now], s') | (Err _, s') => ([], s') end
  end.

Fixpoint ps_run (calls : list ps_call) (s : PairingStorage TS) : list wire_event * PairingStorage TS :=
  match calls with
  | [] => ([], s)
  | call :: calls =>
      let '(log, s) := ps_step call s in let '(log', s) := ps_run calls s in (log ++ log', s)
  end.

(** ** Lemmas *)

(** What does not change in a confirmation. *)
Definition fixed (c : PairingConfirmation TS) :=
  (pc_role c, pc_pair_id c, pc_offer_hash c, pc_candidate c, pc_offered_profiles c, pc_local_keys c,
   pc_remote_static_public c).

(** What a confirmation holds was sent and received. *)
Record evidence (log : list wire_event) (c : PairingConfirmation TS) : Prop := {
  ev_hello : local_hello_sent c = true -> exists name platform, Exists (sealed_as (hello_of c name platform)) log;
  ev_peer_hello h : peer_hello c = Some h -> Exists (opened_as (T_PairingHello h)) log /\ verify_hello h c = Ok tt;
  ev_grants g : local_grants c = Some g -> Exists (sealed_as (T_PairingConfirm g)) log;
  ev_peer_grants g : peer_grants c = Some g ->
    Exists (opened_as (T_PairingConfirm g)) log /\ validate_grants g (pc_offered_profiles c) = Ok tt }.

Lemma hello_of_fixed c c' name platform : fixed c = fixed c' -> hello_of c name platform = hello_of c' name platform.
Proof. unfold fixed. intros [= Hr _ Ho Hc Hp _ _]. unfold hello_of, expected_parameters. by rewrite Hr, Ho, Hc, Hp. Qed.
Lemma verify_hello_fixed c c' h : fixed c = fixed c' -> verify_hello h c = verify_hello h c'.
Proof. unfold fixed. intros [= Hr _ Ho Hc Hp _ _]. unfold verify_hello, expected_parameters. by rewrite Hr, Ho, Hc, Hp. Qed.

Lemma evidence_more log log' c : evidence log c -> evidence (log ++ log') c.
Proof.
  intros [H1 H2 H3 H4]. constructor; intros; rewrite ?Exists_app.
  - destruct (H1 ltac:(done)) as (n & p & Hin). exists n, p. rewrite Exists_app. by left.
  - edestruct H2; [done|]. tauto.
  - left. auto.
  - edestruct H4; [done|]. tauto.
Qed.

(** A call that fails changes the channel alone. *)
Lemma evidence_channel log ch c :
  evidence log c -> evidence (log ++ []) (pc_set_channel ch c) /\ fixed (pc_set_channel ch c) = fixed c.
Proof. intros [H1 H2 H3 H4]. rewrite app_nil_r. split; [by constructor|done]. Qed.

Lemma evidence_same log c : evidence log c -> evidence (log ++ []) c /\ fixed c = fixed c.
Proof. by rewrite app_nil_r. Qed.

(** The last event of a log. *)
Lemma exists_last (P : wire_event -> Prop) log ev : P ev -> Exists P (log ++ [ev]).
Proof. intros Hp. apply Exists_app. right. by constructor. Qed.

Lemma pc_step_evidence call log c :
  evidence log c ->
  evidence (log ++ (pc_step call c).1) (pc_step call c).2 /\ fixed (pc_step call c).2 = fixed c.
Proof.
  intros He. destruct call as [name platform|frame now|grants|frame now]; cbn [pc_step].
  - unfold pc_send_hello, on_channel. destruct (local_hello_sent c) eqn:Eh; [by apply evidence_same|].
    destruct (seal_typed _ _) as [[f|] ch] eqn:Es; cbn [fst snd]; [|by apply evidence_channel].
    split; [|done]. apply (evidence_more _ [Sent (pc_channel c) f]) in He as [_ H2 H3 H4].
    constructor; try done. intros _. exists name, platform. apply exists_last. cbn. unfold hello_of. cbn.
    exact (f_equal fst Es).
  - unfold pc_receive_hello, on_channel. destruct (peer_hello c) eqn:Eh; [by apply evidence_same|].
    destruct (open_typed _ _ _) as [[m|] ch] eqn:Eo; cbn [fst snd]; [|by apply evidence_channel].
    destruct m; cbn [fst snd]; try (by apply evidence_channel).
    destruct (verify_hello v _) as [[]|] eqn:Ev; cbn [fst snd]; [|by apply evidence_channel].
    split; [|done]. apply (evidence_more _ [Taken (pc_channel c) frame now]) in He as [H1 H2 H3 H4].
    constructor; try done. cbn. intros h [= <-]. split; [|done]. apply exists_last. cbn. by rewrite Eo.
  - unfold pc_send_confirmation, on_channel. destruct (_ || _); [by apply evidence_same|].
    destruct (bool_decide _); [by apply evidence_same|].
    destruct (validate_grants _ _); [|by apply evidence_same].
    destruct (differs _ _); [by apply evidence_same|].
    destruct (seal_typed _ _) as [[f|] ch] eqn:Es; cbn [fst snd]; [|by apply evidence_channel].
    split; [|done]. apply (evidence_more _ [Sent (pc_channel c) f]) in He as [H1 H2 H3 H4].
    constructor; try done. cbn. intros g [= <-]. apply exists_last. cbn. by rewrite Es.
  - unfold pc_receive_confirmation, on_channel. destruct (bool_decide _); [by apply evidence_same|].
    destruct (open_typed _ _ _) as [[m|] ch] eqn:Eo; cbn [fst snd]; [|by apply evidence_channel].
    destruct m; cbn [fst snd]; try (by apply evidence_channel).
    destruct (validate_grants _ _) as [[]|] eqn:Ev; cbn [fst snd]; [|by apply evidence_channel].
    destruct (differs _ _); cbn [fst snd]; [by apply evidence_channel|].
    split; [|done]. apply (evidence_more _ [Taken (pc_channel c) frame now]) in He as [H1 H2 H3 H4].
    constructor; try done. cbn. intros g [= <-]. split; [|done]. apply exists_last. cbn. by rewrite Eo.
Qed.

Lemma pc_run_evidence calls log c :
  evidence log c -> evidence (log ++ (pc_run calls c).1) (pc_run calls c).2 /\ fixed (pc_run calls c).2 = fixed c.
Proof.
  revert log c. induction calls as [|call calls IH]; intros log c He; [by apply evidence_same|].
  cbn [pc_run]. destruct (pc_step_evidence call log c He) as [He1 Hf1].
  destruct (pc_step call c) as [l1 c1]. cbn [fst snd] in *.
  destruct (IH _ _ He1) as [He2 Hf2]. destruct (pc_run calls c1) as [l2 c2]. cbn [fst snd] in *.
  rewrite app_assoc. split; [done|congruence].
Qed.

(** The state [into_confirmation] starts with. *)
Definition confirmation_start (c : PairingConfirmation TS) : Prop :=
  local_hello_sent c = false /\ peer_hello c = None /\ local_grants c = None /\ peer_grants c = None.

Lemma into_confirmation_start (s : PairingHandshake HS) c : into_confirmation s = Ok c -> confirmation_start c.
Proof.
  unfold into_confirmation. destruct (complete _) as [co|]; [|done]. cbn [map_err rbind].
  destruct (completion_pair_id co); [|done]. by intros [= <-].
Qed.

Lemma start_evidence c : confirmation_start c -> evidence [] c.
Proof. intros (H1 & H2 & H3 & H4). constructor; rewrite ?H1, ?H2, ?H3, ?H4; done. Qed.

Lemma validate_grants_ok g offered :
  validate_grants g offered = Ok tt ->
  is_empty g = false /\ adjacent_equal (sort_profiles g) = false /\ g ⊆ offered.
Proof.
  unfold validate_grants. destruct (_ || _) eqn:E; [done|]. intros _.
  rewrite !orb_false_iff in E. destruct E as [[? ?] E]. split_and!; [done|done|].
  intros p Hp. destruct (decide (p ∈ offered)) as [|Hn]; [done|]. exfalso.
  rewrite <- not_true_iff_false, existsb_exists in E. apply E. exists p.
  split; [by apply list_elem_of_In|by rewrite bool_decide_eq_false_2].
Qed.

(** Profiles repeated in a list stand side by side once it is sorted. *)
Lemma adjacent_cons p l : adjacent_equal l = true -> adjacent_equal (p :: l) = true.
Proof. destruct l; [done|]. cbn [adjacent_equal]. intros ->. apply orb_true_r. Qed.

Lemma adjacent_insert p l : adjacent_equal l = true -> adjacent_equal (insert_profile p l) = true.
Proof.
  induction l as [|a l IH]; [done|]. intros Ha. cbn [insert_profile]. destruct (profile_before a p) eqn:Eb.
  - destruct l as [|b l]; [done|]. cbn [adjacent_equal] in Ha. apply orb_true_iff in Ha as [Ha|Ha].
    + apply bool_decide_eq_true in Ha as <-. cbn [insert_profile]. rewrite Eb. cbn [adjacent_equal].
      by rewrite bool_decide_eq_true_2.
    + by apply adjacent_cons, IH.
  - by apply adjacent_cons.
Qed.

Definition not_after (a b : ProfileName) : Prop := profile_before b a = false.

Lemma insert_sorted p l : StronglySorted not_after l -> StronglySorted not_after (insert_profile p l).
Proof.
  assert (Hin : forall q k, q ∈ insert_profile p k -> q = p \/ q ∈ k).
  { intros q k. induction k as [|a k IH]; cbn [insert_profile]; [rewrite elem_of_cons; naive_solver|].
    destruct (profile_before a p); rewrite !elem_of_cons; naive_solver. }
  induction 1 as [|a l Hl IH Ha]; cbn [insert_profile]; [by repeat constructor|].
  destruct (profile_before a p) eqn:Eb.
  - constructor; [done|]. apply Forall_forall. intros q [->|Hq]%Hin; [by destruct a, p|].
    rewrite Forall_forall in Ha. by apply Ha.
  - constructor; [by constructor|]. constructor; [done|]. eapply Forall_impl; [exact Ha|].
    intros q Hq. unfold not_after in *. by destruct a, p, q.
Qed.

Lemma insert_repeated p l : StronglySorted not_after l -> p ∈ l -> adjacent_equal (insert_profile p l) = true.
Proof.
  induction 1 as [|a l Hl IH Ha]; [by intros ?%elem_of_nil|]. intros Hin. cbn [insert_profile].
  destruct (profile_before a p) eqn:Eb.
  - apply adjacent_cons, IH. apply elem_of_cons in Hin as [->|]; [by destruct a|done].
  - cbn [adjacent_equal]. apply orb_true_iff. left. apply bool_decide_eq_true. apply elem_of_cons in Hin as [|Hin]; [done|].
    rewrite Forall_forall in Ha. specialize (Ha p Hin). unfold not_after in Ha. by destruct a, p.
Qed.

Lemma distinct_of_sorted g : adjacent_equal (sort_profiles g) = false -> NoDup g.
Proof.
  assert (Hs : forall k, StronglySorted not_after (sort_profiles k) /\ forall q, q ∈ k -> q ∈ sort_profiles k).
  { induction k as [|a k [IH Hi]]; [split; [constructor|done]|]. change (sort_profiles (a :: k)) with (insert_profile a (sort_profiles k)).
    split; [by apply insert_sorted|].
    assert (Hput : forall q l, q = a \/ q ∈ l -> q ∈ insert_profile a l).
    { intros q l. induction l as [|b l IHl]; cbn [insert_profile]; [rewrite elem_of_cons; naive_solver|].
      destruct (profile_before b a); rewrite !elem_of_cons; naive_solver. }
    intros q [->|Hq]%elem_of_cons; apply Hput; auto. }
  induction g as [|a g IH]; [constructor|].
  change (sort_profiles (a :: g)) with (insert_profile a (sort_profiles g)). intros Ha.
  constructor; [intros Hin|apply IH; destruct (adjacent_equal (sort_profiles g)) eqn:E; [|done]].
  - destruct (Hs g) as [Hsg Hig]. by rewrite (insert_repeated a _ Hsg (Hig a Hin)) in Ha.
  - by rewrite (adjacent_insert a _ E) in Ha.
Qed.

Lemma validate_grants_distinct g offered : validate_grants g offered = Ok tt -> g <> [] /\ NoDup g /\ g ⊆ offered.
Proof.
  intros (He & Ha & Hs)%validate_grants_ok. split_and!; [by destruct g|by apply distinct_of_sorted|done].
Qed.

Lemma verify_hello_inv h (c : PairingConfirmation TS) : verify_hello h c = Ok tt ->
  parameters h = MkNegotiated (pc_offer_hash c) (Offer.candidate_profile (pc_candidate c))
    (Offer.candidate_id (pc_candidate c)) /\
  requested_profiles h
    = match pc_role c with RappState.Requester => None | RappState.Proxy => Some (pc_offered_profiles c) end.
Proof.
  unfold verify_hello. case_bool_decide as Hp; [|done]. cbn [negb].
  destruct (pc_role c), (requested_profiles h) as [l|]; try done.
  case_bool_decide as Hl; [|done]. intros _. split; [done|congruence].
Qed.

Lemma into_storage_inv now (c : PairingConfirmation TS) record st :
  into_storage now c = Ok (record, st) ->
  exists h g hash, local_hello_sent c = true /\ peer_hello c = Some h /\ local_grants c = Some g /\
    peer_grants c = Some g /\ compute_grants_hash g = Ok hash /\
    record = MkRecord (pc_pair_id c) (pc_role c) (private_key (pc_local_keys c)) (public_key (pc_local_keys c))
      (pc_remote_static_public c) hash g (hello_display_name h) now false None None /\
    st = MkStorage (pc_pair_id c) (pc_channel c) false false.
Proof.
  unfold into_storage. destruct (local_hello_sent c); [|done]. destruct (peer_hello c) as [h|]; [|done].
  rewrite bool_decide_eq_false_2 by done. cbn [negb orb].
  destruct (local_grants c) as [g|]; [|done]. destruct (peer_grants c) as [g'|]; [|done]. cbn [ok_or rbind].
  case_bool_decide as Hg; [subst g'|done]. cbn [negb]. destruct (compute_grants_hash g) as [hash|] eqn:Eg; [|done].
  cbn [map_err rbind fmap option_fmap option_map ok_or]. destruct (PairRecord_new _ _ _ _ _ _ _ _ _) as [r|] eqn:Er; [|done].
  cbn [map_err rbind]. intros [= <- <-]. apply PairRecord_new_ok in Er as (_ & _ & ->).
  exists h, g, hash. by split_and!.
Qed.

(** Both storage confirmations went over the channel. *)
Lemma ps_run_confirmed calls (s : PairingStorage TS) :
  (local_stored_sent (ps_run calls s).2 = true ->
     local_stored_sent s = true \/ Exists (sealed_as (T_PairingStored (ps_pair_id s))) (ps_run calls s).1) /\
  (peer_stored (ps_run calls s).2 = true ->
     peer_stored s = true \/ Exists (opened_as (T_PairingStored (ps_pair_id s))) (ps_run calls s).1) /\
  ps_pair_id (ps_run calls s).2 = ps_pair_id s.
Proof.
  revert s. induction calls as [|call calls IH]; intros s; [cbn; tauto|]. cbn [ps_run].
  assert ((local_stored_sent (ps_step call s).2 = true ->
            local_stored_sent s = true \/ Exists (sealed_as (T_PairingStored (ps_pair_id s))) (ps_step call s).1) /\
          (peer_stored (ps_step call s).2 = true ->
            peer_stored s = true \/ Exists (opened_as (T_PairingStored (ps_pair_id s))) (ps_step call s).1) /\
          ps_pair_id (ps_step call s).2 = ps_pair_id s) as (H1 & H2 & H3).
  { destruct call as [|frame now]; cbn [ps_step].
    - unfold send_stored. destruct (local_stored_sent s) eqn:E; [cbn; rewrite E; tauto|].
      destruct (seal_typed _ _) as [[f|] ch] eqn:Es; cbn; rewrite ?E; split_and!; try tauto.
      intros _. right. constructor. exact (f_equal fst Es).
    - unfold receive_stored. destruct (peer_stored s) eqn:E; [cbn; rewrite E; tauto|].
      destruct (open_typed _ _ _) as [[m|] ch] eqn:Eo; cbn; rewrite ?E; [|tauto].
      destruct m; cbn; rewrite ?E; try tauto. case_bool_decide as Hid; cbn; rewrite ?E; [|tauto].
      split_and!; try tauto. intros _. right. constructor. rewrite <- Hid. exact (f_equal fst Eo). }
  destruct (ps_step call s) as [l1 st1]. cbn [fst snd] in *. specialize (IH st1).
  destruct (ps_run calls st1) as [l2 st2]. cbn [fst snd] in *. rewrite H3 in IH.
  destruct IH as (I1 & I2 & I3). rewrite !Exists_app. split_and!; [naive_solver..|done].
Qed.

End Runs.

(** *** Sets of profiles *)

(** Every list of distinct profiles. *)
Definition distinct_profile_lists : list (list ProfileName) :=
  let a := CardStatus in let b := Authentication in let c := DocumentSigning in
  [[]; [a]; [b]; [c]; [a; b]; [a; c]; [b; a]; [b; c]; [c; a]; [c; b];
   [a; b; c]; [a; c; b]; [b; a; c]; [b; c; a]; [c; a; b]; [c; b; a]].

Lemma distinct_check (P : list ProfileName -> bool) :
  forallb P distinct_profile_lists = true -> forall g, NoDup g -> P g = true.
Proof.
  intros HP g Hg. rewrite forallb_forall in HP. apply HP. apply list_elem_of_In.
  pose proof (distinct_profiles g Hg) as Hl. unfold len in Hl.
  apply (bool_decide_eq_true_2 (NoDup g)) in Hg.
  destruct g as [|p1 [|p2 [|p3 [|? ?]]]]; [| | | |exfalso; cbn [length] in Hl; lia]; clear Hl.
  all: repeat match goal with p : ProfileName |- _ => destruct p end.
  all: try (exfalso; vm_compute in Hg; discriminate Hg).
  all: apply (bool_decide_unpack _); vm_compute; exact I.
Qed.

(** A list of distinct profiles, in order. *)
Definition grants_sorted (g : list ProfileName) : Prop :=
  sort_profiles g = g /\ validate_profile_set g = Ok tt /\ NoDup g /\ g <> [].

Lemma sort_distinct g : NoDup g -> g <> [] -> grants_sorted (sort_profiles g) /\ (forall p, p ∈ sort_profiles g <-> p ∈ g).
Proof.
  intros Hd Hne.
  assert (bool_decide (sort_profiles (sort_profiles g) = sort_profiles g) && is_ok (validate_profile_set (sort_profiles g))
          && bool_decide (NoDup (sort_profiles g)) && negb (is_empty (sort_profiles g))
          && forallb (fun p => Bool.eqb (bool_decide (p ∈ sort_profiles g)) (bool_decide (p ∈ g))) ProfileName_ALL
          || is_empty g = true) as Hc.
  { revert Hd. generalize g. apply (distinct_check (fun g => _)). by vm_compute. }
  destruct g as [|p0 g]; [done|]. rewrite orb_false_r in Hc. repeat (apply andb_true_iff in Hc as [Hc ?]). to_prop.
  repeat match goal with H : bool_decide _ = true |- _ => apply bool_decide_eq_true in H end.
  split.
  - split_and!; [done|by destruct (validate_profile_set _) as [[]|]|done|]. intros E. by rewrite E in *.
  - intros p. match goal with H : forallb _ _ = true |- _ => rewrite forallb_forall in H; specialize (H p) end.
    assert (In p ProfileName_ALL) as Hp by (destruct p; cbn; tauto).
    match goal with H : In p _ -> _ |- _ => specialize (H Hp); apply Bool.eqb_prop in H end.
    destruct (bool_decide_reflect (p ∈ sort_profiles (p0 :: g))), (bool_decide_reflect (p ∈ p0 :: g)); naive_solver.
Qed.

Lemma sorted_ok g offered :
  grants_sorted g -> g ⊆ offered -> validate_grants g offered = Ok tt.
Proof.
  intros (Hs & Hv & _ & Hne) Hsub. unfold validate_profile_set in Hv. unfold validate_grants.
  destruct (is_empty g || adjacent_equal (sort_profiles g)); [done|]. cbn [orb].
  destruct (existsb _ _) eqn:E; [|done]. apply existsb_exists in E as (p & Hp & E).
  apply list_elem_of_In, Hsub in Hp. by rewrite bool_decide_eq_true_2 in E.
Qed.

(** The grants a user confirms: distinct profiles of the offer. *)
Definition grants_ok (g offered : list ProfileName) : Prop := NoDup g /\ g <> [] /\ g ⊆ offered.

Lemma grants_valid g offered : grants_ok g offered -> validate_grants g offered = Ok tt.
Proof.
  intros (Hd & Hne & Hsub).
  assert (validate_grants g offered = Ok tt \/ is_empty g || adjacent_equal (sort_profiles g) = true) as [|Hc]; [|done|].
  { unfold validate_grants. destruct (is_empty g || adjacent_equal (sort_profiles g)); [by right|left]. cbn [orb].
    destruct (existsb _ _) eqn:E; [|done]. apply existsb_exists in E as (p & Hp & E).
    apply list_elem_of_In, Hsub in Hp. by rewrite bool_decide_eq_true_2 in E. }
  assert (is_empty g || negb (adjacent_equal (sort_profiles g)) = true) as Ha.
  { revert Hd. generalize g. apply (distinct_check (fun g => _)). by vm_compute. }
  destruct g as [|p g]; [done|]. cbn [is_empty orb] in *. by rewrite Hc in Ha.
Qed.

Lemma profile_array_fits g d :
  NoDup g -> d <= 3 -> wf (profile_array g) /\ fits d (profile_array g) 300.
Proof.
  intros Hd Hdepth. unfold profile_array. split.
  - constructor. apply Forall_map, Forall_true. intros []; constructor; reflexivity.
  - assert (len (sort_profiles g) <= 3) as Hl.
    { assert ((length (sort_profiles g) <=? 3)%nat = true) as E.
      { revert Hd. generalize g. apply (distinct_check (fun g => _)). by vm_compute. }
      unfold len. apply Nat.leb_le in E. lia. }
    eapply fits_weaken; [apply (fits_array _ _ 50); [unfold MAX_NESTING_DEPTH; lia|]|].
    + apply Forall_map, Forall_true. intros [];
        (eapply fits_weaken; [apply fits_text; [unfold MAX_NESTING_DEPTH; lia|by vm_compute]|by vm_compute]).
    + unfold len in *. rewrite length_map. lia.
Qed.

Lemma grants_hash_total `{Sha256} g : NoDup g -> exists e, compute_grants_hash g = Ok (sha256 e).
Proof.
  intros Hd. unfold compute_grants_hash.
  assert (is_ok (encode_deterministic_cbor (Array (map Text
    (dedup (foldr insert_name [] (map (fun p => utf8 (ProfileName_as_str p)) g)))))) = true) as Ho.
  { revert Hd. generalize g. apply (distinct_check (fun g => _)). by vm_compute. }
  destruct (encode_deterministic_cbor _) as [e|]; [|done]. by exists e.
Qed.

(** *** Messages *)

Lemma confirm_sendable now g : grants_sorted g -> Session.sendable_message now (T_PairingConfirm g).
Proof.
  intros (Hs & Hv & Hd & _). destruct (profile_array_fits g 2 Hd ltac:(lia)) as [Hw Hf]. split; [done|].
  exists [(utf8 "granted_profiles", profile_array g)], 400. split_and!; [| | |done].
  - cbn [to_wire_body]. unfold pairing_confirm_to_body. by rewrite Hv.
  - constructor; [repeat constructor|]. constructor; [split; [reflexivity|exact Hw]|constructor].
  - eapply fits_weaken; [apply (fits_map 1 _ [300]); [done|]|by vm_compute].
    apply List.Forall2_cons; [split; [by vm_compute|exact Hf]|apply List.Forall2_nil].
Qed.

Lemma stored_sendable now id : len id = PAIR_ID_SIZE -> Session.sendable_message now (T_PairingStored id).
Proof.
  intros Hid. split; [done|]. exists [(utf8 "pair_id", Bytes id)], 100. unfold PAIR_ID_SIZE in Hid.
  split_and!; [reflexivity| | |done].
  - constructor; [repeat constructor|]. constructor; [split; [reflexivity|constructor]|constructor].
  - eapply fits_weaken; [apply (fits_map 1 _ [25]); [done|]|by vm_compute].
    apply List.Forall2_cons; [split; [by vm_compute|]|apply List.Forall2_nil]. cbn [snd].
    eapply fits_weaken; [by apply fits_bytes|lia].
Qed.

(** The parameters of a pairing over [t]. *)
Definition pairing_parameters (t : TransportProfile) (hash : bytes) : NegotiatedParameters :=
  MkNegotiated hash (utf8 (profile_name t)) (utf8 (profile_candidate_id t)).

Lemma pairing_parameters_fit t hash :
  len hash = 32 ->
  wf (Map (negotiated_parameters_to_map (pairing_parameters t hash))) /\
  fits 2 (Map (negotiated_parameters_to_map (pairing_parameters t hash))) 400.
Proof.
  intros Hh.
  change (negotiated_parameters_to_map (pairing_parameters t hash)) with
    [(utf8 "candidate_id", Text (utf8 (profile_candidate_id t))); (utf8 "offer_hash", Bytes hash);
     (utf8 "suite", Text (utf8 CPACE_KC2_SUITE)); (utf8 "transport_profile", Text (utf8 (profile_name t)));
     (utf8 "version", m_version_value)].
  split.
  - constructor; [repeat (constructor; [|repeat (constructor; [reflexivity|])]); constructor|].
    repeat (constructor; [split; [by vm_compute|]|]); cbn [snd]; try constructor; try (by destruct t).
    repeat constructor; by vm_compute.
  - eapply fits_weaken; [apply (fits_map 2 _ [20; 41; 100; 40; 40]); [done|]|by vm_compute].
    repeat (apply List.Forall2_cons; [split; [by vm_compute|cbn [snd]]|]); [..|apply List.Forall2_nil].
    + eapply fits_weaken; [apply fits_text; [done|by destruct t]|by destruct t].
    + eapply fits_weaken; [by apply fits_bytes|]. lia.
    + eapply fits_weaken; [by apply fits_text|by vm_compute].
    + eapply fits_weaken; [apply fits_text; [done|by destruct t]|by destruct t].
    + eexists. split; [reflexivity|by vm_compute].
Qed.

Definition label_ok (name : bytes) : Prop := name_ok name /\ text_ok name.

Lemma pairing_hello_sendable now t hash name pf requested :
  len hash = 32 -> label_ok name -> label_ok pf ->
  match requested with Some l => grants_sorted l | None => True end ->
  Session.sendable_message now (T_PairingHello (MkHello (pairing_parameters t hash) name pf requested)).
Proof.
  intros Hh [Hn Hnt] [Hp Hpt] Hr. pose proof (Session.name_len name Hn). pose proof (Session.name_len pf Hp).
  split; [by split_and!; [| |destruct requested; [apply Hr|]]|].
  destruct (pairing_parameters_fit t hash Hh) as [Hw Hf].
  exists ([(utf8 "display_name", Text name);
           (utf8 "parameters", Map (negotiated_parameters_to_map (pairing_parameters t hash)));
           (utf8 "platform", Text pf)] ++
          match requested with Some l => [(utf8 "requested_profiles", profile_array l)] | None => [] end), 2000.
  split_and!; [| | |done].
  - cbn [to_wire_body]. unfold pairing_hello_to_body, validate_name. cbn [platform parameters].
    unfold name_ok in Hp. rewrite Hp. cbn [map_err rbind].
    replace (validate_transport_name (transport_profile (pairing_parameters t hash)) "transport_profile")
      with (@Ok MessageError _ tt) by (by destruct t).
    replace (validate_label (candidate_id (pairing_parameters t hash)) "candidate_id")
      with (@Ok MessageError _ tt) by (by destruct t).
    destruct requested as [l|]; [|reflexivity]. destruct Hr as (_ & Hv & _). cbn [requested_profiles rbind]. rewrite Hv. reflexivity.
  - destruct requested as [l|]; cbn [app].
    + destruct (profile_array_fits l 2 ltac:(by apply Hr) ltac:(lia)) as [Hwl _].
      constructor; [repeat (constructor; [|repeat (constructor; [reflexivity|])]); constructor|].
      repeat (apply Forall_cons_2; [split; [by vm_compute|cbn [snd]]|]);
        [by constructor|exact Hw|by constructor|exact Hwl|constructor].
    + constructor; [repeat (constructor; [|repeat (constructor; [reflexivity|])]); constructor|].
      repeat (apply Forall_cons_2; [split; [by vm_compute|cbn [snd]]|]); [by constructor|exact Hw|by constructor|constructor].
  - assert (forall x, len x <= 256 -> fits 2 (Text x) 265) as Htext.
    { intros x Hx. eapply fits_weaken; [apply fits_text; [done|unfold MAX_TEXT_SIZE; lia]|lia]. }
    destruct requested as [l|]; cbn [app].
    + destruct (profile_array_fits l 2 ltac:(by apply Hr) ltac:(lia)) as [_ Hfl].
      eapply fits_weaken; [apply (fits_map 1 _ [265; 400; 265; 300]); [done|]|by vm_compute].
      repeat (apply List.Forall2_cons; [split; [by vm_compute|cbn [snd]]|]); [by apply Htext|exact Hf|by apply Htext|exact Hfl|apply List.Forall2_nil].
    + eapply fits_weaken; [apply (fits_map 1 _ [265; 400; 265]); [done|]|by vm_compute].
      repeat (apply List.Forall2_cons; [split; [by vm_compute|cbn [snd]]|]); [by apply Htext|exact Hf|by apply Htext|apply List.Forall2_nil].
Qed.

(** *** A pairing of two devices *)

Class Sha256Laws `{Sha256} : Prop := sha256_size m : len (sha256 m) = 32.

(** The three messages of the pairing suite between two builders of the same
    secret and prologue: both complete with the same transcript, each learns the
    other's static key, and the transports are linked. *)
Class SnowPairingLaws (Hs Ts : Type) `{SnowApi Hs Ts, !SnowLaws Hs Ts, SnowBuilder Hs, X25519} : Prop :=
  snow_pairs a b psk prologue :
    len a = 32 -> len b = 32 -> len psk = 32 ->
    exists i r m1 i1 r1 m2 i2 r2 m3 i3 r3 ti tr,
      snow_build Initiator a psk prologue = Some i /\ snow_build Responder b psk prologue = Some r /\
      (snow_hs_write [] MAX_FRAME_SIZE i = (Ok m1, i1) /\ snow_hs_read m1 MAX_FRAME_SIZE r = (Ok [], r1)) /\
      (snow_hs_write [] MAX_FRAME_SIZE r1 = (Ok m2, r2) /\ snow_hs_read m2 MAX_FRAME_SIZE i1 = (Ok [], i2)) /\
      (snow_hs_write [] MAX_FRAME_SIZE i2 = (Ok m3, i3) /\ snow_hs_read m3 MAX_FRAME_SIZE r2 = (Ok [], r3)) /\
      (len m1 <= MAX_FRAME_SIZE /\ len m2 <= MAX_FRAME_SIZE /\ len m3 <= MAX_FRAME_SIZE) /\
      snow_finished i3 = true /\ snow_finished r3 = true /\ snow_hash i3 = snow_hash r3 /\
      snow_remote_static i3 = Some (x25519_public_key b) /\ snow_remote_static r3 = Some (x25519_public_key a) /\
      snow_into_transport i3 = Some ti /\ snow_into_transport r3 = Some tr /\
      snow_linked ti tr /\ snow_written ti = 0 /\ snow_written tr = 0.

(** One frame from the one device to the other. *)
Definition pass {A B X} (send : exec A PairingError BinaryFrame) (receive : BinaryFrame -> exec B PairingError X)
    (a : A) (b : B) : result PairingError (X * A * B) :=
  match send a with
  | (Err e, _) => Err e
  | (Ok frame, a) => match receive frame b with (Err e, _) => Err e | (Ok x, b) => Ok (x, a, b) end
  end.

Section Devices.
Context {HS TS : Type} `{HSnow : SnowApi HS TS, HSL : !SnowLaws HS TS, HBuild : SnowBuilder HS}.
Context `{HX : X25519, HXL : !X25519Laws, HPL : !SnowPairingLaws HS TS}.
Context `{HN : NoiseSuite, HNL : !NoiseSuiteLaws, HSha : Sha256, HShaL : !Sha256Laws}.

(** What one device brings to a pairing. *)
Record device := MkDevice {
  keys : PairKeyMaterial; device_name : bytes; device_platform : bytes; grants : list ProfileName }.

Definition begun (role : RappState.EndpointRole) (o : Offer.PairingOffer) (t : TransportProfile) (secret : bytes)
    (d : device) : result PairingError (PairingHandshake HS) :=
  map_err fst (pairing_begin role o (utf8 (profile_candidate_id t)) (keys d) secret).

(** The handshake, from the requester's first message. *)
Definition handshake (hr hc : PairingHandshake HS) : result PairingError (PairingConfirmation TS * PairingConfirmation TS) :=
  let? p := pass ph_write_message ph_read_message hr hc in let '(_, hr, hc) := p in
  let? p := pass ph_write_message ph_read_message hc hr in let '(_, hc, hr) := p in
  let? p := pass ph_write_message ph_read_message hr hc in let '(_, hr, hc) := p in
  let? cr := map_err fst (into_confirmation hr) in
  let? cc := map_err fst (into_confirmation hc) in
  Ok (cr, cc).

Definition dialogue (now : Z) (r c : device) (cr cc : PairingConfirmation TS) :
  result PairingError (PairingConfirmation TS * PairingConfirmation TS) :=
  let? p := pass (pc_send_hello (device_name r) (device_platform r)) (fun f => pc_receive_hello f now) cr cc in
  let '(_, cr, cc) := p in
  let? p := pass (pc_send_hello (device_name c) (device_platform c)) (fun f => pc_receive_hello f now) cc cr in
  let '(_, cc, cr) := p in
  let? p := pass (pc_send_confirmation (grants r)) (fun f => pc_receive_confirmation f now) cr cc in
  let '(_, cr, cc) := p in
  let? p := pass (pc_send_confirmation (grants c)) (fun f => pc_receive_confirmation f now) cc cr in
  let '(_, cc, cr) := p in
  Ok (cr, cc).

Definition store_both (now : Z) (cr cc : PairingConfirmation TS) : result PairingError (PairRecord * PairRecord) :=
  let? p := into_storage now cr in let '(rr, sr) := p in
  let? p := into_storage now cc in let '(rc, sc) := p in
  let? p := pass send_stored (fun f => receive_stored f now) sr sc in let '(_, sr, sc) := p in
  let? p := pass send_stored (fun f => receive_stored f now) sc sr in let '(_, sc, sr) := p in
  let? active := into_active sr in let? rr := confirm active rr in
  let? active := into_active sc in let? rc := confirm active rc in
  Ok (rr, rc).

Definition pair_devices (o : Offer.PairingOffer) (t : TransportProfile) (secret : bytes) (now : Z) (r c : device) :
  result PairingError (PairRecord * PairRecord) :=
  let? hr := begun RappState.Requester o t secret r in
  let? hc := begun RappState.Proxy o t secret c in
  let? p := handshake hr hc in let '(cr, cc) := p in
  let? p := dialogue now r c cr cc in let '(cr, cc) := p in
  store_both now cr cc.

(** **** Beginning *)

Lemma pairing_prologue_encodes hash t :
  len hash = 32 -> exists p, pairing_prologue hash (utf8 (profile_name t)) = Ok p.
Proof.
  intros Hh.
  assert (fits 0 (Array [Text (utf8 "rapp-pairing"); Array version_value; Text (utf8 CPACE_KC2_SUITE); Bytes hash;
    Text (utf8 (profile_name t))]) (9 + 5 * 100)) as (out & Ho & _).
  { eapply fits_weaken; [apply (fits_array 0 _ 100); [done|]|by vm_compute].
    repeat apply Forall_cons_2; [..|constructor].
    - eapply fits_weaken; [by apply fits_text|by vm_compute].
    - eexists. split; [reflexivity|by vm_compute].
    - eapply fits_weaken; [by apply fits_text|by vm_compute].
    - eapply fits_weaken; [by apply fits_bytes|lia].
    - eapply fits_weaken; [apply fits_text; [done|by destruct t]|by destruct t]. }
  exists out. unfold pairing_prologue, encode_deterministic_cbor. by rewrite Ho.
Qed.

(** The offer of [ps] over [ts]. *)
Definition offer_of (id : bytes) (ps : list ProfileName) (ts : list TransportProfile) : Offer.PairingOffer :=
  Offer.MkOffer id [utf8 CPACE_KC2_SUITE] (map (fun p => utf8 (ProfileName_as_str p)) ps) (map Offer.offer_entry ts)
    Offer.OFFER_TTL_MS.

Lemma begun_ok role id ps ts t secret d hash p s :
  t ∈ ts -> ts = [Ble] \/ ts = [Stream] \/ ts = [Ble; Stream] -> NoDup ps -> ps <> [] ->
  Offer.offer_hash (offer_of id ps ts) = Ok hash -> pairing_prologue hash (utf8 (profile_name t)) = Ok p ->
  snow_build (handshake_role role) (private_key (keys d)) secret p = Some s ->
  begun role (offer_of id ps ts) t secret d =
  Ok (MkPairingHandshake role (offer_of id ps ts) hash (Offer.offer_entry t) (sort_profiles ps) (keys d)
        (MkHandshakeChannel (SnowState s) true)).
Proof.
  intros Ht Hts Hd Hne Hh Hp Hs. unfold begun, pairing_begin. cbn [Offer.transports Offer.offer_profiles offer_of].
  assert (List.filter (fun c => bool_decide (Offer.candidate_id c = utf8 (profile_candidate_id t)))
            (map Offer.offer_entry ts) = [Offer.offer_entry t]) as ->.
  { destruct Hts as [->|[->| ->]]; destruct t; try reflexivity;
      rewrite ?elem_of_cons, ?elem_of_nil in Ht; naive_solver. }
  unfold parse_profile_names. rewrite collect_map by (intros q _; by rewrite ProfileName_parse_name).
  cbn [rbind]. rewrite grants_valid by (by split_and!). cbn [rbind map_err].
  fold (offer_of id ps ts). rewrite Hh. cbn [rbind map_err]. unfold pairing_channel.
  change (Offer.candidate_profile (Offer.offer_entry t)) with (utf8 (profile_name t)).
  rewrite Hp. cbn [rbind]. rewrite Hs. reflexivity.
Qed.

(** **** The handshake *)

Lemma ph_passes role role' o o' h h' e e' l l' k k' a b m a' b' :
  snow_hs_write [] MAX_FRAME_SIZE a = (Ok m, a') -> snow_hs_read m MAX_FRAME_SIZE b = (Ok [], b') ->
  len m <= MAX_FRAME_SIZE ->
  pass ph_write_message ph_read_message
    (MkPairingHandshake role o h e l k (MkHandshakeChannel (SnowState a) true))
    (MkPairingHandshake role' o' h' e' l' k' (MkHandshakeChannel (SnowState b) true))
  = Ok (tt, MkPairingHandshake role o h e l k (MkHandshakeChannel (SnowState a') true),
        MkPairingHandshake role' o' h' e' l' k' (MkHandshakeChannel (SnowState b') true)).
Proof.
  intros Hw Hr Hl. unfold pass, ph_write_message, ph_read_message, hc_write_message, hc_read_message.
  cbn [ph_channel hc_state derive_pair ph_set_channel]. rewrite Hw. cbn [map_err]. unfold BinaryFrame_reconstruct.
  rewrite Z.gtb_ltb, (proj2 (Z.ltb_ge _ _)) by done. cbn [map_err ph_channel hc_state]. rewrite Hr. reflexivity.
Qed.

Lemma into_confirmation_ok role o h e l k s pub ts :
  snow_finished s = true -> snow_remote_static s = Some pub -> len pub = 32 -> snow_into_transport s = Some ts ->
  into_confirmation (MkPairingHandshake role o h e l k (MkHandshakeChannel (SnowState s) true)) =
  Ok (MkConfirmation role (derive_pair_id (snow_hash s)) h e l k pub
        (MkChannel (SnowMode ts) (SequenceGuard_new (derive_session_id (snow_hash s)))) false None None None).
Proof.
  intros Hf Hr Hl Ht. unfold into_confirmation, complete, is_complete. cbn [ph_channel hc_state]. rewrite Hf, Hr.
  cbn [negb ok_or rbind]. rewrite (proj2 (Z.eqb_eq _ _)) by done. cbn [rbind]. by rewrite Ht.
Qed.

Lemma snow_joined (ti tr : TS) sid :
  snow_linked ti tr -> snow_written ti = 0 -> snow_written tr = 0 -> len sid = SESSION_ID_SIZE ->
  joined (MkChannel (SnowMode ti) (SequenceGuard_new sid)) (MkChannel (SnowMode tr) (SequenceGuard_new sid)).
Proof.
  intros Hl Hi Hr Hs. pose proof (snow_linked_sym _ _ Hl). unfold joined. cbn. by rewrite Hi, Hr.
Qed.

(** **** The dialogue *)

Lemma typed_arrives now m (a b : SecureChannel TS) :
  joined a b -> next_send (channel_sequence a) < U64_MAX -> Session.sendable_message now m ->
  exists frame a' b', seal_typed m a = (Ok frame, a') /\ open_typed frame now b = (Ok m, b') /\ joined a' b' /\
    next_send (channel_sequence a') = next_send (channel_sequence a) + 1 /\
    next_send (channel_sequence b') = next_send (channel_sequence b).
Proof.
  intros Hj Hn Hm. destruct (Session.message_arrives now m a b Hj Hn Hm)
    as (body & frame & a' & b' & env & Hb & Hs & Ho & Hf & Hj' & Ha & Hb').
  exists frame, a', b'. split_and!; try done.
  - unfold seal_typed. by rewrite Hb, Hs.
  - unfold open_typed. by rewrite Ho, Hf.
Qed.

Lemma hello_passes now name pf (a b : PairingConfirmation TS) t :
  joined (pc_channel a) (pc_channel b) -> next_send (channel_sequence (pc_channel a)) < U64_MAX ->
  local_hello_sent a = false -> peer_hello b = None -> pc_candidate a = Offer.offer_entry t ->
  pc_candidate b = Offer.offer_entry t -> pc_offer_hash a = pc_offer_hash b -> len (pc_offer_hash a) = 32 ->
  pc_offered_profiles a = pc_offered_profiles b -> grants_sorted (pc_offered_profiles a) -> pc_role a <> pc_role b ->
  label_ok name -> label_ok pf ->
  exists hello ca cb, hello_display_name hello = name /\
    pass (pc_send_hello name pf) (fun f => pc_receive_hello f now) a b =
      Ok (hello, pc_set_hello_sent (pc_set_channel ca a), pc_set_peer_hello hello (pc_set_channel cb b)) /\
    joined ca cb /\ next_send (channel_sequence ca) = next_send (channel_sequence (pc_channel a)) + 1 /\
    next_send (channel_sequence cb) = next_send (channel_sequence (pc_channel b)).
Proof.
  intros Hj Hn Hs Hp Ha Hb Ho Hl Hoff Hg Hrole Hname Hpf.
  set (requested := if bool_decide (pc_role a = RappState.Requester) then Some (pc_offered_profiles a) else None).
  set (hello := MkHello (pairing_parameters t (pc_offer_hash a)) name pf requested).
  destruct (typed_arrives now (T_PairingHello hello) _ _ Hj Hn) as (f & ca & cb & Hf & Hf' & Hj' & Hna & Hnb).
  { apply pairing_hello_sendable; [done..|]. unfold requested. by destruct (bool_decide _). }
  assert (expected_parameters a = pairing_parameters t (pc_offer_hash a)) as Hea by (unfold expected_parameters; by rewrite Ha).
  assert (forall ch, verify_hello hello (pc_set_channel ch b) = Ok tt) as Hv.
  { intros ch. unfold verify_hello, expected_parameters. cbn [pc_candidate pc_offer_hash pc_role pc_offered_profiles pc_set_channel].
    rewrite Hb, <- Ho. rewrite bool_decide_eq_true_2 by done. cbn [negb]. unfold hello, requested. cbn [requested_profiles].
    destruct (pc_role a) eqn:Ea, (pc_role b) eqn:Eb; try done.
    rewrite bool_decide_eq_true_2 by done. by rewrite Hoff, bool_decide_eq_true_2. }
  exists hello, ca, cb. split; [done|]. split; [|by split_and!].
  unfold pass, pc_send_hello, on_channel. rewrite Hs, Hea. fold requested. fold hello. rewrite Hf.
  unfold pc_receive_hello, on_channel. rewrite Hp, Hf', Hv. reflexivity.
Qed.

Lemma confirmation_passes now g (a b : PairingConfirmation TS) :
  joined (pc_channel a) (pc_channel b) -> next_send (channel_sequence (pc_channel a)) < U64_MAX ->
  local_hello_sent a = true -> is_Some (peer_hello a) -> local_grants a = None -> peer_grants b = None ->
  (peer_grants a = None \/ peer_grants a = Some (sort_profiles g)) ->
  (local_grants b = None \/ local_grants b = Some (sort_profiles g)) ->
  grants_ok g (pc_offered_profiles a) -> pc_offered_profiles a = pc_offered_profiles b ->
  exists ca cb,
    pass (pc_send_confirmation g) (fun f => pc_receive_confirmation f now) a b =
      Ok (sort_profiles g, pc_set_local_grants (sort_profiles g) (pc_set_channel ca a),
          pc_set_peer_grants (sort_profiles g) (pc_set_channel cb b)) /\
    joined ca cb /\ next_send (channel_sequence ca) = next_send (channel_sequence (pc_channel a)) + 1 /\
    next_send (channel_sequence cb) = next_send (channel_sequence (pc_channel b)).
Proof.
  intros Hj Hn Hs [h Hp] Hla Hpb Hpa Hlb Hg Hoff. pose proof Hg as (Hd & Hne & Hsub).
  destruct (sort_distinct g Hd Hne) as [Hsorted Hin].
  destruct (typed_arrives now (T_PairingConfirm (sort_profiles g)) _ _ Hj Hn (confirm_sendable now _ Hsorted))
    as (f & ca & cb & Hf & Hf' & Hj' & Hna & Hnb).
  exists ca, cb. split; [|by split_and!].
  unfold pass, pc_send_confirmation, on_channel. rewrite Hs, Hp, Hla, (grants_valid _ _ Hg).
  rewrite bool_decide_eq_false_2 by done. cbn [negb orb].
  rewrite (bool_decide_eq_false_2 (is_Some None)) by (by intros []).
  assert (differs (peer_grants a) (sort_profiles g) = false) as ->.
  { destruct Hpa as [->| ->]; [done|]. cbn. by rewrite bool_decide_eq_true_2. }
  rewrite Hf. unfold pc_receive_confirmation, on_channel. rewrite Hpb, Hf'.
  rewrite (bool_decide_eq_false_2 (is_Some None)) by (by intros []).
  cbn [pc_offered_profiles pc_set_channel local_grants]. rewrite <- Hoff, (sorted_ok _ _ Hsorted).
  2: { intros q Hq. apply Hsub. by apply Hin. }
  assert (differs (local_grants b) (sort_profiles g) = false) as ->; [|reflexivity].
  destruct Hlb as [->| ->]; [done|]. cbn. by rewrite bool_decide_eq_true_2.
Qed.

Lemma stored_passes now (a b : PairingStorage TS) :
  joined (ps_channel a) (ps_channel b) -> next_send (channel_sequence (ps_channel a)) < U64_MAX ->
  local_stored_sent a = false -> peer_stored b = false -> ps_pair_id a = ps_pair_id b -> len (ps_pair_id a) = PAIR_ID_SIZE ->
  exists ca cb,
    pass send_stored (fun f => receive_stored f now) a b =
      Ok (tt, MkStorage (ps_pair_id a) ca true (peer_stored a), MkStorage (ps_pair_id b) cb (local_stored_sent b) true) /\
    joined ca cb /\ next_send (channel_sequence cb) = next_send (channel_sequence (ps_channel b)).
Proof.
  intros Hj Hn Hs Hp Hid Hl.
  destruct (typed_arrives now (T_PairingStored (ps_pair_id a)) _ _ Hj Hn (stored_sendable now _ Hl))
    as (f & ca & cb & Hf & Hf' & Hj' & Hna & Hnb).
  exists ca, cb. split; [|by split_and!].
  unfold pass, send_stored. rewrite Hs, Hf. unfold receive_stored. rewrite Hp, Hf', Hid.
  rewrite bool_decide_eq_true_2 by done. reflexivity.
Qed.

(** **** The whole *)

Definition device_ok (d : device) : Prop :=
  (len (private_key (keys d)) = 32 /\ public_key (keys d) = x25519_public_key (private_key (keys d))) /\
  all_zero (private_key (keys d)) = false /\ all_zero (public_key (keys d)) = false /\
  label_ok (device_name d) /\ label_ok (device_platform d).

(** The two confirmations of one handshake over [t]. *)
Definition facing (hash id : bytes) (t : TransportProfile) (offered : list ProfileName) (r c : device)
    (cr cc : PairingConfirmation TS) : Prop :=
  exists ca cb, joined ca cb /\ next_send (channel_sequence ca) = 0 /\ next_send (channel_sequence cb) = 0 /\
    cr = MkConfirmation RappState.Requester id hash (Offer.offer_entry t) offered (keys r) (public_key (keys c)) ca
           false None None None /\
    cc = MkConfirmation RappState.Proxy id hash (Offer.offer_entry t) offered (keys c) (public_key (keys r)) cb
           false None None None.

Lemma pair_id_size h : len (derive_pair_id h) = PAIR_ID_SIZE.
Proof. unfold derive_pair_id, derive_id. apply len_take_z. rewrite sha512_size. by vm_compute. Qed.

Lemma handshake_ok id ps ts t secret hash r c :
  t ∈ ts -> ts = [Ble] \/ ts = [Stream] \/ ts = [Ble; Stream] -> NoDup ps -> ps <> [] ->
  Offer.offer_hash (offer_of id ps ts) = Ok hash -> len hash = 32 -> len secret = 32 -> device_ok r -> device_ok c ->
  exists hr hc cr cc pid, begun RappState.Requester (offer_of id ps ts) t secret r = Ok hr /\
    begun RappState.Proxy (offer_of id ps ts) t secret c = Ok hc /\ handshake hr hc = Ok (cr, cc) /\
    len pid = PAIR_ID_SIZE /\ facing hash pid t (sort_profiles ps) r c cr cc.
Proof.
  intros Ht Hts Hd Hne Hh Hl Hs ((Hkr & Hpr) & _) ((Hkc & Hpc) & _).
  destruct (pairing_prologue_encodes hash t Hl) as [p Hp].
  destruct (snow_pairs (private_key (keys r)) (private_key (keys c)) secret p Hkr Hkc Hs)
    as (i & rr & m1 & i1 & r1 & m2 & i2 & r2 & m3 & i3 & r3 & ti & tr & Hi & Hr & (Hw1 & Hr1) & (Hw2 & Hr2) & (Hw3 & Hr3) &
        (Hl1 & Hl2 & Hl3) & Hf1 & Hf2 & Hhash & Hsi & Hsr & Hti & Htr & Hlink & H0i & H0r).
  eexists _, _, _, _, (derive_pair_id (snow_hash i3)).
  split; [by eapply (begun_ok RappState.Requester)|]. split; [by eapply (begun_ok RappState.Proxy)|].
  split; [|split; [apply pair_id_size|]].
  - unfold handshake. rewrite (ph_passes _ _ _ _ _ _ _ _ _ _ _ _ _ _ _ _ _ Hw1 Hr1 Hl1). cbn [rbind].
    rewrite (ph_passes _ _ _ _ _ _ _ _ _ _ _ _ _ _ _ _ _ Hw2 Hr2 Hl2). cbn [rbind].
    rewrite (ph_passes _ _ _ _ _ _ _ _ _ _ _ _ _ _ _ _ _ Hw3 Hr3 Hl3). cbn [rbind].
    rewrite (into_confirmation_ok _ _ _ _ _ _ _ _ _ Hf1 Hsi (public_size _) Hti). cbn [map_err rbind].
    rewrite (into_confirmation_ok _ _ _ _ _ _ _ _ _ Hf2 Hsr (public_size _) Htr). cbn [map_err rbind]. reflexivity.
  - eexists _, _. split; [apply (snow_joined ti tr (derive_session_id (snow_hash i3))); [done..|apply Session.session_id_size]|].
    rewrite Hpr, Hpc, <- Hhash. done.
Qed.

Ltac conf_cbn :=
  cbn [rbind pc_set_channel pc_set_hello_sent pc_set_peer_hello pc_set_local_grants pc_set_peer_grants pc_channel pc_role
       pc_pair_id pc_offer_hash pc_candidate pc_offered_profiles pc_local_keys pc_remote_static_public
       local_hello_sent peer_hello local_grants peer_grants] in *.

Lemma dialogue_ok now hash id t offered r c cr cc :
  len hash = 32 -> grants_sorted offered -> device_ok r -> device_ok c ->
  grants_ok (grants r) offered -> grants_ok (grants c) offered ->
  sort_profiles (grants r) = sort_profiles (grants c) ->
  facing hash id t offered r c cr cc ->
  exists ca cb hr hc, hello_display_name hr = device_name r /\ hello_display_name hc = device_name c /\
    dialogue now r c cr cc =
      Ok (MkConfirmation RappState.Requester id hash (Offer.offer_entry t) offered (keys r) (public_key (keys c)) ca
            true (Some hc) (Some (sort_profiles (grants r))) (Some (sort_profiles (grants r))),
          MkConfirmation RappState.Proxy id hash (Offer.offer_entry t) offered (keys c) (public_key (keys r)) cb
            true (Some hr) (Some (sort_profiles (grants r))) (Some (sort_profiles (grants r)))) /\
    joined ca cb /\ next_send (channel_sequence ca) = 2 /\ next_send (channel_sequence cb) = 2.
Proof.
  intros Hh Hoff (_ & _ & _ & Hrn & Hrp) (_ & _ & _ & Hcn & Hcp) Hgr Hgc Hsame (ca & cb & Hj & Ha & Hb & -> & ->).
  unfold dialogue.
  edestruct (hello_passes now (device_name r) (device_platform r)) as (hr & ca1 & cb1 & Hnr & -> & Hj1 & Ha1 & Hb1);
    [exact Hj|cbn; rewrite Ha; done|try done..]. conf_cbn.
  edestruct (hello_passes now (device_name c) (device_platform c)) as (hc & cb2 & ca2 & Hnc & -> & Hj2 & Hb2 & Ha2);
    [exact (joined_sym _ _ Hj1)|cbn; rewrite Hb1, Hb; done|try done..]. conf_cbn.
  edestruct (confirmation_passes now (grants r)) as (ca3 & cb3 & -> & Hj3 & Ha3 & Hb3);
    [exact (joined_sym _ _ Hj2)|cbn; rewrite Ha2, Ha1, Ha; done|try done; try by left..]. conf_cbn.
  edestruct (confirmation_passes now (grants c)) as (cb4 & ca4 & -> & Hj4 & Hb4 & Ha4);
    [exact (joined_sym _ _ Hj3)|cbn; rewrite Hb3, Hb2, Hb1, Hb; done|try done..].
  { right. cbn. by rewrite Hsame. }
  { right. cbn. by rewrite Hsame. }
  conf_cbn. rewrite <- Hsame. exists ca4, cb4, hr, hc. cbn in *.
  split_and!; [done|done|reflexivity|by apply joined_sym|lia|lia].
Qed.

Lemma store_both_ok now hash id t offered r c ca cb hr hc g ghash :
  joined ca cb -> next_send (channel_sequence ca) = 2 -> next_send (channel_sequence cb) = 2 ->
  len id = PAIR_ID_SIZE -> grants_sorted g -> device_ok r -> device_ok c -> compute_grants_hash g = Ok ghash ->
  let record role d remote name :=
    MkRecord id role (private_key (keys d)) (public_key (keys d)) remote ghash g name now true None None in
  store_both now
    (MkConfirmation RappState.Requester id hash (Offer.offer_entry t) offered (keys r) (public_key (keys c)) ca
       true (Some hc) (Some g) (Some g))
    (MkConfirmation RappState.Proxy id hash (Offer.offer_entry t) offered (keys c) (public_key (keys r)) cb
       true (Some hr) (Some g) (Some g))
  = Ok (record RappState.Requester r (public_key (keys c)) (hello_display_name hc),
        record RappState.Proxy c (public_key (keys r)) (hello_display_name hr)).
Proof.
  intros Hj Ha Hb Hid (_ & _ & _ & Hne) (_ & Hr1 & Hr2 & _) (_ & Hc1 & Hc2 & _) Hg record.
  assert (is_empty g = false) as He by (by destruct g).
  assert (forall role d e (ch : SecureChannel TS) remote h, all_zero (private_key (keys d)) = false -> all_zero (public_key (keys d)) = false ->
    all_zero remote = false ->
    into_storage now (MkConfirmation role id hash e offered (keys d) remote ch true (Some h) (Some g) (Some g)) =
    Ok (awaiting_storage_confirmation (record role d remote (hello_display_name h)), MkStorage id ch false false)) as Hst.
  { intros role d e ch remote h H1 H2 H3. unfold into_storage.
    cbn [local_hello_sent peer_hello local_grants peer_grants pc_pair_id pc_role pc_local_keys pc_remote_static_public pc_channel].
    rewrite bool_decide_eq_false_2 by done. cbn [negb orb ok_or rbind]. rewrite bool_decide_eq_true_2 by done. cbn [negb].
    rewrite Hg. cbn [map_err rbind fmap option_fmap option_map ok_or]. unfold PairRecord_new. by rewrite H1, H2, H3, He. }
  unfold store_both. rewrite (Hst RappState.Requester r) by done. cbn [rbind].
  rewrite (Hst RappState.Proxy c) by done. cbn [rbind].
  edestruct (stored_passes now (MkStorage id ca false false) (MkStorage id cb false false)) as (ca1 & cb1 & -> & Hj1 & Hb1);
    [exact Hj|cbn; rewrite Ha; done|try done..]. cbn [rbind ps_pair_id ps_channel local_stored_sent peer_stored] in *.
  edestruct (stored_passes now (MkStorage id cb1 false true) (MkStorage id ca1 true false)) as (cb2 & ca2 & -> & _ & _);
    [exact (joined_sym _ _ Hj1)|cbn; rewrite Hb1, Hb; done|try done..].
  cbn [rbind into_active is_confirmed ps_pair_id local_stored_sent peer_stored andb negb].
  unfold confirm. cbn [pair_id awaiting_storage_confirmation set_confirmed record].
  rewrite bool_decide_eq_true_2 by done. reflexivity.
Qed.

End Devices.

(** ** Properties *)

(** C7 (liveness) A pairing completes end to end.  A custodian creates an offer of
    registered profiles; a requester reads it over any of its transports; and when
    both hold one secret and their users grant the same profiles of the offer, the
    handshake, the hellos, the confirmations and the storage confirmations lead
    both to confirmed records of one pairing, with each other's keys and names and
    the granted profiles.  These are the records a session opens from. *)
Theorem pairing_completes {HS TS : Type} `{HSnow : SnowApi HS TS, HSL : !SnowLaws HS TS, HBuild : SnowBuilder HS}
    `{HX : X25519, HXL : !X25519Laws, HPL : !SnowPairingLaws HS TS, HN : NoiseSuite, HNL : !NoiseSuiteLaws}
    `{HSha : Sha256, HShaL : !Sha256Laws} (id : bytes) (ps : list ProfileName) (served : list TransportProfile)
    (t : TransportProfile) (secret : bytes) (now : Z) (r c : device) :
  len id = Offer.OFFER_ID_SIZE -> NoDup ps -> ps <> [] -> t ∈ served -> len secret = 32 ->
  device_ok r -> device_ok c -> grants_ok (grants r) ps -> grants_ok (grants c) ps ->
  sort_profiles (grants r) = sort_profiles (grants c) ->
  exists o bs rr rc,
    Offer.offer_create id (map (fun p => utf8 (ProfileName_as_str p)) ps) served = Ok o /\
    Offer.offer_to_cbor o = Ok bs /\ Offer.from_bootstrap bs t = Ok (Offer.AnswerOffer o) /\
    pair_devices o t secret now r c = Ok (rr, rc) /\ Session.paired rc rr /\
    peer_display_name rr = device_name c /\ peer_display_name rc = device_name r /\
    serving_profiles rr = sort_profiles (grants r) /\ serving_profiles rc = sort_profiles (grants r).
Proof.
  intros Hid Hd Hne Ht Hs Hr Hc Hgr Hgc Hsame.
  destruct (Offer.created_read id ps served Hid Hd Hne ltac:(by intros ->; apply not_elem_of_nil in Ht))
    as (ts & bs & Hcreate & Hok & Hcbor & Hts & Hcases). fold (offer_of id ps ts) in Hcreate, Hok, Hcbor.
  assert (Offer.offer_hash (offer_of id ps ts) = Ok (sha256 bs)) as Hh by (unfold Offer.offer_hash; by rewrite Hcbor).
  destruct (handshake_ok id ps ts t secret (sha256 bs) r c) as (hr & hc & cr & cc & pid & Hbr & Hbc & Hhs & Hpid & Hfacing);
    [by apply Hts|done|done|done|done|apply sha256_size|done|done|done|].
  destruct (sort_distinct ps Hd Hne) as [Hsorted Hin].
  assert (forall g, grants_ok g ps -> grants_ok g (sort_profiles ps)) as Hsub.
  { intros g (H1 & H2 & H3). split_and!; [done|done|]. intros p Hp. by apply Hin, H3. }
  destruct (dialogue_ok now (sha256 bs) pid t (sort_profiles ps) r c cr cc (sha256_size _) Hsorted Hr Hc
              (Hsub _ Hgr) (Hsub _ Hgc) Hsame Hfacing) as (ca & cb & mr & mc & Hmr & Hmc & Hdia & Hj & Ha & Hb).
  destruct Hgr as (Hdr & Hner & _). destruct (sort_distinct _ Hdr Hner) as [Hg _].
  destruct (grants_hash_total (sort_profiles (grants r)) ltac:(apply Hg)) as [e He].
  pose proof (store_both_ok now (sha256 bs) pid t (sort_profiles ps) r c ca cb mr mc _ _ Hj Ha Hb Hpid Hg Hr Hc He) as Hstore.
  eexists (offer_of id ps ts), bs, _, _. split; [done|]. split; [done|]. split.
  { rewrite (Offer.offer_answer_read _ _ _ Hok Hcbor). unfold offer_of. rewrite Offer.served_over_iff.
    by rewrite bool_decide_eq_true_2 by by apply Hts. }
  split. { unfold pair_devices. rewrite Hbr, Hbc. cbn [rbind]. rewrite Hhs. cbn [rbind]. rewrite Hdia. cbn [rbind]. exact Hstore. }
  pose proof Hr as ((_ & Hpr) & _). pose proof Hc as ((_ & Hpc) & _).
  split; [by constructor; cbn|by split_and!].
Qed.

(** C8 (safety) No record without agreement: whatever frames arrive and whatever is
    asked of it, a device obtains a record only after a frame it sent sealed its
    hello, after a frame it took opened to a hello with the offer and transport of
    this pairing and, at the custodian only, exactly the offered profiles
    requested, and after a frame sent and a frame taken confirmed the record's
    profiles, a non-empty list of distinct profiles of the offer.  The record is
    unconfirmed; and the pairing becomes active only after a frame sent and a
    frame taken stated the storage of this very pairing. *)
Theorem record_needs_agreement {HS TS : Type} `{HSnow : SnowApi HS TS, HBuild : SnowBuilder HS}
    `{HX : X25519, HN : NoiseSuite, HSha : Sha256} (h : PairingHandshake HS) (c : PairingConfirmation TS)
    (calls : list pc_call) (now : Z) (record : PairRecord) (storage : PairingStorage TS) :
  into_confirmation h = Ok c ->
  into_storage now (pc_run calls c).2 = Ok (record, storage) ->
  let log := (pc_run calls c).1 in
  storage_confirmed record = false /\ pair_id record = pc_pair_id c /\
  (exists name platform, Exists (sealed_as (hello_of c name platform)) log) /\
  (exists hello, Exists (opened_as (T_PairingHello hello)) log /\
     parameters hello = MkNegotiated (pc_offer_hash c) (Offer.candidate_profile (pc_candidate c))
       (Offer.candidate_id (pc_candidate c)) /\
     requested_profiles hello
       = match pc_role c with RappState.Requester => None | RappState.Proxy => Some (pc_offered_profiles c) end /\
     peer_display_name record = hello_display_name hello) /\
  Exists (sealed_as (T_PairingConfirm (profiles record))) log /\
  Exists (opened_as (T_PairingConfirm (profiles record))) log /\
  profiles record <> [] /\ NoDup (profiles record) /\ profiles record ⊆ pc_offered_profiles c /\
  forall stores active, into_active (ps_run stores storage).2 = Ok active ->
    Exists (sealed_as (T_PairingStored (pair_id record))) (ps_run stores storage).1 /\
    Exists (opened_as (T_PairingStored (pair_id record))) (ps_run stores storage).1 /\
    confirm active record = Ok (to_storage_confirmed record).
Proof.
  intros Hc Hst. apply into_confirmation_start, start_evidence in Hc.
  destruct (pc_run_evidence calls [] c Hc) as [Hev Hfix]. cbn [app] in Hev.
  destruct (pc_run calls c) as [log c']. cbn [fst snd] in *.
  apply into_storage_inv in Hst as (hello & g & hash & Hsent & Hph & Hlg & Hpg & _ & -> & ->).
  destruct Hev as [E1 E2 E3 E4]. destruct (E1 Hsent) as (n & pf & Hhello).
  destruct (E2 _ Hph) as [Hrec Hver]. destruct (E4 _ Hpg) as [Hconf Hval].
  rewrite (hello_of_fixed _ _ _ _ Hfix) in Hhello. rewrite (verify_hello_fixed _ _ _ Hfix) in Hver.
  apply verify_hello_inv in Hver as [Hpar Hreq]. apply validate_grants_distinct in Hval as (Hne & Hnd & Hsub).
  injection Hfix as _ Hpid _ _ Hoff _ _. cbn [storage_confirmed pair_id peer_display_name profiles].
  split_and!; [done|done|by exists n, pf|by exists hello|by apply E3|done|done|done|by rewrite <- Hoff|].
  intros stores active Hact.
  destruct (ps_run_confirmed stores (MkStorage (pc_pair_id c') (pc_channel c') false false)) as (S1 & S2 & S3).
  destruct (ps_run stores _) as [ls st]. cbn [fst snd ps_pair_id local_stored_sent peer_stored] in *.
  unfold into_active, is_confirmed in Hact.
  destruct (local_stored_sent st); [|done]. destruct (peer_stored st); [|done]. injection Hact as <-.
  destruct (S1 eq_refl) as [|S1']; [done|]. destruct (S2 eq_refl) as [|S2']; [done|].
  split_and!; [done|done|]. unfold confirm. cbn [pair_id]. by rewrite S3, bool_decide_eq_true_2.
Qed.

(** *** Witnesses *)

#[local] Existing Instances Noise.toy_x25519 Noise.toy_x25519_laws Noise.toy_suite Noise.toy_suite_laws.
#[local] Instance toy_sha256 : Sha256 := fun _ => repeat 1 32.
#[local] Instance toy_sha256_laws : Sha256Laws.
Proof. by intros m. Qed.

(** A handshake in which each message is the sender's public key, and a transport
    that appends a tag. *)
Record toy_handshake := MkToy { toy_private : bytes; toy_hash : bytes; toy_remote : option bytes }.

#[local] Instance toy_snow : SnowApi toy_handshake Z := {|
  snow_hs_write _ _ s := (Ok (x25519_public_key (toy_private s)), s);
  snow_hs_read m _ s := (Ok [], MkToy (toy_private s) (toy_hash s) (Some m));
  snow_finished _ := true; snow_hash s := toy_hash s; snow_remote_static s := toy_remote s;
  snow_into_transport _ := Some 0;
  snow_write m cap n := if len m + NOISE_TAG_SIZE <=? cap then (Ok (m ++ repeat 0 16), n + 1) else (Err tt, n);
  snow_read c cap n := if len c - NOISE_TAG_SIZE <=? cap then (Ok (take_z c (len c - NOISE_TAG_SIZE)), n) else (Err tt, n) |}.
#[local] Instance toy_builder : SnowBuilder toy_handshake := fun _ k psk prologue => Some (MkToy k (psk ++ prologue) None).

#[local, refine] Instance toy_snow_laws : SnowLaws toy_handshake Z := {|
  snow_linked _ _ := True; snow_written n := n |}.
Proof.
  - done.
  - intros a b m cap cap' _ _ _ Hc Hc'. exists (m ++ repeat 0 16), (a + 1), b. cbn [snow_write snow_read toy_snow].
    assert (len (m ++ repeat 0 16) = len m + NOISE_TAG_SIZE) as Hl by (rewrite len_app; done).
    rewrite (proj2 (Z.leb_le _ _)) by done. rewrite Hl.
    replace (len m + NOISE_TAG_SIZE - NOISE_TAG_SIZE) with (len m) by lia.
    rewrite (proj2 (Z.leb_le _ _)) by done. split_and!; try done.
    unfold take_z, len. by rewrite Nat2Z.id, take_app_length.
Defined.

#[local] Instance toy_pairing_laws : SnowPairingLaws toy_handshake Z.
Proof.
  intros a b psk prologue Ha Hb Hs. eexists _, _, _, _, _, _, _, _, _, _, _, _, _.
  assert (forall k, len (x25519_public_key k) <= MAX_FRAME_SIZE) as Hl.
  { intros k. unfold x25519_public_key. rewrite public_size. done. }
  split_and!; try reflexivity; try apply Hl; done.
Qed.

Definition sample_device (key : Z) (name : string) (g : list ProfileName) : device :=
  MkDevice (MkKeys (repeat key 32) (repeat key 32)) (utf8 name) (utf8 "test") g.

Lemma sample_device_ok key name g :
  x25519_public_key (repeat key 32) = repeat key 32 -> all_zero (repeat key 32) = false -> label_ok (utf8 name) ->
  device_ok (sample_device key name g).
Proof. intros Hk Hz Hn. split_and!; done. Qed.

Lemma pairing_completes_witness :
  exists o rr rc,
    pair_devices o Stream (repeat 9 32) 1000 (sample_device 2 "Laptop" [Authentication; CardStatus])
      (sample_device 3 "Phone" [CardStatus; Authentication]) = Ok (rr, rc) /\ Session.paired rc rr.
Proof.
  destruct (pairing_completes (HS := toy_handshake) (TS := Z) (repeat 7 32) ProfileName_ALL [Stream; Ble] Stream
    (repeat 9 32) 1000 (sample_device 2 "Laptop" [Authentication; CardStatus])
    (sample_device 3 "Phone" [CardStatus; Authentication])) as (o & bs & rr & rc & _ & _ & _ & Hp & Hpaired & _).
  - reflexivity.
  - apply (bool_decide_unpack _). by vm_compute.
  - done.
  - by left.
  - reflexivity.
  - by apply sample_device_ok.
  - by apply sample_device_ok.
  - split_and!; [apply (bool_decide_unpack _); by vm_compute|done|]. intros []; unfold ProfileName_ALL; rewrite !elem_of_cons; tauto.
  - split_and!; [apply (bool_decide_unpack _); by vm_compute|done|]. intros []; unfold ProfileName_ALL; rewrite !elem_of_cons; tauto.
  - reflexivity.
  - by exists o, rr, rc.
Defined.

(** A requester's confirmation, and what a custodian seals in it. *)
Definition sample_handshake : PairingHandshake toy_handshake :=
  MkPairingHandshake RappState.Requester (offer_of (repeat 7 32) [CardStatus] [Ble]) (repeat 1 32) (Offer.offer_entry Ble)
    [CardStatus] (MkKeys (repeat 2 32) (repeat 2 32))
    (MkHandshakeChannel (SnowState (MkToy (repeat 2 32) [] (Some (repeat 3 32)))) true).
Definition sample_channel : SecureChannel Z :=
  MkChannel (SnowMode 0) (SequenceGuard_new (derive_session_id [])).
Definition sample_confirmation : PairingConfirmation Z :=
  MkConfirmation RappState.Requester (derive_pair_id []) (repeat 1 32) (Offer.offer_entry Ble) [CardStatus]
    (MkKeys (repeat 2 32) (repeat 2 32)) (repeat 3 32) sample_channel false None None None.

Definition sample_frames : list BinaryFrame :=
  match seal_typed (T_PairingHello (MkHello (pairing_parameters Ble (repeat 1 32)) (utf8 "Phone") (utf8 "test") None))
          sample_channel with
  | (Ok hello, ch) =>
      match seal_typed (T_PairingConfirm [CardStatus]) ch with
      | (Ok conf, ch) =>
          match seal_typed (T_PairingStored (derive_pair_id [])) ch with
          | (Ok stored, _) => [hello; conf; stored] | _ => [] end
      | _ => []
      end
  | _ => []
  end.
Definition sample_calls : list pc_call :=
  [PC_SendHello (utf8 "Laptop") (utf8 "test"); PC_ReceiveHello (default [] (sample_frames !! 0%nat)) 0;
   PC_SendConfirmation [CardStatus]; PC_ReceiveConfirmation (default [] (sample_frames !! 1%nat)) 0].

Definition sample_stores : list ps_call :=
  [PS_SendStored; PS_ReceiveStored (default [] (sample_frames !! 2%nat)) 0].

Lemma record_needs_agreement_witness :
  exists record storage,
    into_storage 1000 (pc_run sample_calls sample_confirmation).2 = Ok (record, storage) /\
    Exists (opened_as (T_PairingConfirm (profiles record))) (pc_run sample_calls sample_confirmation).1 /\
    profiles record = [CardStatus] /\
    Exists (opened_as (T_PairingStored (pair_id record))) (ps_run sample_stores storage).1.
Proof.
  assert (exists p, into_storage 1000 (pc_run sample_calls sample_confirmation).2 = Ok p) as [[record storage] Hst].
  { eexists. vm_compute. reflexivity. }
  exists record, storage. split; [exact Hst|].
  pose proof (record_needs_agreement sample_handshake sample_confirmation sample_calls 1000 record storage eq_refl Hst)
    as (_ & _ & _ & _ & _ & Ho & _ & _ & _ & Hact).
  split; [exact Ho|]. split; [vm_compute in Hst; by injection Hst as <- <-|].
  destruct (Hact sample_stores (derive_pair_id [])) as (_ & Hs & _); [|exact Hs].
  clear Hact Ho. vm_compute in Hst. injection Hst as <- <-. vm_compute. reflexivity.
Defined.

End Pairing.
