(* ===== verification/RappBleSar.v ===== *)
(** * Bluetooth segmentation and reassembly (crates/rapp/src/ble_sar.rs)

    The sender that cuts a message into fragments and the receive machine
    that puts it together.  The machine's state is its Rust fields; the clock
    is an argument, as in the source; an index out of range is a panic, told
    apart from the errors the calls return.

    The theorems: a message cut for a negotiated link and delivered in time is
    put together again, and the machine is ready for the next; and whatever
    fragments arrive, the machine never panics, never holds more than a frame,
    is empty after every refusal, and hands up only a message that is the
    payloads of consecutive fragments of one frame. *)

From stdpp Require Import base list.
From Stdlib Require Import ZArith Lia.
From S2P Require Import Prelude.

Module BleSar.

(** ** Data *)

Definition BLE_SAR_HEADER_SIZE : Z := 6.
Definition BLE_MINIMUM_ATT_MTU : Z := 512.
Definition BLE_SAR_MINIMUM_NON_FINAL_PAYLOAD : Z := 64.
Definition BLE_SAR_SEQUENCE_LIMIT : Z := 1024.
Definition BLE_SAR_MAXIMUM_MESSAGE : Z := U16_MAX.
Definition BLE_SAR_REASSEMBLY_TIMEOUT_MS : Z := 5000.
Definition ATTRIBUTE_VALUE_LIMIT : Z := 512.
Definition ATT_HEADER_SIZE : Z := 3.
Definition OFFSET_TOTAL : Z := 0.
Definition OFFSET_SEQUENCE : Z := 2.
Definition OFFSET_FLAGS : Z := 4.
Definition OFFSET_RESERVED : Z := 5.
Definition FLAG_FIRST : Z := Z.shiftl 1 0.
Definition FLAG_CONT : Z := Z.shiftl 1 1.
Definition FLAG_LAST : Z := Z.shiftl 1 2.
Definition FLAG_SINGLE : Z := Z.lor FLAG_FIRST FLAG_LAST.
Definition FLAGS_DEFINED : Z := Z.lor (Z.lor FLAG_FIRST FLAG_CONT) FLAG_LAST.

Inductive BleSarError :=
  | AttMtuTooSmall
  | EmptyFragment
  | FirstFragmentNotShorterThanTotal
  | FirstFragmentTooShort
  | FragmentOverCapacity
  | HeaderTruncated
  | IllegalFlags
  | IllegalTransition
  | IncompleteAtLast
  | InvalidCapacity
  | InvalidMessageLength
  | NonFinalFragmentTooShort
  | Overflow
  | ReassemblyTimeout
  | ReservedBitsSet
  | SequenceMismatch
  | SequenceOutOfBounds
  | SingleLengthMismatch
  | TotalLengthChanged
  | UnexpectedInitialFragment
  | ZeroTotalLength.

#[export] Instance BleSarError_eq_dec : EqDecision BleSarError.
Proof. solve_decision. Defined.

(** ** Sending *)

Definition payload_capacity (negotiated_att_mtu : Z) (platform_value_limit : option Z) :
  result BleSarError Z :=
  if negotiated_att_mtu <? BLE_MINIMUM_ATT_MTU then Err AttMtuTooSmall
  else
    let value_limit := Z.min (negotiated_att_mtu - ATT_HEADER_SIZE) ATTRIBUTE_VALUE_LIMIT in
    let value_limit :=
      match platform_value_limit with
      | Some limit => Z.min value_limit limit
      | None => value_limit
      end in
    let? capacity := ok_or (checked_sub value_limit BLE_SAR_HEADER_SIZE) InvalidCapacity in
    if capacity <? BLE_SAR_MINIMUM_NON_FINAL_PAYLOAD then Err InvalidCapacity
    else Ok capacity.

(** The casts to [u16] keep the low two bytes. *)
Definition fragment (total sequence flags : Z) (payload : bytes) : bytes :=
  be_bytes 2 total ++ be_bytes 2 sequence ++ [flags; 0] ++ payload.

(** [.iter().enumerate().map(..)], counting from [n]. *)
Fixpoint enumerate_map {A B} (n : Z) (f : Z -> A -> B) (l : list A) : list B :=
  match l with
  | [] => []
  | x :: rest => f n x :: enumerate_map (n + 1) f rest
  end.

Definition flags_at (last sequence : Z) : Z :=
  if sequence =? 0 then FLAG_FIRST
  else if sequence =? last then FLAG_LAST
  else FLAG_CONT.

Definition segment (message : bytes) (capacity : Z) : result BleSarError (list bytes) :=
  if negb ((BLE_SAR_MINIMUM_NON_FINAL_PAYLOAD <=? capacity)
           && (capacity <=? ATTRIBUTE_VALUE_LIMIT - BLE_SAR_HEADER_SIZE))
  then Err InvalidCapacity
  else if is_empty message || (len message >? BLE_SAR_MAXIMUM_MESSAGE)
  then Err InvalidMessageLength
  else if len message <=? capacity
  then Ok [fragment (len message) 0 FLAG_SINGLE message]
  else
    let chunks := chunks (Z.to_nat capacity) message in
    let last := len chunks - 1 in
    Ok (enumerate_map 0
          (fun sequence payload =>
             fragment (len message) sequence (flags_at last sequence) payload)
          chunks).

(** ** Receiving *)

Record Header := mkHeader { total : Z; sequence : Z; flags : Z }.

Record BleSarReassembler := mkReassembler {
  expected_sequence : Z;
  expected_total : Z;
  buffer : bytes;
  deadline : option Z;
}.

Definition BleSarReassembler_new : BleSarReassembler := mkReassembler 0 0 [] None.

Definition is_idle (self : BleSarReassembler) : bool :=
  (expected_sequence self =? 0) && is_empty (buffer self).

(** The calls on the machine. *)
Notation sar := (exec BleSarReassembler (fault BleSarError)).

Definition reset : sar unit := fun _ => (Ok tt, mkReassembler 0 0 [] None).

Definition check_timer (now_ms : Z) : sar unit := fun self =>
  match deadline self with
  | Some d => if now_ms >=? d then (do? _ <- reset;; eraise ReassemblyTimeout) self
              else (Ok tt, self)
  | None => (Ok tt, self)
  end.

(** [fragment[i]]. *)
Definition index (fragment : bytes) (i : Z) : sar Z := or_panic (get fragment i).

Definition field (fragment : bytes) (offset : Z) : sar Z :=
  do? a <- index fragment offset;;
  do? b <- index fragment (offset + 1);;
  eret (be_value [a; b]).

Definition header (fragment : bytes) (capacity : Z) : sar Header :=
  if len fragment <? BLE_SAR_HEADER_SIZE then eraise HeaderTruncated
  else
    do? flags <- index fragment OFFSET_FLAGS;;
    do? reserved <- index fragment OFFSET_RESERVED;;
    if negb (reserved =? 0) then eraise ReservedBitsSet
    else if negb (existsb (Z.eqb flags) [FLAG_FIRST; FLAG_CONT; FLAG_LAST; FLAG_SINGLE])
    then eraise (if Z.land flags (Z.lxor U8_MAX FLAGS_DEFINED) =? 0
                 then IllegalFlags else ReservedBitsSet)
    else
      let payload_len := len fragment - BLE_SAR_HEADER_SIZE in
      if payload_len =? 0 then eraise EmptyFragment
      else if payload_len >? capacity then eraise FragmentOverCapacity
      else
        do? sequence <- field fragment OFFSET_SEQUENCE;;
        if sequence >=? BLE_SAR_SEQUENCE_LIMIT then eraise SequenceOutOfBounds
        else
          do? total <- field fragment OFFSET_TOTAL;;
          if total =? 0 then eraise ZeroTotalLength
          else eret (mkHeader total sequence flags).

Definition begin (header : Header) (payload : bytes) (now_ms : Z) : sar (option bytes) :=
  fun self =>
  if negb ((flags header =? FLAG_FIRST) || (flags header =? FLAG_SINGLE))
     || negb (sequence header =? 0)
  then eraise UnexpectedInitialFragment self
  else if flags header =? FLAG_SINGLE then
    if negb (total header =? len payload) then eraise SingleLengthMismatch self
    else (Ok (Some payload), self)
  else if len payload <? BLE_SAR_MINIMUM_NON_FINAL_PAYLOAD
  then eraise FirstFragmentTooShort self
  else if len payload >=? total header
  then eraise FirstFragmentNotShorterThanTotal self
  else
    (Ok None,
     mkReassembler 1 (total header) (buffer self ++ payload)
       (Some (saturating_add U64_MAX now_ms BLE_SAR_REASSEMBLY_TIMEOUT_MS))).

Definition continue_frame (header : Header) (payload : bytes) : sar (option bytes) :=
  fun self =>
  let is_last := flags header =? FLAG_LAST in
  if negb is_last && negb (flags header =? FLAG_CONT) then eraise IllegalTransition self
  else if negb (total header =? expected_total self) then eraise TotalLengthChanged self
  else if negb (sequence header =? expected_sequence self) then eraise SequenceMismatch self
  else if negb is_last && (len payload <? BLE_SAR_MINIMUM_NON_FINAL_PAYLOAD)
  then eraise NonFinalFragmentTooShort self
  else if len (buffer self) + len payload >? expected_total self then eraise Overflow self
  else
    let buffer := buffer self ++ payload in
    if negb is_last then
      (Ok None, mkReassembler (expected_sequence self + 1) (expected_total self) buffer
                  (deadline self))
    else
      let self := mkReassembler (expected_sequence self) (expected_total self) buffer
                    (deadline self) in
      if negb (len buffer =? expected_total self) then eraise IncompleteAtLast self
      else (do? _ <- reset;; eret (Some buffer)) self.

Definition accept (fragment : bytes) (capacity now_ms : Z) : sar (option bytes) :=
  do? _ <- check_timer now_ms;;
  do? header <- header fragment capacity;;
  do? payload <- or_panic (get_range fragment BLE_SAR_HEADER_SIZE (len fragment));;
  fun self =>
  if is_idle self then begin header payload now_ms self
  else continue_frame header payload self.

Definition receive (fragment : bytes) (capacity now_ms : Z) : sar (option bytes) := fun self =>
  let '(outcome, self) := accept fragment capacity now_ms self in
  if is_ok outcome then (outcome, self) else (outcome, snd (reset self)).

(** ** Lemmas: one fragment *)

(** What the bytes of a fragment say. *)
Definition frag_total (f : bytes) : Z := be_value (take 2 f).
Definition frag_sequence (f : bytes) : Z := be_value (take 2 (drop 2 f)).
Definition frag_flags (f : bytes) : Z := default 0 (f !! 4%nat).
Definition frag_payload (f : bytes) : bytes := drop 6 f.
Definition frag_header (f : bytes) : Header :=
  mkHeader (frag_total f) (frag_sequence f) (frag_flags f).

(** A fragment the header check lets through. *)
Definition admissible (capacity : Z) (f : bytes) : Prop :=
  1 <= len (frag_payload f) <= capacity
  /\ frag_sequence f < BLE_SAR_SEQUENCE_LIMIT /\ frag_total f <> 0.

Definition legal_flags : list Z := [FLAG_FIRST; FLAG_CONT; FLAG_LAST; FLAG_SINGLE].

(** What the header check requires. *)
Definition well_formed (capacity : Z) (f : bytes) : Prop :=
  f !! 5%nat = Some 0 /\ existsb (Z.eqb (frag_flags f)) legal_flags = true
  /\ admissible capacity f.

Lemma header_cases f capacity st :
  ((exists e, header f capacity st = (Err (Raised e), st)) /\ ~ well_formed capacity f)
  \/ (header f capacity st = (Ok (frag_header f), st) /\ admissible capacity f
      /\ get_range f BLE_SAR_HEADER_SIZE (len f) = Some (frag_payload f)).
Proof.
  unfold header. destruct (len f <? BLE_SAR_HEADER_SIZE) eqn:El; [|to_prop].
  { left. split; [by eexists|]. intros [H5 _]. to_prop. apply lookup_lt_Some in H5.
    unfold len, BLE_SAR_HEADER_SIZE in El. lia. }
  destruct f as [|a [|b [|c [|d [|e [|r rest]]]]]]; try (exfalso; revert El; by vm_compute).
  set (f := a :: b :: c :: d :: e :: r :: rest) in *.
  assert (len f = 6 + len rest) as Hf.
  { change f with ([a; b; c; d; e; r] ++ rest). by rewrite len_app. }
  change (index f OFFSET_FLAGS) with (@eret BleSarReassembler (fault BleSarError) _ e).
  change (index f OFFSET_RESERVED) with (@eret BleSarReassembler (fault BleSarError) _ r).
  change (field f OFFSET_SEQUENCE) with
    (@eret BleSarReassembler (fault BleSarError) _ (be_value [c; d])).
  change (field f OFFSET_TOTAL) with
    (@eret BleSarReassembler (fault BleSarError) _ (be_value [a; b])).
  unfold ebind, eret, eraise, efail.
  repeat match goal with
    | |- context [if ?b then _ else _] =>
        lazymatch b with context [if _ then _ else _] => fail | _ => destruct b eqn:? end
    end; to_prop;
    try (left; split; [by eexists|]; intros (H5 & H4 & Hp & Hs & Ht);
         change (frag_flags f) with e in H4; change (frag_payload f) with rest in Hp;
         change (frag_sequence f) with (be_value [c; d]) in Hs;
         change (frag_total f) with (be_value [a; b]) in Ht; change (f !! 5%nat) with (Some r) in H5;
         unfold BLE_SAR_HEADER_SIZE in *; first [congruence | lia | unfold legal_flags in H4; congruence]).
  right. split; [done|]. split.
  - unfold admissible, BLE_SAR_HEADER_SIZE in *. change (frag_payload f) with rest.
    change (frag_sequence f) with (be_value [c; d]). change (frag_total f) with (be_value [a; b]).
    pose proof (len_nonneg rest). split; [lia|]. split; [lia|done].
  - exact (get_range_suffix [a; b; c; d; e; r] rest).
Qed.

(** ** Lemmas: the receive machine *)

Lemma check_timer_cases now st :
  check_timer now st = (Err (Raised ReassemblyTimeout), BleSarReassembler_new)
  \/ check_timer now st = (Ok tt, st) /\ (forall d, deadline st = Some d -> now < d).
Proof.
  unfold check_timer. destruct (deadline st) as [d|]; [|right; done].
  rewrite Z.geb_leb. destruct (d <=? now) eqn:E; [by left|]. to_prop.
  right. split; [done|]. intros d' [= <-]. done.
Qed.

(** What [receive] does with a fragment that passes the timer and the header. *)
Definition advance (f : bytes) (now : Z) : sar (option bytes) := fun st =>
  if is_idle st then begin (frag_header f) (frag_payload f) now st
  else continue_frame (frag_header f) (frag_payload f) st.

Lemma receive_cases f capacity now st :
  (exists e, receive f capacity now st = (Err (Raised e), BleSarReassembler_new))
  \/ (admissible capacity f /\ (forall d, deadline st = Some d -> now < d)
      /\ exists o st', advance f now st = (Ok o, st') /\ receive f capacity now st = (Ok o, st')).
Proof.
  unfold receive, accept, ebind.
  destruct (check_timer_cases now st) as [->|[-> Ht]]; [left; by eexists|].
  destruct (header_cases f capacity st) as [[(e & ->) _]|(-> & Ha & Hp)]; [left; by eexists|].
  unfold or_panic. rewrite Hp.
  change (if is_idle st then begin (frag_header f) (frag_payload f) now st
          else continue_frame (frag_header f) (frag_payload f) st) with (advance f now st).
  destruct (advance f now st) as [[o|e] st'] eqn:E.
  { right. split; [done|]. split; [done|]. by exists o, st'. }
  left. cbn [is_ok reset snd]. destruct e as [e|]; [by exists e|]. exfalso. revert E.
  unfold advance, begin, continue_frame, eraise, efail, ebind, reset, eret.
  repeat case_if; done.
Qed.

Lemma receive_well_formed f capacity now st o st' :
  well_formed capacity f -> (forall d, deadline st = Some d -> now < d) ->
  advance f now st = (Ok o, st') -> receive f capacity now st = (Ok o, st').
Proof.
  intros Hw Ht Ha. unfold receive, accept, ebind.
  destruct (header_cases f capacity st) as [[_ Hn]|(Hh & _ & Hp)]; [done|].
  assert (check_timer now st = (Ok tt, st)) as Hc.
  { unfold check_timer. destruct (deadline st) as [d|] eqn:Ed; [|done]. specialize (Ht _ eq_refl).
    rewrite Z.geb_leb. by if_false. }
  rewrite Hc, Hh. unfold or_panic. rewrite Hp. unfold advance in Ha. by rewrite Ha.
Qed.

(** The fragments of one frame, each with its arrival time: one total, numbers
    from zero, and everything after the first before the deadline. *)
Definition frame_of (T d : Z) (fs : list (bytes * Z)) : Prop :=
  forall i x, fs !! i = Some x ->
    frag_total x.1 = T /\ frag_sequence x.1 = Z.of_nat i /\ ((0 < i)%nat -> x.2 < d).

Definition payloads (fs : list (bytes * Z)) : bytes := concat ((fun x => frag_payload x.1) <$> fs).

Definition timeout_of (t0 : Z) : Z := saturating_add U64_MAX t0 BLE_SAR_REASSEMBLY_TIMEOUT_MS.

Definition deadline_of (fs : list (bytes * Z)) : Z :=
  match fs with
  | (_, t0) :: _ => timeout_of t0
  | [] => 0
  end.

(** The machine that has taken the fragments [fs] of the frame in progress. *)
Definition holds (fs : list (bytes * Z)) (st : BleSarReassembler) : Prop :=
  match fs with
  | [] => st = BleSarReassembler_new
  | (f0, _) :: _ =>
      frame_of (frag_total f0) (deadline_of fs) fs
      /\ st = mkReassembler (len fs) (frag_total f0) (payloads fs) (Some (deadline_of fs))
      /\ 64 <= len (payloads fs) <= frag_total f0 /\ frag_total f0 <= U16_MAX
  end.

Lemma frame_of_snoc T d fs x :
  frame_of T d fs -> frag_total x.1 = T -> frag_sequence x.1 = len fs ->
  (fs <> [] -> x.2 < d) -> frame_of T d (fs ++ [x]).
Proof.
  intros Hf HT Hs Ht i y [[Hi Hy]|[-> ->]]%lookup_snoc_Some; [by apply Hf|].
  split_and!; [done|done|]. intros H0. apply Ht. intros ->. cbn in H0. lia.
Qed.

Lemma payloads_snoc fs x : payloads (fs ++ [x]) = payloads fs ++ frag_payload x.1.
Proof. unfold payloads. rewrite fmap_app, concat_app. cbn. by rewrite app_nil_r. Qed.

(** One fragment given to a machine that holds [fs]. *)
Definition step_ok (fs : list (bytes * Z)) (f : bytes) (now : Z)
    (r : result (fault BleSarError) (option bytes) * BleSarReassembler) : Prop :=
  let all := fs ++ [(f, now)] in
  match r with
  | (Ok None, st') => holds all st'
  | (Ok (Some m), st') =>
      st' = BleSarReassembler_new /\ m = payloads all
      /\ frame_of (len m) (deadline_of all) all /\ 1 <= len m <= U16_MAX
  | (Err (Raised _), st') => st' = BleSarReassembler_new
  | (Err Panicked, _) => False
  end.

Lemma frag_total_bound f : all_bytes f -> 0 <= frag_total f <= U16_MAX.
Proof.
  intros Hf. unfold frag_total. pose proof (be_value_bound (take 2 f)) as H.
  assert (all_bytes (take 2 f)) as Ht by by apply Forall_take. specialize (H Ht).
  assert (len (take 2 f) <= 2) as Hl by (unfold len; rewrite length_take; lia).
  pose proof (Z.pow_le_mono_r 256 (len (take 2 f)) 2 ltac:(lia) Hl). unfold U16_MAX. lia.
Qed.

Lemma begin_step f now capacity :
  all_bytes f -> admissible capacity f ->
  forall o st', begin (frag_header f) (frag_payload f) now BleSarReassembler_new = (Ok o, st') ->
  step_ok [] f now (Ok o, st').
Proof.
  intros Hb (Hp & Hs & Ht) o st'. pose proof (frag_total_bound f Hb) as HT.
  unfold begin, eraise, efail. cbn [flags total sequence frag_header buffer BleSarReassembler_new app].
  destruct (negb _ || negb _) eqn:E0; [done|]. apply orb_false_iff in E0 as [E0 Es]. to_prop.
  assert (frame_of (frag_total f) (timeout_of now) [(f, now)]) as Hf.
  { apply (frame_of_snoc _ _ []); [intros i x; by rewrite lookup_nil|done|done|done]. }
  assert (payloads [(f, now)] = frag_payload f) as Hpay by (unfold payloads; cbn; by rewrite app_nil_r).
  destruct (frag_flags f =? FLAG_SINGLE) eqn:Ef.
  - destruct (negb _) eqn:El; [done|]. intros [= <- <-]. to_prop. cbn [step_ok app deadline_of].
    rewrite Hpay, <- El. split_and!; [done|done|done|lia|lia].
  - rewrite Z.geb_leb. destruct (_ <? _) eqn:E1; [done|]. destruct (_ <=? _) eqn:E2; [done|].
    intros [= <- <-]. to_prop. cbn [step_ok app holds deadline_of]. rewrite Hpay.
    split_and!; [done|done|unfold BLE_SAR_MINIMUM_NON_FINAL_PAYLOAD in *; lia|lia|lia].
Qed.

Lemma continue_step fs f now capacity st :
  holds fs st -> fs <> [] -> admissible capacity f ->
  (forall d, deadline st = Some d -> now < d) ->
  forall o st', continue_frame (frag_header f) (frag_payload f) st = (Ok o, st') ->
  step_ok fs f now (Ok o, st').
Proof.
  intros Hh Hne (Hp & Hs & Ht) Hd o st'. destruct fs as [|[f0 t0] fs]; [done|].
  remember ((f0, t0) :: fs) as all eqn:Eall. cbn [holds] in Hh.
  assert (frame_of (frag_total f0) (deadline_of all) all
    /\ st = mkReassembler (len all) (frag_total f0) (payloads all) (Some (deadline_of all))
    /\ 64 <= len (payloads all) <= frag_total f0 /\ frag_total f0 <= U16_MAX)
    as (Hf & -> & Hl & Hu) by (rewrite Eall in *; exact Hh).
  specialize (Hd _ eq_refl). unfold continue_frame, eraise, efail, ebind, reset, eret.
  cbn [flags total sequence frag_header buffer expected_total expected_sequence deadline].
  rewrite !Z.gtb_ltb.
  destruct (negb _ && negb _) eqn:E0; [done|]. destruct (negb (frag_total f =? _)) eqn:E1; [done|].
  destruct (negb (frag_sequence f =? _)) eqn:E2; [done|].
  destruct (negb _ && (_ <? _)) eqn:E3; [done|]. destruct (frag_total f0 <? _) eqn:E4; [done|]. to_prop.
  assert (frame_of (frag_total f0) (deadline_of all) (all ++ [(f, now)])) as Hf'
    by (by apply frame_of_snoc).
  assert (deadline_of (all ++ [(f, now)]) = deadline_of all) as Hdl by by rewrite Eall.
  destruct (negb (frag_flags f =? FLAG_LAST)) eqn:E5.
  - intros [= <- <-]. rewrite Eall in *. cbn [step_ok app holds].
    change ((f0, t0) :: fs ++ [(f, now)]) with (((f0, t0) :: fs) ++ [(f, now)]) in *.
    rewrite Hdl, payloads_snoc, !len_app. cbn [fst].
    split_and!; [done|done|lia|lia|done].
  - destruct (negb (len _ =? _)) eqn:E6; [done|]. intros [= <- <-]. to_prop. cbn [step_ok].
    rewrite Hdl, payloads_snoc. cbn [fst]. rewrite E6. split_and!; [done|done|done|lia|done].
Qed.

Lemma receive_step fs f capacity now st :
  holds fs st -> all_bytes f -> step_ok fs f now (receive f capacity now st).
Proof.
  intros Hh Hb.
  destruct (receive_cases f capacity now st) as [(e & ->)|(Ha & Hd & o & st' & He & ->)]; [done|].
  destruct fs as [|x fs].
  - cbn in Hh. subst st. by eapply begin_step.
  - eapply continue_step; [done|done|done|done|].
    unfold advance in He. destruct (is_idle st) eqn:Ei; [|done]. exfalso.
    destruct x as [f0 t0]. destruct Hh as (_ & -> & _). unfold is_idle in Ei. cbn in Ei.
    rewrite len_cons in Ei. pose proof (len_nonneg fs). to_prop. lia.
Qed.

(** Everything that can happen to a machine, with the fragments it has taken
    for the frame in progress. *)
Inductive reach : list (bytes * Z) -> BleSarReassembler -> Prop :=
  | reach_new : reach [] BleSarReassembler_new
  | reach_more fs st f capacity now st' :
      reach fs st -> all_bytes f -> receive f capacity now st = (Ok None, st') ->
      reach (fs ++ [(f, now)]) st'
  | reach_complete fs st f capacity now m st' :
      reach fs st -> all_bytes f -> receive f capacity now st = (Ok (Some m), st') -> reach [] st'
  | reach_refused fs st f capacity now e st' :
      reach fs st -> all_bytes f -> receive f capacity now st = (Err e, st') -> reach [] st'
  | reach_timer fs st now st' :
      reach fs st -> check_timer now st = (Ok tt, st') -> reach fs st'
  | reach_timeout fs st now e st' :
      reach fs st -> check_timer now st = (Err e, st') -> reach [] st'
  | reach_reset fs st : reach fs st -> reach [] (snd (reset st)).

Lemma reach_holds fs st : reach fs st -> holds fs st.
Proof.
  induction 1 as [|fs st f capacity now st' _ IH Hb E|fs st f capacity now m st' _ IH Hb E
    |fs st f capacity now e st' _ IH Hb E|fs st now st' _ IH E|fs st now e st' _ IH E|]; [done|..|done].
  - pose proof (receive_step fs f capacity now st IH Hb) as Hs. by rewrite E in Hs.
  - pose proof (receive_step fs f capacity now st IH Hb) as Hs. rewrite E in Hs. by destruct Hs as (-> & _).
  - pose proof (receive_step fs f capacity now st IH Hb) as Hs. rewrite E in Hs. by destruct e.
  - destruct (check_timer_cases now st) as [Hc|[Hc _]]; rewrite Hc in E; by simplify_eq.
  - destruct (check_timer_cases now st) as [Hc|[Hc _]]; rewrite Hc in E; by simplify_eq.
Qed.

(** ** Lemmas: what the sender writes *)

Lemma fragment_fields T n fl p :
  is_u16 T -> is_u16 n ->
  frag_total (fragment T n fl p) = T /\ frag_sequence (fragment T n fl p) = n
  /\ frag_flags (fragment T n fl p) = fl /\ frag_payload (fragment T n fl p) = p.
Proof.
  intros HT Hn. unfold frag_total, frag_sequence, fragment.
  split_and!; [| |done|done].
  - rewrite take_app_length' by done. apply be_value_be_bytes. ulia.
  - rewrite drop_app_length' by done. rewrite take_app_length' by done.
    apply be_value_be_bytes. ulia.
Qed.

Lemma chunks_fuel_step {A} fuel n (l : list A) :
  l <> [] -> chunks_fuel (S fuel) n l = take n l :: chunks_fuel fuel n (drop n l).
Proof. by destruct l. Qed.

Lemma chunks_fuel_nil {A} fuel n : chunks_fuel fuel n (@nil A) = [].
Proof. by destruct fuel. Qed.

(** How many pieces a message is cut into. *)
Lemma chunks_count {A} fuel n (l : list A) :
  0 < n -> (length l <= fuel)%nat -> l <> [] ->
  (len (chunks_fuel fuel (Z.to_nat n) l) - 1) * n < len l.
Proof.
  intros Hn. revert l. induction fuel as [|fuel IH]; intros l Hf Hl.
  { destruct l; [done|cbn in Hf; lia]. }
  rewrite chunks_fuel_step by done. rewrite len_cons.
  destruct (drop (Z.to_nat n) l) as [|x d] eqn:Ed.
  { rewrite chunks_fuel_nil, (@len_nil (list A)). destruct l; [done|]. rewrite len_cons. pose proof (len_nonneg l). lia. }
  assert (len (x :: d) = len l - n) as Hd.
  { assert (length (x :: d) = (length l - Z.to_nat n)%nat) as Hd by by rewrite <- Ed, length_drop.
    cbn in Hd. unfold len. cbn. lia. }
  assert (length (x :: d) <= fuel)%nat as Hf' by (unfold len in Hd; lia).
  specialize (IH _ Hf' ltac:(done)). lia.
Qed.

(** ** Lemmas: the round trip *)

Fixpoint receive_all (l : list (bytes * Z)) (capacity : Z) : sar (list (option bytes)) :=
  match l with
  | [] => eret []
  | (f, now) :: rest =>
      do? o <- receive f capacity now;;
      do? os <- receive_all rest capacity;;
      eret (o :: os)
  end.

Lemma receive_all_cons f now rest capacity st o st' :
  receive f capacity now st = (Ok o, st') ->
  receive_all ((f, now) :: rest) capacity st =
    match receive_all rest capacity st' with
    | (Ok os, st'') => (Ok (o :: os), st'')
    | (Err e, st'') => (Err e, st'')
    end.
Proof. intros E. cbn [receive_all]. unfold ebind. by rewrite E. Qed.

Lemma fragment_well_formed T n fl p capacity :
  is_u16 T -> T <> 0 -> 0 <= n < BLE_SAR_SEQUENCE_LIMIT ->
  existsb (Z.eqb fl) legal_flags = true -> 1 <= len p <= capacity ->
  well_formed capacity (fragment T n fl p).
Proof.
  intros HT H0 Hn Hfl Hp. unfold BLE_SAR_SEQUENCE_LIMIT in Hn.
  destruct (fragment_fields T n fl p HT ltac:(ulia)) as (E1 & E2 & E3 & E4).
  unfold well_formed, admissible. rewrite E1, E2, E3, E4.
  split_and!; [done|done|lia|lia|unfold BLE_SAR_SEQUENCE_LIMIT; lia|done].
Qed.

Section Frame.
Context (T capacity d : Z).
Hypothesis HT : is_u16 T.
Hypothesis Hcap : BLE_SAR_MINIMUM_NON_FINAL_PAYLOAD <= capacity.

(** One piece of a frame in progress. *)
Lemma continue_received n b p fl now :
  1 <= n < BLE_SAR_SEQUENCE_LIMIT -> 1 <= len p <= capacity -> len b + len p <= T -> now < d ->
  (fl = FLAG_CONT /\ len p = capacity) \/ (fl = FLAG_LAST /\ len b + len p = T) ->
  receive (fragment T n fl p) capacity now (mkReassembler n T b (Some d)) =
    (if fl =? FLAG_LAST then (Ok (Some (b ++ p)), BleSarReassembler_new)
     else (Ok None, mkReassembler (n + 1) T (b ++ p) (Some d))).
Proof.
  intros Hn Hp Hb Hnow Hfl. pose proof (len_nonneg b).
  destruct (fragment_fields T n fl p HT ltac:(unfold BLE_SAR_SEQUENCE_LIMIT in *; ulia)) as (E1 & E2 & E3 & E4).
  assert (well_formed capacity (fragment T n fl p)) as Hw.
  { apply fragment_well_formed; [done|lia|lia| |done]. by destruct Hfl as [[-> _]|[-> _]]. }
  assert (is_idle (mkReassembler n T b (Some d)) = false) as Hi.
  { unfold is_idle. cbn. replace (n =? 0) with false by lia. done. }
  assert (forall d', deadline (mkReassembler n T b (Some d)) = Some d' -> now < d') as Ht
    by (by intros d' [= <-]).
  destruct Hfl as [[-> Hl]|[-> Hl]].
  all: apply receive_well_formed; [done|done|]; unfold advance; rewrite Hi;
    unfold continue_frame, frag_header; rewrite E1, E2, E3, E4;
    cbn [flags total sequence buffer expected_total expected_sequence deadline];
    rewrite !Z.eqb_refl, Z.gtb_ltb.
  - cbn [negb andb]. change (FLAG_CONT =? FLAG_LAST) with false. cbn [negb andb].
    replace (len p <? _) with false by (unfold BLE_SAR_MINIMUM_NON_FINAL_PAYLOAD in *; lia).
    by replace (T <? _) with false by lia.
  - cbn [negb andb]. replace (T <? _) with false by lia.
    rewrite len_app. by replace (_ =? T) with true by lia.
Qed.

Lemma cont_received n b p now :
  1 <= n < BLE_SAR_SEQUENCE_LIMIT -> len p = capacity -> len b + len p <= T -> now < d ->
  receive (fragment T n FLAG_CONT p) capacity now (mkReassembler n T b (Some d)) =
    (Ok None, mkReassembler (n + 1) T (b ++ p) (Some d)).
Proof.
  intros. unfold BLE_SAR_MINIMUM_NON_FINAL_PAYLOAD in Hcap.
  rewrite continue_received by (auto with lia). done.
Qed.

Lemma last_received n b p now :
  1 <= n < BLE_SAR_SEQUENCE_LIMIT -> 1 <= len p <= capacity -> len b + len p = T -> now < d ->
  receive (fragment T n FLAG_LAST p) capacity now (mkReassembler n T b (Some d)) =
    (Ok (Some (b ++ p)), BleSarReassembler_new).
Proof. intros. rewrite continue_received by (auto with lia). done. Qed.

(** The next piece of what is left: all of it, or a full one. *)
Lemma next_piece {A} fuel (rest : list A) :
  rest <> [] -> (length rest <= S fuel)%nat ->
  let k := Z.to_nat capacity in
  (drop k rest = [] /\ take k rest = rest /\ 1 <= len rest <= capacity)
  \/ (drop k rest <> [] /\ len (take k rest) = capacity
      /\ len rest = capacity + len (drop k rest)
      /\ (length (drop k rest) <= fuel)%nat /\ chunks_fuel fuel k (drop k rest) <> []).
Proof.
  unfold BLE_SAR_MINIMUM_NON_FINAL_PAYLOAD in Hcap. intros Hne Hf k.
  assert (0 < length rest)%nat by (destruct rest; [done|cbn; lia]).
  destruct (decide (length rest <= k)%nat) as [Hle|Hgt].
  - left. rewrite drop_ge, take_ge by done. unfold len, k in *. split_and!; [done|done|lia|lia].
  - right. assert (drop k rest <> []) as Hd.
    { intros Hd. apply (f_equal length) in Hd. rewrite length_drop in Hd. cbn in Hd. lia. }
    unfold len. rewrite length_take, length_drop. unfold k in *. split_and!; [done|lia|lia|lia|].
    destruct fuel as [|fuel]; [lia|]. by rewrite chunks_fuel_step.
Qed.

Lemma tail_received fuel last : forall rest n b ts,
  1 <= n -> rest <> [] -> (length rest <= fuel)%nat -> len b + len rest = T ->
  let ps := chunks_fuel fuel (Z.to_nat capacity) rest in
  n + len ps <= BLE_SAR_SEQUENCE_LIMIT -> last = n + len ps - 1 ->
  length ts = length ps -> Forall (fun t => t < d) ts ->
  receive_all
    (zip (enumerate_map n (fun s p => fragment T s (flags_at last s) p) ps) ts)
    capacity (mkReassembler n T b (Some d))
  = (Ok (replicate (length ps - 1) None ++ [Some (b ++ rest)]), BleSarReassembler_new).
Proof.
  induction fuel as [|fuel IH]; intros rest n b ts Hn Hne Hf Hl.
  { destruct rest; [done|cbn in Hf; lia]. }
  rewrite chunks_fuel_step by done. cbv zeta. rewrite len_cons. intros Hlim Hlast Hts Ht.
  destruct ts as [|t ts]; [done|]. apply Forall_cons in Ht as [Ht Hts']. injection Hts as Hts.
  destruct (next_piece fuel rest Hne Hf) as [(Ed & Htk & Hr)|(Hd & Hk & Hr & Hf' & Hps)];
    set (k := Z.to_nat capacity) in *.
  - rewrite Ed, chunks_fuel_nil in *. rewrite len_nil in *. rewrite Htk.
    cbn [enumerate_map zip zip_with]. unfold flags_at.
    replace (n =? 0) with false by lia. replace (n =? last) with true by lia.
    by rewrite (receive_all_cons _ _ _ _ _ _ _ (last_received n b rest t ltac:(lia) Hr Hl Ht)).
  - set (ps := chunks_fuel fuel k (drop k rest)) in *.
    assert (1 <= len ps) by (destruct ps; [done|rewrite len_cons; pose proof (len_nonneg ps); lia]).
    pose proof (len_nonneg (drop k rest)). cbn [enumerate_map zip zip_with]. unfold flags_at at 1.
    replace (n =? 0) with false by lia. replace (n =? last) with false by lia.
    rewrite (receive_all_cons _ _ _ _ _ _ _ (cont_received n b _ t ltac:(lia) Hk ltac:(lia) Ht)).
    pose proof (IH (drop k rest) (n + 1) (b ++ take k rest) ts ltac:(lia) Hd Hf'
      ltac:(rewrite len_app; lia)) as Hih. cbv zeta in Hih. fold k ps in Hih.
    rewrite (Hih ltac:(lia) ltac:(lia) Hts Hts').
    rewrite <- app_assoc, take_drop. cbn [length].
    by replace (S (length ps) - 1)%nat with (S (length ps - 1)) by (destruct ps; [done|cbn; lia]).
Qed.

End Frame.

Lemma payload_capacity_range mtu limit capacity :
  payload_capacity mtu limit = Ok capacity ->
  BLE_SAR_MINIMUM_NON_FINAL_PAYLOAD <= capacity
  /\ capacity + BLE_SAR_HEADER_SIZE <= Z.min (mtu - ATT_HEADER_SIZE) ATTRIBUTE_VALUE_LIMIT
  /\ (forall l, limit = Some l -> capacity + BLE_SAR_HEADER_SIZE <= l).
Proof.
  unfold payload_capacity, checked_sub. case_if; [done|]. cbv zeta.
  set (v := match limit with Some _ => _ | None => _ end).
  assert (v <= Z.min (mtu - ATT_HEADER_SIZE) ATTRIBUTE_VALUE_LIMIT
          /\ forall l, limit = Some l -> v <= l) as [Hv Hl]
    by (unfold v; destruct limit; split; [lia|intros l [= <-]; lia|lia|done]).
  destruct (BLE_SAR_HEADER_SIZE <=? v) eqn:E1; [|done]. cbn [ok_or rbind].
  destruct (_ <? _) eqn:E2; [done|]. intros [= <-]. to_prop.
  split_and!; [done|lia|]. intros l Hs. specialize (Hl l Hs). lia.
Qed.

Lemma begin_received T capacity p now :
  is_u16 T -> len p = capacity -> BLE_SAR_MINIMUM_NON_FINAL_PAYLOAD <= capacity -> capacity < T ->
  receive (fragment T 0 FLAG_FIRST p) capacity now BleSarReassembler_new
  = (Ok None, mkReassembler 1 T p (Some (timeout_of now))).
Proof.
  intros HT Hp Hc Hlt. unfold BLE_SAR_MINIMUM_NON_FINAL_PAYLOAD in Hc.
  destruct (fragment_fields T 0 FLAG_FIRST p HT ltac:(done)) as (E1 & E2 & E3 & E4).
  apply receive_well_formed; [apply fragment_well_formed; [done|lia|done|done|lia]|done|].
  unfold advance. cbn [is_idle BleSarReassembler_new expected_sequence buffer is_empty Z.eqb andb].
  unfold begin, frag_header. rewrite E1, E2, E3, E4. cbn [flags total sequence buffer app].
  change (FLAG_FIRST =? FLAG_FIRST) with true. change (FLAG_FIRST =? FLAG_SINGLE) with false.
  rewrite Z.geb_leb. unfold BLE_SAR_MINIMUM_NON_FINAL_PAYLOAD. cbn [negb orb Z.eqb].
  replace (len p <? 64) with false by lia. by replace (T <=? len p) with false by lia.
Qed.

Lemma single_received p capacity now :
  1 <= len p <= capacity -> len p <= U16_MAX ->
  receive (fragment (len p) 0 FLAG_SINGLE p) capacity now BleSarReassembler_new
  = (Ok (Some p), BleSarReassembler_new).
Proof.
  intros Hp Hu. assert (is_u16 (len p)) as HT by ulia.
  destruct (fragment_fields (len p) 0 FLAG_SINGLE p HT ltac:(done)) as (E1 & E2 & E3 & E4).
  apply receive_well_formed; [apply fragment_well_formed; [done|lia|done|done|lia]|done|].
  unfold advance. cbn [is_idle BleSarReassembler_new expected_sequence buffer is_empty Z.eqb andb].
  unfold begin, frag_header. rewrite E1, E2, E3, E4. cbn [flags total sequence].
  change (FLAG_SINGLE =? FLAG_FIRST) with false. change (FLAG_SINGLE =? FLAG_SINGLE) with true.
  rewrite !Z.eqb_refl. done.
Qed.

(** The fragments of a long message, received in time. *)
Lemma long_received message capacity t0 ts :
  BLE_SAR_MINIMUM_NON_FINAL_PAYLOAD <= capacity -> capacity < len message <= U16_MAX ->
  let ps := chunks (Z.to_nat capacity) message in
  S (length ts) = length ps -> Forall (fun t => t < timeout_of t0) ts ->
  receive_all
    (zip (enumerate_map 0 (fun s p => fragment (len message) s (flags_at (len ps - 1) s) p) ps)
         (t0 :: ts)) capacity BleSarReassembler_new
  = (Ok (replicate (length ps - 1) None ++ [Some message]), BleSarReassembler_new).
Proof.
  intros Hc Hl ps Hts Ht. unfold BLE_SAR_MINIMUM_NON_FINAL_PAYLOAD in *.
  assert (message <> []) as Hne by (intros ->; rewrite len_nil in Hl; lia).
  pose proof (chunks_count (length message) capacity message ltac:(lia) ltac:(lia) Hne) as Hcount.
  fold (chunks (Z.to_nat capacity) message) in Hcount. fold ps in Hcount.
  assert (len ps <= BLE_SAR_SEQUENCE_LIMIT) as Hlim by (unfold U16_MAX, BLE_SAR_SEQUENCE_LIMIT in *; nia).
  unfold ps, chunks in *. destruct (length message) as [|fuel] eqn:Ef; [by destruct message|].
  rewrite chunks_fuel_step in * by done.
  destruct (next_piece capacity ltac:(done) fuel message Hne ltac:(lia)) as [(_ & _ & H)|(Hd & Hk & Hr & Hf & Hps)]; [lia|].
  set (k := Z.to_nat capacity) in *. set (qs := chunks_fuel fuel k (drop k message)) in *.
  rewrite len_cons in *. cbn [enumerate_map zip zip_with length] in *. injection Hts as Hts.
  change (flags_at _ 0) with FLAG_FIRST.
  rewrite (receive_all_cons _ _ _ _ _ _ _ (begin_received (len message) capacity _ t0 ltac:(ulia) Hk Hc ltac:(lia))).
  pose proof (tail_received (len message) capacity (timeout_of t0) ltac:(ulia) Hc fuel (1 + len qs - 1)
    (drop k message) 1 (take k message) ts ltac:(lia) Hd Hf ltac:(lia)) as Htail.
  cbv zeta in Htail. fold k qs in Htail. change (0 + 1) with 1.
  rewrite (Htail ltac:(lia) eq_refl Hts Ht), take_drop.
  by replace (S (length qs) - 1)%nat with (S (length qs - 1)) by (destruct qs; [done|cbn; lia]).
Qed.

Lemma length_enumerate_map {A B} n (f : Z -> A -> B) l : length (enumerate_map n f l) = length l.
Proof. revert n. induction l as [|x l IH]; intros n; cbn; [done|]. by rewrite IH. Qed.

Lemma enumerate_map_forall {A B} (P : A -> Prop) (Q : B -> Prop) f l :
  Forall P l -> (forall i x, P x -> Q (f i x)) -> forall n : Z, Forall Q (enumerate_map n f l).
Proof. intros Hl Hf. induction Hl as [|x l Hx Hl IH]; intros n; cbn; constructor; auto. Qed.

Lemma len_fragment T n fl p : len (fragment T n fl p) = BLE_SAR_HEADER_SIZE + len p.
Proof.
  unfold fragment, BLE_SAR_HEADER_SIZE. rewrite !len_app, !len_be_bytes. change (len [fl; 0]) with 2. lia.
Qed.

Lemma segment_ok message capacity :
  BLE_SAR_MINIMUM_NON_FINAL_PAYLOAD <= capacity <= ATTRIBUTE_VALUE_LIMIT - BLE_SAR_HEADER_SIZE ->
  1 <= len message <= U16_MAX ->
  segment message capacity =
    Ok (if len message <=? capacity then [fragment (len message) 0 FLAG_SINGLE message]
        else let ps := chunks (Z.to_nat capacity) message in
             enumerate_map 0 (fun s p => fragment (len message) s (flags_at (len ps - 1) s) p) ps).
Proof.
  intros Hc Hl. unfold segment.
  replace ((BLE_SAR_MINIMUM_NON_FINAL_PAYLOAD <=? capacity) && (_ <=? _)) with true by lia.
  cbn [negb].
  rewrite is_empty_len, Z.gtb_ltb. unfold BLE_SAR_MAXIMUM_MESSAGE.
  replace (len message =? 0) with false by lia. replace (_ <? len message) with false by lia.
  cbn [orb]. by case_if.
Qed.

(** ** Properties *)

(** (round trip) A message of 1 to 65,535 bytes, cut for any negotiated
    link the profile accepts, becomes fragments that each fit one attribute
    value; a machine given them in order, all within the reassembly time of
    the first, returns nothing until the last and then exactly the message,
    and is ready for the next frame. *)
Theorem ble_sar_round_trip (mtu : Z) (limit : option Z) (capacity : Z) (message : bytes) :
  payload_capacity mtu limit = Ok capacity -> 1 <= len message <= U16_MAX ->
  exists frs, segment message capacity = Ok frs
    /\ Forall (fun f => len f <= Z.min (mtu - ATT_HEADER_SIZE) ATTRIBUTE_VALUE_LIMIT) frs
    /\ forall t0 ts, S (length ts) = length frs -> Forall (fun t => t < timeout_of t0) ts ->
        receive_all (zip frs (t0 :: ts)) capacity BleSarReassembler_new
        = (Ok (replicate (length frs - 1) None ++ [Some message]), BleSarReassembler_new).
Proof.
  intros (Hc & Hv & _)%payload_capacity_range Hl. eexists.
  split; [apply segment_ok; [lia|done]|].
  destruct (len message <=? capacity) eqn:E; to_prop.
  - split; [constructor; [rewrite len_fragment; lia|constructor]|].
    intros t0 [|] Hts _; [|done]. cbn [zip zip_with].
    by rewrite (receive_all_cons _ _ _ _ _ _ _ (single_received message capacity t0 ltac:(lia) ltac:(lia))).
  - cbv zeta. split.
    + apply (enumerate_map_forall (fun p : bytes => (length p <= Z.to_nat capacity)%nat));
        [apply chunks_fuel_bound|].
      intros i x Hx. rewrite len_fragment. unfold BLE_SAR_MINIMUM_NON_FINAL_PAYLOAD, len in *. lia.
    + rewrite length_enumerate_map. intros t0 ts Hts Ht. apply long_received; [done|lia|done|done].
Qed.

Lemma ble_sar_round_trip_witness :
  exists frs, segment (seqZ 0 200) 94 = Ok frs /\ length frs = 3%nat
    /\ receive_all (zip frs [7; 8; 5006]) 94 BleSarReassembler_new
       = (Ok [None; None; Some (seqZ 0 200)], BleSarReassembler_new).
Proof.
  destruct (ble_sar_round_trip 517 (Some 100) 94 (seqZ 0 200) eq_refl ltac:(by vm_compute))
    as (frs & Hs & _ & Hr).
  assert (Ok frs = segment (seqZ 0 200) 94) as Hfrs by by rewrite Hs.
  assert (length frs = 3%nat) as Hl.
  { change (length frs) with (length (match Ok (E:=BleSarError) frs with Ok x => x | Err _ => [] end)).
    rewrite Hfrs. by vm_compute. }
  exists frs. split; [done|]. split; [done|]. rewrite (Hr 7 [8; 5006]), Hl; [done|done|].
  constructor; [by vm_compute|constructor; [by vm_compute|constructor]].
Defined.

(** (safety) Whatever fragments arrive, of whatever connection and at
    whatever times, with the timer checked and the machine reset at any point:
    the machine holds exactly the payloads of the fragments taken for the
    frame in progress and never more than a frame's declared 65,535 bytes;
    the next fragment never makes it panic; a refused one leaves it empty; and
    a message handed up is exactly the payloads of fragments numbered 0, 1,
    2, ... that all declare its length, the later ones in time, after which
    the machine is empty. *)
Theorem ble_sar_any_fragments (fs : list (bytes * Z)) (st : BleSarReassembler) :
  reach fs st ->
  buffer st = payloads fs /\ len (buffer st) <= U16_MAX
  /\ (is_idle st = true <-> fs = [])
  /\ forall f capacity now, all_bytes f ->
      let all := fs ++ [(f, now)] in
      match receive f capacity now st with
      | (Ok None, st') => buffer st' = payloads all
      | (Ok (Some m), st') =>
          st' = BleSarReassembler_new /\ m = payloads all
          /\ frame_of (len m) (deadline_of all) all /\ 1 <= len m <= U16_MAX
      | (Err (Raised _), st') => st' = BleSarReassembler_new
      | (Err Panicked, _) => False
      end.
Proof.
  intros Hr%reach_holds. split_and!.
  - destruct fs as [|[f0 t0] fs]; [by rewrite Hr|]. by destruct Hr as (_ & -> & _).
  - destruct fs as [|[f0 t0] fs]; [by rewrite Hr|]. destruct Hr as (_ & -> & ? & ?). cbn in *. lia.
  - destruct fs as [|[f0 t0] fs]; [by rewrite Hr|]. destruct Hr as (_ & -> & _). split; [|done].
    unfold is_idle. cbn [expected_sequence]. rewrite len_cons. pose proof (len_nonneg fs).
    intros H'. to_prop. lia.
  - intros f capacity now Hb all. pose proof (receive_step fs f capacity now st Hr Hb) as Hs.
    destruct (receive f capacity now st) as [[[m|]|[e|]] st']; [done| |done|done].
    cbn in Hs. fold all in Hs. destruct all as [|[f1 t1] all']; [by rewrite Hs|]. by destruct Hs as (_ & -> & _).
Qed.

(** A first fragment, then a fragment of another frame. *)
Lemma ble_sar_any_fragments_witness :
  let first := fragment 200 0 FLAG_FIRST (seqZ 0 94) in
  let st := snd (receive first 94 7 BleSarReassembler_new) in
  buffer st = seqZ 0 94 /\ receive (fragment 201 1 FLAG_LAST (seqZ 94 94)) 94 8 st
    = (Err (Raised TotalLengthChanged), BleSarReassembler_new).
Proof.
  intros first st. split; [|by vm_compute].
  assert (reach ([] ++ [(first, 7)]) st) as Hr.
  { apply (reach_more [] BleSarReassembler_new first 94 7 st reach_new).
    - apply all_bytesb_spec. by vm_compute.
    - by vm_compute. }
  etransitivity; [exact (proj1 (ble_sar_any_fragments _ st Hr))|]. by vm_compute.
Defined.

End BleSar.
