(* ===== verification/RappTimers.v ===== *)
(** * Clocks of the remote card protocol

    The liveness tracker of a session (crates/rapp/src/liveness.rs) and the
    admission of pairing attempts (crates/rapp/src/pairing_attempts.rs): the
    500 ms spacing of pre-authentication attempts and the one attempt slot of
    an offer.  Times are the caller's monotonic milliseconds, [u64] with the
    saturating arithmetic of the source.

    The theorems are about whole histories on a clock that does not go back:
    every decision of the tracker is determined by when the peer was last
    heard and last pinged; admitted attempts are spaced, refusals are owed to
    an attempt that is too recent, and one offer is consumed at most once. *)

From stdpp Require Import base list.
From Stdlib Require Import ZArith Lia.
From S2P Require Import Prelude.

Module Timers.

(** ** Liveness *)

Definition LIVENESS_PING_AFTER_SILENCE_MS : Z := 5000.
Definition SESSION_SILENCE_LIMIT_MS : Z := 30000.

(** A challenge is its 32 bytes. *)
Definition PingChallenge : Type := bytes.

Record LivenessTracker := mkTracker {
  last_heard_ms : Z;
  last_ping_ms : option Z;
  outstanding : option PingChallenge;
  closed : bool;
}.

Inductive LivenessDecision :=
  | NoAction
  | SendPing (challenge : PingChallenge)
  | CloseSession
  | AlreadyClosed.

Inductive PongDisposition := Accepted | IgnoredUnmatched.

Definition LivenessTracker_new (now_ms : Z) : LivenessTracker := mkTracker now_ms None None false.

Definition heard (now_ms : Z) (self : LivenessTracker) : LivenessTracker :=
  mkTracker now_ms None (outstanding self) (closed self).

Definition poll (now_ms : Z) (next_challenge : PingChallenge) (self : LivenessTracker) :
  LivenessDecision * LivenessTracker :=
  if closed self then (AlreadyClosed, self)
  else
    let silence := saturating_sub now_ms (last_heard_ms self) in
    if silence >=? SESSION_SILENCE_LIMIT_MS then
      (CloseSession,
       mkTracker (last_heard_ms self) (last_ping_ms self) (outstanding self) true)
    else
      let since_ping :=
        match last_ping_ms self with
        | Some ping => saturating_sub now_ms ping
        | None => silence
        end in
      if (silence >=? LIVENESS_PING_AFTER_SILENCE_MS)
         && (since_ping >=? LIVENESS_PING_AFTER_SILENCE_MS)
      then
        (SendPing next_challenge,
         mkTracker (last_heard_ms self) (Some now_ms) (Some next_challenge) (closed self))
      else (NoAction, self).

Definition receive_pong (now_ms : Z) (challenge : PingChallenge) (self : LivenessTracker) :
  PongDisposition * LivenessTracker :=
  if negb (bool_decide (outstanding self = Some challenge)) then (IgnoredUnmatched, self)
  else
    let self := mkTracker (last_heard_ms self) (last_ping_ms self) None (closed self) in
    (Accepted, heard now_ms self).

Definition close (self : LivenessTracker) : LivenessTracker :=
  mkTracker (last_heard_ms self) (last_ping_ms self) (outstanding self) true.

(** ** Attempt admission *)

Definition CPACE_ATTEMPT_WINDOW_MS : Z := 5000.
Definition PRE_AUTHENTICATION_SPACING_MS : Z := 500.

Definition phase_deadline_ms (start_ms window_ms : Z) : Z :=
  saturating_add U64_MAX start_ms window_ms.

(** [PreAuthenticationRateLimit]: the time of the last admitted attempt. *)
Record PreAuthenticationRateLimit := mkLimit { last_admitted_ms : option Z }.

Definition limit_admit (now_ms : Z) (self : PreAuthenticationRateLimit) :
  bool * PreAuthenticationRateLimit :=
  let recent :=
    match last_admitted_ms self with
    | Some last => saturating_sub now_ms last <? PRE_AUTHENTICATION_SPACING_MS
    | None => false
    end in
  if recent then (false, self) else (true, mkLimit (Some now_ms)).

Definition wait_ms (now_ms : Z) (self : PreAuthenticationRateLimit) : Z :=
  match last_admitted_ms self with
  | Some last => saturating_sub PRE_AUTHENTICATION_SPACING_MS (saturating_sub now_ms last)
  | None => 0
  end.

Record CpaceAttemptSlot := mkSlot { consumed : bool; active_deadline_ms : option Z }.

Definition is_consumed (self : CpaceAttemptSlot) : bool := consumed self.

Definition has_active_attempt (self : CpaceAttemptSlot) : bool :=
  bool_decide (is_Some (active_deadline_ms self)).

Definition accepts_another_attempt (self : CpaceAttemptSlot) : bool :=
  negb (consumed self) && negb (bool_decide (is_Some (active_deadline_ms self))).

Definition slot_admit (now_ms offer_expires_at_ms : Z) (self : CpaceAttemptSlot) :
  bool * CpaceAttemptSlot :=
  if negb (accepts_another_attempt self) || (now_ms >=? offer_expires_at_ms) then (false, self)
  else
    (true,
     mkSlot (consumed self)
       (Some (Z.min (saturating_add U64_MAX now_ms CPACE_ATTEMPT_WINDOW_MS)
                offer_expires_at_ms))).

Definition active_attempt_wait_ms (now_ms : Z) (self : CpaceAttemptSlot) : Z :=
  match active_deadline_ms self with
  | Some deadline => saturating_sub deadline now_ms
  | None => 0
  end.

Definition attempt_is_live (now_ms : Z) (self : CpaceAttemptSlot) : bool :=
  match active_deadline_ms self with
  | Some deadline => now_ms <? deadline
  | None => false
  end.

Definition end_active_attempt (self : CpaceAttemptSlot) : CpaceAttemptSlot :=
  mkSlot (consumed self) None.

Definition consume (self : CpaceAttemptSlot) : CpaceAttemptSlot := mkSlot true None.

(** ** Histories of a tracker *)

Inductive live_event :=
  | Heard (t : Z)
  | Polled (t : Z) (d : LivenessDecision)
  | Ponged (t : Z) (c : PingChallenge) (d : PongDisposition)
  | ClosedBy (t : Z).

Definition event_time (e : live_event) : Z :=
  match e with Heard t | Polled t _ | Ponged t _ _ | ClosedBy t => t end.

(** One call on the tracker, with what it returned. *)
Inductive live_step : LivenessTracker -> live_event -> LivenessTracker -> Prop :=
  | step_heard t tr : live_step tr (Heard t) (heard t tr)
  | step_poll t c tr : live_step tr (Polled t (poll t c tr).1) (poll t c tr).2
  | step_pong t c tr : live_step tr (Ponged t c (receive_pong t c tr).1) (receive_pong t c tr).2
  | step_close t tr : live_step tr (ClosedBy t) (close tr).

(** The history of a tracker, newest first, on a clock that does not go back. *)
Inductive live_run (t0 : Z) : list live_event -> Z -> LivenessTracker -> Prop :=
  | run_start : live_run t0 [] t0 (LivenessTracker_new t0)
  | run_step h now tr e tr' :
      live_run t0 h now tr -> live_step tr e tr' -> now <= event_time e ->
      live_run t0 (e :: h) (event_time e) tr'.

(** When the peer was last heard from: any message, or a matching pong. *)
Fixpoint last_contact (t0 : Z) (h : list live_event) : Z :=
  match h with
  | [] => t0
  | Heard t :: _ | Ponged t _ Accepted :: _ => t
  | _ :: rest => last_contact t0 rest
  end.

(** When the peer was last pinged or heard from. *)
Fixpoint last_activity (t0 : Z) (h : list live_event) : Z :=
  match h with
  | [] => t0
  | Heard t :: _ | Ponged t _ Accepted :: _ | Polled t (SendPing _) :: _ => t
  | _ :: rest => last_activity t0 rest
  end.

(** The challenge of the last ping, unless a pong has answered it. *)
Fixpoint awaited (h : list live_event) : option PingChallenge :=
  match h with
  | [] => None
  | Polled _ (SendPing c) :: _ => Some c
  | Ponged _ _ Accepted :: _ => None
  | _ :: rest => awaited rest
  end.

Fixpoint ended (h : list live_event) : bool :=
  match h with
  | [] => false
  | Polled _ CloseSession :: _ | ClosedBy _ :: _ => true
  | _ :: rest => ended rest
  end.

(** What the tracker keeps of its history. *)
Definition live_inv (t0 now : Z) (h : list live_event) (tr : LivenessTracker) : Prop :=
  last_heard_ms tr = last_contact t0 h
  /\ default (last_heard_ms tr) (last_ping_ms tr) = last_activity t0 h
  /\ outstanding tr = awaited h /\ closed tr = ended h
  /\ last_contact t0 h <= last_activity t0 h <= now.

Lemma live_run_inv t0 h now tr : live_run t0 h now tr -> live_inv t0 now h tr.
Proof.
  unfold live_inv. induction 1 as [|h now tr e tr' _ IH Hs Ht]; [cbn; split_and!; done || lia|].
  destruct IH as (Hh & Hp & Ho & Hc & Hl).
  destruct Hs as [t tr|t c tr|t c tr|t tr]; cbn [event_time] in *.
  - cbn. split_and!; [done|done|done|done|lia|lia].
  - unfold poll. destruct (closed tr) eqn:Ec; [|destruct (_ >=? _); [|destruct (_ && _)]]; cbn;
      rewrite ?Ec; split_and!; done || lia.
  - unfold receive_pong. case_bool_decide; cbn; split_and!; done || lia.
  - cbn. split_and!; [done..|lia|lia].
Qed.

(** The decision of [poll], from the history alone. *)
Definition expected_decision (t0 now : Z) (c : PingChallenge) (h : list live_event) :
  LivenessDecision :=
  if ended h then AlreadyClosed
  else if SESSION_SILENCE_LIMIT_MS <=? now - last_contact t0 h then CloseSession
  else if LIVENESS_PING_AFTER_SILENCE_MS <=? now - last_activity t0 h then SendPing c
  else NoAction.

Lemma poll_expected t0 now h tr t c :
  live_run t0 h now tr -> now <= t -> (poll t c tr).1 = expected_decision t0 t c h.
Proof.
  intros (Hh & Hp & Ho & Hc & Hl)%live_run_inv Ht. unfold poll, expected_decision. rewrite <- Hc.
  destruct (closed tr); [done|]. rewrite !Z.geb_leb, Hh. unfold saturating_sub.
  replace (Z.max 0 (t - last_contact t0 h)) with (t - last_contact t0 h) by lia.
  destruct (_ <=? _); [done|]. destruct (last_ping_ms tr) as [p|]; simpl in Hp.
  - subst p. rewrite Z.max_r by lia.
    destruct (LIVENESS_PING_AFTER_SILENCE_MS <=? t - last_activity t0 h) eqn:E; [|by rewrite andb_false_r].
    to_prop. rewrite andb_true_r. by replace (_ <=? _) with true by lia.
  - rewrite andb_diag, <- Hp, Hh. by case_if.
Qed.

(** The pings of a history are at least [LIVENESS_PING_AFTER_SILENCE_MS] apart. *)
Fixpoint ping_times (h : list live_event) : list Z :=
  match h with
  | [] => []
  | Polled t (SendPing _) :: rest => t :: ping_times rest
  | _ :: rest => ping_times rest
  end.

Fixpoint spaced (gap : Z) (l : list Z) : Prop :=
  match l with
  | t :: (t' :: _) as rest => t' + gap <= t /\ spaced gap rest
  | _ => True
  end.

Lemma ping_before_activity t0 h now tr :
  live_run t0 h now tr -> forall t rest, ping_times h = t :: rest -> t <= last_activity t0 h.
Proof.
  induction 1 as [|h now tr e tr' Hr IH Hs Ht]; [done|]. intros t rest.
  pose proof (live_run_inv _ _ _ _ Hr) as (_ & _ & _ & _ & Hl).
  destruct e as [u|u []|u c []|u]; cbn [ping_times last_activity event_time] in *; intros E;
    try (specialize (IH _ _ E)); simplify_eq; lia.
Qed.

Lemma polled_inv tr t d tr' : live_step tr (Polled t d) tr' -> exists c, (poll t c tr).1 = d.
Proof. intros H. remember (Polled t d) as e eqn:E. destruct H; simplify_eq. by eexists. Qed.

Lemma pings_spaced t0 h now tr :
  live_run t0 h now tr -> spaced LIVENESS_PING_AFTER_SILENCE_MS (ping_times h).
Proof.
  induction 1 as [|h now tr e tr' Hr IH Hs Ht]; [done|].
  destruct e as [u|u []|u c []|u]; cbn [ping_times]; try done.
  apply polled_inv in Hs as (c & E2). rewrite (poll_expected t0 now h tr u c Hr Ht) in E2.
  destruct (ping_times h) as [|t rest] eqn:Ep; [done|]. split; [|done].
  pose proof (ping_before_activity _ _ _ _ Hr _ _ Ep). unfold expected_decision in E2.
  destruct (ended h); [done|]. destruct (_ <=? _); [done|].
  destruct (LIVENESS_PING_AFTER_SILENCE_MS <=? _) eqn:E; [|done]. to_prop. lia.
Qed.

(** ** Histories of the admissions *)

(** The attempts offered to the limiter at the times [ts], oldest first: the
    times of those admitted. *)
Fixpoint admissions (ts : list Z) (l : PreAuthenticationRateLimit) : list Z :=
  match ts with
  | [] => []
  | t :: rest =>
      let '(ok, l) := limit_admit t l in
      if ok then t :: admissions rest l else admissions rest l
  end.

(** A clock that does not go back. *)
Fixpoint ascending (lo : Z) (ts : list Z) : Prop :=
  match ts with
  | [] => True
  | t :: rest => lo <= t /\ ascending t rest
  end.

(** Each time at least [gap] after the one before, the first after [lo]. *)
Fixpoint spaced_from (gap lo : Z) (ts : list Z) : Prop :=
  match ts with
  | [] => True
  | t :: rest => lo <= t /\ spaced_from gap (t + gap) rest
  end.

Lemma limit_admit_spec t last :
  last <= t ->
  limit_admit t (mkLimit (Some last)) =
    (if t - last <? PRE_AUTHENTICATION_SPACING_MS then (false, mkLimit (Some last))
     else (true, mkLimit (Some t))).
Proof.
  intros Ht. unfold limit_admit, saturating_sub. cbn [last_admitted_ms].
  by replace (Z.max 0 (t - last)) with (t - last) by lia.
Qed.

Lemma admissions_spaced ts lo last :
  last <= lo -> ascending lo ts ->
  spaced_from PRE_AUTHENTICATION_SPACING_MS (last + PRE_AUTHENTICATION_SPACING_MS)
    (admissions ts (mkLimit (Some last))).
Proof.
  revert lo last. induction ts as [|t ts IH]; intros lo last Hl Ha; cbn [admissions]; [done|].
  destruct Ha as [Hlt Ha]. rewrite limit_admit_spec by lia. case_if.
  - apply (IH t); [lia|done].
  - cbn [spaced_from]. split; [lia|]. apply (IH t); [lia|done].
Qed.

(** The attempt slot's calls. *)
Inductive slot_event := Admit (now expires : Z) (ok : bool) | EndFailed | Consume.

Inductive slot_run : list slot_event -> CpaceAttemptSlot -> Prop :=
  | slot_start : slot_run [] (mkSlot false None)
  | slot_admitted h s now expires :
      slot_run h s ->
      slot_run (Admit now expires (slot_admit now expires s).1 :: h) (slot_admit now expires s).2
  | slot_failed h s : slot_run h s -> slot_run (EndFailed :: h) (end_active_attempt s)
  | slot_consumed h s : slot_run h s -> slot_run (Consume :: h) (consume s).

Definition offer_consumed (h : list slot_event) : bool :=
  existsb (fun e => match e with Consume => true | _ => false end) h.

(** The attempt in progress: the last admitted one, unless it has ended. *)
Fixpoint attempt_in_progress (h : list slot_event) : option (Z * Z) :=
  match h with
  | [] => None
  | Admit now expires true :: _ => Some (now, expires)
  | EndFailed :: _ | Consume :: _ => None
  | Admit _ _ false :: rest => attempt_in_progress rest
  end.

Definition attempt_deadline (a : Z * Z) : Z :=
  Z.min (saturating_add U64_MAX a.1 CPACE_ATTEMPT_WINDOW_MS) a.2.

Lemma slot_run_inv h s :
  slot_run h s ->
  consumed s = offer_consumed h /\ active_deadline_ms s = attempt_deadline <$> attempt_in_progress h.
Proof.
  induction 1 as [|h s now expires _ [IHc IHa]|h s _ [IHc _]|h s _ _]; [done| |done|done].
  unfold slot_admit. destruct (_ || _); cbn; by rewrite ?IHc.
Qed.

(** ** Properties *)

(** (functional) Over any history of messages, polls, pongs and closes on a
    clock that does not go back, the tracker decides exactly by the clock: it
    ends the session once the peer has been silent for 30 seconds, and only
    then; it pings after 5 seconds without a message or a ping, so pings are
    never closer than that; once ended it stays ended; and it accepts a pong
    exactly when it answers the last ping, once. *)
Theorem liveness_decided_by_silence (t0 now : Z) (h : list live_event) (tr : LivenessTracker) :
  live_run t0 h now tr ->
  (forall t c, now <= t -> (poll t c tr).1 = expected_decision t0 t c h)
  /\ (forall t c, (receive_pong t c tr).1 = Accepted <-> awaited h = Some c)
  /\ spaced LIVENESS_PING_AFTER_SILENCE_MS (ping_times h).
Proof.
  intros Hr. split_and!.
  - intros t c. by apply poll_expected.
  - intros t c. apply live_run_inv in Hr as (_ & _ & <- & _). unfold receive_pong.
    by case_bool_decide.
  - by eapply pings_spaced.
Qed.

Lemma liveness_decided_by_silence_witness :
  let tr := (poll 5000 [7] (LivenessTracker_new 0)).2 in
  (poll 30000 [8] tr).1 = CloseSession /\ (poll 9999 [8] tr).1 = NoAction
  /\ (receive_pong 6000 [7] tr).1 = Accepted.
Proof.
  intros tr.
  assert (live_run 0 [Polled 5000 (SendPing [7])] 5000 tr) as Hr.
  { apply (run_step 0 [] 0 (LivenessTracker_new 0) (Polled 5000 (SendPing [7])));
      [constructor|exact (step_poll 5000 [7] (LivenessTracker_new 0))|by vm_compute]. }
  destruct (liveness_decided_by_silence 0 5000 _ tr Hr) as (Hp & Hq & _). split_and!.
  - rewrite Hp by lia. by vm_compute.
  - rewrite Hp by lia. by vm_compute.
  - by apply Hq.
Defined.

(** (safety) Pairing attempts are metered.  Offered at any times of a clock
    that does not go back, the admitted pre-authentication attempts are at
    least 500 ms apart, [wait_ms] is exactly the time until the next would be
    admitted; and the slot of an offer admits an attempt exactly when the
    offer is unexpired and unconsumed and no other attempt is in progress,
    gives it at most 5 s and never past the expiry, and after its
    consumption admits nothing. *)
Theorem pairing_attempts_metered (t0 : Z) (ts : list Z) (h : list slot_event) (s : CpaceAttemptSlot) :
  ascending t0 ts -> slot_run h s ->
  match admissions ts (mkLimit None) with
  | [] => ts = []
  | t :: rest => spaced_from PRE_AUTHENTICATION_SPACING_MS (t + PRE_AUTHENTICATION_SPACING_MS) rest
  end
  /\ (forall l now t, default now (last_admitted_ms l) <= now -> now <= t ->
       (limit_admit t l).1 = true <-> now + wait_ms now l <= t)
  /\ (forall now expires,
       (slot_admit now expires s).1 = true <->
       offer_consumed h = false /\ attempt_in_progress h = None /\ now < expires)
  /\ (forall now, attempt_is_live now s = true <->
       exists start expires, attempt_in_progress h = Some (start, expires)
         /\ now < saturating_add U64_MAX start CPACE_ATTEMPT_WINDOW_MS /\ now < expires).
Proof.
  intros Ha (Hc & Hd)%slot_run_inv. split_and!.
  - destruct ts as [|t ts]; [done|]. destruct Ha as [_ Ha]. cbn [admissions limit_admit last_admitted_ms].
    by apply (admissions_spaced ts t).
  - intros [[last|]] now t; simpl; unfold wait_ms; cbn [last_admitted_ms]; intros Hl Ht.
    + rewrite limit_admit_spec by lia. unfold saturating_sub, PRE_AUTHENTICATION_SPACING_MS.
      case_if; cbn [fst]; split; intros; done || lia.
    + split; [lia|done].
  - intros now expires. unfold slot_admit, accepts_another_attempt. rewrite Hc, Hd, Z.geb_leb.
    destruct (offer_consumed h), (attempt_in_progress h); cbn; try naive_solver.
    destruct (expires <=? now) eqn:E; cbn; to_prop; naive_solver lia.
  - intros now. unfold attempt_is_live. rewrite Hd.
    destruct (attempt_in_progress h) as [[start expires]|]; cbn; [|naive_solver].
    unfold attempt_deadline. cbn [fst snd]. rewrite Z.ltb_lt, Z.min_glb_lt_iff. naive_solver.
Qed.

Lemma pairing_attempts_metered_witness :
  admissions [1000; 1499; 1500; 1501; 2000] (mkLimit None) = [1000; 1500; 2000]
  /\ (slot_admit 1 100 (mkSlot false None)).1 = true.
Proof.
  assert (ascending 0 [1000; 1499; 1500; 1501; 2000]) as Ha by (cbn; lia).
  destruct (pairing_attempts_metered 0 _ [] _ Ha slot_start) as (_ & _ & Hs & _).
  split; [by vm_compute|]. by apply Hs.
Defined.

End Timers.
