(* ===== verification/Pkcs15TokenInfo.v ===== *)
(** * Token information: EF.TokenInfo and the chip serial

    crates/pkcs15/src/token_info.rs (the parser of EF.TokenInfo),
    token_serial.rs (the hex form of the chip serial, its rendering and the
    printed form) and the read of the file in fs.rs.  A [String] is its UTF-8
    bytes.

    The theorems: the parser reads back every field of an encoded file, an
    absent optional field never swallowing the next one; the hex form of a
    serial decodes to its bytes and the rendering tells two serials of the
    same kind apart. *)

From stdpp Require Import base list strings.
From Stdlib Require Import ZArith Lia.
From S2P Require Import Prelude BerTlv ApduStatus ApduCommand ApduIso7816 Pkcs15Fs Pkcs15Aod.

Module TokenInfo.
Import Ber Apdu Iso7816 Pkcs15 Aod.

(** ** The chip serial (token_serial.rs) *)

Definition HEX_CHARS_PER_BYTE : Z := 2.
Definition NIBBLE_BITS : Z := 4.
Definition LOW_NIBBLE_MASK : Z := 0x0F.
Definition HEX_LETTER_VALUE_OFFSET : Z := 10.
(** [b"0123456789abcdef"]. *)
Definition HEX_DIGITS : bytes :=
  [0x30; 0x31; 0x32; 0x33; 0x34; 0x35; 0x36; 0x37; 0x38; 0x39;
   0x61; 0x62; 0x63; 0x64; 0x65; 0x66].
Definition PRINTABLE_ASCII_MIN : Z := 0x20.
Definition PRINTABLE_ASCII_MAX : Z := 0x7E.
Definition PRINTED_SERIAL_CHARS : Z := 9.
Definition OLDER_FULL_SERIAL_CHARS : Z := 20.
Definition OLDER_PRINTED_START : Z := 10.

Definition between (lo hi b : Z) : bool := (lo <=? b) && (b <=? hi).

Definition nybble (byte : Z) : option Z :=
  if between 0x30 0x39 byte then Some (byte - 0x30)
  else if between 0x61 0x66 byte then Some (byte - 0x61 + HEX_LETTER_VALUE_OFFSET)
  else if between 0x41 0x46 byte then Some (byte - 0x41 + HEX_LETTER_VALUE_OFFSET)
  else None.

(** The loop over the pairs of [as_chunks]. *)
Fixpoint decode_pairs (text : bytes) : option bytes :=
  match text with
  | hi_char :: lo_char :: rest =>
      hi ← nybble hi_char;
      lo ← nybble lo_char;
      out ← decode_pairs rest;
      Some (Z.lor (Z.land (Z.shiftl hi NIBBLE_BITS) 255) lo :: out)
  | _ => Some []
  end.

Definition decoded_hex_bytes (text : bytes) : option bytes :=
  if negb (len text mod HEX_CHARS_PER_BYTE =? 0) then None else decode_pairs text.

(** [HEX_DIGITS[i]] for a nibble. *)
Definition hex_char (i : Z) : Z := default 0 (get HEX_DIGITS i).

Fixpoint hex_encode (bs : bytes) : bytes :=
  match bs with
  | [] => []
  | byte :: rest =>
      hex_char (Z.shiftr byte NIBBLE_BITS) :: hex_char (Z.land byte LOW_NIBBLE_MASK)
      :: hex_encode rest
  end.

Definition printable (bs : bytes) : bool :=
  forallb (between PRINTABLE_ASCII_MIN PRINTABLE_ASCII_MAX) bs.

(** Printable ASCII is UTF-8, so the [from_utf8] of the last guard succeeds. *)
Definition render_token_serial (hex_token : bytes) : bytes :=
  match decoded_hex_bytes hex_token with
  | Some bs => if negb (is_empty bs) && printable bs then bs else hex_token
  | None => hex_token
  end.

Definition is_ascii_alphabetic (b : Z) : bool := between 0x41 0x5A b || between 0x61 0x7A b.
Definition is_decimal (b : Z) : bool := between 0x30 0x39 b.

Definition derive_printed_serial (text : bytes) : option bytes :=
  if negb (forallb (fun b => b <? 0x80) text) then None
  else if existsb is_ascii_alphabetic text then
    tail_start ← checked_sub (len text) PRINTED_SERIAL_CHARS;
    get_range text tail_start (len text)
  else if (len text =? OLDER_FULL_SERIAL_CHARS) && forallb is_decimal text then
    get_range text OLDER_PRINTED_START (OLDER_PRINTED_START + PRINTED_SERIAL_CHARS)
  else None.

(** ** Lossy text ([String::from_utf8_lossy])

    Each maximal ill-formed piece becomes U+FFFD. *)

Definition REPLACEMENT : bytes := [0xEF; 0xBF; 0xBD].
Definition continuation (b : Z) : bool := between 0x80 0xBF b.
Definition second_of_three (a b : Z) : bool :=
  if a =? 0xE0 then between 0xA0 0xBF b
  else if a =? 0xED then between 0x80 0x9F b
  else continuation b.
Definition second_of_four (a b : Z) : bool :=
  if a =? 0xF0 then between 0x90 0xBF b
  else if a =? 0xF4 then between 0x80 0x8F b
  else continuation b.

Fixpoint from_utf8_lossy (bs : bytes) : bytes :=
  match bs with
  | [] => []
  | a :: r1 =>
      if a <? 0x80 then a :: from_utf8_lossy r1
      else if between 0xC2 0xDF a then
        match r1 with
        | b :: r2 => if continuation b then a :: b :: from_utf8_lossy r2
                     else REPLACEMENT ++ from_utf8_lossy r1
        | [] => REPLACEMENT
        end
      else if between 0xE0 0xEF a then
        match r1 with
        | b :: r2 =>
            if second_of_three a b then
              match r2 with
              | c :: r3 => if continuation c then a :: b :: c :: from_utf8_lossy r3
                           else REPLACEMENT ++ from_utf8_lossy r2
              | [] => REPLACEMENT
              end
            else REPLACEMENT ++ from_utf8_lossy r1
        | [] => REPLACEMENT
        end
      else if between 0xF0 0xF4 a then
        match r1 with
        | b :: r2 =>
            if second_of_four a b then
              match r2 with
              | c :: r3 =>
                  if continuation c then
                    match r3 with
                    | d :: r4 => if continuation d then a :: b :: c :: d :: from_utf8_lossy r4
                                 else REPLACEMENT ++ from_utf8_lossy r3
                    | [] => REPLACEMENT
                    end
                  else REPLACEMENT ++ from_utf8_lossy r2
              | [] => REPLACEMENT
              end
            else REPLACEMENT ++ from_utf8_lossy r1
        | [] => REPLACEMENT
        end
      else REPLACEMENT ++ from_utf8_lossy r1
  end.

(** ** EF.TokenInfo (token_info.rs) *)

Definition TAG_TOKEN_INFO_LABEL_IMPLICIT : Z := 0x80.
Definition INTEGER_SIGN_BIT : Z := 0x80.
Definition VERSION_OCTETS : Z := 4.

Record TokenInfo := mkTokenInfo {
  ti_version : Z;
  serial_number_hex : option bytes;
  manufacturer_id : option bytes;
  label : option bytes }.

Definition unsigned_version (content : bytes) : result BerError Z :=
  let negative :=
    match content with
    | leading :: _ => negb (Z.land leading INTEGER_SIGN_BIT =? 0)
    | [] => false
    end in
  if is_empty content || negative || (len content >? VERSION_OCTETS) then Err IntegerOutOfRange
  else Ok (be_value content).

Definition is_label_string (t : Z) : bool :=
  (t =? TAG Utf8String) || (t =? TAG PrintableString).

(** An optional field at [next]: taken when its tag is wanted. *)
Definition take_field (wanted : Z -> bool) (read : bytes -> bytes) (children : list BerTlvAny)
  (next : Z) : option bytes * Z :=
  match get children next with
  | Some r => if wanted (tag r) then (Some (read (value r)), next + 1) else (None, next)
  | None => (None, next)
  end.

Definition TokenInfo_parse (der : bytes) : result BerError TokenInfo :=
  let? outer := parse_typed Sequence der in
  let? children := collect_children (typed_value outer) in
  let? version_tlv := ok_or (get children 0) Truncated in
  if negb (tag version_tlv =? TAG Integer)
  then Err (UnexpectedTag (TAG Integer) (tag version_tlv))
  else
    let? version := unsigned_version (value version_tlv) in
    let '(serial, next) := take_field (Z.eqb (TAG OctetString)) hex_encode children 1 in
    let '(manufacturer, next) := take_field is_label_string from_utf8_lossy children next in
    let '(lbl, _) :=
      take_field (fun t => (t =? TAG_TOKEN_INFO_LABEL_IMPLICIT) || is_label_string t)
        from_utf8_lossy children next in
    Ok (mkTokenInfo version serial manufacturer lbl).

(** The read of the file; [None] when the read loop's fuel runs out. *)
Definition read_token_info {T E : Type} `{CardTransport T E} (fuel : nat) (t : T)
  : option (result (Pkcs15Error E) TokenInfo * T) :=
  match (do? _ <- select_pkcs15_application ;; select_ef EF_TOKEN_INFO_FID) t with
  | (Err e, t) => Some (Err e, t)
  | (Ok _, t) =>
      '(r, t) ← read_binary_der_object fuel "EF.TokenInfo" t;
      Some (let? bs := r in map_err (fun _ => InvalidData "EF.TokenInfo") (TokenInfo_parse bs), t)
  end.

(** ** Lemmas *)

Lemma nybble_hex_char i : 0 <= i <= 15 -> nybble (hex_char i) = Some i.
Proof.
  intros Hi. assert (i ∈ seqZ 0 16) as Hin by (apply elem_of_seqZ; lia). clear Hi. revert i Hin.
  apply (proj1 (Forall_forall (fun i => nybble (hex_char i) = Some i) (seqZ 0 16))).
  repeat constructor.
Qed.

Lemma octet_nibbles b : is_u8 b ->
  0 <= Z.shiftr b NIBBLE_BITS <= 15 /\ 0 <= Z.land b LOW_NIBBLE_MASK <= 15 /\
  Z.lor (Z.land (Z.shiftl (Z.shiftr b NIBBLE_BITS) NIBBLE_BITS) 255) (Z.land b LOW_NIBBLE_MASK) = b.
Proof.
  intros Hb. assert (b ∈ seqZ 0 256) as Hin by (apply elem_of_seqZ; ulia). clear Hb. revert b Hin.
  apply (proj1 (Forall_forall (fun b => 0 <= Z.shiftr b NIBBLE_BITS <= 15 /\
    0 <= Z.land b LOW_NIBBLE_MASK <= 15 /\
    Z.lor (Z.land (Z.shiftl (Z.shiftr b NIBBLE_BITS) NIBBLE_BITS) 255) (Z.land b LOW_NIBBLE_MASK) = b)
    (seqZ 0 256))).
  assert (forallb (fun b => between 0 15 (Z.shiftr b NIBBLE_BITS) &&
    between 0 15 (Z.land b LOW_NIBBLE_MASK) &&
    (Z.lor (Z.land (Z.shiftl (Z.shiftr b NIBBLE_BITS) NIBBLE_BITS) 255)
       (Z.land b LOW_NIBBLE_MASK) =? b)) (seqZ 0 256) = true) as Hall by by vm_compute.
  rewrite forallb_forall in Hall. apply Forall_forall. intros b Hb%list_elem_of_In.
  specialize (Hall b Hb). unfold between in Hall. to_prop. lia.
Qed.

Lemma len_hex_encode bs : len (hex_encode bs) = 2 * len bs.
Proof. induction bs as [|b bs IH]; [done|]. cbn [hex_encode]. rewrite !len_cons, IH. lia. Qed.

Lemma decode_hex_encode bs : all_bytes bs -> decoded_hex_bytes (hex_encode bs) = Some bs.
Proof.
  intros Hb. unfold decoded_hex_bytes, HEX_CHARS_PER_BYTE.
  rewrite len_hex_encode, Z.mul_comm, Z_mod_mult. cbn [Z.eqb negb].
  induction Hb as [|b bs Hb _ IH]; [done|]. cbn [hex_encode decode_pairs].
  destruct (octet_nibbles b Hb) as (H1 & H2 & H3).
  rewrite !nybble_hex_char by done. cbn [mbind option_bind]. rewrite IH. cbn [mbind option_bind].
  by rewrite H3.
Qed.

Lemma hex_encode_inj bs cs : all_bytes bs -> all_bytes cs -> hex_encode bs = hex_encode cs -> bs = cs.
Proof.
  intros Hb Hc Heq. apply decode_hex_encode in Hb, Hc. rewrite Heq in Hb. congruence.
Qed.

(** A serial shown as text. *)
Definition shown_as_text (bs : bytes) : bool := negb (is_empty bs) && printable bs.

Lemma render_hex_encode bs : all_bytes bs ->
  render_token_serial (hex_encode bs) = if shown_as_text bs then bs else hex_encode bs.
Proof. intros Hb. unfold render_token_serial. by rewrite decode_hex_encode. Qed.

(** The records of a token-information file: its optional fields, and what
    follows them. *)
Definition opt_record (t : Z) (o : option bytes) : list (Z * bytes) :=
  match o with Some v => [(t, v)] | None => [] end.

Definition field_tag (t : Z) : bool :=
  (t =? TAG OctetString) || is_label_string t || (t =? TAG_TOKEN_INFO_LABEL_IMPLICIT).

Definition token_records (version : bytes) (serial : option bytes) (mtag : Z)
  (manufacturer : option bytes) (lbl : option bytes) (others : list (Z * bytes))
  : list (Z * bytes) :=
  [(TAG Integer, version)] ++ opt_record (TAG OctetString) serial ++ opt_record mtag manufacturer
  ++ opt_record TAG_TOKEN_INFO_LABEL_IMPLICIT lbl ++ others.

Lemma collect_ok ws rs : Forall2 (fun w r => encodes w r.1 r.2) ws rs ->
  collect_results (zip_with (fun w r => Ok (mkBerTlvAny r.1 r.2 (len w))) ws rs)
  = Ok (zip_with (fun w r => mkBerTlvAny r.1 r.2 (len w)) ws rs).
Proof. induction 1 as [|w r ws rs Hw H IH]; [done|]. cbn in *. by rewrite IH. Qed.

Lemma collect_token_records ws rs : Forall2 (fun w r => encodes w r.1 r.2) ws rs ->
  collect_children (concat ws) = Ok (zip_with (fun w r => mkBerTlvAny r.1 r.2 (len w)) ws rs).
Proof.
  intros H. unfold collect_children, children.
  rewrite (iter_collect_records _ ws rs) by (done || by eapply records_fuel). by apply collect_ok.
Qed.

(** A record as its tag and value. *)
Definition record_of (r : BerTlvAny) : Z * bytes := (tag r, value r).

Lemma records_of ws rs : length ws = length rs ->
  record_of <$> zip_with (fun w r => mkBerTlvAny r.1 r.2 (len (A := Z) w)) ws rs = rs.
Proof.
  revert rs. induction ws as [|w ws IH]; intros [|[t v] rs] Hl; try done.
  cbn in *. f_equal. apply IH. lia.
Qed.

Lemma take_field_records wanted read cs i :
  take_field wanted read cs (Z.of_nat i) =
  match (record_of <$> cs) !! i with
  | Some (t, v) => if wanted t then (Some (read v), Z.of_nat (S i)) else (None, Z.of_nat i)
  | None => (None, Z.of_nat i)
  end.
Proof.
  unfold take_field, get. rewrite (proj2 (Z.ltb_ge _ _)), Nat2Z.id, list_lookup_fmap by lia.
  destruct (cs !! i); cbn; [|done]. destruct (wanted _); [|done]. by rewrite Nat2Z.inj_succ.
Qed.

Lemma label_string_cases t : is_label_string t = true -> t = 0x0C \/ t = 0x13.
Proof. unfold is_label_string. intros H. to_prop. destruct H; to_prop; auto. Qed.

Lemma other_tag_cases t : field_tag t = false ->
  (0x04 =? t) = false /\ is_label_string t = false /\ (t =? 0x80) = false.
Proof.
  unfold field_tag. intros H. to_prop. split_and!; [|done|by apply Z.eqb_neq].
  apply Z.eqb_neq. unfold TAG, OctetString_tag in *; congruence.
Qed.

(** ** Properties *)

(** EF.TokenInfo is read exactly: a file made of a version of one to four
    octets, any of the optional serial number, manufacturer and label, and
    whatever further records follow, parses to those fields; a field that is
    absent reads as absent and never takes the one after it. *)
Theorem token_info_decoded (version : bytes) (n : Z) (serial : option bytes) (mtag : Z)
  (manufacturer lbl : option bytes) (others : list (Z * bytes)) (ws : list bytes) (w : bytes) :
  is_label_string mtag = true -> unsigned_version version = Ok n ->
  (forall r rest, others = r :: rest -> field_tag r.1 = false) ->
  Forall2 (fun w r => encodes w r.1 r.2) ws
    (token_records version serial mtag manufacturer lbl others) ->
  tlv (TAG Sequence) (concat ws) = Ok w ->
  TokenInfo_parse w = Ok (mkTokenInfo n (hex_encode <$> serial) (from_utf8_lossy <$> manufacturer)
                            (from_utf8_lossy <$> lbl)).
Proof.
  intros Hm Hv Ho Hws Hw. unfold TokenInfo_parse, parse_typed.
  destruct (encodes_parse w (TAG Sequence) (concat ws) []) as [Hp _].
  { left. split; [by vm_compute|done]. }
  rewrite app_nil_r in Hp. rewrite Hp. cbn [rbind].
  change (expect Sequence _) with (@Ok BerError _ (mkBerTlv (T := Sequence) (concat ws) (len w))).
  cbn [rbind typed_value].
  rewrite (collect_token_records ws _ Hws). cbn [rbind].
  pose proof (records_of ws _ (Forall2_length _ _ _ Hws)) as Hcs.
  set (cs := zip_with _ _ _) in *. clearbody cs.
  assert (exists z, get cs 0 = Some (mkBerTlvAny (TAG Integer) version z)) as [z ->].
  { destruct cs as [|[t v z] cs']; [done|]. exists z. by injection Hcs as -> -> _. }
  cbn [ok_or rbind tag value]. change (negb (TAG Integer =? TAG Integer)) with false.
  rewrite Hv. cbn [rbind]. change 1 with (Z.of_nat 1). apply label_string_cases in Hm. unfold token_records in Hcs.
  destruct others as [|[ot ov] others].
  - destruct serial, manufacturer, lbl, Hm as [-> | ->];
      do 3 (rewrite take_field_records, Hcs; cbn -[take_field Z.of_nat]); reflexivity.
  - destruct (other_tag_cases ot (Ho _ _ eq_refl)) as (Ho1 & Ho2 & Ho3).
    destruct serial, manufacturer, lbl, Hm as [-> | ->]; do 3 (rewrite take_field_records, Hcs;
      cbn -[take_field Z.of_nat Z.eqb is_label_string]; unfold TAG, OctetString_tag,
        TAG_TOKEN_INFO_LABEL_IMPLICIT; rewrite ?Ho1, ?Ho2, ?Ho3;
      repeat match goal with
      | |- context [is_label_string (Z.pos ?a)] =>
          let v := eval compute in (is_label_string (Z.pos a)) in
          change (is_label_string (Z.pos a)) with v
      | |- context [Z.pos ?a =? Z.pos ?b] =>
          let v := eval compute in (Z.pos a =? Z.pos b) in change (Z.pos a =? Z.pos b) with v
      end; cbn -[take_field Z.of_nat Z.eqb is_label_string]); reflexivity.
Qed.

(** A chip serial is shown without loss: its hex form decodes to its
    octets; a serial of printable characters is rendered as that text and any
    other as its hex form; and two cards whose serials are of the same kind
    are rendered alike only when the serials are the same. *)
Theorem serial_rendered_faithfully (bs cs : bytes) :
  all_bytes bs -> all_bytes cs ->
  decoded_hex_bytes (hex_encode bs) = Some bs /\
  render_token_serial (hex_encode bs) = (if shown_as_text bs then bs else hex_encode bs) /\
  (shown_as_text bs = shown_as_text cs ->
   render_token_serial (hex_encode bs) = render_token_serial (hex_encode cs) -> bs = cs).
Proof.
  intros Hb Hc. split_and!; [by apply decode_hex_encode|by apply render_hex_encode|].
  intros Hs. rewrite !render_hex_encode, Hs by done.
  destruct (shown_as_text cs); [done|]. by apply hex_encode_inj.
Qed.

Lemma serial_rendered_faithfully_witness :
  decoded_hex_bytes (hex_encode [0x41; 0x42]) = Some [0x41; 0x42] /\
  render_token_serial (hex_encode [0x41; 0x42]) = [0x41; 0x42] /\
  (shown_as_text [0x41; 0x42] = shown_as_text [0x43] ->
   render_token_serial (hex_encode [0x41; 0x42]) = render_token_serial (hex_encode [0x43]) ->
   [0x41; 0x42] = [0x43]).
Proof.
  apply (serial_rendered_faithfully [0x41; 0x42] [0x43]); by apply all_bytesb_spec.
Defined.

Lemma token_info_decoded_witness :
  TokenInfo_parse [0x30; 0x09; 0x02; 0x01; 0x00; 0x04; 0x02; 0x41; 0x42; 0xA0; 0x00]
  = Ok (mkTokenInfo 0 (Some [0x34; 0x31; 0x34; 0x32]) None None).
Proof.
  apply (token_info_decoded [0] 0 (Some [0x41; 0x42]) 0x0C None None [(0xA0, [])]
    [[0x02; 0x01; 0x00]; [0x04; 0x02; 0x41; 0x42]; [0xA0; 0x00]]); try reflexivity.
  - by intros r rest [= <- <-].
  - do 3 (constructor; [left; split; [by vm_compute|reflexivity]|]). constructor.
Defined.

End TokenInfo.
