(* ===== verification/Pkcs11PinCache.v ===== *)
(** * The PIN1 the PKCS#11 module holds

    crates/pkcs11/src/pin.rs (the validated PIN bytes) and pin_cache.rs (the
    per-slot PIN1 a login left behind, its checkouts, and the memory of the
    values the card refused).

    A checkout carries an [Arc] and the cache a [Weak] to it.  A lease is a
    number, [Arc::new] takes the next one, and the strong count of a lease is
    the number of checked-out values that carry it, since nothing clones it.
    An [Instant] is a number of nanoseconds.  The outer [option] of an
    operation is [None] when a slice index would panic.

    The theorems, over every sequence of operations on one cache: a PIN the
    card refused is never handed out for that card again; a PIN handed out was
    accepted by the same card in the same stay, under a counter that is still
    intact, was not invalidated since, and a bridged one is handed out once and
    within thirty seconds; the login state reports exactly the PINs that can
    still be used. *)

From stdpp Require Import base list strings.
From Stdlib Require Import ZArith Lia.
From S2P Require Import Prelude ApduStatus ApduCommand ApduIso7816 AuthCredentials AuthCard Sign.

Module PinCache.
Import Apdu Iso7816 Credentials.

(** ** The validated PIN (pin.rs) *)

Inductive PinRoleError :=
  | PinEmpty
  | PinWrongLength (expected_min expected_max : Z)
  | PinNonDigit.

Definition PinBytes_MIN_LENGTH : Z := 4.
Definition PinBytes_MAX_LENGTH : Z := 12.

Record PinBytes := mkPinBytes { pin_storage : bytes; pin_length : Z }.

(** The loop over the bytes. *)
Fixpoint digits_only (bs : bytes) : result PinRoleError unit :=
  match bs with
  | [] => Ok tt
  | b :: rest => if negb (is_ascii_digit b) then Err PinNonDigit else digits_only rest
  end.

Definition validate_digits (bs : bytes) (min max : Z) : result PinRoleError unit :=
  if is_empty bs then Err PinEmpty
  else if (len bs <? min) || (len bs >? max) then Err (PinWrongLength min max)
  else digits_only bs.

Definition PinBytes_new (bs : bytes) : option (result PinRoleError PinBytes) :=
  match validate_digits bs PinBytes_MIN_LENGTH PinBytes_MAX_LENGTH with
  | Err error => Some (Err error)
  | Ok tt =>
      match try_from_uint U8_MAX (len bs) with
      | None => Some (Err (PinWrongLength PinBytes_MIN_LENGTH PinBytes_MAX_LENGTH))
      | Some length =>
          storage ← copy_from_slice (zeroed_array PinBytes_MAX_LENGTH) 0 bs;
          Some (Ok (mkPinBytes storage length))
      end
  end.

Definition pin_digit_count (self : PinBytes) : Z := pin_length self.
Definition as_bytes (self : PinBytes) : option bytes :=
  get_range (pin_storage self) 0 (pin_digit_count self).

(** ** The cache (pin_cache.rs) *)

Definition NANOS_PER_SEC : Z := 1000000000.
Definition PIN1_LOGIN_BRIDGE : Z := 30 * NANOS_PER_SEC.

Inductive Pin1Retention :=
  | Held
  | Bridge (staged_at : Z).

#[export] Instance Pin1Retention_eq_dec : EqDecision Pin1Retention.
Proof. solve_decision. Defined.

Record CachedPin1 := mkCachedPin1 {
  cp_serial : bytes;
  cp_card_events : Z;
  cp_pin : PinBytes;
  cp_generation : Z;
  cp_retention : Pin1Retention }.

Record CheckedOutPin1 := mkCheckedOut { co_entry : CachedPin1; co_lease : Z }.
Record AcceptedPin1 := mkAccepted { ac_entry : CachedPin1; ac_lease : Z }.

Inductive ExchangeFailure := CardLeft | Unanswered.

#[export] Instance ExchangeFailure_eq_dec : EqDecision ExchangeFailure.
Proof. solve_decision. Defined.

Definition ExchangeFailure_of (kind : TransportErrorKind) : ExchangeFailure :=
  match kind with
  | KindNoCard | KindReaderRemoved => CardLeft
  | KindTimeoutUnknownState | KindCardReset | KindProtocolDesync | KindBackend => Unanswered
  end.

Definition of_outcome (outcome : TransportOutcome) : option ExchangeFailure :=
  ExchangeFailure_of <$> outcome_kind outcome.

(** [now.checked_duration_since(staged_at)]. *)
Definition bridge_open (staged_at now : Z) : bool :=
  match checked_sub now staged_at with
  | Some age => age <? PIN1_LOGIN_BRIDGE
  | None => false
  end.

Inductive PreviouslyRejectedPin := mkPreviouslyRejectedPin.

Record PinSafetyCache := mkPinSafetyCache {
  positive_pin1 : option CachedPin1;
  outstanding : option Z;
  generation : Z;
  negative : Credentials.PinSafetyCache }.

(** [new], the operating system's random bytes given. *)
Definition new (random : bytes) : PinSafetyCache :=
  mkPinSafetyCache None None 0 (cache_new random).

Definition next_generation (self : PinSafetyCache) : PinSafetyCache :=
  mkPinSafetyCache (positive_pin1 self) None
    (saturating_add U64_MAX (generation self) 1) (negative self).

Definition set_positive (self : PinSafetyCache) (entry : option CachedPin1) : PinSafetyCache :=
  mkPinSafetyCache entry (outstanding self) (generation self) (negative self).

Definition clear_positive (self : PinSafetyCache) : PinSafetyCache :=
  set_positive (next_generation self) None.

(** Whether a retention still lets its value be used at [now]. *)
Definition retained (retention : Pin1Retention) (now : Z) : bool :=
  match retention with
  | Held => true
  | Bridge staged_at => bridge_open staged_at now
  end.

Definition checkout_pin1_at (self : PinSafetyCache) (serial : bytes) (card_events : Z)
  (live : PinStatus) (now : Z) (lease : Z) : option CheckedOutPin1 * PinSafetyCache :=
  match positive_pin1 self with
  | None => (None, self)
  | Some entry =>
      let self := set_positive self None in
      let usable := bool_decide (cp_serial entry = serial)
        && (cp_card_events entry =? card_events)
        && pin1_status_permits_reusable_cache live
        && retained (cp_retention entry) now in
      if negb usable then (None, self)
      else (Some (mkCheckedOut entry lease),
            mkPinSafetyCache (positive_pin1 self) (Some lease) (generation self) (negative self))
  end.

Definition restore (self : PinSafetyCache) (entry : CachedPin1) : PinSafetyCache :=
  if negb (bool_decide (cp_retention entry = Held))
     || negb (generation self =? cp_generation entry)
     || bool_decide (is_Some (positive_pin1 self))
  then self
  else set_positive self (Some entry).

(** [strong_count] counts the live values that carry a lease. *)
Definition holds_pin1_at (self : PinSafetyCache) (strong_count : Z -> Z) (now : Z)
  : bool * PinSafetyCache :=
  if (match outstanding self with Some lease => strong_count lease | None => 0 end) >? 0
  then (true, self)
  else match positive_pin1 self with
  | None => (false, self)
  | Some entry =>
      let present := retained (cp_retention entry) now in
      (present, if negb present then clear_positive self else self)
  end.

Section Negative.
(** HMAC-SHA-256 under a key; [None] when the key is refused. *)
Context (hmac_sha256 : bytes -> bytes -> option bytes).
#[local] Instance pin1_cached : CachedPin Pin1 := Pin1_CachedPin hmac_sha256.

Definition is_rejected (self : PinSafetyCache) (serial : bytes) (pin : PinBytes) : option bool :=
  digits ← as_bytes pin;
  reconstructed ← Pin1_reconstruct digits;
  match reconstructed with
  | Ok pin1 => Credentials.is_rejected (negative self) serial pin1
  | Err _ => Some false
  end.

Definition record_rejected (self : PinSafetyCache) (serial : bytes) (pin : PinBytes)
  : option PinSafetyCache :=
  let self := clear_positive self in
  digits ← as_bytes pin;
  reconstructed ← Pin1_reconstruct digits;
  match reconstructed with
  | Ok pin1 =>
      negative' ← Credentials.record_rejected (negative self) serial pin1;
      Some (mkPinSafetyCache (positive_pin1 self) (outstanding self) (generation self) negative')
  | Err _ => Some self
  end.

Definition put_positive (self : PinSafetyCache) (serial : bytes) (card_events : Z)
  (pin : PinBytes) (retention : Pin1Retention)
  : option (result PreviouslyRejectedPin unit * PinSafetyCache) :=
  known ← is_rejected self serial pin;
  if known : bool then Some (Err mkPreviouslyRejectedPin, self)
  else
    let self := next_generation self in
    let entry := mkCachedPin1 serial card_events pin (generation self) retention in
    Some (Ok tt, set_positive self (Some entry)).

Definition store_pin1 (self : PinSafetyCache) (serial : bytes) (card_events : Z) (pin : PinBytes)
  : option (result PreviouslyRejectedPin unit * PinSafetyCache) :=
  put_positive self serial card_events pin Held.

Definition stage_pin1_once_at (self : PinSafetyCache) (serial : bytes) (card_events : Z)
  (pin : PinBytes) (staged_at : Z) : option (result PreviouslyRejectedPin unit * PinSafetyCache) :=
  put_positive self serial card_events pin (Bridge staged_at).

(** [kind] is the transport's [TransportErrorExt]. *)
Definition settle_verify {E} (kind : E -> TransportErrorKind) (self : CheckedOutPin1)
  (cache : PinSafetyCache) (answer : result (Auth.AuthError E) Auth.VerifyOutcome)
  : option (option AcceptedPin1 * PinSafetyCache) :=
  let settled failure :=
    Some (None, if bool_decide (failure = Some Unanswered)
                then restore cache (co_entry self) else cache) in
  match answer with
  | Ok Auth.VerifyOk => Some (Some (mkAccepted (co_entry self) (co_lease self)), cache)
  | Ok (Auth.WrongPin _) =>
      cache' ← record_rejected cache (cp_serial (co_entry self)) (cp_pin (co_entry self));
      Some (None, cache')
  | Ok Auth.VerifyLocked | Ok (Auth.VerifyOther _)
  | Err (Auth.AuthCommand _) | Err (Auth.RetryFloor _) | Err (Auth.PinLength _) =>
      Some (None, cache)
  | Err (Auth.AuthTransport error) => settled (Some (ExchangeFailure_of (kind error)))
  | Err (Auth.AuthOutcome outcome) => settled (of_outcome outcome)
  end.

End Negative.

Definition settle_operation {E} (kind : E -> TransportErrorKind) (self : AcceptedPin1)
  (cache : PinSafetyCache) (failure : option (Sign.SignError E)) : PinSafetyCache :=
  let left :=
    match failure with
    | None | Some (Sign.SignStatus _ _) | Some (Sign.SignCommand _)
    | Some (Sign.UnexpectedSignatureLength _ _) => false
    | Some (Sign.SignTransport error) =>
        bool_decide (ExchangeFailure_of (kind error) = CardLeft)
    | Some (Sign.SignOutcome outcome) =>
        bool_decide (of_outcome outcome = Some CardLeft)
    end in
  if negb left then restore cache (ac_entry self) else cache.

(** ** Sequences of operations on one cache

    The values a caller has taken out of the cache live until they are settled
    or dropped; an operation names one by its position. *)

Inductive holding :=
  | Checked (c : CheckedOutPin1)
  | Accepted (a : AcceptedPin1).

Definition held_entry (h : holding) : CachedPin1 :=
  match h with Checked c => co_entry c | Accepted a => ac_entry a end.
Definition held_lease (h : holding) : Z :=
  match h with Checked c => co_lease c | Accepted a => ac_lease a end.

Record world := mkWorld { cache : PinSafetyCache; holdings : list holding; next_lease : Z }.

Definition strong_count (hs : list holding) (lease : Z) : Z :=
  len (filter (fun h => held_lease h = lease) hs).

Inductive event (E : Type) :=
  | EStore (serial : bytes) (card_events : Z) (pin : PinBytes)
  | EStage (serial : bytes) (card_events : Z) (pin : PinBytes) (staged_at : Z)
  | ECheckout (serial : bytes) (card_events : Z) (live : PinStatus) (now : Z)
  | EVerified (i : nat) (answer : result (Auth.AuthError E) Auth.VerifyOutcome)
  | EOperated (i : nat) (failure : option (Sign.SignError E))
  | EDrop (i : nat)
  | EClear
  | ERejected (serial : bytes) (pin : PinBytes)
  | EHolds (now : Z).
Arguments EStore {E} _ _ _.
Arguments EStage {E} _ _ _ _.
Arguments ECheckout {E} _ _ _ _.
Arguments EVerified {E} _ _.
Arguments EOperated {E} _ _.
Arguments EDrop {E} _.
Arguments EClear {E}.
Arguments ERejected {E} _ _.
Arguments EHolds {E} _.

Inductive outcome :=
  | Stored
  | RefusedAsRejected
  | HandedOut (c : CheckedOutPin1)
  | NoPin
  | Settled
  | NotHeld
  | Reports (holds : bool).

Section Sequences.
Context (hmac_sha256 : bytes -> bytes -> option bytes) {E : Type} (kind : E -> TransportErrorKind).

Definition put_outcome (r : result PreviouslyRejectedPin unit) : outcome :=
  match r with Ok _ => Stored | Err _ => RefusedAsRejected end.

Definition step (w : world) (ev : event E) : option (outcome * world) :=
  let c := cache w in
  let with_cache c' := mkWorld c' (holdings w) (next_lease w) in
  let without i c' := mkWorld c' (delete i (holdings w)) (next_lease w) in
  match ev with
  | EStore serial card_events pin =>
      '(r, c') ← store_pin1 hmac_sha256 c serial card_events pin;
      Some (put_outcome r, with_cache c')
  | EStage serial card_events pin staged_at =>
      '(r, c') ← stage_pin1_once_at hmac_sha256 c serial card_events pin staged_at;
      Some (put_outcome r, with_cache c')
  | ECheckout serial card_events live now =>
      match checkout_pin1_at c serial card_events live now (next_lease w) with
      | (None, c') => Some (NoPin, with_cache c')
      | (Some out, c') =>
          Some (HandedOut out, mkWorld c' (holdings w ++ [Checked out]) (next_lease w + 1))
      end
  | EVerified i answer =>
      match holdings w !! i with
      | Some (Checked out) =>
          '(accepted, c') ← settle_verify hmac_sha256 kind out c answer;
          Some (Settled, match accepted with
                         | Some a => mkWorld c' (<[i := Accepted a]> (holdings w)) (next_lease w)
                         | None => without i c'
                         end)
      | _ => Some (NotHeld, w)
      end
  | EOperated i failure =>
      match holdings w !! i with
      | Some (Accepted a) => Some (Settled, without i (settle_operation kind a c failure))
      | _ => Some (NotHeld, w)
      end
  | EDrop i =>
      match holdings w !! i with
      | Some _ => Some (Settled, without i c)
      | None => Some (NotHeld, w)
      end
  | EClear => Some (Settled, with_cache (clear_positive c))
  | ERejected serial pin =>
      c' ← record_rejected hmac_sha256 c serial pin;
      Some (Settled, with_cache c')
  | EHolds now =>
      let '(holds, c') := holds_pin1_at c (strong_count (holdings w)) now in
      Some (Reports holds, with_cache c')
  end.

(** The log of a sequence, and the state it ends in. *)
Fixpoint run (w : world) (evs : list (event E)) : option (list (event E * outcome) * world) :=
  match evs with
  | [] => Some ([], w)
  | ev :: rest =>
      '(o, w') ← step w ev;
      '(log, w'') ← run w' rest;
      Some ((ev, o) :: log, w'')
  end.

Definition start (random : bytes) : world := mkWorld (new random) [] 0.

End Sequences.

(** ** Lemmas on the PIN bytes and the rejected values *)

(** A value [PinBytes::new] returned. *)
Definition pin_ok (pin : PinBytes) : Prop := exists digits, PinBytes_new digits = Some (Ok pin).

Lemma digits_only_ok bs : digits_only bs = Ok tt -> forallb is_ascii_digit bs = true.
Proof.
  induction bs as [|b bs IH]; [done|]. cbn. destruct (is_ascii_digit b); [|done]. apply IH.
Qed.

Lemma validate_digits_ok bs : validate_digits bs PinBytes_MIN_LENGTH PinBytes_MAX_LENGTH = Ok tt ->
  bs <> [] /\ 4 <= len bs <= 12 /\ forallb is_ascii_digit bs = true.
Proof.
  unfold validate_digits, PinBytes_MIN_LENGTH, PinBytes_MAX_LENGTH.
  destruct bs as [|b bs]; [done|]. cbn [is_empty].
  case_if; [done|]. intros Hd%digits_only_ok.
  split_and!; [done|to_prop; lia..|done].
Qed.

Lemma PinBytes_new_ok bs pin : PinBytes_new bs = Some (Ok pin) ->
  as_bytes pin = Some bs /\ bs <> [] /\ 4 <= len bs <= 12 /\ forallb is_ascii_digit bs = true.
Proof.
  unfold PinBytes_new. destruct (validate_digits _ _ _) as [[]|] eqn:Hv; [|done].
  apply validate_digits_ok in Hv as (Hne & Hl & Hd).
  rewrite try_from_uint_some by ulia. unfold copy_from_slice.
  change (len (zeroed_array PinBytes_MAX_LENGTH)) with 12. if_true. cbn. intros [= <-].
  split_and!; try done; try lia. unfold as_bytes, pin_digit_count. cbn [pin_storage pin_length].
  change (take_z (zeroed_array PinBytes_MAX_LENGTH) 0) with (@nil Z). cbn [app].
  by apply get_range_prefix.
Qed.

Section Rejected.
Context (hmac_sha256 : bytes -> bytes -> option bytes).

(** The fingerprint under which a value is remembered. *)
Definition print_of (c : PinSafetyCache) (serial digits : bytes) : bytes :=
  pin_fingerprint hmac_sha256 SLOT_TAG_PIN1 serial digits (fingerprint_key (negative c)).

Lemma reconstruct_digits bs : bs <> [] -> 4 <= len bs <= 12 -> forallb is_ascii_digit bs = true ->
  exists p, Pin1_reconstruct bs = Some (Ok p) /\ Pin1_digits p = Some bs.
Proof.
  intros Hne Hl Hd. unfold Pin1_reconstruct.
  destruct (reconstruct_ok bs RolePin1 PIN_MIN_LENGTH PIN_MAX_LENGTH) as (s & -> & Hs & _);
    [done|unfold PIN_MIN_LENGTH, PIN_MAX_LENGTH; lia|done|done|].
  by exists (mkPin1 s).
Qed.

Lemma is_rejected_eq c serial pin : pin_ok pin -> exists digits,
  as_bytes pin = Some digits /\
  is_rejected hmac_sha256 c serial pin =
    Some (contains_fingerprint (negative c) Slot1 (print_of c serial digits)).
Proof.
  intros [bs (Hb & Hne & Hl & Hd)%PinBytes_new_ok]. exists bs. split; [done|].
  unfold is_rejected. rewrite Hb. cbn [mbind option_bind].
  destruct (reconstruct_digits bs) as (p & -> & Hp); [done..|]. cbn.
  unfold Credentials.is_rejected, fingerprint. cbn. by rewrite Hp.
Qed.

Lemma record_rejected_eq c serial pin : pin_ok pin -> exists digits,
  as_bytes pin = Some digits /\
  record_rejected hmac_sha256 c serial pin =
    Some (mkPinSafetyCache None None (saturating_add U64_MAX (generation c) 1)
            (record_fingerprint (negative c) Slot1 (print_of c serial digits))).
Proof.
  intros [bs (Hb & Hne & Hl & Hd)%PinBytes_new_ok]. exists bs. split; [done|].
  unfold record_rejected. rewrite Hb. cbn [mbind option_bind].
  destruct (reconstruct_digits bs) as (p & -> & Hp); [done..|]. cbn.
  unfold Credentials.record_rejected, fingerprint. cbn. by rewrite Hp.
Qed.

(** The memory keeps every mark, under the same key. *)
Definition remembers (n n' : Credentials.PinSafetyCache) : Prop :=
  fingerprint_key n' = fingerprint_key n /\
  forall f, contains_fingerprint n Slot1 f = true -> contains_fingerprint n' Slot1 f = true.

Lemma remembers_refl n : remembers n n.
Proof. by split. Qed.

Lemma record_remembers n f : remembers n (record_fingerprint n Slot1 f).
Proof.
  split; [apply (record_fingerprint_spec hmac_sha256)|]. intros g. rewrite !contains_spec.
  destruct (record_fingerprint_spec hmac_sha256 n Slot1 f) as [_ ->]. tauto.
Qed.

Lemma is_rejected_remembered c c' serial pin : pin_ok pin -> remembers (negative c) (negative c') ->
  is_rejected hmac_sha256 c serial pin = Some true ->
  is_rejected hmac_sha256 c' serial pin = Some true.
Proof.
  intros Hp [Hk Hm].
  destruct (is_rejected_eq c serial pin Hp) as (d & Hd & ->).
  destruct (is_rejected_eq c' serial pin Hp) as (d' & Hd' & ->).
  assert (d' = d) as -> by congruence. unfold print_of. rewrite Hk. intros [= H].
  by rewrite (Hm _ H).
Qed.

Lemma record_rejected_marks c c' serial pin : pin_ok pin ->
  record_rejected hmac_sha256 c serial pin = Some c' ->
  is_rejected hmac_sha256 c' serial pin = Some true.
Proof.
  intros Hp. destruct (record_rejected_eq c serial pin Hp) as (d & Hd & ->). intros [= <-].
  destruct (is_rejected_eq (mkPinSafetyCache None None (saturating_add U64_MAX (generation c) 1)
    (record_fingerprint (negative c) Slot1 (print_of c serial d))) serial pin Hp) as (d' & Hd' & ->).
  assert (d' = d) as -> by congruence. f_equal. cbn [negative]. unfold print_of at 2.
  cbn [negative]. rewrite (proj1 (record_fingerprint_spec hmac_sha256 _ _ _)). apply contains_spec.
  apply (proj2 (record_fingerprint_spec hmac_sha256 _ _ _)). auto.
Qed.

Lemma record_rejected_shape c c' serial pin : record_rejected hmac_sha256 c serial pin = Some c' ->
  exists n', remembers (negative c) n' /\
    c' = mkPinSafetyCache None None (saturating_add U64_MAX (generation c) 1) n'.
Proof.
  unfold record_rejected. destruct (as_bytes pin) as [d|]; [|done]. cbn [mbind option_bind].
  destruct (Pin1_reconstruct d) as [[p|]|]; [..|done]; cbn [mbind option_bind].
  - unfold Credentials.record_rejected, fingerprint. cbn.
    destruct (Pin1_digits p); [|done]. cbn. intros [= <-]. eexists.
    split; [apply record_remembers|done].
  - intros [= <-]. eexists. split; [apply remembers_refl|done].
Qed.

End Rejected.

(** ** Steps as moves of the entry

    What an operation does to the entry: it stays, it is put, wiped, spoiled,
    handed out or given back. *)

Section Moves.
Context (hmac_sha256 : bytes -> bytes -> option bytes) {E : Type} (kind : E -> TransportErrorKind).

Definition view (h : holding) : CachedPin1 * Z := (held_entry h, held_lease h).
Definition views (w : world) : list (CachedPin1 * Z) := view <$> holdings w.

(** The login that left an entry. *)
Definition puts (ev : event E) (e : CachedPin1) : Prop :=
  match cp_retention e with
  | Held => ev = EStore (cp_serial e) (cp_card_events e) (cp_pin e)
  | Bridge t => ev = EStage (cp_serial e) (cp_card_events e) (cp_pin e) t
  end.

(** The steps that end whatever PIN was held: a new login, a clearing, and a
    PIN the card refused. *)
Definition wipes (x : event E * outcome) : bool :=
  match x with
  | (EStore _ _ _, Stored) | (EStage _ _ _ _, Stored) => true
  | (EClear, _) | (ERejected _ _, _) => true
  | (EVerified _ (Ok (Auth.WrongPin _)), Settled) => true
  | _ => false
  end.

Definition hands_out (x : event E * outcome) : bool :=
  match x.2 with HandedOut _ => true | _ => false end.

Inductive move (c : PinSafetyCache) (vs : list (CachedPin1 * Z)) (nl : Z)
  : event E * outcome -> PinSafetyCache -> list (CachedPin1 * Z) -> Z -> Prop :=
  | move_keep x vs' : vs' `sublist_of` vs -> wipes x = false -> hands_out x = false ->
      move c vs nl x c vs' nl
  | move_put ev e : puts ev e -> cp_generation e = saturating_add U64_MAX (generation c) 1 ->
      is_rejected hmac_sha256 c (cp_serial e) (cp_pin e) = Some false ->
      move c vs nl (ev, Stored)
        (mkPinSafetyCache (Some e) None (cp_generation e) (negative c)) vs nl
  | move_wipe x vs' n' : vs' `sublist_of` vs -> remembers (negative c) n' -> hands_out x = false ->
      move c vs nl x
        (mkPinSafetyCache None None (saturating_add U64_MAX (generation c) 1) n') vs' nl
  | move_spoil x : wipes x = false -> hands_out x = false ->
      move c vs nl x (set_positive c None) vs nl
  | move_out e live now : positive_pin1 c = Some e ->
      pin1_status_permits_reusable_cache live = true -> retained (cp_retention e) now = true ->
      move c vs nl
        (ECheckout (cp_serial e) (cp_card_events e) live now, HandedOut (mkCheckedOut e nl))
        (mkPinSafetyCache None (Some nl) (generation c) (negative c)) (vs ++ [(e, nl)]) (nl + 1)
  | move_back x i e l : vs !! i = Some (e, l) -> cp_retention e = Held ->
      cp_generation e = generation c -> positive_pin1 c = None ->
      wipes x = false -> hands_out x = false ->
      move c vs nl x (set_positive c (Some e)) (delete i vs) nl.

Lemma restore_move c vs nl x i e l : vs !! i = Some (e, l) -> wipes x = false ->
  hands_out x = false -> move c vs nl x (restore c e) (delete i vs) nl.
Proof.
  intros Hi Hw Ho. unfold restore. case_if.
  - apply move_keep; [apply sublist_delete|done..].
  - apply bool_decide_eq_true in H. apply bool_decide_eq_false in H0.
    eapply move_back; try done. destruct (positive_pin1 c); [|done]. exfalso. by apply H0.
Qed.

Lemma put_move c vs nl serial ce pin r ret c' ev :
  put_positive hmac_sha256 c serial ce pin ret = Some (r, c') ->
  (forall g, puts ev (mkCachedPin1 serial ce pin g ret)) -> wipes (ev, RefusedAsRejected) = false ->
  move c vs nl (ev, put_outcome r) c' vs nl.
Proof.
  unfold put_positive. intros H Hp Hw.
  destruct (is_rejected _ _ _ _) as [[]|] eqn:Hr; cbn in H; simplify_eq; cbn [put_outcome].
  - by apply move_keep.
  - by apply (move_put c vs nl ev
      (mkCachedPin1 serial ce pin (saturating_add U64_MAX (generation c) 1) ret)).
Qed.

Lemma settle_verify_move out c vs nl i answer r c' :
  vs !! i = Some (co_entry out, co_lease out) ->
  settle_verify hmac_sha256 kind out c answer = Some (r, c') ->
  match r with
  | Some a => c' = c /\ a = mkAccepted (co_entry out) (co_lease out)
  | None => move c vs nl (EVerified i answer, Settled) c' (delete i vs) nl
  end /\ (answer = Ok Auth.VerifyOk <-> is_Some r).
Proof.
  intros Hi H. pose proof (sublist_delete vs i) as Hs. unfold settle_verify in H.
  destruct answer as [[|n| |sw]|[e|o|ce|rf|pl]]; cbn [mbind option_bind] in H.
  1: { simplify_eq. split; [done|]. by split; eauto. }
  1: { destruct (record_rejected _ _ _ _) as [c2|] eqn:Hr; cbn in H; simplify_eq.
       apply record_rejected_shape in Hr as (n' & Hn & ->).
       split; [by apply move_wipe|split; [done|by intros []]]. }
  all: simplify_eq; split; [|split; [done|by intros []]].
  all: try case_bool_decide; first [by eapply restore_move|by apply move_keep].
Qed.

Lemma lookup_view w i h : holdings w !! i = Some h -> views w !! i = Some (view h).
Proof. intros H. unfold views. by rewrite list_lookup_fmap, H. Qed.

Lemma delete_view w i c nl : views (mkWorld c (delete i (holdings w)) nl) = delete i (views w).
Proof. apply list_fmap_delete. Qed.

Lemma checkout_move w serial ce live now r c' :
  checkout_pin1_at (cache w) serial ce live now (next_lease w) = (r, c') ->
  match r with
  | Some out =>
      move (cache w) (views w) (next_lease w) (ECheckout serial ce live now, HandedOut out) c'
        (views w ++ [(co_entry out, co_lease out)]) (next_lease w + 1)
  | None =>
      move (cache w) (views w) (next_lease w) (ECheckout serial ce live now, NoPin) c'
        (views w) (next_lease w)
  end.
Proof.
  unfold checkout_pin1_at. destruct (positive_pin1 (cache w)) as [e|] eqn:He.
  - case_if; intros [= <- <-]; [by apply move_spoil|].
    apply bool_decide_eq_true in H. subst. by apply move_out.
  - intros [= <- <-]. by apply move_keep.
Qed.

Lemma step_move w ev o w' : step hmac_sha256 kind w ev = Some (o, w') ->
  move (cache w) (views w) (next_lease w) (ev, o) (cache w') (views w') (next_lease w').
Proof.
  destruct ev as [serial ce pin|serial ce pin t|serial ce live now|i answer|i failure|i| |serial pin|now];
    cbn [step].
  - destruct (store_pin1 _ _ _ _ _) as [[r c']|] eqn:Hp; cbn; [|done]. intros [= <- <-].
    by apply (put_move _ _ _ _ _ _ _ _ _ _ Hp).
  - destruct (stage_pin1_once_at _ _ _ _ _ _) as [[r c']|] eqn:Hp; cbn; [|done]. intros [= <- <-].
    by apply (put_move _ _ _ _ _ _ _ _ _ _ Hp).
  - destruct (checkout_pin1_at _ _ _ _ _ _) as [[out|] c'] eqn:Hc;
      apply checkout_move in Hc; intros [= <- <-]; [|done].
    unfold views in *. cbn [holdings cache next_lease]. by rewrite fmap_app.
  - destruct (holdings w !! i) as [[out|a]|] eqn:Hi;
      [|intros [= <- <-]; apply move_keep; [done|by destruct answer as [[]|[]]|done]..].
    destruct (settle_verify _ _ _ _ _) as [[r c']|] eqn:Hs; cbn; [|done]. intros [= <- <-].
    pose proof (lookup_view _ _ _ Hi) as Hv.
    apply (settle_verify_move _ _ (views w) (next_lease w) i) in Hs as [Hs Hok]; [|done].
    destruct r as [a|]; [|by rewrite delete_view].
    destruct Hs as [-> ->]. unfold views. cbn [holdings cache next_lease].
    rewrite list_fmap_insert, list_insert_id by done.
    destruct Hok as [_ ->]; [|done]. by apply move_keep.
  - destruct (holdings w !! i) as [[out|a]|] eqn:Hi; intros [= <- <-]; try by apply move_keep.
    rewrite delete_view. cbn [cache next_lease]. unfold settle_operation.
    destruct (negb _); [by eapply restore_move; [apply (lookup_view _ _ _ Hi)|..]|].
    by apply move_keep; [apply sublist_delete|..].
  - destruct (holdings w !! i) eqn:Hi; intros [= <- <-]; [|by apply move_keep].
    rewrite delete_view. by apply move_keep; [apply sublist_delete|..].
  - intros [= <- <-]. by apply move_wipe; [|apply remembers_refl|].
  - destruct (record_rejected _ _ _ _) as [c'|] eqn:Hr; cbn; [|done]. intros [= <- <-].
    apply record_rejected_shape in Hr as (n' & Hn & ->). by apply move_wipe.
  - destruct (holds_pin1_at _ _ _) as [b c'] eqn:Hh. intros [= <- <-]. unfold holds_pin1_at in Hh.
    repeat case_match; simplify_eq; try (by apply move_keep); by apply move_wipe; [|apply remembers_refl|].
Qed.

(** ** The invariant *)

Record inv (c : PinSafetyCache) (vs : list (CachedPin1 * Z)) (nl : Z) : Prop := mkInv {
  inv_gen : 0 <= generation c;
  inv_cached e : positive_pin1 c = Some e ->
    cp_generation e = generation c /\ pin_ok (cp_pin e) /\
    is_rejected hmac_sha256 c (cp_serial e) (cp_pin e) = Some false;
  inv_out e l : (e, l) ∈ vs -> cp_generation e <= generation c /\ pin_ok (cp_pin e) /\ l < nl;
  inv_current e l : (e, l) ∈ vs -> cp_generation e = generation c ->
    is_rejected hmac_sha256 c (cp_serial e) (cp_pin e) = Some false /\
    outstanding c = Some l /\ positive_pin1 c = None;
  inv_lease e l : outstanding c = Some l -> (e, l) ∈ vs -> cp_generation e = generation c;
  inv_nodup : NoDup vs.*2 }.

(** The PINs an operation is given come from [PinBytes::new]. *)
Definition event_ok (ev : event E) : Prop :=
  match ev with
  | EStore _ _ pin | EStage _ _ pin _ | ERejected _ pin => pin_ok pin
  | _ => True
  end.

Lemma inv_sublist c vs vs' nl : inv c vs nl -> vs' `sublist_of` vs -> inv c vs' nl.
Proof.
  intros [] Hs. assert (forall x, x ∈ vs' -> x ∈ vs) by (intros; by eapply elem_of_sublist).
  constructor; eauto. eapply sublist_NoDup; [done|]. by apply fmap_sublist.
Qed.

Lemma nodup_delete_snd (vs : list (CachedPin1 * Z)) i e l e' : NoDup vs.*2 ->
  vs !! i = Some (e, l) -> (e', l) ∉ delete i vs.
Proof.
  intros Hn Hi Hin. rewrite <- (take_drop_middle vs i (e, l) Hi) in Hn.
  rewrite delete_take_drop in Hin. rewrite fmap_app, fmap_cons in Hn.
  apply NoDup_app in Hn as (_ & H1 & H2). apply NoDup_cons in H2 as [H2 _].
  apply elem_of_app in Hin as [Hin|Hin]; apply (list_elem_of_fmap_2 snd) in Hin; cbn in *.
  - apply (H1 _ Hin). by left.
  - done.
Qed.

Lemma is_rejected_negative c c' serial pin : negative c' = negative c ->
  is_rejected hmac_sha256 c' serial pin = is_rejected hmac_sha256 c serial pin.
Proof. unfold is_rejected. by intros ->. Qed.

(** A generation later, nothing that is out is current. *)
Lemma inv_fresh c vs vs' nl p n : inv c vs nl -> generation c < U64_MAX -> vs' `sublist_of` vs ->
  let c' := mkPinSafetyCache p None (saturating_add U64_MAX (generation c) 1) n in
  (forall e, p = Some e -> cp_generation e = generation c' /\ pin_ok (cp_pin e) /\
    is_rejected hmac_sha256 c' (cp_serial e) (cp_pin e) = Some false) ->
  inv c' vs' nl.
Proof.
  intros [] Hg Hs c' Hp. assert (forall x, x ∈ vs' -> x ∈ vs) by (intros; by eapply elem_of_sublist).
  assert (generation c' = generation c + 1) as Hc by (cbn; unfold saturating_add; lia).
  constructor; rewrite ?Hc; [lia|by rewrite <- Hc|..].
  - intros e l He. destruct (inv_out0 e l) as (? & ? & ?); [auto|]. split_and!; [lia|done..].
  - intros e l He Hge. destruct (inv_out0 e l) as (? & ? & ?); [auto|]. lia.
  - done.
  - eapply sublist_NoDup; [done|]. by apply fmap_sublist.
Qed.

Lemma inv_move c vs nl x c' vs' nl' : inv c vs nl -> generation c < U64_MAX -> event_ok x.1 ->
  move c vs nl x c' vs' nl' -> inv c' vs' nl'.
Proof.
  intros Hinv Hg Hok Hm. destruct Hm as [x vs' Hs|ev e Hp Hge Hr|x vs' n' Hs Hn|x|e live now He Hl Hret|
    x i e l Hi Hh Hge Hp].
  - by eapply inv_sublist.
  - rewrite Hge. eapply inv_fresh; try done. intros e' [= <-]. split_and!; [done| |done].
    unfold puts in Hp. by destruct (cp_retention e); subst ev.
  - by eapply inv_fresh.
  - destruct Hinv. constructor; try done. cbn. intros e l Hin Hge.
    by destruct (inv_current0 e l Hin Hge) as (? & ? & ?).
  - destruct Hinv. destruct (inv_cached0 e He) as (Hge & Hpin & Hr).
    constructor; cbn; [done..| | | |].
    + intros e' l [Hin|[= -> ->]%list_elem_of_singleton]%elem_of_app.
      * destruct (inv_out0 e' l Hin) as (? & ? & ?). split_and!; [done..|lia].
      * split_and!; [lia|done|lia].
    + intros e' l [Hin|[= -> ->]%list_elem_of_singleton]%elem_of_app Hge'; [|done].
      destruct (inv_current0 e' l Hin Hge') as (? & ? & ?). congruence.
    + intros e' l [= <-] [Hin|[= ->]%list_elem_of_singleton]%elem_of_app; [|done].
      destruct (inv_out0 e' nl Hin) as (? & ? & ?). lia.
    + rewrite fmap_app. apply NoDup_app. split_and!; [done| |apply NoDup_singleton].
      intros l ([e' l'] & -> & Hin)%list_elem_of_fmap. cbn. rewrite list_elem_of_singleton.
      intros ->. destruct (inv_out0 e' nl Hin) as (? & ? & ?). lia.
  - assert (Hin : (e, l) ∈ vs) by by eapply list_elem_of_lookup_2.
    pose proof (inv_sublist _ _ _ _ Hinv (sublist_delete vs i)) as [].
    destruct (inv_current _ _ _ Hinv e l Hin Hge) as (Hr & Hout & _).
    destruct (inv_out _ _ _ Hinv e l Hin) as (_ & Hpin & _).
    constructor; cbn; [done| |done| |done..].
    + intros e' [= <-]. by split_and!.
    + intros e' l' Hin' Hge'. destruct (inv_current0 e' l' Hin' Hge') as (? & Hout' & _).
      destruct (nodup_delete_snd vs i e l e'); [apply (inv_nodup _ _ _ Hinv)|done|].
      by replace l with l' by congruence.
Qed.

Lemma move_remembers c vs nl x c' vs' nl' : move c vs nl x c' vs' nl' ->
  remembers (negative c) (negative c') /\ generation c' <= generation c + 1.
Proof.
  intros Hm. pose proof (remembers_refl (negative c)).
  destruct Hm as [| ? ? ? -> | | | |]; cbn; unfold saturating_add; split; try done; lia.
Qed.

Lemma cache_step_total w ev : inv (cache w) (views w) (next_lease w) -> event_ok ev ->
  exists o w', step hmac_sha256 kind w ev = Some (o, w').
Proof.
  intros Hinv Hok.
  destruct ev as [serial ce pin|serial ce pin t|serial ce live now|i answer|i failure|i| |serial pin|now];
    cbn [step event_ok] in *.
  1,2: unfold store_pin1, stage_pin1_once_at, put_positive;
    destruct (is_rejected_eq hmac_sha256 (cache w) serial pin Hok) as (d & _ & ->);
    cbn [mbind option_bind]; destruct (contains_fingerprint _ _ _); cbn; eauto.
  - destruct (checkout_pin1_at _ _ _ _ _ _) as [[]]; eauto.
  - destruct (holdings w !! i) as [[out|a]|] eqn:Hi; [|by eauto..].
    destruct answer as [[|n| |sw]|[e|o|ce|rf|pl]]; cbn; eauto.
    destruct (inv_out _ _ _ Hinv (co_entry out) (co_lease out)) as (_ & Hpin & _).
    { apply list_elem_of_lookup_2 with i. by apply (lookup_view _ _ _ Hi). }
    destruct (record_rejected_eq hmac_sha256 (cache w) (cp_serial (co_entry out)) _ Hpin)
      as (d & _ & ->). cbn. eauto.
  - destruct (holdings w !! i) as [[]|]; eauto.
  - destruct (holdings w !! i); eauto.
  - eauto.
  - destruct (record_rejected_eq hmac_sha256 (cache w) serial pin Hok) as (d & _ & ->). cbn. eauto.
  - destruct (holds_pin1_at _ _ _). eauto.
Qed.

Definition winv (w : world) : Prop := inv (cache w) (views w) (next_lease w).

Lemma start_inv random : winv (start random).
Proof.
  assert (forall x : CachedPin1 * Z, x ∈ views (start random) -> False)
    by (intros x; apply not_elem_of_nil).
  constructor; [done|done|intros; exfalso; by eauto..|by constructor].
Qed.

Lemma step_inv w ev o w' : winv w -> generation (cache w) < U64_MAX -> event_ok ev ->
  step hmac_sha256 kind w ev = Some (o, w') ->
  winv w' /\ generation (cache w') <= generation (cache w) + 1 /\
  remembers (negative (cache w)) (negative (cache w')).
Proof.
  intros Hi Hg Hok Hm%step_move. split; [|apply move_remembers in Hm; tauto].
  by apply (inv_move _ _ _ (ev, o) _ _ _ Hi Hg Hok Hm).
Qed.

(** Any sequence of operations runs to its end. *)
Lemma run_total evs w : winv w -> Forall event_ok evs -> generation (cache w) + len evs <= U64_MAX ->
  exists log w', run hmac_sha256 kind w evs = Some (log, w') /\ log.*1 = evs /\ winv w' /\
    generation (cache w') <= generation (cache w) + len evs /\
    remembers (negative (cache w)) (negative (cache w')).
Proof.
  revert w. induction evs as [|ev evs IH]; intros w Hi Hok Hg; cbn [run].
  { exists [], w. rewrite len_nil. split_and!; first [done|lia|apply remembers_refl]. }
  rewrite len_cons in *. pose proof (len_nonneg evs).
  inversion Hok as [|?? Hev Hevs]; subst.
  destruct (cache_step_total w ev) as (o & w1 & Hs); [done..|]. rewrite Hs. cbn.
  destruct (step_inv w ev o w1) as (Hi1 & Hg1 & Hm1); [done|lia|done..|].
  destruct (IH w1) as (log & w2 & -> & Hl & Hi2 & Hg2 & Hm2); [done..|lia|]. cbn.
  eexists _, _. split_and!; [done|by rewrite <- Hl|done|lia|].
  destruct Hm1, Hm2. split; [congruence|auto].
Qed.

(** ** Refused values *)

(** The operation by which the card's refusal of a PIN is recorded. *)
Definition refuses (w : world) (ev : event E) (serial : bytes) (pin : PinBytes) : Prop :=
  ev = ERejected serial pin \/
  exists i left out, ev = EVerified i (Ok (Auth.WrongPin left)) /\
    holdings w !! i = Some (Checked out) /\
    cp_serial (co_entry out) = serial /\ cp_pin (co_entry out) = pin.

Lemma refuses_marks w ev serial pin o w' : winv w -> event_ok ev -> refuses w ev serial pin ->
  step hmac_sha256 kind w ev = Some (o, w') ->
  pin_ok pin /\ is_rejected hmac_sha256 (cache w') serial pin = Some true.
Proof.
  intros Hi Hok Href. assert (pin_ok pin) as Hp.
  { destruct Href as [->|(i & left & out & -> & Hh & _ & <-)]; [done|].
    apply (inv_out _ _ _ Hi _ (co_lease out)), list_elem_of_lookup_2 with i.
    by apply (lookup_view _ _ _ Hh). }
  destruct Href as [->|(i & left & out & -> & Hh & <- & <-)]; cbn [step];
    [|rewrite Hh; cbn [settle_verify]];
    destruct (record_rejected _ _ _ _) as [c'|] eqn:Hr; cbn; try done; intros [= <- <-];
    by apply record_rejected_marks in Hr.
Qed.

Lemma is_rejected_digits c serial pin pin' : pin_ok pin -> pin_ok pin' ->
  as_bytes pin' = as_bytes pin ->
  is_rejected hmac_sha256 c serial pin' = is_rejected hmac_sha256 c serial pin.
Proof.
  intros Hp Hp' Hb. destruct (is_rejected_eq hmac_sha256 c serial pin Hp) as (d & Hd & ->).
  destruct (is_rejected_eq hmac_sha256 c serial pin' Hp') as (d' & Hd' & ->). congruence.
Qed.

Lemma step_handout w ev out w' : winv w -> step hmac_sha256 kind w ev = Some (HandedOut out, w') ->
  pin_ok (cp_pin (co_entry out)) /\
  is_rejected hmac_sha256 (cache w) (cp_serial (co_entry out)) (cp_pin (co_entry out)) = Some false.
Proof.
  intros Hi Hm%step_move. inversion Hm; try done.
  by destruct (inv_cached _ _ _ Hi e) as (_ & ? & ?).
Qed.

Lemma run_withholds evs w log w' serial pin : winv w -> Forall event_ok evs ->
  generation (cache w) + len evs <= U64_MAX -> pin_ok pin ->
  is_rejected hmac_sha256 (cache w) serial pin = Some true ->
  run hmac_sha256 kind w evs = Some (log, w') ->
  forall ev out, (ev, HandedOut out) ∈ log -> cp_serial (co_entry out) = serial ->
  as_bytes (cp_pin (co_entry out)) <> as_bytes pin.
Proof.
  revert w log. induction evs as [|ev evs IH]; intros w log Hi Hok Hg Hp Hr; cbn [run].
  { intros [= <- <-] ev out []%not_elem_of_nil. }
  rewrite len_cons in *. pose proof (len_nonneg evs).
  inversion Hok as [|?? Hev Hevs]; subst.
  destruct (step _ _ w ev) as [[o w1]|] eqn:Hs; cbn; [|done].
  destruct (step_inv w ev o w1) as (Hi1 & Hg1 & Hm1); [done|lia|done..|].
  destruct (run _ _ w1 evs) as [[log' w2]|] eqn:Hrun; cbn; [|done]. intros [= <- <-] ev' out.
  intros [[= -> <-]|Hin]%elem_of_cons Hser Hpin.
  - apply step_handout in Hs as [Hpo Hf]; [|done]. rewrite Hser in Hf.
    rewrite (is_rejected_digits _ _ pin) in Hf by done. congruence.
  - eapply (IH w1); try done; [lia|]. by eapply is_rejected_remembered.
Qed.

(** ** Where a PIN comes from *)

(** A log in which an entry was put and not ended since; one that is not held
    was not handed out since either. *)
Definition since (log : list (event E * outcome)) (e : CachedPin1) : Prop :=
  exists before ev after, log = before ++ (ev, Stored) :: after /\ puts ev e /\
    Forall (fun x => wipes x = false) after /\
    (cp_retention e = Held \/ Forall (fun x => hands_out x = false) after).

Definition prov (log : list (event E * outcome)) (c : PinSafetyCache)
  (vs : list (CachedPin1 * Z)) : Prop :=
  (forall e, positive_pin1 c = Some e -> since log e) /\
  (forall e l, (e, l) ∈ vs -> cp_generation e = generation c -> cp_retention e = Held -> since log e).

Lemma since_snoc log e x : since log e -> wipes x = false ->
  (cp_retention e = Held \/ hands_out x = false) -> since (log ++ [x]) e.
Proof.
  intros (b & ev & a & -> & Hp & Hw & Hh) Hx Hxh. exists b, ev, (a ++ [x]).
  split_and!; [by rewrite <- app_assoc|done|by apply Forall_app; split; [|constructor]|].
  destruct Hh as [|Hh]; [by left|]. destruct Hxh; [by left|]. right.
  apply Forall_app. by split; [|constructor].
Qed.

Lemma prov_move log c vs nl x c' vs' nl' : inv c vs nl -> generation c < U64_MAX ->
  prov log c vs -> move c vs nl x c' vs' nl' -> prov (log ++ [x]) c' vs'.
Proof.
  intros Hinv Hg [Hc Ho] Hm.
  assert (Hnew : forall e l, (e, l) ∈ vs -> cp_generation e <> saturating_add U64_MAX (generation c) 1).
  { intros e l Hin. destruct (inv_out _ _ _ Hinv e l Hin) as (? & _).
    unfold saturating_add. lia. }
  destruct Hm as [x vs' Hs|ev e Hp Hge Hr|x vs' n' Hs Hn|x|e live now He Hl Hret|
    x i e l Hi Hh Hge Hp].
  - split; [intros e He; apply since_snoc; auto|].
    intros e l Hin ? ?. apply since_snoc; auto. eapply Ho; [by eapply elem_of_sublist|done..].
  - split; cbn.
    + intros e' [= <-]. exists log, ev, []. split_and!; auto.
    + intros e' l Hin. rewrite Hge. by intros ?%(Hnew _ l Hin).
  - split; cbn; [done|]. intros e l Hin ?%(Hnew e l); [done|]. by eapply elem_of_sublist.
  - split; cbn; [done|]. intros e l Hin ? ?. apply since_snoc; eauto.
  - split; cbn; [done|]. intros e' l [Hin|[= -> ->]%list_elem_of_singleton]%elem_of_app Hge Hh.
    + destruct (inv_current _ _ _ Hinv e' l Hin Hge) as (_ & _ & ?). congruence.
    + apply since_snoc; auto.
  - assert (Hin : (e, l) ∈ vs) by by eapply list_elem_of_lookup_2. split; cbn.
    + intros e' [= <-]. apply since_snoc; eauto.
    + intros e' l' Hin' ? ?. apply since_snoc; auto. eapply Ho; [|done..].
      eapply elem_of_sublist; [done|apply sublist_delete].
Qed.

(** What entitles a checkout to a PIN, the log before it given. *)
Definition entitled (log : list (event E * outcome)) (ev : event E) (e : CachedPin1) : Prop :=
  since log e /\ exists live now,
    ev = ECheckout (cp_serial e) (cp_card_events e) live now /\
    (live = Verified \/ live = Remaining (Status.mkPinRetries RETRIES_PRISTINE)) /\
    (forall t, cp_retention e = Bridge t -> t <= now < t + PIN1_LOGIN_BRIDGE).

Lemma permits_spec live : pin1_status_permits_reusable_cache live = true ->
  live = Verified \/ live = Remaining (Status.mkPinRetries RETRIES_PRISTINE).
Proof.
  destruct live as [|[n]| | |]; cbn; auto; try done. unfold from_retries. cbn.
  repeat case_if; try done. subst. auto.
Qed.

Lemma retained_spec t now : retained (Bridge t) now = true -> t <= now < t + PIN1_LOGIN_BRIDGE.
Proof.
  cbn. unfold bridge_open, checked_sub. destruct (t <=? now) eqn:Ht; to_prop; [|done].
  intros Ha. to_prop. lia.
Qed.

Lemma step_entitled log w ev out w' : prov log (cache w) (views w) ->
  step hmac_sha256 kind w ev = Some (HandedOut out, w') -> entitled log ev (co_entry out).
Proof.
  intros [Hc _] Hm%step_move. inversion Hm; subst; try done. cbn. split; [by apply Hc|].
  exists live, now. split_and!; [done|by apply permits_spec|].
  intros t Ht. apply retained_spec. congruence.
Qed.

Lemma run_entitled evs w pre log w' : winv w -> Forall event_ok evs ->
  generation (cache w) + len evs <= U64_MAX -> prov pre (cache w) (views w) ->
  run hmac_sha256 kind w evs = Some (log, w') ->
  forall before ev out after, log = before ++ (ev, HandedOut out) :: after ->
  entitled (pre ++ before) ev (co_entry out).
Proof.
  revert w pre log. induction evs as [|ev evs IH]; intros w pre log Hi Hok Hg Hp; cbn [run].
  { by intros [= <- <-] [] ev out after. }
  rewrite len_cons in *. pose proof (len_nonneg evs).
  inversion Hok as [|?? Hev Hevs]; subst.
  destruct (step _ _ w ev) as [[o w1]|] eqn:Hs; cbn; [|done].
  destruct (step_inv w ev o w1) as (Hi1 & Hg1 & Hm1); [done|lia|done..|].
  destruct (run _ _ w1 evs) as [[log' w2]|] eqn:Hrun; cbn; [|done]. intros [= <- <-].
  intros [|x before] ev' out after Hlog; cbn in Hlog; simplify_eq.
  - rewrite app_nil_r. by eapply step_entitled.
  - rewrite cons_middle, app_assoc. apply step_move in Hs.
    eapply (IH w1); try done; [lia|]. eapply prov_move; [apply Hi|lia|done..].
Qed.

(** ** The login state *)

Lemma strong_count_pos hs l : 0 < strong_count hs l <-> exists h, h ∈ hs /\ held_lease h = l.
Proof.
  unfold strong_count. split.
  - intros Hl. destruct (filter _ hs) as [|h hs'] eqn:Hf; [unfold len in Hl; cbn in Hl; lia|].
    assert (h ∈ filter (fun h => held_lease h = l) hs) as Hh by (rewrite Hf; by left).
    apply list_elem_of_filter in Hh as [? ?]. eauto.
  - intros (h & Hh & Hl). assert (h ∈ filter (fun h => held_lease h = l) hs) as Hf
      by by apply list_elem_of_filter.
    destruct (filter _ hs) as [|h' hs'] eqn:Hfs; [by apply not_elem_of_nil in Hf|].
    rewrite len_cons. pose proof (len_nonneg hs'). lia.
Qed.

(** A value that is out and can still matter to the login. *)
Definition out_now (w : world) : Prop :=
  exists h, h ∈ holdings w /\ cp_generation (held_entry h) = generation (cache w).

Lemma outstanding_spec w : winv w ->
  (exists l, outstanding (cache w) = Some l /\ 0 < strong_count (holdings w) l) <-> out_now w.
Proof.
  intros Hi. split.
  - intros (l & Ho & (h & Hh & Hl)%strong_count_pos). exists h. split; [done|].
    apply (inv_lease _ _ _ Hi _ l Ho). subst l. by apply (list_elem_of_fmap_2 view) in Hh.
  - intros (h & Hh & Hg). apply (list_elem_of_fmap_2 view) in Hh as Hv.
    destruct (inv_current _ _ _ Hi _ _ Hv Hg) as (_ & Ho & _). exists (held_lease h).
    split; [done|]. apply strong_count_pos. eauto.
Qed.

Lemma holds_spec w now b c' : winv w -> generation (cache w) < U64_MAX ->
  holds_pin1_at (cache w) (strong_count (holdings w)) now = (b, c') ->
  (b = true <-> out_now w \/
     exists e, positive_pin1 (cache w) = Some e /\ retained (cp_retention e) now = true) /\
  (b = false -> positive_pin1 c' = None /\ ~ out_now (mkWorld c' (holdings w) (next_lease w))).
Proof.
  intros Hi Hg. unfold holds_pin1_at. rewrite Z.gtb_ltb. pose proof (outstanding_spec w Hi) as Hos.
  destruct (0 <? _) eqn:Hout.
  { intros [= <- <-]. to_prop. split; [|done]. split; [|done]. intros _. left. apply Hos.
    destruct (outstanding (cache w)) as [l|]; [eauto|lia]. }
  assert (Hno : ~ out_now w).
  { rewrite <- Hos. intros (l & Ho & Hl). rewrite Ho in Hout. to_prop. lia. }
  assert (Hnew : ~ out_now (mkWorld (clear_positive (cache w)) (holdings w) (next_lease w))).
  { intros (h & Hh & Hgen). cbn in Hgen. apply (list_elem_of_fmap_2 view) in Hh.
    apply (inv_out _ _ _ Hi) in Hh as (? & _). unfold saturating_add in Hgen. lia. }
  destruct (positive_pin1 (cache w)) as [e|] eqn:He.
  - destruct (retained (cp_retention e) now) eqn:Hr; intros [= <- <-]; cbn [negb].
    + split; [|done]. split; [|done]. intros _. right. eauto.
    + split; [|done]. split; [done|]. intros [?|(e' & [= <-] & ?)]; [done|congruence].
  - intros [= <- <-]. split; [|done]. split; [done|]. intros [?|(e' & ? & ?)]; done.
Qed.

End Moves.

(** ** Properties *)

(** C21 Within the cache of one device (a reader or a paired phone), a PIN the
    card refused is never handed out for that card again: whatever operations
    on the cache led to the refusal (a wrong-PIN answer to a checked-out value,
    or a refused login) and whatever operations on it follow, further logins
    with the same digits included, no later checkout of this cache for the card
    yields those digits, and none of the operations panics.  The module keeps
    one such cache per device; nothing is claimed of a card that moves to
    another reader, whose cache has a memory of its own. *)
Theorem rejected_pin_never_handed_out (hmac : bytes -> bytes -> option bytes) {E : Type}
  (kind : E -> TransportErrorKind) (random : bytes) (before after : list (event E))
  (ev : event E) (log1 : list (event E * outcome)) (w1 : world) (serial : bytes) (pin : PinBytes) :
  Forall event_ok (before ++ ev :: after) -> len (before ++ ev :: after) <= U64_MAX ->
  run hmac kind (start random) before = Some (log1, w1) -> refuses w1 ev serial pin ->
  exists log2 w2, run hmac kind w1 (ev :: after) = Some (log2, w2) /\
    forall ev' out, (ev', HandedOut out) ∈ log2 -> cp_serial (co_entry out) = serial ->
    as_bytes (cp_pin (co_entry out)) <> as_bytes pin.
Proof.
  intros [Hb Ha]%Forall_app Hl Hrun Href. rewrite len_app, len_cons in Hl.
  pose proof (len_nonneg before). pose proof (len_nonneg after).
  inversion Ha as [|?? Hev Haft]; subst.
  destruct (run_total hmac kind before (start random)) as (log & w & Hr & _ & Hi & Hg & _);
    [apply start_inv|done|cbn; lia|]. rewrite Hrun in Hr. simplify_eq. cbn in Hg.
  destruct (run_total hmac kind (ev :: after) w) as (log2 & w2 & Hr2 & _);
    [done..|rewrite len_cons; lia|]. exists log2, w2. split; [done|]. revert Hr2. cbn [run].
  destruct (step hmac kind w ev) as [[o w']|] eqn:Hs; cbn; [|done].
  destruct (step_inv hmac kind w ev o w') as (Hi' & Hg' & _); [done|lia|done..|].
  destruct (refuses_marks hmac kind w ev serial pin o w') as [Hp Hr']; [done..|].
  destruct (run hmac kind w' after) as [[log' w'']|] eqn:Hra; cbn; [|done].
  intros [= <- <-] ev' out [[= -> <-]|Hin]%elem_of_cons.
  - destruct Href as [->|(i & left & c & -> & Hh & _)]; cbn [step] in Hs; [|rewrite Hh in Hs];
      cbn [settle_verify] in Hs; destruct (record_rejected _ _ _ _); by cbn in Hs.
  - eapply run_withholds; try done. lia.
Qed.

(** A login with the PIN 1234 that a card first accepts and then refuses. *)
Definition demo_pin : PinBytes :=
  mkPinBytes [0x31; 0x32; 0x33; 0x34; 0; 0; 0; 0; 0; 0; 0; 0] 4.
Definition demo_hmac (key msg : bytes) : option bytes := Some (key ++ msg).
Definition demo_login : list (event TransportErrorKind) :=
  [EStore [7] 4 demo_pin; ECheckout [7] 4 Verified 0].
Definition demo_refusal : event TransportErrorKind :=
  EVerified 0%nat (Ok (Auth.WrongPin (Status.mkPinRetries 4))).
Definition demo_world : world :=
  default (start [1]) (snd <$> run demo_hmac id (start [1]) demo_login).

Lemma demo_pin_ok : pin_ok demo_pin.
Proof. exists [0x31; 0x32; 0x33; 0x34]. reflexivity. Qed.

Lemma rejected_pin_never_handed_out_witness :
  exists log2 w2, run demo_hmac id demo_world (demo_refusal :: demo_login) = Some (log2, w2) /\
    forall ev' out, (ev', HandedOut out) ∈ log2 -> cp_serial (co_entry out) = [7] ->
    as_bytes (cp_pin (co_entry out)) <> as_bytes demo_pin.
Proof.
  eapply (rejected_pin_never_handed_out demo_hmac id [1] demo_login demo_login demo_refusal).
  - repeat constructor; apply demo_pin_ok.
  - by vm_compute.
  - vm_compute. reflexivity.
  - right. exists 0%nat, (Status.mkPinRetries 4), (mkCheckedOut (mkCachedPin1 [7] 4 demo_pin 1 Held) 0).
    by vm_compute.
Defined.

(** C22 A PIN1 is handed out for a VERIFY only to the card that accepted it:
    over every sequence of operations from a fresh cache (none of which
    panics), each checkout that yields a PIN reads the serial and the reader's
    insertion count recorded at the login that left it, under a retry counter
    that is pristine or verified; no login, clearing or refusal came between;
    and a PIN staged under a lower counter was not handed out before and is
    less than thirty seconds old. *)
Theorem pin_handed_out_as_accepted (hmac : bytes -> bytes -> option bytes) {E : Type}
  (kind : E -> TransportErrorKind) (random : bytes) (evs : list (event E)) :
  Forall event_ok evs -> len evs <= U64_MAX ->
  exists log w, run hmac kind (start random) evs = Some (log, w) /\ log.*1 = evs /\
    forall before ev out after, log = before ++ (ev, HandedOut out) :: after ->
    entitled before ev (co_entry out).
Proof.
  intros Hok Hl.
  destruct (run_total hmac kind evs (start random)) as (log & w & Hr & Hf & Hi & Hg & _);
    [apply start_inv|done|cbn; lia|].
  exists log, w. split_and!; [done..|]. intros before ev out after Hlog.
  apply (run_entitled hmac kind evs (start random) [] log w) with after; try done.
  - apply start_inv.
  - split; [done|]. by intros e l ?%not_elem_of_nil.
Qed.

Lemma pin_handed_out_as_accepted_witness :
  exists log w, run demo_hmac id (start [1]) demo_login = Some (log, w) /\ log.*1 = demo_login /\
    forall before ev out after, log = before ++ (ev, HandedOut out) :: after ->
    entitled before ev (co_entry out).
Proof.
  apply (pin_handed_out_as_accepted demo_hmac id [1] demo_login).
  - repeat constructor; apply demo_pin_ok.
  - by vm_compute.
Defined.

(** The login state is exact: after every sequence of operations the cache
    reports a PIN1 exactly when a value of the current login is out on a
    checkout, or one is held, or one is staged and its thirty seconds have not
    run out; and when it reports none, nothing is cached afterwards and no
    value still out can come back. *)
Theorem login_reports_usable_pins (hmac : bytes -> bytes -> option bytes) {E : Type}
  (kind : E -> TransportErrorKind) (random : bytes) (evs : list (event E)) :
  Forall event_ok evs -> len evs < U64_MAX ->
  exists log w, run hmac kind (start random) evs = Some (log, w) /\
    forall now b c', holds_pin1_at (cache w) (strong_count (holdings w)) now = (b, c') ->
      (b = true <-> out_now w \/
         exists e, positive_pin1 (cache w) = Some e /\ retained (cp_retention e) now = true) /\
      (b = false -> positive_pin1 c' = None /\
         ~ out_now (mkWorld c' (holdings w) (next_lease w))).
Proof.
  intros Hok Hl.
  destruct (run_total hmac kind evs (start random)) as (log & w & Hr & _ & Hi & Hg & _);
    [apply start_inv|done|cbn; lia|].
  exists log, w. split; [done|]. intros now b c'. eapply holds_spec; [done|cbn in Hg; lia].
Qed.

Lemma login_reports_usable_pins_witness :
  exists log w, run demo_hmac id (start [1]) demo_login = Some (log, w) /\
    forall now b c', holds_pin1_at (cache w) (strong_count (holdings w)) now = (b, c') ->
      (b = true <-> out_now w \/
         exists e, positive_pin1 (cache w) = Some e /\ retained (cp_retention e) now = true) /\
      (b = false -> positive_pin1 c' = None /\
         ~ out_now (mkWorld c' (holdings w) (next_lease w))).
Proof.
  apply (login_reports_usable_pins demo_hmac id [1] demo_login).
  - repeat constructor; apply demo_pin_ok.
  - by vm_compute.
Defined.

End PinCache.
