(* ===== verification/Pkcs11Sign.v ===== *)
(** * What the PKCS#11 module signs

    crates/pkcs11/src/sign.rs: the DigestInfo parser of CKM_RSA_PKCS, the fit
    of a CKM_ECDSA digest to the card's 48 bytes, and the card leg.  The
    return values of ck.rs the module's files share are in [Ck].

    The theorems: the DigestInfo parser accepts exactly the two encodings of
    each SHA-2 hash with a digest that is not a sentinel; an ECDSA digest of
    any length reaches the card as the integer of its leftmost 384 bits. *)

From stdpp Require Import base list strings.
From Stdlib Require Import ZArith Lia.
From S2P Require Import Prelude ApduCommand ApduIso7816 Sign.

(** ** Return values and constants (ck.rs) *)

Module Ck.

Definition CKR_OK : Z := 0x00.
Definition CKR_SLOT_ID_INVALID : Z := 0x03.
Definition CKR_ARGUMENTS_BAD : Z := 0x07.
Definition CKR_NO_EVENT : Z := 0x08.
Definition CKR_DATA_INVALID : Z := 0x20.
Definition CKR_DATA_LEN_RANGE : Z := 0x21.
Definition CKR_DEVICE_ERROR : Z := 0x30.
Definition CKR_DEVICE_REMOVED : Z := 0x32.
Definition CKR_FUNCTION_CANCELED : Z := 0x50.
Definition CKR_KEY_HANDLE_INVALID : Z := 0x60.
Definition CKR_MECHANISM_INVALID : Z := 0x70.
Definition CKR_OPERATION_ACTIVE : Z := 0x90.
Definition CKR_OPERATION_NOT_INITIALIZED : Z := 0x91.
Definition CKR_PIN_INCORRECT : Z := 0xA0.
Definition CKR_PIN_INVALID : Z := 0xA1.
Definition CKR_PIN_LEN_RANGE : Z := 0xA2.
Definition CKR_PIN_LOCKED : Z := 0xA4.
Definition CKR_SESSION_CLOSED : Z := 0xB0.
Definition CKR_SESSION_HANDLE_INVALID : Z := 0xB3.
Definition CKR_TOKEN_NOT_PRESENT : Z := 0xE0.
Definition CKR_USER_ALREADY_LOGGED_IN : Z := 0x100.
Definition CKR_USER_NOT_LOGGED_IN : Z := 0x101.
Definition CKR_USER_TYPE_INVALID : Z := 0x103.
Definition CKM_RSA_PKCS : Z := 0x01.
Definition CKM_ECDSA : Z := 0x1041.

End Ck.

Module CardSign.
Import Ck Apdu Iso7816 Sign.

(** ** Constants and mechanisms *)

Definition RSA3072_SIGNATURE_BYTES : Z := 384.
Definition ECDSA_P384_SIGNATURE_BYTES : Z := 96.
Definition SHA256_DIGEST_BYTES : Z := 32.
Definition SHA384_DIGEST_BYTES : Z := 48.
Definition SHA512_DIGEST_BYTES : Z := 64.
Definition DER_TAG_SEQUENCE : Z := 0x30.
Definition DER_TAG_OID : Z := 0x06.
Definition DER_TAG_NULL : Z := 0x05.
Definition DER_TAG_OCTET_STRING : Z := 0x04.
Definition DER_LONG_FORM_FLAG : Z := 0x80.
Definition SHA256_OID_VALUE : bytes := [0x60; 0x86; 0x48; 0x01; 0x65; 0x03; 0x04; 0x02; 0x01].
Definition SHA384_OID_VALUE : bytes := [0x60; 0x86; 0x48; 0x01; 0x65; 0x03; 0x04; 0x02; 0x02].
Definition SHA512_OID_VALUE : bytes := [0x60; 0x86; 0x48; 0x01; 0x65; 0x03; 0x04; 0x02; 0x03].

Inductive DigestInfoHash := DiSha256 | DiSha384 | DiSha512.

#[export] Instance DigestInfoHash_eq_dec : EqDecision DigestInfoHash.
Proof. solve_decision. Defined.

(** The lengths, then byte by byte. *)
Definition slices_equal (left right : bytes) : bool :=
  if negb (len left =? len right) then false
  else forallb (fun p => p.1 =? p.2) (zip left right).

Definition from_oid_value (oid : bytes) : option DigestInfoHash :=
  if slices_equal oid SHA256_OID_VALUE then Some DiSha256
  else if slices_equal oid SHA384_OID_VALUE then Some DiSha384
  else if slices_equal oid SHA512_OID_VALUE then Some DiSha512
  else None.

Definition di_digest_len (self : DigestInfoHash) : Z :=
  match self with
  | DiSha256 => SHA256_DIGEST_BYTES
  | DiSha384 => SHA384_DIGEST_BYTES
  | DiSha512 => SHA512_DIGEST_BYTES
  end.

Inductive Mechanism := RsaPkcs | Ecdsa.

#[export] Instance Mechanism_eq_dec : EqDecision Mechanism.
Proof. solve_decision. Defined.

Definition signature_len (self : Mechanism) : Z :=
  match self with RsaPkcs => RSA3072_SIGNATURE_BYTES | Ecdsa => ECDSA_P384_SIGNATURE_BYTES end.
Definition ck_type (self : Mechanism) : Z :=
  match self with RsaPkcs => CKM_RSA_PKCS | Ecdsa => CKM_ECDSA end.
Definition from_ck_type (mechanism : Z) : option Mechanism :=
  if mechanism =? CKM_RSA_PKCS then Some RsaPkcs
  else if mechanism =? CKM_ECDSA then Some Ecdsa
  else None.

(** ** Sentinels *)

(** [split_last().is_some_and(..)]. *)
Definition zeros_except_last (digest : bytes) : bool :=
  match rev digest with
  | last :: head => (last =? 1) && forallb (fun b => b =? 0) head
  | [] => false
  end.

Definition zeros_except_first (digest : bytes) : bool :=
  match digest with
  | first :: tail => (first =? 1) && forallb (fun b => b =? 0) tail
  | [] => false
  end.

Definition reject_degenerate_digest (digest : bytes) : result Z unit :=
  let all_zero := forallb (fun b => b =? 0) digest in
  let all_ones := forallb (fun b => b =? U8_MAX) digest in
  if all_zero || all_ones || zeros_except_last digest || zeros_except_first digest
  then Err CKR_DATA_INVALID
  else Ok tt.

(** ** The DigestInfo parser *)

Definition read_tlv (data : bytes) : option (Z * bytes * bytes) :=
  match data with
  | t :: len_byte :: after_len =>
      if len_byte >=? DER_LONG_FORM_FLAG then None
      else
        v ← get_range after_len 0 len_byte;
        rest ← get_range after_len len_byte (len after_len);
        Some (t, v, rest)
  | _ => None
  end.

Definition parse_digest_info (input : bytes) : result Z (DigestInfoHash * bytes) :=
  let? '(outer_tag, outer_body, outer_rest) := ok_or (read_tlv input) CKR_DATA_INVALID in
  if negb (outer_tag =? DER_TAG_SEQUENCE) || negb (is_empty outer_rest) then Err CKR_DATA_INVALID
  else
  let? '(alg_tag, alg_body, after_alg) := ok_or (read_tlv outer_body) CKR_DATA_INVALID in
  if negb (alg_tag =? DER_TAG_SEQUENCE) then Err CKR_DATA_INVALID
  else
  let? '(oid_tag, oid_body, after_oid) := ok_or (read_tlv alg_body) CKR_DATA_INVALID in
  if negb (oid_tag =? DER_TAG_OID) then Err CKR_DATA_INVALID
  else
  let? hash := ok_or (from_oid_value oid_body) CKR_DATA_INVALID in
  let? _ :=
    match read_tlv after_oid with
    | None => if negb (is_empty after_oid) then Err CKR_DATA_INVALID else Ok tt
    | Some (null_tag, null_body, after_null) =>
        if negb (null_tag =? DER_TAG_NULL) || negb (is_empty null_body) || negb (is_empty after_null)
        then Err CKR_DATA_INVALID else Ok tt
    end in
  let? '(digest_tag, digest_body, after_digest) := ok_or (read_tlv after_alg) CKR_DATA_INVALID in
  if negb (digest_tag =? DER_TAG_OCTET_STRING) || negb (is_empty after_digest)
     || negb (len digest_body =? di_digest_len hash)
  then Err CKR_DATA_INVALID
  else
  let? _ := reject_degenerate_digest digest_body in
  Ok (hash, digest_body).

Definition parse_sha256_digest_info (input : bytes) : result Z bytes :=
  let? '(hash, digest) := parse_digest_info input in
  if negb (bool_decide (hash = DiSha256)) then Err CKR_DATA_INVALID
  else if len digest =? SHA256_DIGEST_BYTES then Ok digest else Err CKR_DATA_INVALID.

(** ** The ECDSA digest *)

Definition fit_p384 (input : bytes) : result Z bytes :=
  if is_empty input then Err CKR_DATA_LEN_RANGE
  else
    let? _ := reject_degenerate_digest input in
    let take := Z.min (len input) SHA384_DIGEST_BYTES in
    let? src := ok_or (get_range input 0 take) CKR_DATA_LEN_RANGE in
    let start := saturating_sub SHA384_DIGEST_BYTES (len src) in
    ok_or (copy_from_slice (zeroed_array SHA384_DIGEST_BYTES) start src) CKR_DATA_LEN_RANGE.

(** ** The card leg *)

Inductive CardSignInput :=
  | RsaSha256 (digest : bytes)
  | EcdsaP384Digest (digest : bytes).

Definition CardSignInput_parse (mechanism : Mechanism) (input : bytes) : result Z CardSignInput :=
  match mechanism with
  | RsaPkcs => rmap RsaSha256 (parse_sha256_digest_info input)
  | Ecdsa => rmap EcdsaP384Digest (fit_p384 input)
  end.

Definition sign_with_card {T E : Type} `{CardTransport T E} (input : CardSignInput)
  : exec T (SignError E) bytes :=
  match input with
  | RsaSha256 digest =>
      do? s <- sign_prehashed_sha256_rsa (authentication_key SchemeCitizen) digest ;;
      eret (signature_bytes s)
  | EcdsaP384Digest digest =>
      do? s <- sign_prehashed_sha384_ecdsa (authentication_key SchemeCitizen) digest ;;
      eret (signature_bytes s)
  end.

(** ** Lemmas *)

Lemma slices_equal_spec l r : slices_equal l r = true <-> l = r.
Proof.
  unfold slices_equal. split.
  - case_if; [done|]. clear -E. revert r E.
    induction l as [|a l IH]; intros [|b r] E; rewrite ?len_cons, ?len_nil in *;
      try (pose proof (len_nonneg l)); try (pose proof (len_nonneg r)); try done; try lia.
    cbn. intros Hz. to_prop. subst. f_equal. apply IH; [lia|done].
  - intros ->. rewrite Z.eqb_refl. cbn. induction r as [|a r IH]; [done|]. cbn.
    by rewrite Z.eqb_refl.
Qed.

Lemma read_tlv_spec data t v rest :
  read_tlv data = Some (t, v, rest) <-> data = t :: len v :: v ++ rest /\ len v < DER_LONG_FORM_FLAG.
Proof.
  unfold read_tlv, DER_LONG_FORM_FLAG. split.
  - destruct data as [|t' [|lb al]]; try done. case_if; [done|].
    destruct (get_range al 0 lb) as [v'|] eqn:Hv; [|done]. cbn [mbind option_bind].
    destruct (get_range al lb (len al)) as [r'|] eqn:Hr; [|done]. cbn [mbind option_bind].
    intros [= -> -> ->]. pose proof (get_range_len _ _ _ _ Hv).
    apply get_range_spec in Hv as (? & ? & ->). apply get_range_spec in Hr as (? & _ & ->).
    replace (lb - 0) with lb in * by lia. split; [|lia]. f_equal. f_equal; [lia|].
    rewrite drop_0, (take_ge (drop _ _)) by (rewrite length_drop; unfold len in *; lia).
    symmetry. apply take_drop.
  - intros [-> Hl]. if_false. rewrite get_range_prefix by done. cbn [mbind option_bind].
    by rewrite get_range_suffix.
Qed.

(** The DER of one record in the short form. *)
Definition der_short (t : Z) (v : bytes) : bytes := t :: len v :: v.

Lemma read_tlv_short t v rest : len v < DER_LONG_FORM_FLAG ->
  read_tlv (der_short t v ++ rest) = Some (t, v, rest).
Proof. intros H. by apply read_tlv_spec. Qed.

Definition oid_of (h : DigestInfoHash) : bytes :=
  match h with
  | DiSha256 => SHA256_OID_VALUE
  | DiSha384 => SHA384_OID_VALUE
  | DiSha512 => SHA512_OID_VALUE
  end.

Lemma from_oid_value_spec oid h : from_oid_value oid = Some h <-> oid = oid_of h.
Proof.
  split.
  - unfold from_oid_value. destruct (slices_equal oid SHA256_OID_VALUE) eqn:H1;
      [|destruct (slices_equal oid SHA384_OID_VALUE) eqn:H2;
        [|destruct (slices_equal oid SHA512_OID_VALUE) eqn:H3; [|done]]];
      intros [= <-]; by apply slices_equal_spec.
  - intros ->. by destruct h.
Qed.

(** A DigestInfo, its algorithm parameters NULL or absent. *)
Definition digest_info (h : DigestInfoHash) (null : bool) (digest : bytes) : bytes :=
  der_short DER_TAG_SEQUENCE
    (der_short DER_TAG_SEQUENCE
       (der_short DER_TAG_OID (oid_of h) ++ (if null then der_short DER_TAG_NULL [] else []))
     ++ der_short DER_TAG_OCTET_STRING digest).

Lemma parse_digest_info_encoded h null d : len d = di_digest_len h ->
  reject_degenerate_digest d = Ok tt -> parse_digest_info (digest_info h null d) = Ok (h, d).
Proof.
  intros Hl Hd. unfold parse_digest_info, digest_info.
  assert (len d <= 64) as H64 by (rewrite Hl; by destruct h).
  set (alg := der_short DER_TAG_OID (oid_of h) ++ _).
  assert (len alg <= 13) as Halg by by destruct h, null.
  set (body := der_short DER_TAG_SEQUENCE alg ++ der_short DER_TAG_OCTET_STRING d).
  assert (len body < 128) as Hbody.
  { unfold body, der_short. rewrite len_app, !len_cons. lia. }
  rewrite <- (app_nil_r (der_short DER_TAG_SEQUENCE body)), read_tlv_short by done. cbn [ok_or rbind].
  change (negb (DER_TAG_SEQUENCE =? DER_TAG_SEQUENCE) || negb (is_empty [])) with false. cbn iota.
  unfold body. rewrite read_tlv_short by (unfold DER_LONG_FORM_FLAG; lia). cbn [ok_or rbind].
  change (negb (DER_TAG_SEQUENCE =? DER_TAG_SEQUENCE)) with false. cbn iota.
  unfold alg. rewrite read_tlv_short by by destruct h. cbn [ok_or rbind].
  change (negb (DER_TAG_OID =? DER_TAG_OID)) with false. cbn iota.
  rewrite (proj2 (from_oid_value_spec _ h)) by done. cbn [ok_or rbind].
  replace (match read_tlv _ with Some _ => _ | None => _ end) with (@Ok Z unit tt)
    by by destruct null. cbn [rbind].
  rewrite <- (app_nil_r (der_short DER_TAG_OCTET_STRING d)), read_tlv_short
    by (unfold DER_LONG_FORM_FLAG; lia). cbn [ok_or rbind].
  by rewrite Hl, !Z.eqb_refl, Hd.
Qed.

Lemma is_empty_nil {A} (l : list A) : is_empty l = true -> l = [].
Proof. by destruct l. Qed.

Lemma parse_digest_info_inv input h d : parse_digest_info input = Ok (h, d) ->
  len d = di_digest_len h /\ reject_degenerate_digest d = Ok tt /\
  exists null, input = digest_info h null d.
Proof.
  unfold parse_digest_info. intros H.
  apply rbind_ok_inv in H as ([[t1 b1] r1] & Hr1%ok_or_inv%read_tlv_spec & H).
  destruct (_ || _) eqn:E1 in H; [done|]. to_prop.
  apply rbind_ok_inv in H as ([[t2 b2] r2] & Hr2%ok_or_inv%read_tlv_spec & H).
  destruct (negb _) eqn:E2 in H; [done|]. to_prop.
  apply rbind_ok_inv in H as ([[t3 b3] r3] & Hr3%ok_or_inv%read_tlv_spec & H).
  destruct (negb _) eqn:E3 in H; [done|]. to_prop.
  apply rbind_ok_inv in H as (h' & Hh%ok_or_inv%from_oid_value_spec & H).
  apply rbind_ok_inv in H as ([] & Hn & H).
  apply rbind_ok_inv in H as ([[t4 b4] r4] & Hr4%ok_or_inv%read_tlv_spec & H).
  destruct (_ || _) eqn:E4 in H; [done|]. to_prop.
  apply rbind_ok_inv in H as ([] & Hd & [= -> ->]).
  repeat match goal with E : is_empty _ = true |- _ => apply is_empty_nil in E end. subst.
  split_and!; [done..|].
  destruct (read_tlv r3) as [[[t5 b5] r5]|] eqn:Hr5.
  - destruct (_ || _) eqn:E5 in Hn; [done|]. to_prop.
    repeat match goal with E : is_empty _ = true |- _ => apply is_empty_nil in E end. subst.
    apply read_tlv_spec in Hr5 as [-> _]. exists true. destruct Hr1 as [-> _], Hr2 as [-> _],
      Hr3 as [-> _], Hr4 as [-> _]. unfold digest_info, der_short. by rewrite !app_nil_r.
  - destruct (negb _) eqn:E5 in Hn; [done|]. to_prop. apply is_empty_nil in E5 as ->.
    exists false. destruct Hr1 as [-> _], Hr2 as [-> _], Hr3 as [-> _], Hr4 as [-> _].
    unfold digest_info, der_short. by rewrite !app_nil_r.
Qed.

(** ** Digests as integers *)

Lemma be_fold_acc acc bs : all_bytes bs -> 0 <= acc ->
  be_fold acc bs = acc * 256 ^ len bs + be_value bs.
Proof.
  intros Hb. revert acc. induction Hb as [|b bs Hb Hbs IH]; intros acc Ha.
  - unfold be_value, be_fold. rewrite len_nil. cbn. lia.
  - assert (0 <= b) by (destruct Hb; lia). pose proof (len_nonneg bs).
    unfold be_value. change (be_fold ?a (b :: bs)) with (be_fold (Z.lor (Z.shiftl a 8) b) bs).
    rewrite !lor_shiftl_byte, !IH, len_cons, Z.pow_add_r by (done || lia).
    change (256 ^ 1) with 256. lia.
Qed.

Lemma be_value_cat bs cs : all_bytes bs -> all_bytes cs ->
  be_value (bs ++ cs) = be_value bs * 256 ^ len cs + be_value cs.
Proof.
  intros Hb Hc. unfold be_value at 1. rewrite be_fold_app. apply be_fold_acc; [done|].
  by apply be_value_bound.
Qed.

Lemma be_value_inj bs cs : all_bytes bs -> all_bytes cs -> length bs = length cs ->
  be_value bs = be_value cs -> bs = cs.
Proof.
  intros Hb Hc Hl Hv. rewrite <- (be_bytes_be_value bs), <- (be_bytes_be_value cs) by done.
  by rewrite Hl, Hv.
Qed.

Lemma all_bytes_repeat n c : is_u8 c -> all_bytes (repeat c n).
Proof. intros. induction n; constructor; auto. Qed.

Lemma len_repeat {A} (c : A) n : len (repeat c n) = Z.of_nat n.
Proof. unfold len. by rewrite repeat_length. Qed.

Lemma be_value_repeat n c : is_u8 c -> be_value (repeat c n) * 255 = c * (256 ^ Z.of_nat n - 1).
Proof.
  intros Hc. induction n as [|n IH]; [cbn; lia|].
  change (repeat c (S n)) with ([c] ++ repeat c n).
  rewrite be_value_cat by (apply (all_bytes_repeat 1) || apply all_bytes_repeat; done).
  replace (be_value [c]) with c by (unfold be_value, be_fold; cbn; done).
  rewrite len_repeat, Nat2Z.inj_succ, Z.pow_succ_r by lia. lia.
Qed.

Lemma all_equal_spec c d :
  forallb (fun b => b =? c) d = true <-> d = repeat c (length d).
Proof.
  induction d as [|b d IH]; [done|]. cbn [forallb length repeat]. rewrite andb_true_iff, Z.eqb_eq, IH.
  split; [by intros [-> <-]|]. by intros [= -> <-].
Qed.

(** A digest all of whose octets are [c], by its value. *)
Lemma all_equal_value c d : all_bytes d -> is_u8 c ->
  forallb (fun b => b =? c) d = true <-> be_value d * 255 = c * (256 ^ len d - 1).
Proof.
  intros Hd Hc. rewrite all_equal_spec. split.
  - intros Heq. rewrite Heq at 1. by rewrite be_value_repeat.
  - intros Hv. apply be_value_inj; [done|by apply all_bytes_repeat|by rewrite repeat_length|].
    pose proof (be_value_repeat (length d) c Hc). unfold len in Hv. lia.
Qed.

Lemma forallb_rev {A} (f : A -> bool) l : forallb f (rev l) = forallb f l.
Proof.
  induction l as [|x l IH]; [done|]. cbn. rewrite forallb_app, IH. cbn.
  by rewrite andb_true_r, andb_comm.
Qed.

Lemma zeros_except_last_value d : all_bytes d -> zeros_except_last d = true <-> be_value d = 1.
Proof.
  intros Hd. destruct d as [|b d _] using rev_ind; [done|].
  unfold zeros_except_last. rewrite rev_app_distr. cbn [rev app].
  apply Forall_app in Hd as [Hd Hb]. inversion Hb as [|?? Hb' _]; subst.
  rewrite be_value_cat by done. replace (be_value [b]) with b by done.
  change (256 ^ len [b]) with 256. rewrite andb_true_iff, Z.eqb_eq.
  pose proof (be_value_bound d Hd) as [Hpos _]. destruct Hb'.
  assert (forallb (fun b => b =? 0) (rev d) = true <-> be_value d = 0) as ->.
  { rewrite forallb_rev, (all_equal_value 0 d) by (done || ulia). split; lia. }
  ulia.
Qed.

Lemma zeros_except_first_rev d : zeros_except_first d = zeros_except_last (rev d).
Proof. unfold zeros_except_last. by rewrite rev_involutive. Qed.

(** The values no hash takes: 0, 1, -1, and 1 with its octets reversed. *)
Definition sentinel (d : bytes) : Prop :=
  be_value d = 0 \/ be_value d = 256 ^ len d - 1 \/ be_value d = 1 \/ be_value (rev d) = 1.

Lemma reject_degenerate_spec d : all_bytes d ->
  (reject_degenerate_digest d = Err CKR_DATA_INVALID <-> sentinel d) /\
  (reject_degenerate_digest d = Ok tt <-> ~ sentinel d).
Proof.
  intros Hd. unfold reject_degenerate_digest, sentinel. rewrite zeros_except_first_rev.
  assert (all_bytes (rev d)) as Hr by by apply Forall_rev.
  pose proof (all_equal_value 0 d Hd ltac:(ulia)) as H0.
  pose proof (all_equal_value U8_MAX d Hd ltac:(ulia)) as H1.
  pose proof (zeros_except_last_value d Hd) as H2.
  pose proof (zeros_except_last_value (rev d) Hr) as H3. unfold U8_MAX in H1.
  destruct (forallb _ d), (forallb _ d), (zeros_except_last d), (zeros_except_last (rev d));
    cbn [orb]; (split; [|split]); try done; intuition (try discriminate); try lia.
Qed.

Lemma fit_p384_ok input : all_bytes input -> input <> [] -> ~ sentinel input ->
  fit_p384 input = Ok (repeat 0 (Z.to_nat (48 - Z.min (len input) 48)) ++ take_z input 48).
Proof.
  intros Hb Hne Hs. unfold fit_p384. destruct input as [|b bs]; [done|]. cbn [is_empty].
  set (input := b :: bs) in *. rewrite (proj2 (proj2 (reject_degenerate_spec input Hb)) Hs).
  cbn [rbind]. unfold SHA384_DIGEST_BYTES. pose proof (len_nonneg input).
  rewrite get_range_take by lia. cbn [ok_or rbind]. rewrite len_take_z by lia.
  unfold saturating_sub. rewrite Z.max_r by lia. unfold copy_from_slice.
  change (len (zeroed_array 48)) with 48. rewrite len_take_z by lia. if_true. cbn [ok_or]. f_equal.
  unfold take_z, drop_z, zeroed_array. rewrite drop_ge, app_nil_r by (rewrite repeat_length; lia).
  f_equal.
  - set (n := Z.to_nat _). replace (Z.to_nat 48) with (n + (48 - n))%nat by lia.
    rewrite repeat_app, take_app_length'; [done|by rewrite repeat_length].
  - destruct (Z.min_spec (len input) 48) as [[? ->]|[? ->]]; [|done].
    rewrite !take_ge by (unfold len in *; lia). done.
Qed.

Lemma digest_info_bytes h null d : all_bytes (digest_info h null d) -> all_bytes d.
Proof.
  unfold digest_info. set (alg := _ ++ (if null then _ else _)). unfold der_short.
  intros Hb. do 2 apply Forall_inv_tail in Hb. apply Forall_app in Hb as [_ Hb].
  by do 2 apply Forall_inv_tail in Hb.
Qed.

(** The one error a computation returns. *)
Definition fails_as {A} (e : Z) (r : result Z A) : Prop := forall e', r = Err e' -> e' = e.

Lemma fails_bind {A B} e (r : result Z A) (k : A -> result Z B) :
  fails_as e r -> (forall a, fails_as e (k a)) -> fails_as e (rbind r k).
Proof. intros Hr Hk e'. destruct r as [a|e'']; cbn; [apply Hk|]. intros [= ->]. by apply Hr. Qed.

Lemma fails_ok_or {A} e (o : option A) : fails_as e (ok_or o e).
Proof. intros e'. destruct o; [done|]. by intros [= ->]. Qed.

Lemma fails_err {A} e : fails_as e (@Err Z A e).
Proof. by intros e' [= ->]. Qed.

Lemma fails_ok {A} e (a : A) : fails_as e (Ok a).
Proof. done. Qed.

Lemma parse_digest_info_fails input : fails_as CKR_DATA_INVALID (parse_digest_info input).
Proof.
  unfold parse_digest_info, reject_degenerate_digest.
  repeat first [apply fails_ok_or|apply fails_err|apply fails_ok|apply fails_bind|
    match goal with |- forall _, _ => intro end|case_match].
Qed.

(** ** Properties *)

(** The DigestInfo parser of CKM_RSA_PKCS accepts exactly the encodings of
    SHA-256, SHA-384 and SHA-512, the algorithm parameters NULL or absent,
    with a digest of the hash's length that is none of the sentinel values 0,
    1 and -1 or a byte-reversed 1; it returns the hash and the digest encoded,
    and refuses every other input as invalid data. *)
Theorem digest_info_accepted_exactly (input : bytes) (h : DigestInfoHash) (d : bytes) :
  all_bytes input ->
  (parse_digest_info input = Ok (h, d) <->
     (exists null, input = digest_info h null d) /\ len d = di_digest_len h /\ ~ sentinel d) /\
  (forall e, parse_digest_info input = Err e -> e = CKR_DATA_INVALID).
Proof.
  intros Hb. split; [split|].
  - intros (Hl & Hd & null & ->)%parse_digest_info_inv. split_and!; [by eauto|done|].
    apply reject_degenerate_spec; [by eapply digest_info_bytes|done].
  - intros ([null ->] & Hl & Hs). apply parse_digest_info_encoded; [done|].
    apply reject_degenerate_spec; [by eapply digest_info_bytes|done].
  - apply parse_digest_info_fails.
Qed.

Lemma digest_info_accepted_exactly_witness :
  (parse_digest_info (digest_info DiSha256 true (repeat 7 32)) = Ok (DiSha256, repeat 7 32) <->
     (exists null, digest_info DiSha256 true (repeat 7 32) = digest_info DiSha256 null (repeat 7 32))
     /\ len (repeat 7 32) = di_digest_len DiSha256 /\ ~ sentinel (repeat 7 32)) /\
  (forall e, parse_digest_info (digest_info DiSha256 true (repeat 7 32)) = Err e ->
     e = CKR_DATA_INVALID).
Proof.
  apply (digest_info_accepted_exactly (digest_info DiSha256 true (repeat 7 32)) DiSha256).
  by apply all_bytesb_spec.
Defined.

(** C29 A CKM_ECDSA digest reaches the card as the integer PKCS#11 means: an
    input of any length that is not empty and not a sentinel is fitted to 48
    bytes whose value is that of the input's leftmost 384 bits, so a shorter
    digest keeps its value and a longer one is truncated; an empty input is
    refused by its length, and a sentinel as invalid data. *)
Theorem ecdsa_digest_keeps_its_value (input : bytes) :
  all_bytes input ->
  match fit_p384 input with
  | Ok d => input <> [] /\ ~ sentinel input /\ len d = 48 /\
            be_value d = be_value input / 256 ^ Z.max 0 (len input - 48) /\
            (len input <= 48 -> be_value d = be_value input)
  | Err e => (e = CKR_DATA_LEN_RANGE /\ input = []) \/ (e = CKR_DATA_INVALID /\ sentinel input)
  end.
Proof.
  intros Hb. destruct (decide (input = [])) as [->|Hne]; [by left|].
  destruct (reject_degenerate_digest input) as [[]|e] eqn:Hr.
  2: { unfold fit_p384. destruct input as [|b bs]; [done|]. cbn [is_empty]. rewrite Hr.
       cbn [rbind]. right. unfold reject_degenerate_digest in Hr. case_match; simplify_eq.
       split; [done|]. apply reject_degenerate_spec; [done|].
       unfold reject_degenerate_digest. by rewrite H. }
  apply reject_degenerate_spec in Hr as Hs; [|done]. rewrite fit_p384_ok by done.
  pose proof (len_nonneg input).
  assert (all_bytes (take_z input 48) /\ all_bytes (drop_z input 48)) as [Ht Hd].
  { apply Forall_app. by rewrite take_drop_z. }
  assert (len (take_z input 48) = Z.min (len input) 48) as Hlt.
  { unfold take_z, len. rewrite length_take. lia. }
  assert (be_value (repeat 0 (Z.to_nat (48 - Z.min (len input) 48)) ++ take_z input 48)
          = be_value (take_z input 48)) as Hv.
  { rewrite be_value_cat by (done || apply all_bytes_repeat; ulia).
    pose proof (be_value_repeat (Z.to_nat (48 - Z.min (len input) 48)) 0 ltac:(ulia)). lia. }
  rewrite Hv. split_and!; [done|done| | |].
  - rewrite len_app, len_repeat, Hlt. lia.
  - rewrite <- (take_drop_z input 48) at 2. rewrite be_value_cat by done.
    assert (len (drop_z input 48) = Z.max 0 (len input - 48)) as ->.
    { unfold drop_z, len. rewrite length_drop. lia. }
    pose proof (be_value_bound _ Hd) as [? Hlt2]. unfold drop_z, len in Hlt2.
    rewrite length_drop in Hlt2. rewrite Z.div_add_l by (apply Z.pow_nonzero; lia).
    rewrite Z.div_small; [lia|]. unfold len.
    replace (Z.max 0 _) with (Z.of_nat (length input - Z.to_nat 48)) by lia. done.
  - intros Hle. f_equal. unfold take_z. apply take_ge. unfold len in Hle. lia.
Qed.

Lemma ecdsa_digest_keeps_its_value_witness :
  match fit_p384 (repeat 7 32) with
  | Ok d => repeat 7 32 <> [] /\ ~ sentinel (repeat 7 32) /\ len d = 48 /\
            be_value d = be_value (repeat 7 32) / 256 ^ Z.max 0 (len (repeat 7 32) - 48) /\
            (len (repeat 7 32) <= 48 -> be_value d = be_value (repeat 7 32))
  | Err e => (e = CKR_DATA_LEN_RANGE /\ repeat 7 32 = []) \/
             (e = CKR_DATA_INVALID /\ sentinel (repeat 7 32))
  end.
Proof. apply (ecdsa_digest_keeps_its_value (repeat 7 32)). by apply all_bytesb_spec. Defined.

End CardSign.
