(* ===== verification/Pkcs11Slot.v ===== *)
(** * What a PKCS#11 slot is bound to

    crates/pkcs11/src/slot_kind.rs (the pair identifier and the kinds of slot)
    and the data of remote.rs (the offer of a paired phone and the errors of a
    remote signature).  Text is its UTF-8 bytes.  The [hex] package is a
    parameter with its documented behaviour as laws.

    The theorems: a pair identifier is accepted exactly when it is the hex of
    sixteen octets, in either case, and reads back; two slots share their
    process-lifetime state exactly when they name the same device, provided no
    reader carries a pair identifier as its name. *)

From stdpp Require Import base list strings.
From Stdlib Require Import ZArith Lia.
From S2P Require Import Prelude ApduCommand Pkcs15TokenInfo Pkcs11Sign.

Module Slot.
Import Ck.

(** ** The [hex] package *)

Class Hex := {
  hex_encode : bytes -> bytes;
  hex_decode : bytes -> option bytes }.

Definition is_ascii_hexdigit (b : Z) : bool :=
  TokenInfo.between 0x30 0x39 b || TokenInfo.between 0x41 0x46 b || TokenInfo.between 0x61 0x66 b.

Definition to_lower (b : Z) : Z := if TokenInfo.between 0x41 0x5A b then b + 0x20 else b.

(** Decoding reads hex digits of either case two at a time, and encoding
    writes them in lower case. *)
Class HexLaws `{Hex} := {
  hex_decode_encode bs : all_bytes bs -> hex_decode (hex_encode bs) = Some bs;
  hex_encode_decode text bs : hex_decode text = Some bs ->
    all_bytes bs /\ len text = 2 * len bs /\ hex_encode bs = map to_lower text;
  hex_decode_total text : len text mod 2 = 0 -> forallb is_ascii_hexdigit text = true ->
    is_Some (hex_decode text);
  hex_digits bs : all_bytes bs -> forallb is_ascii_hexdigit (hex_encode bs) = true }.

Section SlotKind.
Context `{Hex}.

(** ** The pair identifier *)

Definition PAIR_ID_SIZE : Z := 16.
Definition PAIR_ID_HEX_SIZE : Z := PAIR_ID_SIZE * 2.
Definition SERIAL_PAIR_ID_BYTES : Z := 4.
(** ["REMOTE-"] and ["RefineID Remote "]. *)
Definition REMOTE_SERIAL_PREFIX : bytes := [82; 69; 77; 79; 84; 69; 45].
Definition REMOTE_DISPLAY_PREFIX : bytes :=
  [82; 101; 102; 105; 110; 101; 73; 68; 32; 82; 101; 109; 111; 116; 101; 32].

Inductive RemoteSlotIdError := NotHex | SlotIdWrongLength.

Record RemoteSlotId := mkRemoteSlotId { slot_id_bytes : bytes }.

#[export] Instance RemoteSlotId_eq_dec : EqDecision RemoteSlotId.
Proof. solve_decision. Defined.

(** The outer [None] is the panic of copying a decoded text of another size. *)
Definition RemoteSlotId_parse (hex : bytes) : option (result RemoteSlotIdError RemoteSlotId) :=
  if negb (len hex =? PAIR_ID_HEX_SIZE) || negb (forallb is_ascii_hexdigit hex) then
    Some (Err (if negb (len hex =? PAIR_ID_HEX_SIZE) then SlotIdWrongLength else NotHex))
  else
    match hex_decode hex with
    | None => Some (Err NotHex)
    | Some decoded =>
        if len decoded =? PAIR_ID_SIZE then Some (Ok (mkRemoteSlotId decoded)) else None
    end.

Definition to_hex (self : RemoteSlotId) : bytes := hex_encode (slot_id_bytes self).

Definition token_serial (self : RemoteSlotId) : bytes :=
  REMOTE_SERIAL_PREFIX
  ++ hex_encode (default [] (get_range (slot_id_bytes self) 0 SERIAL_PAIR_ID_BYTES)).

(** ** The kinds of slot *)

Inductive SlotKind :=
  | Local (reader : bytes)
  | Remote (pair_id : RemoteSlotId) (label context : bytes).

Definition is_remote (self : SlotKind) : bool :=
  match self with Remote _ _ _ => true | Local _ => false end.
Definition local_reader (self : SlotKind) : option bytes :=
  match self with Local reader => Some reader | Remote _ _ _ => None end.
Definition remote_pair_id (self : SlotKind) : option RemoteSlotId :=
  match self with Local _ => None | Remote pair_id _ _ => Some pair_id end.
Definition cache_key (self : SlotKind) : bytes :=
  match self with Local reader => reader | Remote pair_id _ _ => to_hex pair_id end.
Definition display_name (self : SlotKind) : bytes :=
  match self with Local reader => reader | Remote _ label _ => REMOTE_DISPLAY_PREFIX ++ label end.

(** ** The offer of a paired phone (remote.rs) *)

Record SessionCertificate := mkSessionCertificate { as_der : bytes }.

Record RemoteOffer := mkRemoteOffer {
  offer_pair_id : RemoteSlotId;
  offer_label : bytes;
  offer_context : bytes;
  certificate : option SessionCertificate }.

Inductive RemoteSignError :=
  | Unreachable | Withdrawn | CardAbsent | Cancelled | Expired
  | CredentialRejected | CredentialLocked | Unsupported | Ambiguous.

Definition ck_rv (self : RemoteSignError) : Z :=
  match self with
  | Unreachable | Withdrawn => CKR_DEVICE_REMOVED
  | CardAbsent => CKR_TOKEN_NOT_PRESENT
  | Cancelled | Expired => CKR_FUNCTION_CANCELED
  | CredentialRejected => CKR_PIN_INCORRECT
  | CredentialLocked => CKR_PIN_LOCKED
  | Unsupported => CKR_MECHANISM_INVALID
  | Ambiguous => CKR_DEVICE_ERROR
  end.

(** ** Lemmas *)

Context `{!HexLaws}.

Lemma parse_slot_id_ok hex id : RemoteSlotId_parse hex = Some (Ok id) ->
  len (slot_id_bytes id) = PAIR_ID_SIZE /\ all_bytes (slot_id_bytes id) /\
  to_hex id = map to_lower hex.
Proof.
  unfold RemoteSlotId_parse, PAIR_ID_HEX_SIZE. case_if; [done|].
  destruct (hex_decode hex) as [d|] eqn:Hd; [|done]. case_if; [|done].
  intros [= <-]. apply hex_encode_decode in Hd as (? & ? & ?). done.
Qed.

Lemma parse_slot_id_total hex : len hex = PAIR_ID_HEX_SIZE -> forallb is_ascii_hexdigit hex = true ->
  exists id, RemoteSlotId_parse hex = Some (Ok id).
Proof.
  intros Hl Hh. unfold RemoteSlotId_parse. rewrite Hl, Hh, Z.eqb_refl. cbn [negb orb].
  destruct (hex_decode_total hex) as [d Hd]; [by rewrite Hl|done|]. rewrite Hd.
  apply hex_encode_decode in Hd as (_ & Hd & _). unfold PAIR_ID_HEX_SIZE in Hl.
  replace (len d =? PAIR_ID_SIZE) with true by lia. eauto.
Qed.

Lemma hex_encode_injective a b : all_bytes a -> all_bytes b -> hex_encode a = hex_encode b -> a = b.
Proof. intros Ha Hb E. apply hex_decode_encode in Ha, Hb. rewrite E in Ha. congruence. Qed.

(** A pair identifier the parser made. *)
Definition slot_id_ok (id : RemoteSlotId) : Prop :=
  all_bytes (slot_id_bytes id) /\ len (slot_id_bytes id) = PAIR_ID_SIZE.

Definition kind_ok (k : SlotKind) : Prop :=
  match remote_pair_id k with Some id => slot_id_ok id | None => True end.

(** Two slots of one device. *)
Definition same_device (k k' : SlotKind) : Prop :=
  match k, k' with
  | Local reader, Local reader' => reader = reader'
  | Remote id _ _, Remote id' _ _ => id = id'
  | _, _ => False
  end.

(** A reader that carries the identifier of the other slot's pairing as its
    name. *)
Definition impersonates (k k' : SlotKind) : Prop :=
  match k, k' with Local reader, Remote id _ _ => reader = to_hex id | _, _ => False end.

Lemma to_hex_injective id id' : slot_id_ok id -> slot_id_ok id' -> to_hex id = to_hex id' -> id = id'.
Proof.
  destruct id as [a], id' as [b]. intros [Ha _] [Hb _] E. f_equal.
  by apply hex_encode_injective in E.
Qed.

End SlotKind.

#[export] Instance demo_hex : Hex := {
  hex_encode := TokenInfo.hex_encode;
  hex_decode := TokenInfo.decoded_hex_bytes }.

(** The serial's hex functions satisfy the laws. *)

Lemma nybble_spec c n : TokenInfo.nybble c = Some n ->
  0 <= n <= 15 /\ TokenInfo.hex_char n = to_lower c /\ is_ascii_hexdigit c = true.
Proof.
  intros Hn. assert (c ∈ seqZ 0x30 0x37) as Hc.
  { apply elem_of_seqZ. unfold TokenInfo.nybble, TokenInfo.between in Hn.
    repeat case_match; to_prop; simplify_eq; lia. }
  assert (forallb (fun c => match TokenInfo.nybble c with
    | Some n => TokenInfo.between 0 15 n && (TokenInfo.hex_char n =? to_lower c) && is_ascii_hexdigit c
    | None => true end) (seqZ 0x30 0x37) = true) as Hall by by vm_compute.
  rewrite forallb_forall in Hall. specialize (Hall c). rewrite Hn in Hall.
  apply list_elem_of_In in Hc. specialize (Hall Hc). unfold TokenInfo.between in Hall. to_prop.
  by split_and!.
Qed.

Lemma hexdigit_nybble c : is_ascii_hexdigit c = true -> is_Some (TokenInfo.nybble c).
Proof.
  unfold is_ascii_hexdigit, TokenInfo.nybble. intros Hc.
  destruct (TokenInfo.between 0x30 0x39 c); [by eexists|].
  destruct (TokenInfo.between 0x61 0x66 c); [by eexists|].
  destruct (TokenInfo.between 0x41 0x46 c); [by eexists|done].
Qed.

(** The octet of two nibbles. *)
Definition octet_of (hi lo : Z) : Z := Z.lor (Z.land (Z.shiftl hi 4) 255) lo.

Lemma octet_of_spec hi lo : 0 <= hi <= 15 -> 0 <= lo <= 15 ->
  is_u8 (octet_of hi lo) /\ Z.shiftr (octet_of hi lo) 4 = hi /\ Z.land (octet_of hi lo) 15 = lo.
Proof.
  intros Hh Hl. assert (forallb (fun p => is_u8b (octet_of p.1 p.2)
    && (Z.shiftr (octet_of p.1 p.2) 4 =? p.1) && (Z.land (octet_of p.1 p.2) 15 =? p.2))
    (list_prod (seqZ 0 16) (seqZ 0 16)) = true) as Hall by by vm_compute.
  rewrite forallb_forall in Hall. specialize (Hall (hi, lo)). cbn [fst snd] in Hall.
  assert (In (hi, lo) (list_prod (seqZ 0 16) (seqZ 0 16))) as Hin.
  { apply in_prod; apply list_elem_of_In, elem_of_seqZ; lia. }
  specialize (Hall Hin). unfold is_u8b in Hall. to_prop. split_and!; ulia.
Qed.

(** Induction two octets at a time. *)
Lemma pairs_ind {A} (P : list A -> Prop) :
  P [] -> (forall a, P [a]) -> (forall a b l, P l -> P (a :: b :: l)) -> forall l, P l.
Proof.
  intros H0 H1 H2. fix IH 1. intros [|a [|b l]]; [apply H0|apply H1|]. apply H2, IH.
Qed.

#[export] Instance demo_hex_laws : HexLaws.
Proof.
  split.
  - apply TokenInfo.decode_hex_encode.
  - intros text bs. unfold hex_decode, demo_hex, TokenInfo.decoded_hex_bytes. case_if; [done|].
    revert bs. induction text as [|a|a b text IH] using pairs_ind; intros bs.
    + intros [= <-]. by split_and!; [constructor|..].
    + by rewrite len_cons, len_nil in E.
    + cbn [TokenInfo.decode_pairs]. destruct (TokenInfo.nybble a) as [hi|] eqn:Ha; [|done].
      destruct (TokenInfo.nybble b) as [lo|] eqn:Hb; [|done]. cbn [mbind option_bind].
      destruct (TokenInfo.decode_pairs text) as [out|]; [|done]. cbn [mbind option_bind].
      intros [= <-]. apply nybble_spec in Ha as (? & Ha & _), Hb as (? & Hb & _).
      destruct (octet_of_spec hi lo) as (? & Hh & Hl); [done..|].
      destruct (IH ltac:(rewrite !len_cons in E; rewrite <- (Z_mod_plus _ 1 2) by lia;
        replace (len text + 1 * 2) with (1 + (1 + len text)) by lia; done) out)
        as (? & ? & Hout); [done|].
      split_and!; [by constructor|rewrite !len_cons; lia|].
      cbn [hex_encode TokenInfo.hex_encode map]. unfold TokenInfo.NIBBLE_BITS, TokenInfo.LOW_NIBBLE_MASK.
      fold (octet_of hi lo). rewrite Hh, Hl, Ha, Hb. by f_equal; f_equal.
  - intros text He Hd. unfold hex_decode, demo_hex, TokenInfo.decoded_hex_bytes.
    unfold TokenInfo.HEX_CHARS_PER_BYTE. rewrite He. cbn [Z.eqb negb]. clear He.
    induction text as [|a|a b text IH] using pairs_ind; [by eexists..|].
    cbn [forallb] in Hd. to_prop. cbn [TokenInfo.decode_pairs].
    destruct (hexdigit_nybble a) as [? ->]; [done|]. destruct (hexdigit_nybble b) as [? ->]; [done|].
    destruct IH as [? ->]; [done|]. by eexists.
  - intros bs. induction 1 as [|b bs Hb _ IH]; [done|]. cbn [hex_encode demo_hex] in *.
    cbn [TokenInfo.hex_encode forallb]. destruct (TokenInfo.octet_nibbles b Hb) as (H1 & H2 & _).
    apply TokenInfo.nybble_hex_char, nybble_spec in H1 as (_ & _ & H1).
    apply TokenInfo.nybble_hex_char, nybble_spec in H2 as (_ & _ & H2). by rewrite H1, H2, IH.
Qed.

(** ** Properties *)

(** The process-lifetime PIN state of a slot is keyed by its device: two
    slots have the same key exactly when they are the same reader or the same
    pairing, or when one is a local reader whose name is the hex of the other's
    pair identifier, a name its driver may choose. *)
Theorem cache_key_shared_exactly `{HexLaws} (k k' : SlotKind) :
  kind_ok k -> kind_ok k' ->
  cache_key k = cache_key k' <-> same_device k k' \/ impersonates k k' \/ impersonates k' k.
Proof.
  intros Hk Hk'. destruct k as [r|id l c], k' as [r'|id' l' c']; cbn in *.
  - tauto.
  - tauto.
  - intuition.
  - split; [intros E%to_hex_injective; auto|]. intros [->|[[]|[]]]; done.
Qed.

Lemma cache_key_shared_exactly_witness :
  cache_key (Local (TokenInfo.hex_encode (repeat 0xA5 16)))
    = cache_key (Remote (mkRemoteSlotId (repeat 0xA5 16)) [] []) <->
  same_device (Local (TokenInfo.hex_encode (repeat 0xA5 16)))
    (Remote (mkRemoteSlotId (repeat 0xA5 16)) [] []) \/
  impersonates (Local (TokenInfo.hex_encode (repeat 0xA5 16)))
    (Remote (mkRemoteSlotId (repeat 0xA5 16)) [] []) \/
  impersonates (Remote (mkRemoteSlotId (repeat 0xA5 16)) [] [])
    (Local (TokenInfo.hex_encode (repeat 0xA5 16))).
Proof.
  apply (cache_key_shared_exactly (Local (TokenInfo.hex_encode (repeat 0xA5 16)))
    (Remote (mkRemoteSlotId (repeat 0xA5 16)) [] [])); [done|].
  split; [by apply all_bytesb_spec|reflexivity].
Defined.

End Slot.
