(* ===== verification/Pkcs11Card.v ===== *)
(** * PIN-bearing card operations of the PKCS#11 module

    crates/pkcs11/src/token.rs: the login that verifies a PIN1 and keeps it,
    the signature that presents the kept PIN1, and the change of PIN1, each in
    one PC/SC transaction that ends with a card reset; and the object handles
    of a raised token.

    The PC/SC operations around the transaction are a class ([PcscPort]); the
    card is the [CardTransport] of the components below.  An operation is a
    computation on the transport with the slot's PIN cache beside it.  The
    cache's mutex is released across each exchange; the operations here run
    alone on their cache, and the sequences of Pkcs11PinCache cover the steps
    of others in between.

    The theorems: a signature and a login each put at most one PIN on the wire,
    in one VERIFY, and only the PIN they may by what the card reported in the
    same transaction. *)

From stdpp Require Import base list strings.
From Stdlib Require Import ZArith Lia.
From S2P Require Import Prelude ApduStatus ApduCommand ApduIso7816 Pkcs15Fs AuthCredentials CardTrace.
From S2P Require Import AuthCard Sign Pkcs15TokenInfo Pkcs11PinCache Pkcs11Sign Pkcs11Slot.

Module CardOps.
Import Ck Apdu Iso7816 Pkcs15 Trace Credentials Auth PinCache Slot CardSign.

(** ** The PC/SC port *)

Class PcscPort (T : Type) := {
  open_pin_session : bytes -> exec T unit unit;
  begin_transaction : exec T unit unit;
  end_with_reset : exec T unit unit;
  read_card_events : bytes -> exec T unit Z }.

(** [check_retry_floor] as the module reports it. *)
Definition pin1_verify_guard (status : PinStatus) : result Z unit :=
  match check_retry_floor FlooredPin1 status with
  | Ok _ => Ok tt
  | Err (TriesBelowFloor _ _) | Err (Blocked _) => Err CKR_PIN_LOCKED
  | Err (CounterUnreadable _) => Err CKR_DEVICE_ERROR
  end.

(** One more iteration than the object cap; the read loop ends within it. *)
Definition READ_FUEL : nat := Z.to_nat (MAX_OBJECT_BYTES + 1).

Section Ops.
Context (hmac_sha256 : bytes -> bytes -> option bytes).
Context {T E : Type} `{CardTransport T E} `{PcscPort T} (kind_of_error : E -> TransportErrorKind).

Definition live_token_serial : exec T (fault Z) bytes := fun t =>
  match TokenInfo.read_token_info READ_FUEL t with
  | None => (Err Panicked, t)
  | Some (Err _, t) => (Err (Raised CKR_DEVICE_ERROR), t)
  | Some (Ok info, t) =>
      (match TokenInfo.render_token_serial <$> TokenInfo.serial_number_hex info with
       | Some serial =>
           if negb (is_empty serial) then Ok serial else Err (Raised CKR_DEVICE_ERROR)
       | None => Err (Raised CKR_DEVICE_ERROR)
       end, t)
  end.

(** ** Operations with the cache beside the card *)

Abbreviation st := (T * PinSafetyCache)%type.
Abbreviation op A := (exec st (fault Z) A).

Definition on_card {X A} (m : exec T X A) : exec st X A := fun s =>
  let '(r, t) := m s.1 in (r, (t, s.2)).

(** [.map_err(|_| CKR_DEVICE_ERROR)?]. *)
Definition or_device_error {X A} (m : exec T X A) : op A :=
  emap_err (fun _ => Raised CKR_DEVICE_ERROR) (on_card m).

(** An exchange whose outcome is looked at; a panic ends the call. *)
Definition answer_of {A} (m : exec T (fault (AuthError E)) A) : op (result (AuthError E) A) := fun s =>
  match m s.1 with
  | (Ok a, t) => (Ok (Ok a), (t, s.2))
  | (Err (Raised e), t) => (Ok (Err e), (t, s.2))
  | (Err Panicked, t) => (Err Panicked, (t, s.2))
  end.

Definition set_cache (c : PinSafetyCache) : op unit := fun s => (Ok tt, (s.1, c)).
Definition get_cache : op PinSafetyCache := fun s => (Ok s.2, s).

(** [clear_positive(pin_cache); return Err(error)]. *)
Definition clear_and_fail {A} (error : Z) : op A := fun s =>
  (Err (Raised error), (s.1, clear_positive s.2)).

(** A reading whose error destroys the kept PIN1. *)
Definition or_clear {X A} (error : X -> Z) (m : exec T (fault X) A) : op A := fun s =>
  match m s.1 with
  | (Ok a, t) => (Ok a, (t, s.2))
  | (Err (Raised e), t) => clear_and_fail (error e) (t, s.2)
  | (Err Panicked, t) => (Err Panicked, (t, s.2))
  end.

(** [card.pin_sequence(body).map_err(..)?]: the transaction, and its end with
    a reset on every path out of the body; without the reset the body's result
    is withheld. *)
Definition pin_sequence {A} (body : op A) : op A :=
  do? _ <- or_device_error begin_transaction ;;
  fun s =>
    match body s with
    | (Err Panicked, s) => (Err Panicked, s)
    | (r, s) =>
        match end_with_reset s.1 with
        | (Ok _, t) => (r, (t, s.2))
        | (Err _, t) => (Err (Raised CKR_DEVICE_ERROR), (t, s.2))
        end
    end.

(** [Pin1::reconstruct(as_bytes)]: the error the caller names when refused. *)
Definition pin1_of (pin : PinBytes) (refused : Z) : op Pin1 :=
  do? digits <- or_panic (PinCache.as_bytes pin) ;;
  do? reconstructed <- or_panic (Pin1_reconstruct digits) ;;
  match reconstructed with Ok pin1 => eret pin1 | Err _ => eraise refused end.

(** ** Signing *)

Definition sign_body (reader : bytes) (request : CardSignInput) (now lease : Z) : op bytes :=
  do? _ <- or_device_error select_pkcs15_application ;;
  do? serial <- or_clear (fun e => e) live_token_serial ;;
  do? pin1_status <- or_clear (fun _ => CKR_DEVICE_ERROR) (pin_status Slot1) ;;
  do? _ <- match pin1_verify_guard pin1_status with
           | Ok _ => eret tt
           | Err error => clear_and_fail error
           end ;;
  do? card_events <- or_clear (fun _ : unit => CKR_DEVICE_ERROR)
                       (emap_err Raised (read_card_events reader)) ;;
  do? cache <- get_cache ;;
  let '(out, cache) := checkout_pin1_at cache serial card_events pin1_status now lease in
  do? _ <- set_cache cache ;;
  do? checkout <- elift_raise (ok_or out CKR_USER_NOT_LOGGED_IN) ;;
  do? pin1 <- pin1_of (cp_pin (co_entry checkout)) CKR_DEVICE_ERROR ;;
  do? answer <- answer_of (verify_pin1 pin1) ;;
  do? cache <- get_cache ;;
  do? settled <- or_panic (settle_verify hmac_sha256 kind_of_error checkout cache answer) ;;
  let '(accepted, cache) := settled in
  do? _ <- set_cache cache ;;
  do? accepted <- elift_raise
    match answer, accepted with
    | Ok VerifyOk, Some accepted => Ok accepted
    | Ok (WrongPin _), _ => Err CKR_PIN_INCORRECT
    | Ok VerifyLocked, _ => Err CKR_PIN_LOCKED
    | _, _ => Err CKR_DEVICE_ERROR
    end ;;
  fun s =>
    let '(signed, t) := sign_with_card request s.1 in
    let failure := match signed with Ok _ => None | Err e => Some e end in
    (map_err (fun _ => Raised CKR_DEVICE_ERROR) signed,
     (t, settle_operation kind_of_error accepted s.2 failure)).

Definition card_sign (kind : SlotKind) (mechanism : Mechanism) (input : bytes) (now lease : Z)
  : op bytes :=
  do? request <- elift_raise (CardSignInput_parse mechanism input) ;;
  do? reader <- elift_raise (ok_or (local_reader kind) CKR_DEVICE_ERROR) ;;
  do? _ <- or_device_error (open_pin_session reader) ;;
  pin_sequence (sign_body reader request now lease).

(** ** Login *)

Definition settle_login (cache : PinSafetyCache) (serial : bytes) (card_events : Z) (pin1 : PinBytes)
  (pin1_status : PinStatus) (outcome : VerifyOutcome) (now : Z)
  : option (result Z unit * PinSafetyCache) :=
  match outcome with
  | VerifyOk =>
      '(stored, cache) ←
        (if pin1_status_permits_reusable_cache pin1_status
         then store_pin1 hmac_sha256 cache serial card_events pin1
         else stage_pin1_once_at hmac_sha256 cache serial card_events pin1 now);
      Some (map_err (fun _ => CKR_PIN_INCORRECT) stored, cache)
  | WrongPin _ =>
      cache ← record_rejected hmac_sha256 cache serial pin1;
      Some (Err CKR_PIN_INCORRECT, cache)
  | VerifyLocked => Some (Err CKR_PIN_LOCKED, cache)
  | VerifyOther _ => Some (Err CKR_DEVICE_ERROR, cache)
  end.

Definition login_body (reader : bytes) (pin1 : PinBytes) (now : Z) : op unit :=
  do? _ <- or_device_error select_pkcs15_application ;;
  do? serial <- or_clear (fun e => e) live_token_serial ;;
  do? pin1_status <- or_clear (fun _ => CKR_DEVICE_ERROR) (pin_status Slot1) ;;
  do? _ <- match pin1_verify_guard pin1_status with
           | Ok _ => eret tt
           | Err error => clear_and_fail error
           end ;;
  do? card_events <- or_device_error (read_card_events reader) ;;
  do? cache <- get_cache ;;
  do? rejected <- or_panic (is_rejected hmac_sha256 cache serial pin1) ;;
  if rejected : bool then eraise CKR_PIN_INCORRECT
  else
  do? pin1_val <- pin1_of pin1 CKR_PIN_INCORRECT ;;
  do? answer <- answer_of (verify_pin1 pin1_val) ;;
  do? outcome <- elift_raise (map_err (fun _ => CKR_DEVICE_ERROR) answer) ;;
  do? cache <- get_cache ;;
  do? settled <- or_panic (settle_login cache serial card_events pin1 pin1_status outcome now) ;;
  let '(r, cache) := settled in
  do? _ <- set_cache cache ;;
  elift_raise r.

Definition card_login (kind : SlotKind) (pin1 : PinBytes) (now : Z) : op unit :=
  if is_remote kind then eret tt
  else
  do? reader <- elift_raise (ok_or (local_reader kind) CKR_DEVICE_ERROR) ;;
  do? _ <- or_device_error (open_pin_session reader) ;;
  pin_sequence (login_body reader pin1 now).

End Ops.

(** ** Lemmas: what is sent *)

(** The PC/SC operations send no command. *)
#[export] Instance traced_port {T E} `{PcscPort T} : PcscPort (T * list (sent E)) := {
  open_pin_session reader := fun s => let '(r, t) := open_pin_session reader s.1 in (r, (t, s.2));
  begin_transaction := fun s => let '(r, t) := begin_transaction s.1 in (r, (t, s.2));
  end_with_reset := fun s => let '(r, t) := end_with_reset s.1 in (r, (t, s.2));
  read_card_events reader := fun s => let '(r, t) := read_card_events reader s.1 in (r, (t, s.2)) }.

Section Sent.
Context (hmac_sha256 : bytes -> bytes -> option bytes).
Context {T E : Type} `{CardTransport T E} `{PcscPort T} (kind_of_error : E -> TransportErrorKind).
Abbreviation trace := (list (sent E)).
Abbreviation lt := (T * trace)%type.
Abbreviation st := (T * trace * PinSafetyCache)%type.
Abbreviation op A := (exec st (fault Z) A).

(** A run of [m] from [s] appends [n] to the log, and [Q] holds of [n], the
    result and the state it leaves. *)
Definition run_sends {X A} (m : exec st X A) (s : st) (Q : trace -> result X A -> st -> Prop) : Prop :=
  exists n, log (m s).2 = log s ++ n /\ Q n (m s).1 (m s).2.

Lemma run_sends_bind {X A B} (m : exec st X A) (k : A -> exec st X B) s
  (P : trace -> result X A -> st -> Prop) (Q : trace -> result X B -> st -> Prop) :
  run_sends m s P ->
  (forall n e s', P n (Err e) s' -> Q n (Err e) s') ->
  (forall n a s', m s = (Ok a, s') -> P n (Ok a) s' ->
     run_sends (k a) s' (fun n' r s'' => Q (n ++ n') r s'')) ->
  run_sends (ebind m k) s Q.
Proof.
  intros (n & Hn & HP) He Hk. unfold run_sends, ebind.
  destruct (m s) as [[a|e] s'] eqn:Em; cbn [fst snd] in *; [|by eauto].
  destruct (Hk n a s' eq_refl HP) as (n' & Hn' & HQ). exists (n ++ n').
  by rewrite Hn', Hn, app_assoc.
Qed.

Lemma run_sends_mono {X A} (m : exec st X A) s (P Q : trace -> result X A -> st -> Prop) :
  run_sends m s P -> (forall n r s', P n r s' -> Q n r s') -> run_sends m s Q.
Proof. intros (n & Hn & HP) HPQ. exists n. auto. Qed.

(** Nothing but plain commands is sent, and the cache is as it was. *)
Definition quiet {A} (s : st) (n : trace) (r : result (fault Z) A) (s' : st) : Prop :=
  Forall is_plain n /\ s'.2 = s.2.

Lemma silent_quiet {A} (m : op A) s : log (m s).2 = log s -> (m s).2.2 = s.2 ->
  run_sends m s (quiet s).
Proof. intros Hl Hc. exists []. rewrite app_nil_r. by split; [|split]. Qed.

(** A card operation that sends plain commands. *)
Lemma on_card_plain {X A} (m : exec lt X A) s : plain_only m ->
  exists n, log (on_card m s).2 = log s ++ n /\ Forall is_plain n /\ (on_card m s).2.2 = s.2 /\
    (on_card m s).1 = (m s.1).1.
Proof.
  intros Hm. destruct (Hm s.1) as (n & Hn & Hp). exists n. unfold on_card.
  destruct (m s.1) as [r t]. by split_and!.
Qed.

Lemma device_quiet {X A} (m : exec lt X A) s : plain_only m -> run_sends (or_device_error m) s (quiet s).
Proof.
  intros Hm. destruct (on_card_plain m s Hm) as (n & Hn & Hp & Hc & _). exists n.
  unfold or_device_error, emap_err. destruct (on_card m s) as [r s']. by split_and!.
Qed.

(** A reading that destroys the PIN1 on an error. *)
Lemma clear_quiet {X A} (error : X -> Z) (m : exec lt (fault X) A) s : plain_only m ->
  run_sends (or_clear error m) s (fun n r s' => Forall is_plain n /\ (is_ok r = true -> s'.2 = s.2)).
Proof.
  intros Hm. destruct (Hm s.1) as (n & Hn & Hp). exists n. unfold or_clear, clear_and_fail.
  destruct (m s.1) as [[a|[e|]] t]; by split_and!.
Qed.

(** ** Plain operations below *)

Lemma plain_exchange c : plain_only (exchange c : exec lt (Pkcs15Error E) _).
Proof.
  intros [t l]. unfold exchange, ebind, emap_err. cbn.
  destruct (transmit c t) as [[o|e] t']; cbn; eexists; (split; [done|by constructor]).
Qed.

Lemma plain_select : plain_only (select_pkcs15_application : exec lt (Pkcs15Error E) _).
Proof.
  unfold select_pkcs15_application. apply plain_only_bind; [apply plain_only_lift|]. intros aid.
  apply plain_only_bind; [apply plain_exchange|]. intros r.
  destruct (response_is_ok r); apply plain_only_lift.
Qed.

Lemma plain_select_loop cs sw : plain_only (select_loop cs sw : exec lt (Pkcs15Error E) _).
Proof.
  revert sw. induction cs as [|c cs IH]; intros sw; cbn [select_loop]; [apply (plain_only_lift (Err _))|].
  apply plain_only_bind; [apply plain_exchange|]. intros r.
  destruct (response_is_ok r); [apply plain_only_ret|apply IH].
Qed.

Lemma plain_read_chunk offset want : plain_only (read_chunk offset want : exec lt (Pkcs15Error E) _).
Proof.
  unfold read_chunk. apply plain_only_bind; [apply plain_only_lift|]. intros w.
  apply plain_only_bind; [apply plain_only_lift|]. intros d. apply plain_exchange.
Qed.

Lemma plain_der_loop fuel what collected total (t : lt) r t' :
  der_loop fuel what collected total t = Some (r, t') ->
  exists n, log t' = log t ++ n /\ Forall is_plain n.
Proof.
  revert collected total t. induction fuel as [|fuel IH]; intros collected total t; [done|].
  cbn [der_loop]. case_if; [intros [= _ <-]; exists []; by rewrite app_nil_r|].
  destruct (checked_sub _ _) as [rem|]; [|intros [= _ <-]; exists []; by rewrite app_nil_r].
  destruct (try_from_uint _ _) as [want|]; [|intros [= _ <-]; exists []; by rewrite app_nil_r].
  destruct (plain_read_chunk (len collected) want t) as (n & Hn & Hp).
  destruct (read_chunk (len collected) want t) as [[resp|e] t1]; cbn [snd] in Hn;
    [|intros [= _ <-]; by exists n].
  destruct (der_step _ _ _ _ _) as [r1|[c1 tot1]]; [intros [= _ <-]; by exists n|].
  intros (n' & Hn' & Hp')%IH. exists (n ++ n'). rewrite Hn', Hn, app_assoc.
  by split; [|apply Forall_app].
Qed.

Lemma plain_serial : plain_only (live_token_serial : exec lt (fault Z) bytes).
Proof.
  intros t. unfold live_token_serial, TokenInfo.read_token_info.
  assert (plain_only (do? _ <- select_pkcs15_application ;; select_ef EF_TOKEN_INFO_FID
    : exec lt (Pkcs15Error E) unit)) as Hsel.
  { apply plain_only_bind; [apply plain_select|]. intros _. apply plain_select_loop. }
  destruct (Hsel t) as (n & Hn & Hp). destruct (ebind _ _ t) as [[[]|e] t1]; cbn [snd] in Hn;
    [|by exists n].
  destruct (read_binary_der_object READ_FUEL _ t1) as [[r t2]|] eqn:Hr; cbn [mbind option_bind].
  2: { exists []. by rewrite app_nil_r. }
  apply plain_der_loop in Hr as (n2 & Hn2 & Hp2). exists (n ++ n2).
  rewrite app_assoc, <- Hn, <- Hn2. split; [|by apply Forall_app].
  by destruct (rbind _ _) as [info|].
Qed.

Lemma plain_sign_exchange c stage : plain_only (Sign.exchange c stage : exec lt (Sign.SignError E) _).
Proof.
  eapply traces_mono; [|apply Sign.traces_exchange]. intros n r (o & -> & _). by constructor.
Qed.

Lemma plain_drive self alg hash le :
  plain_only (Sign.drive_chain self alg hash le : exec lt (Sign.SignError E) _).
Proof.
  unfold Sign.drive_chain. apply plain_only_bind; [apply plain_only_lift|]. intros mse.
  apply plain_only_bind; [apply plain_sign_exchange|]. intros _.
  apply plain_only_bind; [|intros sig; apply plain_only_bind; [apply plain_sign_exchange|intros r;
    apply plain_only_ret]].
  destruct (Sign.scheme self); [|apply plain_only_lift].
  apply plain_only_bind; [apply plain_only_lift|]. intros load.
  apply plain_only_bind; [apply plain_sign_exchange|]. intros _. apply plain_only_ret.
Qed.

Lemma plain_sign_with_card request :
  plain_only (sign_with_card request : exec lt (Sign.SignError E) bytes).
Proof.
  destruct request; apply plain_only_bind; intros; try apply plain_only_ret;
    apply plain_only_bind; intros; try apply plain_only_lift; apply plain_drive.
Qed.

(** One VERIFY of PIN1 with the digits, among plain commands. *)
Definition presents (digits : bytes) (n : trace) : Prop :=
  exists pre c o post scheme, n = pre ++ SentCredential c o :: post /\
    Forall is_plain pre /\ Forall is_plain post /\
    expose_wire c = Some (credential_wire scheme
      (mkHeader Plain VERIFY_INS VERIFY_P1 (scheme_reference scheme Slot1)) [digits]).

Lemma presents_around digits n1 n n2 : Forall is_plain n1 -> presents digits n ->
  Forall is_plain n2 -> presents digits (n1 ++ n ++ n2).
Proof.
  intros H1 (pre & c & o & post & scheme & -> & Hp & Hq & Hw) H2.
  exists (n1 ++ pre), c, o, (post ++ n2), scheme. split_and!.
  - by rewrite <- !app_assoc.
  - by apply Forall_app.
  - by apply Forall_app.
  - done.
Qed.

(** One presentation that [May] allows, or plain commands only and an error. *)
Definition presents_at_most {A} (May : bytes -> Prop) (n : trace) (r : result (fault Z) A) : Prop :=
  (Forall is_plain n /\ is_ok r = false) \/ exists digits, May digits /\ presents digits n.

Lemma at_most_cons {A} May n1 n (r : result (fault Z) A) :
  Forall is_plain n1 -> presents_at_most May n r -> presents_at_most May (n1 ++ n) r.
Proof.
  intros H1 [[Hp Hr]|(d & Hd & Hp)].
  - left. by split; [apply Forall_app|].
  - right. exists d. split; [done|]. rewrite <- (app_nil_r n). by apply presents_around.
Qed.

(** The VERIFY of a PIN: it goes out once, or the numbering was not resolved. *)
Lemma verify_pin1_sends pin digits : Pin1_digits pin = Some digits -> group_ok digits ->
  traces (fun n r => (Forall is_plain n /\ is_ok r = false) \/ presents digits n)
    (verify_pin1 pin : exec lt (fault (AuthError E)) _).
Proof.
  intros Hd Hg. unfold verify_pin1. eapply traces_bind; [apply plain_resolve| |].
  - intros n e Hn. by left.
  - intros n scheme Hn. unfold verify_pin1_with_scheme, or_panic. rewrite Hd.
    change (ebind _ _) with (verify_digits scheme Slot1 digits : exec lt (fault (AuthError E)) _).
    unfold verify_digits. eapply traces_bind;
      [apply (traces_credential scheme _ [digits]); [by constructor|done]| |].
    + intros n' e (c & o & -> & Hw & _). right. by exists n, c, o, [], scheme.
    + intros n' sw (c & o & -> & Hw & _). eapply traces_mono; [|apply traces_ret].
      intros n'' r [-> _]. right. by exists n, c, o, [], scheme.
Qed.

Lemma verify_answer_sends pin digits s : Pin1_digits pin = Some digits -> group_ok digits ->
  run_sends (answer_of (verify_pin1 pin)) s (fun n r _ =>
    (Forall is_plain n /\ (forall a, r <> Ok (Ok a))) \/ presents digits n).
Proof.
  intros Hd Hg. destruct (verify_pin1_sends pin digits Hd Hg s.1) as (n & Hn & Hp). exists n.
  unfold answer_of. destruct (verify_pin1 pin s.1) as [[a|[e|]] t]; cbn in *; (split; [done|]);
    destruct Hp as [[Hp Ho]|Hp]; try done; first [by right|by left].
Qed.

(** The PIN a cached value stands for. *)
Lemma pin1_of_sends pin refused s : pin_ok pin ->
  run_sends (pin1_of pin refused) s (fun n r s' => n = [] /\ s' = s /\
    forall p, r = Ok p -> exists digits, PinCache.as_bytes pin = Some digits /\
      Pin1_digits p = Some digits /\ group_ok digits).
Proof.
  intros [bs (Hb & Hne & Hl & Hd)%PinBytes_new_ok].
  destruct (reconstruct_digits bs) as (p & Hr & Hp); [done..|].
  exists []. unfold pin1_of, or_panic. rewrite Hb. unfold ebind. rewrite Hr. cbn.
  rewrite app_nil_r. split_and!; [done..|]. intros p' [= <-]. exists bs.
  split_and!; [done..|]. unfold group_ok, PIN_STORED_LENGTH. lia.
Qed.

(** ** Composition *)

(** A step that sends no credential. *)
Lemma bind_quiet {A B} May (m : op A) (k : A -> op B) s :
  run_sends m s (fun n r s' => Forall is_plain n /\ (is_ok r = true -> s'.2 = s.2)) ->
  (forall a s', m s = (Ok a, s') -> s'.2 = s.2 ->
     run_sends (k a) s' (fun n r _ => presents_at_most May n r)) ->
  run_sends (ebind m k) s (fun n r _ => presents_at_most May n r).
Proof.
  intros Hm Hk. eapply run_sends_bind; [apply Hm| |].
  - intros n e s' [Hn _]. by left.
  - intros n a s' Hs [Hn Hc]. eapply run_sends_mono; [apply Hk; [done|by apply Hc]|].
    intros n' r s'' Hn'. by apply at_most_cons.
Qed.

Lemma quiet_kept {A} (m : op A) s : run_sends m s (quiet s) ->
  run_sends m s (fun n r s' => Forall is_plain n /\ (is_ok r = true -> s'.2 = s.2)).
Proof. intros Hm. eapply run_sends_mono; [apply Hm|]. by intros n r s' [? ?]. Qed.

(** What a step that succeeded read from the card. *)
Lemma device_ok {X A} (m : exec lt X A) s a s' :
  or_device_error m s = (Ok a, s') -> m s.1 = (Ok a, s'.1).
Proof.
  unfold or_device_error, emap_err, on_card. destruct (m s.1) as [[b|e] t]; cbn; by intros [= <- <-].
Qed.

Lemma clear_ok {X A} (error : X -> Z) (m : exec lt (fault X) A) s a s' :
  or_clear error m s = (Ok a, s') -> m s.1 = (Ok a, s'.1).
Proof.
  unfold or_clear, clear_and_fail. destruct (m s.1) as [[b|[e|]] t]; cbn; by intros [= <- <-].
Qed.

Lemma raise_ok {A} (r : result Z A) (s s' : st) a :
  elift_raise r s = (Ok a, s') -> r = Ok a /\ s' = s.
Proof. destruct r; cbn; by intros [= <- <-]. Qed.

Lemma events_ok reader (s s' : st) (a : Z) :
  or_clear (fun _ : unit => CKR_DEVICE_ERROR) (emap_err Raised (read_card_events reader)) s = (Ok a, s') ->
  read_card_events reader s.1 = (Ok a, s'.1).
Proof.
  intros Hc%clear_ok. unfold emap_err in Hc. destruct (read_card_events reader s.1) as [[z|e] t]; cbn in Hc;
    by simplify_eq.
Qed.

Lemma plain_get_cache : plain_only (get_cache : op _).
Proof. intros s. exists []. by rewrite app_nil_r. Qed.
Lemma plain_set_cache c : plain_only (set_cache c : op _).
Proof. intros s. exists []. by rewrite app_nil_r. Qed.
Lemma plain_or_panic {A} (o : option A) : plain_only (or_panic o : op A).
Proof. intros s. exists []. rewrite app_nil_r. by destruct o. Qed.

Lemma guard_sends s status :
  run_sends (match pin1_verify_guard status with
             | Ok _ => eret tt | Err error => clear_and_fail error end : op unit) s
    (fun n r s' => Forall is_plain n /\
       (is_ok r = true -> s'.2 = s.2 /\ pin1_verify_guard status = Ok tt)).
Proof.
  exists []. rewrite app_nil_r. destruct (pin1_verify_guard status) as [[]|e]; by split_and!.
Qed.

Lemma plain_events reader : plain_only (read_card_events reader : exec lt unit Z).
Proof.
  intros [t l]. exists []. rewrite app_nil_r. cbn. by destruct (read_card_events reader t).
Qed.
Lemma plain_emap {X Y A} (f : X -> Y) (m : exec lt X A) : plain_only m -> plain_only (emap_err f m).
Proof.
  intros Hm s. destruct (Hm s) as (n & Hn & Hp). exists n. unfold emap_err.
  by destruct (m s) as [r s'].
Qed.

Lemma plain_pin_status : plain_only (pin_status Slot1 : exec lt (fault (AuthError E)) _).
Proof. apply plain_only_bind; [apply plain_pin1_status|]. intros. apply plain_only_ret. Qed.

(** ** What the card and its reader report to an operation *)

(** The serial, the PIN1 counter and the insertion count read from [t] on, in
    the transaction the operation begins. *)
Definition card_reports (reader : bytes) (t : lt) (serial : bytes) (status : PinStatus) (events : Z)
  : Prop :=
  exists t1 t2 t3 t4 t5 t6 info hex,
    open_pin_session reader t = (Ok tt, t1) /\ begin_transaction t1 = (Ok tt, t2) /\
    select_pkcs15_application t2 = (Ok tt, t3) /\
    TokenInfo.read_token_info READ_FUEL t3 = Some (Ok info, t4) /\
    TokenInfo.serial_number_hex info = Some hex /\ serial = TokenInfo.render_token_serial hex /\
    pin_status Slot1 t4 = (Ok status, t5) /\ read_card_events reader t5 = (Ok events, t6).

(** The retry floor: five, four or three tries left, or PIN1 verified. *)
Definition above_floor (status : PinStatus) : Prop :=
  status = Verified \/ exists r, status = Remaining r /\ 3 <= Status.retries_get r <= 5.

(** The PIN a signature may present: the one the cache keeps for the serial and
    the insertion count the card reports, under a counter above the floor that
    is verified or pristine, and within its bridge if it has one. *)
Definition may_sign (reader : bytes) (s : st) (now : Z) (digits : bytes) : Prop :=
  exists serial status events e,
    card_reports reader s.1 serial status events /\ above_floor status /\
    positive_pin1 s.2 = Some e /\ cp_serial e = serial /\ cp_card_events e = events /\
    (status = Verified \/ status = Remaining (Status.mkPinRetries RETRIES_PRISTINE)) /\
    (forall staged, cp_retention e = Bridge staged -> staged <= now < staged + PIN1_LOGIN_BRIDGE) /\
    PinCache.as_bytes (cp_pin e) = Some digits.

(** The PIN a login may present: its own, under a counter above the floor, and
    not remembered as refused by the card of the serial it reports. *)
Definition may_login (reader : bytes) (s : st) (pin : PinBytes) (digits : bytes) : Prop :=
  exists serial status events,
    card_reports reader s.1 serial status events /\ above_floor status /\
    PinCache.as_bytes pin = Some digits /\
    pin_fingerprint hmac_sha256 SLOT_TAG_PIN1 serial digits (fingerprint_key (negative s.2))
      ∉ rejected (negative s.2) Slot1.

Lemma guard_above status : pin1_verify_guard status = Ok tt -> above_floor status.
Proof.
  unfold pin1_verify_guard, above_floor. destruct status as [|r| | |]; cbn; try done; [by left|].
  pose proof (from_retries_spec r) as Hr. intros Hg. right. exists r. split; [done|].
  destruct (from_retries r) as [[]|]; cbn in *; (done || lia).
Qed.

Lemma serial_reading (t t' : lt) serial :
  live_token_serial t = (Ok serial, t') ->
  exists info hex, TokenInfo.read_token_info READ_FUEL t = Some (Ok info, t') /\
    TokenInfo.serial_number_hex info = Some hex /\ serial = TokenInfo.render_token_serial hex.
Proof.
  unfold live_token_serial. destruct (TokenInfo.read_token_info READ_FUEL t) as [[[info|] t1]|]; try done.
  destruct (TokenInfo.serial_number_hex info) as [hex|] eqn:Hh; cbn; [|done].
  case_if; intros; simplify_eq. by exists info, hex.
Qed.

(** The readings both operations begin with, up to the retry floor. *)
Lemma readings_sends {B} May reader t0 t1 (k : bytes -> PinStatus -> op B) s :
  open_pin_session reader t0 = (Ok tt, t1) -> begin_transaction t1 = (Ok tt, s.1) ->
  (forall serial status s', s'.2 = s.2 -> above_floor status ->
     (forall events t, read_card_events reader s'.1 = (Ok events, t) ->
        card_reports reader t0 serial status events) ->
     run_sends (k serial status) s' (fun n r _ => presents_at_most May n r)) ->
  run_sends (do? _ <- or_device_error select_pkcs15_application ;;
    do? serial <- or_clear (fun e => e) live_token_serial ;;
    do? pin1_status <- or_clear (fun _ => CKR_DEVICE_ERROR) (pin_status Slot1) ;;
    do? _ <- match pin1_verify_guard pin1_status with
             | Ok _ => eret tt
             | Err error => clear_and_fail error
             end ;;
    k serial pin1_status) s (fun n r _ => presents_at_most May n r).
Proof.
  intros Ho Hb Hk. apply bind_quiet; [apply quiet_kept, device_quiet, plain_select|].
  intros [] s1 H1%device_ok C1. apply bind_quiet; [apply clear_quiet, plain_serial|].
  intros serial s2 H2%clear_ok%serial_reading C2. destruct H2 as (info & hex & Hi & Hh & Hs).
  apply bind_quiet; [apply clear_quiet, plain_pin_status|]. intros status s3 H3%clear_ok C3.
  apply bind_quiet.
  { eapply run_sends_mono; [apply guard_sends|]. intros n r s' [Hn Hr]. split; [done|]. naive_solver. }
  intros [] s4 H4 C4. destruct (pin1_verify_guard status) as [[]|e] eqn:Hg; cbn in H4; [|done].
  injection H4 as <-. apply Hk; [congruence|by apply guard_above|].
  intros events t Hev. exists t1, s.1, s1.1, s2.1, s3.1, t, info, hex. split_and!; try done.
Qed.

Lemma plain_port (m : exec lt unit unit) :
  (forall s, (m s).2.2 = s.2) -> plain_only m.
Proof. intros Hm s. exists []. rewrite app_nil_r. split; [apply Hm|constructor]. Qed.

Lemma pin_sequence_sends {A} May (body : op A) s :
  (forall s', begin_transaction s.1 = (Ok tt, s'.1) -> s'.2 = s.2 ->
     run_sends body s' (fun n r _ => presents_at_most May n r)) ->
  run_sends (pin_sequence body) s (fun n r _ => presents_at_most May n r).
Proof.
  intros Hb. unfold pin_sequence. apply bind_quiet.
  { apply quiet_kept, device_quiet, plain_port. intros [t l]. cbn. by destruct (begin_transaction t). }
  intros [] s' H1%device_ok Hs. destruct (Hb s' H1 Hs) as (n & Hn & Hp). exists n.
  destruct (body s') as [r [[t l] c]]. cbn in *.
  destruct r as [a|[e|]]; cbn; try done; destruct (end_with_reset t) as [[[]|[]] t']; cbn;
    (split; [done|]); destruct Hp as [[Hp Hr]|Hp]; try done; first [by right|by left].
Qed.

(** Presenting a PIN, and what follows the answer. *)
Lemma present_sends {B} (May : bytes -> Prop) pin refused
  (k : result (AuthError E) VerifyOutcome -> op B) s :
  pin_ok pin -> (forall digits, PinCache.as_bytes pin = Some digits -> May digits) ->
  (forall answer, plain_only (k answer)) -> (forall e s, is_ok (k (Err e) s).1 = false) ->
  run_sends (do? pin1 <- pin1_of pin refused ;; do? answer <- answer_of (verify_pin1 pin1) ;; k answer) s
    (fun n r _ => presents_at_most May n r).
Proof.
  intros Hp Hmay Hk He. eapply run_sends_bind; [by apply pin1_of_sends| |].
  - intros n e s' (-> & _). by left.
  - intros n p s' _ (-> & _ & Hd). destruct (Hd p eq_refl) as (digits & Hb & Hpd & Hg).
    cbn [app]. eapply run_sends_bind; [by apply verify_answer_sends| |].
    + intros n e s'' [[Hn _]|Hn]; [by left|right; eauto].
    + intros n a s'' _ Hn. destruct (Hk a s'') as (n' & Hl & Hp'). exists n'. split; [done|].
      destruct Hn as [[Hn Ha]|Hn].
      * left. destruct a as [a|e]; [by destruct (Ha a)|]. by split; [apply Forall_app|].
      * right. exists digits. split; [auto|]. by apply (presents_around _ []).
Qed.

Lemma checkout_entry cache serial ce status now lease out cache' :
  checkout_pin1_at cache serial ce status now lease = (Some out, cache') ->
  positive_pin1 cache = Some (co_entry out) /\ cp_serial (co_entry out) = serial /\
  cp_card_events (co_entry out) = ce /\
  (status = Verified \/ status = Remaining (Status.mkPinRetries RETRIES_PRISTINE)) /\
  (forall staged, cp_retention (co_entry out) = Bridge staged -> staged <= now < staged + PIN1_LOGIN_BRIDGE).
Proof.
  unfold checkout_pin1_at. destruct (positive_pin1 cache) as [e|]; [|done].
  destruct (negb _) eqn:Hu; [done|]. intros [= <- <-]. to_prop. cbn. split_and!; try done.
  - by eapply bool_decide_eq_true_1.
  - by apply permits_spec.
  - intros staged Hr. apply retained_spec. congruence.
Qed.

Lemma plain_sign_end accepted request :
  plain_only (fun s : st => let '(signed, t) := sign_with_card request s.1 in
    let failure := match signed with Ok _ => None | Err e => Some e end in
    (map_err (fun _ => @Raised Z CKR_DEVICE_ERROR) signed,
     (t, settle_operation kind_of_error accepted s.2 failure))).
Proof.
  intros s. destruct (plain_sign_with_card request s.1) as (n & Hn & Hp). exists n.
  by destruct (sign_with_card request s.1) as [signed t].
Qed.

Lemma get_cache_sends {B} (k : PinSafetyCache -> op B) s Q :
  run_sends (k s.2) s Q -> run_sends (do? c <- get_cache ;; k c) s Q.
Proof. done. Qed.

Lemma set_cache_sends {B} c (k : unit -> op B) s Q :
  run_sends (k tt) (s.1, c) Q -> run_sends (do? u <- set_cache c ;; k u) s Q.
Proof. done. Qed.

(** What follows the answer to a VERIFY sends no credential. *)
Lemma plain_settle_sign out request answer :
  plain_only (do? cache <- get_cache ;;
    do? settled <- or_panic (settle_verify hmac_sha256 kind_of_error out cache answer) ;;
    let '(accepted, cache) := settled in
    do? _ <- set_cache cache ;;
    do? accepted <- elift_raise
      match answer, accepted with
      | Ok VerifyOk, Some accepted => Ok accepted
      | Ok (WrongPin _), _ => Err CKR_PIN_INCORRECT
      | Ok VerifyLocked, _ => Err CKR_PIN_LOCKED
      | _, _ => Err CKR_DEVICE_ERROR
      end ;;
    (fun s =>
      let '(signed, t) := sign_with_card request s.1 in
      let failure := match signed with Ok _ => None | Err e => Some e end in
      (map_err (fun _ => Raised CKR_DEVICE_ERROR) signed,
       (t, settle_operation kind_of_error accepted s.2 failure))) : op bytes).
Proof.
  apply plain_only_bind; [apply plain_get_cache|]. intros cache.
  apply plain_only_bind; [apply plain_or_panic|]. intros [accepted cache'].
  apply plain_only_bind; [apply plain_set_cache|]. intros _.
  apply plain_only_bind; [apply plain_only_lift|]. intros a. apply plain_sign_end.
Qed.

Lemma settle_sign_fails out request e s :
  is_ok ((do? cache <- get_cache ;;
    do? settled <- or_panic (settle_verify hmac_sha256 kind_of_error out cache (Err e)) ;;
    let '(accepted, cache) := settled in
    do? _ <- set_cache cache ;;
    do? accepted <- elift_raise
      match (Err e : result (AuthError E) VerifyOutcome), accepted with
      | Ok VerifyOk, Some accepted => Ok accepted
      | Ok (WrongPin _), _ => Err CKR_PIN_INCORRECT
      | Ok VerifyLocked, _ => Err CKR_PIN_LOCKED
      | _, _ => Err CKR_DEVICE_ERROR
      end ;;
    (fun s =>
      let '(signed, t) := sign_with_card request s.1 in
      let failure := match signed with Ok _ => None | Err e => Some e end in
      (map_err (fun _ => Raised CKR_DEVICE_ERROR) signed,
       (t, settle_operation kind_of_error accepted s.2 failure))) : op bytes) s).1 = false.
Proof.
  unfold ebind, get_cache, or_panic. by destruct (settle_verify _ _ _ _ _) as [[]|].
Qed.

Lemma sign_body_sends reader request now lease t0 t1 s s0 :
  (forall e, positive_pin1 s.2 = Some e -> pin_ok (cp_pin e)) ->
  s0.1 = t0 -> s0.2 = s.2 ->
  open_pin_session reader t0 = (Ok tt, t1) -> begin_transaction t1 = (Ok tt, s.1) ->
  run_sends (sign_body hmac_sha256 kind_of_error reader request now lease) s
    (fun n r _ => presents_at_most (may_sign reader s0 now) n r).
Proof.
  intros Hok Ht Hc0 Ho Hb. unfold sign_body.
  apply (readings_sends _ reader t0 t1 (fun serial status => _)); [done..|].
  intros serial status s1 H1 Hg Hrep.
  apply bind_quiet; [apply clear_quiet, plain_emap, plain_events|]. intros ce s2 Hce%events_ok H2.
  apply get_cache_sends. rewrite H2, H1.
  destruct (checkout_pin1_at s.2 serial ce status now lease) as [out cache'] eqn:Hc.
  apply set_cache_sends.
  destruct out as [out|]; [|exists []; rewrite app_nil_r; split; [done|by left]].
  destruct (checkout_entry _ _ _ _ _ _ _ _ Hc) as (He & Hse & Hev & Hst & Hbr).
  apply (present_sends (may_sign reader s0 now) (cp_pin (co_entry out)) CKR_DEVICE_ERROR
    (fun answer => _)); [by apply Hok| | |].
  - intros digits Hd. exists serial, status, ce, (co_entry out). subst t0.
    split_and!; try done; [by eapply Hrep|by rewrite Hc0].
  - intros answer. apply plain_settle_sign.
  - intros e s'. apply settle_sign_fails.
Qed.

Lemma plain_settle_login serial ce pin status answer now :
  plain_only (do? outcome <- elift_raise (map_err (fun _ : AuthError E => CKR_DEVICE_ERROR) answer) ;;
    do? cache <- get_cache ;;
    do? settled <- or_panic (settle_login hmac_sha256 cache serial ce pin status outcome now) ;;
    let '(r, cache) := settled in
    do? _ <- set_cache cache ;;
    elift_raise r : op unit).
Proof.
  apply plain_only_bind; [apply plain_only_lift|]. intros outcome.
  apply plain_only_bind; [apply plain_get_cache|]. intros cache.
  apply plain_only_bind; [apply plain_or_panic|]. intros [r cache'].
  apply plain_only_bind; [apply plain_set_cache|]. intros _. apply plain_only_lift.
Qed.

Lemma login_body_sends reader pin now t0 t1 s s0 : pin_ok pin ->
  s0.1 = t0 -> s0.2 = s.2 ->
  open_pin_session reader t0 = (Ok tt, t1) -> begin_transaction t1 = (Ok tt, s.1) ->
  run_sends (login_body hmac_sha256 reader pin now) s
    (fun n r _ => presents_at_most (may_login reader s0 pin) n r).
Proof.
  intros Hok Ht Hc0 Ho Hb. unfold login_body.
  apply (readings_sends _ reader t0 t1 (fun serial status => _)); [done..|].
  intros serial status s1 H1 Hg Hrep.
  apply bind_quiet; [apply quiet_kept, device_quiet, plain_events|]. intros ce s2 Hce%device_ok H2.
  apply get_cache_sends. rewrite H2, H1.
  destruct (is_rejected_eq hmac_sha256 s.2 serial pin Hok) as (d & Hd & Hr).
  destruct (contains_fingerprint _ _ _) eqn:Hcf; rewrite Hr.
  { exists []. rewrite app_nil_r. split; [done|by left]. }
  apply (present_sends (may_login reader s0 pin) pin CKR_PIN_INCORRECT (fun answer => _)); [done| | |].
  - intros digits Hdd. exists serial, status, ce. subst t0. rewrite Hc0. simplify_eq.
    split_and!; try done; [by eapply Hrep|]. intros Hin%contains_spec. unfold print_of in Hcf. congruence.
  - intros answer. apply plain_settle_login.
  - by intros e s'.
Qed.

Lemma open_quiet reader s : run_sends (or_device_error (open_pin_session reader) : op unit) s (quiet s).
Proof. apply device_quiet, plain_port. intros [t l]. cbn. by destruct (open_pin_session reader t). Qed.

Lemma card_sign_sends reader mechanism input now lease s :
  (forall e, positive_pin1 s.2 = Some e -> pin_ok (cp_pin e)) ->
  run_sends (card_sign hmac_sha256 kind_of_error (Local reader) mechanism input now lease) s
    (fun n r _ => presents_at_most (may_sign reader s now) n r).
Proof.
  intros Hok. unfold card_sign. apply bind_quiet; [apply quiet_kept, silent_quiet; reflexivity|].
  intros request s1 [_ ->]%raise_ok _. change (ebind (elift_raise (ok_or (local_reader (Local reader)) _)) ?k)
    with (k reader). cbv beta. apply bind_quiet; [apply quiet_kept, open_quiet|].
  intros [] s2 Ho%device_ok C2. apply pin_sequence_sends. intros s3 Hb C3.
  eapply sign_body_sends; try done; [|congruence]. by rewrite C3, C2.
Qed.

Lemma card_login_sends reader pin now s : pin_ok pin ->
  run_sends (card_login hmac_sha256 (Local reader) pin now) s
    (fun n r _ => presents_at_most (may_login reader s pin) n r).
Proof.
  intros Hok. unfold card_login. cbn [is_remote].
  change (ebind (elift_raise (ok_or (local_reader (Local reader)) _)) ?k)
    with (k reader). cbv beta. apply bind_quiet; [apply quiet_kept, open_quiet|].
  intros [] s2 Ho%device_ok C2. apply pin_sequence_sends. intros s3 Hb C3.
  by eapply login_body_sends; try done; congruence.
Qed.

End Sent.

(** A card that answers as a FINEID card with five tries left does; its state
    counts the commands. *)
Definition demo_token_info : bytes := [0x30; 0x07; 0x02; 0x01; 0x00; 0x04; 0x02; 0x41; 0x42].
Definition demo_answer (wire : bytes) : ResponseApdu :=
  match wire with
  | _ :: 0xB0 :: _ => mkResponse demo_token_info 0x90 0x00
  | _ :: 0x20 :: _ => mkResponse [] 0x63 0xC5
  | _ :: 0x2A :: 0x9E :: _ => mkResponse (repeat 9 96) 0x90 0x00
  | _ => mkResponse [] 0x90 0x00
  end.
Definition demo_card : CardTransport Z unit := {|
  transmit c := fun n => (Ok (Response (demo_answer (Apdu.as_bytes c))), n + 1);
  transmit_credential _ := fun n => (Ok (Response (mkResponse [] 0x90 0x00)), n + 1) |}.
Definition demo_reader : PcscPort Z := {|
  open_pin_session _ := eret tt;
  begin_transaction := eret tt;
  end_with_reset := eret tt;
  read_card_events _ := eret 4 |}.

(** A login followed by two signatures with the PIN1 it left. *)
Definition demo_session : exec (Z * PinSafetyCache) (fault Z) (bytes * bytes) :=
  let _ := demo_card in let _ := demo_reader in
  do? _ <- card_login demo_hmac (Local [1]) demo_pin 0 ;;
  do? first <- card_sign demo_hmac (fun _ : unit => KindBackend) (Local [1]) Ecdsa (repeat 7 32) 1 0 ;;
  do? second <- card_sign demo_hmac (fun _ : unit => KindBackend) (Local [1]) Ecdsa (repeat 8 48) 2 1 ;;
  eret (first, second).

Example demo_session_signs :
  match demo_session (0, PinCache.new [1]) with
  | (Ok (first, second), (_, cache)) =>
      first = repeat 9 96 /\ second = repeat 9 96 /\
      positive_pin1 cache = Some (mkCachedPin1 [0x41; 0x42] 4 demo_pin 1 Held)
  | _ => False
  end.
Proof. vm_compute. done. Qed.

(** ** Properties *)

(** C23 A PIN1 leaves the computer at most once per operation, in one VERIFY,
    and only the PIN the operation may present, over any card and reader and
    from any state.  A signature on a local reader sends plain commands with at
    most one VERIFY among them, of the digits the cache keeps for the very
    serial and insertion count the card and reader report in that transaction,
    under the counter reported there, above the retry floor; a login sends at
    most one VERIFY, of its own digits, when the counter reported in that
    transaction is above the floor and the rejection memory does not hold those
    digits for the serial reported there.  Either operation that presents no
    PIN fails.  On a remote slot both send nothing: the signature fails and the
    login, which the paired device serves, succeeds. *)
Theorem one_presentation_per_operation (hmac : bytes -> bytes -> option bytes) {T E : Type}
  `{CardTransport T E} `{PcscPort T} (kind_of_error : E -> TransportErrorKind) (kind : SlotKind)
  (mechanism : Mechanism) (input : bytes) (pin : PinBytes) (now lease : Z)
  (s : T * list (sent E) * PinSafetyCache) :
  (forall e, positive_pin1 s.2 = Some e -> pin_ok (cp_pin e)) -> pin_ok pin ->
  match kind with
  | Local reader =>
      run_sends (card_sign hmac kind_of_error kind mechanism input now lease) s
        (fun n r _ => presents_at_most (may_sign reader s now) n r) /\
      run_sends (card_login hmac kind pin now) s
        (fun n r _ => presents_at_most (may_login hmac reader s pin) n r)
  | Remote _ _ _ =>
      run_sends (card_sign hmac kind_of_error kind mechanism input now lease) s
        (fun n r s' => n = [] /\ is_ok r = false /\ s' = s) /\
      run_sends (card_login hmac kind pin now) s (fun n r s' => n = [] /\ r = Ok tt /\ s' = s)
  end.
Proof.
  intros Hc Hp. destruct kind; (split; [|try by apply card_login_sends]); [by apply card_sign_sends|..];
    exists []; rewrite app_nil_r; unfold card_sign, ebind; [|done].
  by destruct (CardSignInput_parse mechanism input).
Qed.

(** The PIN1 of the demonstration card is held; a signature and a login succeed,
    so each presents the PIN. *)
Definition demo_state : Z * list (sent unit) * PinSafetyCache :=
  (0, [], mkPinSafetyCache (Some (mkCachedPin1 [0x41; 0x42] 4 demo_pin 1 Held)) None 1 (cache_new [1])).

Lemma one_presentation_per_operation_witness :
  let _ := demo_card in let _ := demo_reader in
  run_sends (card_sign demo_hmac (fun _ => KindBackend) (Local [1]) Ecdsa (repeat 7 32) 0 0) demo_state
    (fun n _ _ => exists digits, may_sign [1] demo_state 0 digits /\ presents digits n) /\
  run_sends (card_login demo_hmac (Local [1]) demo_pin 0) demo_state
    (fun n _ _ => exists digits, may_login demo_hmac [1] demo_state demo_pin digits /\ presents digits n).
Proof.
  intros card port.
  destruct (one_presentation_per_operation demo_hmac (fun _ => KindBackend) (Local [1]) Ecdsa
    (repeat 7 32) demo_pin 0 0 demo_state) as [(n & Hn & Hs) (m & Hm & Hl)].
  - intros e [= <-]. apply demo_pin_ok.
  - apply demo_pin_ok.
  - split; [exists n|exists m]; (split; [done|]).
    + destruct Hs as [[_ Hs]|Hs]; [by vm_compute in Hs|done].
    + destruct Hl as [[_ Hl]|Hl]; [by vm_compute in Hl|done].
Defined.

End CardOps.
