(* ===== verification/Pkcs11State.v ===== *)
(** * Module and session state of the PKCS#11 module

    crates/pkcs11/src/state.rs: the slot table and its refresh from the readers
    and from a paired phone, the sessions and their operations, the login
    state, and the slot events; the object handles of token.rs.

    The process keeps, beside the module's state, the PIN caches of every
    device it has seen: an [Arc<Mutex<PinSafetyCache>>] is a reference into
    [heap], shared by the process-wide table and the module's per-slot table,
    so what one of them clears the other sees.  No lock is poisoned.  The
    certificate fields of [TokenObjects] that only attribute queries read are
    left out.  [CK_ULONG] is the C type unsigned long, modelled at 64 bits as on
    the LP64 targets; on Windows, where it has 32, handles and their maxima are
    narrower than here and nothing is claimed.

    Every operation is a [step]; [sound] is what each of them keeps, composed
    along runs.  The theorems: slots are only appended and keep their device; a
    handle names one object of one raised token; slot events are each reported
    once; a login ends with its slot's last session; a refresh drops the token
    and the PIN1 of a card whose reader counted a move; and the removal of such
    a card is not left to report. *)

From stdpp Require Import base list gmap.
From Stdlib Require Import ZArith Lia.
From S2P Require Import Prelude ApduCommand AuthCredentials Pkcs11PinCache Pkcs11Sign Pkcs11Slot.

Module State.
Import Ck PinCache Slot CardSign.

(** ** Token objects and their handles (token.rs) *)

Definition OBJ_CERTIFICATE : Z := 1.
Definition OBJ_PRIVATE_KEY : Z := 2.
Definition OBJ_PUBLIC_KEY : Z := 3.
Definition OBJ_PROFILE : Z := 4.
Definition OBJ_CA_BASE : Z := 5.
Definition MAX_CA_CERTS : Z := 16.
Definition ON_CARD_CA_SLOTS_LEN : Z := 2.
Definition MAX_CA_OBJECTS : Z := MAX_CA_CERTS + ON_CARD_CA_SLOTS_LEN.
Definition CA_AND_TRUST_HANDLE_OFFSETS : Z := MAX_CA_OBJECTS * 2.
Definition TOKEN_HANDLE_SPACE : Z := Z.shiftl 1 16.

Inductive ObjectKind :=
  | Certificate | PublicKey | PrivateKey | Profile
  | Ca (idx : Z) | Trust (idx : Z).

#[export] Instance ObjectKind_eq_dec : EqDecision ObjectKind.
Proof. solve_decision. Defined.

Definition handle_offset (index : Z) : Z := default U64_MAX (try_from_uint U64_MAX index).

Definition from_handle (h : Z) : option ObjectKind :=
  if h =? OBJ_CERTIFICATE then Some Certificate
  else if h =? OBJ_PRIVATE_KEY then Some PrivateKey
  else if h =? OBJ_PUBLIC_KEY then Some PublicKey
  else if h =? OBJ_PROFILE then Some Profile
  else if h >=? OBJ_CA_BASE then
    offset ← try_from_uint USIZE_MAX (h - OBJ_CA_BASE);
    if offset <? MAX_CA_OBJECTS then Some (Ca offset)
    else if offset <? CA_AND_TRUST_HANDLE_OFFSETS then Some (Trust (offset - MAX_CA_OBJECTS))
    else None
  else None.

Definition kind_handle (self : ObjectKind) : Z :=
  match self with
  | Certificate => OBJ_CERTIFICATE
  | PrivateKey => OBJ_PRIVATE_KEY
  | PublicKey => OBJ_PUBLIC_KEY
  | Profile => OBJ_PROFILE
  | Ca idx => saturating_add U64_MAX OBJ_CA_BASE (handle_offset idx)
  | Trust idx =>
      saturating_add U64_MAX OBJ_CA_BASE (handle_offset (saturating_add USIZE_MAX idx MAX_CA_OBJECTS))
  end.

Record TokenObjects := mkTokenObjects {
  auth_cert_der : bytes;
  ca_store : list bytes;
  objects_mechanism : Mechanism;
  objects_serial : bytes;
  objects_generation : Z }.

Definition set_generation (self : TokenObjects) (generation : Z) : TokenObjects :=
  mkTokenObjects (auth_cert_der self) (ca_store self) (objects_mechanism self)
    (objects_serial self) generation.

Definition object_exists (self : TokenObjects) (kind : ObjectKind) : bool :=
  match kind with
  | Certificate | PublicKey | PrivateKey | Profile => true
  | Ca idx | Trust idx => bool_decide (is_Some (get (ca_store self) idx))
  end.

Definition all_object_kinds (self : TokenObjects) : list ObjectKind :=
  [Certificate; PublicKey; PrivateKey; Profile]
  ++ map Ca (seqZ 0 (len (ca_store self))) ++ map Trust (seqZ 0 (len (ca_store self))).

Definition saturating_mul (a b : Z) : Z := Z.min U64_MAX (a * b).

Definition object_handle (self : TokenObjects) (kind : ObjectKind) : Z :=
  saturating_add U64_MAX (saturating_mul (objects_generation self) TOKEN_HANDLE_SPACE)
    (kind_handle kind).

Definition kind_of (self : TokenObjects) (handle : Z) : option ObjectKind :=
  if negb (handle / TOKEN_HANDLE_SPACE =? objects_generation self) then None
  else
    kind ← from_handle (handle mod TOKEN_HANDLE_SPACE);
    if object_exists self kind then Some kind else None.

(** ** Sessions (state.rs) *)

Record Session := mkSession {
  session_slot_id : Z;
  session_flags : Z;
  find : option (list Z);
  sign : option Mechanism;
  verify : option Mechanism }.

Definition has_active_sign (self : Session) : bool := bool_decide (is_Some (sign self)).
Definition has_active_verify (self : Session) : bool := bool_decide (is_Some (verify self)).

Definition begin_find (handles : list Z) (self : Session) : Session :=
  mkSession (session_slot_id self) (session_flags self) (Some handles) (sign self) (verify self).

Definition next_find_batch (max : Z) (self : Session) : option (list Z) * Session :=
  match find self with
  | None => (None, self)
  | Some remaining =>
      let wanted := Z.min max (len remaining) in
      (Some (take_z remaining wanted),
       mkSession (session_slot_id self) (session_flags self) (Some (drop_z remaining wanted))
         (sign self) (verify self))
  end.

Definition take_find (self : Session) : bool * Session :=
  (bool_decide (is_Some (find self)),
   mkSession (session_slot_id self) (session_flags self) None (sign self) (verify self)).

Definition begin_sign (mechanism : Mechanism) (self : Session) : Session :=
  mkSession (session_slot_id self) (session_flags self) (find self) (Some mechanism) (verify self).
Definition clear_sign (self : Session) : Session :=
  mkSession (session_slot_id self) (session_flags self) (find self) None (verify self).
Definition begin_verify (mechanism : Mechanism) (self : Session) : Session :=
  mkSession (session_slot_id self) (session_flags self) (find self) (sign self) (Some mechanism).
Definition clear_verify (self : Session) : Session :=
  mkSession (session_slot_id self) (session_flags self) (find self) (sign self) None.

Definition CKF_RW_SESSION : Z := 0x02.
Definition CKS_RO_PUBLIC_SESSION : Z := 0.
Definition CKS_RO_USER_FUNCTIONS : Z := 1.
Definition CKS_RW_PUBLIC_SESSION : Z := 2.
Definition CKS_RW_USER_FUNCTIONS : Z := 3.

Definition session_state (flags : Z) (logged_in : bool) : Z :=
  match negb (Z.land flags CKF_RW_SESSION =? 0), logged_in with
  | false, false => CKS_RO_PUBLIC_SESSION
  | false, true => CKS_RO_USER_FUNCTIONS
  | true, false => CKS_RW_PUBLIC_SESSION
  | true, true => CKS_RW_USER_FUNCTIONS
  end.

(** ** Slots and the module *)

Definition SLOT_ID_BASE : Z := 1.
Definition SESSION_HANDLE_BASE : Z := 1.
Definition FIRST_TOKEN_GENERATION : Z := 1.
(** ["RefineID"]. *)
Definition REMOTE_READER_VENDOR : bytes := [82; 101; 102; 105; 110; 101; 73; 68].

Record ReaderIdentity := mkReaderIdentity {
  vendor_name : option bytes;
  ifd_version : option (Z * Z) }.

Record SlotRecord := mkSlot {
  slot_id : Z;
  slot_kind : SlotKind;
  card_present : bool;
  reader_identity : ReaderIdentity }.

Definition set_present (present : bool) (s : SlotRecord) : SlotRecord :=
  mkSlot (slot_id s) (slot_kind s) present (reader_identity s).

Record ModuleState := mkModule {
  slots : list SlotRecord;
  next_slot_id : Z;
  sessions : gmap Z Session;
  next_session_handle : Z;
  pin_caches : gmap Z Z;
  token_cache : gmap Z TokenObjects;
  event_reported : gmap Z bool;
  remote_logged_in : gset Z;
  card_events : gmap Z Z;
  next_token_generation : Z }.

(** The module with the process's PIN caches. *)
Record Process := mkProcess {
  module : ModuleState;
  heap : gmap Z PinSafetyCache;
  process_pin_caches : gmap bytes Z;
  next_ref : Z }.

Definition empty_module : ModuleState :=
  mkModule [] SLOT_ID_BASE ∅ SESSION_HANDLE_BASE ∅ ∅ ∅ ∅ ∅ FIRST_TOKEN_GENERATION.

Definition with_module (f : ModuleState -> ModuleState) (p : Process) : Process :=
  mkProcess (f (module p)) (heap p) (process_pin_caches p) (next_ref p).
Definition with_slots (f : list SlotRecord -> list SlotRecord) (m : ModuleState) : ModuleState :=
  mkModule (f (slots m)) (next_slot_id m) (sessions m) (next_session_handle m) (pin_caches m)
    (token_cache m) (event_reported m) (remote_logged_in m) (card_events m) (next_token_generation m).
Definition with_sessions (f : gmap Z Session -> gmap Z Session) (m : ModuleState) : ModuleState :=
  mkModule (slots m) (next_slot_id m) (f (sessions m)) (next_session_handle m) (pin_caches m)
    (token_cache m) (event_reported m) (remote_logged_in m) (card_events m) (next_token_generation m).
Definition with_tokens (f : gmap Z TokenObjects -> gmap Z TokenObjects) (m : ModuleState) : ModuleState :=
  mkModule (slots m) (next_slot_id m) (sessions m) (next_session_handle m) (pin_caches m)
    (f (token_cache m)) (event_reported m) (remote_logged_in m) (card_events m) (next_token_generation m).
Definition with_reported (f : gmap Z bool -> gmap Z bool) (m : ModuleState) : ModuleState :=
  mkModule (slots m) (next_slot_id m) (sessions m) (next_session_handle m) (pin_caches m)
    (token_cache m) (f (event_reported m)) (remote_logged_in m) (card_events m) (next_token_generation m).
Definition with_remote (f : gset Z -> gset Z) (m : ModuleState) : ModuleState :=
  mkModule (slots m) (next_slot_id m) (sessions m) (next_session_handle m) (pin_caches m)
    (token_cache m) (event_reported m) (f (remote_logged_in m)) (card_events m) (next_token_generation m).
Definition with_events (f : gmap Z Z -> gmap Z Z) (m : ModuleState) : ModuleState :=
  mkModule (slots m) (next_slot_id m) (sessions m) (next_session_handle m) (pin_caches m)
    (token_cache m) (event_reported m) (remote_logged_in m) (f (card_events m)) (next_token_generation m).

(** [iter_mut().find(|slot| slot.id == id)], changed in place. *)
Fixpoint update_slot (id : Z) (f : SlotRecord -> SlotRecord) (l : list SlotRecord) : list SlotRecord :=
  match l with
  | [] => []
  | s :: rest => if slot_id s =? id then f s :: rest else s :: update_slot id f rest
  end.

Definition slot (m : ModuleState) (id : Z) : option SlotRecord :=
  List.find (fun s => slot_id s =? id) (slots m).
Definition slot_ids (m : ModuleState) : list Z := map slot_id (slots m).
Definition kind_of_slot (m : ModuleState) (id : Z) : option SlotKind := slot_kind <$> slot m id.

(** The clearing of the cache a slot refers to, when it has one. *)
Definition clear_slot_pin (id : Z) (p : Process) : Process :=
  match pin_caches (module p) !! id with
  | Some r => mkProcess (module p) (alter clear_positive r (heap p)) (process_pin_caches p) (next_ref p)
  | None => p
  end.

Definition cache_token (id : Z) (objects : TokenObjects) (p : Process) : Process :=
  with_module (fun m =>
    mkModule (slots m) (next_slot_id m) (sessions m) (next_session_handle m) (pin_caches m)
      (<[id := set_generation objects (next_token_generation m)]> (token_cache m))
      (event_reported m) (remote_logged_in m) (card_events m)
      (saturating_add U64_MAX (next_token_generation m) 1)) p.

Definition invalidate_slot (id : Z) (p : Process) : Process :=
  clear_slot_pin id (with_module (with_tokens (delete id)) p).

Definition withdraw_token (id : Z) (p : Process) : Process :=
  invalidate_slot id
    (with_module (fun m => with_remote (fun s => s ∖ {[id]}) (with_slots (update_slot id (set_present false)) m)) p).

Definition clear_all_positive_pins (p : Process) : Process :=
  mkProcess (module p)
    (map_fold (fun _ r h => alter clear_positive r h) (heap p) (pin_caches (module p)))
    (process_pin_caches p) (next_ref p).

(** ** The refresh from the readers *)

Inductive FineidCardObservation := Present | Absent | TemporarilyUnavailable.

Definition preserves_last_known_state (o : FineidCardObservation) : bool :=
  match o with TemporarilyUnavailable => true | _ => false end.

Record ReaderInfo := mkReaderInfo { ri_id : bytes; ri_card_present : bool; ri_card_events : Z }.

(** The trait [SlotProber]: what one refresh reads. *)
Class SlotProber := {
  enumerate : result Z (list ReaderInfo);
  probe : bytes -> FineidCardObservation;
  build_objects : bytes -> result Z TokenObjects;
  prober_identity : bytes -> ReaderIdentity }.

(** [slots.iter().position(..)]. *)
Fixpoint reader_position (reader : bytes) (l : list SlotRecord) : option nat :=
  match l with
  | [] => None
  | s :: rest =>
      if bool_decide (local_reader (slot_kind s) = Some reader) then Some O
      else S <$> reader_position reader rest
  end.

(** A new slot for a device not seen before. *)
Definition push_slot (kind : SlotKind) (present : bool) (identity : ReaderIdentity) (p : Process)
  : Z * Process :=
  let id := next_slot_id (module p) in
  (id, with_module (fun m =>
    mkModule (slots m ++ [mkSlot id kind present identity])
      (saturating_add U64_MAX (next_slot_id m) 1) (sessions m) (next_session_handle m)
      (pin_caches m) (token_cache m) (event_reported m) (remote_logged_in m) (card_events m)
      (next_token_generation m)) p).

Section Refresh.
Context `{SlotProber}.

(** The slot [s] at [pos] of the table, the reader's observation given. *)
Definition refresh_known (reader : ReaderInfo) (aid_present : bool) (pos : nat) (s : SlotRecord)
  (p : Process) : Process :=
  let id := slot_id s in
  let card_moved :=
    match card_events (module p) !! id with
    | Some last => negb (last =? ri_card_events reader)
    | None => false
    end in
  let p := with_module (with_events (<[id := ri_card_events reader]>)) p in
  let '(was_present, p) :=
    if card_moved && card_present s then
      let p := with_module (with_slots (alter (set_present false) pos)) p in
      let p := invalidate_slot id p in
      (false, with_module (with_reported (alter (fun _ => false) id)) p)
    else (card_present s, p) in
  if aid_present && negb was_present then
    match build_objects (ri_id reader) with
    | Err _ => p
    | Ok objects =>
        let p := with_module (with_slots (alter (set_present true) pos)) p in
        cache_token id objects (invalidate_slot id p)
    end
  else if was_present && negb aid_present then
    invalidate_slot id (with_module (with_slots (alter (set_present false) pos)) p)
  else p.

Definition refresh_new (reader : ReaderInfo) (p : Process) : Process :=
  match build_objects (ri_id reader) with
  | Err _ => p
  | Ok objects =>
      let '(id, p) := push_slot (Local (ri_id reader)) true (prober_identity (ri_id reader)) p in
      let p := with_module (with_events (<[id := ri_card_events reader]>)) p in
      cache_token id objects p
  end.

Definition refresh_reader (reader : ReaderInfo) (p : Process) : Process :=
  let observation := if ri_card_present reader then probe (ri_id reader) else Absent in
  if preserves_last_known_state observation then p
  else
    let aid_present := match observation with Present => true | _ => false end in
    match reader_position (ri_id reader) (slots (module p)) with
    | Some pos =>
        match slots (module p) !! pos with
        | Some s => refresh_known reader aid_present pos s p
        | None => p
        end
    | None => if aid_present then refresh_new reader p else p
    end.

Definition refresh_slots_with (p : Process) : result Z unit * Process :=
  match enumerate with
  | Err error => (Err error, clear_all_positive_pins p)
  | Ok readers => (Ok tt, foldl (fun p reader => refresh_reader reader p) p readers)
  end.

End Refresh.

(** ** The refresh from a paired phone *)

Section RemoteRefresh.
(** [remote_token_objects]: the objects a certificate makes, when it parses. *)
Context (remote_token_objects : RemoteSlotId -> SessionCertificate -> result Z TokenObjects).

Definition rename_remote (offer : RemoteOffer) (s : SlotRecord) : SlotRecord :=
  match slot_kind s with
  | Remote pair_id _ _ =>
      mkSlot (slot_id s) (Remote pair_id (offer_label offer) (offer_context offer))
        (card_present s) (reader_identity s)
  | Local _ => s
  end.

(** The first slot of the offered pairing, renamed; its id. *)
Fixpoint rename_first (offer : RemoteOffer) (l : list SlotRecord) : option (Z * list SlotRecord) :=
  match l with
  | [] => None
  | s :: rest =>
      if bool_decide (remote_pair_id (slot_kind s) = Some (offer_pair_id offer))
      then Some (slot_id s, rename_remote offer s :: rest)
      else '(id, rest) ← rename_first offer rest; Some (id, s :: rest)
  end.

Definition remote_slot_for (offer : RemoteOffer) (p : Process) : Z * Process :=
  match rename_first offer (slots (module p)) with
  | Some (id, l) => (id, with_module (with_slots (fun _ => l)) p)
  | None =>
      push_slot (Remote (offer_pair_id offer) (offer_label offer) (offer_context offer)) false
        (mkReaderIdentity (Some REMOTE_READER_VENDOR) None) p
  end.

(** The remote slots with a token the offer does not name. *)
Definition unnamed (offer : option RemoteOffer) (m : ModuleState) : list Z :=
  map slot_id (List.filter (fun s => card_present s && is_remote (slot_kind s) &&
    match offer with
    | None => true
    | Some offer => negb (bool_decide (remote_pair_id (slot_kind s) = Some (offer_pair_id offer)))
    end) (slots m)).

Definition refresh_remote_slots_with (offer : option RemoteOffer) (p : Process) : Process :=
  let p := foldl (fun p id => withdraw_token id p) p (unnamed offer (module p)) in
  match offer with
  | None => p
  | Some offer =>
      let '(id, p) := remote_slot_for offer p in
      let objects :=
        match certificate offer with
        | Some c => match remote_token_objects (offer_pair_id offer) c with Ok o => Some o | Err _ => None end
        | None => None
        end in
      match objects with
      | None => withdraw_token id p
      | Some objects =>
          let cached_same_certificate :=
            match token_cache (module p) !! id with
            | Some cached => bool_decide (auth_cert_der cached = auth_cert_der objects)
            | None => false
            end in
          if cached_same_certificate then p
          else
            let p := cache_token id objects (withdraw_token id p) in
            let p := with_module (with_slots (update_slot id (set_present true))) p in
            with_module (with_reported (alter (fun _ => false) id)) p
      end
  end.

End RemoteRefresh.

(** ** Sessions, login and events *)

Definition open_session (slot flags : Z) (p : Process) : Z * Process :=
  let handle := next_session_handle (module p) in
  (handle, with_module (fun m =>
    mkModule (slots m) (next_slot_id m)
      (<[handle := mkSession slot flags None None None]> (sessions m))
      (saturating_add U64_MAX (next_session_handle m) 1) (pin_caches m) (token_cache m)
      (event_reported m) (remote_logged_in m) (card_events m) (next_token_generation m)) p).

Definition logout (id : Z) (p : Process) : Process :=
  clear_slot_pin id (with_module (with_remote (fun s => s ∖ {[id]})) p).

(** Whether a session of the slot is open. *)
Definition slot_in_use (id : Z) (m : ModuleState) : bool :=
  existsb (fun e => session_slot_id e.2 =? id) (map_to_list (sessions m)).

Definition forget_login_if_no_sessions (id : Z) (p : Process) : Process :=
  if negb (slot_in_use id (module p)) then logout id p else p.

Definition close_session (handle : Z) (p : Process) : bool * Process :=
  match sessions (module p) !! handle with
  | None => (false, p)
  | Some session =>
      (true, forget_login_if_no_sessions (session_slot_id session)
               (with_module (with_sessions (delete handle)) p))
  end.

Definition close_all_sessions (id : Z) (p : Process) : Process :=
  logout id (with_module (with_sessions (filter (fun e => session_slot_id e.2 <> id))) p).

Definition set_remote_logged_in (id : Z) (logged_in : bool) : Process -> Process :=
  with_module (with_remote (fun s => if logged_in then {[id]} ∪ s else s ∖ {[id]})).

(** [random] is the key of a new cache, or the failure of the random source. *)
Definition pin_cache `{Hex} (random : option bytes) (id : Z) (p : Process) : result Z Z * Process :=
  match pin_caches (module p) !! id with
  | Some r => (Ok r, p)
  | None =>
      match kind_of_slot (module p) id with
      | None => (Err CKR_DEVICE_ERROR, p)
      | Some kind =>
          let key := cache_key kind in
          let refer r p :=
            (Ok r, with_module (fun m =>
              mkModule (slots m) (next_slot_id m) (sessions m) (next_session_handle m)
                (<[id := r]> (pin_caches m)) (token_cache m) (event_reported m)
                (remote_logged_in m) (card_events m) (next_token_generation m)) p) in
          match process_pin_caches p !! key with
          | Some r => refer r p
          | None =>
              match random with
              | None => (Err CKR_DEVICE_ERROR, p)
              | Some random =>
                  let r := next_ref p in
                  refer r (mkProcess (module p) (<[r := PinCache.new random]> (heap p))
                             (<[key := r]> (process_pin_caches p)) (r + 1))
              end
          end
      end
  end.

(** [strong_count] counts the values out on checkouts, by reference and lease. *)
Definition is_logged_in (strong_count : Z -> Z -> Z) (now : Z) (id : Z) (p : Process)
  : bool * Process :=
  let local :=
    match pin_caches (module p) !! id with
    | None => (false, p)
    | Some r =>
        match heap p !! r with
        | None => (false, p)
        | Some c =>
            let '(b, c) := holds_pin1_at c (strong_count r) now in
            (b, mkProcess (module p) (<[r := c]> (heap p)) (process_pin_caches p) (next_ref p))
        end
    end in
  match slot (module p) id with
  | Some s =>
      if is_remote (slot_kind s)
      then (card_present s && bool_decide (id ∈ remote_logged_in (module p)), p)
      else local
  | None => local
  end.

(** The loop over the slots. *)
Fixpoint first_event (reported : gmap Z bool) (l : list SlotRecord) : option SlotRecord :=
  match l with
  | [] => None
  | s :: rest =>
      if negb (bool_decide (reported !! slot_id s = Some (card_present s))) then Some s
      else first_event reported rest
  end.

Definition take_slot_event (p : Process) : option Z * Process :=
  match first_event (event_reported (module p)) (slots (module p)) with
  | Some s =>
      (Some (slot_id s), with_module (with_reported (<[slot_id s := card_present s]>)) p)
  | None => (None, p)
  end.

(** [build] is [build_token_objects], the read of the card. *)
Definition ensure_token (build : bytes -> result Z TokenObjects) (id : Z) (p : Process)
  : result Z TokenObjects * Process :=
  match token_cache (module p) !! id with
  | Some cached => (Ok cached, p)
  | None =>
      match kind_of_slot (module p) id with
      | None => (Err CKR_DEVICE_ERROR, p)
      | Some kind =>
          if is_remote kind then (Err CKR_TOKEN_NOT_PRESENT, p)
          else match local_reader kind with
          | None => (Err CKR_DEVICE_ERROR, p)
          | Some reader =>
              match build reader with
              | Err e => (Err e, p)
              | Ok objects =>
                  (Ok (set_generation objects (next_token_generation (module p))),
                   cache_token id objects p)
              end
          end
      end
  end.

(** ** Lemmas: handles *)

(** The kinds a token can carry. *)
Definition kind_in_range (k : ObjectKind) : Prop :=
  match k with Ca i | Trust i => 0 <= i < MAX_CA_OBJECTS | _ => True end.

Lemma ca_handle i : 0 <= i < MAX_CA_OBJECTS -> kind_handle (Ca i) = 5 + i.
Proof.
  change MAX_CA_OBJECTS with 18. intros Hi. cbn [kind_handle]. unfold handle_offset.
  rewrite try_from_uint_some by (split; [lia|unfold U64_MAX; lia]). cbn [from_option id].
  unfold saturating_add, OBJ_CA_BASE, U64_MAX. lia.
Qed.

Lemma trust_handle i : 0 <= i < MAX_CA_OBJECTS -> kind_handle (Trust i) = 23 + i.
Proof.
  change MAX_CA_OBJECTS with 18. intros Hi. cbn [kind_handle]. unfold handle_offset.
  change MAX_CA_OBJECTS with 18.
  replace (saturating_add USIZE_MAX i 18) with (i + 18)
    by (unfold saturating_add, USIZE_MAX, U64_MAX; lia).
  rewrite try_from_uint_some by (split; [lia|unfold U64_MAX; lia]). cbn [from_option id].
  unfold saturating_add, OBJ_CA_BASE, U64_MAX. lia.
Qed.

Lemma kind_handle_bound k : kind_in_range k -> 1 <= kind_handle k <= 40.
Proof.
  destruct k as [| | | |i|i]; cbn [kind_in_range]; intros Hi.
  1-4: cbn; unfold OBJ_CERTIFICATE, OBJ_PRIVATE_KEY, OBJ_PUBLIC_KEY, OBJ_PROFILE; lia.
  - rewrite ca_handle by done. change MAX_CA_OBJECTS with 18 in Hi. lia.
  - rewrite trust_handle by done. change MAX_CA_OBJECTS with 18 in Hi. lia.
Qed.

Lemma from_handle_ca h : 5 <= h <= U64_MAX ->
  from_handle h = if h - 5 <? 18 then Some (Ca (h - 5))
                  else if h - 5 <? 36 then Some (Trust (h - 5 - 18)) else None.
Proof.
  intros Hh. unfold from_handle.
  change OBJ_CERTIFICATE with 1. change OBJ_PRIVATE_KEY with 2. change OBJ_PUBLIC_KEY with 3.
  change OBJ_PROFILE with 4. change OBJ_CA_BASE with 5.
  rewrite !(proj2 (Z.eqb_neq _ _)), Z.geb_leb, (proj2 (Z.leb_le _ _)) by lia.
  rewrite try_from_uint_some by (split; [lia|unfold USIZE_MAX; lia]). reflexivity.
Qed.

Lemma from_kind_handle k : kind_in_range k -> from_handle (kind_handle k) = Some k.
Proof.
  destruct k as [| | | |i|i]; cbn [kind_in_range]; intros Hi; [reflexivity..| |];
    change MAX_CA_OBJECTS with 18 in Hi.
  - rewrite ca_handle, from_handle_ca by (unfold U64_MAX; lia || done).
    rewrite (proj2 (Z.ltb_lt _ _)) by lia. f_equal. f_equal. lia.
  - rewrite trust_handle, from_handle_ca by (unfold U64_MAX; lia || done).
    rewrite (proj2 (Z.ltb_ge _ _)), (proj2 (Z.ltb_lt _ _)) by lia. f_equal. f_equal. lia.
Qed.

Lemma handle_of_from_handle h k : 0 <= h < TOKEN_HANDLE_SPACE -> from_handle h = Some k -> kind_handle k = h.
Proof.
  change TOKEN_HANDLE_SPACE with 65536. intros Hh Hk.
  destruct (decide (5 <= h)) as [H5|H5].
  - rewrite from_handle_ca in Hk by (unfold U64_MAX; lia).
    destruct (Z.ltb_spec (h - 5) 18); [|destruct (Z.ltb_spec (h - 5) 36); [|done]];
      injection Hk as <-; rewrite ?ca_handle, ?trust_handle; change MAX_CA_OBJECTS with 18; lia.
  - assert (h = 0 \/ h = 1 \/ h = 2 \/ h = 3 \/ h = 4) as [->|[->|[->|[->| ->]]]] by lia;
      vm_compute in Hk; (discriminate Hk || (injection Hk as <-; reflexivity)).
Qed.

(** A token whose handle range lies within the handle type. *)
Definition token_ok (t : TokenObjects) : Prop :=
  0 <= objects_generation t /\ (objects_generation t + 1) * TOKEN_HANDLE_SPACE <= U64_MAX /\
  len (ca_store t) <= MAX_CA_OBJECTS.

Lemma exists_in_range t k : token_ok t -> object_exists t k = true -> kind_in_range k.
Proof.
  intros (_ & _ & Hl). destruct k as [| | | |i|i]; cbn; try done;
    intros [x Hx]%bool_decide_eq_true; unfold get in Hx; case_match_in Hx; try done;
    apply lookup_lt_Some in Hx; unfold len in Hl; lia.
Qed.

Lemma object_handle_eq t k : token_ok t -> kind_in_range k ->
  object_handle t k = objects_generation t * TOKEN_HANDLE_SPACE + kind_handle k.
Proof.
  intros (H0 & Hg & _) Hk. pose proof (kind_handle_bound k Hk).
  unfold object_handle, saturating_mul, saturating_add in *. change TOKEN_HANDLE_SPACE with 65536 in *.
  lia.
Qed.

(** The handles a token answers to are exactly those of its objects. *)
Lemma kind_of_iff t h k : token_ok t -> 0 <= h ->
  kind_of t h = Some k <-> object_exists t k = true /\ h = object_handle t k.
Proof.
  intros Hok Hh. unfold kind_of. split.
  - destruct (negb _) eqn:E; [done|]. apply negb_false_iff, Z.eqb_eq in E. intros Hk.
    apply bind_Some in Hk as (k' & Hf & Hk). destruct (object_exists t k') eqn:Ee; [|done].
    injection Hk as <-. split; [done|].
    rewrite object_handle_eq by eauto using exists_in_range.
    rewrite (handle_of_from_handle _ _ (Z.mod_pos_bound h TOKEN_HANDLE_SPACE eq_refl) Hf).
    rewrite <- E, Z.mul_comm. apply Z.div_mod. discriminate.
  - intros (He & ->). pose proof (exists_in_range t k Hok He) as Hr.
    pose proof (kind_handle_bound k Hr) as Hb. rewrite object_handle_eq by done.
    change TOKEN_HANDLE_SPACE with 65536.
    rewrite Z.add_comm, Z.div_add, Z.mod_add, Z.div_small, Z.mod_small, Z.add_0_l, Z.eqb_refl by lia.
    cbn [negb]. rewrite from_kind_handle by done. cbn -[object_exists]. by rewrite He.
Qed.

Lemma object_handle_nonneg t k : token_ok t -> kind_in_range k -> 0 <= object_handle t k.
Proof.
  intros Ht Hk. rewrite object_handle_eq by done. destruct Ht as (H0 & _ & _).
  pose proof (kind_handle_bound k Hk). change TOKEN_HANDLE_SPACE with 65536. lia.
Qed.

(** Two tokens that answer one handle have one generation. *)
Lemma kind_of_generation t u h k k' : kind_of t h = Some k -> kind_of u h = Some k' ->
  objects_generation t = objects_generation u.
Proof.
  unfold kind_of. intros Ht Hu. destruct (Z.eqb_spec (h / TOKEN_HANDLE_SPACE) (objects_generation t)); [|done].
  destruct (Z.eqb_spec (h / TOKEN_HANDLE_SPACE) (objects_generation u)); [|done]. congruence.
Qed.

(** ** Lemmas: what every operation keeps *)

(** The device of a slot: what a slot is found again by. *)
Definition device (kind : SlotKind) : bytes + RemoteSlotId :=
  match kind with Local reader => inl reader | Remote pair_id _ _ => inr pair_id end.

Definition slot_key (s : SlotRecord) : Z * (bytes + RemoteSlotId) := (slot_id s, device (slot_kind s)).
Definition slot_keys (m : ModuleState) : list (Z * (bytes + RemoteSlotId)) := map slot_key (slots m).

(** The slot ids and generations given out have not reached the end of
    their types. *)
Definition unsaturated (m : ModuleState) : Prop :=
  next_slot_id m < U64_MAX /\ (next_token_generation m + 1) * TOKEN_HANDLE_SPACE <= U64_MAX.

Record table_ok (m : ModuleState) : Prop := {
  ok_ids : NoDup (slot_keys m).*1;
  ok_devices : NoDup (slot_keys m).*2;
  ok_below : Forall (fun i => i < next_slot_id m) (slot_keys m).*1;
  ok_slots : forall i, is_Some (token_cache m !! i) -> i ∈ (slot_keys m).*1;
  ok_generations : forall i t, token_cache m !! i = Some t ->
    0 <= objects_generation t < next_token_generation m;
  ok_distinct : forall i j t u, token_cache m !! i = Some t -> token_cache m !! j = Some u ->
    objects_generation t = objects_generation u -> i = j }.

(** [m'] extends [m]: slots are appended, never removed or given to another
    device, and a token of an older generation is one [m] had, in its place. *)
Record extends (m m' : ModuleState) : Prop := {
  ext_slots : slot_keys m `prefix_of` slot_keys m';
  ext_next : next_slot_id m <= next_slot_id m';
  ext_generation : next_token_generation m <= next_token_generation m';
  ext_tokens : forall i t, token_cache m' !! i = Some t ->
    objects_generation t < next_token_generation m -> token_cache m !! i = Some t }.

(** The counters are values of their type. *)
Definition in_type (m : ModuleState) : Prop :=
  next_slot_id m <= U64_MAX /\ 0 <= next_token_generation m <= U64_MAX.

Definition sound (m m' : ModuleState) : Prop :=
  in_type m -> in_type m' /\ extends m m' /\ (unsaturated m' -> table_ok m -> table_ok m').

Lemma sound_refl m : sound m m.
Proof. intros Hm. split; [done|]. split; [split|]; done || lia. Qed.

Lemma unsaturated_before m m' : extends m m' -> unsaturated m' -> unsaturated m.
Proof.
  intros [_ Hn Hg _] (H1 & H2). unfold unsaturated. change TOKEN_HANDLE_SPACE with 65536 in *. lia.
Qed.

Lemma sound_trans m1 m2 m3 : sound m1 m2 -> sound m2 m3 -> sound m1 m3.
Proof.
  intros H12 H23 H1. destruct (H12 H1) as (H2 & X12 & Ho1). destruct (H23 H2) as (H3 & X23 & Ho2).
  split; [done|]. split; [|eauto using unsaturated_before].
  destruct X12 as [Hs1 Hn1 Hg1 Ht1], X23 as [Hs2 Hn2 Hg2 Ht2]. split.
  - by etrans.
  - lia.
  - lia.
  - intros i t Ht Hg. apply Ht1, Hg. apply Ht2; [done|lia].
Qed.

#[export] Instance sound_preorder : PreOrder sound.
Proof. split; [exact sound_refl|exact sound_trans]. Qed.

(** A change that appends no slot and raises no token. *)
Lemma sound_quiet m m' : slot_keys m' = slot_keys m -> next_slot_id m' = next_slot_id m ->
  next_token_generation m' = next_token_generation m -> token_cache m' ⊆ token_cache m -> sound m m'.
Proof.
  intros Hk Hn Hg Ht Hm. split; [unfold in_type; by rewrite Hn, Hg|]. split; [split|].
  - by rewrite Hk.
  - lia.
  - lia.
  - intros i t Hi _. by eapply lookup_weaken.
  - intros _ [H1 H2 H3 H4 H5 H6]. split; rewrite ?Hk, ?Hn, ?Hg; try done.
    + intros i [t Hi]. eapply H4. exists t. by eapply lookup_weaken.
    + intros i t Hi. eapply H5, lookup_weaken; eauto.
    + intros i j t u Hi Hj. eapply H6; eapply lookup_weaken; eauto.
Qed.

Lemma saturating_next n : n <= U64_MAX ->
  n <= saturating_add U64_MAX n 1 <= U64_MAX /\ (saturating_add U64_MAX n 1 < U64_MAX -> n < saturating_add U64_MAX n 1).
Proof. unfold saturating_add. lia. Qed.

Lemma unsaturated_next m : unsaturated m -> next_token_generation m < U64_MAX.
Proof. intros (_ & Hg). change TOKEN_HANDLE_SPACE with 65536 in Hg. unfold U64_MAX in *. lia. Qed.

Lemma sound_cache id objects p : id ∈ (slot_keys (module p)).*1 ->
  sound (module p) (module (cache_token id objects p)).
Proof.
  intros Hid Hm. destruct p as [m h c r]; cbn [module] in *.
  destruct (saturating_next (next_token_generation m)) as (Hs & Hlt); [apply Hm|].
  split; [destruct Hm; cbn; unfold in_type; cbn; lia|]. split; [split; cbn; try done; try lia|].
  - intros i t. rewrite lookup_insert. case_decide; [|done].
    intros [= <-]. cbn. lia.
  - intros Hu [H1 H2 H3 H4 H5 H6]. apply unsaturated_next in Hu. cbn in Hu. specialize (Hlt Hu).
    split; cbn; try done.
    + intros i. rewrite lookup_insert. case_decide; [by subst|apply H4].
    + intros i t. rewrite lookup_insert. case_decide.
      * intros [= <-]. cbn. destruct Hm. lia.
      * intros Ht%H5. lia.
    + intros i j t u. rewrite !lookup_insert. repeat case_decide; subst; try done.
      * intros [= <-] Hj%H5. cbn. lia.
      * intros Hi%H5 [= <-]. cbn. lia.
      * apply H6.
Qed.

Lemma push_keys kind present identity p :
  slot_keys (module (push_slot kind present identity p).2)
  = slot_keys (module p) ++ [(next_slot_id (module p), device kind)].
Proof. unfold slot_keys. cbn. by rewrite map_app. Qed.

Lemma push_listed kind present identity p :
  (push_slot kind present identity p).1 ∈ (slot_keys (module (push_slot kind present identity p).2)).*1.
Proof. rewrite push_keys, fmap_app. cbn. set_solver. Qed.

Lemma sound_push kind present identity p : ~ device kind ∈ (slot_keys (module p)).*2 ->
  sound (module p) (module (push_slot kind present identity p).2).
Proof.
  intros Hd Hm. destruct (saturating_next (next_slot_id (module p))) as (Hs & Hlt); [apply Hm|].
  split; [destruct Hm; unfold in_type; cbn; lia|].
  split; [split; rewrite ?push_keys; cbn; try done; try lia; by eexists|].
  intros (Hu & _) [H1 H2 H3 H4 H5 H6]. cbn in Hu. specialize (Hlt Hu). rewrite Forall_forall in H3.
  split; rewrite ?push_keys, ?fmap_app; cbn; try done.
  - apply NoDup_app. split; [done|]. split; [|by apply NoDup_singleton].
    intros i Hi%H3 ->%list_elem_of_singleton. lia.
  - apply NoDup_app. split; [done|]. split; [|by apply NoDup_singleton].
    intros i Hi ->%list_elem_of_singleton. done.
  - apply Forall_app. split; [apply Forall_forall; intros i Hi%H3; lia|].
    constructor; [lia|constructor].
  - intros i Hi%H4. set_solver.
Qed.

(** The operations that keep the keys and at most drop tokens. *)
Record quiet (m m' : ModuleState) : Prop := {
  quiet_keys : slot_keys m' = slot_keys m;
  quiet_next : next_slot_id m' = next_slot_id m;
  quiet_generation : next_token_generation m' = next_token_generation m;
  quiet_tokens : token_cache m' ⊆ token_cache m }.

#[export] Instance quiet_preorder : PreOrder quiet.
Proof.
  split; [done|]. intros m1 m2 m3 [H1 H2 H3 H4] [H5 H6 H7 H8].
  split; [congruence..|by etrans].
Qed.

Lemma quiet_sound m m' : quiet m m' -> sound m m'.
Proof. intros []. by apply sound_quiet. Qed.

Lemma quiet_slots f p : map slot_key (f (slots (module p))) = map slot_key (slots (module p)) ->
  quiet (module p) (module (with_module (with_slots f) p)).
Proof. by split. Qed.

Lemma update_keys id f l : (forall s, slot_key (f s) = slot_key s) ->
  map slot_key (update_slot id f l) = map slot_key l.
Proof. intros Hf. induction l as [|s l IH]; cbn; [done|]. case_match; cbn; by rewrite ?Hf, ?IH. Qed.

Lemma alter_keys pos f l : (forall s, slot_key (f s) = slot_key s) ->
  map slot_key (alter f pos l) = map slot_key l.
Proof.
  intros Hf. revert pos. induction l as [|s l IH]; intros [|pos]; cbn; try done.
  - by rewrite Hf.
  - f_equal. apply IH.
Qed.

Lemma module_clear_slot_pin id p : module (clear_slot_pin id p) = module p.
Proof. unfold clear_slot_pin. by case_match. Qed.

Lemma quiet_invalidate id p : quiet (module p) (module (invalidate_slot id p)).
Proof. unfold invalidate_slot. rewrite module_clear_slot_pin. split; cbn; try done. apply delete_subseteq. Qed.

Lemma quiet_withdraw id p : quiet (module p) (module (withdraw_token id p)).
Proof.
  unfold withdraw_token. etrans; [|apply quiet_invalidate]. split; cbn; try done.
  unfold slot_keys. cbn. by apply update_keys.
Qed.

Lemma quiet_logout id p : quiet (module p) (module (logout id p)).
Proof. unfold logout. rewrite module_clear_slot_pin. by split. Qed.

#[local] Hint Resolve quiet_invalidate quiet_withdraw quiet_logout : core.

Lemma listed_iff pos s m : slots m !! pos = Some s -> slot_id s ∈ (slot_keys m).*1.
Proof. intros Hs. apply list_elem_of_lookup. exists pos. unfold slot_keys. by rewrite !list_lookup_fmap, Hs. Qed.

(** A token raised after quiet changes. *)
Lemma sound_raise id objects p p' : quiet (module p) (module p') -> id ∈ (slot_keys (module p)).*1 ->
  sound (module p) (module (cache_token id objects p')).
Proof.
  intros Hq Hid. etrans; [by apply quiet_sound|]. apply sound_cache. by rewrite (quiet_keys _ _ Hq).
Qed.

Section RefreshSound.
Context `{SlotProber}.

Lemma sound_refresh_known reader aid_present pos s p : slots (module p) !! pos = Some s ->
  sound (module p) (module (refresh_known reader aid_present pos s p)).
Proof.
  intros Hs. unfold refresh_known.
  set (moved := match _ !! _ with Some _ => _ | None => _ end).
  set (p1 := with_module (with_events _) p).
  set (step1 := if moved && card_present s then _ else _).
  assert (Hq : quiet (module p) (module step1.2)).
  { subst step1. destruct (moved && card_present s); cbn [snd].
    - transitivity (module p1); [by split|].
      transitivity (module (with_module (with_slots (alter (set_present false) pos)) p1)).
      + apply (quiet_slots _ p1). by apply alter_keys.
      + etrans; [apply quiet_invalidate|]. by split.
    - by split. }
  destruct step1 as [was_present p2]; cbn [snd] in Hq.
  destruct (aid_present && negb was_present); [destruct (build_objects _)|].
  - apply sound_raise; [|by eapply listed_iff]. etrans; [exact Hq|].
    etrans; [|apply quiet_invalidate]. apply quiet_slots. by apply alter_keys.
  - by apply quiet_sound.
  - destruct (was_present && negb aid_present); apply quiet_sound; [|done].
    etrans; [exact Hq|]. etrans; [|apply quiet_invalidate]. apply quiet_slots. by apply alter_keys.
Qed.

Lemma reader_position_some reader l pos : reader_position reader l = Some pos -> is_Some (l !! pos).
Proof.
  revert pos. induction l as [|s l IH]; intros pos; cbn; [done|]. case_match; [by intros [= <-]|].
  intros (n & Hn & ->)%fmap_Some. by apply IH.
Qed.

Lemma reader_position_none reader l : reader_position reader l = None ->
  ~ inl reader ∈ (map slot_key l).*2.
Proof.
  induction l as [|s l IH]; cbn; [intros _; set_solver|]. case_match eqn:E; [done|].
  apply bool_decide_eq_false in E. intros Hn%fmap_None Hin. apply elem_of_cons in Hin as [Hin|Hin].
  - unfold device in Hin. destruct (slot_kind s); cbn in *; congruence.
  - by apply IH.
Qed.

Lemma sound_refresh_reader reader p : sound (module p) (module (refresh_reader reader p)).
Proof.
  unfold refresh_reader. set (obs := if ri_card_present reader then _ else _).
  destruct (preserves_last_known_state obs); [done|].
  destruct (reader_position _ _) as [pos|] eqn:Ep.
  - destruct (slots (module p) !! pos) as [s|] eqn:Es; [|done]. by apply sound_refresh_known.
  - destruct (match obs with Present => true | _ => false end); [|done]. unfold refresh_new.
    destruct (build_objects (ri_id reader)) as [objects|e]; [|done].
    pose proof (sound_push (Local (ri_id reader)) true (prober_identity (ri_id reader)) p
      (reader_position_none _ _ Ep)) as Hp.
    pose proof (push_listed (Local (ri_id reader)) true (prober_identity (ri_id reader)) p) as Hl.
    destruct (push_slot _ _ _ p) as [id p']. cbn in Hp, Hl. etrans; [exact Hp|].
    apply sound_raise; [by split|done].
Qed.

Lemma sound_refresh_slots p : sound (module p) (module (refresh_slots_with p).2).
Proof.
  unfold refresh_slots_with. destruct enumerate as [readers|e]; [|done]. cbn [snd].
  revert p. induction readers as [|r rs IH]; intros p; cbn; [done|].
  etrans; [apply sound_refresh_reader|apply IH].
Qed.

End RefreshSound.

Section RemoteSound.
Context (remote_token_objects : RemoteSlotId -> SessionCertificate -> result Z TokenObjects).

Lemma rename_key offer s : slot_key (rename_remote offer s) = slot_key s.
Proof. by destruct s as [? [] ? ?]. Qed.

Lemma rename_first_some offer l id l' : rename_first offer l = Some (id, l') ->
  map slot_key l' = map slot_key l /\ id ∈ (map slot_key l).*1.
Proof.
  revert l'. induction l as [|s l IH]; intros l'; cbn; [done|]. case_match.
  - intros [= <- <-]. cbn [map]. rewrite rename_key. split; [done|]. apply elem_of_cons. by left.
  - intros ([id' l''] & E & [= -> <-])%bind_Some. apply IH in E as (E & Hin). cbn.
    split; [by f_equal|]. apply elem_of_cons. by right.
Qed.

Lemma rename_first_none offer l : rename_first offer l = None ->
  ~ inr (offer_pair_id offer) ∈ (map slot_key l).*2.
Proof.
  induction l as [|s l IH]; cbn; [intros _; set_solver|]. case_match eqn:E; [done|].
  apply bool_decide_eq_false in E. intros Hn Hin. apply elem_of_cons in Hin as [Hin|Hin].
  - unfold device in Hin. destruct (slot_kind s); cbn in *; congruence.
  - apply IH; [|done]. by destruct (rename_first offer l) as [[]|].
Qed.

Lemma sound_remote_slot_for offer p :
  sound (module p) (module (remote_slot_for offer p).2) /\
  (remote_slot_for offer p).1 ∈ (slot_keys (module (remote_slot_for offer p).2)).*1.
Proof.
  unfold remote_slot_for. destruct (rename_first _ _) as [[id l]|] eqn:E.
  - apply rename_first_some in E as (E & Hin). cbn [fst snd]. split.
    + apply quiet_sound. by split.
    + unfold slot_keys. cbn. by rewrite E.
  - split; [|apply push_listed]. apply sound_push. by apply rename_first_none.
Qed.

Lemma quiet_withdraw_all ids p : quiet (module p) (module (foldl (fun p id => withdraw_token id p) p ids)).
Proof. revert p. induction ids as [|i ids IH]; intros p; cbn; [done|]. etrans; [apply quiet_withdraw|apply IH]. Qed.

Lemma sound_refresh_remote offer p :
  sound (module p) (module (refresh_remote_slots_with remote_token_objects offer p)).
Proof.
  unfold refresh_remote_slots_with. set (p1 := foldl _ _ _).
  transitivity (module p1); [apply quiet_sound, quiet_withdraw_all|]. generalize p1. clear p1. intros p1.
  destruct offer as [offer|]; [|done].
  destruct (sound_remote_slot_for offer p1) as (Hs & Hl).
  destruct (remote_slot_for offer p1) as [id p2]. cbn in Hs, Hl.
  transitivity (module p2); [exact Hs|]. set (objs := match certificate offer with Some _ => _ | None => _ end).
  destruct objs as [objects|]; [|apply quiet_sound, quiet_withdraw].
  destruct (match token_cache (module p2) !! id with Some _ => _ | None => _ end); [done|].
  set (p3 := cache_token id objects (withdraw_token id p2)).
  transitivity (module p3); [apply sound_raise; [apply quiet_withdraw|done]|].
  transitivity (module (with_module (with_slots (update_slot id (set_present true))) p3)).
  - apply quiet_sound. apply (quiet_slots _ p3). by apply update_keys.
  - apply quiet_sound. by split.
Qed.

End RemoteSound.

(** ** Runs *)

(** One operation of the module.  [StepCaches] is the PIN work of [C_Login]
    and [C_Sign] on the shared caches, [StepSession] the find, sign and verify
    bookkeeping of one session. *)
Inductive step : Process -> Process -> Prop :=
  | StepReaders `{SlotProber} p : step p (refresh_slots_with p).2
  | StepOffer objects offer p : step p (refresh_remote_slots_with objects offer p)
  | StepOpen id flags p : step p (open_session id flags p).2
  | StepClose handle p : step p (close_session handle p).2
  | StepCloseAll id p : step p (close_all_sessions id p)
  | StepLogout id p : step p (logout id p)
  | StepRemoteLogin id b p : step p (set_remote_logged_in id b p)
  | StepPinCache `{Hex} random id p : step p (pin_cache random id p).2
  | StepQuery count now id p : step p (is_logged_in count now id p).2
  | StepEvent p : step p (take_slot_event p).2
  | StepEnsure build id p : step p (ensure_token build id p).2
  | StepClearPins p : step p (clear_all_positive_pins p)
  | StepCaches h p : step p (mkProcess (module p) h (process_pin_caches p) (next_ref p))
  | StepSession f handle p :
      (forall s, session_slot_id (f s) = session_slot_id s) ->
      step p (with_module (with_sessions (alter f handle)) p).

Lemma slot_listed m id s : slot m id = Some s -> id ∈ (slot_keys m).*1.
Proof.
  unfold slot. intros (Hin & Hid)%List.find_some. apply Z.eqb_eq in Hid as <-.
  apply list_elem_of_In, list_elem_of_lookup in Hin as [pos Hpos]. by eapply listed_iff.
Qed.

Lemma sound_ensure build id p : sound (module p) (module (ensure_token build id p).2).
Proof.
  unfold ensure_token, kind_of_slot.
  destruct (token_cache (module p) !! id); [done|].
  destruct (slot (module p) id) as [s|] eqn:Es; cbn; [|done].
  destruct (is_remote _); [done|]. destruct (local_reader _) as [reader|]; [|done].
  destruct (build reader); [|done]. apply sound_cache. by eapply slot_listed.
Qed.

Lemma quiet_forget id p : quiet (module p) (module (forget_login_if_no_sessions id p)).
Proof. unfold forget_login_if_no_sessions. case_match; [apply quiet_logout|done]. Qed.

Lemma module_is_logged_in count now id p : module (is_logged_in count now id p).2 = module p.
Proof.
  unfold is_logged_in.
  assert (Hl : module (match pin_caches (module p) !! id with
    | None => (false, p)
    | Some r => match heap p !! r with
      | None => (false, p)
      | Some c => let '(b, c) := holds_pin1_at c (count r) now in
          (b, mkProcess (module p) (<[r := c]> (heap p)) (process_pin_caches p) (next_ref p))
      end end).2 = module p).
  { repeat case_match; done. }
  destruct (slot (module p) id); [|done]. by destruct (is_remote _).
Qed.

Lemma module_step_sound p p' : step p p' -> sound (module p) (module p').
Proof.
  intros []; [apply sound_refresh_slots|apply sound_refresh_remote|..|apply quiet_sound; by split].
  all: try (apply sound_ensure); apply quiet_sound.
  - by split.
  - unfold close_session. case_match; [|done]. etrans; [|apply quiet_forget]. by split.
  - etrans; [|apply quiet_logout]. by split.
  - apply quiet_logout.
  - by split.
  - unfold pin_cache. repeat case_match; by split.
  - by rewrite module_is_logged_in.
  - unfold take_slot_event. case_match; by split.
  - by split.
  - by split.
Qed.

Lemma module_run_sound p p' : rtc step p p' -> sound (module p) (module p').
Proof. induction 1; [done|]. etrans; [by apply module_step_sound|done]. Qed.

(** A process that has just initialised the module. *)
Definition fresh (p : Process) : Prop := module p = empty_module.

Lemma fresh_ok p : fresh p -> in_type (module p) /\ table_ok (module p).
Proof.
  intros ->. split; [done|]. split; cbn.
  - apply NoDup_nil_2.
  - apply NoDup_nil_2.
  - by apply Forall_nil.
  - intros i [t Ht]. by rewrite lookup_empty in Ht.
  - intros i t Ht. by rewrite lookup_empty in Ht.
  - intros i j t u Ht. by rewrite lookup_empty in Ht.
Qed.

(** A state reached from a fresh module whose counters still have room. *)
Definition reached (p : Process) : Prop :=
  exists p0, fresh p0 /\ rtc step p0 p /\ unsaturated (module p).

Lemma reached_ok p : reached p -> in_type (module p) /\ table_ok (module p).
Proof.
  intros (p0 & H0 & Hr & Hu). apply fresh_ok in H0 as (Ht & Ho).
  destruct (module_run_sound _ _ Hr Ht) as (Hin & _ & Hk). auto.
Qed.

Lemma token_in_range m i t : table_ok m -> token_cache m !! i = Some t -> unsaturated m ->
  len (ca_store t) <= MAX_CA_OBJECTS -> token_ok t.
Proof.
  intros Hok Hi (_ & Hu) Hl. pose proof (ok_generations m Hok i t Hi) as Hg. unfold token_ok.
  change TOKEN_HANDLE_SPACE with 65536 in *. lia.
Qed.

(** ** Lemmas: slot events *)

(** Whether a slot's presence differs from the last report. *)
Definition unreported (reported : gmap Z bool) (s : SlotRecord) : bool :=
  negb (bool_decide (reported !! slot_id s = Some (card_present s))).

(** The slots with an event to report, in table order. *)
Definition pending (m : ModuleState) : list SlotRecord :=
  List.filter (unreported (event_reported m)) (slots m).

(** Polling until no event is left. *)
Fixpoint drain (fuel : nat) (p : Process) : list Z * Process :=
  match fuel with
  | O => ([], p)
  | S fuel =>
      match take_slot_event p with
      | (None, p) => ([], p)
      | (Some id, p) => let '(ids, p) := drain fuel p in (id :: ids, p)
      end
  end.

Lemma first_event_head reported l : first_event reported l = head (List.filter (unreported reported) l).
Proof. induction l as [|s l IH]; cbn; [done|]. unfold unreported at 1. case_match; done. Qed.

Lemma slot_keys_ids m : (slot_keys m).*1 = map slot_id (slots m).
Proof. unfold slot_keys. induction (slots m) as [|s l IH]; cbn; [done|]. by f_equal. Qed.

Lemma slot_keys_devices m : (slot_keys m).*2 = map (fun s => device (slot_kind s)) (slots m).
Proof. unfold slot_keys. induction (slots m) as [|s l IH]; cbn; [done|]. by f_equal. Qed.

Lemma filter_reported reported id b l : ~ id ∈ map slot_id l ->
  List.filter (unreported (<[id := b]> reported)) l = List.filter (unreported reported) l.
Proof.
  intros Hn. induction l as [|s l IH]; cbn; [done|]. rewrite IH by set_solver.
  assert (slot_id s <> id) as Hne by (intros <-; set_solver).
  unfold unreported. by rewrite lookup_insert_ne.
Qed.

(** Taking the first pending event leaves the others. *)
Lemma pending_after reported l s rest : NoDup (map slot_id l) ->
  List.filter (unreported reported) l = s :: rest ->
  List.filter (unreported (<[slot_id s := card_present s]> reported)) l = rest.
Proof.
  induction l as [|a l IH]; cbn; [done|]. intros [Ha Hl]%NoDup_cons.
  destruct (unreported reported a) eqn:Ea.
  - intros [= -> <-]. unfold unreported at 1. rewrite lookup_insert_eq, bool_decide_true by done. cbn.
    by apply filter_reported.
  - intros Hf. assert (Hs : slot_id a <> slot_id s).
    { intros E. apply Ha. rewrite E. apply list_elem_of_In, in_map. 
      assert (In s (List.filter (unreported reported) l)) as Hi by (rewrite Hf; by left).
      by apply filter_In in Hi as (? & _). }
    unfold unreported at 1. rewrite lookup_insert_ne by done. unfold unreported in Ea. rewrite Ea.
    by apply IH.
Qed.

Lemma take_some p s rest : NoDup (map slot_id (slots (module p))) -> pending (module p) = s :: rest ->
  exists p', take_slot_event p = (Some (slot_id s), p') /\ pending (module p') = rest /\
    slots (module p') = slots (module p).
Proof.
  intros Hn Hp. unfold take_slot_event. rewrite first_event_head.
  fold (pending (module p)). rewrite Hp. cbn [head]. eexists. split; [done|].
  split; [|done]. by apply pending_after.
Qed.

Lemma take_none p : pending (module p) = [] -> take_slot_event p = (None, p).
Proof. intros Hp. unfold take_slot_event. rewrite first_event_head. fold (pending (module p)). by rewrite Hp. Qed.

Lemma drain_spec fuel p : NoDup (map slot_id (slots (module p))) -> (length (pending (module p)) < fuel)%nat ->
  exists p', drain fuel p = (map slot_id (pending (module p)), p') /\ pending (module p') = [] /\
    slots (module p') = slots (module p).
Proof.
  revert p. induction fuel as [|fuel IH]; intros p Hn Hl; [lia|]. cbn [drain].
  destruct (pending (module p)) as [|s rest] eqn:Ep.
  - rewrite take_none by done. by exists p.
  - destruct (take_some p s rest Hn Ep) as (p' & -> & Hp' & Hs).
    destruct (IH p') as (p'' & -> & Hp'' & Hs'').
    + by rewrite Hs.
    + rewrite Hp'. cbn in Hl. lia.
    + exists p''. rewrite Hp', Hs'', Hs. done.
Qed.

(** ** Lemmas: login *)

(** The slot's cache holds no PIN1 and waits for none. *)
Definition no_pin1 (id : Z) (p : Process) : Prop :=
  forall r c, pin_caches (module p) !! id = Some r -> heap p !! r = Some c ->
    positive_pin1 c = None /\ outstanding c = None.

Lemma no_pin1_cleared id p : no_pin1 id (clear_slot_pin id p).
Proof.
  unfold no_pin1, clear_slot_pin. destruct (pin_caches (module p) !! id) as [r|] eqn:E; cbn; rewrite E.
  - intros r' c [= <-]. rewrite lookup_alter_eq. intros (c' & _ & ->)%fmap_Some. done.
  - done.
Qed.

Lemma no_pin1_with_module f id p : pin_caches (f (module p)) = pin_caches (module p) ->
  no_pin1 id p -> no_pin1 id (with_module f p).
Proof. unfold no_pin1. cbn. intros ->. done. Qed.

Lemma no_pin1_invalidated id p : no_pin1 id (invalidate_slot id p).
Proof. apply no_pin1_cleared. Qed.

Lemma module_invalidate id p : module (invalidate_slot id p) = with_tokens (delete id) (module p).
Proof. unfold invalidate_slot. by rewrite module_clear_slot_pin. Qed.

Lemma no_pin1_logged_out count now id p : no_pin1 id p -> id ∉ remote_logged_in (module p) ->
  (is_logged_in count now id p).1 = false.
Proof.
  intros Hp Hr. unfold is_logged_in.
  set (local := match pin_caches (module p) !! id with Some _ => _ | None => _ end).
  assert (Hl : local.1 = false).
  { subst local. destruct (pin_caches (module p) !! id) as [r|] eqn:Er; [|done].
    destruct (heap p !! r) as [c|] eqn:Ec; [|done]. destruct (Hp r c Er Ec) as (H1 & H2).
    unfold holds_pin1_at. by rewrite H1, H2. }
  destruct (slot (module p) id); [|done]. destruct (is_remote _); [|done].
  cbn [fst]. by rewrite bool_decide_false, andb_false_r.
Qed.

Lemma logout_logged_out count now id p : (is_logged_in count now id (logout id p)).1 = false.
Proof.
  apply no_pin1_logged_out; [apply no_pin1_cleared|].
  unfold logout. rewrite module_clear_slot_pin. cbn. set_solver.
Qed.

Lemma slot_in_use_spec id m :
  slot_in_use id m = true <-> exists h s, sessions m !! h = Some s /\ session_slot_id s = id.
Proof.
  unfold slot_in_use. rewrite existsb_exists. split.
  - intros ([h s] & Hin%list_elem_of_In%elem_of_map_to_list & Hid). exists h, s. to_prop. by split.
  - intros (h & s & Hs & <-). exists (h, s). split; [|by apply Z.eqb_refl].
    by apply list_elem_of_In, elem_of_map_to_list.
Qed.

Lemma alter_alter_present b b' (pos : nat) (l : list SlotRecord) :
  alter (set_present b) pos (alter (set_present b') pos l) = alter (set_present b) pos l.
Proof. revert pos. induction l as [|s l IH]; intros [|pos]; cbn; try done. f_equal. apply IH. Qed.

Section MovedCard.
Context `{SlotProber}.

(** The slot after the drop of its token, before a card is raised again. *)
Definition dropped (reader : ReaderInfo) (pos : nat) (id : Z) (p : Process) : Process :=
  with_module (with_reported (alter (fun _ => false) id))
    (invalidate_slot id
      (with_module (with_slots (alter (set_present false) pos))
        (with_module (with_events (<[id := ri_card_events reader]>)) p))).

Lemma refresh_moved_eq reader (aid_present : bool) pos s p last :
  card_present s = true -> card_events (module p) !! slot_id s = Some last ->
  last <> ri_card_events reader ->
  refresh_known reader aid_present pos s p =
  if aid_present then
    match build_objects (ri_id reader) with
    | Err _ => dropped reader pos (slot_id s) p
    | Ok objects =>
        cache_token (slot_id s) objects (invalidate_slot (slot_id s)
          (with_module (with_slots (alter (set_present true) pos)) (dropped reader pos (slot_id s) p)))
    end
  else dropped reader pos (slot_id s) p.
Proof.
  intros Hc He Hne. unfold refresh_known. rewrite He, (proj2 (Z.eqb_neq _ _) Hne), Hc.
  by destruct aid_present.
Qed.

Lemma module_dropped reader pos id p : module (dropped reader pos id p) =
  with_reported (alter (fun _ => false) id) (with_tokens (delete id)
    (with_slots (alter (set_present false) pos) (with_events (<[id := ri_card_events reader]>) (module p)))).
Proof. unfold dropped. cbn [with_module module]. by rewrite module_invalidate. Qed.

Lemma no_pin1_dropped reader pos id p : no_pin1 id (dropped reader pos id p).
Proof. apply no_pin1_with_module; [done|]. apply no_pin1_invalidated. Qed.

Lemma dropped_state reader pos id p :
  token_cache (module (dropped reader pos id p)) !! id = None /\
  slots (module (dropped reader pos id p)) = alter (set_present false) pos (slots (module p)) /\
  event_reported (module (dropped reader pos id p)) = alter (fun _ : bool => false) id (event_reported (module p)) /\
  next_token_generation (module (dropped reader pos id p)) = next_token_generation (module p).
Proof.
  rewrite module_dropped. cbn [with_reported with_tokens with_slots with_events token_cache slots
    event_reported next_token_generation]. by rewrite lookup_delete_eq.
Qed.

(** A token raised again after the drop. *)
Lemma raised_state id objects pos p :
  let p' := cache_token id objects (invalidate_slot id (with_module (with_slots (alter (set_present true) pos)) p)) in
  no_pin1 id p' /\
  token_cache (module p') !! id = Some (set_generation objects (next_token_generation (module p))) /\
  slots (module p') = alter (set_present true) pos (slots (module p)) /\
  event_reported (module p') = event_reported (module p).
Proof.
  cbn zeta. split; [apply no_pin1_with_module; [done|]; apply no_pin1_invalidated|].
  unfold cache_token. cbn [with_module module]. rewrite module_invalidate.
  cbn [with_tokens with_module with_slots module slots token_cache event_reported next_token_generation].
  by rewrite lookup_insert_eq.
Qed.

End MovedCard.

Lemma pending_listed reported l (pos : nat) s : NoDup (map slot_id l) -> l !! pos = Some s ->
  slot_id s ∈ map slot_id (List.filter (unreported reported) l) <-> unreported reported s = true.
Proof.
  intros Hn Hs. split.
  - intros (s' & Hid & Hin)%list_elem_of_In%in_map_iff. apply filter_In in Hin as (Hin & Hu).
    apply list_elem_of_In, list_elem_of_lookup in Hin as [pos' Hs'].
    assert (pos = pos') as <-; [|congruence].
    eapply (NoDup_lookup (map slot_id l)); [done| |]; rewrite list_lookup_fmap;
      [by rewrite Hs|by rewrite Hs', <- Hid].
  - intros Hu. apply list_elem_of_In, in_map, filter_In. split; [|done].
    apply list_elem_of_In, list_elem_of_lookup. by exists pos.
Qed.

Lemma alter_ids (pos : nat) b l : map slot_id (alter (set_present b) pos l) = map slot_id l.
Proof. revert pos. induction l as [|s l IH]; intros [|pos]; cbn; try done. f_equal. apply IH. Qed.

(** A present slot whose reader is empty and whose count stood still. *)
Lemma refresh_still_absent `{SlotProber} reader pos s p :
  card_present s = true ->
  (forall last, card_events (module p) !! slot_id s = Some last -> last = ri_card_events reader) ->
  slots (module (refresh_known reader false pos s p)) = alter (set_present false) pos (slots (module p)) /\
  event_reported (module (refresh_known reader false pos s p)) = event_reported (module p).
Proof.
  intros Hc Hl. unfold refresh_known. rewrite Hc.
  assert (Hm : match card_events (module p) !! slot_id s with
    | Some last => negb (last =? ri_card_events reader) | None => false end = false).
  { destruct (card_events (module p) !! slot_id s) as [last|]; [|done].
    by rewrite (Hl last), Z.eqb_refl by done. }
  rewrite Hm. cbn [andb negb]. rewrite module_invalidate. done.
Qed.

(** ** Properties *)

(** C25 While slot ids and handle ranges last, slots are only ever appended:
    along any run of the module's operations a slot keeps its place, its id and
    its device, no two slots share an id or a device, and every cached token
    belongs to a listed slot. *)
Theorem slot_keeps_its_device p p' pos s :
  reached p -> rtc step p p' -> unsaturated (module p') -> slots (module p) !! pos = Some s ->
  (exists s', slots (module p') !! pos = Some s' /\ slot_id s' = slot_id s /\
     device (slot_kind s') = device (slot_kind s)) /\
  NoDup (slot_ids (module p')) /\ NoDup (map (fun s => device (slot_kind s)) (slots (module p'))) /\
  (forall id, is_Some (token_cache (module p') !! id) -> id ∈ slot_ids (module p')).
Proof.
  intros Hp Hr Hu Hs. destruct (reached_ok p Hp) as (Ht & Hok).
  destruct (module_run_sound _ _ Hr Ht) as (_ & [[l Hl] _ _ _] & Hk). destruct (Hk Hu Hok) as [H1 H2 _ H4 _ _].
  rewrite slot_keys_ids in H1, H4. rewrite slot_keys_devices in H2. split; [|done].
  assert (Hx : slot_keys (module p') !! pos = Some (slot_key s)).
  { rewrite Hl. apply lookup_app_l_Some. unfold slot_keys. by rewrite list_lookup_fmap, Hs. }
  unfold slot_keys in Hx. rewrite list_lookup_fmap in Hx.
  apply fmap_Some in Hx as (s' & Hs' & Hkey). exists s'. by injection Hkey as -> ->.
Qed.

(** C24 An object handle names one object of one raised token for good: the
    token answers it with that object, and along any run a cached token that
    answers it with anything is that same token, in the same slot, and answers
    with that same object. *)
Theorem handle_names_one_object p p' i t k :
  reached p -> rtc step p p' -> unsaturated (module p') ->
  token_cache (module p) !! i = Some t -> len (ca_store t) <= MAX_CA_OBJECTS ->
  object_exists t k = true ->
  kind_of t (object_handle t k) = Some k /\
  forall j u k', token_cache (module p') !! j = Some u ->
    kind_of u (object_handle t k) = Some k' -> j = i /\ u = t /\ k' = k.
Proof.
  intros Hp Hr Hu Hi Hlt He. destruct (reached_ok p Hp) as (Ht & Hok).
  destruct (module_run_sound _ _ Hr Ht) as (_ & Hext & _).
  assert (Htok : token_ok t).
  { apply (token_in_range _ _ _ Hok Hi); [|done]. by eapply unsaturated_before. }
  assert (Hh : 0 <= object_handle t k) by (apply object_handle_nonneg; eauto using exists_in_range).
  assert (Hown : kind_of t (object_handle t k) = Some k) by (by apply kind_of_iff).
  split; [done|]. intros j u k' Hj Ha.
  pose proof (kind_of_generation _ _ _ _ _ Ha Hown) as Hg.
  assert (Hju : token_cache (module p) !! j = Some u).
  { apply (ext_tokens _ _ Hext); [done|]. rewrite Hg. by eapply ok_generations. }
  assert (j = i) as -> by (by eapply ok_distinct). simplify_eq. done.
Qed.

(** C27 Polling for slot events until none is left reports exactly the slots
    whose presence differs from the last report, each once and in table order,
    and leaves every slot reported as it is. *)
Theorem slot_events_reported_once p fuel :
  reached p -> (length (slots (module p)) < fuel)%nat ->
  exists p', drain fuel p = (map slot_id (pending (module p)), p') /\
    (take_slot_event p').1 = None /\ slots (module p') = slots (module p) /\
    forall s, s ∈ slots (module p) -> event_reported (module p') !! slot_id s = Some (card_present s).
Proof.
  intros Hp Hf. destruct (reached_ok p Hp) as (_ & Hok). pose proof (ok_ids _ Hok) as Hn.
  rewrite slot_keys_ids in Hn. pose proof (filter_length_le (unreported (event_reported (module p))) (slots (module p))).
  destruct (drain_spec fuel p Hn) as (p' & Hd & Hp' & Hs); [unfold pending; lia|].
  exists p'. split; [done|]. split; [by rewrite take_none|]. split; [done|].
  intros s Hin. rewrite <- Hs in Hin. destruct (unreported (event_reported (module p')) s) eqn:E.
  - assert (Hin' : In s (pending (module p'))) by (apply filter_In; split; [by apply list_elem_of_In|done]).
    by rewrite Hp' in Hin'.
  - by apply negb_false_iff, bool_decide_eq_true in E.
Qed.

(** C26 A login ends with the slot's last session.  A close removes the session
    it names and no other.  While another session of the same slot is open, no
    PIN cache and no remote login changes; when the closed session was the only
    one of its slot, the slot's cache holds no PIN1 and waits for none, the slot
    is not logged in remotely, and it is reported as logged out whatever is
    still out on a checkout. *)
Theorem login_ends_with_last_session p handle session :
  sessions (module p) !! handle = Some session ->
  let id := session_slot_id session in
  let p' := (close_session handle p).2 in
  (close_session handle p).1 = true /\
  sessions (module p') = delete handle (sessions (module p)) /\
  ((exists h other, h <> handle /\ sessions (module p) !! h = Some other /\ session_slot_id other = id) ->
     heap p' = heap p /\ remote_logged_in (module p') = remote_logged_in (module p)) /\
  ((forall h other, sessions (module p) !! h = Some other -> session_slot_id other = id -> h = handle) ->
     no_pin1 id p' /\ id ∉ remote_logged_in (module p') /\
     forall count now, (is_logged_in count now id p').1 = false).
Proof.
  intros Hs. unfold close_session. rewrite Hs. cbn [fst snd]. unfold forget_login_if_no_sessions.
  pose proof (slot_in_use_spec (session_slot_id session)
    (module (with_module (with_sessions (delete handle)) p))) as Hu. cbn in Hu.
  split; [done|]. destruct (slot_in_use _ _) eqn:E; cbn [negb].
  - split; [done|]. split; [done|]. intros Hone. destruct (proj1 Hu eq_refl) as (h & other & Ho & Hid).
    apply lookup_delete_Some in Ho as [Hne Ho]. by destruct Hne; symmetry; apply (Hone h other).
  - split; [unfold logout; by rewrite module_clear_slot_pin|]. split.
    + intros (h & other & Hne & Ho & Hid). discriminate (proj2 Hu). exists h, other.
      by rewrite lookup_delete_ne.
    + intros _. split; [apply no_pin1_cleared|]. split; [|intros; apply logout_logged_out].
      unfold logout. rewrite module_clear_slot_pin. cbn. set_solver.
Qed.

Section MovedProperties.
Context `{SlotProber}.

(** A present slot whose reader counted a move since the last refresh loses
    its token and its PIN1: a card found there is read anew and raised under a
    fresh handle range, the slot shows a card exactly when that read succeeds,
    and the caller's last report is reset to absent. *)
Theorem moved_card_forgotten reader p pos s last :
  let observation := if ri_card_present reader then probe (ri_id reader) else Absent in
  preserves_last_known_state observation = false ->
  reader_position (ri_id reader) (slots (module p)) = Some pos ->
  slots (module p) !! pos = Some s -> card_present s = true ->
  card_events (module p) !! slot_id s = Some last -> last <> ri_card_events reader ->
  let p' := refresh_reader reader p in
  let raised := match observation, build_objects (ri_id reader) with
                | Present, Ok objects => Some objects | _, _ => None end in
  no_pin1 (slot_id s) p' /\
  token_cache (module p') !! slot_id s
    = (fun o => set_generation o (next_token_generation (module p))) <$> raised /\
  slots (module p') = alter (set_present (bool_decide (is_Some raised))) pos (slots (module p)) /\
  event_reported (module p') = alter (fun _ : bool => false) (slot_id s) (event_reported (module p)).
Proof.
  intros observation Ho Hpos Hs Hc He Hne. cbn zeta. unfold refresh_reader. fold observation.
  rewrite Ho, Hpos, Hs, (refresh_moved_eq _ _ _ _ _ last) by done. clearbody observation.
  pose proof (dropped_state reader pos (slot_id s) p) as (H1 & H2 & H3 & H4).
  pose proof (no_pin1_dropped reader pos (slot_id s) p) as H5.
  destruct observation; try done. destruct (build_objects (ri_id reader)) as [o|e]; [|done].
  destruct (raised_state (slot_id s) o pos (dropped reader pos (slot_id s) p)) as (R1 & R2 & R3 & R4).
  rewrite R2, R3, R4, H2, H3, H4, alter_alter_present. done.
Qed.

(** C28 The removal of a card the caller was told of is left to report exactly
    when the reader's count did not move: a reader that counts its removals has
    the slot marked absent and reported as absent in one refresh, so no poll
    reports it. *)
Theorem removal_reported_unless_counted reader p pos s :
  reached p -> reader_position (ri_id reader) (slots (module p)) = Some pos ->
  slots (module p) !! pos = Some s -> card_present s = true ->
  event_reported (module p) !! slot_id s = Some true -> ri_card_present reader = false ->
  let p' := refresh_reader reader p in
  slots (module p') !! pos = Some (set_present false s) /\
  (slot_id s ∈ map slot_id (pending (module p')) <->
   forall last, card_events (module p) !! slot_id s = Some last -> last = ri_card_events reader).
Proof.
  intros Hp Hpos Hs Hc Hr Hn. cbn zeta. destruct (reached_ok p Hp) as (_ & Hok).
  pose proof (ok_ids _ Hok) as Hnd. rewrite slot_keys_ids in Hnd. unfold refresh_reader. rewrite Hn, Hpos, Hs.
  cbn [preserves_last_known_state].
  assert (Hl : alter (set_present false) pos (slots (module p)) !! pos = Some (set_present false s))
    by (by rewrite list_lookup_alter_eq, Hs).
  assert (Hpend := fun R => pending_listed R _ pos _ ltac:(rewrite alter_ids; exact Hnd) Hl).
  assert ((forall last, card_events (module p) !! slot_id s = Some last -> last = ri_card_events reader)
    \/ exists last, card_events (module p) !! slot_id s = Some last /\ last <> ri_card_events reader)
    as [Hstill|(last & He & Hne)].
  { destruct (card_events (module p) !! slot_id s) as [last|]; [|by left].
    destruct (decide (last = ri_card_events reader)); [left; congruence|right; eauto]. }
  - destruct (refresh_still_absent reader pos s p Hc Hstill) as (Es & Er). unfold pending.
    rewrite Es, Er. split; [done|]. split; [done|]. intros _. apply Hpend. unfold unreported. cbn. by rewrite Hr.
  - rewrite (refresh_moved_eq _ _ _ _ _ last) by done.
    destruct (dropped_state reader pos (slot_id s) p) as (_ & Es & Er & _). unfold pending.
    rewrite Es, Er. split; [done|]. split; [|intros Hx; by apply Hx in He].
    intros Hin%Hpend. unfold unreported in Hin. cbn in Hin. by rewrite lookup_alter_eq, Hr in Hin.
Qed.

End MovedProperties.

(** ** A card inserted, reported, used and removed *)

Definition demo_objects : TokenObjects := mkTokenObjects [48; 0] [[48; 1]] RsaPkcs [65] 0.
Definition demo_reader (present : bool) (events : Z) : ReaderInfo := mkReaderInfo [114] present events.

Definition demo_prober (present : bool) (events : Z) : SlotProber := {|
  enumerate := Ok [demo_reader present events];
  probe := fun _ => Present;
  build_objects := fun _ => Ok demo_objects;
  prober_identity := fun _ => mkReaderIdentity None None |}.

Definition demo_start : Process := mkProcess empty_module ∅ ∅ 0.
Definition demo_inserted : Process := (@refresh_slots_with (demo_prober true 4) demo_start).2.
Definition demo_reported : Process := (take_slot_event demo_inserted).2.
Definition demo_slot : SlotRecord := mkSlot 1 (Local [114]) true (mkReaderIdentity None None).

Lemma demo_inserted_run : rtc step demo_start demo_inserted.
Proof. apply rtc_once. exact (@StepReaders (demo_prober true 4) demo_start). Qed.

Lemma demo_reported_reached : reached demo_reported.
Proof.
  exists demo_start. split; [done|]. split; [|done].
  eapply rtc_r; [exact demo_inserted_run|]. exact (StepEvent demo_inserted).
Qed.

Lemma demo_inserted_reached : reached demo_inserted.
Proof. exists demo_start. split; [done|]. split; [exact demo_inserted_run|done]. Qed.

Lemma demo_reported_run : rtc step demo_inserted demo_reported.
Proof. apply rtc_once. exact (StepEvent demo_inserted). Qed.

Lemma slot_keeps_its_device_witness :
  exists s', slots (module demo_reported) !! 0%nat = Some s' /\ slot_id s' = slot_id demo_slot /\
    device (slot_kind s') = device (slot_kind demo_slot).
Proof.
  apply (slot_keeps_its_device demo_inserted demo_reported 0 demo_slot demo_inserted_reached demo_reported_run);
    done.
Defined.

Lemma handle_names_one_object_witness :
  kind_of (set_generation demo_objects 1) (object_handle (set_generation demo_objects 1) (Ca 0)) = Some (Ca 0).
Proof.
  apply (handle_names_one_object demo_inserted demo_reported 1 (set_generation demo_objects 1) (Ca 0)
    demo_inserted_reached demo_reported_run); try done.
Defined.

Lemma slot_events_reported_once_witness :
  exists p', drain 2 demo_inserted = (map slot_id (pending (module demo_inserted)), p') /\
    (take_slot_event p').1 = None.
Proof.
  destruct (slot_events_reported_once demo_inserted 2 demo_inserted_reached) as (p' & H1 & H2 & _);
    [vm_compute; lia|]. by exists p'.
Defined.

(** Two sessions of one slot whose cache holds a PIN1. *)
Definition demo_open : Process :=
  let p := (open_session 1 0 (open_session 1 0 demo_reported).2).2 in
  let m := module p in
  mkProcess
    (mkModule (slots m) (next_slot_id m) (sessions m) (next_session_handle m) {[1 := 0]} (token_cache m)
       (event_reported m) (remote_logged_in m) (card_events m) (next_token_generation m))
    {[0 := mkPinSafetyCache (Some (mkCachedPin1 [7] 4 demo_pin 1 Held)) None 1 (Credentials.cache_new [1])]}
    {[ [114] := 0 ]} 1.

(** Closing the first keeps the login, closing the second ends it. *)
Lemma login_ends_with_last_session_witness :
  let p1 := (close_session 1 demo_open).2 in
  let p2 := (close_session 2 p1).2 in
  heap p1 = heap demo_open /\ (is_logged_in (fun _ _ => 0) 0 1 p1).1 = true /\
  no_pin1 1 p2 /\ (is_logged_in (fun _ _ => 0) 0 1 p2).1 = false.
Proof.
  intros p1 p2. split_and!; [|by vm_compute| |].
  - apply (login_ends_with_last_session demo_open 1 (mkSession 1 0 None None None) eq_refl).
    by exists 2, (mkSession 1 0 None None None).
  - apply (login_ends_with_last_session p1 2 (mkSession 1 0 None None None) eq_refl).
    intros h other Ho _. revert Ho. change (sessions (module p1)) with ({[2 := mkSession 1 0 None None None]} : gmap Z _).
    by intros [<- _]%lookup_singleton_Some.
  - apply (login_ends_with_last_session p1 2 (mkSession 1 0 None None None) eq_refl).
    intros h other Ho _. revert Ho. change (sessions (module p1)) with ({[2 := mkSession 1 0 None None None]} : gmap Z _).
    by intros [<- _]%lookup_singleton_Some.
Defined.

Lemma moved_card_forgotten_witness :
  let p' := @refresh_reader (demo_prober true 6) (demo_reader true 6) demo_reported in
  no_pin1 1 p' /\ token_cache (module p') !! 1 = Some (set_generation demo_objects 2).
Proof.
  destruct (@moved_card_forgotten (demo_prober true 6) (demo_reader true 6) demo_reported 0 demo_slot 4
    eq_refl eq_refl eq_refl eq_refl eq_refl ltac:(discriminate)) as (H1 & H2 & _). exact (conj H1 H2).
Defined.

Lemma removal_reported_unless_counted_witness :
  ~ 1 ∈ map slot_id (pending (module (@refresh_reader (demo_prober false 5) (demo_reader false 5) demo_reported))).
Proof.
  intros Hin.
  destruct (@removal_reported_unless_counted (demo_prober false 5) (demo_reader false 5) demo_reported 0 demo_slot
    demo_reported_reached eq_refl eq_refl eq_refl eq_refl eq_refl) as (_ & (Hto & _)).
  specialize (Hto Hin 4 eq_refl). discriminate Hto.
Defined.

End State.
