(* ===== verification/EmrtdFile.v ===== *)
(** * Files of the travel-document application

    crates/emrtd/src: applet.rs, error.rs, sfi.rs and reader.rs.  The selection
    of the ICAO 9303 application, short file identifiers and the read of an
    elementary file: a probe of four bytes by short file identifier, then READ
    BINARY by offset up to the length the outer object declares.

    The loop takes fuel; it starts with one unit per byte of the largest file,
    and every round that continues adds a byte, so the fuel is never exhausted.

    The theorems: on any card the read ends, asks for no byte past the declared
    length and returns at most the largest file; the declared length is the one
    the BER parser finds; and a card that serves a data group by its identifier
    has it read exactly. *)

From stdpp Require Import base list strings.
From Stdlib Require Import ZArith Lia.
From S2P Require Import Prelude BerTlv ApduStatus ApduCommand ApduIso7816 Pkcs15Fs.

Module EmrtdFile.
Import Ber Apdu Iso7816.

(** ** Errors (error.rs) *)

Inductive EmrtdError (E : Type) :=
  | ETransport (e : E)
  | ENoCard
  | EProtocolDesync
  | ETimeoutUnknownState
  | ECardReset
  | EReaderRemoved
  | EStatus (operation : string) (sw : Status.StatusWord)
  | ECommand (e : CommandDataError)
  | MalformedData
  | EmptyFile.
Arguments ETransport {E} _.
Arguments ENoCard {E}.
Arguments EProtocolDesync {E}.
Arguments ETimeoutUnknownState {E}.
Arguments ECardReset {E}.
Arguments EReaderRemoved {E}.
Arguments EStatus {E} _ _.
Arguments ECommand {E} _.
Arguments MalformedData {E}.
Arguments EmptyFile {E}.

Definition EmrtdError_from {E} (outcome : TransportOutcome) : EmrtdError E :=
  match outcome with
  | Response _ => MalformedData
  | NoCard => ENoCard
  | TimeoutUnknownState => ETimeoutUnknownState
  | CardReset => ECardReset
  | ProtocolDesync => EProtocolDesync
  | ReaderRemoved => EReaderRemoved
  end.

(** ** Short file identifiers (sfi.rs) *)

Definition SFI_BIT_MASK : Z := 0x1F.
Definition SFI_READ_P1_FLAG : Z := 0x80.

Record Sfi := mkSfi { sfi_raw : Z }.

Definition sfi_new (value : Z) : Sfi := mkSfi (Z.land value SFI_BIT_MASK).
Definition p1_for_read_binary (self : Sfi) : Z := Z.lor SFI_READ_P1_FLAG (sfi_raw self).

Definition SFI_EF_COM : Sfi := sfi_new 0x1E.
Definition SFI_EF_DG1 : Sfi := sfi_new 0x01.
Definition SFI_EF_DG2 : Sfi := sfi_new 0x02.
Definition SFI_EF_DG7 : Sfi := sfi_new 0x07.

(** ** The length of the outer object (reader.rs) *)

Definition INS_READ_BINARY : Z := 0xB0.
Definition HEADER_PROBE_LENGTH : Z := 0x04.
Definition READ_CHUNK_MAX_LENGTH : Z := 0xDF.
Definition SW_END_OF_FILE_REACHED : Z := 0x6282.
Definition MULTI_BYTE_TAG_FLAG : Z := 0x1F.
Definition HIGH_BIT_SET_FLAG : Z := 0x80.
Definition LONG_FORM_LENGTH_FLAG : Z := 0x80.
Definition LENGTH_COUNT_MASK : Z := 0x7F.
Definition MIN_HEADER_BYTES_FOR_LENGTH : Z := 2.
Definition MAX_LENGTH_OCTETS : Z := 2.
Definition MAX_EMRTD_FILE_BYTES : Z := DIRECT_OFFSET_MAX + 1.

(** [take_while(high bit).count()]. *)
Fixpoint continuation_count (bs : bytes) : Z :=
  match bs with
  | byte :: rest =>
      if negb (Z.land byte HIGH_BIT_SET_FLAG =? 0) then 1 + continuation_count rest else 0
  | [] => 0
  end.

Definition content_length_at (header : bytes) (index length_first_byte : Z) : option (Z * Z) :=
  if length_first_byte <? LONG_FORM_LENGTH_FLAG then Some (length_first_byte, index)
  else
    let count := Z.land length_first_byte LENGTH_COUNT_MASK in
    if (count =? 0) || (count >? MAX_LENGTH_OCTETS) then None
    else
      last ← checked_add USIZE_MAX index count;
      octets ← get_range header index last;
      content ← Pkcs15.content_length octets 0;
      Some (content, last).

Definition decode_outer_total_length (header : bytes) : option Z :=
  match header with
  | [] => None
  | first_tag_byte :: rest =>
      index ← (if Z.land first_tag_byte MULTI_BYTE_TAG_FLAG =? MULTI_BYTE_TAG_FLAG
               then i ← checked_add USIZE_MAX 1 (continuation_count rest);
                    checked_add USIZE_MAX i 1
               else Some 1);
      length_first_byte ← get header index;
      index ← checked_add USIZE_MAX index 1;
      '(content_length, index) ← content_length_at header index length_first_byte;
      total ← checked_add USIZE_MAX index content_length;
      if total <=? MAX_EMRTD_FILE_BYTES then Some total else None
  end.

(** ** The commands *)

Definition EMRTD_APPLET_AID : bytes := [0xA0; 0x00; 0x00; 0x02; 0x47; 0x10; 0x01].

Section Ops.
Context {T E : Type} `{CardTransport T E}.

Definition response_or_error (command : CommandApdu) : exec T (EmrtdError E) ResponseApdu :=
  do? outcome <- emap_err ETransport (transmit command) ;;
  match outcome with
  | Response response => eret response
  | non_response => elift (Err (EmrtdError_from non_response))
  end.

Definition select_emrtd_application : exec T (EmrtdError E) unit :=
  do? command <- elift (map_err ECommand (case_3 (mkHeader Plain 0xA4 0x04 0x0C) EMRTD_APPLET_AID)) ;;
  do? response <- response_or_error command ;;
  elift (if response_is_ok response then Ok tt
         else Err (EStatus "SELECT eMRTD application" (status_word response))).

Definition header_command (sfi : Sfi) : CommandApdu :=
  case_2 (mkHeader Plain INS_READ_BINARY (p1_for_read_binary sfi) 0x00) HEADER_PROBE_LENGTH.

Definition sw_of (response : ResponseApdu) : Z := Status.as_u16 (status_word response).

(** Success, or the end of the file. *)
Definition readable (response : ResponseApdu) : bool :=
  response_is_ok response || (sw_of response =? SW_END_OF_FILE_REACHED).

(** The [while] loop; [None] is fuel exhaustion. *)
Fixpoint chunk_loop (fuel : nat) (total_expected_length : Z) (buffer : bytes) (t : T)
  : option (result (EmrtdError E) bytes * T) :=
  if negb (len buffer <? total_expected_length) then Some (Ok buffer, t)
  else
    match fuel with
    | O => None
    | S fuel =>
        let remaining := total_expected_length - len buffer in
        match try_from_uint U8_MAX (Z.min READ_CHUNK_MAX_LENGTH remaining) with
        | None => Some (Err MalformedData, t)
        | Some want =>
            match offset ← try_from_uint U16_MAX (len buffer);
                  match DirectOffset15_try_new offset with Ok o => Some o | Err _ => None end with
            | None => Some (Err MalformedData, t)
            | Some offset =>
                match response_or_error (ReadBinary_into_apdu Plain (Direct offset) want) t with
                | (Err e, t) => Some (Err e, t)
                | (Ok response, t) =>
                    if negb (readable response)
                    then Some (Err (EStatus "READ BINARY by offset chunk" (status_word response)), t)
                    else if is_empty (body response) then Some (Ok buffer, t)
                    else if len (body response) >? want then Some (Err MalformedData, t)
                    else
                      let buffer := buffer ++ body response in
                      if sw_of response =? SW_END_OF_FILE_REACHED then Some (Ok buffer, t)
                      else chunk_loop fuel total_expected_length buffer t
                end
            end
        end
    end.

Definition FILE_FUEL : nat := Z.to_nat MAX_EMRTD_FILE_BYTES.

Definition read_emrtd_file (sfi : Sfi) (t : T) : option (result (EmrtdError E) bytes * T) :=
  match response_or_error (header_command sfi) t with
  | (Err e, t) => Some (Err e, t)
  | (Ok response, t) =>
      let header := body response in
      if negb (readable response)
      then Some (Err (EStatus "READ BINARY by SFI header probe" (status_word response)), t)
      else if is_empty header then Some (Err EmptyFile, t)
      else if len header >? HEADER_PROBE_LENGTH then Some (Err MalformedData, t)
      else if len header <? MIN_HEADER_BYTES_FOR_LENGTH then Some (Ok header, t)
      else
        match decode_outer_total_length header with
        | None => Some (Err MalformedData, t)
        | Some total => chunk_loop FILE_FUEL total (take_z header total) t
        end
  end.

End Ops.

(** ** Lemmas: the outer length *)

Lemma content_length_value octets : all_bytes octets -> len octets <= 2 ->
  Pkcs15.content_length octets 0 = Some (be_value octets).
Proof.
  intros Hb Hl. destruct octets as [|a [|b [|c octets]]]; cbn [Pkcs15.content_length].
  - done.
  - inversion Hb as [|?? Ha _]; subst. unfold is_u8 in *. change (Z.land (Z.shiftl 0 8) USIZE_MAX) with 0.
    rewrite checked_add_some by ulia. done.
  - inversion Hb as [|?? Ha Hb']; subst. inversion Hb' as [|?? Hb'' _]; subst. 
    change (Z.land (Z.shiftl 0 8) USIZE_MAX) with 0. rewrite checked_add_some by ulia.
    cbn [mbind option_bind].
    assert (Hs : Z.land (Z.shiftl (0 + a) 8) USIZE_MAX = a * 256).
    { change USIZE_MAX with (Z.ones 64). rewrite Z.land_ones, Z.shiftl_mul_pow2 by lia.
      rewrite Z.mod_small; ulia. }
    rewrite Hs, checked_add_some by ulia. cbn [mbind option_bind]. f_equal.
    unfold be_value, be_fold. cbn [fold_left]. rewrite !lor_shiftl_byte by done. lia.
  - exfalso. pose proof (len_nonneg octets). rewrite !len_cons in Hl. lia.
Qed.

Lemma content_length_agrees bs i lf c j l k :
  all_bytes bs -> 0 <= i -> i < 100 -> get bs i = Some lf ->
  content_length_at bs (i + 1) lf = Some (c, j) -> parse_length bs i = Ok (l, k) -> l = c /\ k = j.
Proof.
  intros Hb Hi Hi' Hg. unfold content_length_at, parse_length, next_byte. rewrite Hg. cbn [ok_or rbind].
  replace (saturating_add USIZE_MAX i 1) with (i + 1) by (unfold saturating_add; ulia).
  change SHORT_FORM_CEILING with 0x80. change LONG_FORM_LENGTH_FLAG with 0x80.
  destruct (lf <? 0x80) eqn:E; [intros [= <- <-] [= <- <-]; done|].
  change LENGTH_COUNT_MASK with 0x7F. set (count := Z.land lf 0x7F).
  destruct ((count =? 0) || (count >? MAX_LENGTH_OCTETS)) eqn:Ec; [done|].
  apply orb_false_iff in Ec as [Ec1 Ec2]. rewrite Z.gtb_ltb in Ec2.
  apply Z.eqb_neq in Ec1. apply Z.ltb_ge in Ec2. change MAX_LENGTH_OCTETS with 2 in Ec2.
  assert (0 <= count) by (apply Z.land_nonneg; right; lia).
  rewrite checked_add_some by ulia. cbn [mbind option_bind].
  intros (octets & Ho & Hc)%bind_Some. unfold long_form_octets.
  destruct (_ || _ || _ || _) eqn:El; [|done]. cbn [ok_or rbind].
  assert (Z.land lf LENGTH_OCTET_COUNT_MASK = count) as ->.
  { subst count. unfold LONG_FORM_1B, LONG_FORM_2B, LONG_FORM_3B, LONG_FORM_4B in El.
    assert (lf = 0x81 \/ lf = 0x82 \/ lf = 0x83 \/ lf = 0x84) as [->|[->|[->| ->]]] by lia; reflexivity. }
  replace (saturating_add USIZE_MAX (i + 1) count) with (i + 1 + count) by (unfold saturating_add; ulia).
  rewrite Ho. cbn [ok_or rbind]. pose proof (get_range_len _ _ _ _ Ho) as Hl.
  rewrite content_length_value in Hc; [| |lia].
  - cbn in Hc. injection Hc as <- <-. intros [= <- <-]. done.
  - apply get_range_spec in Ho as (_ & _ & ->). apply Forall_take, Forall_drop, Hb.
Qed.

(** Where the length begins, when the parser accepts the tag. *)
Lemma tag_agrees a rest i lf tg idx :
  (if Z.land a MULTI_BYTE_TAG_FLAG =? MULTI_BYTE_TAG_FLAG
   then i ← checked_add USIZE_MAX 1 (continuation_count rest); checked_add USIZE_MAX i 1
   else Some 1) = Some i ->
  get (a :: rest) i = Some lf -> parse_tag (a :: rest) 0 = Ok (tg, idx) -> idx = i /\ 1 <= i <= 2.
Proof.
  unfold parse_tag. rewrite next_byte_0. cbn [rbind].
  change MULTI_BYTE_TAG_MASK with 0x1F. change MULTI_BYTE_TAG_FLAG with 0x1F.
  destruct (Z.land a 31 =? 31); [|intros [= <-] _ [= _ <-]; lia].
  destruct rest as [|b rest]; [intros [= <-] Hg; discriminate Hg|].
  rewrite next_byte_1. cbn [rbind continuation_count].
  change TAG_MORE_OCTETS with 0x80. change HIGH_BIT_SET_FLAG with 0x80.
  destruct (negb (Z.land b 128 =? 0)); [done|]. intros [= <-] _ [= _ <-]. lia.
Qed.

(** The length decoded from the header is the one the BER parser finds. *)
Lemma outer_length_is_ber bs n r : all_bytes bs -> decode_outer_total_length bs = Some n ->
  parse bs = Ok r -> size r = n.
Proof.
  intros Hb Hd. unfold parse. destruct bs as [|a rest]; [done|]. cbn [decode_outer_total_length] in Hd.
  apply bind_Some in Hd as (i & Hi & Hd). apply bind_Some in Hd as (lf & Hg & Hd).
  destruct (parse_tag (a :: rest) 0) as [[tg idx]|] eqn:Et; [|done]. cbn [rbind].
  destruct (tag_agrees a rest i lf tg idx Hi Hg Et) as [-> Hi12].
  rewrite checked_add_some in Hd by ulia. cbn [mbind option_bind] in Hd.
  apply bind_Some in Hd as ([c j] & Hc & Hd). cbn in Hd.
  destruct (parse_length (a :: rest) i) as [[l k]|] eqn:El; [|done]. cbn [rbind].
  destruct (content_length_agrees (a :: rest) i lf c j l k Hb ltac:(lia) ltac:(lia) Hg Hc El) as [-> ->].
  apply bind_Some in Hd as (total & Hs & Hd). rewrite Hs. cbn [ok_or rbind].
  destruct (total <=? MAX_EMRTD_FILE_BYTES); [|done]. injection Hd as <-.
  destruct (get_range (a :: rest) j total); [|done]. cbn. by intros [= <-].
Qed.

Lemma continuation_count_nonneg bs : 0 <= continuation_count bs.
Proof. induction bs as [|b bs IH]; cbn [continuation_count]; [lia|]. case_match; lia. Qed.

Lemma decode_bound bs n : all_bytes bs -> decode_outer_total_length bs = Some n ->
  2 <= n <= MAX_EMRTD_FILE_BYTES.
Proof.
  intros Hb Hd. destruct bs as [|a rest]; [done|]. cbn [decode_outer_total_length] in Hd.
  apply bind_Some in Hd as (i & Hi & Hd). apply bind_Some in Hd as (lf & Hg & Hd).
  assert (Hi1 : 1 <= i).
  { pose proof (continuation_count_nonneg rest). destruct (_ =? _); [|by injection Hi as <-].
    apply bind_Some in Hi as (i' & Hi' & Hi). unfold checked_add in *. repeat case_match; simplify_eq; lia. }
  assert (Hlf : is_u8 lf).
  { unfold get in Hg. case_match; [done|]. eapply Forall_lookup_1; [exact Hb|exact Hg]. }
  apply bind_Some in Hd as (i2 & Hi2 & Hd). apply bind_Some in Hd as ([c j] & Hc & Hd).
  apply bind_Some in Hd as (total & Hs & Hd). destruct (Z.leb_spec total MAX_EMRTD_FILE_BYTES); [|done].
  injection Hd as <-. clear Hi Hg. unfold checked_add in Hi2, Hs. repeat case_match; simplify_eq. split; [|done].
  enough (0 <= c /\ i + 1 <= j) by lia. unfold content_length_at in Hc.
  destruct (lf <? _); [injection Hc as <- <-; unfold is_u8 in Hlf; lia|].
  set (count := Z.land lf LENGTH_COUNT_MASK) in Hc.
  assert (0 <= count) by (apply Z.land_nonneg; right; unfold LENGTH_COUNT_MASK; lia).
  destruct (_ || _); [done|]. apply bind_Some in Hc as (last & Hl & Hc).
  apply bind_Some in Hc as (octets & Ho & Hc). apply bind_Some in Hc as (content & Hcl & [= -> ->]).
  apply get_range_spec in Ho as (_ & _ & ->). unfold checked_add in Hl. case_match; simplify_eq.
  split; [|lia]. refine (Pkcs15.content_length_bound _ 0 c _ (Z.le_refl 0) Hcl).
  apply Forall_take, Forall_drop, Hb.
Qed.

Lemma decode_one_byte_tag t lf rest c j : Z.land t MULTI_BYTE_TAG_FLAG <> MULTI_BYTE_TAG_FLAG ->
  content_length_at (t :: lf :: rest) 2 lf = Some (c, j) -> 0 <= j <= 4 -> 0 <= c ->
  j + c <= MAX_EMRTD_FILE_BYTES -> decode_outer_total_length (t :: lf :: rest) = Some (j + c).
Proof.
  intros Ht Hc Hj Hc0 Hm. cbn [decode_outer_total_length].
  rewrite (proj2 (Z.eqb_neq _ _) Ht). cbn [mbind option_bind].
  change (get (t :: lf :: rest) 1) with (Some lf). cbn [mbind option_bind].
  change (checked_add USIZE_MAX 1 1) with (Some 2). cbn [mbind option_bind]. rewrite Hc.
  cbn [mbind option_bind]. change MAX_EMRTD_FILE_BYTES with 32768 in *.
  rewrite checked_add_some by ulia. cbn [mbind option_bind]. by rewrite (proj2 (Z.leb_le _ _)) by lia.
Qed.

Lemma content_length_octets (h octets rest : bytes) marker :
  len h = 2 -> (len octets = 1 /\ marker = LONG_FORM_1B \/ len octets = 2 /\ marker = LONG_FORM_2B) ->
  all_bytes octets ->
  content_length_at (h ++ octets ++ rest) 2 marker = Some (be_value octets, 2 + len octets).
Proof.
  intros Hh Hm Hb. unfold content_length_at.
  assert (Z.land marker LENGTH_COUNT_MASK = len octets /\ (marker <? LONG_FORM_LENGTH_FLAG) = false) as [-> ->].
  { destruct Hm as [(-> & ->)|(-> & ->)]; done. }
  replace ((len octets =? 0) || (len octets >? MAX_LENGTH_OCTETS)) with false
    by (change MAX_LENGTH_OCTETS with 2; lia).
  rewrite checked_add_some by ulia. cbn [mbind option_bind].
  rewrite (get_range_app' h) by lia. cbn [mbind option_bind].
  rewrite content_length_value by (done || lia). done.
Qed.

(** The header of an object with a one-byte tag lies in the probe. *)
Lemma decode_encoded t v w pad : tag1_ok t -> tlv t v = Ok w -> len w <= MAX_EMRTD_FILE_BYTES ->
  decode_outer_total_length (take_z (w ++ pad) HEADER_PROBE_LENGTH) = Some (len w).
Proof.
  intros Ht Hw Hm. pose proof (tlv_len_bound _ _ _ Hw) as Hv. pose proof (len_nonneg v).
  rewrite tlv_ok_eq in Hw by done. injection Hw as <-. destruct Ht as (_ & Ht). cbn [app].
  rewrite <- app_assoc. rewrite len_cons, len_app in *.
  change (take_z ?l HEADER_PROBE_LENGTH) with (take 4 l).
  assert (Hlm : len v <= 32766).
  { pose proof (length_octets_len (len v)). change MAX_EMRTD_FILE_BYTES with 32768 in Hm. ulia. }
  unfold length_octets in *. destruct (Z.ltb_spec (len v) 0x80).
  { cbn [app take len length] in *. rewrite (decode_one_byte_tag t (len v) _ (len v) 2); try done; try lia.
    - f_equal. rewrite len_cons, len_nil. lia.
    - unfold content_length_at. change LONG_FORM_LENGTH_FLAG with 0x80. by rewrite (proj2 (Z.ltb_lt _ _)).
    - rewrite len_cons, len_nil in Hm. lia. }
  destruct (Z.leb_spec (len v) U8_MAX).
  { cbn [app take] in *. rewrite !len_cons, len_nil in *.
    rewrite (decode_one_byte_tag t LONG_FORM_1B _ (len v) 3); try done; try lia; [f_equal; lia|].
    refine (content_length_octets [t; LONG_FORM_1B] [len v] (take 1 (v ++ pad)) LONG_FORM_1B eq_refl _ _);
      [by left|]. apply Forall_singleton. split; [lia|done]. }
  rewrite (proj2 (Z.leb_le (len v) U16_MAX)) in * by ulia. rewrite be_bytes_2 in *. cbn [app take] in *.
  rewrite !len_cons, len_nil in *.
  rewrite (decode_one_byte_tag t LONG_FORM_2B _ (len v) 4); try done; try lia; [f_equal; lia|].
  refine (eq_trans (content_length_octets [t; LONG_FORM_2B]
    [Z.land (Z.shiftr (len v) 8) 255; Z.land (len v) 255] [] LONG_FORM_2B eq_refl _ _) _).
  - by right.
  - rewrite <- be_bytes_2. apply be_bytes_all.
  - rewrite <- be_bytes_2. rewrite be_value_be_bytes by (cbn; ulia). by rewrite len_be_bytes.
Qed.

(** ** Lemmas: any card *)

(** A READ BINARY by offset within the first [total] bytes. *)
Definition reads_within (total : Z) (c : CommandApdu) : Prop :=
  exists off want, 0 <= off /\ 1 <= want <= READ_CHUNK_MAX_LENGTH /\ off + want <= total /\
    c = ReadBinary_into_apdu Plain (Direct (mkDirectOffset15 off)) want.

(** The want and the offset of one round. *)
Lemma round_addressed (buffer : bytes) total : len buffer < total -> total <= MAX_EMRTD_FILE_BYTES ->
  exists want, try_from_uint U8_MAX (Z.min READ_CHUNK_MAX_LENGTH (total - len buffer)) = Some want /\
    1 <= want <= READ_CHUNK_MAX_LENGTH /\ len buffer + want <= total /\
    (offset ← try_from_uint U16_MAX (len buffer);
     match DirectOffset15_try_new offset with Ok o => Some o | Err _ => None end)
    = Some (mkDirectOffset15 (len buffer)).
Proof.
  intros Hl Hm. pose proof (len_nonneg buffer). change MAX_EMRTD_FILE_BYTES with 32768 in Hm.
  unfold READ_CHUNK_MAX_LENGTH. exists (Z.min 223 (total - len buffer)).
  rewrite !try_from_uint_some by ulia. cbn [mbind option_bind].
  unfold DirectOffset15_try_new, DIRECT_OFFSET_MAX. rewrite Z.gtb_ltb, (proj2 (Z.ltb_ge _ _)) by lia.
  split_and!; (done || lia).
Qed.

#[local] Existing Instance Pkcs15.logging_transport.

Section AnyCard.
Context {T E : Type} `{CardTransport T E}.

Lemma response_logged c (s : T * list CommandApdu) :
  exists r t, response_or_error (E := E) c s = (r, (t, s.2 ++ [c])).
Proof.
  unfold response_or_error, ebind, emap_err, eret, elift. destruct s as [t l]. cbn.
  destruct (transmit c t) as [[[]|e] t']; cbn; eauto.
Qed.

Lemma chunk_loop_any fuel total buffer (s : T * list CommandApdu) :
  len buffer <= total -> total <= MAX_EMRTD_FILE_BYTES -> total - len buffer <= Z.of_nat fuel ->
  exists r s' n, chunk_loop (E := E) fuel total buffer s = Some (r, s') /\ s'.2 = s.2 ++ n /\
    Forall (reads_within total) n /\ (forall bs, r = Ok bs -> len bs <= total /\ buffer `prefix_of` bs).
Proof.
  revert buffer s. induction fuel as [|fuel IH]; intros buffer s Hl Hm Hf; cbn [chunk_loop];
    (destruct (Z.ltb_spec (len buffer) total) as [Hlt|Hge]; cbn [negb];
     [|exists (Ok buffer), s, []; rewrite app_nil_r; split_and!; try done; by intros bs [= <-]]);
    [lia|].
  destruct (round_addressed buffer total Hlt Hm) as (want & -> & Hw & Hwt & ->).
  set (c := ReadBinary_into_apdu Plain (Direct (mkDirectOffset15 (len buffer))) want).
  assert (Hc : reads_within total c) by (exists (len buffer), want; pose proof (len_nonneg buffer); split_and!; done || lia).
  destruct (response_logged c s) as (r & t & ->). destruct r as [response|e];
    [|eexists _, _, [c]; split_and!; [done..|by constructor|done]].
  assert (Hstop : forall x, len x <= total -> buffer `prefix_of` x -> forall bs, @Ok (EmrtdError E) _ x = Ok bs ->
    len bs <= total /\ buffer `prefix_of` bs) by (by intros x ? ? bs [= <-]).
  destruct (negb (readable response)); [by eexists _, _, [c]; split_and!; [..|by constructor|]|].
  destruct (is_empty (body response)) eqn:Ee;
    [eexists _, _, [c]; split_and!; [..|by constructor|]; [done..|by apply Hstop]|].
  destruct (Z.gtb_spec (len (body response)) want);
    [by eexists _, _, [c]; split_and!; [..|by constructor|]|].
  rewrite is_empty_len in Ee. apply Z.eqb_neq in Ee. pose proof (len_nonneg (body response)).
  assert (len (buffer ++ body response) <= total) by (rewrite len_app; lia).
  destruct (sw_of response =? SW_END_OF_FILE_REACHED).
  { eexists _, _, [c]; split_and!; [..|by constructor|]; [done..|]. apply Hstop; [done|by eexists]. }
  destruct (IH (buffer ++ body response) (t, s.2 ++ [c])) as (r & s' & n & -> & Hn & Hfn & Hr);
    [done|done|rewrite len_app; lia|].
  exists r, s', (c :: n). split_and!; [done| |by constructor|].
  - rewrite Hn. cbn [snd]. by rewrite <- app_assoc.
  - intros bs Hbs. apply Hr in Hbs as (? & ?). split; [done|].
    etrans; [by eexists|done].
Qed.

Lemma read_file_any sfi (s : T * list CommandApdu) : Pkcs15.transport_typed (T := T) (E := E) ->
  exists r s' n total, read_emrtd_file (E := E) sfi s = Some (r, s') /\
    s'.2 = s.2 ++ header_command sfi :: n /\ total <= MAX_EMRTD_FILE_BYTES /\
    Forall (reads_within total) n /\ forall bs, r = Ok bs -> 1 <= len bs <= MAX_EMRTD_FILE_BYTES.
Proof.
  intros Hty. unfold read_emrtd_file.
  assert (Hb : forall r s', response_or_error (E := E) (header_command sfi) s = (Ok r, s') -> all_bytes (body r)).
  { intros r s'. unfold response_or_error, ebind, emap_err, eret, elift. destruct s as [t l]. cbn.
    destruct (transmit _ t) as [[[]|e] t'] eqn:Et; cbn; [|done..]. intros [= <- _]. by eapply Hty. }
  destruct (response_logged (header_command sfi) s) as (r & t & Hr). rewrite Hr in *.
  assert (Hstop : forall x : result (EmrtdError E) bytes,
    (forall bs, x = Ok bs -> 1 <= len bs <= MAX_EMRTD_FILE_BYTES) ->
    exists r s' n total, Some (x, (t, s.2 ++ [header_command sfi])) = Some (r, s') /\
      s'.2 = s.2 ++ header_command sfi :: n /\ total <= MAX_EMRTD_FILE_BYTES /\
      Forall (reads_within total) n /\ forall bs, r = Ok bs -> 1 <= len bs <= MAX_EMRTD_FILE_BYTES).
  { intros x Hx. by exists x, (t, s.2 ++ [header_command sfi]), [], 0. }
  destruct r as [response|e]; [|by apply Hstop]. specialize (Hb _ _ eq_refl).
  destruct (negb (readable response)); [by apply Hstop|].
  rewrite is_empty_len. destruct (Z.eqb_spec (len (body response)) 0); [by apply Hstop|].
  pose proof (len_nonneg (body response)).
  destruct (Z.gtb_spec (len (body response)) HEADER_PROBE_LENGTH) as [|H4]; [by apply Hstop|].
  assert (HEADER_PROBE_LENGTH <= MAX_EMRTD_FILE_BYTES) by done.
  destruct (len (body response) <? MIN_HEADER_BYTES_FOR_LENGTH); [apply Hstop; intros bs [= <-]; lia|].
  destruct (decode_outer_total_length (body response)) as [total|] eqn:Ed; [|by apply Hstop].
  apply decode_bound in Ed as Ht; [|done].
  assert (Hlt : len (take_z (body response) total) = Z.min total (len (body response)))
    by (apply Pkcs15.len_take_min; lia).
  destruct (chunk_loop_any FILE_FUEL total (take_z (body response) total) (t, s.2 ++ [header_command sfi]))
    as (r & s' & cs & -> & Hn & Hf & Hr'); [lia|lia|unfold FILE_FUEL; rewrite Z2Nat.id by done; lia|].
  exists r, s', cs, total. split_and!; [done| |lia|done|].
  - rewrite Hn. cbn [snd]. by rewrite <- app_assoc.
  - intros bs Hbs. apply Hr' in Hbs as (Hbl & [k ->]). rewrite len_app in *. pose proof (len_nonneg k). lia.
Qed.

End AnyCard.

(** ** A card that serves its data groups *)

(** What READ BINARY by short file identifier promises of a card (ISO 7816-4
    section 7.2.3): the file is selected and its first bytes are answered, with
    end-of-file allowed when fewer than asked for are there; and a read changes
    no file. *)
Definition is_read (c : CommandApdu) : Prop :=
  (exists sfi, c = header_command sfi) \/
  exists off want, c = ReadBinary_into_apdu Plain (Direct (mkDirectOffset15 off)) want.

Class ServesEmrtd (T E : Type) `{Pkcs15.ServesFile T E} := {
  files : T -> Z -> option bytes;
  serves_sfi : forall t sfi f, files t (sfi_raw sfi) = Some f ->
    exists r t', transmit (header_command sfi) t = (Ok (Response r), t') /\
      body r = take_z f HEADER_PROBE_LENGTH /\ Pkcs15.selected t' = Some f /\
      (status_word r = Status.Success \/
       status_word r = Status.EndOfFile /\ len f < HEADER_PROBE_LENGTH);
  reads_keep_files : forall c t r t', is_read c -> transmit c t = (r, t') -> files t' = files t }.

Section Served.
Context {T E : Type} `{ServesEmrtd T E}.

Lemma answered_response c t (r : ResponseApdu) t' : transmit c t = (Ok (Response r), t') ->
  response_or_error (E := E) c t = (Ok r, t').
Proof. intros Hx. unfold response_or_error, ebind, emap_err. by rewrite Hx. Qed.

Lemma readable_status r : status_word r = Status.Success \/ status_word r = Status.EndOfFile ->
  readable r = true.
Proof. unfold readable, response_is_ok, sw_of. by intros [-> | ->]. Qed.

Lemma chunk_loop_serves fuel f total k t : Pkcs15.selected t = Some f ->
  0 <= k <= total -> total <= len f -> total <= MAX_EMRTD_FILE_BYTES -> total - k <= Z.of_nat fuel ->
  exists t', chunk_loop fuel total (take_z f k) t = Some (Ok (take_z f total), t') /\ files t' = files t.
Proof.
  revert k t. induction fuel as [|fuel IH]; intros k t Hs Hk Hf Hm Hfu; cbn [chunk_loop];
    rewrite len_take_z by lia; (destruct (Z.ltb_spec k total) as [Hlt|Hge]; cbn [negb];
     [|exists t; by replace k with total by lia]); [lia|].
  destruct (round_addressed (take_z f k) total) as (want & Hw1 & Hw & Hwt & Hoff);
    [rewrite len_take_z; lia|done|]. rewrite len_take_z in * by lia. rewrite Hw1, Hoff.
  destruct (Pkcs15.serves_read t f k want Hs) as (r & t' & Ht & Hb & Hs' & Hst);
    [lia|change MAX_EMRTD_FILE_BYTES with 32768 in Hm; lia|done|].
  rewrite (answered_response _ _ _ _ Ht). destruct Hst as [Hst|[_ ?]]; [|lia].
  rewrite readable_status by (by left). cbn [negb]. rewrite Hb, is_empty_len, Pkcs15.len_take_min, len_drop_z by lia.
  replace (Z.min want (len f - k)) with want by lia. rewrite Z.gtb_ltb, Z.ltb_irrefl.
  replace (want =? 0) with false by lia. unfold sw_of. rewrite Hst.
  change (Status.as_u16 Status.Success =? SW_END_OF_FILE_REACHED) with false. cbv iota.
  rewrite Pkcs15.take_z_step by lia.
  rewrite <- (reads_keep_files _ _ _ _ (or_intror (ex_intro _ k (ex_intro _ want eq_refl))) Ht).
  apply IH; (done || lia).
Qed.

Lemma read_file_serves t sfi tg v w pad : files t (sfi_raw sfi) = Some (w ++ pad) ->
  tag1_ok tg -> tlv tg v = Ok w -> len w <= MAX_EMRTD_FILE_BYTES ->
  exists t', read_emrtd_file sfi t = Some (Ok w, t') /\ files t' = files t.
Proof.
  intros Hf Ht Hw Hm. destruct (serves_sfi t sfi _ Hf) as (r & t' & Hx & Hb & Hs & Hst).
  pose proof (decode_encoded tg v w pad Ht Hw Hm) as Hd. pose proof (len_nonneg pad).
  assert (Hw2 : 2 <= len w).
  { pose proof (tlv_len_bound _ _ _ Hw) as Hv. rewrite tlv_ok_eq in Hw by done. injection Hw as <-.
    rewrite len_cons, len_app. pose proof (len_nonneg v).
    pose proof (length_octets_len (len v) ltac:(split; done)). lia. }
  unfold read_emrtd_file. rewrite (answered_response _ _ _ _ Hx), readable_status by (destruct Hst as [?|[? _]]; auto).
  change HEADER_PROBE_LENGTH with 4 in *. cbn [negb]. rewrite Hb.
  assert (Hl : len (take_z (w ++ pad) 4) = Z.min 4 (len (w ++ pad))) by (by apply Pkcs15.len_take_min).
  rewrite is_empty_len, Hl, len_app, Z.gtb_ltb. rewrite len_app in Hl.
  replace (_ =? 0) with false by lia. replace (4 <? _) with false by lia.
  change MIN_HEADER_BYTES_FOR_LENGTH with 2. replace (_ <? 2) with false by lia. rewrite Hd.
  assert (Hk : take_z (take_z (w ++ pad) 4) (len w) = take_z (w ++ pad) (Z.min 4 (len w))).
  { unfold take_z. rewrite take_take. f_equal. lia. }
  rewrite Hk. assert (Hall : take_z (w ++ pad) (len w) = w)
    by (unfold take_z, len; rewrite Nat2Z.id; apply take_app_length).
  destruct (chunk_loop_serves FILE_FUEL (w ++ pad) (len w) (Z.min 4 (len w)) t' Hs) as (t'' & Ht'' & Hk'');
    [lia|rewrite len_app; lia|done|unfold FILE_FUEL; rewrite Z2Nat.id by done; lia|].
  exists t''. rewrite Ht'', Hall, Hk''. split; [done|].
  exact (reads_keep_files _ _ _ _ (or_introl (ex_intro _ sfi eq_refl)) Hx).
Qed.

End Served.

(** ** A card with two data groups *)

Record demo_card := mkDemo { demo_files : list (Z * bytes); demo_selected : option bytes }.

Definition demo_file (fs : list (Z * bytes)) (sfi : Z) : option bytes :=
  snd <$> List.find (fun e => e.1 =? sfi) fs.

(** READ BINARY by identifier and by offset; anything else is accepted. *)
Definition demo_transmit (c : CommandApdu) : exec demo_card unit TransportOutcome := fun t =>
  let answer body t := (Ok (Response (mkResponse body 0x90 0x00)), t) in
  match as_bytes c with
  | [_; 0xB0; p1; p2; le] =>
      if Z.testbit p1 7 then
        match demo_file (demo_files t) (Z.land p1 0x1F) with
        | Some f => answer (take_z (drop_z f p2) le) (mkDemo (demo_files t) (Some f))
        | None => (Ok (Response (mkResponse [] 0x6A 0x82)), t)
        end
      else
        match demo_selected t with
        | Some f => answer (take_z (drop_z f (be_value [p1; p2])) le) t
        | None => (Ok (Response (mkResponse [] 0x69 0x86)), t)
        end
  | _ => answer [] t
  end.

#[export] Instance demo_transport : CardTransport demo_card unit := {
  transmit := demo_transmit;
  transmit_credential c := fun t => (Ok NoCard, t) }.

Lemma direct_p1_clear off : 0 <= off <= 0x7FFF -> Z.testbit (Z.land (Z.shiftr off 8) 255) 7 = false.
Proof.
  intros Ho. rewrite Z.land_spec, Z.shiftr_spec by lia. cbn [Z.add].
  rewrite (Z.bits_above_log2 off (7 + 8)); [done|lia|].
  destruct (Z.eq_dec off 0) as [->|]; [done|]. apply Z.log2_lt_pow2; lia.
Qed.

#[export] Instance demo_serves : Pkcs15.ServesFile demo_card unit.
Proof.
  refine {| Pkcs15.selected := demo_selected |}.
  intros t f off want Hf Ho Ho' Hw.
  exists (mkResponse (take_z (drop_z f off) want) 0x90 0x00), t.
  split_and!; [|done|done|by left].
  cbn [transmit demo_transport]. unfold demo_transmit.
  unfold ReadBinary_into_apdu, allow_wrong_le_retry, from_wire.
  cbn [as_bytes offset_as_p1 offset_as_p2 class_as_byte].
  unfold READ_BINARY_INS, direct_as_p1, direct_as_p2. cbn [offset_as_u16].
  rewrite be_bytes_2. cbn [lookup list_lookup default from_option id]. rewrite direct_p1_clear by lia.
  rewrite Hf. rewrite <- be_bytes_2, be_value_be_bytes by (cbn; lia). done.
Defined.

Lemma demo_keeps_files c t r t' : transmit (CardTransport := demo_transport) c t = (r, t') ->
  demo_files t' = demo_files t.
Proof.
  cbn [transmit demo_transport]. unfold demo_transmit. repeat case_match; intros [= _ <-]; done.
Qed.

#[export] Instance demo_emrtd : ServesEmrtd demo_card unit.
Proof.
  refine {| files t i := if (0 <=? i) && (i <=? 31) then demo_file (demo_files t) i else None |}.
  - intros t sfi f Hf. destruct ((0 <=? sfi_raw sfi) && (sfi_raw sfi <=? 31)) eqn:Er; [|done].
    exists (mkResponse (take_z f HEADER_PROBE_LENGTH) 0x90 0x00), (mkDemo (demo_files t) (Some f)).
    split_and!; [|done|done|by left].
    cbn [transmit demo_transport]. unfold demo_transmit.
    change (as_bytes (header_command sfi)) with [0; 0xB0; Z.lor 128 (sfi_raw sfi); 0; 4]. cbv iota zeta beta.
    rewrite Z.lor_spec. change (Z.testbit 128 7) with true. cbn [orb].
    rewrite Z.land_lor_distr_l. change (Z.land 128 31) with 0. rewrite Z.lor_0_l.
    change 31 with (Z.ones 5). rewrite Z.land_ones, Z.mod_small, Hf by lia. done.
  - intros c t r t' _ Hx. by rewrite (demo_keeps_files c t r t' Hx).
Defined.

(** ** Properties *)

(** On any card the read of a file ends: it sends the probe by identifier,
    then only READ BINARY commands by offset of at most 223 bytes within the
    declared length and the largest file, and what it returns is not empty and
    at most 32768 bytes long. *)
Theorem emrtd_read_bounded {T E : Type} `{CardTransport T E} (sfi : Sfi) (s : T * list CommandApdu) :
  Pkcs15.transport_typed (T := T) (E := E) ->
  exists r s' n total, @read_emrtd_file _ E Pkcs15.logging_transport sfi s = Some (r, s') /\
    s'.2 = s.2 ++ header_command sfi :: n /\ total <= MAX_EMRTD_FILE_BYTES /\
    Forall (reads_within total) n /\ forall bs, r = Ok bs -> 1 <= len bs <= MAX_EMRTD_FILE_BYTES.
Proof. apply read_file_any. Qed.

Lemma emrtd_read_bounded_witness :
  exists r s' n total,
    @read_emrtd_file _ unit (@Pkcs15.logging_transport unit unit Pkcs15.fixed_card) SFI_EF_DG1 (tt, []) = Some (r, s') /\
    s'.2 = [] ++ header_command SFI_EF_DG1 :: n /\ total <= MAX_EMRTD_FILE_BYTES /\
    Forall (reads_within total) n /\ forall bs, r = Ok bs -> 1 <= len bs <= MAX_EMRTD_FILE_BYTES.
Proof.
  apply (@emrtd_read_bounded unit unit Pkcs15.fixed_card SFI_EF_DG1 (tt, [])).
  intros c t r t' [= <- _]. by apply all_bytesb_spec.
Defined.

(** The length decoded from a header is the length of the object: wherever
    the BER parser accepts the same bytes it ends its record there, and of an
    encoded object with a one-byte tag, whatever follows it, the four bytes of
    the probe give its length. *)
Theorem outer_length_agrees_with_ber (bs : bytes) (n : Z) (r : BerTlvAny) (t : Z) (v w pad : bytes) :
  all_bytes bs -> decode_outer_total_length bs = Some n -> parse bs = Ok r ->
  tag1_ok t -> tlv t v = Ok w -> len w <= MAX_EMRTD_FILE_BYTES ->
  size r = n /\ decode_outer_total_length (take_z (w ++ pad) HEADER_PROBE_LENGTH) = Some (len w).
Proof.
  intros Hb Hd Hp Ht Hw Hm. split; [by eapply outer_length_is_ber|by eapply decode_encoded].
Qed.

Lemma outer_length_agrees_with_ber_witness :
  3 = 3 /\ decode_outer_total_length (take_z ([0x61; 0x01; 0x05] ++ [0]) HEADER_PROBE_LENGTH) = Some 3.
Proof.
  apply (outer_length_agrees_with_ber [0x61; 0x01; 0x05] 3 (mkBerTlvAny 0x61 [0x05] 3) 0x61 [0x05]
    [0x61; 0x01; 0x05] [0]); try done. by apply all_bytesb_spec.
Defined.

(** A card that serves its data groups by short file identifier, as ISO
    7816-4 documents READ BINARY, has each of them read exactly, whatever bytes
    follow the object in its file, and no read changes a file. *)
Theorem emrtd_file_read_exactly {T E : Type} `{ServesEmrtd T E} (t : T) (sfi : Sfi) (tg : Z)
  (v w pad : bytes) :
  files t (sfi_raw sfi) = Some (w ++ pad) -> tag1_ok tg -> tlv tg v = Ok w ->
  len w <= MAX_EMRTD_FILE_BYTES ->
  exists t', read_emrtd_file sfi t = Some (Ok w, t') /\ files t' = files t.
Proof. apply read_file_serves. Qed.

Lemma emrtd_file_read_exactly_witness :
  exists t', read_emrtd_file SFI_EF_DG1 (mkDemo [(1, [0x61; 0x01; 0x05; 0x00])] None)
    = Some (Ok [0x61; 0x01; 0x05], t') /\ files t' = files (mkDemo [(1, [0x61; 0x01; 0x05; 0x00])] None).
Proof.
  apply (emrtd_file_read_exactly (mkDemo [(1, [0x61; 0x01; 0x05; 0x00])] None) SFI_EF_DG1 0x61 [0x05]
    [0x61; 0x01; 0x05] [0x00]); done.
Defined.

End EmrtdFile.
