(* ===== verification/EmrtdData.v ===== *)
(** * Data groups of the travel-document application

    crates/emrtd/src: inventory.rs (EF.COM), mrz.rs (the machine-readable zone
    of EF.DG1), portrait.rs (the facial image of EF.DG2) and the operations of
    ops.rs over [EmrtdFile].

    A [&str] is its UTF-8 bytes, a [char] the bytes of its encoding.  Indexing a
    slice out of range is a panic: the portrait parser returns [None] there, or
    when its fuel (one unit per byte) ends, and a theorem shows neither happens.

    The theorems: EF.COM is read as the list it holds; the fields of a TD1 zone
    are read back; the portrait parser is total, and what it returns is the
    part of the data group from a signature on, with the dimensions of a
    well-formed JPEG frame; and a card that serves its data groups has its
    profile read. *)

From stdpp Require Import base list strings sets.
From Stdlib Require Import ZArith Lia.
From S2P Require Import Prelude BerTlv ApduStatus ApduCommand ApduIso7816 Pkcs15Fs Pkcs15Aod RappCbor EmrtdFile.

Module EmrtdData.
Import Ber Iso7816 EmrtdFile.

(** ** EF.COM (inventory.rs) *)

Definition COM_TAG : Z := 0x60.
Definition DG_LIST_TAG : Z := 0x5C.
Definition TAG_DG1 : Z := 0x61.
Definition TAG_DG2 : Z := 0x75.
Definition TAG_DG7 : Z := 0x67.
Definition TAG_DG11 : Z := 0x6B.
Definition TAG_DG12 : Z := 0x6C.

Record DataGroupInventory := mkInventory {
  has_dg1 : bool;
  has_dg2 : bool;
  has_dg7 : bool;
  has_dg11 : bool;
  has_dg12 : bool }.

Definition inventory_empty : DataGroupInventory := mkInventory false false false false false.

(** One tag of the list. *)
Definition mark (inventory : DataGroupInventory) (t : Z) : DataGroupInventory :=
  let '(mkInventory dg1 dg2 dg7 dg11 dg12) := inventory in
  if t =? TAG_DG1 then mkInventory true dg2 dg7 dg11 dg12
  else if t =? TAG_DG2 then mkInventory dg1 true dg7 dg11 dg12
  else if t =? TAG_DG7 then mkInventory dg1 dg2 true dg11 dg12
  else if t =? TAG_DG11 then mkInventory dg1 dg2 dg7 true dg12
  else if t =? TAG_DG12 then mkInventory dg1 dg2 dg7 dg11 true
  else inventory.

(** The loop over the children. *)
Fixpoint find_list (children : list (result BerError BerTlvAny)) : option DataGroupInventory :=
  match children with
  | [] => None
  | Err _ :: _ => None
  | Ok child :: rest =>
      if tag child =? DG_LIST_TAG then Some (fold_left mark (value child) inventory_empty)
      else find_list rest
  end.

Definition inventory_parse (com_bytes : bytes) : option DataGroupInventory :=
  match parse com_bytes with
  | Err _ => None
  | Ok outer => if negb (tag outer =? COM_TAG) then None else find_list (items (value outer))
  end.

(** ** Text *)

Definition LT : Z := 0x3C.
Definition SPACE : Z := 0x20.

(** [is_char_boundary]. *)
Definition char_boundary (text : bytes) (i : Z) : bool :=
  match get text i with
  | Some b => negb (Cbor.cont b)
  | None => i =? len text
  end.

(** [str::get(a..b)]. *)
Definition str_get (text : bytes) (a b : Z) : option bytes :=
  if char_boundary text a && char_boundary text b then get_range text a b else None.

(** [str::chars]: a lead byte with the continuation bytes after it. *)
Fixpoint chars (text : bytes) : list bytes :=
  match text with
  | [] => []
  | b :: rest =>
      match chars rest with
      | (c :: cs) :: more => if Cbor.cont c then (b :: c :: cs) :: more else [b] :: (c :: cs) :: more
      | _ => [[b]]
      end
  end.

(** [char::is_whitespace]. *)
Definition is_whitespace (c : bytes) : bool :=
  match c with
  | [b] => Cbor.within 0x09 0x0D b || (b =? 0x20)
  | [a; b] => (a =? 0xC2) && ((b =? 0x85) || (b =? 0xA0))
  | [a; b; c] =>
      (a =? 0xE1) && (b =? 0x9A) && (c =? 0x80)
      || (a =? 0xE2) && (b =? 0x80)
         && (Cbor.within 0x80 0x8A c || (c =? 0xA8) || (c =? 0xA9) || (c =? 0xAF))
      || (a =? 0xE2) && (b =? 0x81) && (c =? 0x9F)
      || (a =? 0xE3) && (b =? 0x80) && (c =? 0x80)
  | _ => false
  end.

Fixpoint skip_while {A} (p : A -> bool) (l : list A) : list A :=
  match l with
  | x :: rest => if p x then skip_while p rest else l
  | [] => []
  end.

(** Both ends trimmed. *)
Definition trim_by {A} (p : A -> bool) (l : list A) : list A :=
  reverse (skip_while p (reverse (skip_while p l))).

Definition trim_matches (c : Z) (text : bytes) : bytes := trim_by (Z.eqb c) text.
Definition trim (text : bytes) : bytes := concat (trim_by is_whitespace (chars text)).
Definition replace_byte (from to : Z) (text : bytes) : bytes :=
  map (fun b => if b =? from then to else b) text.

(** [split("<<")], cut at the first separator. *)
Fixpoint split_fillers (text : bytes) : bytes * option bytes :=
  match text with
  | a :: (b :: rest) as tail =>
      if (a =? LT) && (b =? LT) then ([], Some rest)
      else let '(piece, more) := split_fillers tail in (a :: piece, more)
  | _ => (text, None)
  end.

(** ** The machine-readable zone (mrz.rs) *)

Definition DG1_TAG : Z := 0x61.
Definition TD1_LINE_LEN : Z := 30.
Definition TD1_TOTAL_LEN : Z := 90.

Record ParsedMrzTd1 := mkMrz {
  document_type : bytes;
  issuing_country : bytes;
  document_number : bytes;
  date_of_birth : bytes;
  sex : bytes;
  expiry_date : bytes;
  nationality : bytes;
  primary_identifier : bytes;
  secondary_identifier : bytes }.

(** A line of the zone: [None] unless it is text. *)
Definition mrz_line (mrz : bytes) (a b : Z) : option bytes :=
  line ← get_range mrz a b;
  if Cbor.valid_utf8 line then Some line else None.

Definition read_name (piece : bytes) : bytes := trim (replace_byte LT SPACE piece).

Definition read_lines (line1 line2 line3 : bytes) : option ParsedMrzTd1 :=
  doc_type ← str_get line1 0 2;
  issuing ← str_get line1 2 5;
  doc_number ← str_get line1 5 14;
  dob ← str_get line2 0 6;
  sex ← chars line2 !! 7%nat;
  expiry ← str_get line2 8 14;
  nationality ← str_get line2 15 18;
  let names_part := trim_matches LT line3 in
  let '(primary, more) := split_fillers names_part in
  let secondary := match more with Some rest => (split_fillers rest).1 | None => [] end in
  Some (mkMrz (trim_matches LT doc_type) (trim_matches LT issuing) (trim_matches LT doc_number)
    dob sex expiry (trim_matches LT nationality) (read_name primary) (read_name secondary)).

Definition mrz_parse (dg1_bytes : bytes) : option ParsedMrzTd1 :=
  match parse dg1_bytes with
  | Err _ => None
  | Ok outer =>
      if negb (tag outer =? DG1_TAG) then None
      else
        let mrz_bytes := match parse (value outer) with Ok inner => value inner | Err _ => value outer end in
        if len mrz_bytes <? TD1_TOTAL_LEN then None
        else
          line1 ← mrz_line mrz_bytes 0 TD1_LINE_LEN;
          line2 ← mrz_line mrz_bytes TD1_LINE_LEN (2 * TD1_LINE_LEN);
          line3 ← mrz_line mrz_bytes (2 * TD1_LINE_LEN) TD1_TOTAL_LEN;
          read_lines line1 line2 line3
  end.

(** ** The facial image (portrait.rs) *)

Inductive ImageFormat := Jpeg | Jpeg2000.

Record CardFaceImage := mkFace {
  format : ImageFormat;
  width_pixels : Z;
  height_pixels : Z;
  image_bytes : bytes }.

Definition DG2_TEMPLATE_TAG : Z := 0x75.
Definition JPEG_SOI_PREFIX : bytes := [0xFF; 0xD8; 0xFF].
Definition JP2_MAGIC_BOX : bytes := [0x00; 0x00; 0x00; 0x0C; 0x6A; 0x50; 0x20; 0x20].
Definition JP2_IHDR_TAG : bytes := [0x69; 0x68; 0x64; 0x72].
Definition JPEG_MARKER_LEAD : Z := 0xFF.
Definition JPEG_MARKER_SOF0 : Z := 0xC0.
Definition JPEG_MARKER_SOF2 : Z := 0xC2.
Definition JPEG_MARKER_SOS : Z := 0xDA.
Definition JPEG_MARKER_EOI : Z := 0xD9.
Definition MIN_JPEG_SOF_PAYLOAD : Z := 5.
Definition JPEG_SOI_LEN : Z := 2.
Definition JPEG_LENGTH_FIELD_LEN : Z := 2.

(** The first index at which the needle occurs. *)
Fixpoint find_subsequence (haystack needle : bytes) : option Z :=
  if len haystack <? len needle then None
  else if bool_decide (take_z haystack (len needle) = needle) then Some 0
  else match haystack with
       | _ :: rest => Z.succ <$> find_subsequence rest needle
       | [] => None
       end.

(** The inner loop over lead bytes. *)
Fixpoint skip_leads (fuel : nat) (jpeg_bytes : bytes) (i : Z) : option Z :=
  if i <? len jpeg_bytes then
    b ← get jpeg_bytes i;
    if b =? JPEG_MARKER_LEAD then
      match fuel with O => None | S fuel => skip_leads fuel jpeg_bytes (i + 1) end
    else Some i
  else Some i.

Definition word (hi lo : Z) : Z := Z.lor (Z.shiftl hi 8) lo.

(** A frame header at [i]: the outer option is a panic. *)
Definition read_frame (jpeg_bytes : bytes) (i segment_len : Z) : option (option (Z * Z)) :=
  if (segment_len >=? MIN_JPEG_SOF_PAYLOAD) && (i + segment_len <=? len jpeg_bytes) then
    payload ← get_range jpeg_bytes (i + JPEG_LENGTH_FIELD_LEN) (len jpeg_bytes);
    if len payload >=? MIN_JPEG_SOF_PAYLOAD then
      height_hi ← get payload 1;
      height_lo ← get payload 2;
      width_hi ← get payload 3;
      width_lo ← get payload 4;
      Some (Some (word width_hi width_lo, word height_hi height_lo))
    else Some None
  else Some None.

(** The loop over the segments. *)
Fixpoint jpeg_loop (fuel : nat) (jpeg_bytes : bytes) (i : Z) : option (option (Z * Z)) :=
  if negb (i <? len jpeg_bytes) then Some None
  else match fuel with
  | O => None
  | S fuel =>
      b ← get jpeg_bytes i;
      if negb (b =? JPEG_MARKER_LEAD) then jpeg_loop fuel jpeg_bytes (i + 1)
      else
        i ← skip_leads (length jpeg_bytes) jpeg_bytes i;
        if i >=? len jpeg_bytes then Some None
        else
          marker ← get jpeg_bytes i;
          let i := i + 1 in
          if (marker =? JPEG_MARKER_SOS) || (marker =? JPEG_MARKER_EOI) then Some None
          else if i + 1 >=? len jpeg_bytes then Some None
          else
            hi ← get jpeg_bytes i;
            lo ← get jpeg_bytes (i + 1);
            let segment_len := word hi lo in
            if (marker =? JPEG_MARKER_SOF0) || (marker =? JPEG_MARKER_SOF2)
            then read_frame jpeg_bytes i segment_len
            else jpeg_loop fuel jpeg_bytes (i + segment_len)
  end.

Definition parse_jpeg_dimensions (jpeg_bytes : bytes) : option (option (Z * Z)) :=
  jpeg_loop (length jpeg_bytes) jpeg_bytes JPEG_SOI_LEN.

(** [u32::from_be_bytes(..) as u16]. *)
Definition dimension (octets : bytes) : Z := be_value octets mod 2 ^ 16.

Definition parse_jp2_dimensions (jp2_bytes : bytes) : option (Z * Z) :=
  offset ← find_subsequence jp2_bytes JP2_IHDR_TAG;
  payload ← get_range jp2_bytes (offset + 4) (len jp2_bytes);
  if len payload <? 8 then None
  else
    h_bytes ← get_range payload 0 4;
    w_bytes ← get_range payload 4 8;
    Some (dimension w_bytes, dimension h_bytes).

(** The outer option is a panic. *)
Definition parse_card_face_image (dg2_bytes : bytes) : option (option CardFaceImage) :=
  match parse dg2_bytes with
  | Err _ => Some None
  | Ok outer =>
      if negb (tag outer =? DG2_TEMPLATE_TAG) then Some None
      else
        let v := value outer in
        match find_subsequence v JPEG_SOI_PREFIX with
        | Some offset =>
            raw ← get_range v offset (len v);
            dimensions ← parse_jpeg_dimensions raw;
            let '(width, height) := default (0, 0) dimensions in
            Some (Some (mkFace Jpeg width height raw))
        | None =>
            match find_subsequence v JP2_MAGIC_BOX with
            | Some offset =>
                raw ← get_range v offset (len v);
                let '(width, height) := default (0, 0) (parse_jp2_dimensions raw) in
                Some (Some (mkFace Jpeg2000 width height raw))
            | None => Some None
            end
        end
  end.

(** ** The operations (ops.rs) *)

Record EmrtdCardProfile := mkProfile {
  profile_document_number : option bytes;
  face_image : option CardFaceImage }.

Section Ops.
Context {T E : Type} `{CardTransport T E}.

Definition read_data_group_inventory (t : T)
  : option (result (EmrtdError E) DataGroupInventory * T) :=
  '(r, t) ← read_emrtd_file SFI_EF_COM t;
  Some (let? com := r in ok_or (inventory_parse com) MalformedData, t).

Definition read_face_image (t : T) : option (result (EmrtdError E) (option CardFaceImage) * T) :=
  '(r, t) ← read_emrtd_file SFI_EF_DG2 t;
  match r with
  | Err e => Some (Err e, t)
  | Ok dg2 => image ← parse_card_face_image dg2; Some (Ok image, t)
  end.

Definition read_mrz_td1 (t : T) : option (result (EmrtdError E) (option ParsedMrzTd1) * T) :=
  '(r, t) ← read_emrtd_file SFI_EF_DG1 t;
  Some (rmap mrz_parse r, t).

Definition ok_flatten {X A} (r : result X (option A)) : option A :=
  match r with Ok a => a | Err _ => None end.

Definition read_card_emrtd_profile (t : T) : option (result (EmrtdError E) EmrtdCardProfile * T) :=
  match select_emrtd_application t with
  | (Err e, t) => Some (Err e, t)
  | (Ok _, t) =>
      '(mrz, t) ← read_mrz_td1 t;
      '(face, t) ← read_face_image t;
      Some (Ok (mkProfile (document_number <$> ok_flatten mrz) (ok_flatten face)), t)
  end.

End Ops.

(** ** Lemmas: the portrait parser is total *)

Lemma get_byte (bs : bytes) i : all_bytes bs -> 0 <= i < len bs -> exists b, get bs i = Some b /\ is_u8 b.
Proof.
  intros Hb Hi. unfold get. rewrite (proj2 (Z.ltb_ge i 0)) by lia.
  destruct (lookup_lt_is_Some_2 bs (Z.to_nat i)) as [b Hl]; [unfold len in Hi; lia|].
  exists b. split; [done|]. by eapply Forall_lookup_1.
Qed.

Lemma word_bound hi lo : is_u8 hi -> is_u8 lo -> 0 <= word hi lo <= 65535.
Proof. intros Hh Hl. unfold word. rewrite lor_shiftl_byte by done. unfold is_u8, U8_MAX in *. lia. Qed.

Lemma skip_leads_spec fuel bs i : all_bytes bs -> 0 <= i <= len bs -> len bs - i <= Z.of_nat fuel ->
  exists j, skip_leads fuel bs i = Some j /\ i <= j <= len bs.
Proof.
  intros Hb. revert i. induction fuel as [|fuel IH]; intros i Hi Hf; cbn [skip_leads];
    (destruct (Z.ltb_spec i (len bs)) as [Hlt|?]; [|exists i; split; [done|lia]]); [lia|].
  destruct (get_byte bs i Hb ltac:(lia)) as (b & -> & _). cbn [mbind option_bind].
  destruct (b =? JPEG_MARKER_LEAD); [|exists i; split; [done|lia]].
  destruct (IH (i + 1)) as (j & Hj & ?); [lia|lia|]. exists j. split; [done|lia].
Qed.

(** A result within the range of the source's dimensions. *)
Definition dimensions_ok (d : option (Z * Z)) : Prop :=
  match d with Some (w, h) => 0 <= w <= 65535 /\ 0 <= h <= 65535 | None => True end.

Lemma read_frame_total bs i n : all_bytes bs -> 0 <= i ->
  exists r, read_frame bs i n = Some r /\ dimensions_ok r.
Proof.
  intros Hb Hi. unfold read_frame. change MIN_JPEG_SOF_PAYLOAD with 5. change JPEG_LENGTH_FIELD_LEN with 2.
  destruct ((n >=? 5) && (i + n <=? len bs)) eqn:E; [|by exists None].
  apply andb_true_iff in E as [E1 E2]. rewrite Z.geb_leb in E1. apply Z.leb_le in E1, E2.
  destruct (get_range bs (i + 2) (len bs)) as [payload|] eqn:Ep.
  2: { unfold get_range in Ep. case_match; [done|]. lia. }
  cbn [mbind option_bind]. destruct (Z.geb_spec (len payload) 5) as [Hp|?]; [|by exists None].
  assert (Hbp : all_bytes payload).
  { apply get_range_spec in Ep as (_ & _ & ->). apply Forall_take, Forall_drop, Hb. }
  destruct (get_byte payload 1 Hbp ltac:(lia)) as (h1 & -> & ?).
  destruct (get_byte payload 2 Hbp ltac:(lia)) as (h2 & -> & ?).
  destruct (get_byte payload 3 Hbp ltac:(lia)) as (w1 & -> & ?).
  destruct (get_byte payload 4 Hbp ltac:(lia)) as (w2 & -> & ?). cbn.
  eexists. split; [done|]. by split; apply word_bound.
Qed.

Lemma jpeg_loop_total fuel bs i : all_bytes bs -> 0 <= i -> len bs - i <= Z.of_nat fuel ->
  exists r, jpeg_loop fuel bs i = Some r /\ dimensions_ok r.
Proof.
  intros Hb. revert i. induction fuel as [|fuel IH]; intros i Hi Hf; cbn [jpeg_loop];
    (destruct (Z.ltb_spec i (len bs)) as [Hlt|?]; cbn [negb]; [|by exists None]); [lia|].
  destruct (get_byte bs i Hb ltac:(lia)) as (b & -> & _). cbn [mbind option_bind].
  destruct (negb (b =? JPEG_MARKER_LEAD)); [apply IH; lia|].
  destruct (skip_leads_spec (length bs) bs i Hb ltac:(lia)) as (j & -> & Hj); [unfold len; lia|].
  cbn [mbind option_bind]. rewrite Z.geb_leb. destruct (Z.leb_spec (len bs) j); [by exists None|].
  destruct (get_byte bs j Hb ltac:(lia)) as (marker & -> & _). cbn [mbind option_bind].
  destruct (_ || _); [by exists None|]. rewrite Z.geb_leb.
  destruct (Z.leb_spec (len bs) (j + 1 + 1)); [by exists None|].
  destruct (get_byte bs (j + 1) Hb ltac:(lia)) as (hi & -> & Hhi).
  destruct (get_byte bs (j + 1 + 1) Hb ltac:(lia)) as (lo & -> & Hlo). cbn [mbind option_bind].
  pose proof (word_bound hi lo Hhi Hlo).
  destruct (_ || _); [by apply read_frame_total; [|lia]|]. apply IH; lia.
Qed.

Lemma find_subsequence_spec hay needle : needle <> [] ->
  match find_subsequence hay needle with
  | Some i => exists pre post, hay = pre ++ needle ++ post /\ len pre = i
  | None => forall pre post, hay <> pre ++ needle ++ post
  end.
Proof.
  intros Hn. induction hay as [|b hay IH]; cbn [find_subsequence].
  - destruct (Z.ltb_spec (len (A := Z) []) (len needle)) as [|Hl].
    + intros [] post E; [|done]. destruct needle; done.
    + destruct needle; [done|]. rewrite len_cons, len_nil in Hl. pose proof (len_nonneg needle). lia.
  - destruct (Z.ltb_spec (len (b :: hay)) (len needle)) as [Hl|Hl].
    + intros pre post E. rewrite E, !len_app in Hl. pose proof (len_nonneg pre). pose proof (len_nonneg post). lia.
    + case_bool_decide as E.
      * exists [], (drop_z (b :: hay) (len needle)). split; [|done]. cbn [app]. rewrite <- E at 1.
        by rewrite take_drop_z.
      * destruct (find_subsequence hay needle) as [i|]; cbn.
        -- destruct IH as (pre & post & -> & <-). exists (b :: pre), post. split; [done|]. rewrite len_cons. lia.
        -- intros [|b' pre] post Eq; [|injection Eq as -> Eq; by apply IH in Eq].
           apply E. cbn [app] in Eq. rewrite Eq. unfold take_z, len. rewrite Nat2Z.id. apply take_app_length.
Qed.

(** ** Lemmas: a well-formed JPEG *)

Lemma get_after {A} (p l : list A) k : 0 <= k -> get (p ++ l) (len p + k) = get l k.
Proof.
  intros Hk. pose proof (len_nonneg p). unfold get. rewrite !(proj2 (Z.ltb_ge _ 0)) by lia.
  rewrite lookup_app_r by (unfold len; lia). f_equal. unfold len. lia.
Qed.

(** A segment: a marker that is no frame, scan, end or lead, and its payload. *)
Definition plain_marker (m : Z) : Prop :=
  is_u8 m /\ m <> JPEG_MARKER_SOF0 /\ m <> JPEG_MARKER_SOF2 /\ m <> JPEG_MARKER_SOS /\
  m <> JPEG_MARKER_EOI /\ m <> JPEG_MARKER_LEAD.

Definition segment (m : Z) (payload : bytes) : bytes :=
  JPEG_MARKER_LEAD :: m :: be_bytes 2 (len payload + 2) ++ payload.

Lemma word_be_bytes n : 0 <= n <= 65535 ->
  exists hi lo, be_bytes 2 n = [hi; lo] /\ word hi lo = n.
Proof.
  intros Hn. rewrite be_bytes_2. eexists _, _. split; [done|]. unfold word.
  rewrite lor_shiftl_byte by apply is_u8_land. rewrite !land_255, shiftr_8.
  rewrite (Z.mod_small (n / 256)) by (split; [apply Z.div_pos; lia|apply Z.div_lt_upper_bound; lia]).
  pose proof (Z.div_mod n 256). lia.
Qed.

(** The marker after one lead byte. *)
Lemma skip_one_lead (p rest : bytes) m : m <> JPEG_MARKER_LEAD ->
  skip_leads (length (p ++ JPEG_MARKER_LEAD :: m :: rest)) (p ++ JPEG_MARKER_LEAD :: m :: rest) (len p)
  = Some (len p + 1).
Proof.
  intros Hm. assert (exists f, length (p ++ JPEG_MARKER_LEAD :: m :: rest) = S f) as [f ->]
    by (exists (length p + S (length rest))%nat; rewrite length_app; cbn; lia).
  pose proof (len_nonneg rest). cbn [skip_leads]. rewrite len_app, !len_cons, (proj2 (Z.ltb_lt _ _)) by lia.
  rewrite get_app_len. cbn [mbind option_bind]. rewrite Z.eqb_refl.
  assert (Hg : get (p ++ JPEG_MARKER_LEAD :: m :: rest) (len p + 1) = Some m) by (by rewrite get_after).
  destruct f as [|f]; cbn [skip_leads]; rewrite len_app, !len_cons, (proj2 (Z.ltb_lt _ _)), Hg by lia;
    cbn [mbind option_bind]; by rewrite (proj2 (Z.eqb_neq _ _)).
Qed.

(** One round of the loop at a segment's lead byte. *)
Lemma jpeg_round fuel (p rest : bytes) m hi lo : m <> JPEG_MARKER_LEAD -> m <> JPEG_MARKER_SOS ->
  m <> JPEG_MARKER_EOI -> rest <> [] ->
  let bs := p ++ JPEG_MARKER_LEAD :: m :: hi :: lo :: rest in
  jpeg_loop (S fuel) bs (len p) =
  if (m =? JPEG_MARKER_SOF0) || (m =? JPEG_MARKER_SOF2) then read_frame bs (len p + 2) (word hi lo)
  else jpeg_loop fuel bs (len p + 2 + word hi lo).
Proof.
  intros H1 H2 H3 Hr bs. cbn [jpeg_loop].
  assert (Hl : len bs = len p + 4 + len rest) by (subst bs; rewrite len_app, !len_cons; lia).
  assert (1 <= len rest) by (destruct rest; [done|]; rewrite len_cons; pose proof (len_nonneg rest); lia).
  rewrite Hl, (proj2 (Z.ltb_lt (len p) _)) by lia. cbn [negb].
  assert (Hg : forall k, 0 <= k -> get bs (len p + k) = get (JPEG_MARKER_LEAD :: m :: hi :: lo :: rest) k)
    by (intros; by apply get_after).
  pose proof (Hg 0 ltac:(lia)) as Hg0. rewrite Z.add_0_r in Hg0. rewrite Hg0.
  change (get (JPEG_MARKER_LEAD :: m :: hi :: lo :: rest) 0) with (Some JPEG_MARKER_LEAD).
  cbn [mbind option_bind]. rewrite Z.eqb_refl. cbn [negb]. subst bs. rewrite skip_one_lead by done.
  cbn [mbind option_bind]. rewrite !Z.geb_leb, (proj2 (Z.leb_gt _ (len p + 1))) by lia.
  rewrite Hg by lia. change (get (JPEG_MARKER_LEAD :: m :: hi :: lo :: rest) 1) with (Some m).
  cbn [mbind option_bind]. rewrite (proj2 (Z.eqb_neq m _) H2), (proj2 (Z.eqb_neq m _) H3). cbn [orb].
  rewrite <- !Z.add_assoc. change (1 + (1 + 1)) with 3. change (1 + 1) with 2.
  rewrite (proj2 (Z.leb_gt _ (len p + 3))) by lia. rewrite !Hg by lia.
  change (get (JPEG_MARKER_LEAD :: m :: hi :: lo :: rest) 2) with (Some hi).
  change (get (JPEG_MARKER_LEAD :: m :: hi :: lo :: rest) 3) with (Some lo). cbn [mbind option_bind].
  by rewrite Z.add_assoc.
Qed.

Lemma jpeg_walk fuel (p : bytes) segs rest : Forall (fun s => plain_marker s.1 /\ len s.2 <= 65533) segs ->
  rest <> [] -> (length segs <= fuel)%nat ->
  jpeg_loop fuel (p ++ concat (map (fun s => segment s.1 s.2) segs) ++ rest) (len p)
  = jpeg_loop (fuel - length segs) (p ++ concat (map (fun s => segment s.1 s.2) segs) ++ rest)
      (len (p ++ concat (map (fun s => segment s.1 s.2) segs))).
Proof.
  revert fuel p. induction segs as [|[m payload] segs IH]; intros fuel p Hs Hr Hf.
  { cbn [map concat]. by rewrite app_nil_r, Nat.sub_0_r. }
  inversion Hs as [|?? [Hm Hl] Hs']; subst. cbn [fst snd] in *. destruct fuel as [|fuel]; [cbn in Hf; lia|].
  cbn [map concat fst snd]. set (tail := concat (map _ segs)) in *. unfold segment.
  pose proof (len_nonneg payload).
  destruct (word_be_bytes (len payload + 2)) as (hi & lo & -> & Hw); [lia|].
  destruct Hm as (_ & M1 & M2 & M3 & M4 & M5). cbn [app].
  rewrite <- app_assoc. rewrite jpeg_round by (done || (intros E; apply app_eq_nil in E as [_ E]; by apply app_eq_nil in E as [_ E])).
  rewrite (proj2 (Z.eqb_neq m _) M1), (proj2 (Z.eqb_neq m _) M2). cbn [orb]. rewrite Hw.
  set (seg := JPEG_MARKER_LEAD :: m :: hi :: lo :: payload).
  change (JPEG_MARKER_LEAD :: m :: hi :: lo :: payload ++ tail) with (seg ++ tail).
  change (JPEG_MARKER_LEAD :: m :: hi :: lo :: payload ++ tail ++ rest) with (seg ++ tail ++ rest).
  rewrite !(app_assoc p seg).
  replace (len p + 2 + (len payload + 2)) with (len (p ++ seg)) by (subst seg; rewrite len_app, !len_cons; lia).
  cbn [length] in Hf |- *. rewrite (IH fuel (p ++ seg) Hs' Hr) by lia. done.
Qed.

Lemma segments_length (segs : list (Z * bytes)) :
  (length segs <= length (concat (map (fun s => segment s.1 s.2) segs)))%nat.
Proof.
  induction segs as [|s segs IH]; [done|]. cbn [map concat length]. rewrite length_app. cbn [segment length]. lia.
Qed.

(** A frame header: its length, precision, height and width. *)
Definition frame_header (m n precision height width : Z) : bytes :=
  JPEG_MARKER_LEAD :: m :: be_bytes 2 n ++ precision :: be_bytes 2 height ++ be_bytes 2 width.

Lemma jpeg_frame_read fuel (p rest : bytes) m n precision height width :
  (m = JPEG_MARKER_SOF0 \/ m = JPEG_MARKER_SOF2) -> 5 <= n <= 7 + len rest -> n <= 65535 ->
  0 <= height <= 65535 -> 0 <= width <= 65535 ->
  jpeg_loop (S fuel) (p ++ frame_header m n precision height width ++ rest) (len p)
  = Some (Some (width, height)).
Proof.
  intros Hm Hn Hn' Hh Hw. unfold frame_header.
  destruct (word_be_bytes n) as (n1 & n2 & -> & Hnw); [lia|].
  destruct (word_be_bytes height) as (h1 & h2 & -> & Hhw); [lia|].
  destruct (word_be_bytes width) as (w1 & w2 & -> & Hww); [lia|]. cbn [app].
  rewrite jpeg_round by (destruct Hm as [-> | ->]; done).
  replace ((m =? JPEG_MARKER_SOF0) || (m =? JPEG_MARKER_SOF2)) with true by (destruct Hm as [-> | ->]; done).
  rewrite Hnw. unfold read_frame. change MIN_JPEG_SOF_PAYLOAD with 5. change JPEG_LENGTH_FIELD_LEN with 2.
  set (payload := precision :: h1 :: h2 :: w1 :: w2 :: rest).
  assert (Hl : len (p ++ JPEG_MARKER_LEAD :: m :: n1 :: n2 :: payload) = len p + 9 + len rest)
    by (subst payload; rewrite len_app, !len_cons; lia).
  rewrite Hl, Z.geb_leb, !(proj2 (Z.leb_le _ _)) by lia. cbn [andb].
  replace (get_range _ (len p + 2 + 2) _) with (Some payload).
  2: { symmetry. pose proof (get_range_suffix (p ++ [JPEG_MARKER_LEAD; m; n1; n2]) payload) as Hg.
       rewrite <- app_assoc in Hg. cbn [app] in Hg. rewrite Hl, len_app, !len_cons, len_nil in Hg.
       rewrite <- Hg. f_equal. lia. }
  pose proof (len_nonneg rest). cbn [mbind option_bind]. subst payload.
  rewrite !len_cons, Z.geb_leb, (proj2 (Z.leb_le _ _)) by lia.
  change (get (precision :: h1 :: h2 :: w1 :: w2 :: rest) 1) with (Some h1).
  change (get (precision :: h1 :: h2 :: w1 :: w2 :: rest) 2) with (Some h2).
  change (get (precision :: h1 :: h2 :: w1 :: w2 :: rest) 3) with (Some w1).
  change (get (precision :: h1 :: h2 :: w1 :: w2 :: rest) 4) with (Some w2).
  cbn [mbind option_bind]. by rewrite Hhw, Hww.
Qed.

(** ** Lemmas: text of the zone *)

Definition ascii (t : bytes) : Prop := Forall (fun b => 0 <= b < 0x80) t.

Lemma ascii_valid t : ascii t -> Cbor.valid_utf8 t = true.
Proof.
  induction 1 as [|b t Hb _ IH]; [done|]. cbn [Cbor.valid_utf8]. destruct (Z.ltb_spec b 0x80); [done|lia].
Qed.

Lemma ascii_cont b : 0 <= b < 0x80 -> Cbor.cont b = false.
Proof. intros. unfold Cbor.cont, Cbor.within. lia. Qed.

Lemma ascii_chars t : ascii t -> chars t = map (fun b => [b]) t.
Proof.
  induction 1 as [|b t Hb Ht IH]; [done|]. cbn. rewrite IH. destruct Ht as [|c t Hc _]; [done|].
  cbn. by rewrite ascii_cont.
Qed.

Lemma ascii_boundary t i : ascii t -> 0 <= i <= len t -> char_boundary t i = true.
Proof.
  intros Ht Hi. unfold char_boundary, get. rewrite (proj2 (Z.ltb_ge _ _)) by lia.
  destruct (t !! Z.to_nat i) as [b|] eqn:E.
  - rewrite ascii_cont; [done|]. exact (proj1 (Forall_lookup _ _) Ht _ _ E).
  - apply lookup_ge_None in E. unfold len in *. lia.
Qed.

Lemma ascii_str_get t a b : ascii t -> 0 <= a <= b -> b <= len t -> str_get t a b = get_range t a b.
Proof. intros Ht Ha Hb. unfold str_get. by rewrite !ascii_boundary by (done || lia). Qed.

(** [p] holds neither of the first nor of the last element. *)
Definition bare_ends {A} (p : A -> bool) (l : list A) : Prop :=
  (forall x, head l = Some x -> p x = false) /\ (forall x, last l = Some x -> p x = false).

Lemma skip_while_head {A} (p : A -> bool) l : (forall x, head l = Some x -> p x = false) -> skip_while p l = l.
Proof. destruct l as [|x l]; [done|]. intros Hl. cbn. by rewrite Hl. Qed.

Lemma skip_while_repeat {A} (p : A -> bool) c n l : p c = true -> skip_while p (repeat c n ++ l) = skip_while p l.
Proof. intros Hc. induction n as [|n IH]; [done|]. cbn. by rewrite Hc. Qed.

Lemma reverse_fillers {A} (c : A) n : reverse (repeat c n) = repeat c n.
Proof.
  induction n as [|n IH]; [done|]. cbn [repeat]. rewrite reverse_cons, IH. by rewrite repeat_cons.
Qed.

Lemma trim_filled {A} (p : A -> bool) l c n : p c = true -> bare_ends p l -> trim_by p (l ++ repeat c n) = l.
Proof.
  intros Hc [Hh Hl]. unfold trim_by. destruct l as [|x l].
  { cbn [app]. rewrite <- (app_nil_r (repeat c n)), skip_while_repeat by done. done. }
  rewrite (skip_while_head p ((x :: l) ++ repeat c n)) by (intros y [= <-]; by apply Hh).
  rewrite reverse_app, reverse_fillers, skip_while_repeat, skip_while_head, reverse_involutive by
    (done || (intros y Hy; apply Hl; by rewrite <- head_reverse)).
  done.
Qed.

Lemma trim_bare {A} (p : A -> bool) l : bare_ends p l -> trim_by p l = l.
Proof.
  intros [Hh Hl]. unfold trim_by. rewrite (skip_while_head p l) by done.
  rewrite skip_while_head; [by rewrite reverse_involutive|]. intros y Hy. apply Hl. by rewrite <- head_reverse.
Qed.

(** No two [c] in a row. *)
Fixpoint no_double (c : Z) (t : bytes) : bool :=
  match t with
  | a :: (b :: _) as rest => negb ((a =? c) && (b =? c)) && no_double c rest
  | _ => true
  end.

Lemma split_fillers_cons a b rest : split_fillers (a :: b :: rest) =
  if (a =? LT) && (b =? LT) then ([], Some rest)
  else let '(piece, more) := split_fillers (b :: rest) in (a :: piece, more).
Proof. done. Qed.

Lemma split_fillers_none t : no_double LT t = true -> split_fillers t = (t, None).
Proof.
  induction t as [|a [|b t] IH]; try done. intros [Hd Hn]%andb_true_iff.
  rewrite split_fillers_cons. apply negb_true_iff in Hd. rewrite Hd. by rewrite IH.
Qed.

Lemma split_fillers_at t rest : no_double LT t = true -> last t <> Some LT ->
  split_fillers (t ++ LT :: LT :: rest) = (t, Some rest).
Proof.
  induction t as [|a [|b t] IH]; intros Hn Hl; cbn [app]; rewrite split_fillers_cons.
  - by rewrite Z.eqb_refl.
  - rewrite (proj2 (Z.eqb_neq a LT)) by (intros ->; done). cbn [andb].
    by rewrite split_fillers_cons, Z.eqb_refl.
  - apply andb_true_iff in Hn as [Hd Hn]. apply negb_true_iff in Hd. rewrite Hd.
    change (b :: t ++ LT :: LT :: rest) with ((b :: t) ++ LT :: LT :: rest).
    by rewrite IH.
Qed.

(** A name of the zone: words of other characters, single spaces between. *)
Definition name_ok (name : bytes) : Prop :=
  Forall (fun b => (0x21 <= b < 0x80 /\ b <> LT) \/ b = SPACE) name /\ no_double SPACE name = true /\
  bare_ends (Z.eqb SPACE) name.

Definition encode_name (name : bytes) : bytes := replace_byte SPACE LT name.

Lemma encode_decode_name name : name_ok name -> replace_byte LT SPACE (encode_name name) = name.
Proof.
  intros (Hn & _). unfold encode_name, replace_byte. rewrite map_map. induction Hn as [|b name Hb _ IH]; cbn; [done|].
  rewrite IH. f_equal. destruct (Z.eqb_spec b SPACE) as [->|]; [done|].
  destruct Hb as [[_ Hb]|]; [|done]. by rewrite (proj2 (Z.eqb_neq _ _)).
Qed.

Lemma name_bytes name : name_ok name -> Forall (fun b => b <> LT /\ 0x20 <= b < 0x80) name.
Proof.
  intros (Hn & _). eapply Forall_impl; [exact Hn|]. intros b [[]| ->]; [split; [done|lia]|done].
Qed.

Lemma encode_name_ascii name : name_ok name -> ascii (encode_name name).
Proof.
  intros Hn%name_bytes. apply Forall_map. eapply Forall_impl; [exact Hn|]. intros b [_ Hb]. cbn.
  case_match; unfold LT; lia.
Qed.

Lemma encode_no_double name : name_ok name -> no_double LT (encode_name name) = true.
Proof.
  intros Hn. pose proof (name_bytes _ Hn) as Hb. destruct Hn as (_ & Hd & _).
  induction name as [|a [|b name] IH]; try done. inversion Hb as [|?? [Ha _] Hb']; subst.
  apply andb_true_iff in Hd as [Hab Hd]. apply andb_true_iff. split; [|by apply IH].
  inversion Hb' as [|?? [Hb0 _] _]; subst. cbn.
  destruct (Z.eqb_spec a SPACE) as [->|], (Z.eqb_spec b SPACE) as [->|]; try done.
  - cbn. by rewrite (proj2 (Z.eqb_neq b LT)).
  - by rewrite (proj2 (Z.eqb_neq a LT)).
  - by rewrite (proj2 (Z.eqb_neq a LT)).
Qed.

Lemma encode_not_filler (name : bytes) x : (forall b, b ∈ name -> b <> LT) -> x ∈ name -> x <> SPACE ->
  (if x =? SPACE then LT else x) <> LT.
Proof. intros Hn Hx Hs. rewrite (proj2 (Z.eqb_neq _ _) Hs). by apply Hn. Qed.

Lemma encode_bare_ends name : name_ok name -> bare_ends (Z.eqb LT) (encode_name name).
Proof.
  intros Hn. pose proof (name_bytes _ Hn) as Hb. destruct Hn as (_ & _ & Hh & Hl).
  rewrite Forall_forall in Hb. unfold encode_name, replace_byte. split; intros x.
  - destruct name as [|a name]; [done|]. intros [= <-]. apply Z.eqb_neq. symmetry.
    apply (encode_not_filler (a :: name)); [by intros b [? _]%Hb|by left|].
    specialize (Hh a eq_refl). apply Z.eqb_neq in Hh. done.
  - rewrite (fmap_last (A := Z)). intros (a & Ha & ->)%fmap_Some. apply Z.eqb_neq. symmetry.
    apply (encode_not_filler name); [by intros b [? _]%Hb|by apply last_Some_elem_of|].
    specialize (Hl a Ha). apply Z.eqb_neq in Hl. done.
Qed.

Lemma concat_singletons (t : bytes) : concat (map (fun b => [b]) t) = t.
Proof. induction t as [|b t IH]; cbn; [done|]. by rewrite IH. Qed.

Lemma read_encoded_name name : name_ok name -> read_name (encode_name name) = name.
Proof.
  intros Hn. unfold read_name, trim. rewrite encode_decode_name by done.
  pose proof (name_bytes _ Hn) as Hb. destruct Hn as (_ & _ & Hh & Hl).
  assert (Ha : ascii name) by (eapply Forall_impl; [exact Hb|]; intros b [_ ?]; cbn; lia).
  rewrite Forall_forall in Hb. rewrite ascii_chars by done.
  assert (Hw : forall b, b ∈ name -> b <> SPACE -> is_whitespace [b] = false).
  { intros b [_ Hr]%Hb Hs. cbn [is_whitespace]. unfold Cbor.within. unfold SPACE in Hs. lia. }
  rewrite trim_bare; [apply concat_singletons|]. split; intros x.
  - destruct name as [|a name]; [done|]. intros [= <-]. apply Hw; [by left|].
    specialize (Hh a eq_refl). apply Z.eqb_neq in Hh. done.
  - rewrite (fmap_last (A := Z)). intros (a & Hx & ->)%fmap_Some. apply Hw; [by apply last_Some_elem_of|].
    specialize (Hl a Hx). apply Z.eqb_neq in Hl. done.
Qed.

(** ** Lemmas: the lines of the zone *)

(** A field padded with fillers to its width. *)
Definition filled (n : Z) (x : bytes) : bytes := x ++ repeat LT (Z.to_nat (n - len x)).
Definition field_ok (n : Z) (x : bytes) : Prop := len x <= n /\ ascii x /\ bare_ends (Z.eqb LT) x.

Lemma len_repeat_z {A} (c : A) n : 0 <= n -> len (repeat c (Z.to_nat n)) = n.
Proof. intros. unfold len. rewrite repeat_length. lia. Qed.

Lemma len_filled n x : len x <= n -> len (filled n x) = n.
Proof. intros. unfold filled. rewrite len_app, len_repeat_z by lia. lia. Qed.

Lemma fillers_ascii n : ascii (repeat LT n).
Proof. apply Forall_forall. intros b Hb%list_elem_of_In%repeat_spec. subst. done. Qed.

Lemma filled_ascii n x : ascii x -> ascii (filled n x).
Proof. intros Hx. apply Forall_app. split; [done|apply fillers_ascii]. Qed.

Lemma trim_field n x : field_ok n x -> trim_matches LT (filled n x) = x.
Proof. intros (_ & _ & Hb). by apply trim_filled. Qed.

Record mrz_ok (m : ParsedMrzTd1) : Prop := {
  ok_type : field_ok 2 (document_type m);
  ok_country : field_ok 3 (issuing_country m);
  ok_number : field_ok 9 (document_number m);
  ok_birth : ascii (date_of_birth m) /\ len (date_of_birth m) = 6;
  ok_sex : ascii (sex m) /\ len (sex m) = 1;
  ok_expiry : ascii (expiry_date m) /\ len (expiry_date m) = 6;
  ok_nationality : field_ok 3 (nationality m);
  ok_primary : name_ok (primary_identifier m);
  ok_secondary : name_ok (secondary_identifier m);
  ok_names : len (primary_identifier m) + 2 + len (secondary_identifier m) <= TD1_LINE_LEN }.

(** The lines of a document, with the check digits and the optional data. *)
Definition line_one (m : ParsedMrzTd1) (more : bytes) : bytes :=
  filled 2 (document_type m) ++ filled 3 (issuing_country m) ++ filled 9 (document_number m) ++ more.
Definition line_two (m : ParsedMrzTd1) (c1 c2 : Z) (more : bytes) : bytes :=
  date_of_birth m ++ [c1] ++ sex m ++ expiry_date m ++ [c2] ++ filled 3 (nationality m) ++ more.
Definition line_three (m : ParsedMrzTd1) : bytes :=
  filled TD1_LINE_LEN (encode_name (primary_identifier m) ++ [LT; LT] ++ encode_name (secondary_identifier m)).

Lemma len_encode_name name : len (encode_name name) = len name.
Proof. unfold encode_name, replace_byte, len. by rewrite length_map. Qed.

(** The names read back from the third line. *)
Lemma names_read p q : name_ok p -> name_ok q -> p <> [] ->
  let '(primary, more) := split_fillers (trim_matches LT (filled TD1_LINE_LEN (encode_name p ++ [LT; LT] ++ encode_name q))) in
  read_name primary = p /\
  read_name (match more with Some rest => (split_fillers rest).1 | None => [] end) = q.
Proof.
  intros Hp Hq Hne. pose proof (encode_bare_ends p Hp) as [Hph Hpl]. pose proof (encode_bare_ends q Hq) as [Hqh Hql].
  assert (Hp' : encode_name p <> []) by (by destruct p).
  destruct (decide (q = [])) as [->|Hqn].
  - replace (filled _ _) with (encode_name p ++ repeat LT (2 + Z.to_nat (TD1_LINE_LEN - len (encode_name p ++ [LT; LT])))).
    2: { unfold filled. cbn. by rewrite <- app_assoc. }
    unfold trim_matches. rewrite trim_filled by done.
    rewrite split_fillers_none by (by apply encode_no_double). split; [by apply read_encoded_name|done].
  - assert (Hq' : encode_name q <> []) by (by destruct q).
    unfold trim_matches, filled. rewrite trim_filled; [|done|].
    + cbn [app]. rewrite split_fillers_at; [|by apply encode_no_double|].
      * rewrite split_fillers_none by (by apply encode_no_double). split; by apply read_encoded_name.
      * intros Hl. apply Hpl in Hl. done.
    + split; intros x Hx.
      * apply Hph. destruct (encode_name p); done.
      * apply Hql. rewrite <- Hx, !last_app. by destruct (last (encode_name q)) eqn:E; [|apply last_None in E].
Qed.

Lemma str_piece (p v q : bytes) a b : ascii (p ++ v ++ q) -> a = len p -> b = len p + len v ->
  str_get (p ++ v ++ q) a b = Some v.
Proof.
  intros Ha -> ->. pose proof (len_nonneg p). pose proof (len_nonneg v). pose proof (len_nonneg q).
  rewrite ascii_str_get by (done || rewrite ?len_app; lia). apply get_range_app.
Qed.

Lemma line_one_read m more : mrz_ok m -> ascii more ->
  str_get (line_one m more) 0 2 = Some (filled 2 (document_type m)) /\
  str_get (line_one m more) 2 5 = Some (filled 3 (issuing_country m)) /\
  str_get (line_one m more) 5 14 = Some (filled 9 (document_number m)).
Proof.
  intros [[L1 [A1 _]] [L2 [A2 _]] [L3 [A3 _]] _ _ _ _ _ _ _] Hmore.
  pose proof (len_filled _ _ L1). pose proof (len_filled _ _ L2). pose proof (len_filled _ _ L3).
  assert (Ha : ascii (line_one m more)) by (unfold line_one, ascii; rewrite !Forall_app; split_and!; first [done|lia|by apply filled_ascii]).
  unfold line_one in *.
  set (x := filled 2 _) in *. set (y := filled 3 _) in *. set (z := filled 9 _) in *. split_and!.
  - apply (str_piece [] x (y ++ z ++ more)); rewrite ?len_nil; done || lia.
  - apply (str_piece x y (z ++ more)); done || lia.
  - pose proof (str_piece (x ++ y) z more 5 14) as Hp. rewrite <- !app_assoc in Hp.
    apply Hp; rewrite ?len_app; done || lia.
Qed.

Lemma line_two_read m c1 c2 more : mrz_ok m -> ascii more -> 0 <= c1 < 0x80 -> 0 <= c2 < 0x80 ->
  str_get (line_two m c1 c2 more) 0 6 = Some (date_of_birth m) /\
  chars (line_two m c1 c2 more) !! 7%nat = Some (sex m) /\
  str_get (line_two m c1 c2 more) 8 14 = Some (expiry_date m) /\
  str_get (line_two m c1 c2 more) 15 18 = Some (filled 3 (nationality m)).
Proof.
  intros [_ _ _ [A1 L1] [A2 L2] [A3 L3] [L4 [A4 _]] _ _ _] Hmore Hc1 Hc2. pose proof (len_filled _ _ L4).
  assert (Ha : ascii (line_two m c1 c2 more)).
  { unfold line_two, ascii. rewrite !Forall_app, !Forall_singleton. split_and!; first [done|lia|by apply filled_ascii]. }
  unfold line_two in *. set (x := filled 3 _) in *. split_and!.
  - apply (str_piece [] (date_of_birth m)); rewrite ?len_nil; done || lia.
  - rewrite ascii_chars by done. destruct (sex m) as [|c [|? ?]]; [done| |rewrite !len_cons in L2; pose proof (len_nonneg l); lia].
    change (map ?f ?l) with (f <$> l). rewrite list_lookup_fmap, lookup_app_r by (unfold len in L1; lia).
    unfold len in L1. replace (7 - length (date_of_birth m))%nat with 1%nat by lia. done.
  - pose proof (str_piece (date_of_birth m ++ [c1] ++ sex m) (expiry_date m) ([c2] ++ x ++ more) 8 14) as Hp.
    rewrite <- !app_assoc in Hp. apply Hp; rewrite ?len_app, ?len_cons, ?len_nil; done || lia.
  - pose proof (str_piece (date_of_birth m ++ [c1] ++ sex m ++ expiry_date m ++ [c2]) x more 15 18) as Hp.
    rewrite <- !app_assoc in Hp. apply Hp; rewrite ?len_app, ?len_cons, ?len_nil; done || lia.
Qed.

Lemma lines_read m c1 c2 more1 more2 : mrz_ok m -> primary_identifier m <> [] ->
  ascii more1 -> ascii more2 -> 0 <= c1 < 0x80 -> 0 <= c2 < 0x80 ->
  read_lines (line_one m more1) (line_two m c1 c2 more2) (line_three m) = Some m.
Proof.
  intros Hm Hne H1 H2 Hc1 Hc2. unfold read_lines.
  destruct (line_one_read m more1 Hm H1) as (-> & -> & ->).
  destruct (line_two_read m c1 c2 more2 Hm H2 Hc1 Hc2) as (-> & -> & -> & ->).
  cbn [mbind option_bind]. unfold line_three.
  pose proof (names_read _ _ (ok_primary m Hm) (ok_secondary m Hm) Hne) as Hn.
  destruct (split_fillers _) as [primary rest]. destruct Hn as (-> & ->).
  destruct Hm. rewrite !trim_field by done. by destruct m.
Qed.

(** The three lines of a document. *)
Definition zone (m : ParsedMrzTd1) (c1 c2 : Z) (more1 more2 : bytes) : bytes :=
  line_one m more1 ++ line_two m c1 c2 more2 ++ line_three m.

Lemma zone_lines m c1 c2 more1 more2 : mrz_ok m -> len more1 = 16 -> len more2 = 12 ->
  len (line_one m more1) = 30 /\ len (line_two m c1 c2 more2) = 30 /\ len (line_three m) = 30.
Proof.
  intros [[L1 _] [L2 _] [L3 _] [_ L4] [_ L5] [_ L6] [L7 _] _ _ L8] Hm1 Hm2.
  unfold line_one, line_two, line_three. rewrite !len_app, !len_cons, !len_nil, !len_filled by
    (done || (rewrite !len_app, !len_cons, len_nil, !len_encode_name; lia)). unfold TD1_LINE_LEN. lia.
Qed.

(** ** Lemmas: a served profile *)

Lemma lines_ascii m c1 c2 more1 more2 : mrz_ok m -> ascii more1 -> ascii more2 ->
  0 <= c1 < 0x80 -> 0 <= c2 < 0x80 ->
  ascii (line_one m more1) /\ ascii (line_two m c1 c2 more2) /\ ascii (line_three m).
Proof.
  intros [(_ & ? & _) (_ & ? & _) (_ & ? & _) (? & _) (? & _) (? & _) (_ & ? & _) Hp Hq _] A1 A2 Hc1 Hc2.
  unfold line_one, line_two, line_three. split; [|split].
  - unfold ascii. rewrite !Forall_app. split_and!; first [done|by apply filled_ascii].
  - unfold ascii. rewrite !Forall_app, !Forall_singleton. split_and!; first [done|lia|by apply filled_ascii].
  - apply filled_ascii. unfold ascii. rewrite !Forall_app.
    split_and!; [by apply encode_name_ascii|by repeat constructor|by apply encode_name_ascii].
Qed.

Lemma mrz_parse_encoded m c1 c2 more1 more2 inner dg1 : mrz_ok m -> primary_identifier m <> [] ->
  ascii more1 -> len more1 = 16 -> ascii more2 -> len more2 = 12 -> 0 <= c1 < 0x80 -> 0 <= c2 < 0x80 ->
  tlv2 0x5F1F (zone m c1 c2 more1 more2) = Ok inner -> tlv DG1_TAG inner = Ok dg1 -> mrz_parse dg1 = Some m.
Proof.
  intros Hm Hne A1 L1 A2 L2 Hc1 Hc2 Hi Ho. destruct (zone_lines m c1 c2 more1 more2 Hm L1 L2) as (E1 & E2 & E3).
  assert (Hd : encodes dg1 DG1_TAG inner) by (left; split; [done|exact Ho]).
  assert (Hd' : encodes inner 0x5F1F (zone m c1 c2 more1 more2)) by (right; split; [done|exact Hi]).
  destruct (encodes_parse dg1 _ _ [] Hd) as (P1 & _). destruct (encodes_parse inner _ _ [] Hd') as (P2 & _).
  rewrite app_nil_r in P1, P2. unfold mrz_parse. rewrite P1. cbn [tag value]. rewrite Z.eqb_refl. cbn [negb].
  rewrite P2. cbn [value]. unfold zone at 1. rewrite !len_app, E1, E2, E3. cbn [Z.ltb Z.compare].
  change (30 + (30 + 30) <? TD1_TOTAL_LEN) with false. cbv iota.
  destruct (lines_ascii m c1 c2 more1 more2 Hm A1 A2 Hc1 Hc2) as (V1 & V2 & V3). unfold mrz_line, zone.
  rewrite (get_range_prefix (line_one m more1)) by done. cbn [mbind option_bind]. rewrite (ascii_valid _ V1).
  cbn [mbind option_bind]. rewrite (get_range_app' (line_one m more1) (line_two m c1 c2 more2) (line_three m) TD1_LINE_LEN
    (2 * TD1_LINE_LEN)) by (unfold TD1_LINE_LEN; lia).
  cbn [mbind option_bind]. rewrite (ascii_valid _ V2). cbn [mbind option_bind].
  rewrite app_assoc. replace (get_range _ (2 * TD1_LINE_LEN) TD1_TOTAL_LEN) with (Some (line_three m)).
  2: { symmetry. pose proof (get_range_suffix (line_one m more1 ++ line_two m c1 c2 more2) (line_three m)) as Hg.
       rewrite !len_app, E1, E2, E3 in Hg. exact Hg. }
  cbn [mbind option_bind]. rewrite (ascii_valid _ V3). cbn [mbind option_bind]. by apply lines_read.
Qed.

Definition signature (f : ImageFormat) : bytes :=
  match f with Jpeg => JPEG_SOI_PREFIX | Jpeg2000 => JP2_MAGIC_BOX end.

Definition occurs (needle hay : bytes) : Prop := exists pre post, hay = pre ++ needle ++ post.

(** What the parser makes of a template's value. *)
Definition face_of (v : bytes) (r : option CardFaceImage) : Prop :=
  match r with
  | Some img =>
      (exists pre rest, v = pre ++ image_bytes img /\ image_bytes img = signature (format img) ++ rest) /\
      dimensions_ok (Some (width_pixels img, height_pixels img)) /\
      (format img = Jpeg2000 <-> ~ occurs JPEG_SOI_PREFIX v)
  | None => ~ occurs JPEG_SOI_PREFIX v /\ ~ occurs JP2_MAGIC_BOX v
  end.

Lemma jp2_dimensions_ok bs : dimensions_ok (Some (default (0, 0) (parse_jp2_dimensions bs))).
Proof.
  assert (Hd : forall o, 0 <= dimension o <= 65535).
  { intros o. unfold dimension. pose proof (Z.mod_pos_bound (be_value o) (2 ^ 16)). lia. }
  unfold parse_jp2_dimensions.
  destruct (find_subsequence _ _) as [i|]; cbn [mbind option_bind]; [|cbn; lia].
  destruct (get_range bs _ _) as [payload|]; cbn [mbind option_bind]; [|cbn; lia].
  destruct (len payload <? 8); [cbn; lia|].
  destruct (get_range payload 0 4); cbn [mbind option_bind]; [|cbn; lia].
  destruct (get_range payload 4 8); cbn [mbind option_bind]; [|cbn; lia]. cbn. auto.
Qed.

Lemma find_occurs hay needle : needle <> [] ->
  match find_subsequence hay needle with
  | Some i => exists pre post, hay = pre ++ needle ++ post /\ len pre = i /\
                get_range hay i (len hay) = Some (needle ++ post)
  | None => ~ occurs needle hay
  end.
Proof.
  intros Hn. pose proof (find_subsequence_spec hay needle Hn) as Hf.
  destruct (find_subsequence hay needle) as [i|].
  - destruct Hf as (pre & post & -> & <-). exists pre, post. split_and!; [done|done|]. apply get_range_suffix.
  - intros (pre & post & E). by apply Hf in E.
Qed.

Lemma face_total dg2 : all_bytes dg2 -> len dg2 < USIZE_MAX ->
  exists r, parse_card_face_image dg2 = Some r /\
    match parse dg2 with
    | Ok outer => if tag outer =? DG2_TEMPLATE_TAG then face_of (value outer) r else r = None
    | Err _ => r = None
    end.
Proof.
  intros Hb Hl. unfold parse_card_face_image. destruct (parse dg2) as [outer|e] eqn:Ep; [|by exists None].
  destruct (Aod.parse_value_bytes dg2 outer Hl Hb Ep) as (Hv & _).
  destruct (tag outer =? DG2_TEMPLATE_TAG); cbn [negb]; [|by exists None].
  set (v := value outer) in *. pose proof (find_occurs v JPEG_SOI_PREFIX ltac:(done)) as HJ.
  destruct (find_subsequence v JPEG_SOI_PREFIX) as [i|].
  - destruct HJ as (pre & post & Hpre & _ & ->). cbn [mbind option_bind].
    assert (Hr : all_bytes (JPEG_SOI_PREFIX ++ post)) by (rewrite Hpre in Hv; by apply all_bytes_app in Hv as [_ ?]).
    destruct (jpeg_loop_total (length (JPEG_SOI_PREFIX ++ post)) _ JPEG_SOI_LEN Hr) as (d & Hd & Hok);
      [done|unfold len, JPEG_SOI_LEN; lia|].
    unfold parse_jpeg_dimensions. rewrite Hd. cbn [mbind option_bind].
    destruct (default (0, 0) d) as [w h] eqn:Ed. eexists. split; [done|]. cbn. split; [|split].
    + by exists pre, post.
    + destruct d as [[w' h']|]; cbn in Ed; injection Ed as <- <-; [apply Hok|lia].
    + split; [done|]. intros Hn. exfalso. apply Hn. by exists pre, post.
  - pose proof (find_occurs v JP2_MAGIC_BOX ltac:(done)) as H2.
    destruct (find_subsequence v JP2_MAGIC_BOX) as [i|]; [|by exists None].
    destruct H2 as (pre & post & Hpre & _ & ->). cbn [mbind option_bind].
    pose proof (jp2_dimensions_ok (JP2_MAGIC_BOX ++ post)) as Hd.
    destruct (default (0, 0) _) as [w h]. eexists. split; [done|]. cbn. split; [by exists pre, post|]. done.
Qed.

(** ** Lemmas: the inventory *)

(** The inventory of a list of tags. *)
Definition inventory_of (l : bytes) : DataGroupInventory :=
  let has t := bool_decide (t ∈ l) in
  mkInventory (has TAG_DG1) (has TAG_DG2) (has TAG_DG7) (has TAG_DG11) (has TAG_DG12).

Lemma marked_snoc t (l : bytes) x : bool_decide (t ∈ l ++ [x]) = bool_decide (t ∈ l) || (x =? t).
Proof.
  destruct (Z.eqb_spec x t) as [->|Hne].
  - rewrite orb_true_r. apply bool_decide_eq_true. set_solver.
  - rewrite orb_false_r. apply bool_decide_ext. set_solver.
Qed.

Lemma marks_listed l : fold_left mark l inventory_empty = inventory_of l.
Proof.
  induction l as [|x l IH] using rev_ind; [done|]. rewrite fold_left_app. cbn [fold_left]. rewrite IH.
  unfold inventory_of. cbn zeta. rewrite !marked_snoc. unfold mark.
  destruct (Z.eqb_spec x TAG_DG1) as [->|]; [by rewrite !orb_true_r, !orb_false_r|].
  destruct (Z.eqb_spec x TAG_DG2) as [->|]; [by rewrite !orb_true_r, !orb_false_r|].
  destruct (Z.eqb_spec x TAG_DG7) as [->|]; [by rewrite !orb_true_r, !orb_false_r|].
  destruct (Z.eqb_spec x TAG_DG11) as [->|]; [by rewrite !orb_true_r, !orb_false_r|].
  destruct (Z.eqb_spec x TAG_DG12) as [->|]; by rewrite ?orb_true_r, !orb_false_r.
Qed.

Lemma find_list_records ws before l after : Forall (fun r => r.1 <> DG_LIST_TAG) before ->
  length ws = length (before ++ (DG_LIST_TAG, l) :: after) ->
  find_list (zip_with (fun (w : bytes) r => Ok (mkBerTlvAny r.1 r.2 (len w))) ws (before ++ (DG_LIST_TAG, l) :: after))
  = Some (inventory_of l).
Proof.
  intros Hb. revert ws. induction Hb as [|[t v] before Ht _ IH]; intros [|w ws] Hl; try done; cbn.
  - by rewrite marks_listed.
  - rewrite (proj2 (Z.eqb_neq t DG_LIST_TAG)) by done. apply IH. cbn in Hl. lia.
Qed.

(** ** Properties *)

(** EF.COM is read as the list it holds: of a file whose records include a
    data group list, whatever records come before and after it, the inventory
    says exactly which of the known groups the first such list names. *)
Theorem inventory_read_exactly (ws : list bytes) (before after : list (Z * bytes)) (l com pad : bytes) :
  Forall2 (fun w r => encodes w r.1 r.2) ws (before ++ (DG_LIST_TAG, l) :: after) ->
  Forall (fun r => r.1 <> DG_LIST_TAG) before -> tlv COM_TAG (concat ws) = Ok com ->
  inventory_parse (com ++ pad) = Some (inventory_of l).
Proof.
  intros Hw Hb Hc. unfold inventory_parse.
  destruct (encodes_parse com COM_TAG (concat ws) pad) as [-> _]; [left; split; [done|exact Hc]|].
  cbn [tag value]. rewrite Z.eqb_refl. cbn [negb]. rewrite (items_records ws _ Hw).
  apply find_list_records; [done|by eapply Forall2_length].
Qed.

Lemma inventory_read_exactly_witness :
  inventory_parse ([0x60; 0x09; 0x5F; 0x01; 0x01; 0x1E; 0x5C; 0x03; 0x61; 0x75; 0x67] ++ [])
  = Some (inventory_of [0x61; 0x75; 0x67]).
Proof.
  apply (inventory_read_exactly [[0x5F; 0x01; 0x01; 0x1E]; [0x5C; 0x03; 0x61; 0x75; 0x67]] [(0x5F01, [0x1E])] []).
  - apply Forall2_cons_2; [right; split; done|]. apply Forall2_cons_2; [left; split; done|constructor].
  - by repeat constructor.
  - done.
Defined.

(** The fields of a TD1 zone are read back: of a document whose fields fit
    their places, padded with fillers, with any check digits and optional data,
    the parser of EF.DG1 returns exactly the fields, names included with their
    words separated by spaces. *)
Theorem mrz_read_back (m : ParsedMrzTd1) (c1 c2 : Z) (more1 more2 inner dg1 : bytes) :
  mrz_ok m -> primary_identifier m <> [] -> ascii more1 -> len more1 = 16 -> ascii more2 -> len more2 = 12 ->
  0 <= c1 < 0x80 -> 0 <= c2 < 0x80 ->
  tlv2 0x5F1F (zone m c1 c2 more1 more2) = Ok inner -> tlv DG1_TAG inner = Ok dg1 -> mrz_parse dg1 = Some m.
Proof. apply mrz_parse_encoded. Qed.

Definition demo_mrz : ParsedMrzTd1 :=
  mkMrz [73] [70; 73; 78] [49; 50; 51; 52; 53; 54; 55; 56; 57] [56; 48; 48; 49; 48; 49] [77]
    [51; 48; 48; 49; 48; 49] [70; 73; 78] [75; 79; 73] [80; 69; 32; 82].

Lemma demo_mrz_ok : mrz_ok demo_mrz.
Proof.
  split; unfold field_ok, ascii, name_ok, bare_ends; cbn; try split_and!; try done;
    try (repeat constructor; done); try (by intros x [= <-]).
Qed.

Lemma mrz_read_back_witness :
  mrz_parse (DG1_TAG :: 93 :: 0x5F :: 0x1F :: 90 :: zone demo_mrz 48 48 (repeat LT 16) (repeat LT 12)) = Some demo_mrz.
Proof.
  apply (mrz_read_back demo_mrz 48 48 (repeat LT 16) (repeat LT 12)
    (0x5F :: 0x1F :: 90 :: zone demo_mrz 48 48 (repeat LT 16) (repeat LT 12)));
    [exact demo_mrz_ok|done|apply fillers_ascii|done|apply fillers_ascii|done..].
Defined.

(** The portrait parser never panics and ends on every file: what it
    returns is the part of the template from a signature to its end, in the
    format of that signature, a JPEG signature anywhere in the template taken
    before a JPEG 2000 one; it returns nothing exactly when the file is no
    template or holds neither signature. *)
Theorem face_image_from_signature (dg2 : bytes) :
  all_bytes dg2 -> len dg2 < USIZE_MAX ->
  exists r, parse_card_face_image dg2 = Some r /\
    match parse dg2 with
    | Ok outer => if tag outer =? DG2_TEMPLATE_TAG then face_of (value outer) r else r = None
    | Err _ => r = None
    end.
Proof. apply face_total. Qed.

Lemma face_image_from_signature_witness :
  exists r, parse_card_face_image [0x75; 0x04; 0x00; 0xFF; 0xD8; 0xFF] = Some r /\
    match parse [0x75; 0x04; 0x00; 0xFF; 0xD8; 0xFF] with
    | Ok outer => if tag outer =? DG2_TEMPLATE_TAG then face_of (value outer) r else r = None
    | Err _ => r = None
    end.
Proof.
  apply (face_image_from_signature [0x75; 0x04; 0x00; 0xFF; 0xD8; 0xFF]); [by apply all_bytesb_spec|done].
Defined.

(** The dimensions of a JPEG are those of its first frame header: after any
    segments that are no frame, scan or end, a baseline or progressive frame
    header gives the width and the height it declares. *)
Theorem jpeg_dimensions_read (segs : list (Z * bytes)) (m n precision height width : Z) (rest : bytes) :
  Forall (fun s => plain_marker s.1 /\ len s.2 <= 65533) segs ->
  (m = JPEG_MARKER_SOF0 \/ m = JPEG_MARKER_SOF2) -> 5 <= n <= 7 + len rest -> n <= 65535 ->
  0 <= height <= 65535 -> 0 <= width <= 65535 ->
  parse_jpeg_dimensions ([0xFF; 0xD8] ++ concat (map (fun s => segment s.1 s.2) segs)
    ++ frame_header m n precision height width ++ rest) = Some (Some (width, height)).
Proof.
  intros Hs Hm Hn Hn' Hh Hw. unfold parse_jpeg_dimensions. set (bs := [0xFF; 0xD8] ++ _).
  assert (Hf : (length segs < length bs)%nat).
  { subst bs. rewrite !length_app. pose proof (segments_length segs). cbn [length frame_header]. lia. }
  change JPEG_SOI_LEN with (len (A := Z) [0xFF; 0xD8]). revert Hf. generalize (length bs). intros k Hf. subst bs.
  rewrite jpeg_walk by (done || lia). rewrite app_assoc.
  destruct (k - length segs)%nat as [|fuel] eqn:Ef; [lia|]. by apply jpeg_frame_read.
Qed.

Lemma jpeg_dimensions_read_witness :
  parse_jpeg_dimensions ([0xFF; 0xD8] ++ concat (map (fun s => segment s.1 s.2) [(0xE0, [1; 2])])
    ++ frame_header 0xC0 11 8 640 480 ++ [3; 1; 2; 3]) = Some (Some (480, 640)).
Proof.
  apply (jpeg_dimensions_read [(0xE0, [1; 2])] 0xC0 11 8 640 480 [3; 1; 2; 3]).
  - apply Forall_singleton. split; [|done]. repeat split; done.
  - by left.
  - done.
  - done.
  - done.
  - done.
Defined.

(** C31 The profile of a card that serves its data groups: once the application
    is selected, the document number is the one of the zone in EF.DG1, and the
    face is what the parser finds in the template of EF.DG2, whatever bytes
    follow the objects in their files. *)
Theorem card_profile_read {T E : Type} `{ServesEmrtd T E} (t t1 : T) (m : ParsedMrzTd1) (c1 c2 : Z)
  (more1 more2 inner dg1 pad1 v dg2 pad2 : bytes) :
  select_emrtd_application (E := E) t = (Ok tt, t1) ->
  mrz_ok m -> primary_identifier m <> [] -> ascii more1 -> len more1 = 16 -> ascii more2 -> len more2 = 12 ->
  0 <= c1 < 0x80 -> 0 <= c2 < 0x80 ->
  tlv2 0x5F1F (zone m c1 c2 more1 more2) = Ok inner -> tlv DG1_TAG inner = Ok dg1 ->
  tlv DG2_TEMPLATE_TAG v = Ok dg2 -> all_bytes dg2 -> len dg1 <= MAX_EMRTD_FILE_BYTES ->
  len dg2 <= MAX_EMRTD_FILE_BYTES ->
  files t1 (sfi_raw SFI_EF_DG1) = Some (dg1 ++ pad1) -> files t1 (sfi_raw SFI_EF_DG2) = Some (dg2 ++ pad2) ->
  exists face t', read_card_emrtd_profile (E := E) t = Some (Ok (mkProfile (Some (document_number m)) face), t') /\
    face_of v face.
Proof.
  intros Hs Hm Hne A1 L1 A2 L2 Hc1 Hc2 Hi Ho H2 Hb Hl1 Hl2 F1 F2. unfold read_card_emrtd_profile. rewrite Hs.
  destruct (read_file_serves t1 SFI_EF_DG1 DG1_TAG inner dg1 pad1 F1 ltac:(done) Ho Hl1) as (t2 & R1 & K1).
  unfold read_mrz_td1. rewrite R1. cbn [mbind option_bind rmap rbind].
  rewrite (mrz_parse_encoded m c1 c2 more1 more2 inner dg1) by done. cbn [ok_flatten].
  rewrite <- K1 in F2.
  destruct (read_file_serves t2 SFI_EF_DG2 DG2_TEMPLATE_TAG v dg2 pad2 F2 ltac:(done) H2 Hl2) as (t3 & R2 & _).
  unfold read_face_image. rewrite R2. cbn [mbind option_bind].
  destruct (face_total dg2 Hb) as (face & -> & Hf);
    [change MAX_EMRTD_FILE_BYTES with 32768 in Hl2; ulia|]. cbn.
  destruct (encodes_parse dg2 DG2_TEMPLATE_TAG v []) as [Hp _]; [left; split; [done|exact H2]|].
  rewrite app_nil_r in Hp. rewrite Hp in Hf. cbn [tag value] in Hf. rewrite Z.eqb_refl in Hf. by exists face, t3.
Qed.

Definition demo_dg1 : bytes :=
  DG1_TAG :: 93 :: 0x5F :: 0x1F :: 90 :: zone demo_mrz 48 48 (repeat LT 16) (repeat LT 12).
Definition demo_dg2 : bytes := [0x75; 0x04; 0x00; 0xFF; 0xD8; 0xFF].

Lemma card_profile_read_witness :
  exists face t', read_card_emrtd_profile (mkDemo [(1, demo_dg1); (2, demo_dg2)] None)
    = Some (Ok (mkProfile (Some [49; 50; 51; 52; 53; 54; 55; 56; 57]) face), t') /\
    face_of [0x00; 0xFF; 0xD8; 0xFF] face.
Proof.
  apply (card_profile_read (mkDemo [(1, demo_dg1); (2, demo_dg2)] None) (mkDemo [(1, demo_dg1); (2, demo_dg2)] None)
    demo_mrz 48 48 (repeat LT 16) (repeat LT 12) (drop 2 demo_dg1) demo_dg1 [] [0x00; 0xFF; 0xD8; 0xFF] demo_dg2 []);
    [done|exact demo_mrz_ok|done|apply fillers_ascii|done|apply fillers_ascii|done|done|done|done|done|done
    |by apply all_bytesb_spec|done|done|done|done].
Defined.

End EmrtdData.
