(* ===== verification/X509Key.v ===== *)
(** * The public key of a certificate

    crates/x509/src/lib.rs: the walk of a certificate's DER down to its
    SubjectPublicKeyInfo, the validated key values it reconstructs, and the
    serialization of a key.  A note of an error is a string.

    The theorems: a key the walk accepts meets the invariants its types claim
    (minimal magnitudes, an odd exponent, coordinates of the curve's width); and
    its serialization, placed as the key of any certificate, is walked to the
    same key. *)

From stdpp Require Import base list strings.
From Stdlib Require Import ZArith Lia.
From S2P Require Import Prelude BerTlv.

Module X509.
Import Ber.

(** ** Constants *)

Definition TAG_SEQUENCE : Z := 0x30.
Definition TAG_INTEGER : Z := 0x02.
Definition TAG_BIT_STRING : Z := 0x03.
Definition TAG_OID : Z := 0x06.
Definition TAG_NULL : Z := 0x05.
Definition TAG_VERSION : Z := 0xA0.

Definition OID_RSA_ENCRYPTION : bytes := [0x2A; 0x86; 0x48; 0x86; 0xF7; 0x0D; 0x01; 0x01; 0x01].
Definition OID_RSASSA_PSS : bytes := [0x2A; 0x86; 0x48; 0x86; 0xF7; 0x0D; 0x01; 0x01; 0x0A].
Definition OID_EC_PUBLIC_KEY : bytes := [0x2A; 0x86; 0x48; 0xCE; 0x3D; 0x02; 0x01].
Definition OID_SECP384R1 : bytes := [0x2B; 0x81; 0x04; 0x00; 0x22].
Definition OID_PRIME256V1 : bytes := [0x2A; 0x86; 0x48; 0xCE; 0x3D; 0x03; 0x01; 0x07].

Definition SPKI_INDEX_WITH_VERSION : nat := 6.
Definition SPKI_INDEX_NO_VERSION : nat := 5.
Definition SPKI_FIELDS : nat := 2.
Definition RSA_PUBLIC_KEY_FIELDS : nat := 2.
Definition INTEGER_HIGH_BIT : Z := 0x80.
Definition SEC1_UNCOMPRESSED : Z := 0x04.
Definition P256_COORDINATE_BYTES : Z := 32.
Definition P384_COORDINATE_BYTES : Z := 48.

(** ** Data *)

Inductive EcCurve := P256 | P384.

Definition coordinate_bytes (self : EcCurve) : Z :=
  match self with P256 => P256_COORDINATE_BYTES | P384 => P384_COORDINATE_BYTES end.

Definition curve_oid (self : EcCurve) : bytes :=
  match self with P256 => OID_PRIME256V1 | P384 => OID_SECP384R1 end.

Inductive X509Error :=
  | XBer (error : BerError)
  | Malformed (note : string)
  | UnsupportedAlgorithm
  | UnsupportedCurve
  | InvalidKey (note : string).

Record UnvalidatedCertificate := mkUnvalidated { certificate_bytes : bytes }.
Record RsaModulus := mkRsaModulus { modulus_bytes : bytes }.
Record RsaPublicExponent := mkRsaExponent { exponent_bytes : bytes }.
Record RsaPublicKey := mkRsaPublicKey { modulus : RsaModulus; exponent : RsaPublicExponent }.
Record EcPublicKey := mkEcPublicKey { curve : EcCurve; x : bytes; y : bytes }.

Inductive PublicKey :=
  | Rsa (key : RsaPublicKey)
  | Ecdsa (key : EcPublicKey).

(** ** The walk of definite-length encodings *)

Definition single_tlv (bs : bytes) : result X509Error BerTlvAny :=
  let? tlv := map_err XBer (parse bs) in
  if negb (size tlv =? len bs) then Err (Malformed "trailing bytes after value") else Ok tlv.

Definition expect_tag (tlv : BerTlvAny) (t : Z) : result X509Error unit :=
  if tag tlv =? t then Ok tt else Err (Malformed "unexpected tag").

Definition sequence (bs : bytes) : result X509Error BerTlvAny :=
  let? tlv := single_tlv bs in
  let? _ := expect_tag tlv TAG_SEQUENCE in
  Ok tlv.

(** The loop over [count] children from [cursor]; [past] is its note. *)
Fixpoint skip_children (past : string) (count : nat) (v : bytes) (cursor : Z) : result X509Error Z :=
  match count with
  | O => Ok cursor
  | S count =>
      let? rest := ok_or (get_range v cursor (len v)) (Malformed past) in
      let? field := map_err XBer (parse rest) in
      let? cursor := ok_or (checked_add USIZE_MAX cursor (size field)) (Malformed "length overflow") in
      skip_children past count v cursor
  end.

Definition expect_children (v : bytes) (count : nat) : result X509Error unit :=
  let? cursor := skip_children "fewer children than the structure requires" count v 0 in
  if negb (cursor =? len v) then Err (Malformed "extra children after the structure") else Ok tt.

Definition child_with_bytes (v : bytes) (index : nat) : result X509Error (BerTlvAny * bytes) :=
  let? cursor := skip_children "child index past end" index v 0 in
  let? rest := ok_or (get_range v cursor (len v)) (Malformed "child index past end") in
  let? field := map_err XBer (parse rest) in
  let? bs := ok_or (get_range rest 0 (size field)) (Malformed "child length past end") in
  Ok (field, bs).

Definition child (v : bytes) (index : nat) : result X509Error BerTlvAny :=
  let? '(tlv, _) := child_with_bytes v index in Ok tlv.

Definition first_child_bytes (v : bytes) : result X509Error bytes :=
  let? '(_, bs) := child_with_bytes v 0 in Ok bs.

(** ** Key values *)

Definition has_high_bit (b : Z) : bool := negb (Z.land b INTEGER_HIGH_BIT =? 0).

Definition positive_integer_magnitude (integer_value : bytes) : result X509Error bytes :=
  match integer_value with
  | [] => Err (InvalidKey "empty RSA integer")
  | first :: rest =>
      if first =? 0 then
        match rest with
        | second :: _ =>
            if has_high_bit second then Ok rest else Err (InvalidKey "non-minimal RSA integer")
        | [] => Err (InvalidKey "non-minimal RSA integer")
        end
      else if has_high_bit first then Err (InvalidKey "negative RSA integer")
      else Ok integer_value
  end.

Definition RsaModulus_reconstruct (integer_value : bytes) : result X509Error RsaModulus :=
  let? magnitude := positive_integer_magnitude integer_value in
  Ok (mkRsaModulus magnitude).

(** [u8::leading_zeros]. *)
Definition leading_zeros (top : Z) : Z := if top =? 0 then 8 else 7 - Z.log2 top.

Definition bit_length (self : RsaModulus) : Z :=
  match modulus_bytes self with
  | [] => 0
  | top :: _ => Z.min USIZE_MAX (len (modulus_bytes self) * 8) - leading_zeros top
  end.

Definition RsaPublicExponent_reconstruct (integer_value : bytes) : result X509Error RsaPublicExponent :=
  let? magnitude := positive_integer_magnitude integer_value in
  if match last magnitude with Some last => Z.land last 1 =? 0 | None => false end
  then Err (InvalidKey "even RSA public exponent")
  else Ok (mkRsaExponent magnitude).

Definition RsaPublicKey_reconstruct (rsa_public_key_der : bytes) : result X509Error RsaPublicKey :=
  let? rsa_public_key := sequence rsa_public_key_der in
  let? _ := expect_children (value rsa_public_key) RSA_PUBLIC_KEY_FIELDS in
  let? modulus := child (value rsa_public_key) 0 in
  let? _ := expect_tag modulus TAG_INTEGER in
  let? exponent := child (value rsa_public_key) 1 in
  let? _ := expect_tag exponent TAG_INTEGER in
  let? modulus := RsaModulus_reconstruct (value modulus) in
  let? exponent := RsaPublicExponent_reconstruct (value exponent) in
  Ok (mkRsaPublicKey modulus exponent).

Definition EcPublicKey_reconstruct (curve : EcCurve) (point : bytes) : result X509Error EcPublicKey :=
  match point with
  | [] => Err (InvalidKey "empty EC point")
  | form :: coordinates =>
      if negb (form =? SEC1_UNCOMPRESSED) then Err (InvalidKey "EC point is not uncompressed")
      else
        let width := coordinate_bytes curve in
        if len coordinates <? width then Err (InvalidKey "EC point shorter than its curve")
        else
          let x := take_z coordinates width in
          let y := drop_z coordinates width in
          if negb (len y =? width) then Err (InvalidKey "EC point width off its curve")
          else Ok (mkEcPublicKey curve x y)
  end.

(** ** The certificate's key *)

Definition reconstruct (certificate_der : bytes) : result X509Error PublicKey :=
  let? certificate := sequence certificate_der in
  let? tbs_bytes := first_child_bytes (value certificate) in
  let? tbs := sequence tbs_bytes in
  let? '(first, _) := child_with_bytes (value tbs) 0 in
  let spki_index := if tag first =? TAG_VERSION then SPKI_INDEX_WITH_VERSION else SPKI_INDEX_NO_VERSION in
  let? spki := child (value tbs) spki_index in
  let? _ := expect_tag spki TAG_SEQUENCE in
  let? _ := expect_children (value spki) SPKI_FIELDS in
  let? algorithm := child (value spki) 0 in
  let? _ := expect_tag algorithm TAG_SEQUENCE in
  let? subject_public_key := child (value spki) 1 in
  let? _ := expect_tag subject_public_key TAG_BIT_STRING in
  let? algorithm_oid := child (value algorithm) 0 in
  let? _ := expect_tag algorithm_oid TAG_OID in
  let oid := value algorithm_oid in
  match value subject_public_key with
  | [] => Err (Malformed "empty subjectPublicKey bit string")
  | unused_bits :: key_bytes =>
      if negb (unused_bits =? 0) then Err (Malformed "subjectPublicKey with unused bits")
      else if bool_decide (oid = OID_RSA_ENCRYPTION) || bool_decide (oid = OID_RSASSA_PSS) then
        let? key := RsaPublicKey_reconstruct key_bytes in Ok (Rsa key)
      else if bool_decide (oid = OID_EC_PUBLIC_KEY) then
        let? parameters := child (value algorithm) 1 in
        let? _ := expect_tag parameters TAG_OID in
        let? curve :=
          if bool_decide (value parameters = OID_SECP384R1) then Ok P384
          else if bool_decide (value parameters = OID_PRIME256V1) then Ok P256
          else Err UnsupportedCurve in
        let? key := EcPublicKey_reconstruct curve key_bytes in Ok (Ecdsa key)
      else Err UnsupportedAlgorithm
  end.

Definition from_certificate (certificate : UnvalidatedCertificate) : result X509Error PublicKey :=
  reconstruct (certificate_bytes certificate).

(** ** Serialization *)

Definition encode (t : Z) (v : bytes) : result X509Error bytes :=
  let? t := ok_or (try_from_uint U8_MAX t) (Malformed "tag exceeds one byte") in
  map_err (fun _ => Malformed "value exceeds the encoder length") (tlv t v).

Definition der_integer (magnitude : bytes) : result X509Error bytes :=
  let pad := match magnitude with top :: _ => if has_high_bit top then [0] else [] | [] => [] end in
  encode TAG_INTEGER (pad ++ magnitude).

Definition to_spki_der (self : PublicKey) : result X509Error bytes :=
  match self with
  | Rsa rsa =>
      let? modulus := der_integer (modulus_bytes (modulus rsa)) in
      let? exponent := der_integer (exponent_bytes (exponent rsa)) in
      let? rsa_public_key := encode TAG_SEQUENCE (modulus ++ exponent) in
      let bit_string := 0 :: rsa_public_key in
      let? oid := encode TAG_OID OID_RSA_ENCRYPTION in
      let? null := encode TAG_NULL [] in
      let? algorithm := encode TAG_SEQUENCE (oid ++ null) in
      let? bit_string := encode TAG_BIT_STRING bit_string in
      encode TAG_SEQUENCE (algorithm ++ bit_string)
  | Ecdsa ec =>
      let? oid := encode TAG_OID OID_EC_PUBLIC_KEY in
      let? named := encode TAG_OID (curve_oid (curve ec)) in
      let? algorithm := encode TAG_SEQUENCE (oid ++ named) in
      let bit_string := [0; SEC1_UNCOMPRESSED] ++ x ec ++ y ec in
      let? bit_string := encode TAG_BIT_STRING bit_string in
      encode TAG_SEQUENCE (algorithm ++ bit_string)
  end.

(** ** Lemmas: what the walk finds *)

Definition fields (ws : list bytes) (rs : list (Z * bytes)) : Prop :=
  Forall2 (fun w r => encodes w r.1 r.2) ws rs.

Lemma get_range_from {A} (p q : list A) : get_range (p ++ q) (len p) (len (p ++ q)) = Some q.
Proof. apply get_range_suffix. Qed.

Lemma skip_fields past ws rs p rest : fields ws rs -> len (p ++ concat ws ++ rest) <= USIZE_MAX ->
  skip_children past (length ws) (p ++ concat ws ++ rest) (len p) = Ok (len (p ++ concat ws)).
Proof.
  intros Hf. revert p. induction Hf as [|w [t v] ws rs Hw Hf IH]; intros p Hl.
  - cbn [concat length skip_children]. by rewrite app_nil_r.
  - cbn [concat length skip_children]. rewrite get_range_from. cbn [ok_or rbind].
    cbn [concat] in Hl. rewrite <- !app_assoc in *.
    destruct (encodes_parse w t v (concat ws ++ rest) Hw) as [Hp _]. rewrite Hp. cbn [map_err rbind size].
    rewrite checked_add_some by (autorewrite with rust_rw in Hl; pose proof (len_nonneg (concat ws));
      pose proof (len_nonneg rest); lia). cbn [ok_or rbind].
    rewrite <- len_app, !app_assoc, <- app_assoc. rewrite IH; [by rewrite <- app_assoc|].
    by rewrite <- app_assoc.
Qed.

Lemma child_at ws rs w t v rest : fields ws rs -> encodes w t v ->
  len (concat ws ++ w ++ rest) <= USIZE_MAX ->
  child_with_bytes (concat ws ++ w ++ rest) (length ws) = Ok (mkBerTlvAny t v (len w), w).
Proof.
  intros Hf Hw Hl. unfold child_with_bytes.
  pose proof (skip_fields "child index past end" ws rs [] (w ++ rest) Hf Hl) as Hs. cbn [app] in Hs.
  change (len (@nil Z)) with 0 in Hs. rewrite Hs. cbn [rbind]. rewrite get_range_from. cbn [ok_or rbind].
  destruct (encodes_parse w t v rest Hw) as [Hp _]. rewrite Hp. cbn [map_err rbind size].
  by rewrite get_range_prefix.
Qed.

Lemma child_of ws rs w t v rest i : i = length ws -> fields ws rs -> encodes w t v ->
  len (concat ws ++ w ++ rest) <= USIZE_MAX ->
  child (concat ws ++ w ++ rest) i = Ok (mkBerTlvAny t v (len w)).
Proof. intros -> Hf Hw Hl. unfold child. by rewrite (child_at ws rs w t v). Qed.

Lemma expect_fields ws rs : fields ws rs -> len (concat ws) <= USIZE_MAX ->
  expect_children (concat ws) (length ws) = Ok tt.
Proof.
  intros Hf Hl. unfold expect_children.
  pose proof (skip_fields "fewer children than the structure requires" ws rs [] [] Hf) as Hs.
  cbn [app] in Hs. rewrite app_nil_r in Hs. change (len (@nil Z)) with 0 in Hs. rewrite Hs by done.
  cbn [rbind]. by rewrite Z.eqb_refl.
Qed.

Lemma two_fields w1 t1 v1 w2 t2 v2 : encodes w1 t1 v1 -> encodes w2 t2 v2 -> len (w1 ++ w2) <= USIZE_MAX ->
  expect_children (w1 ++ w2) 2 = Ok tt /\
  child (w1 ++ w2) 0 = Ok (mkBerTlvAny t1 v1 (len w1)) /\
  child (w1 ++ w2) 1 = Ok (mkBerTlvAny t2 v2 (len w2)).
Proof.
  intros H1 H2 Hl. split_and!.
  - pose proof (expect_fields [w1; w2] [(t1, v1); (t2, v2)]) as He. cbn [concat] in He. rewrite app_nil_r in He.
    apply He; [|done]. constructor; [done|]. constructor; [done|constructor].
  - apply (child_of [] [] w1 t1 v1 w2 0); [done|constructor|done|done].
  - pose proof (child_of [w1] [(t1, v1)] w2 t2 v2 [] 1 eq_refl) as Hc. cbn [concat app] in Hc.
    rewrite !app_nil_r in Hc. apply Hc; [|done|done]. constructor; [done|constructor].
Qed.

Lemma sequence_of w v : encodes w TAG_SEQUENCE v -> sequence w = Ok (mkBerTlvAny TAG_SEQUENCE v (len w)).
Proof.
  intros Hw. unfold sequence, single_tlv. destruct (encodes_parse w _ v [] Hw) as [Hp _].
  rewrite app_nil_r in Hp. rewrite Hp. cbn [map_err rbind size]. by rewrite Z.eqb_refl.
Qed.

Lemma encode_ok t v : tag1_ok t -> len v <= U32_MAX ->
  exists w, encode t v = Ok w /\ encodes w t v /\ len w <= len v + 6.
Proof.
  intros Ht Hv. pose proof (tlv_ok_eq t v Ht Hv) as He. exists ([t] ++ length_octets (len v) ++ v).
  unfold encode. rewrite try_from_uint_some by apply Ht. cbn [ok_or rbind]. rewrite He.
  split; [done|]. split; [by left|]. pose proof (len_nonneg v).
  pose proof (length_octets_len (len v) ltac:(ulia)). autorewrite with rust_rw. lia.
Qed.

(** ** Lemmas: the values a key carries *)

(** A minimal big-endian magnitude of a positive number. *)
Definition magnitude_ok (m : bytes) : Prop := exists top rest, m = top :: rest /\ top <> 0.

(** The magnitude of an odd number, by its last octet. *)
Definition is_odd (m : bytes) : Prop := exists e, last m = Some e /\ Z.land e 1 <> 0.

(** The invariants the key types claim. *)
Definition key_ok (k : PublicKey) : Prop :=
  match k with
  | Rsa r => magnitude_ok (modulus_bytes (modulus r)) /\ magnitude_ok (exponent_bytes (exponent r)) /\
      is_odd (exponent_bytes (exponent r))
  | Ecdsa e => len (x e) = coordinate_bytes (curve e) /\ len (y e) = coordinate_bytes (curve e)
  end.

Definition key_size (k : PublicKey) : Z :=
  match k with
  | Rsa r => len (modulus_bytes (modulus r)) + len (exponent_bytes (exponent r))
  | Ecdsa e => 0
  end.

Lemma magnitude_inv v m : positive_integer_magnitude v = Ok m -> magnitude_ok m /\ len m <= len v.
Proof.
  destruct v as [|a v]; [done|]. cbn. destruct (Z.eqb_spec a 0).
  - destruct v as [|b v]; [done|]. destruct (has_high_bit b) eqn:Hb; [|done]. intros [= <-].
    split; [|rewrite !len_cons; lia]. exists b, v. split; [done|]. by intros ->.
  - destruct (has_high_bit a) eqn:Ha; [done|]. intros [= <-]. split; [|lia]. by exists a, v.
Qed.

(** The padded form of a magnitude is read back as the magnitude. *)
Lemma magnitude_padded m : magnitude_ok m ->
  positive_integer_magnitude
    (match m with top :: _ => if has_high_bit top then [0] else [] | [] => [] end ++ m) = Ok m.
Proof.
  intros (top & rest & -> & Ht). destruct (has_high_bit top) eqn:Hb; cbn.
  - by rewrite Hb.
  - by rewrite (proj2 (Z.eqb_neq _ _) Ht), Hb.
Qed.

Lemma tag_ok_1 : tag1_ok TAG_SEQUENCE /\ tag1_ok TAG_INTEGER /\ tag1_ok TAG_BIT_STRING /\
  tag1_ok TAG_OID /\ tag1_ok TAG_NULL.
Proof. by split_and!; (split; [unfold is_uint|]; vm_compute). Qed.

Lemma der_integer_ok m : magnitude_ok m -> len m < U32_MAX ->
  exists w v, der_integer m = Ok w /\ encodes w TAG_INTEGER v /\ positive_integer_magnitude v = Ok m /\
    len w <= len m + 7.
Proof.
  intros Hm Hl. pose proof (magnitude_padded m Hm) as Hp. unfold der_integer.
  set (pad := match m with top :: _ => if has_high_bit top then [0] else [] | [] => [] end) in *.
  assert (len pad <= 1) by (unfold pad; destruct m; [done|]; by destruct (has_high_bit z)).
  destruct (encode_ok TAG_INTEGER (pad ++ m)) as (w & He & Hw & Hlw); [apply tag_ok_1|rewrite len_app; lia|].
  exists w, (pad ++ m). split_and!; try done. rewrite len_app in Hlw. lia.
Qed.

(** ** Lemmas: what the walk accepts *)

Lemma child_inv v i t bs : len v < USIZE_MAX -> child_with_bytes v i = Ok (t, bs) ->
  len (value t) <= len v /\ len bs <= len v.
Proof.
  intros Hl. unfold child_with_bytes.
  destruct (skip_children _ _ _ _) as [c|]; [|done]. cbn [rbind].
  destruct (get_range v c (len v)) as [rest|] eqn:Hr; [|done]. cbn [ok_or rbind].
  assert (Hlr : len rest <= len v).
  { pose proof (get_range_len _ _ _ _ Hr). apply get_range_spec in Hr as (? & ? & _). lia. }
  destruct (parse rest) as [f|] eqn:Hp; [|done]. cbn [map_err rbind].
  destruct (get_range rest 0 (size f)) as [b|] eqn:Hb; [|done]. cbn [ok_or rbind]. intros [= <- <-].
  apply parse_inv in Hp as (h & q & -> & Hs & Hh); [|lia]. apply get_range_len in Hb.
  autorewrite with rust_rw in Hlr. pose proof (len_nonneg q). lia.
Qed.

Lemma child_inv' v i t : len v < USIZE_MAX -> child v i = Ok t -> len (value t) <= len v.
Proof.
  intros Hl. unfold child. destruct (child_with_bytes v i) as [[t' bs]|] eqn:E; [|done].
  intros [= <-]. by apply child_inv in E as [? _].
Qed.

Lemma sequence_inv bs t : len bs < USIZE_MAX -> sequence bs = Ok t -> len (value t) <= len bs.
Proof.
  intros Hl. unfold sequence, single_tlv. destruct (parse bs) as [r|] eqn:Hp; [|done]. cbn [map_err rbind].
  case_if; [done|]. cbn [rbind]. destruct (expect_tag r TAG_SEQUENCE); [|done]. intros [= <-].
  apply parse_inv in Hp as (h & q & -> & _); [|done]. autorewrite with rust_rw.
  pose proof (len_nonneg h). pose proof (len_nonneg q). lia.
Qed.

(** One more step of a walk: the success of what is bound next. *)
Ltac walk H :=
  let a := fresh "t" in let E := fresh "E" in
  apply rbind_ok_inv in H as (a & E & H).

Lemma rsa_accepted der r : len der < USIZE_MAX -> RsaPublicKey_reconstruct der = Ok r ->
  key_ok (Rsa r) /\ key_size (Rsa r) <= 2 * len der.
Proof.
  intros Hl H. unfold RsaPublicKey_reconstruct in H. do 8 walk H. injection H as <-.
  apply sequence_inv in E; [|done]. apply child_inv' in E1; [|lia]. apply child_inv' in E3; [|lia].
  unfold RsaModulus_reconstruct in E5. apply rbind_ok_inv in E5 as (m & Em & [= <-]).
  unfold RsaPublicExponent_reconstruct in E6. apply rbind_ok_inv in E6 as (ex & Ee & E6).
  apply magnitude_inv in Em as (Hm & Hml). apply magnitude_inv in Ee as (He & Hel).
  destruct (last ex) as [e|] eqn:Hlast.
  - destruct (Z.eqb_spec (Z.land e 1) 0); [done|]. injection E6 as <-. cbn.
    split; [|lia]. split_and!; [done|done|]. by exists e.
  - destruct He as (top & rest & -> & _). by rewrite last_None in Hlast.
Qed.

Lemma ec_accepted c point e : EcPublicKey_reconstruct c point = Ok e -> key_ok (Ecdsa e) /\ curve e = c.
Proof.
  destruct point as [|form cs]; [done|]. cbn [EcPublicKey_reconstruct]. case_if; [done|].
  destruct (Z.ltb_spec (len cs) (coordinate_bytes c)); [done|].
  destruct (Z.eqb_spec (len (drop_z cs (coordinate_bytes c))) (coordinate_bytes c)); [|done]. cbn [negb].
  intros [= <-]. cbn. split; [|done]. split; [|done]. apply len_take_z. split; [by destruct c|lia].
Qed.

Lemma reconstruct_accepted der k : len der < USIZE_MAX -> reconstruct der = Ok k ->
  key_ok k /\ key_size k <= 2 * len der.
Proof.
  intros Hl H. unfold reconstruct in H.
  apply rbind_ok_inv in H as (cert & Ec & H). apply rbind_ok_inv in H as (tbs_bytes & Eb & H).
  apply rbind_ok_inv in H as (tbs & Et & H). apply rbind_ok_inv in H as ([first ?] & _ & H).
  apply rbind_ok_inv in H as (spki & Es & H). do 4 walk H. apply rbind_ok_inv in H as (key & Ek & H).
  do 3 walk H. apply sequence_inv in Ec; [|done]. unfold first_child_bytes in Eb.
  apply rbind_ok_inv in Eb as ([? ?] & Eb & [= ->]). apply child_inv in Eb as (_ & Eb); [|lia].
  apply sequence_inv in Et; [|lia]. apply child_inv' in Es; [|lia]. apply child_inv' in Ek; [|lia].
  destruct (value key) as [|u key_bytes] eqn:Hv; [done|]. rewrite len_cons in Ek.
  case_match_in H; [done|]. case_match_in H.
  - apply rbind_ok_inv in H as (r & Er & [= <-]). apply rsa_accepted in Er as (Hok & Hs); [|lia].
    split; [done|lia].
  - case_match_in H; [|done]. do 3 walk H. apply rbind_ok_inv in H as (e & Ee & [= <-]).
    apply ec_accepted in Ee as (Hok & _). split; [done|]. cbn. pose proof (len_nonneg der). lia.
Qed.

(** ** Lemmas: a serialized key is walked to the key *)

(** The part of [reconstruct] from the SubjectPublicKeyInfo on. *)
Definition key_of_spki (spki : BerTlvAny) : result X509Error PublicKey :=
  let? _ := expect_tag spki TAG_SEQUENCE in
  let? _ := expect_children (value spki) SPKI_FIELDS in
  let? algorithm := child (value spki) 0 in
  let? _ := expect_tag algorithm TAG_SEQUENCE in
  let? subject_public_key := child (value spki) 1 in
  let? _ := expect_tag subject_public_key TAG_BIT_STRING in
  let? algorithm_oid := child (value algorithm) 0 in
  let? _ := expect_tag algorithm_oid TAG_OID in
  let oid := value algorithm_oid in
  match value subject_public_key with
  | [] => Err (Malformed "empty subjectPublicKey bit string")
  | unused_bits :: key_bytes =>
      if negb (unused_bits =? 0) then Err (Malformed "subjectPublicKey with unused bits")
      else if bool_decide (oid = OID_RSA_ENCRYPTION) || bool_decide (oid = OID_RSASSA_PSS) then
        let? key := RsaPublicKey_reconstruct key_bytes in Ok (Rsa key)
      else if bool_decide (oid = OID_EC_PUBLIC_KEY) then
        let? parameters := child (value algorithm) 1 in
        let? _ := expect_tag parameters TAG_OID in
        let? curve :=
          if bool_decide (value parameters = OID_SECP384R1) then Ok P384
          else if bool_decide (value parameters = OID_PRIME256V1) then Ok P256
          else Err UnsupportedCurve in
        let? key := EcPublicKey_reconstruct curve key_bytes in Ok (Ecdsa key)
      else Err UnsupportedAlgorithm
  end.

(** What [reconstruct] does with the fields of the TBSCertificate. *)
Lemma reconstruct_tbs cert tbs tbs_value signature first rest spki :
  encodes cert TAG_SEQUENCE (tbs ++ signature) -> encodes tbs TAG_SEQUENCE tbs_value ->
  child_with_bytes tbs_value 0 = Ok (first, rest) ->
  child tbs_value (if tag first =? TAG_VERSION then SPKI_INDEX_WITH_VERSION else SPKI_INDEX_NO_VERSION)
    = Ok spki ->
  reconstruct cert = key_of_spki spki.
Proof.
  intros Hc Ht Hf Hs. unfold reconstruct. rewrite (sequence_of _ _ Hc). cbn [rbind value].
  unfold first_child_bytes. pose proof (child_at [] [] tbs TAG_SEQUENCE tbs_value signature) as Hb.
  cbn [concat app length] in Hb. rewrite Hb; [|constructor|done|].
  2:{ destruct Hc as [[Ht1 Hc]|[Ht2 _]].
      - pose proof (tlv_len_bound _ _ _ Hc). unfold USIZE_MAX, U64_MAX, U32_MAX in *. lia.
      - exfalso. destruct Ht2 as (_ & Hx & _). vm_compute in Hx. discriminate Hx. }
  cbn [rbind]. rewrite (sequence_of _ _ Ht). cbn [rbind value]. rewrite Hf. cbn [rbind].
  rewrite Hs. cbn [rbind]. reflexivity.
Qed.

(** The two fields of a serialized key. *)
Lemma key_of_fields spki algorithm oid oid_value params params_tag params_value bit_string key_bytes :
  encodes oid TAG_OID oid_value -> encodes params params_tag params_value ->
  encodes algorithm TAG_SEQUENCE (oid ++ params) -> encodes bit_string TAG_BIT_STRING (0 :: key_bytes) ->
  len (oid ++ params) <= USIZE_MAX -> len (algorithm ++ bit_string) <= USIZE_MAX ->
  key_of_spki (mkBerTlvAny TAG_SEQUENCE (algorithm ++ bit_string) spki) =
  if bool_decide (oid_value = OID_RSA_ENCRYPTION) || bool_decide (oid_value = OID_RSASSA_PSS) then
    let? key := RsaPublicKey_reconstruct key_bytes in Ok (Rsa key)
  else if bool_decide (oid_value = OID_EC_PUBLIC_KEY) then
    let? _ := expect_tag (mkBerTlvAny params_tag params_value (len params)) TAG_OID in
    let? curve :=
      if bool_decide (params_value = OID_SECP384R1) then Ok P384
      else if bool_decide (params_value = OID_PRIME256V1) then Ok P256
      else Err UnsupportedCurve in
    let? key := EcPublicKey_reconstruct curve key_bytes in Ok (Ecdsa key)
  else Err UnsupportedAlgorithm.
Proof.
  intros Ho Hp Ha Hb Hl1 Hl2. destruct (two_fields _ _ _ _ _ _ Ha Hb Hl2) as (H1 & H2 & H3).
  destruct (two_fields _ _ _ _ _ _ Ho Hp Hl1) as (_ & H4 & H5).
  unfold key_of_spki, expect_tag, SPKI_FIELDS. cbn [value tag]. rewrite Z.eqb_refl. cbn [rbind].
  rewrite H1. cbn [rbind]. rewrite H2. cbn [rbind value tag]. rewrite H3. cbn [rbind value tag].
  rewrite H4. cbn [rbind value tag]. rewrite H5. reflexivity.
Qed.

Lemma rsa_read r m mv e ev seq : key_ok (Rsa r) ->
  encodes m TAG_INTEGER mv -> positive_integer_magnitude mv = Ok (modulus_bytes (modulus r)) ->
  encodes e TAG_INTEGER ev -> positive_integer_magnitude ev = Ok (exponent_bytes (exponent r)) ->
  encodes seq TAG_SEQUENCE (m ++ e) -> len (m ++ e) <= USIZE_MAX ->
  RsaPublicKey_reconstruct seq = Ok r.
Proof.
  intros (_ & _ & (o & Ho & Hodd)) Hm Hmv He Hev Hs Hl. destruct (two_fields _ _ _ _ _ _ Hm He Hl) as (H1 & H2 & H3).
  unfold RsaPublicKey_reconstruct, RSA_PUBLIC_KEY_FIELDS, RsaModulus_reconstruct, RsaPublicExponent_reconstruct,
    expect_tag. rewrite (sequence_of _ _ Hs). cbn [rbind value]. rewrite H1. cbn [rbind].
  rewrite H2. cbn [rbind value tag]. rewrite H3. cbn [rbind value tag]. rewrite Hmv, Hev. cbn [rbind].
  rewrite Ho, (proj2 (Z.eqb_neq _ _) Hodd). by destruct r as [[] []].
Qed.

Lemma ec_read e : key_ok (Ecdsa e) ->
  EcPublicKey_reconstruct (curve e) (SEC1_UNCOMPRESSED :: x e ++ y e) = Ok e.
Proof.
  intros (Hx & Hy). unfold EcPublicKey_reconstruct. rewrite Z.eqb_refl. cbn [negb].
  pose proof (len_nonneg (y e)). rewrite (proj2 (Z.ltb_ge _ _)) by (rewrite len_app; lia).
  assert (Hn : Z.to_nat (coordinate_bytes (curve e)) = length (x e)) by (unfold len in Hx; lia).
  unfold take_z, drop_z. rewrite Hn, take_app_length, drop_app_length, Hy, Z.eqb_refl.
  by destruct e.
Qed.

(** Each step of a serialization. *)
Ltac encoded t v w :=
  let H := fresh "H" in
  destruct (encode_ok t v) as (w & H & ? & ?);
  [apply tag_ok_1|autorewrite with rust_rw in *; unfold U32_MAX in *; lia|rewrite H; cbn [rbind]; clear H].

Lemma spki_ok k : key_ok k -> key_size k + 64 <= U32_MAX ->
  exists spki body, to_spki_der k = Ok spki /\ encodes spki TAG_SEQUENCE body /\
    forall n, key_of_spki (mkBerTlvAny TAG_SEQUENCE body n) = Ok k.
Proof.
  assert (Hle : U32_MAX <= USIZE_MAX) by done. assert (Hbig : 1000 <= USIZE_MAX) by done.
  assert (len OID_RSA_ENCRYPTION = 9) by done. assert (len OID_EC_PUBLIC_KEY = 7) by done.
  destruct k as [r|e]; intros Hok Hs; unfold to_spki_der; cbn [key_size] in Hs.
  - destruct Hok as (Hm & He & Ho) eqn:Hk. clear Hk.
    pose proof (len_nonneg (modulus_bytes (modulus r))). pose proof (len_nonneg (exponent_bytes (exponent r))).
    destruct (der_integer_ok _ Hm) as (wm & vm & -> & Hwm & Hvm & Hlm); [lia|]. cbn [rbind].
    destruct (der_integer_ok _ He) as (we & ve & -> & Hwe & Hve & Hle'); [lia|]. cbn [rbind].
    encoded TAG_SEQUENCE (wm ++ we) ws. encoded TAG_OID OID_RSA_ENCRYPTION wo. encoded TAG_NULL (@nil Z) wn.
    encoded TAG_SEQUENCE (wo ++ wn) wa. encoded TAG_BIT_STRING (0 :: ws) wb.
    encoded TAG_SEQUENCE (wa ++ wb) spki. exists spki, (wa ++ wb). split_and!; [done|done|]. intros n.
    rewrite (key_of_fields n wa wo OID_RSA_ENCRYPTION wn TAG_NULL [] wb ws) by
      (done || (autorewrite with rust_rw in *; lia)).
    cbn [bool_decide]. rewrite bool_decide_true by done. cbn [orb].
    by rewrite (rsa_read r wm vm we ve ws) by (done || (autorewrite with rust_rw in *; lia)).
  - destruct Hok as (Hx & Hy) eqn:Hk. clear Hk. assert (coordinate_bytes (curve e) <= 48) by (by destruct (curve e)).
    assert (len (curve_oid (curve e)) <= 8) by (by destruct (curve e)).
    assert (len [0; SEC1_UNCOMPRESSED] = 2) by done.
    encoded TAG_OID OID_EC_PUBLIC_KEY wo. encoded TAG_OID (curve_oid (curve e)) wn.
    encoded TAG_SEQUENCE (wo ++ wn) wa. encoded TAG_BIT_STRING ([0; SEC1_UNCOMPRESSED] ++ x e ++ y e) wb.
    encoded TAG_SEQUENCE (wa ++ wb) spki. exists spki, (wa ++ wb). split_and!; [done|done|]. intros n.
    rewrite (key_of_fields n wa wo OID_EC_PUBLIC_KEY wn TAG_OID (curve_oid (curve e)) wb
      (SEC1_UNCOMPRESSED :: x e ++ y e)) by (done || (autorewrite with rust_rw in *; lia)).
    rewrite !bool_decide_false, bool_decide_true by done. cbn [orb expect_tag tag Z.eqb rbind].
    assert (Hc : (if bool_decide (curve_oid (curve e) = OID_SECP384R1) then Ok P384
      else if bool_decide (curve_oid (curve e) = OID_PRIME256V1) then Ok P256
      else Err UnsupportedCurve) = Ok (E := X509Error) (curve e)) by (by destruct (curve e)).
    rewrite Hc. cbn [rbind]. by rewrite ec_read.
Qed.

(** The fields before the key: six with an explicit version, else five. *)
Definition before_spki (rs : list (Z * bytes)) : Prop :=
  match rs with
  | (t, _) :: _ => length rs = if t =? TAG_VERSION then SPKI_INDEX_WITH_VERSION else SPKI_INDEX_NO_VERSION
  | [] => False
  end.

Lemma tag1_encodes t v w : tag1_ok t -> tlv t v = Ok w -> encodes w t v.
Proof. intros Ht Hw. by left. Qed.

(** A certificate that carries [spki] in its place. *)
Lemma reconstruct_placed ws rs spki body rest signature tbs cert :
  fields ws rs -> before_spki rs -> encodes spki TAG_SEQUENCE body ->
  tlv TAG_SEQUENCE (concat ws ++ spki ++ rest) = Ok tbs -> tlv TAG_SEQUENCE (tbs ++ signature) = Ok cert ->
  reconstruct cert = key_of_spki (mkBerTlvAny TAG_SEQUENCE body (len spki)).
Proof.
  intros Hf Hb Hs Ht Hc. pose proof (tlv_len_bound _ _ _ Ht) as Hl.
  assert (Hle : U32_MAX <= USIZE_MAX) by done.
  destruct Hf as [|w [t v] ws rs Hw Hf]; [done|]. unfold before_spki in Hb.
  pose proof (Forall2_length _ _ _ Hf) as Hlen. cbn [length] in Hb.
  eapply reconstruct_tbs; [apply tag1_encodes; [apply tag_ok_1|done]|apply tag1_encodes; [apply tag_ok_1|done]| |].
  - cbn [concat] in *. rewrite <- app_assoc in *.
    apply (child_at [] [] w t v (concat ws ++ spki ++ rest)); [constructor|done|cbn [concat app]; lia].
  - cbn [tag]. apply (child_of (w :: ws) ((t, v) :: rs)); [cbn [length]; lia|by constructor|done|lia].
Qed.

(** ** Properties *)

(** C30 A key the walk of a certificate returns meets what its types claim
    (minimal magnitudes with a non-zero leading octet, an odd exponent,
    coordinates of exactly the curve's width), its serialization succeeds, and
    any certificate that carries that serialization in the place of its key,
    with or without an explicit version, is walked to the same key. *)
Theorem certified_key_round_trip der k :
  2 * len der + 64 <= U32_MAX -> from_certificate (mkUnvalidated der) = Ok k ->
  key_ok k /\ exists spki, to_spki_der k = Ok spki /\
    forall ws rs rest signature tbs cert,
      fields ws rs -> before_spki rs ->
      tlv TAG_SEQUENCE (concat ws ++ spki ++ rest) = Ok tbs ->
      tlv TAG_SEQUENCE (tbs ++ signature) = Ok cert ->
      from_certificate (mkUnvalidated cert) = Ok k.
Proof.
  intros Hl H. destruct (reconstruct_accepted der k) as (Hok & Hs); [unfold USIZE_MAX, U64_MAX, U32_MAX in *; lia|done|].
  split; [done|]. destruct (spki_ok k Hok) as (spki & body & He & Hb & Hk); [lia|].
  exists spki. split; [done|]. intros ws rs rest signature tbs cert Hf Hp Ht Hc. unfold from_certificate.
  cbn [certificate_bytes]. by rewrite (reconstruct_placed ws rs spki body rest signature tbs cert).
Qed.

(** ** A P-256 key *)

Definition demo_key : PublicKey := Ecdsa (mkEcPublicKey P256 (repeat 7 32) (repeat 9 32)).

Definition demo_certificate (names : bytes) : bytes :=
  match to_spki_der demo_key with
  | Ok spki =>
      match tlv TAG_SEQUENCE (names ++ spki ++ [0xA3; 0x00]) with
      | Ok tbs => match tlv TAG_SEQUENCE (tbs ++ [0x03; 0x01; 0x00]) with Ok cert => cert | Err _ => [] end
      | Err _ => []
      end
  | Err _ => []
  end.

(** Five empty fields, and the same after an explicit version. *)
Definition demo_fields : list bytes := [[0x02; 0x00]; [0x30; 0x00]; [0x30; 0x00]; [0x30; 0x00]; [0x30; 0x00]].
Definition demo_versioned : list bytes := [0xA0; 0x00] :: demo_fields.

Lemma certified_key_round_trip_witness :
  key_ok demo_key /\ from_certificate (mkUnvalidated (demo_certificate (concat demo_versioned))) = Ok demo_key.
Proof.
  destruct (certified_key_round_trip (demo_certificate (concat demo_fields)) demo_key) as (Hok & spki & Hs & Hc).
  - vm_compute. discriminate.
  - vm_compute. reflexivity.
  - split; [exact Hok|].
    assert (Hspki : to_spki_der demo_key = Ok spki) by exact Hs. vm_compute in Hspki. injection Hspki as <-.
    eapply (Hc demo_versioned [(0xA0, []); (0x02, []); (0x30, []); (0x30, []); (0x30, []); (0x30, [])] [0xA3; 0x00]
      [0x03; 0x01; 0x00]).
    + repeat (constructor; [left; split; [split; vm_compute; (split; discriminate) || discriminate|reflexivity]|]).
      constructor.
    + reflexivity.
    + vm_compute. reflexivity.
    + vm_compute. reflexivity.
Defined.

End X509.
